(* ===== verification/_CoqProject ===== *)
-Q . S2P
Prelude.v
Codec.v
FixedUInt.v
UInt128.v
UInt256.v
Decimal.v
DecimalFacts.v
DecimalDivision.v
DecimalSpec.v
Chunked.v
WebCodec.v
WebFrames.v
Text.v
TextEdit.v
HttpMessage.v
HttpParser.v
HttpFacts.v
HttpRoundtrip.v
Variant.v
VariantFacts.v
Schema.v
SchemaFacts.v
SchemaObject.v
Regex.v
RegexFacts.v
Arena.v
ArenaFacts.v
Multiplexer.v
MultiplexerFacts.v
MultiplexerSpec.v
SocketIo.v
SocketFacts.v
SocketSpec.v
Location.v
LocationFacts.v
Uplinks.v
UplinksFacts.v
UplinksSpec.v
Address.v
AddressFacts.v
Multipart.v
MultipartFacts.v
MultipartContent.v
MultipartSpec.v
WebSocket.v
WebSocketFacts.v
WebSocketOrder.v
WebSocketSpec.v
Routing.v
RoutingFacts.v
Promise.v
PromiseFacts.v
PromiseWake.v
PromiseSpec.v
PromiseReady.v
PromiseRuns.v
PromiseEnds.v
PromiseDefects.v
Coroutine.v
CoroutineFacts.v
CoroutineRuns.v
CoroutineSpec.v
Timers.v
TimersFacts.v
TimersSpec.v
Md5.v
Md5Facts.v
Md5Spec.v
Smtp.v
SmtpSpec.v
SmtpMail.v
SmtpExamples.v
