(* ===== verification/Prelude.v ===== *)
(** * Vitex: a verification library

    Vitex (src/src/vitex/) is a C++ framework: codecs, wide integers and decimals for value types, variants and
    schemas for dynamic data, and servers and clients for HTTP and WebSocket above sockets.  This library is
    a model of its pure core - the parts whose behaviour is decided by the bytes they are given and the state
    they keep - with theorems about it.  Every definition is a translation of the C++ function named in its
    comment or of the one it carries the name of; what the code reads from the operating system, from OpenSSL
    or from the floating-point library is a parameter.

    ** How the parts fit

    Prelude.v (this file) has the machine integers, characters, loops with fuel, digit lists, evaluation and tactics.
    Everything else builds on it, a file per component:

    - Codec.v: the text codecs of [compute::codec] (compute.cpp 7330-7881) and [stringify] helpers - hexadecimal,
      base64, base32, base45, BEP45, percent encoding, radix conversion, UTF-8, buffer rotation.
    - FixedUInt.v: the interface a fixed-width integer offers to the text routines (class [FixedUInt] with its
      laws) and what follows from it; UInt128.v and UInt256.v: [uint128] and [uint256] (compute.h, compute.cpp
      950-2330), halves of 64 bits with their carries, every operator, serialisation and text.
    - Decimal.v: [decimal] (core.cpp 1976-3273), a sign, the digits lowest first and the count of fraction
      digits; DecimalFacts.v has its invariant [canonical] and its value as a rational, DecimalDivision.v the
      digit search of division and modulo, DecimalSpec.v the theorems.
    - Text.v and TextEdit.v: [stringify] (core.cpp 4171-5752), searching, splitting, trimming, editing,
      escaping, replacing, predicates and numerals.
    - Variant.v, VariantFacts.v: [variant] (core.cpp 3274-3803), the tagged union of schema values and its text.
    - Schema.v: [schema] (core.cpp 11715-13069), the tree of named variants, its operations and the JSONB writer
      and reader; SchemaFacts.v: the round trip and the reader on any input, SchemaObject.v: an object is a map.
    - Regex.v: [regex] and [regex_source] (compute.cpp 76-690), the compiler of patterns, the backtracking matcher
      and replacement; RegexFacts.v: what it finds on patterns without branches, and where the others go wrong.
    - Arena.v: [linear_allocator] and [stack_allocator] (core.cpp 699-871), addresses carved from regions;
      ArenaFacts.v: live blocks do not overlap.
    - Chunked.v: [http::parser::parse_decode_chunked] (network/http.cpp), the in-place decoder of the chunked
      transfer coding, with the sender of a chunk.
    - WebCodec.v, WebFrames.v: [http::web_codec] and [web_socket_frame::send], the frames of RFC 6455.
    - WebSocket.v: [web_socket_frame] (network/http.cpp 175-531), the queue of messages, the write under way, the states of
      [update] with the codec, closing; callbacks are data with the calls they make.  WebSocketFacts.v: the calls end and keep
      the invariant of callbacks and bytes; WebSocketOrder.v: the order of messages; WebSocketSpec.v: theorems on runs.
    - Multiplexer.v: [multiplexer] with its queues for poll and epoll, the events of a [socket], timers, dispatching and
      shutdown, and the order of the mutexes (network.cpp 233-435, 1953-2256, 3719-3910); MultiplexerFacts.v has the
      invariant of the timers, MultiplexerSpec.v the theorems.  The kernel is a class with the laws of epoll_ctl(2).
    - SocketIo.v: the queued, chunked and deferred reads and writes of [socket] (network.cpp 3031-3606) over a script of
      what the connection yields; SocketFacts.v and SocketSpec.v: what they deliver.
    - Location.v: the URL parser of [location] (network.cpp 468-638); LocationFacts.v: it undoes a printer.
    - Uplinks.v: [uplinks], the pools of idle connections with their listeners and reference counts, and the use
      [socket_client] makes of them (network.cpp 2258-2445, 4716-4793); UplinksFacts.v has the effects of the calls and the
      invariants, UplinksSpec.v the theorems on programs of calls.
    - Address.v: [socket_address], its identification, and the address masks of [utils] (network.cpp 115-131, 695-918,
      1444-1523); AddressFacts.v: what a mask matches.
    - Multipart.v: [parser::multipart_parse] with the callbacks for the parts of a form (network/http.cpp 2634-2857,
      4480-4602); MultipartFacts.v: it ends; MultipartContent.v: the search for the delimiter; MultipartSpec.v: theorems.
    - Routing.v: [map_router], the order of its groups and entries, the choice of the entry for a request and the path of the
      file it names (network/http.cpp 535-698, 4180-4437); RoutingFacts.v: which entry is taken and where paths lead.
    - Promise.v: [basic_promise] and the tasks that settle promises (core.h 4177-4600, 5008-5240; core.cpp 11036-11048,
      11447-11489, 11621-11713): shared states, callbacks and threads that interleave between the sections a mutex protects, the queues
      of the scheduler.  PromiseFacts.v accounts for callbacks and references, PromiseWake.v for waiting threads, PromiseSpec.v and
      PromiseReady.v have the invariants of steps, PromiseRuns.v and PromiseEnds.v the theorems, PromiseDefects.v witnesses and what is lost.
    - Coroutine.v: [costate], its dispatcher, [coawait] and the scheduler's trigger (core.cpp 10692-10954, 11136-11180);
      the callback of a promise is given to the executor, which calls it, makes a task of it or has it refused; the tasks come
      out of a queue that is a parameter, [take], and other threads act at each look at what they share with the dispatcher.
      CoroutineFacts.v has the invariant, CoroutineRuns.v the run of a fiber, CoroutineSpec.v the theorems.
    - Timers.v: the timeouts of [schedule] and the loop of their thread (core.cpp 10991-11135, 11305-11380);
      TimersFacts.v: the places of a timer, TimersSpec.v: theorems.
    - Md5.v: [md5_hasher] (compute.cpp 2486-2705); Md5Facts.v: the reference and one block, Md5Spec.v: messages.
    - Smtp.v: the SMTP client (network/smtp.cpp) as a monad over the replies of a server; SmtpSpec.v: challenges and
      attachments, SmtpMail.v: a receiving server and the mail that arrives, SmtpExamples.v: witnesses and mails that go wrong.
    - HttpMessage.v: header maps, request and response frames, byte ranges and the writing of heads;
      HttpParser.v: [http::parser] for request and response heads; HttpFacts.v and HttpRoundtrip.v: theorems.

    The client of a socket is told by the multiplexer: the loops of SocketIo.v suspend with the event they wait
    for, and Multiplexer.v says when the callback is called.  Uplinks.v keeps a connection between two clients, under the
    identification Address.v makes of its address, and listens to it through the multiplexer meanwhile.  The promises of
    Promise.v are what deferred operations give their clients; a coroutine of Coroutine.v awaits them, and of a promise only the callback that
    activates it is kept there.  The network files use the strings of Text.v and the codecs of Codec.v as the C++ does; a variant holds a
    decimal and writes binary data with BEP45; JSONB writes a decimal as its text.

    ** How state and operations are written

    A 64-bit half, a counter or a byte is a [Z], and every operation that can leave the width of its C++ type
    is wrapped with [wrapU] or [wrapS]; an index that the code keeps inside a buffer is a [nat].  A [string]
    is the list of its bytes.  An operation that mutates its object returns the changed record.  A loop of the
    code is a structural recursion over what it consumes, or a recursion on fuel that returns [None] when the
    fuel is spent; a throw, an out-of-range read or an undefined result is a [None] or an error constructor, as
    the comment at the definition says.  The head parser runs in a monad of its own (HttpParser.v) over the
    parsed frame, whose results separate a return code from a read outside of the buffer.

    Fuel is chosen from the input and each theorem that a function returns shows it to be enough: the number of
    bits for the divisions (128, 256), the digits of the dividend plus the precision for decimal division,
    the length of the text for the text loops, twice the length of the binary plus two for JSONB (each node
    takes five bytes and costs two steps), the steps coroutines have left for the rounds of their dispatcher, the coroutines in use for its passes, the number of timers for a pass of
    their thread, a measure of state and unread bytes for the WebSocket loop, and the
    length of the buffer for chunks and heads.

    Sizes and times are bounded where the code's own arithmetic would wrap: the theorems on the event loop are about programs whose
    timeouts are at most 2^50 milliseconds while the clock is below 2^61 microseconds, with fewer than 2^60 sockets, and those on the
    local allocators about requests below 2^64 - 40 bytes (2^64 - 48 for the stack).  [huge_timeout_dangles] and [region_wraps_defect] show
    what the same definitions do outside of these bounds.

    ** What the theorems show

    - Arithmetic: [uint128] and [uint256] refine the integers modulo 2^128 and 2^256; their divisions end and are
      Euclidean; decimals are exact on rationals, division is truncation at the larger scale on the dividends
      the code handles, and DecimalSpec.decimal_leading_zero_defects shows where it does not.
    - Round trips: codecs, text of integers, decimals and variants, JSONB, chunks, frames, request heads.
    - Parsers on streams: the chunk decoder is equal to a byte-at-a-time specification and, as the frame parser,
      does not depend on how the input is cut; the head parser never leaves its buffer and continues an
      incomplete head as if it had been whole.
    - Termination and errors: every reader returns on every input; JSONB ends with a schema or an error.
    - The event loop: timers and trackers hold exactly the sockets that wait, every callback is waiting, called - on its
      event, by a cancellation, or when another replaces it - or dropped by a call that ends the wait with [finish], timers are told in order and a shutdown tells everyone; the waits the kernel
      refuses and the lock order that can block two threads are shown on the model.
    - Sockets: a read ends with the bytes asked for however they are cut, a write sends a prefix and all of it
      when it reports success; and the reads that lose bytes or never settle.
    - WebSocket connections: callbacks are called once, frames leave whole and in order, a queue goes out when the socket takes bytes, events return,
      bursts of frames are delivered; and the close that is never sent.
    - Pools: whatever the order of the calls no client's callback is lost, and streams are neither freed in use nor
      kept without need in programs whose calls are made at once, but not where a listener comes late; a mask of four numbers or eight groups, with a prefix from 1 on
      for IPv4, matches exactly the addresses with that prefix.
    - Forms: a printed multipart body is parsed to its parts, and the content of a part does not depend on the reads.
    - Routing: no entry that would take the request has a longer group or comes before the one taken; a route added twice is one
      entry; a decoded path stays in the directory of its route, and the captured parts and encoded zeros that let it leave.
    - Promises: callbacks and references are accounted for in every interleaving, what is settled is told unless a callback was displaced or refused, no program
      interleaves for ever; and the runs that lose a callback or block, each shown on the model.
    - Coroutines and timers: the dispatcher ends and leaves coroutines that wait for a promise or a task, or were activated meanwhile; a task
      is run in the order of its program, and the tasks of one thread are taken in its order where the queue keeps it; every
      timer is in one place, due timers are called in order, what is over is never called again; the interval that cannot be cleared.
    - MD5 and mail: the digest is that of RFC 1321 however a message is cut; a mail arrives as it was given when no line begins with a
      dot, the answers to challenges are those of the RFCs, and of a mail with attachments the first is sent over and over.
    - Structures: an object schema with distinct keys is a finite map, renaming to a key in use excepted; the blocks a local allocator
      hands out do not overlap.

    ** Not modelled

    The system calls behind a socket, TLS, the resolver, files, processes, the switching of stacks, the lock-free queue of
    coroutine tasks and the debugging allocators: effects
    of the operating system or of memory that a value does not show.  The readers of XML and JSON,
    compression, cryptography, database drivers and scripting: calls of
    third-party code.  Floating-point conversions, vectors and matrices: the model has no doubles; where a
    variant holds one it is its 64 bits.  The depth of the C++ stack is not bounded by the model: a nested JSONB
    input is read as the recursion says.  The parent pointers and the sharing of schema nodes are not in
    Schema.v: a tree there owns its children. *)

From Stdlib Require Export Strings.Ascii Strings.String.
From Stdlib Require Export ZArith List Bool Lia.
From stdpp Require Export base tactics option list_basics.
Export ListNotations.

#[global] Open Scope Z_scope.

Ltac Zify.zify_post_hook ::= Z.to_euclidean_division_equations.

#[global] Arguments Z.add : simpl never.
#[global] Arguments Z.sub : simpl never.
#[global] Arguments Z.mul : simpl never.
#[global] Arguments Z.pow : simpl never.
#[global] Arguments Z.div : simpl never.
#[global] Arguments Z.modulo : simpl never.
#[global] Arguments Z.shiftl : simpl never.
#[global] Arguments Z.shiftr : simpl never.
#[global] Arguments Z.of_nat : simpl never.

(** ** Machine integers *)

(** [wrapU w x] is the value an unsigned [w]-bit variable holds after [x] is stored in it,
    [wrapS w x] the value of a two's complement one. *)
Definition wrapU (w x : Z) : Z := x mod 2 ^ w.
Definition wrapS (w x : Z) : Z := (x + 2 ^ (w - 1)) mod 2 ^ w - 2 ^ (w - 1).

Abbreviation u8 := (wrapU 8).
Abbreviation u16 := (wrapU 16).
Abbreviation u32 := (wrapU 32).
Abbreviation u64 := (wrapU 64).
Abbreviation i8 := (wrapS 8).
Abbreviation i32 := (wrapS 32).
Abbreviation i64 := (wrapS 64).

(** C++ implicit conversions between [bool] and integers. *)
Abbreviation b2z := Z.b2z.
Definition z2b (x : Z) : bool := negb (x =? 0).

(** [fits w x]: [x] is a value of an unsigned [w]-bit type. *)
Definition fits (w x : Z) : Prop := 0 <= x < 2 ^ w.

(** ** Characters

    A [char] buffer is a list of byte values [0..255]; the few places where the signedness of
    [char] shows convert with [i8]. *)

Definition chr (c : ascii) : Z := Z.of_N (N_of_ascii c).
Definition chars (s : string) : list Z := map chr (list_ascii_of_string s).
Arguments chr _%_char_scope.
Arguments chars _%_string_scope.

(** The <cctype> predicates in the "C" locale. *)
Definition isdigit (c : Z) : bool := (48 <=? c) && (c <=? 57).
Definition isupper (c : Z) : bool := (65 <=? c) && (c <=? 90).
Definition islower (c : Z) : bool := (97 <=? c) && (c <=? 122).
Definition isalpha (c : Z) : bool := isupper c || islower c.
Definition isalnum (c : Z) : bool := isdigit c || isalpha c.
Definition isspace (c : Z) : bool := ((9 <=? c) && (c <=? 13)) || (c =? 32).
Definition isxdigit (c : Z) : bool :=
  isdigit c || ((65 <=? c) && (c <=? 70)) || ((97 <=? c) && (c <=? 102)).
Definition tolower (c : Z) : Z := if isupper c then c + 32 else c.
Definition toupper (c : Z) : Z := if islower c then c - 32 else c.

(** Value of one hexadecimal digit, as [strtol] and stream extraction read it. *)
Definition xdigit_val (c : Z) : Z := if isdigit c then c - 48 else tolower c - 87.

(** ** Loops

    A C++ [while] or [do-while] loop over a state; [None] when [fuel] iterations were not enough
    or an iteration itself has no result. *)

Fixpoint whileM {S} (fuel : nat) (cond : S -> bool) (body : S -> option S) (s : S) : option S :=
  if cond s then
    match fuel with
    | O => None
    | Datatypes.S fuel => s' ← body s; whileM fuel cond body s'
    end
  else Some s.

Fixpoint do_whileM {S} (fuel : nat) (body : S -> option S) (cond : S -> bool) (s : S) : option S :=
  match fuel with
  | O => None
  | Datatypes.S fuel => s' ← body s; if cond s' then do_whileM fuel body cond s' else Some s'
  end.

(** Total correctness rule: an invariant every iteration keeps and a measure it decreases. *)
Lemma whileM_rule {S} (I : S -> Prop) (m : S -> nat) (cond : S -> bool) (body : S -> option S)
    (fuel : nat) (s : S) :
  I s -> (m s <= fuel)%nat ->
  (forall s, I s -> cond s = true -> exists s', body s = Some s' /\ I s' /\ (m s' < m s)%nat) ->
  exists s', whileM fuel cond body s = Some s' /\ I s' /\ cond s' = false.
Proof.
  intros HI Hm Hstep. revert s HI Hm. induction fuel as [|fuel IH]; intros s HI Hm; simpl.
  - destruct (cond s) eqn:Hc; [|eauto]. destruct (Hstep s HI Hc) as (? & _ & _ & ?). lia.
  - destruct (cond s) eqn:Hc; [|eauto].
    destruct (Hstep s HI Hc) as (s' & -> & HI' & ?). simpl. apply IH; [assumption|lia].
Qed.

Lemma do_whileM_rule {S} (I : S -> Prop) (m : S -> nat) (body : S -> option S) (cond : S -> bool)
    (fuel : nat) (s : S) :
  I s -> (m s < fuel)%nat ->
  (forall s, I s -> exists s', body s = Some s' /\ I s' /\
                               (cond s' = true -> (m s' < m s)%nat)) ->
  exists s', do_whileM fuel body cond s = Some s' /\ I s' /\ cond s' = false.
Proof.
  intros HI Hm Hstep. revert s HI Hm. induction fuel as [|fuel IH]; intros s HI Hm; [lia|].
  simpl. destruct (Hstep s HI) as (s' & -> & HI' & ?). simpl.
  destruct (cond s') eqn:Hc; [|eauto]. apply IH; [assumption|]. specialize (H eq_refl). lia.
Qed.

Lemma do_whileM_while {S} (body : S -> option S) (cond : S -> bool) (fuel : nat) (s : S) :
  cond s = true -> do_whileM fuel body cond s = whileM fuel cond body s.
Proof.
  revert s. induction fuel as [|fuel IH]; intros s Hc; simpl; rewrite Hc; [reflexivity|].
  destruct (body s) as [s'|]; simpl; [|reflexivity]. destruct (cond s') eqn:Hc'; [auto|].
  destruct fuel; simpl; now rewrite Hc'.
Qed.

(** ** Automation *)

Create HintDb vitex discriminated.

(** Turn every boolean comparison of the context and the goal into the proposition it decides. *)
Ltac bool_step :=
  match goal with
  | H : (_ && _)%bool = true |- _ => apply andb_true_iff in H; destruct H
  | H : (_ || _)%bool = false |- _ => apply orb_false_iff in H; destruct H
  | H : negb _ = true |- _ => apply negb_true_iff in H
  | H : negb _ = false |- _ => apply negb_false_iff in H
  | H : (_ =? _) = true |- _ => apply Z.eqb_eq in H
  | H : (_ =? _) = false |- _ => apply Z.eqb_neq in H
  | H : (_ <? _) = true |- _ => apply Z.ltb_lt in H
  | H : (_ <? _) = false |- _ => apply Z.ltb_ge in H
  | H : (_ <=? _) = true |- _ => apply Z.leb_le in H
  | H : (_ <=? _) = false |- _ => apply Z.leb_gt in H
  end.
Ltac bools := repeat bool_step.

(** Split on the first comparison the goal branches on. *)
Ltac case_cmp :=
  match goal with
  | |- context [?a <? ?b] => destruct (Z.ltb_spec a b)
  | |- context [?a <=? ?b] => destruct (Z.leb_spec a b)
  | |- context [?a =? ?b] => destruct (Z.eqb_spec a b)
  end.

(** Linear arithmetic over wrapped values: unfold the wrap-around and let [lia] do the Euclidean
    equations. *)
Ltac mach := unfold fits, wrapU, wrapS in *; lia.

Lemma fits_wrapU w x : 0 <= w -> fits w (wrapU w x).
Proof. intros. unfold fits, wrapU. apply Z.mod_pos_bound, Z.pow_pos_nonneg; lia. Qed.

Lemma wrapU_id w x : fits w x -> wrapU w x = x.
Proof. intros. unfold wrapU. now apply Z.mod_small. Qed.

Lemma wrapS_id w x : 0 < w -> - 2 ^ (w - 1) <= x < 2 ^ (w - 1) -> wrapS w x = x.
Proof.
  intros Hw H. unfold wrapS.
  assert (2 ^ w = 2 * 2 ^ (w - 1)) by (rewrite <- Z.pow_succ_r by lia; f_equal; lia).
  rewrite Z.mod_small; lia.
Qed.

Lemma fits_shiftr w x s : 0 <= s -> fits w x -> fits w (Z.shiftr x s).
Proof.
  intros Hs [H0 H1]. unfold fits. rewrite Z.shiftr_div_pow2 by lia.
  assert (0 < 2 ^ s) by (apply Z.pow_pos_nonneg; lia).
  split; [apply Z.div_pos; lia | apply Z.div_lt_upper_bound; nia].
Qed.

Lemma fits_div w x s : 0 <= s -> fits w x -> fits w (x / 2 ^ s).
Proof. intros Hs Hx. rewrite <- Z.shiftr_div_pow2 by assumption. now apply fits_shiftr. Qed.

#[export] Hint Resolve fits_wrapU fits_shiftr fits_div : vitex.
#[export] Hint Extern 5 (0 <= _) => lia : vitex.
#[export] Hint Extern 5 (0 < _) => lia : vitex.

Lemma z2b_spec x : z2b x = true <-> x <> 0.
Proof. unfold z2b. rewrite negb_true_iff, Z.eqb_neq. reflexivity. Qed.

Lemma pow2_split (w s : Z) : 0 <= s <= w -> 2 ^ w = 2 ^ s * 2 ^ (w - s).
Proof. intros H. rewrite <- Z.pow_add_r by lia. f_equal. lia. Qed.

(** The number of binary digits of [x]. *)
Definition bitlen (x : Z) : Z := if x =? 0 then 0 else Z.log2 x + 1.

Lemma bitlen_half x : 0 < x -> bitlen x = bitlen (x / 2) + 1.
Proof.
  intros Hx. unfold bitlen. destruct (Z.eqb_spec x 0); [lia|].
  destruct (Z.eqb_spec (x / 2) 0); [replace x with 1 by lia; reflexivity|].
  change (x / 2) with (x / 2 ^ 1). rewrite <- Z.shiftr_div_pow2, Z.log2_shiftr by lia.
  assert (1 <= Z.log2 x) by (change 1 with (Z.log2 2); apply Z.log2_le_mono; lia). lia.
Qed.

Lemma bitlen_bound n x : 0 <= n -> 0 <= x < 2 ^ n -> 0 <= bitlen x <= n.
Proof.
  intros Hn Hx. unfold bitlen. destruct (Z.eqb_spec x 0); [lia|].
  assert (Z.log2 x < n) by (apply Z.log2_lt_pow2; lia). pose proof (Z.log2_nonneg x). lia.
Qed.

Lemma bitlen_nonneg x : 0 <= bitlen x.
Proof. unfold bitlen. destruct (Z.eqb_spec x 0); [lia|]. pose proof (Z.log2_nonneg x). lia. Qed.

Lemma bitlen_mono x y : 0 <= x <= y -> bitlen x <= bitlen y.
Proof.
  intros H. unfold bitlen. destruct (Z.eqb_spec x 0), (Z.eqb_spec y 0); try lia.
  - pose proof (Z.log2_nonneg y). lia.
  - pose proof (Z.log2_le_mono x y). lia.
Qed.

Lemma bitlen_spec x : 0 <= x -> x < 2 ^ bitlen x.
Proof.
  intros Hx. unfold bitlen. destruct (Z.eqb_spec x 0) as [->|]; [reflexivity|].
  rewrite Z.add_1_r. apply Z.log2_spec. lia.
Qed.

Lemma bitlen_lower x : 0 < x -> 2 ^ (bitlen x - 1) <= x.
Proof.
  intros Hx. unfold bitlen. destruct (Z.eqb_spec x 0); [lia|].
  replace (Z.log2 x + 1 - 1) with (Z.log2 x) by lia. apply Z.log2_spec. lia.
Qed.

(** ** A number held as two halves of [w] bits

    The wide integers keep a value as [hi * 2^w + lo].  These lemmas say what the usual operations
    on the halves do to the whole; [uint128] uses them at [w = 64], [uint256] at [w = 128]. *)

Section Halves.
Context (w : Z) (w_pos : 0 < w).

Let pow_pos : 0 < 2 ^ w.
Proof. apply Z.pow_pos_nonneg; lia. Qed.

Lemma testbit_halves hi lo i :
  fits w lo -> 0 <= i ->
  Z.testbit (hi * 2 ^ w + lo) i =
  if i <? w then Z.testbit lo i else Z.testbit hi (i - w).
Proof.
  intros [H0 H1] Hi. destruct (Z.ltb_spec i w).
  - rewrite <- (Z.mod_pow2_bits_low (hi * 2 ^ w + lo) w) by lia.
    rewrite Z.add_comm, Z.mod_add by lia. now rewrite Z.mod_small by lia.
  - replace i with ((i - w) + w) at 1 by lia.
    rewrite <- Z.div_pow2_bits by lia.
    rewrite Z.add_comm, Z.div_add by lia. now rewrite Z.div_small by lia.
Qed.

Lemma testbit_fits_high a i : fits w a -> w <= i -> Z.testbit a i = false.
Proof.
  intros Ha Hi. rewrite <- (Z.mod_small a (2 ^ w)) by exact Ha.
  apply Z.mod_pow2_bits_high. lia.
Qed.

Lemma fits_bitop (f : Z -> Z -> Z) (g : bool -> bool -> bool) a b :
  g false false = false ->
  (forall x y i, Z.testbit (f x y) i = g (Z.testbit x i) (Z.testbit y i)) ->
  0 <= f a b -> fits w a -> fits w b -> fits w (f a b).
Proof.
  intros Hg Hf Hn [Ha0 Ha1] [Hb0 Hb1]. split; [assumption|].
  destruct (Z.eq_dec (f a b) 0) as [->|]; [lia|].
  apply Z.log2_lt_pow2; [lia|]. apply Z.nle_gt. intros Hle.
  pose proof (Z.bit_log2 (f a b) ltac:(lia)) as Hb. rewrite Hf in Hb.
  rewrite !testbit_fits_high in Hb by (unfold fits; lia). congruence.
Qed.

Lemma fits_land a b : fits w a -> fits w b -> fits w (Z.land a b).
Proof.
  intros Ha Hb. apply (fits_bitop Z.land andb); auto using Z.land_spec.
  apply Z.land_nonneg. unfold fits in *. lia.
Qed.

Lemma fits_lor a b : fits w a -> fits w b -> fits w (Z.lor a b).
Proof.
  intros Ha Hb. apply (fits_bitop Z.lor orb); auto using Z.lor_spec.
  apply Z.lor_nonneg. unfold fits in *. lia.
Qed.

Lemma fits_lxor a b : fits w a -> fits w b -> fits w (Z.lxor a b).
Proof.
  intros Ha Hb. apply (fits_bitop Z.lxor xorb); auto using Z.lxor_spec.
  apply Z.lxor_nonneg. unfold fits in *. lia.
Qed.

Lemma halves_bitop (f : Z -> Z -> Z) (g : bool -> bool -> bool) a b c d :
  (forall x y i, Z.testbit (f x y) i = g (Z.testbit x i) (Z.testbit y i)) ->
  fits w b -> fits w d -> fits w (f b d) ->
  f (a * 2 ^ w + b) (c * 2 ^ w + d) = f a c * 2 ^ w + f b d.
Proof.
  intros Hf Hb Hd Hfd. apply Z.bits_inj'. intros i Hi.
  rewrite Hf, !testbit_halves by assumption.
  destruct (i <? w); now rewrite Hf.
Qed.

Lemma halves_shl hi lo s :
  fits w hi -> fits w lo -> 0 < s < w ->
  fits w (wrapU w (hi * 2 ^ s) + lo / 2 ^ (w - s)) /\
  (wrapU w (hi * 2 ^ s) + lo / 2 ^ (w - s)) * 2 ^ w + wrapU w (lo * 2 ^ s) =
  ((hi * 2 ^ w + lo) * 2 ^ s) mod 2 ^ (2 * w).
Proof.
  intros [Hh0 Hh1] [Hl0 Hl1] Hs. unfold fits, wrapU.
  replace (2 * w) with (w + w) by lia.
  rewrite (pow2_split w s), (Z.pow_add_r 2 w w), (pow2_split w s) in * by lia.
  set (P := 2 ^ s) in *. set (Q := 2 ^ (w - s)) in *.
  assert (0 < P) by (apply Z.pow_pos_nonneg; lia).
  assert (0 < Q) by (apply Z.pow_pos_nonneg; lia).
  rewrite !(Z.mul_comm _ P), !Z.mul_mod_distr_l by lia.
  assert (Hlo : lo = Q * (lo / Q) + lo mod Q) by (apply Z.div_mod; lia).
  assert (0 <= lo / Q < P) by (split; [apply Z.div_pos | apply Z.div_lt_upper_bound]; nia).
  pose proof (Z.mod_pos_bound hi Q). pose proof (Z.mod_pos_bound lo Q).
  assert (0 <= P * (hi mod Q) + lo / Q < P * Q) by nia.
  split; [assumption|].
  replace (P * Q * (P * Q)) with (P * (Q * (P * Q))) by ring.
  rewrite Z.mul_mod_distr_l by nia.
  assert (Hm : (hi * (P * Q) + lo) mod (Q * (P * Q)) = (hi mod Q) * (P * Q) + lo).
  { symmetry. apply Z.mod_unique with (hi / Q); [left; nia|].
    pose proof (Z.div_mod hi Q). nia. }
  rewrite Hm. clear - Hlo. revert Hlo.
  generalize (lo / Q) (lo mod Q) (hi mod Q). intros y z x ->. ring.
Qed.

Lemma halves_shr hi lo s :
  fits w hi -> fits w lo -> 0 < s < w ->
  fits w (wrapU w (hi * 2 ^ (w - s)) + lo / 2 ^ s) /\
  hi / 2 ^ s * 2 ^ w + (wrapU w (hi * 2 ^ (w - s)) + lo / 2 ^ s) =
  (hi * 2 ^ w + lo) / 2 ^ s.
Proof.
  intros [Hh0 Hh1] [Hl0 Hl1] Hs. unfold fits, wrapU.
  rewrite (pow2_split w s) in * by lia.
  set (P := 2 ^ s) in *. set (Q := 2 ^ (w - s)) in *.
  assert (0 < P) by (apply Z.pow_pos_nonneg; lia).
  assert (0 < Q) by (apply Z.pow_pos_nonneg; lia).
  rewrite Z.mul_mod_distr_r by lia.
  assert (0 <= lo / P < Q) by (split; [apply Z.div_pos | apply Z.div_lt_upper_bound]; nia).
  pose proof (Z.mod_pos_bound hi P).
  split; [nia|].
  replace (hi * (P * Q) + lo) with (lo + hi * Q * P) by ring.
  rewrite Z.div_add by lia. pose proof (Z.div_mod hi P). nia.
Qed.

End Halves.

#[export] Hint Resolve fits_land fits_lor fits_lxor : vitex.

Lemma lor_halves w hi lo : 0 < w -> fits w lo -> Z.lor (hi * 2 ^ w) lo = hi * 2 ^ w + lo.
Proof.
  intros Hw Hlo. pose proof (halves_bitop w Hw Z.lor orb hi 0 0 lo Z.lor_spec) as E.
  rewrite Z.lor_0_r, Z.lor_0_l, Z.add_0_r in E. apply E; unfold fits in *; lia.
Qed.

(** The next lower byte of a number that is assembled from the top. *)
Lemma lor_shift x b k :
  0 <= k -> 0 <= b < 256 -> x mod 2 ^ (k + 8) = 0 -> Z.lor x (Z.shiftl b k) = x + b * 2 ^ k.
Proof.
  intros Hk Hb Hx. pose proof (Z.pow_pos_nonneg 2 (k + 8) ltac:(lia) ltac:(lia)).
  apply Z.div_exact in Hx; [|lia]. rewrite Hx, Z.mul_comm. set (q := x / 2 ^ (k + 8)).
  replace (q * 2 ^ (k + 8)) with (Z.shiftl (q * 2 ^ 8) k)
    by (rewrite Z.shiftl_mul_pow2, Z.pow_add_r by lia; ring).
  rewrite <- Z.shiftl_lor, lor_halves by (unfold fits; lia).
  rewrite !Z.shiftl_mul_pow2 by lia. ring.
Qed.

(** ** Induction on lists in steps of two and three *)

Section ListInd.
Context {A : Type} (P : list A -> Prop).

Lemma list_ind2 :
  P [] -> (forall a, P [a]) -> (forall a b l, P l -> P (a :: b :: l)) -> forall l, P l.
Proof.
  intros H0 H1 H2 l. enough (P l /\ forall a, P (a :: l)) by tauto.
  induction l as [|x l [IH IH']]; split; auto.
Qed.

Lemma list_ind3 :
  P [] -> (forall a, P [a]) -> (forall a b, P [a; b]) ->
  (forall a b c l, P l -> P (a :: b :: c :: l)) -> forall l, P l.
Proof.
  intros H0 H1 H2 H3 l. enough (P l /\ (forall a, P (a :: l)) /\ (forall a b, P (a :: b :: l))) by tauto.
  induction l as [|x l (IH & IH' & IH'')]; repeat split; auto.
Qed.

End ListInd.

(** ** Numbers as digit lists *)

(** Least significant digit first, and most significant digit first. *)
Fixpoint le_val (b : Z) (ds : list Z) : Z :=
  match ds with
  | [] => 0
  | d :: t => d + b * le_val b t
  end.

Definition be_val (b : Z) (ds : list Z) : Z := fold_left (fun acc d => acc * b + d) ds 0.

Definition digits (b : Z) (ds : list Z) : Prop := Forall (fun d => 0 <= d < b) ds.

Lemma le_val_app b xs ys :
  le_val b (xs ++ ys) = le_val b xs + b ^ Z.of_nat (length xs) * le_val b ys.
Proof.
  induction xs as [|x xs IH]; simpl; [rewrite Z.pow_0_r; ring|].
  rewrite IH, Nat2Z.inj_succ, Z.pow_succ_r by lia. ring.
Qed.

Lemma le_val_bound b ds :
  0 < b -> digits b ds -> 0 <= le_val b ds < b ^ Z.of_nat (length ds).
Proof.
  intros Hb. induction 1 as [|d ds Hd _ IH]; simpl; [rewrite Z.pow_0_r; lia|].
  rewrite Nat2Z.inj_succ, Z.pow_succ_r by lia. nia.
Qed.

Lemma be_val_acc b ds acc :
  fold_left (fun a d => a * b + d) ds acc =
  acc * b ^ Z.of_nat (length ds) + le_val b (rev ds).
Proof.
  revert acc. induction ds as [|d ds IH]; intros acc; simpl.
  - rewrite Z.pow_0_r. ring.
  - rewrite IH, le_val_app, length_rev, Nat2Z.inj_succ, Z.pow_succ_r by lia. simpl. ring.
Qed.

Lemma be_val_rev b ds : be_val b ds = le_val b (rev ds).
Proof. unfold be_val. rewrite be_val_acc. ring. Qed.

Lemma be_val_snoc b ds d : be_val b (ds ++ [d]) = be_val b ds * b + d.
Proof. unfold be_val. now rewrite fold_left_app. Qed.

Lemma be_val_cons b x xs : be_val b (x :: xs) = x * b ^ Z.of_nat (length xs) + be_val b xs.
Proof. rewrite !be_val_rev. simpl. rewrite le_val_app, length_rev. simpl. ring. Qed.

Lemma be_val_app b xs ys :
  be_val b (xs ++ ys) = be_val b xs * b ^ Z.of_nat (length ys) + be_val b ys.
Proof. rewrite !be_val_rev, rev_app_distr, le_val_app, length_rev. ring. Qed.

Lemma be_val_bound b ds : 0 < b -> digits b ds -> 0 <= be_val b ds < b ^ Z.of_nat (length ds).
Proof.
  intros Hb Hd. rewrite be_val_rev, <- length_rev. apply le_val_bound; [assumption|].
  now apply Forall_rev.
Qed.

Lemma le_val_repeat_0 b n : le_val b (repeat 0 n) = 0.
Proof. induction n; simpl; [reflexivity|]. rewrite IHn. ring. Qed.

Lemma le_val_inj b xs ys :
  0 < b -> digits b xs -> digits b ys -> length xs = length ys ->
  le_val b xs = le_val b ys -> xs = ys.
Proof.
  intros Hb Hx. revert ys. induction Hx as [|x xs Hx0 Hx IH]; intros [|y ys] Hy Hlen Hv;
    try discriminate Hlen; [reflexivity|].
  apply Forall_cons_iff in Hy as [Hy0 Hy]. simpl in Hv.
  assert (Hm : (x + b * le_val b xs) mod b = (y + b * le_val b ys) mod b) by congruence.
  rewrite !(Z.mul_comm b), !Z.mod_add, !Z.mod_small in Hm by lia. subst y.
  f_equal. apply IH; [assumption | simpl in Hlen; lia | nia].
Qed.

(** The [n] low digits of [x], least significant first: an integer as memory holds it on a
    little-endian machine when [b = 256]. *)
Fixpoint le_digits (n : nat) (b x : Z) : list Z :=
  match n with
  | O => []
  | S n => x mod b :: le_digits n b (x / b)
  end.

Lemma length_le_digits n b x : length (le_digits n b x) = n.
Proof. revert x. induction n; intros x; simpl; [reflexivity|]. now rewrite IHn. Qed.

Lemma digits_le_digits n b x : 0 < b -> digits b (le_digits n b x).
Proof.
  intros Hb. revert x. induction n; intros x; constructor; [|apply IHn].
  apply Z.mod_pos_bound, Hb.
Qed.

Lemma le_val_le_digits n b x : 0 < b -> le_val b (le_digits n b x) = x mod b ^ Z.of_nat n.
Proof.
  intros Hb. revert x. induction n; intros x.
  - simpl. now rewrite Z.pow_0_r, Z.mod_1_r.
  - simpl. rewrite IHn, Nat2Z.inj_succ, Z.pow_succ_r, Z.rem_mul_r by lia. reflexivity.
Qed.

Lemma le_digits_le_val b ds :
  0 < b -> digits b ds -> le_digits (length ds) b (le_val b ds) = ds.
Proof.
  intros Hb H. apply (le_val_inj b); auto using digits_le_digits, length_le_digits.
  rewrite le_val_le_digits by assumption. apply Z.mod_small, le_val_bound; assumption.
Qed.

#[export] Hint Resolve digits_le_digits : vitex.

(** ** Radix printing

    The loop that peels digits off a number, most significant digit ending up first. *)

(** No digit, or a first digit that is not zero. *)
Definition no_leading_zero (ds : list Z) : Prop :=
  match ds with
  | [] => True
  | d :: _ => d <> 0
  end.

Lemma radix_while base (f : Z -> Z) fuel v out :
  2 <= base -> 0 <= v < 2 ^ Z.of_nat fuel ->
  exists ds,
    whileM fuel (fun s : Z * list Z => 0 <? fst s)
      (fun s => Some (fst s / base, f (fst s mod base) :: snd s)) (v, out) =
      Some (0, map f ds ++ out) /\
    digits base ds /\ be_val base ds = v /\ no_leading_zero ds.
Proof.
  intros Hb. revert v out. induction fuel as [|fuel IH]; intros v out Hv; simpl whileM;
    cbn [fst snd]; destruct (Z.ltb_spec 0 v).
  - rewrite Z.pow_0_r in Hv. lia.
  - exists []. replace v with 0 by lia. repeat split. constructor.
  - rewrite Nat2Z.inj_succ, Z.pow_succ_r in Hv by lia.
    destruct (IH (v / base) (f (v mod base) :: out)) as (ds & E & Hd & Hval & Hz).
    { split; [apply Z.div_pos; lia|]. apply Z.div_lt_upper_bound; nia. }
    exists (ds ++ [v mod base]). rewrite map_app, <- app_assoc. split; [exact E|].
    split; [|split].
    + apply Forall_app. split; [assumption|]. repeat constructor; apply Z.mod_pos_bound; lia.
    + rewrite be_val_snoc, Hval, Z.mul_comm. symmetry. apply Z.div_mod. lia.
    + destruct ds as [|d ds]; [|exact Hz]. simpl in *. unfold be_val in Hval. simpl in Hval.
      assert (v = base * (v / base) + v mod base) by (apply Z.div_mod; lia). nia.
  - exists []. replace v with 0 by lia. repeat split. constructor.
Qed.

(** ** Finite checks

    A boolean fact about every value of a small range, decided by evaluation. *)

Definition range (n : nat) : list Z := map Z.of_nat (seq 0 n).

Lemma range_forall (n : nat) (f : Z -> bool) :
  forallb f (range n) = true -> forall x, 0 <= x < Z.of_nat n -> f x = true.
Proof.
  intros H x Hx. rewrite forallb_forall in H. apply H. unfold range.
  apply in_map_iff. exists (Z.to_nat x). split; [lia|]. apply in_seq. lia.
Qed.

(** [by_range n]: prove a goal about [x], where [0 <= x < n] is in the context and [n] is a
    numeral, by evaluating the boolean equality at every value. *)
Ltac by_range x n :=
  match goal with
  | |- ?g = true =>
      let f := eval pattern x in g in
      match f with ?h _ => apply (range_forall (Z.to_nat n) h); [vm_compute; reflexivity | lia] end
  end.

Abbreviation bytes := (digits 256).

Lemma digits_cons b x xs : digits b (x :: xs) <-> 0 <= x < b /\ digits b xs.
Proof. apply Forall_cons_iff. Qed.

(** Take apart the [digits] facts about explicit list cells. *)
Ltac inv_digits :=
  repeat match goal with H : digits _ (_ :: _) |- _ => apply digits_cons in H as [? H] end.

Lemma digits_app b xs ys : digits b (xs ++ ys) <-> digits b xs /\ digits b ys.
Proof. apply Forall_app. Qed.

Lemma digits_skipn b n ds : digits b ds -> digits b (skipn n ds).
Proof. intros H. rewrite <- (firstn_skipn n ds) in H. now apply digits_app in H. Qed.

Lemma digits_firstn b n ds : digits b ds -> digits b (firstn n ds).
Proof. intros H. rewrite <- (firstn_skipn n ds) in H. now apply digits_app in H. Qed.

Lemma digits_rev b ds : digits b ds -> digits b (rev ds).
Proof. apply Forall_rev. Qed.

#[export] Hint Resolve digits_rev : vitex.

(** Decide [digits] on a concrete list. *)
Lemma digits_check b ds :
  forallb (fun d => (0 <=? d) && (d <? b)) ds = true -> digits b ds.
Proof.
  intros H. apply Forall_forall. intros d Hd. rewrite forallb_forall in H.
  specialize (H d Hd). bools. lia.
Qed.

(** ** Evaluation

    The kernel checks [bool_decide (x = y) = true] by evaluating one term to a constructor, and so each subterm once. *)
Lemma by_compute {A} {D : EqDecision A} (x y : A) : bool_decide (x = y) = true -> x = y.
Proof. apply bool_decide_eq_true_1. Qed.
Ltac computed := apply by_compute; vm_compute; reflexivity.

(** A run that returns something returns what [default] takes of it. *)
Definition returns {A} (o : option A) : bool := match o with Some _ => true | None => false end.
Lemma some_default {A} (d : A) (o : option A) : returns o = true -> o = Some (default d o).
Proof. destruct o; [reflexivity|discriminate]. Qed.
