(* ===== verification/Codec.v ===== *)
(** * Text codecs ([vitex::compute::codec], src/src/vitex/compute.cpp)

    Hexadecimal, base64 (plain and URL-safe), base45 (and its BEP45 relabelling), base32, percent
    encoding, radix printing, UTF-8 encoding and the rolling byte rotation keyed by the FNV-1a
    hash of core.h.  Every codec is a function on byte lists; the theorems are their round trips
    and the exact behaviour on input outside the alphabet. *)

From S2P Require Import Prelude.

(** ** Hexadecimal *)

Definition hex_lower_case : list Z := chars "0123456789abcdef".
Definition hex_upper_case : list Z := chars "0123456789ABCDEF".

(** [table[i]] on a static character table; the callers keep [i] in range. *)
Definition at_table (table : list Z) (i : Z) : Z := nth (Z.to_nat i) table 0.

Definition hex_encode (value : list Z) (upper_case : bool) : list Z :=
  let hex := if upper_case then hex_upper_case else hex_lower_case in
  flat_map (fun c => [at_table hex (Z.shiftr c 4); at_table hex (Z.land c 15)]) value.

Definition hex_encode_odd (value : list Z) (upper_case : bool) : list Z :=
  let hex := if upper_case then hex_upper_case else hex_lower_case in
  flat_map (fun c => (if 16 <=? c then [at_table hex (Z.shiftr c 4)] else [])
                     ++ [at_table hex (Z.land c 15)]) value.

(** [strtol(text, nullptr, 16)] on a NUL-terminated buffer short enough not to overflow. *)
Fixpoint skip_spaces (text : list Z) : list Z :=
  match text with
  | c :: rest => if isspace c then skip_spaces rest else text
  | [] => []
  end.

Fixpoint read_xdigits (text : list Z) (acc : Z) : Z :=
  match text with
  | c :: rest => if isxdigit c then read_xdigits rest (acc * 16 + xdigit_val c) else acc
  | [] => acc
  end.

Definition strip_0x (text : list Z) : list Z :=
  match text with
  | a :: b :: c :: rest =>
      if (a =? 48) && (tolower b =? 120) && isxdigit c then c :: rest else text
  | _ => text
  end.

Definition strtol16 (text : list Z) : Z :=
  match skip_spaces text with
  | c :: rest =>
      if c =? 45 then - read_xdigits (strip_0x rest) 0
      else if c =? 43 then read_xdigits (strip_0x rest) 0
      else read_xdigits (strip_0x (c :: rest)) 0
  | [] => 0
  end.

(** The loop of [hex_decode]: two characters per step, the last one alone when the count is odd. *)
Fixpoint hex_decode_loop (value : list Z) : list Z :=
  match value with
  | a :: b :: rest => u8 (strtol16 [a; b]) :: hex_decode_loop rest
  | [a] => [u8 (strtol16 [a])]
  | [] => []
  end.

Definition hex_decode (value : list Z) : list Z :=
  match value with
  | a :: b :: rest =>
      if (a =? 48) && (b =? 120) then hex_decode_loop rest else hex_decode_loop value
  | _ => hex_decode_loop value
  end.

(** [codec::hex]: the value of a hexadecimal digit, [None] when [code] is not one. *)
Definition codec_hex (code : Z) : option Z :=
  if (32 <=? code) && isdigit code then Some (code - 48)
  else if (65 <=? code) && (code <=? 70) then Some (code - 65 + 10)
  else if (97 <=? code) && (code <=? 102) then Some (code - 97 + 10)
  else None.

(** [codec::hex_to_decimal] on the [count] characters that start at [index]: the flag it returns
    and the value it leaves in the out parameter. *)
Fixpoint hex_to_decimal_loop (text : list Z) (count : nat) (value : Z) : bool * Z :=
  match count with
  | O => (true, value)
  | S count =>
      match text with
      | [] => (false, value)
      | c :: rest =>
          if c =? 0 then (false, value)
          else match codec_hex c with
               | None => (false, value)
               | Some v => hex_to_decimal_loop rest count (i32 (i32 (value * 16) + v))
               end
      end
  end.

Definition hex_to_decimal (text : list Z) (index count : nat) : bool * Z :=
  hex_to_decimal_loop (skipn index text) count 0.

(** [codec::hex_to_string]: the flag and the text written before the terminating NUL. *)
Definition hex_to_string (data : list Z) : bool * list Z :=
  match data with
  | [] => (false, [])
  | first :: rest =>
      let cell c := [at_table hex_lower_case (Z.land (Z.shiftr c 4) 15);
                     at_table hex_lower_case (Z.land c 15)] in
      (true, cell first ++ flat_map (fun c => 32 :: cell c) rest)
  end.

(** ** Base64 *)

Definition base64_set : list Z :=
  chars "ABCDEFGHIJKLMNOPQRSTUVWXYZabcdefghijklmnopqrstuvwxyz0123456789+/".
Definition base64_url_set : list Z :=
  chars "ABCDEFGHIJKLMNOPQRSTUVWXYZabcdefghijklmnopqrstuvwxyz0123456789-_".

Definition is_base64 (value : Z) : bool := isalnum value || (value =? 43) || (value =? 47).
Definition is_base64_url (value : Z) : bool := isalnum value || (value =? 45) || (value =? 95).

(** The four 6-bit indices of a row of three bytes; every entry is stored in a [uint8_t]. *)
Definition row4_of (a b c : Z) : list Z :=
  [ u8 (Z.shiftr (Z.land a 252) 2);
    u8 (Z.shiftl (Z.land a 3) 4 + Z.shiftr (Z.land b 240) 4);
    u8 (Z.shiftl (Z.land b 15) 2 + Z.shiftr (Z.land c 192) 6);
    u8 (Z.land c 63) ].

(** The three bytes of a row of four 6-bit indices. *)
Definition row3_of (a b c d : Z) : list Z :=
  [ u8 (Z.shiftl a 2 + Z.shiftr (Z.land b 48) 4);
    u8 (Z.shiftl (Z.land b 15) 4 + Z.shiftr (Z.land c 60) 2);
    u8 (Z.shiftl (Z.land c 3) 6 + d) ].

Fixpoint encode64 (alphabet : list Z) (value : list Z) (padding : bool) : list Z :=
  match value with
  | a :: b :: c :: rest => map (at_table alphabet) (row4_of a b c) ++ encode64 alphabet rest padding
  | [a; b] =>
      map (at_table alphabet) (firstn 3 (row4_of a b 0)) ++ (if padding then [61] else [])
  | [a] =>
      map (at_table alphabet) (firstn 2 (row4_of a 0 0)) ++ (if padding then [61; 61] else [])
  | [] => []
  end.

(** [offset_of64]: index of the first match among 64 entries, 63 when there is none. *)
Fixpoint offset_of64_from (source : list Z) (dest : Z) (i : Z) : Z :=
  match source with
  | c :: rest => if c =? dest then i else offset_of64_from rest dest (i + 1)
  | [] => 63
  end.
Definition offset_of64 (source : list Z) (dest : Z) : Z := offset_of64_from (firstn 64 source) dest 0.

(** The prefix [decode64] consumes: up to the first '=' or character outside the alphabet. *)
Fixpoint decode64_input (is_alphabetic : Z -> bool) (value : list Z) : list Z :=
  match value with
  | c :: rest =>
      if negb (c =? 61) && is_alphabetic c then c :: decode64_input is_alphabetic rest else []
  | [] => []
  end.

Fixpoint decode64_rows (alphabet : list Z) (value : list Z) : list Z :=
  let off := offset_of64 alphabet in
  match value with
  | a :: b :: c :: d :: rest => row3_of (off a) (off b) (off c) (off d) ++ decode64_rows alphabet rest
  | [a; b; c] => firstn 2 (row3_of (off a) (off b) (off c) (off 0))
  | [a; b] => firstn 1 (row3_of (off a) (off b) (off 0) (off 0))
  | _ => []
  end.

Definition decode64 (alphabet : list Z) (value : list Z) (is_alphabetic : Z -> bool) : list Z :=
  decode64_rows alphabet (decode64_input is_alphabetic value).

Definition base64_encode (value : list Z) : list Z := encode64 base64_set value true.
Definition base64_decode (value : list Z) : list Z := decode64 base64_set value is_base64.
Definition base64_url_encode (value : list Z) : list Z := encode64 base64_url_set value false.
Definition base64_url_decode (value : list Z) : list Z :=
  let padding := Nat.modulo (length value) 4 in
  if Nat.eqb padding 0 then decode64 base64_url_set value is_base64_url
  else decode64 base64_url_set (value ++ repeat 61 (4 - padding)) is_base64_url.

(** ** Base45 *)

Definition base45_alphabet : list Z := chars "0123456789ABCDEFGHIJKLMNOPQRSTUVWXYZ $%*+-./:".

Fixpoint base45_encode (data : list Z) : list Z :=
  match data with
  | a :: b :: rest =>
      let x := Z.shiftl a 8 + b in
      let e := u8 (x / (45 * 45)) in
      let x := x mod (45 * 45) in
      let d := u8 (x / 45) in
      let c := u8 (x mod 45) in
      [at_table base45_alphabet c; at_table base45_alphabet d; at_table base45_alphabet e]
        ++ base45_encode rest
  | [a] =>
      [at_table base45_alphabet (u8 (a mod 45)); at_table base45_alphabet (u8 (a / 45))]
  | [] => []
  end.

Definition base45_char_to_int : list Z :=
  repeat 255 32 ++
  [ 36; 255; 255; 255; 37; 38; 255; 255; 255; 255; 39; 40; 255; 41; 42; 43;
    0; 1; 2; 3; 4; 5; 6; 7; 8; 9; 44; 255; 255; 255; 255; 255;
    255; 10; 11; 12; 13; 14; 15; 16; 17; 18; 19; 20; 21; 22; 23; 24;
    25; 26; 27; 28; 29; 30; 31; 32; 33; 34; 35; 35; 255; 255; 255; 255;
    255; 10; 11; 12; 13; 14; 15; 16; 17; 18; 19; 20; 21; 22; 23; 24;
    25; 26; 27; 28; 29; 30; 31; 32; 33; 34; 35; 35; 255; 255; 255; 255 ] ++
  repeat 255 128.

(** [(char)char_to_int[(uint8_t)c]] read into an [int]: [char] is signed, so the marker 255 of the
    table arrives as [-1] and never equals the 255 it is compared with. *)
Definition base45_digit (c : Z) : Z := i8 (at_table base45_char_to_int c).

Fixpoint base45_decode (data : list Z) : list Z :=
  match data with
  | c0 :: c1 :: more =>
      let a := base45_digit c0 in
      let b := base45_digit c1 in
      if (a =? 255) || (b =? 255) then []
      else
        let x := a + 45 * b in
        match more with
        | c2 :: rest =>
            let a := base45_digit c2 in
            if a =? 255 then []
            else
              let x := x + a * 45 * 45 in
              u8 (Z.quot x 256) :: u8 (Z.rem x 256) :: base45_decode rest
        | [] => [u8 x]
        end
  | _ => []
  end.

(** [stringify::replace] of one character by another from a position on. *)
Definition replace_char (other : list Z) (from to : Z) (position : nat) : list Z :=
  firstn position other ++
  map (fun c => if c =? from then to else c) (skipn position other).

Definition bep45_from : list Z := chars " $%*+-./:".
Definition bep45_to : list Z := chars "abcdefghi".

Definition replace_all (from to : list Z) (text : list Z) : list Z :=
  fold_left (fun result ft => replace_char result (fst ft) (snd ft) 0) (combine from to) text.

Definition bep45_encode (data : list Z) : list Z :=
  replace_all bep45_from bep45_to (base45_encode data).
Definition bep45_decode (data : list Z) : list Z :=
  base45_decode (replace_all bep45_to bep45_from data).

(** ** Base32 *)

Definition base32_alphabet : list Z := chars "ABCDEFGHIJKLMNOPQRSTUVWXYZ234567".

(** One iteration of the encoder: [(next, remainder, unread input, result)]. *)
Definition base32_encode_step (s : Z * Z * list Z * list Z) : Z * Z * list Z * list Z :=
  let '(next, remainder, input, result) := s in
  let '(next, remainder, input) :=
    if remainder <? 5 then
      match input with
      | c :: rest => (Z.lor (u64 (Z.shiftl next 8)) (Z.land (u64 (i8 c)) 255), remainder + 8, rest)
      | [] => (u64 (Z.shiftl next (5 - remainder)), 5, [])
      end
    else (next, remainder, input) in
  let remainder := remainder - 5 in
  let index := Z.land 31 (Z.shiftr next remainder) in
  (next, remainder, input, result ++ [at_table base32_alphabet (index mod 32)]).

Definition base32_encode (value : list Z) : option (list Z) :=
  match value with
  | [] => Some []
  | c :: rest =>
      s ← whileM (2 * length value + 2)
            (fun s : Z * Z * list Z * list Z =>
               let '(_, remainder, input, _) := s in
               (0 <? remainder) || negb (Nat.eqb (length input) 0))
            (fun s => Some (base32_encode_step s)) (u64 (i8 c), 8, rest, []);
      Some (snd s)
  end.

(** The value of a base32 symbol, [None] where the decoder breaks out of its loop. *)
Definition base32_symbol (next : Z) : option Z :=
  let next := if next =? 48 then 79 else if next =? 49 then 76 else if next =? 56 then 66 else next in
  if ((65 <=? next) && (next <=? 90)) || ((97 <=? next) && (next <=? 122))
  then Some (Z.land next 31 - 1)
  else if (50 <=? next) && (next <=? 55) then Some (next - (50 - 26))
  else None.

Fixpoint base32_decode_loop (value : list Z) (prev bits_left : Z) : list Z :=
  match value with
  | [] => []
  | next :: rest =>
      if (next =? 32) || (next =? 9) || (next =? 13) || (next =? 10) || (next =? 45)
      then base32_decode_loop rest prev bits_left
      else
        let prev := u64 (Z.shiftl prev 5) in
        match base32_symbol next with
        | None => []
        | Some v =>
            let prev := Z.lor prev v in
            let bits_left := bits_left + 5 in
            if bits_left <? 8 then base32_decode_loop rest prev bits_left
            else u8 (Z.shiftr prev (bits_left - 8)) :: base32_decode_loop rest prev (bits_left - 8)
        end
  end.

Definition base32_decode (value : list Z) : list Z := base32_decode_loop value 0 0.

(** ** Percent encoding *)

Definition url_unescape : list Z := chars "._-$,;~()".

(** [strchr(set, v) != nullptr]: the search includes the terminating NUL. *)
Definition strchr (set : list Z) (v : Z) : bool := existsb (Z.eqb v) (set ++ [0]).

Definition url_plain (v : Z) : bool := isalnum v || strchr url_unescape v.

Definition url_encode (text : list Z) : list Z :=
  flat_map (fun v =>
    if url_plain v then [v]
    else [37; at_table hex_lower_case (Z.shiftr v 4); at_table hex_lower_case (Z.land v 15)]) text.

Definition url_xdigit (c : Z) : Z :=
  let a := tolower c in if isdigit a then a - 48 else a - 87.

Fixpoint url_decode (text : list Z) : list Z :=
  match text with
  | [] => []
  | c :: rest =>
      let plain := if negb (c =? 43) then c else 32 in
      match rest with
      | a :: b :: rest' =>
          if (c =? 37) && isxdigit a && isxdigit b
          then u8 (Z.lor (Z.shiftl (url_xdigit a) 4) (url_xdigit b)) :: url_decode rest'
          else plain :: url_decode rest
      | _ => plain :: url_decode rest
      end
  end.

(** ** Radix printing *)

Definition base62_set : list Z :=
  chars "0123456789ABCDEFGHIJKLMNOPQRSTUVWXYZabcdefghijklmnopqrstuvwxyz+/".

Definition base10_to_base_n (value base_less_than65 : Z) : option (list Z) :=
  if value =? 0 then Some (chars "0")
  else
    let base := if base_less_than65 =? 64 then base64_set else base62_set in
    s ← whileM 64 (fun s : Z * list Z => 0 <? fst s)
          (fun s => Some (fst s / base_less_than65,
                          at_table base (fst s mod base_less_than65) :: snd s)) (value, []);
    Some (snd s).

Definition decimal_to_hex (n : Z) : option (list Z) :=
  s ← do_whileM 16
        (fun s : Z * list Z =>
           Some (Z.shiftr (fst s) 4, at_table hex_lower_case (Z.land (fst s) 15) :: snd s))
        (fun s => 0 <? fst s) (n, []);
  Some (snd s).

(** ** UTF-8 *)

Definition utf8 (code : Z) : list Z :=
  if code <? 128 then [u8 (Z.land code 127)]
  else if code <? 2048 then
    [Z.lor 192 (Z.land (Z.shiftr code 6) 31); Z.lor 128 (Z.land code 63)]
  else if code <? 55296 then
    [Z.lor 224 (Z.land (Z.shiftr code 12) 15); Z.lor 128 (Z.land (Z.shiftr code 6) 63);
     Z.lor 128 (Z.land code 63)]
  else if code <? 57344 then []
  else if code <? 65536 then
    [Z.lor 224 (Z.land (Z.shiftr code 12) 15); Z.lor 128 (Z.land (Z.shiftr code 6) 63);
     Z.lor 128 (Z.land code 63)]
  else if code <? 1114112 then
    [Z.lor 240 (Z.land (Z.shiftr code 18) 7); Z.lor 128 (Z.land (Z.shiftr code 12) 63);
     Z.lor 128 (Z.land (Z.shiftr code 6) 63); Z.lor 128 (Z.land code 63)]
  else [].

(** ** Rolling rotation *)

(** [fnv1a_hash<uint64_t, ...>::operator()] of core.h, which [key_hasher<string>] applies. *)
Definition fnv1a (data : list Z) : Z :=
  fold_left (fun state d => u64 (Z.lxor state d * 1099511628211)) data 14695981039346656037.

(** The rotation of position [i]: the hash of the rotated bytes before it and the counter byte. *)
Definition rotation_of (prefix : list Z) (hash : Z) : Z :=
  u8 (fnv1a (prefix ++ [hash mod 254]) mod 254).

(** [direction >= 0]: each byte is advanced; [done] holds the bytes already written. *)
Fixpoint rotate_forward (done todo : list Z) (hash : Z) : list Z :=
  match todo with
  | [] => done
  | b :: rest =>
      let hash := u64 (hash + 1) in
      rotate_forward (done ++ [u8 (b + rotation_of done hash)]) rest hash
  end.

(** [direction < 0]: each byte is moved back, hashing the prefix of the copied input. *)
Fixpoint rotate_backward (rotated todo : list Z) (hash : Z) : list Z :=
  match todo with
  | [] => []
  | b :: rest =>
      let hash := u64 (hash + 1) in
      u8 (b - rotation_of rotated hash) :: rotate_backward (rotated ++ [b]) rest hash
  end.

Definition rotate (value : list Z) (hash : Z) (direction : Z) : list Z :=
  if direction <? 0 then rotate_backward [] value hash else rotate_forward [] value hash.

(** [codec::shuffle]: a running [int64_t] hash of the signed bytes. *)
Fixpoint shuffle_loop (value : list Z) (hash : Z) : list Z :=
  match value with
  | [] => []
  | c :: rest =>
      let hash := i64 (i64 (i64 (Z.shiftl hash 5) - hash) + i8 c) in
      let hash := Z.land hash hash in
      u8 (Z.rem hash 255) :: shuffle_loop rest hash
  end.
Definition shuffle (value : list Z) (mask : Z) : list Z := shuffle_loop value (i64 mask).

(** ** Facts: bit operations on bytes as arithmetic *)
Lemma land_shiftr_facts c :
  0 <= c < 256 ->
  Z.shiftr c 4 = c / 16 /\ Z.land c 15 = c mod 16 /\
  Z.shiftr (Z.land c 252) 2 = c / 4 /\ Z.land c 3 = c mod 4 /\
  Z.shiftr (Z.land c 240) 4 = c / 16 /\ Z.shiftr (Z.land c 192) 6 = c / 64 /\
  Z.land c 63 = c mod 64 /\ Z.shiftr (Z.land c 48) 4 = c / 16 mod 4 /\
  Z.shiftr (Z.land c 60) 2 = c / 4 mod 16.
Proof.
  intros H.
  assert (E : ((Z.shiftr c 4 =? c / 16) && (Z.land c 15 =? c mod 16) &&
    (Z.shiftr (Z.land c 252) 2 =? c / 4) && (Z.land c 3 =? c mod 4) &&
    (Z.shiftr (Z.land c 240) 4 =? c / 16) && (Z.shiftr (Z.land c 192) 6 =? c / 64) &&
    (Z.land c 63 =? c mod 64) && (Z.shiftr (Z.land c 48) 4 =? c / 16 mod 4) &&
    (Z.shiftr (Z.land c 60) 2 =? c / 4 mod 16))%bool = true) by by_range c 256.
  bools. tauto.
Qed.

Lemma shiftl_mul a n : 0 <= n -> Z.shiftl a n = a * 2 ^ n.
Proof. apply Z.shiftl_mul_pow2. Qed.

Lemma row4_of_val a b c :
  0 <= a < 256 -> 0 <= b < 256 -> 0 <= c < 256 ->
  row4_of a b c = [a / 4; a mod 4 * 16 + b / 16; b mod 16 * 4 + c / 64; c mod 64].
Proof.
  intros Ha Hb Hc. unfold row4_of.
  pose proof (land_shiftr_facts a Ha). pose proof (land_shiftr_facts b Hb).
  pose proof (land_shiftr_facts c Hc). destruct_and!.
  rewrite !shiftl_mul by lia.
  repeat match goal with H : _ = _ |- _ => rewrite H; clear H end.
  repeat f_equal; apply wrapU_id; unfold fits; lia.
Qed.

Lemma row3_of_val a b c d :
  0 <= a < 64 -> 0 <= b < 64 ->
  row3_of a b c d =
  [a * 4 + b / 16;
   u8 (b mod 16 * 16 + Z.shiftr (Z.land c 60) 2);
   u8 (Z.land c 3 * 64 + d)].
Proof.
  intros Ha Hb. unfold row3_of.
  destruct (land_shiftr_facts b ltac:(lia)) as (_ & -> & _ & _ & _ & _ & _ & -> & _).
  rewrite !shiftl_mul by lia. repeat f_equal; mach.
Qed.

Lemma row3_second b c :
  0 <= b < 64 -> 0 <= c < 64 ->
  u8 (b mod 16 * 16 + Z.shiftr (Z.land c 60) 2) = b mod 16 * 16 + c / 4.
Proof.
  intros Hb Hc. destruct (land_shiftr_facts c ltac:(lia)) as (_ & _ & _ & _ & _ & _ & _ & _ & ->).
  mach.
Qed.

Lemma row3_third c d :
  0 <= c < 64 -> 0 <= d < 64 -> u8 (Z.land c 3 * 64 + d) = c mod 4 * 64 + d.
Proof.
  intros Hc Hd. destruct (land_shiftr_facts c ltac:(lia)) as (_ & _ & _ & -> & _). mach.
Qed.

(** ** Facts: base64 *)

(** What the decoder needs of a 64-character alphabet. *)
Class Alphabet64 (set : list Z) (ok : Z -> bool) := {
  alpha_offset : forall i, 0 <= i < 64 -> offset_of64 set (at_table set i) = i;
  alpha_ok : forall i, 0 <= i < 64 -> negb (at_table set i =? 61) && ok (at_table set i) = true
}.

#[export] Instance base64_alphabet : Alphabet64 base64_set is_base64.
Proof.
  split; intros i Hi; [apply Z.eqb_eq|]; by_range i 64.
Qed.

#[export] Instance base64_url_alphabet : Alphabet64 base64_url_set is_base64_url.
Proof.
  split; intros i Hi; [apply Z.eqb_eq|]; by_range i 64.
Qed.

Section Base64.
Context {set : list Z} {ok : Z -> bool} `{Alphabet64 set ok}.

Lemma decode64_input_prefix idx tail :
  digits 64 idx ->
  decode64_input ok (map (at_table set) idx ++ tail) =
  map (at_table set) idx ++ decode64_input ok tail.
Proof.
  induction 1 as [|i idx Hi _ IH]; simpl; [reflexivity|].
  rewrite alpha_ok by assumption. now rewrite IH.
Qed.

Lemma decode64_input_pad n : decode64_input ok (repeat 61 n) = [].
Proof. destruct n; reflexivity. Qed.

(** The index list the encoder emits before padding, and the padding. *)
Fixpoint indices64 (value : list Z) : list Z :=
  match value with
  | a :: b :: c :: rest => row4_of a b c ++ indices64 rest
  | [a; b] => firstn 3 (row4_of a b 0)
  | [a] => firstn 2 (row4_of a 0 0)
  | [] => []
  end.

Fixpoint padding64 (value : list Z) : nat :=
  match value with
  | a :: b :: c :: rest => padding64 rest
  | [a; b] => 1
  | [a] => 2
  | [] => 0
  end.

Lemma encode64_split value padding :
  encode64 set value padding =
  map (at_table set) (indices64 value) ++ repeat 61 (if padding then padding64 value else 0).
Proof.
  induction value as [|a|a b|a b c rest IH] using list_ind3.
  - now destruct padding.
  - now destruct padding.
  - now destruct padding.
  - cbn [encode64 indices64 padding64]. rewrite IH, map_app, app_assoc. reflexivity.
Qed.

Lemma indices64_digits value : bytes value -> digits 64 (indices64 value).
Proof.
  intros Hv. induction value as [|a|a b|a b c rest IH] using list_ind3; cbn [indices64];
    inv_digits.
  - constructor.
  - rewrite row4_of_val by lia. cbn [firstn]. repeat constructor; lia.
  - rewrite row4_of_val by lia. cbn [firstn]. repeat constructor; lia.
  - rewrite row4_of_val by lia. apply Forall_app. split; [|now apply IH].
    repeat constructor; lia.
Qed.

Lemma decode64_rows_indices value :
  bytes value -> decode64_rows set (map (at_table set) (indices64 value)) = value.
Proof.
  intros Hv. induction value as [|a|a b|a b c rest IH] using list_ind3;
    inv_digits;
    cbn [indices64]; rewrite ?row4_of_val by lia; [reflexivity|..];
    cbn [firstn map app decode64_rows];
    rewrite !alpha_offset by lia; rewrite row3_of_val by lia; cbn [firstn app];
    rewrite ?row3_second by lia; rewrite ?row3_third by lia.
  - repeat f_equal; lia.
  - repeat f_equal; lia.
  - rewrite IH by assumption. repeat f_equal; lia.
Qed.

Lemma decode64_encode64 value padding :
  bytes value -> decode64 set (encode64 set value padding) ok = value.
Proof.
  intros Hv. unfold decode64. rewrite encode64_split, decode64_input_prefix by now apply indices64_digits.
  now rewrite decode64_input_pad, app_nil_r, decode64_rows_indices.
Qed.

Lemma decode64_encode64_padded value n :
  bytes value -> decode64 set (encode64 set value false ++ repeat 61 n) ok = value.
Proof.
  intros Hv. unfold decode64.
  rewrite encode64_split, app_nil_r, decode64_input_prefix by now apply indices64_digits.
  now rewrite decode64_input_pad, app_nil_r, decode64_rows_indices.
Qed.

Lemma encode64_length value :
  Z.of_nat (length (encode64 set value true)) = 4 * ((Z.of_nat (length value) + 2) / 3).
Proof.
  induction value as [|a|a b|a b c rest IH] using list_ind3; [reflexivity..|].
  simpl. rewrite !Nat2Z.inj_succ, IH. lia.
Qed.

End Base64.

(** ** Facts: hexadecimal *)
Lemma hex_pair_decode upper c :
  0 <= c < 256 ->
  let hex := if upper : bool then hex_upper_case else hex_lower_case in
  u8 (strtol16 [at_table hex (Z.shiftr c 4); at_table hex (Z.land c 15)]) = c /\
  at_table hex (Z.land c 15) <> 120.
Proof.
  intros Hc hex. subst hex. rewrite <- Z.eqb_eq, <- Z.eqb_neq, <- negb_true_iff, <- andb_true_iff.
  destruct upper; by_range c 256.
Qed.

Lemma hex_decode_loop_encode value upper :
  bytes value -> hex_decode_loop (hex_encode value upper) = value.
Proof.
  induction 1 as [|c value Hc _ IH]; [reflexivity|].
  destruct (hex_pair_decode upper c Hc) as [E _].
  unfold hex_encode in *. cbn [flat_map app hex_decode_loop]. now rewrite E, IH.
Qed.

Lemma hex_decode_encode value upper : bytes value -> hex_decode (hex_encode value upper) = value.
Proof.
  intros Hv. pose proof (hex_decode_loop_encode value upper Hv) as E.
  destruct value as [|c value]; [reflexivity|]. inv_digits.
  destruct (hex_pair_decode upper c ltac:(assumption)) as [_ Hx].
  unfold hex_encode in *. cbn [flat_map app hex_decode] in *.
  apply Z.eqb_neq in Hx. rewrite Hx, andb_false_r. exact E.
Qed.

Lemma hex_encode_length value upper : length (hex_encode value upper) = (2 * length value)%nat.
Proof.
  unfold hex_encode. induction value as [|c value IH]; [reflexivity|].
  cbn [flat_map app length]. rewrite IH. lia.
Qed.

(** ** Facts: base45 *)
Lemma base45_digit_alphabet i : 0 <= i < 45 -> base45_digit (at_table base45_alphabet i) = i.
Proof. intros Hi. apply Z.eqb_eq. by_range i 45. Qed.

Lemma base45_decode_encode data : bytes data -> base45_decode (base45_encode data) = data.
Proof.
  intros Hd. induction data as [|a|a b rest IH] using list_ind2; [reflexivity|..]; inv_digits.
  - cbn [base45_encode base45_decode app]. rewrite !wrapU_id by mach.
    rewrite !base45_digit_alphabet by lia.
    replace ((a mod 45 =? 255) || (a / 45 =? 255)) with false by (symmetry; lia).
    f_equal. mach.
  - cbn [base45_encode base45_decode app]. rewrite shiftl_mul by lia.
    change (45 * 45) with 2025. set (x := a * 2 ^ 8 + b).
    assert (0 <= x < 65536) by (subst x; lia).
    rewrite !(wrapU_id 8 (x / 2025)), !(wrapU_id 8 (x mod 2025 / 45)),
      !(wrapU_id 8 (x mod 2025 mod 45)) by mach.
    rewrite !base45_digit_alphabet by lia.
    replace ((x mod 2025 mod 45 =? 255) || (x mod 2025 / 45 =? 255)) with false by (symmetry; lia).
    replace (x / 2025 =? 255) with false by (symmetry; lia).
    replace (x mod 2025 mod 45 + 45 * (x mod 2025 / 45) + x / 2025 * 45 * 45) with x by lia.
    rewrite IH by assumption. subst x. f_equal; [|f_equal]; mach.
Qed.

Lemma replace_all_map from to :
  exists f, (forall text, replace_all from to text = map f text) /\
            forall c, f c = fold_left (fun r ft => if r =? fst ft then snd ft else r) (combine from to) c.
Proof.
  exists (fun c => fold_left (fun r ft => if r =? fst ft then snd ft else r) (combine from to) c).
  split; [|reflexivity]. unfold replace_all. intros text.
  induction (combine from to) as [|[x y] l IH] in text |- *; cbn [fold_left].
  - now rewrite map_id.
  - rewrite IH. unfold replace_char. rewrite firstn_O, skipn_O. cbn [app fst snd]. rewrite map_map. reflexivity.
Qed.

Lemma base45_encode_symbols data :
  bytes data -> exists idx, digits 45 idx /\ base45_encode data = map (at_table base45_alphabet) idx.
Proof.
  intros Hd. induction data as [|a|a b rest IH] using list_ind2; inv_digits.
  - exists []. split; [constructor|reflexivity].
  - exists [u8 (a mod 45); u8 (a / 45)]. split; [repeat constructor; mach|reflexivity].
  - destruct (IH Hd) as (idx & Hi & E).
    cbn [base45_encode]. rewrite shiftl_mul by lia. rewrite E.
    eexists (_ :: _ :: _ :: idx). split; [|reflexivity].
    repeat (apply digits_cons; split; [mach|]). exact Hi.
Qed.

Lemma bep45_decode_encode data : bytes data -> bep45_decode (bep45_encode data) = data.
Proof.
  intros Hd. unfold bep45_decode, bep45_encode.
  destruct (replace_all_map bep45_from bep45_to) as (f & -> & Hf).
  destruct (replace_all_map bep45_to bep45_from) as (g & -> & Hg).
  destruct (base45_encode_symbols data Hd) as (idx & Hi & E).
  rewrite <- (base45_decode_encode data Hd) at 2. f_equal. rewrite E, !map_map.
  apply map_ext_in. intros i Hin. unfold digits in Hi. rewrite Forall_forall in Hi.
  specialize (Hi i Hin). cbv beta in Hi. rewrite Hg, Hf. apply Z.eqb_eq. by_range i 45.
Qed.

(** ** Facts: percent encoding *)
Lemma url_char_facts v :
  0 <= v < 256 ->
  if url_plain v then v <> 37 /\ v <> 43
  else let a := at_table hex_lower_case (Z.shiftr v 4) in
       let b := at_table hex_lower_case (Z.land v 15) in
       isxdigit a = true /\ isxdigit b = true /\
       u8 (Z.lor (Z.shiftl (url_xdigit a) 4) (url_xdigit b)) = v.
Proof.
  intros Hv.
  assert (E : (if url_plain v then negb (v =? 37) && negb (v =? 43)
               else let a := at_table hex_lower_case (Z.shiftr v 4) in
                    let b := at_table hex_lower_case (Z.land v 15) in
                    isxdigit a && isxdigit b &&
                    (u8 (Z.lor (Z.shiftl (url_xdigit a) 4) (url_xdigit b)) =? v)) = true)
    by by_range v 256.
  destruct (url_plain v); cbv zeta in *; bools; auto.
Qed.

Lemma url_decode_plain v rest : v <> 37 -> v <> 43 -> url_decode (v :: rest) = v :: url_decode rest.
Proof.
  intros H1%Z.eqb_neq H2%Z.eqb_neq. cbn [url_decode]. rewrite H1, H2. cbn [negb andb].
  destruct rest as [|a [|b rest]]; reflexivity.
Qed.

Lemma url_decode_encode text : bytes text -> url_decode (url_encode text) = text.
Proof.
  induction 1 as [|v text Hv _ IH]; [reflexivity|].
  unfold url_encode in *. cbn [flat_map]. pose proof (url_char_facts v Hv) as F.
  destruct (url_plain v); cbn [app].
  - destruct F. rewrite url_decode_plain, IH by assumption. reflexivity.
  - destruct F as (Ha & Hb & E). cbn [url_decode]. rewrite Ha, Hb, E, IH. reflexivity.
Qed.

(** The encoder never emits a character that has a meaning in a query string. *)
Lemma url_encode_safe text c :
  bytes text -> In c (url_encode text) ->
  url_plain c = true \/ c = 37.
Proof.
  intros Ht Hin. unfold url_encode in Hin. apply in_flat_map in Hin as (v & Hv & Hin).
  unfold digits in Ht. rewrite Forall_forall in Ht. specialize (Ht v Hv). cbv beta in Ht.
  destruct (url_plain v) eqn:E; [destruct Hin as [<-|[]]; auto|].
  assert (F : url_plain (at_table hex_lower_case (Z.shiftr v 4)) &&
              url_plain (at_table hex_lower_case (Z.land v 15)) = true) by by_range v 256.
  bools. simpl in Hin. intuition subst; auto.
Qed.

(** ** Facts: rolling rotation *)
Lemma rotate_forward_split done todo hash :
  exists enc, rotate_forward done todo hash = done ++ enc /\
              (bytes todo -> rotate_backward done enc hash = todo).
Proof.
  revert done hash. induction todo as [|b todo IH]; intros done hash; cbn [rotate_forward].
  - exists []. rewrite app_nil_r. auto.
  - set (h := u64 (hash + 1)). set (b' := u8 (b + rotation_of done h)).
    destruct (IH (done ++ [b']) h) as (enc & -> & Hb). exists (b' :: enc).
    rewrite <- app_assoc. split; [reflexivity|]. intros Ht. inv_digits.
    cbn [rotate_backward]. fold h. rewrite Hb by assumption. f_equal. subst b'. mach.
Qed.

Lemma rotate_roundtrip value hash : bytes value -> rotate (rotate value hash 1) hash (-1) = value.
Proof.
  intros Hv. unfold rotate. simpl.
  destruct (rotate_forward_split [] value hash) as (enc & -> & H). now apply H.
Qed.

(** ** Facts: base32 *)
Lemma base32_alphabet_symbol i :
  0 <= i < 32 ->
  let c := at_table base32_alphabet (i mod 32) in
  base32_symbol c = Some i /\
  (c =? 32) || (c =? 9) || (c =? 13) || (c =? 10) || (c =? 45) = false.
Proof.
  intros Hi c. subst c.
  assert (E : (let c := at_table base32_alphabet (i mod 32) in
    match base32_symbol c with Some v => v =? i | None => false end &&
    negb ((c =? 32) || (c =? 9) || (c =? 13) || (c =? 10) || (c =? 45))) = true) by by_range i 32.
  cbv zeta in E. apply andb_true_iff in E as [E1 E2]. apply negb_true_iff in E2.
  destruct (base32_symbol _) as [v|]; [|discriminate]. apply Z.eqb_eq in E1. subst. auto.
Qed.

Lemma lor_low k i : 0 <= i < 32 -> Z.lor (k * 32) i = k * 32 + i.
Proof.
  intros Hi. apply (lor_halves 5); [lia | exact Hi].
Qed.

(** Pushing a 5-bit symbol onto the decoder's accumulator. *)
Lemma base32_push prev b i :
  0 <= b < 8 -> 0 <= i < 32 ->
  Z.lor (u64 (Z.shiftl prev 5)) i mod 2 ^ (b + 5) = prev mod 2 ^ b * 32 + i.
Proof.
  intros Hb Hi. rewrite shiftl_mul by lia. change (2 ^ 5) with 32.
  replace (u64 (prev * 32)) with (prev mod 2 ^ 59 * 32) by mach.
  rewrite lor_low by assumption.
  assert (b = 0 \/ b = 1 \/ b = 2 \/ b = 3 \/ b = 4 \/ b = 5 \/ b = 6 \/ b = 7) as C by lia.
  decompose [or] C; subst b; lia.
Qed.

(** Taking the next 5 bits out of the encoder's accumulator. *)
Lemma base32_take p next r :
  5 <= r ->
  p * 2 ^ r + next mod 2 ^ r =
  (p * 32 + Z.land 31 (Z.shiftr next (r - 5))) * 2 ^ (r - 5) + next mod 2 ^ (r - 5).
Proof.
  intros Hr. rewrite Z.land_comm. change 31 with (Z.ones 5).
  rewrite Z.land_ones, Z.shiftr_div_pow2 by lia.
  replace (2 ^ r) with (2 ^ (r - 5) * 2 ^ 5) by (rewrite <- Z.pow_add_r by lia; f_equal; lia).
  rewrite Z.rem_mul_r by lia. change (2 ^ 5) with 32. ring.
Qed.

(** Relation between the encoder's state and the decoder that has read its output: the decoder
    produced [out], holds [b] bits of [prev], the encoder still holds [r] bits of [next]; together
    they spell the bytes [und] read but not yet delivered, followed by [pad] zero bits. *)
Definition base32_linked (value : list Z) (s : Z * Z * list Z * list Z) : Prop :=
  let '(next, r, input, result) := s in
  exists out prev b und pad,
    (forall tail, base32_decode (result ++ tail) = out ++ base32_decode_loop tail prev b) /\
    value = out ++ und ++ input /\ bytes und /\ 0 <= b < 8 /\ 0 <= r <= 12 /\ 0 <= pad < 5 /\
    (pad = 0 \/ input = [] /\ r = 0) /\
    b + r = 8 * Z.of_nat (length und) + pad /\
    prev mod 2 ^ b * 2 ^ r + next mod 2 ^ r = be_val 256 und * 2 ^ pad.

Lemma top_unique M x y o u : 0 <= x < M -> 0 <= y < M -> o * M + x = u * M + y -> o = u /\ x = y.
Proof. intros. assert (o = u) by nia. nia. Qed.

(** When eight bits are complete, the byte the decoder delivers is the oldest pending one. *)
Lemma base32_deliver prev next B R u und pad :
  0 <= B -> 0 <= R -> 0 <= pad -> B + R = 8 * Z.of_nat (length und) + pad -> bytes und ->
  prev mod 2 ^ (8 + B) * 2 ^ R + next mod 2 ^ R =
    (u * 256 ^ Z.of_nat (length und) + be_val 256 und) * 2 ^ pad ->
  prev / 2 ^ B mod 256 = u /\
  prev mod 2 ^ B * 2 ^ R + next mod 2 ^ R = be_val 256 und * 2 ^ pad.
Proof.
  intros HB HR HP Hlen Hund Hv.
  assert (E : 256 ^ Z.of_nat (length und) * 2 ^ pad = 2 ^ B * 2 ^ R).
  { change 256 with (2 ^ 8). rewrite <- Z.pow_mul_r, <- !Z.pow_add_r by lia. f_equal. lia. }
  pose proof (be_val_bound 256 und ltac:(lia) Hund) as HU. clear Hund Hlen.
  rewrite (Z.add_comm 8), Z.pow_add_r, Z.rem_mul_r in Hv by lia. change (2 ^ 8) with 256 in Hv.
  pose proof (Z.mod_pos_bound prev (2 ^ B) ltac:(apply Z.pow_pos_nonneg; lia)) as H1.
  pose proof (Z.mod_pos_bound next (2 ^ R) ltac:(apply Z.pow_pos_nonneg; lia)) as H2.
  assert (H3 : 0 < 2 ^ pad) by (apply Z.pow_pos_nonneg; lia).
  revert Hv E HU H1 H2 H3.
  generalize (prev / 2 ^ B mod 256) (prev mod 2 ^ B) (next mod 2 ^ R). intros o p n.
  generalize (be_val 256 und) (256 ^ Z.of_nat (length und)) (2 ^ pad) (2 ^ B) (2 ^ R).
  clear. intros v W P MB MR Hv E HU H1 H2 H3.
  apply (top_unique (MB * MR)); [clear - H1 H2; nia | rewrite <- E; clear - HU H3; nia |].
  transitivity ((p + MB * o) * MR + n); [ring|]. rewrite Hv.
  replace ((u * W + v) * P) with (u * (W * P) + v * P) by ring. now rewrite E.
Qed.

(** Emitting one symbol when at least five bits are pending keeps the link. *)
Lemma base32_emit value next r input result out prev b und pad :
  (forall tail, base32_decode (result ++ tail) = out ++ base32_decode_loop tail prev b) ->
  value = out ++ und ++ input -> bytes und -> 0 <= b < 8 -> 5 <= r <= 17 -> 0 <= pad < 5 ->
  (pad = 0 \/ input = [] /\ r = 5) ->
  b + r = 8 * Z.of_nat (length und) + pad ->
  prev mod 2 ^ b * 2 ^ r + next mod 2 ^ r = be_val 256 und * 2 ^ pad ->
  base32_linked value
    (next, r - 5, input,
     result ++ [at_table base32_alphabet (Z.land 31 (Z.shiftr next (r - 5)) mod 32)]).
Proof.
  intros Hdec Hval Hund Hb Hr Hpad Hpad' Hlen Hv.
  rewrite (base32_take _ _ _ (proj1 Hr)) in Hv. set (i := Z.land 31 (Z.shiftr next (r - 5))) in *.
  assert (Hi : 0 <= i < 32).
  { subst i. rewrite Z.land_comm. change 31 with (Z.ones 5). rewrite Z.land_ones by (clear; lia).
    apply Z.mod_pos_bound. reflexivity. }
  destruct (base32_alphabet_symbol i Hi) as [Hsym Hws]. set (c := at_table _ _) in *.
  set (prev' := Z.lor (u64 (Z.shiftl prev 5)) i).
  assert (Hp : prev' mod 2 ^ (b + 5) = prev mod 2 ^ b * 32 + i) by now apply base32_push.
  rewrite <- Hp in Hv. unfold base32_linked.
  assert (Hstep : forall tail, base32_decode ((result ++ [c]) ++ tail) =
    out ++ (if b + 5 <? 8 then base32_decode_loop tail prev' (b + 5)
            else u8 (Z.shiftr prev' (b + 5 - 8)) :: base32_decode_loop tail prev' (b + 5 - 8))).
  { intros tail. rewrite <- app_assoc, Hdec. cbn [app base32_decode_loop]. now rewrite Hws, Hsym. }
  destruct (Z.ltb_spec (b + 5) 8).
  - exists out, prev', (b + 5), und, pad. intuition lia.
  - destruct und as [|u und]; [simpl in Hlen; lia|]. inv_digits.
    exists (out ++ [u]), prev', (b + 5 - 8), und, pad.
    rewrite be_val_cons in Hv. simpl length in Hlen.
    destruct (base32_deliver prev' next (b + 5 - 8) (r - 5) u und pad) as [Ho Hv'];
      [clear - Hb Hr Hpad Hlen H; lia..|assumption| |].
    { replace (8 + (b + 5 - 8)) with (b + 5) by (clear; lia). exact Hv. }
    split; [|split; [|split; [|split; [|split; [|split; [|split; [|split]]]]]]]; try assumption.
    + intros tail. rewrite Hstep, <- app_assoc. simpl. do 2 f_equal.
      rewrite Z.shiftr_div_pow2 by (clear - Hb H; lia). exact Ho.
    + rewrite Hval, <- app_assoc. reflexivity.
    + clear - Hb H. lia.
    + clear - Hr. lia.
    + destruct Hpad' as [->|[-> ->]]; [left|right]; auto.
    + clear - Hlen. lia.
Qed.

Lemma base32_refill next r c :
  0 <= r < 5 -> 0 <= c < 256 ->
  Z.lor (u64 (Z.shiftl next 8)) (Z.land (u64 (i8 c)) 255) mod 2 ^ (r + 8) =
  next mod 2 ^ r * 256 + c.
Proof.
  intros Hr Hc. rewrite shiftl_mul by lia. change 255 with (Z.ones 8). rewrite Z.land_ones by lia.
  replace (u64 (i8 c) mod 2 ^ 8) with c by (unfold wrapU, wrapS; lia).
  replace (u64 (next * 2 ^ 8)) with (next mod 2 ^ 56 * 2 ^ 8 + 0) by mach.
  replace c with (0 * 2 ^ 8 + c) at 1 by lia.
  rewrite (halves_bitop 8 ltac:(lia) Z.lor orb) by (auto using Z.lor_spec; unfold fits; rewrite ?Z.lor_0_l; lia).
  rewrite Z.lor_0_r, Z.lor_0_l.
  assert (r = 0 \/ r = 1 \/ r = 2 \/ r = 3 \/ r = 4) as C by lia.
  decompose [or] C; subst r; lia.
Qed.

Lemma base32_step_linked value next r input result :
  bytes value -> base32_linked value (next, r, input, result) ->
  (0 <? r) || negb (Nat.eqb (length input) 0) = true ->
  base32_linked value (base32_encode_step (next, r, input, result)).
Proof.
  intros Hbytes (out & prev & b & und & pad & Hdec & Hval & Hund & Hb & Hr & Hpad & Hpad' & Hlen & Hv) Hc.
  assert (pad = 0) as ->.
  { destruct Hpad' as [->|[-> ->]]; [reflexivity|]. discriminate Hc. }
  rewrite Z.pow_0_r, Z.mul_1_r in Hv. unfold base32_encode_step.
  destruct (Z.ltb_spec r 5).
  - destruct input as [|c input].
    + assert (0 < r) by (simpl in Hc; rewrite orb_false_r in Hc; bools; assumption).
      apply (base32_emit value _ 5 [] result out prev b und (5 - r)); auto; try lia.
      rewrite shiftl_mul by lia. revert Hv. generalize (prev mod 2 ^ b) (be_val 256 und).
      clear - H H0. intros p v Hv. unfold wrapU.
      assert (r = 1 \/ r = 2 \/ r = 3 \/ r = 4) as C by lia.
      decompose [or] C; subst r; lia.
    + assert (0 <= c < 256 /\ bytes input).
      { subst value. rewrite !digits_app, digits_cons in Hbytes. tauto. }
      destruct H0 as [Hc0 Hinput].
      apply (base32_emit value _ (r + 8) input result out prev b (und ++ [c]) 0); auto; try lia.
      * now rewrite <- !app_assoc.
      * apply digits_app. split; [assumption|]. repeat constructor; lia.
      * rewrite length_app. simpl. lia.
      * rewrite base32_refill, Z.pow_0_r, Z.mul_1_r, Z.pow_add_r by lia.
        change (2 ^ 8) with 256. unfold be_val in *. rewrite fold_left_app. cbn [fold_left].
        rewrite <- Hv. ring.
  - apply (base32_emit value next r input result out prev b und 0); auto; try lia.
Qed.

Lemma base32_decode_encode value :
  bytes value -> exists text, base32_encode value = Some text /\ base32_decode text = value.
Proof.
  intros Hv. destruct value as [|c rest]; [exists []; split; reflexivity|].
  unfold base32_encode.
  set (cond := fun s : Z * Z * list Z * list Z =>
    let '(_, remainder, input, _) := s in (0 <? remainder) || negb (Nat.eqb (length input) 0)).
  destruct (whileM_rule (base32_linked (c :: rest))
    (fun s => let '(_, r, input, _) := s in
              Z.to_nat ((r + 4) / 5 + 2 * Z.of_nat (length input)))
    cond (fun s => Some (base32_encode_step s)) (2 * length (c :: rest) + 2)
    (u64 (i8 c), 8, rest, [])) as ([[[next r] input] text] & E & (out & prev & b & und & pad & HI) & Hc).
  - inv_digits. exists [], 0, 0, [c], 0. rewrite digits_cons.
    repeat split; try lia; auto; [constructor|].
    unfold be_val. simpl. rewrite Z.mod_1_r. unfold wrapU, wrapS. lia.
  - simpl. lia.
  - intros [[[next r] input] result] HI Hc. eexists. split; [reflexivity|].
    split; [now apply base32_step_linked|]. unfold cond in Hc.
    destruct HI as (? & ? & ? & ? & ? & _ & _ & _ & _ & Hr & _).
    unfold base32_encode_step. destruct (Z.ltb_spec r 5); [destruct input|]; simpl length in *.
    + simpl in Hc. lia.
    + rewrite Nat2Z.inj_succ. lia.
    + lia.
  - exists text. rewrite E. split; [reflexivity|].
    unfold cond in Hc. apply orb_false_iff in Hc as [Hr0 Hi0]. bools. apply Nat.eqb_eq in Hi0.
    destruct input; [|discriminate].
    destruct HI as (Hdec & Hval & Hund & Hb & Hr & Hpad & _ & Hlen & _).
    specialize (Hdec []). rewrite app_nil_r in Hdec. rewrite Hdec, Hval. simpl.
    destruct und; [reflexivity|]. simpl in Hlen. lia.
Qed.

(** ** Facts: radix printing *)
Lemma base10_to_base_n_val value base :
  2 <= base <= 64 -> 0 < value < 2 ^ 64 ->
  exists ds, base10_to_base_n value base =
               Some (map (at_table (if base =? 64 then base64_set else base62_set)) ds) /\
             digits base ds /\ be_val base ds = value /\ no_leading_zero ds.
Proof.
  intros Hb Hv. unfold base10_to_base_n. destruct (Z.eqb_spec value 0); [lia|].
  destruct (radix_while base (at_table (if base =? 64 then base64_set else base62_set)) 64 value [])
    as (ds & E & H); [lia | change (Z.of_nat 64) with 64; lia |].
  exists ds. rewrite E, app_nil_r. split; [reflexivity | exact H].
Qed.

Lemma decimal_to_hex_val n :
  0 <= n < 2 ^ 64 ->
  exists ds, decimal_to_hex n = Some (map (at_table hex_lower_case) ds) /\
             digits 16 ds /\ be_val 16 ds = n.
Proof.
  intros Hn. unfold decimal_to_hex.
  destruct (do_whileM_rule
    (fun s : Z * list Z => 0 <= fst s < 2 ^ 64 /\ exists ds, snd s = map (at_table hex_lower_case) ds /\ digits 16 ds /\
                fst s * 16 ^ Z.of_nat (length ds) + be_val 16 ds = n)
    (fun s => Z.to_nat (Z.log2 (fst s) / 4))
    (fun s => Some (Z.shiftr (fst s) 4, at_table hex_lower_case (Z.land (fst s) 15) :: snd s))
    (fun s => 0 <? fst s) 16 (n, [])) as ([v out] & E & (Hr & ds & Hout & Hd & Hval) & Hc).
  - split; [exact Hn|]. exists []. repeat split; [constructor|]. unfold be_val. simpl.
    rewrite Z.pow_0_r. lia.
  - simpl fst. assert (Z.log2 n < 64); [|lia].
    destruct (Z.eq_dec n 0) as [->|]; [reflexivity|]. apply Z.log2_lt_pow2; lia.
  - intros [v out] (Hr & ds & Hout & Hd & Hval). cbn [fst snd] in *. eexists. split; [reflexivity|].
    change 15 with (Z.ones 4). rewrite Z.land_ones, Z.shiftr_div_pow2 by lia. change (2 ^ 4) with 16.
    split; [split; [simpl; lia|]|].
    + exists (v mod 16 :: ds). simpl. repeat split.
      * now rewrite Hout.
      * apply digits_cons. split; [lia|assumption].
      * rewrite be_val_cons, Nat2Z.inj_succ, Z.pow_succ_r by lia.
        rewrite <- Hval. set (P := 16 ^ Z.of_nat (length ds)). pose proof (Z.div_mod v 16). nia.
    + simpl. intros Hpos%Z.ltb_lt.
      assert (Hl : Z.log2 (v / 16) = Z.log2 v - 4).
      { change 16 with (2 ^ 4). rewrite <- Z.shiftr_div_pow2, Z.log2_shiftr by lia.
        assert (4 <= Z.log2 v) by (change 4 with (Z.log2 16); apply Z.log2_le_mono; lia). lia. }
      rewrite Hl. assert (4 <= Z.log2 v) by (change 4 with (Z.log2 16); apply Z.log2_le_mono; lia). lia.
  - exists ds. rewrite E. clear E. cbn [fst snd] in *. apply Z.ltb_ge in Hc. subst out.
    split; [reflexivity|]. split; [assumption|].
    replace v with 0 in Hval by lia. lia.
Qed.

(** ** Facts: UTF-8 *)

(** The scalar values a UTF-8 sequence may carry, and how a well-formed sequence spells one
    (Unicode 15, table 3-6). *)
Definition scalar_value (code : Z) : Prop := 0 <= code < 55296 \/ 57344 <= code < 1114112.

Definition continuation (c : Z) : Prop := 128 <= c < 192.

Definition utf8_spells (bs : list Z) (code : Z) : Prop :=
  match bs with
  | [a] => 0 <= a < 128 /\ code = a
  | [a; b] => 192 <= a < 224 /\ continuation b /\ code = (a - 192) * 64 + (b - 128)
  | [a; b; c] => 224 <= a < 240 /\ continuation b /\ continuation c /\
                 code = (a - 224) * 4096 + (b - 128) * 64 + (c - 128)
  | [a; b; c; d] => 240 <= a < 248 /\ continuation b /\ continuation c /\ continuation d /\
                    code = (a - 240) * 262144 + (b - 128) * 4096 + (c - 128) * 64 + (d - 128)
  | _ => False
  end.

Lemma utf8_byte code s :
  0 <= s ->
  Z.lor 192 (Z.land (Z.shiftr code s) 31) = 192 + code / 2 ^ s mod 32 /\
  Z.lor 224 (Z.land (Z.shiftr code s) 15) = 224 + code / 2 ^ s mod 16 /\
  Z.lor 240 (Z.land (Z.shiftr code s) 7) = 240 + code / 2 ^ s mod 8 /\
  Z.lor 128 (Z.land (Z.shiftr code s) 63) = 128 + code / 2 ^ s mod 64.
Proof.
  intros Hs. change 31 with (Z.ones 5). change 15 with (Z.ones 4). change 7 with (Z.ones 3).
  change 63 with (Z.ones 6). rewrite !Z.land_ones, Z.shiftr_div_pow2 by lia.
  change (2 ^ 5) with 32. change (2 ^ 4) with 16. change (2 ^ 3) with 8. change (2 ^ 6) with 64.
  generalize (code / 2 ^ s). intros y.
  assert (A : 0 <= y mod 32 < 32) by lia. assert (B : 0 <= y mod 16 < 16) by lia.
  assert (C : 0 <= y mod 8 < 8) by lia. assert (D : 0 <= y mod 64 < 64) by lia.
  revert A B C D. generalize (y mod 32) (y mod 16) (y mod 8) (y mod 64).
  intros a b c d A B C D. repeat split; apply Z.eqb_eq;
    [by_range a 32 | by_range b 16 | by_range c 8 | by_range d 64].
Qed.

Lemma utf8_scalar code : scalar_value code -> utf8_spells (utf8 code) code.
Proof.
  unfold scalar_value, utf8. intros H.
  destruct (utf8_byte code 0 ltac:(lia)) as (_ & _ & _ & H0).
  destruct (utf8_byte code 6 ltac:(lia)) as (H6a & _ & _ & H6).
  destruct (utf8_byte code 12 ltac:(lia)) as (_ & H12a & _ & H12).
  destruct (utf8_byte code 18 ltac:(lia)) as (_ & _ & H18 & _).
  rewrite Z.shiftr_0_r in H0. rewrite Z.pow_0_r, Z.div_1_r in H0.
  rewrite H0, H6a, H6, H12a, H12, H18. clear H0 H6a H6 H12a H12 H18.
  repeat case_cmp; unfold utf8_spells, continuation; try lia.
  change 127 with (Z.ones 7). rewrite Z.land_ones by lia. mach.
Qed.

Lemma utf8_rejects code : ~ scalar_value code -> 0 <= code -> utf8 code = [].
Proof.
  unfold scalar_value, utf8. intros H H0. repeat case_cmp; (reflexivity || lia).
Qed.

(** ** Properties *)

(** Base64 and its URL-safe variant decode what they encode, for every byte string; the padded
    text has four characters per started group of three bytes. *)
Theorem base64_roundtrip (value : list Z) :
  bytes value ->
  base64_decode (base64_encode value) = value /\
  base64_url_decode (base64_url_encode value) = value /\
  Z.of_nat (length (base64_encode value)) = 4 * ((Z.of_nat (length value) + 2) / 3).
Proof.
  intros Hv. split; [|split].
  - now apply decode64_encode64.
  - unfold base64_url_decode. destruct (Nat.eqb _ _).
    + now apply decode64_encode64.
    + now apply decode64_encode64_padded.
  - apply encode64_length.
Qed.

Lemma base64_roundtrip_witness :
  base64_decode (base64_encode (chars "vitex")) = chars "vitex".
Proof. apply (base64_roundtrip (chars "vitex")). apply digits_check; reflexivity. Defined.

(** Base32 encoding terminates on every byte string and decoding its output gives the string
    back. *)
Theorem base32_roundtrip (value : list Z) :
  bytes value -> exists text, base32_encode value = Some text /\ base32_decode text = value.
Proof. apply base32_decode_encode. Qed.

Lemma base32_roundtrip_witness :
  exists text, base32_encode (chars "vitex") = Some text /\ base32_decode text = chars "vitex".
Proof. apply (base32_roundtrip (chars "vitex")). apply digits_check; reflexivity. Defined.

(** Base45 and its BEP45 relabelling (special characters written as lower case letters) decode
    what they encode, for every byte string. *)
Theorem base45_roundtrip (data : list Z) :
  bytes data ->
  base45_decode (base45_encode data) = data /\ bep45_decode (bep45_encode data) = data.
Proof. intros Hd. split; [now apply base45_decode_encode | now apply bep45_decode_encode]. Qed.

Lemma base45_roundtrip_witness :
  base45_decode (base45_encode (chars "vitex")) = chars "vitex".
Proof. apply (base45_roundtrip (chars "vitex")). apply digits_check; reflexivity. Defined.

(** Percent encoding and hexadecimal encoding are undone by their decoders on every byte
    string, and percent encoding emits only unreserved characters and '%'. *)
Theorem url_hex_roundtrip (text : list Z) (upper : bool) :
  bytes text ->
  url_decode (url_encode text) = text /\
  hex_decode (hex_encode text upper) = text /\
  (forall c, In c (url_encode text) -> url_plain c = true \/ c = 37).
Proof.
  intros Ht. split; [now apply url_decode_encode|]. split; [now apply hex_decode_encode|].
  intros c. now apply url_encode_safe.
Qed.

Lemma url_hex_roundtrip_witness : url_decode (url_encode (chars "a b+c%")) = chars "a b+c%".
Proof. apply (url_hex_roundtrip (chars "a b+c%") true). apply digits_check; reflexivity. Defined.

(** rotating a buffer backward with the seed it was rotated forward with restores every byte,
    although the forward pass hashes the bytes it has already overwritten. *)
Theorem rotate_inverse (value : list Z) (hash : Z) :
  bytes value -> rotate (rotate value hash 1) hash (-1) = value.
Proof. apply rotate_roundtrip. Qed.

Lemma rotate_inverse_witness :
  rotate (rotate (chars "vitex") 7 1) 7 (-1) = chars "vitex".
Proof. apply (rotate_inverse (chars "vitex") 7). apply digits_check; reflexivity. Defined.

(** the UTF-8 encoder emits the well-formed sequence of every Unicode scalar value, and
    nothing for surrogates and for codes past U+10FFFF. *)
Theorem utf8_correct (code : Z) :
  0 <= code ->
  (scalar_value code -> utf8_spells (utf8 code) code) /\ (~ scalar_value code -> utf8 code = []).
Proof. intros H. split; [apply utf8_scalar | intros Hn; now apply utf8_rejects]. Qed.

Lemma utf8_correct_witness : utf8_spells (utf8 8364) 8364.
Proof. apply (utf8_correct 8364); unfold scalar_value; lia. Defined.
