(* ===== verification/FixedUInt.v ===== *)
(** * What the wide integers promise to their clients

    [compute::uint128] and [compute::uint256] are two copies of one design.  The class [FixedUInt]
    names the operations that the routines working on either of them use, [FixedUIntLaws] what each
    operation promises about the number a value stands for, and the theorems below are proved once
    against that interface: the digit loop of [to_string] and the digit loop of the text
    constructor.  UInt128.v and UInt256.v discharge the laws. *)

From S2P Require Import Prelude Codec.

Class FixedUInt (A : Type) := {
  fu_width : Z;
  fu_wf : A -> Prop;
  fu_val : A -> Z;
  fu_of_int : Z -> A;
  fu_to_bool : A -> bool;
  fu_to_uint8 : A -> Z;
  fu_add_assign : A -> A -> A;
  fu_mul_assign : A -> A -> A;
  fu_divide : A -> A -> option (A * A) }.

Class FixedUIntLaws (A : Type) `{FixedUInt A} := {
  fu_width_large : 64 <= fu_width;
  fu_val_range : forall x, fu_wf x -> 0 <= fu_val x < 2 ^ fu_width;
  fu_val_inj : forall x y, fu_wf x -> fu_wf y -> fu_val x = fu_val y -> x = y;
  fu_of_int_wf : forall n, fu_wf (fu_of_int n);
  fu_of_int_val : forall n, 0 <= n < 2 ^ 64 -> fu_val (fu_of_int n) = n;
  fu_to_bool_val : forall x, fu_wf x -> fu_to_bool x = negb (fu_val x =? 0);
  fu_to_uint8_val : forall x, fu_wf x -> fu_to_uint8 x = fu_val x mod 256;
  fu_add_spec : forall x y, fu_wf x -> fu_wf y ->
    fu_wf (fu_add_assign x y) /\
    fu_val (fu_add_assign x y) = (fu_val x + fu_val y) mod 2 ^ fu_width;
  fu_mul_spec : forall x y, fu_wf x -> fu_wf y ->
    fu_wf (fu_mul_assign x y) /\
    fu_val (fu_mul_assign x y) = (fu_val x * fu_val y) mod 2 ^ fu_width;
  fu_divide_spec : forall x y, fu_wf x -> fu_wf y -> fu_val y <> 0 ->
    exists q r, fu_divide x y = Some (q, r) /\ fu_wf q /\ fu_wf r /\
                fu_val q = fu_val x / fu_val y /\ fu_val r = fu_val x mod fu_val y }.

(** ** Text helpers the two [to_string] share *)

(** [while (output.size() > 1 && output.front() == '0') output.erase(0, 1)]. *)
Fixpoint erase_zeros (output : list Z) : list Z :=
  match output with
  | c :: rest =>
      match rest with
      | [] => output
      | _ => if c =? 48 then erase_zeros rest else output
      end
  | [] => []
  end.

(** [if (output.size() < length) output.append(length - output.size(), '0')]. *)
Definition pad_zeros (output : list Z) (len : Z) : list Z :=
  output ++ repeat 48 (Z.to_nat len - length output).

(** ** The digit loop *)

(** One round of the digit loop: divide, push the digit of the remainder. *)
Definition fu_digit_round {A} `{FixedUInt A} (alphabet : list Z) (base : Z) (s : A * list Z) :
    option (A * list Z) :=
  qr ← fu_divide (fst s) (fu_of_int base);
  c ← alphabet !! Z.to_nat (fu_to_uint8 (snd qr));
  Some (fst qr, snd s ++ [c]).

(** One round of the text loop: multiply, add the value of the digit. *)
Definition fu_text_round {A} `{FixedUInt A} (base : Z) (self : A) (c : Z) : A :=
  fu_add_assign (fu_mul_assign self (fu_of_int base)) (fu_of_int (c - 48)).

Lemma lookup_at_table table i :
  0 <= i < Z.of_nat (length table) -> table !! Z.to_nat i = Some (at_table table i).
Proof.
  intros Hi. destruct (lookup_lt_is_Some_2 table (Z.to_nat i)) as [c E]; [lia|].
  rewrite E. unfold at_table. now erewrite nth_lookup_Some.
Qed.

Section Client.
Context {A : Type} {HF : FixedUInt A} {HL : FixedUIntLaws A}.

Lemma fu_digit_round_spec alphabet base x out :
  2 <= base <= Z.of_nat (length alphabet) -> Z.of_nat (length alphabet) <= 256 -> fu_wf x ->
  exists q, fu_digit_round alphabet base (x, out) =
              Some (q, out ++ [at_table alphabet (fu_val x mod base)]) /\
            fu_wf q /\ fu_val q = fu_val x / base.
Proof.
  intros Hb Ha Hx. unfold fu_digit_round. cbn [fst snd].
  destruct (fu_divide_spec x (fu_of_int base) Hx (fu_of_int_wf base)) as (q & r & E & Hq & Hr & Vq & Vr).
  { rewrite fu_of_int_val by lia. lia. }
  rewrite fu_of_int_val in Vq, Vr by lia. rewrite E. cbn [mbind option_bind fst snd].
  pose proof (Z.mod_pos_bound (fu_val x) base ltac:(lia)) as Hm.
  rewrite fu_to_uint8_val, Vr, (Z.mod_small _ 256) by (assumption || lia).
  rewrite lookup_at_table by lia. cbn [mbind option_bind]. exists q. auto.
Qed.

(** The digits the loop writes, least significant first, are the digits of the number. *)
Lemma fu_digits_spec alphabet base fuel x :
  2 <= base <= Z.of_nat (length alphabet) -> Z.of_nat (length alphabet) <= 256 ->
  fu_wf x -> fu_val x <> 0 -> fu_width <= Z.of_nat fuel ->
  exists y ds,
    do_whileM fuel (fu_digit_round alphabet base) (fun s : A * list Z => fu_to_bool (fst s)) (x, [])
      = Some (y, map (at_table alphabet) ds) /\
    digits base ds /\ le_val base ds = fu_val x /\ no_leading_zero (rev ds) /\ ds <> [].
Proof.
  intros Hb Ha Hx Hnz Hf. pose proof (fu_val_range x Hx) as Hr.
  rewrite do_whileM_while by (cbn [fst]; rewrite fu_to_bool_val by assumption; lia).
  edestruct (whileM_rule
    (fun s : A * list Z => fu_wf (fst s) /\ exists ds, snd s = map (at_table alphabet) ds /\
       digits base ds /\ fu_val x = le_val base ds + base ^ Z.of_nat (length ds) * fu_val (fst s) /\
       (fu_val (fst s) = 0 -> no_leading_zero (rev ds) /\ ds <> []))
    (fun s => Z.to_nat (bitlen (fu_val (fst s))))) as (s & E & [Hs (ds & Es & Hd & Hv & Hlead)] & Hc).
  4: { destruct s as [y out]. cbn [fst snd] in *. subst out. exists y, ds. split; [exact E|].
       cbn [fst] in Hc. rewrite fu_to_bool_val in Hc by assumption.
       apply negb_false_iff, Z.eqb_eq in Hc. rewrite Hc in *.
       split; [assumption|]. split; [lia|]. auto. }
  - split; [exact Hx|]. exists []. cbn [fst snd length le_val]. rewrite Z.pow_0_r.
    repeat split; [constructor | lia | contradiction..].
  - pose proof (bitlen_bound fu_width (fu_val x) ltac:(pose proof fu_width_large; lia) Hr).
    cbn [fst]. lia.
  - intros [y out] [Hy (ds & Es & Hd & Hv & Hlead)] Hcond. cbn [fst snd] in *. subst out.
    rewrite fu_to_bool_val in Hcond by assumption. apply negb_true_iff, Z.eqb_neq in Hcond.
    pose proof (fu_val_range y Hy) as Ry.
    destruct (fu_digit_round_spec alphabet base y (map (at_table alphabet) ds) Hb Ha Hy) as (q & E & Hq & Vq).
    exists (q, map (at_table alphabet) ds ++ [at_table alphabet (fu_val y mod base)]).
    split; [exact E|]. split.
    + split; [exact Hq|]. exists (ds ++ [fu_val y mod base]). cbn [fst snd].
      pose proof (Z.mod_pos_bound (fu_val y) base ltac:(lia)).
      pose proof (Z.div_mod (fu_val y) base ltac:(lia)).
      split; [now rewrite map_app|]. split.
      { apply digits_app. split; [assumption|]. apply digits_cons. split; [lia|constructor]. }
      rewrite Vq. split.
      { rewrite le_val_app, length_app. cbn [length le_val].
        rewrite Nat2Z.inj_add, Z.pow_add_r by lia. rewrite Hv. nia. }
      intros Hq0. rewrite rev_app_distr. split; [simpl; lia | now destruct ds].
    + cbn [fst]. rewrite Vq, (bitlen_half (fu_val y)) by lia.
      pose proof (bitlen_mono (fu_val y / base) (fu_val y / 2)) as Hmono.
      pose proof (Z.div_le_compat_l (fu_val y) 2 base ltac:(lia) ltac:(lia)).
      pose proof (Z.div_pos (fu_val y) base ltac:(lia) ltac:(lia)).
      pose proof (bitlen_nonneg (fu_val y / base)). lia.
Qed.

(** The text loop reads a number back modulo the width. *)
Lemma fu_text_spec base cs self :
  2 <= base <= 10 -> fu_wf self -> digits base cs ->
  let result := fold_left (fu_text_round base) (map (fun d => 48 + d) cs) self in
  fu_wf result /\
  fu_val result = (fu_val self * base ^ Z.of_nat (length cs) + be_val base cs) mod 2 ^ fu_width.
Proof.
  intros Hb. revert self. induction cs as [|d cs IH]; intros self Hs Hd result; subst result.
  - simpl. split; [assumption|]. rewrite Z.pow_0_r, Z.mul_1_r. unfold be_val. simpl.
    rewrite Z.add_0_r, Z.mod_small; [reflexivity|]. now apply fu_val_range.
  - apply digits_cons in Hd as [Hd Hcs]. cbn [map fold_left].
    destruct (fu_mul_spec self (fu_of_int base) Hs (fu_of_int_wf base)) as [Wm Vm].
    destruct (fu_add_spec _ (fu_of_int (48 + d - 48)) Wm (fu_of_int_wf _)) as [Wa Va].
    destruct (IH (fu_text_round base self (48 + d)) Wa Hcs) as [W V]. split; [exact W|].
    rewrite V. unfold fu_text_round. rewrite Va, Vm, !fu_of_int_val by lia.
    rewrite be_val_cons. cbn [length]. rewrite Nat2Z.inj_succ, Z.pow_succ_r by lia.
    rewrite Zplus_mod_idemp_l, <- Z.add_mod_idemp_l, Z.mul_mod_idemp_l, Z.add_mod_idemp_l
      by (pose proof fu_width_large; apply Z.pow_nonzero; lia).
    f_equal. ring.
Qed.

End Client.
