(* ===== verification/UInt128.v ===== *)
(** * 128-bit unsigned integers ([vitex::compute::uint128])

    Source: src/src/vitex/compute.h (struct, operators against built-in integers) and
    src/src/vitex/compute.cpp (everything else), little-endian configuration.  A value is two
    [uint64_t] halves; every intermediate result is reduced to the width of its C++ type.  An
    integral template argument is the mathematical value the C++ argument has. *)

From S2P Require Import Prelude Codec FixedUInt.

Record uint128 := mk_uint128 { upper128 : Z; lower128 : Z }.

#[export] Instance uint128_eq_dec : EqDecision uint128.
Proof. solve_decision. Defined.

(** The number a value stands for, and the type invariant of the two halves. *)
Definition val128 (x : uint128) : Z := upper128 x * 2 ^ 64 + lower128 x.
Definition wf128 (x : uint128) : Prop := fits 64 (upper128 x) /\ fits 64 (lower128 x).

(** ** Construction and conversion *)

Definition uint128_of_int (right : Z) : uint128 :=
  mk_uint128 (if right <? 0 then u64 (-1) else 0) (u64 right).
Definition uint128_of_halves (upper_right lower_right : Z) : uint128 :=
  mk_uint128 (u64 upper_right) (u64 lower_right).
Definition uint128_assign_int (self : uint128) (right : Z) : uint128 :=
  let upper := 0 in
  let upper := if right <? 0 then u64 (-1) else upper in
  mk_uint128 upper (u64 right).

Definition uint128_min : uint128 := uint128_of_int 0.
Definition uint128_max : uint128 := uint128_of_halves (-1) (-1).

Definition uint128_to_bool (x : uint128) : bool := z2b (upper128 x) || z2b (lower128 x).
Definition uint128_to_uint8 (x : uint128) : Z := u8 (lower128 x).
Definition uint128_to_uint16 (x : uint128) : Z := u16 (lower128 x).
Definition uint128_to_uint32 (x : uint128) : Z := u32 (lower128 x).
Definition uint128_to_uint64 (x : uint128) : Z := lower128 x.
Definition uint128_high (x : uint128) : Z := upper128 x.
Definition uint128_low (x : uint128) : Z := lower128 x.

(** ** Bitwise operators *)

Definition uint128_and (x right : uint128) : uint128 :=
  mk_uint128 (Z.land (upper128 x) (upper128 right)) (Z.land (lower128 x) (lower128 right)).
Definition uint128_or (x right : uint128) : uint128 :=
  mk_uint128 (Z.lor (upper128 x) (upper128 right)) (Z.lor (lower128 x) (lower128 right)).
Definition uint128_xor (x right : uint128) : uint128 :=
  mk_uint128 (Z.lxor (upper128 x) (upper128 right)) (Z.lxor (lower128 x) (lower128 right)).
Definition uint128_not (x : uint128) : uint128 :=
  mk_uint128 (u64 (Z.lnot (upper128 x))) (u64 (Z.lnot (lower128 x))).
Definition uint128_and_assign (x right : uint128) : uint128 :=
  let upper := Z.land (upper128 x) (upper128 right) in
  let lower := Z.land (lower128 x) (lower128 right) in mk_uint128 upper lower.
Definition uint128_or_assign (x right : uint128) : uint128 :=
  let upper := Z.lor (upper128 x) (upper128 right) in
  let lower := Z.lor (lower128 x) (lower128 right) in mk_uint128 upper lower.
Definition uint128_xor_assign (x right : uint128) : uint128 :=
  let upper := Z.lxor (upper128 x) (upper128 right) in
  let lower := Z.lxor (lower128 x) (lower128 right) in mk_uint128 upper lower.

(** ** Shifts *)

Definition uint128_shl (x right : uint128) : uint128 :=
  let shift := lower128 right in
  if z2b (upper128 right) || (128 <=? shift) then uint128_of_int 0
  else if shift =? 64 then mk_uint128 (lower128 x) 0
  else if shift =? 0 then x
  else if shift <? 64 then
    mk_uint128
      (u64 (u64 (Z.shiftl (upper128 x) shift) + Z.shiftr (lower128 x) (64 - shift)))
      (u64 (Z.shiftl (lower128 x) shift))
  else if (shift <? 128) && (64 <? shift) then
    mk_uint128 (u64 (Z.shiftl (lower128 x) (shift - 64))) 0
  else uint128_of_int 0.

Definition uint128_shr (x right : uint128) : uint128 :=
  let shift := lower128 right in
  if z2b (upper128 right) || (128 <=? shift) then uint128_of_int 0
  else if shift =? 64 then mk_uint128 0 (upper128 x)
  else if shift =? 0 then x
  else if shift <? 64 then
    mk_uint128
      (Z.shiftr (upper128 x) shift)
      (u64 (u64 (Z.shiftl (upper128 x) (64 - shift)) + Z.shiftr (lower128 x) shift))
  else if (shift <? 128) && (64 <? shift) then
    mk_uint128 0 (Z.shiftr (upper128 x) (shift - 64))
  else uint128_of_int 0.

Definition uint128_shl_assign (x right : uint128) : uint128 := uint128_shl x right.
Definition uint128_shr_assign (x right : uint128) : uint128 := uint128_shr x right.

(** ** Logic and comparison *)

Definition uint128_lnot (x : uint128) : bool := negb (z2b (upper128 x) || z2b (lower128 x)).
Definition uint128_land (x right : uint128) : bool := uint128_to_bool x && uint128_to_bool right.
Definition uint128_lor (x right : uint128) : bool := uint128_to_bool x || uint128_to_bool right.
Definition uint128_eq (x right : uint128) : bool :=
  (upper128 x =? upper128 right) && (lower128 x =? lower128 right).
Definition uint128_ne (x right : uint128) : bool :=
  negb (upper128 x =? upper128 right) || negb (lower128 x =? lower128 right).
Definition uint128_gt (x right : uint128) : bool :=
  if upper128 x =? upper128 right then lower128 right <? lower128 x
  else upper128 right <? upper128 x.
Definition uint128_lt (x right : uint128) : bool :=
  if upper128 x =? upper128 right then lower128 x <? lower128 right
  else upper128 x <? upper128 right.
Definition uint128_ge (x right : uint128) : bool := uint128_gt x right || uint128_eq x right.
Definition uint128_le (x right : uint128) : bool := uint128_lt x right || uint128_eq x right.

(** ** Arithmetic *)

Definition uint128_add (x right : uint128) : uint128 :=
  mk_uint128
    (u64 (u64 (upper128 x + upper128 right) +
          b2z (u64 (lower128 x + lower128 right) <? lower128 x)))
    (u64 (lower128 x + lower128 right)).
Definition uint128_add_assign (x right : uint128) : uint128 :=
  let upper := u64 (upper128 x +
                    u64 (upper128 right + b2z (u64 (lower128 x + lower128 right) <? lower128 x))) in
  let lower := u64 (lower128 x + lower128 right) in mk_uint128 upper lower.
Definition uint128_sub (x right : uint128) : uint128 :=
  mk_uint128
    (u64 (u64 (upper128 x - upper128 right) -
          b2z (lower128 x <? u64 (lower128 x - lower128 right))))
    (u64 (lower128 x - lower128 right)).
Definition uint128_sub_assign (x right : uint128) : uint128 := uint128_sub x right.

(** The 32-bit limbs of a value, most significant first: [top] and [bottom] of [operator*]. *)
Definition limbs32 (x : uint128) : Z * Z * Z * Z :=
  (Z.shiftr (upper128 x) 32, Z.land (upper128 x) (2 ^ 32 - 1),
   Z.shiftr (lower128 x) 32, Z.land (lower128 x) (2 ^ 32 - 1)).

Definition lo32 (p : Z) : Z := Z.land p (2 ^ 32 - 1).
Definition hi32 (p : Z) : Z := Z.shiftr p 32.

Definition uint128_mul (x right : uint128) : uint128 :=
  let '(t0, t1, t2, t3) := limbs32 x in
  let '(b0, b1, b2, b3) := limbs32 right in
  let p a b := u64 (a * b) in
  (* products[3 - x][y] = top[x] * bottom[y] *)
  let p03 := p t3 b3 in let p02 := p t3 b2 in let p01 := p t3 b1 in let p00 := p t3 b0 in
  let p13 := p t2 b3 in let p12 := p t2 b2 in let p11 := p t2 b1 in
  let p23 := p t1 b3 in let p22 := p t1 b2 in
  let p33 := p t0 b3 in
  let fourth32 := lo32 p03 in
  let third32 := u64 (lo32 p02 + hi32 p03) in
  let second32 := u64 (lo32 p01 + hi32 p02) in
  let first32 := u64 (lo32 p00 + hi32 p01) in
  let third32 := u64 (third32 + lo32 p13) in
  let second32 := u64 (second32 + u64 (lo32 p12 + hi32 p13)) in
  let first32 := u64 (first32 + u64 (lo32 p11 + hi32 p12)) in
  let second32 := u64 (second32 + lo32 p23) in
  let first32 := u64 (first32 + u64 (lo32 p22 + hi32 p23)) in
  let first32 := u64 (first32 + lo32 p33) in
  let third32 := u64 (third32 + hi32 fourth32) in
  let second32 := u64 (second32 + hi32 third32) in
  let first32 := u64 (first32 + hi32 second32) in
  let fourth32 := lo32 fourth32 in
  let third32 := lo32 third32 in
  let second32 := lo32 second32 in
  let first32 := lo32 first32 in
  mk_uint128 (Z.lor (u64 (Z.shiftl first32 32)) second32)
             (Z.lor (u64 (Z.shiftl third32 32)) fourth32).
Definition uint128_mul_assign (x right : uint128) : uint128 := uint128_mul x right.

(** [bits]: the counting loops, at most 64 rounds over a [uint64_t]. *)
Definition count_shifts (x out : Z) : option Z :=
  s ← whileM 64 (fun s : Z * Z => z2b (fst s))
        (fun s => Some (Z.shiftr (fst s) 1, u8 (snd s + 1))) (x, out);
  Some (snd s).

Definition uint128_bits (x : uint128) : option Z :=
  if z2b (upper128 x) then count_shifts (upper128 x) 64 else count_shifts (lower128 x) 0.

Definition uint128_bytes (x : uint128) : option Z :=
  if uint128_lnot x then Some 0
  else
    length ← uint128_bits x;
    Some (Z.max 1 (u8 (Z.min 16 (Z.quot (length - Z.rem length 8 + 8) 8)))).

(** One round of the restoring division: bit [x - 1] of [left] enters the remainder. *)
Definition divide128_round (left right : uint128) (x : Z) (qr : uint128 * uint128) :
    uint128 * uint128 :=
  let one := uint128_of_int 1 in
  let first := uint128_shl_assign (fst qr) one in
  let second := uint128_shl_assign (snd qr) one in
  let bit := uint128_shr left (uint128_of_int (u32 (x - 1))) in
  let second :=
    if uint128_to_bool (mk_uint128 0 (Z.land (lower128 bit) 1))
    then uint128_add_assign second one else second in
  if uint128_ge second right
  then (uint128_add_assign first one, uint128_sub_assign second right)
  else (first, second).

Fixpoint divide128_loop (left right : uint128) (x : nat) (qr : uint128 * uint128) :
    uint128 * uint128 :=
  match x with
  | O => qr
  | S x' => divide128_loop left right x' (divide128_round left right (Z.of_nat x) qr)
  end.

Definition uint128_divide (left right : uint128) : option (uint128 * uint128) :=
  let zero := uint128_of_int 0 in
  let one := uint128_of_int 1 in
  if uint128_eq right zero then Some (zero, zero)
  else if uint128_eq right one then Some (left, zero)
  else if uint128_eq left right then Some (one, zero)
  else if uint128_eq left zero || uint128_lt left right then Some (zero, left)
  else
    bits ← uint128_bits left;
    Some (divide128_loop left right (Z.to_nat bits) (zero, zero)).

Definition uint128_div (x right : uint128) : option uint128 := fst <$> uint128_divide x right.
Definition uint128_mod (x right : uint128) : option uint128 := snd <$> uint128_divide x right.
Definition uint128_div_assign (x right : uint128) : option uint128 := uint128_div x right.
Definition uint128_mod_assign (x right : uint128) : option uint128 := uint128_mod x right.

Definition uint128_pre_inc (x : uint128) : uint128 := uint128_add_assign x (uint128_of_int 1).
Definition uint128_pre_dec (x : uint128) : uint128 := uint128_sub_assign x (uint128_of_int 1).
(** Postfix forms: the value returned and the value left in the object. *)
Definition uint128_post_inc (x : uint128) : uint128 * uint128 := (x, uint128_pre_inc x).
Definition uint128_post_dec (x : uint128) : uint128 * uint128 := (x, uint128_pre_dec x).
Definition uint128_plus (x : uint128) : uint128 := x.
Definition uint128_neg (x : uint128) : uint128 := uint128_add (uint128_not x) (uint128_of_int 1).

(** ** Operators whose right operand is a built-in integer *)

Definition uint128_and_int (x : uint128) (right : Z) : uint128 :=
  mk_uint128 0 (Z.land (lower128 x) (u64 right)).
Definition uint128_and_assign_int (x : uint128) (right : Z) : uint128 :=
  mk_uint128 0 (Z.land (lower128 x) (u64 right)).
Definition uint128_or_int (x : uint128) (right : Z) : uint128 :=
  mk_uint128 (upper128 x) (Z.lor (lower128 x) (u64 right)).
Definition uint128_or_assign_int (x : uint128) (right : Z) : uint128 :=
  mk_uint128 (upper128 x) (Z.lor (lower128 x) (u64 right)).
Definition uint128_xor_int (x : uint128) (right : Z) : uint128 :=
  mk_uint128 (upper128 x) (Z.lxor (lower128 x) (u64 right)).
Definition uint128_xor_assign_int (x : uint128) (right : Z) : uint128 :=
  mk_uint128 (upper128 x) (Z.lxor (lower128 x) (u64 right)).
Definition uint128_shl_int (x : uint128) (right : Z) : uint128 := uint128_shl x (uint128_of_int right).
Definition uint128_shl_assign_int (x : uint128) (right : Z) : uint128 :=
  uint128_shl x (uint128_of_int right).
Definition uint128_shr_int (x : uint128) (right : Z) : uint128 := uint128_shr x (uint128_of_int right).
Definition uint128_shr_assign_int (x : uint128) (right : Z) : uint128 :=
  uint128_shr x (uint128_of_int right).
Definition uint128_eq_int (x : uint128) (right : Z) : bool :=
  negb (z2b (upper128 x)) && (lower128 x =? u64 right).
Definition uint128_ne_int (x : uint128) (right : Z) : bool :=
  z2b (upper128 x) || negb (lower128 x =? u64 right).
Definition uint128_gt_int (x : uint128) (right : Z) : bool :=
  z2b (upper128 x) || (u64 right <? lower128 x).
Definition uint128_lt_int (x : uint128) (right : Z) : bool :=
  if negb (z2b (upper128 x)) then lower128 x <? u64 right else false.
Definition uint128_ge_int (x : uint128) (right : Z) : bool :=
  uint128_gt_int x right || uint128_eq_int x right.
Definition uint128_le_int (x : uint128) (right : Z) : bool :=
  uint128_lt_int x right || uint128_eq_int x right.
Definition uint128_add_int (x : uint128) (right : Z) : uint128 :=
  mk_uint128
    (u64 (upper128 x + b2z (u64 (lower128 x + u64 right) <? lower128 x)))
    (u64 (lower128 x + u64 right)).
Definition uint128_add_assign_int (x : uint128) (right : Z) : uint128 :=
  uint128_add_assign x (uint128_of_int right).
Definition uint128_sub_int (x : uint128) (right : Z) : uint128 :=
  mk_uint128
    (u64 (upper128 x - b2z (lower128 x <? u64 (lower128 x - u64 right))))
    (u64 (lower128 x - u64 right)).
Definition uint128_sub_assign_int (x : uint128) (right : Z) : uint128 :=
  uint128_sub x (uint128_of_int right).
Definition uint128_mul_int (x : uint128) (right : Z) : uint128 := uint128_mul x (uint128_of_int right).
Definition uint128_mul_assign_int (x : uint128) (right : Z) : uint128 :=
  uint128_mul x (uint128_of_int right).
Definition uint128_div_int (x : uint128) (right : Z) : option uint128 :=
  uint128_div x (uint128_of_int right).
Definition uint128_div_assign_int (x : uint128) (right : Z) : option uint128 :=
  uint128_div x (uint128_of_int right).
Definition uint128_mod_int (x : uint128) (right : Z) : option uint128 :=
  uint128_mod x (uint128_of_int right).
Definition uint128_mod_assign_int (x : uint128) (right : Z) : option uint128 :=
  uint128_mod x (uint128_of_int right).

(** ** Operators whose left operand is a built-in integer *)

Definition int_and_uint128 (left : Z) (right : uint128) : uint128 := uint128_and_int right left.
Definition int_or_uint128 (left : Z) (right : uint128) : uint128 := uint128_or_int right left.
Definition int_xor_uint128 (left : Z) (right : uint128) : uint128 := uint128_xor_int right left.
Definition int_shl_uint128 (left : Z) (right : uint128) : uint128 :=
  uint128_shl (uint128_of_int left) right.
Definition int_shr_uint128 (left : Z) (right : uint128) : uint128 :=
  uint128_shr (uint128_of_int left) right.
Definition int_eq_uint128 (left : Z) (right : uint128) : bool :=
  negb (z2b (upper128 right)) && (u64 left =? lower128 right).
Definition int_ne_uint128 (left : Z) (right : uint128) : bool :=
  z2b (upper128 right) || negb (u64 left =? lower128 right).
Definition int_gt_uint128 (left : Z) (right : uint128) : bool :=
  negb (z2b (upper128 right)) && (lower128 right <? u64 left).
Definition int_lt_uint128 (left : Z) (right : uint128) : bool :=
  if z2b (upper128 right) then true else u64 left <? lower128 right.
Definition int_ge_uint128 (left : Z) (right : uint128) : bool :=
  if z2b (upper128 right) then false else lower128 right <=? u64 left.
Definition int_le_uint128 (left : Z) (right : uint128) : bool :=
  if z2b (upper128 right) then true else u64 left <=? lower128 right.
Definition int_add_uint128 (left : Z) (right : uint128) : uint128 := uint128_add_int right left.
Definition int_sub_uint128 (left : Z) (right : uint128) : uint128 :=
  uint128_neg (uint128_sub_int right left).
Definition int_mul_uint128 (left : Z) (right : uint128) : uint128 := uint128_mul_int right left.
Definition int_div_uint128 (left : Z) (right : uint128) : option uint128 :=
  uint128_div (uint128_of_int left) right.
Definition int_mod_uint128 (left : Z) (right : uint128) : option uint128 :=
  uint128_mod (uint128_of_int left) right.

(** ** Bytes *)

(** [os::hw::swap_endianness] on a [uint64_t], and [to_endianness(endian::big, .)] on a
    little-endian machine. *)
Definition swap_endianness64 (value : Z) : Z := le_val 256 (rev (le_digits 8 256 value)).
Definition to_endianness_big (value : Z) : Z := swap_endianness64 value.

(** [memcpy] from an array of [uint64_t] to bytes and back. *)
Definition store64 (array : list Z) : list Z := flat_map (le_digits 8 256) array.
Definition load64 (data : list Z) (i : nat) : Z := le_val 256 (firstn 8 (skipn (8 * i) data)).

Definition uint128_encode (x : uint128) : list Z :=
  store64 [to_endianness_big (upper128 x); to_endianness_big (lower128 x)].

Definition uint128_encode_compact (x : uint128) : option (list Z) :=
  let intermediate := uint128_encode x in
  size ← uint128_bytes x;
  Some (firstn (Z.to_nat size) (skipn (16 - Z.to_nat size) intermediate)).

Definition uint128_decode (data : list Z) : uint128 :=
  mk_uint128 (to_endianness_big (load64 data 0)) (to_endianness_big (load64 data 1)).

Definition uint128_decode_compact (data : list Z) : uint128 :=
  let data := firstn 16 data in
  uint128_decode (data ++ repeat 0 (16 - length data)).

(** ** Text *)

(** [stream >> x] for a [uint64_t] with [std::hex] set: nothing but white space leaves the operand
    as it was, no digit stores zero. *)
Definition stream_hex (text : list Z) (old : Z) : Z :=
  match skip_spaces text with
  | [] => old
  | c :: rest =>
      if c =? 45 then u64 (- read_xdigits (strip_0x rest) 0)
      else if c =? 43 then read_xdigits (strip_0x rest) 0
      else read_xdigits (strip_0x (c :: rest)) 0
  end.

(** The digit loop of bases 10 and 8. *)
Fixpoint text_loop128 (base last : Z) (data : list Z) (self : uint128) : uint128 :=
  match data with
  | [] => self
  | c :: rest =>
      if negb (c =? 0) && (48 <=? c) && (c <=? last)
      then text_loop128 base last rest
             (uint128_add_assign_int (uint128_mul_assign_int self base) (c - 48))
      else self
  end.

(** The bit loop of base 2 over at most [len] characters: the half it fills and the unread text. *)
Fixpoint bits_loop64 (len : nat) (data : list Z) (half : Z) : Z * list Z :=
  match len, data with
  | S len, c :: rest =>
      if negb (c =? 0) && (48 <=? c) && (c <=? 49)
      then bits_loop64 len rest (Z.lor (u64 (Z.shiftl half 1)) (u64 (c - 48)))
      else (half, data)
  | _, _ => (half, data)
  end.

(** [uint128(text, base)].  The constructor has no initializer, so the halves start as whatever
    the object's storage holds: [self]. *)
Definition uint128_of_text (self : uint128) (text : list Z) (base : Z) : uint128 :=
  match text with
  | [] => mk_uint128 0 0
  | _ =>
      let data := skip_spaces text in
      let size := length data in
      if base =? 16 then
        let max_len := Nat.min size 32 in
        let starting_index := if Nat.ltb 32 size then (size - 32)%nat else O in
        let lower_len := if Nat.leb 16 max_len then 16%nat else max_len in
        let upper_len := if Nat.leb 16 max_len then (max_len - 16)%nat else O in
        mk_uint128
          (stream_hex (firstn upper_len (skipn starting_index data)) (upper128 self))
          (stream_hex (firstn lower_len (skipn (starting_index + upper_len) data)) (lower128 self))
      else if base =? 10 then
        let starting_index := if Nat.ltb 39 size then (size - 39)%nat else O in
        text_loop128 10 57 (firstn (Nat.min size 39) (skipn starting_index data)) self
      else if base =? 8 then
        let starting_index := if Nat.ltb 43 size then (size - 43)%nat else O in
        text_loop128 8 55 (firstn (Nat.min size 43) (skipn starting_index data)) self
      else if base =? 2 then
        let max_len := Nat.min size 128 in
        let starting_index := if Nat.ltb 128 size then (size - 128)%nat else O in
        let lower_len := if Nat.leb 64 max_len then 64%nat else max_len in
        let upper_len := if Nat.leb 64 max_len then (max_len - 64)%nat else O in
        let '(upper, data) := bits_loop64 upper_len (skipn starting_index data) (upper128 self) in
        let '(lower, _) := bits_loop64 lower_len data (lower128 self) in
        mk_uint128 upper lower
      else self
  end.

Definition alphabet16 : list Z := chars "0123456789abcdef".

(** One round of the digit loop: divide, push the digit of the remainder. *)
Definition digit_round128 (base : Z) (s : uint128 * list Z) : option (uint128 * list Z) :=
  qr ← uint128_divide (fst s) (uint128_of_int base);
  c ← alphabet16 !! Z.to_nat (uint128_to_uint8 (snd qr));
  Some (fst qr, snd s ++ [c]).

Definition uint128_to_string (x : uint128) (base length : Z) : option (list Z) :=
  if uint128_lnot x then
    Some (if length =? 0 then [48] else pad_zeros [] length)
  else if base =? 16 then
    size ← uint128_bytes x;
    let array1 := to_endianness_big (lower128 x) in
    let array0 := to_endianness_big (upper128 x) in
    let length := Z.max length (size * 2) in
    let output := hex_encode (skipn (16 - Z.to_nat size) (store64 [array0; array1])) false in
    Some (erase_zeros (pad_zeros output length))
  else
    s ← do_whileM 129 (digit_round128 base) (fun s : uint128 * list Z => uint128_to_bool (fst s))
          (x, []);
    Some (rev (pad_zeros (snd s) length)).

(** ** Facts: representation *)
Lemma val128_range x : wf128 x -> 0 <= val128 x < 2 ^ 128.
Proof. unfold wf128, val128. intros [? ?]. mach. Qed.

Lemma val128_inj x y : wf128 x -> wf128 y -> val128 x = val128 y -> x = y.
Proof.
  destruct x as [xu xl], y as [yu yl]. unfold wf128, val128. simpl. intros [? ?] [? ?] E.
  f_equal; mach.
Qed.

Lemma val128_small x : val128 x < 2 ^ 64 -> wf128 x -> upper128 x = 0 /\ lower128 x = val128 x.
Proof. destruct x as [xu xl]. unfold wf128, val128. simpl. intros ? [? ?]. mach. Qed.

Lemma wf128_mk u l : fits 64 u -> fits 64 l -> wf128 (mk_uint128 u l).
Proof. split; assumption. Qed.

Lemma fits_0 w : 0 <= w -> fits w 0.
Proof. intros. split; [lia|]. apply Z.pow_pos_nonneg; lia. Qed.

#[export] Hint Resolve wf128_mk fits_0 : vitex.

Lemma uint128_of_int_wf n : wf128 (uint128_of_int n).
Proof. unfold uint128_of_int. apply wf128_mk; [destruct (n <? 0)|]; auto with vitex. Qed.

Lemma uint128_of_int_val n :
  - 2 ^ 63 <= n < 2 ^ 64 -> val128 (uint128_of_int n) = n mod 2 ^ 128.
Proof.
  intros H. unfold uint128_of_int, val128. simpl. case_cmp; mach.
Qed.

Lemma uint128_of_nat_val n : 0 <= n < 2 ^ 64 -> val128 (uint128_of_int n) = n.
Proof. intros H. rewrite uint128_of_int_val by lia. apply Z.mod_small. lia. Qed.

#[export] Hint Resolve uint128_of_int_wf : vitex.

(** ** Facts: comparison *)

Section Compare.
Context (x y : uint128) (Hx : wf128 x) (Hy : wf128 y).

Local Ltac cmp :=
  destruct x as [xu xl], y as [yu yl]; unfold wf128, val128, z2b, fits in *; simpl in *; lia.

Lemma uint128_eq_val : uint128_eq x y = (val128 x =? val128 y).
Proof. unfold uint128_eq. cmp. Qed.
Lemma uint128_ne_val : uint128_ne x y = negb (val128 x =? val128 y).
Proof. unfold uint128_ne. cmp. Qed.
Lemma uint128_lt_val : uint128_lt x y = (val128 x <? val128 y).
Proof. unfold uint128_lt. repeat case_cmp; cmp. Qed.
Lemma uint128_gt_val : uint128_gt x y = (val128 y <? val128 x).
Proof. unfold uint128_gt. repeat case_cmp; cmp. Qed.
End Compare.

Lemma uint128_to_bool_val x : wf128 x -> uint128_to_bool x = negb (val128 x =? 0).
Proof. destruct x. unfold uint128_to_bool, wf128, val128, z2b, fits. cbn. lia. Qed.
Lemma uint128_lnot_val x : wf128 x -> uint128_lnot x = (val128 x =? 0).
Proof. destruct x. unfold uint128_lnot, wf128, val128, z2b, fits. cbn. lia. Qed.

Lemma uint128_ge_val x y : wf128 x -> wf128 y -> uint128_ge x y = (val128 y <=? val128 x).
Proof. intros. unfold uint128_ge. rewrite uint128_gt_val, uint128_eq_val by assumption. lia. Qed.
Lemma uint128_le_val x y : wf128 x -> wf128 y -> uint128_le x y = (val128 x <=? val128 y).
Proof. intros. unfold uint128_le. rewrite uint128_lt_val, uint128_eq_val by assumption. lia. Qed.

(** ** Facts: addition, subtraction, complement *)
Lemma uint128_add_spec x y :
  wf128 x -> wf128 y ->
  wf128 (uint128_add x y) /\ val128 (uint128_add x y) = (val128 x + val128 y) mod 2 ^ 128.
Proof.
  destruct x as [xu xl], y as [yu yl]. intros [? ?] [? ?]. simpl in *.
  split; [apply wf128_mk; auto with vitex|].
  unfold val128, uint128_add. simpl. case_cmp; cbn [b2z]; mach.
Qed.

Lemma uint128_add_assign_eq x y : uint128_add_assign x y = uint128_add x y.
Proof.
  unfold uint128_add_assign, uint128_add. cbv zeta. f_equal. unfold wrapU.
  rewrite Zplus_mod_idemp_r, Zplus_mod_idemp_l. f_equal. ring.
Qed.

Lemma uint128_sub_spec x y :
  wf128 x -> wf128 y ->
  wf128 (uint128_sub x y) /\ val128 (uint128_sub x y) = (val128 x - val128 y) mod 2 ^ 128.
Proof.
  destruct x as [xu xl], y as [yu yl]. intros [? ?] [? ?]. simpl in *.
  split; [apply wf128_mk; auto with vitex|].
  unfold val128, uint128_sub. simpl. case_cmp; cbn [b2z]; mach.
Qed.

Lemma uint128_not_spec x :
  wf128 x -> wf128 (uint128_not x) /\ val128 (uint128_not x) = 2 ^ 128 - 1 - val128 x.
Proof.
  destruct x as [xu xl]. intros [? ?]. simpl in *.
  split; [apply wf128_mk; auto with vitex|].
  unfold val128, uint128_not, Z.lnot. simpl. mach.
Qed.

Lemma uint128_neg_spec x :
  wf128 x -> wf128 (uint128_neg x) /\ val128 (uint128_neg x) = (- val128 x) mod 2 ^ 128.
Proof.
  intros Hx. unfold uint128_neg. destruct (uint128_not_spec x Hx) as [Hw Hv].
  destruct (uint128_add_spec _ (uint128_of_int 1) Hw (uint128_of_int_wf 1)) as [Hw' ->].
  split; [assumption|]. rewrite Hv, uint128_of_nat_val by lia.
  pose proof (val128_range x Hx). lia.
Qed.

(** ** Facts: bitwise operators *)
Lemma uint128_bitwise_spec x y :
  wf128 x -> wf128 y ->
  (wf128 (uint128_and x y) /\ val128 (uint128_and x y) = Z.land (val128 x) (val128 y)) /\
  (wf128 (uint128_or x y) /\ val128 (uint128_or x y) = Z.lor (val128 x) (val128 y)) /\
  (wf128 (uint128_xor x y) /\ val128 (uint128_xor x y) = Z.lxor (val128 x) (val128 y)).
Proof.
  destruct x as [xu xl], y as [yu yl]. intros [? ?] [? ?]. simpl in *.
  unfold val128, uint128_and, uint128_or, uint128_xor. simpl.
  split; [|split]; (split; [apply wf128_mk; auto with vitex|]); symmetry.
  - apply (halves_bitop 64 ltac:(lia) Z.land andb); auto using Z.land_spec with vitex.
  - apply (halves_bitop 64 ltac:(lia) Z.lor orb); auto using Z.lor_spec with vitex.
  - apply (halves_bitop 64 ltac:(lia) Z.lxor xorb); auto using Z.lxor_spec with vitex.
Qed.

(** ** Facts: shifts *)
Lemma mod_pow2_zero v k n : 0 <= n <= k -> (v * 2 ^ k) mod 2 ^ n = 0.
Proof.
  intros H. rewrite (pow2_split k n) by lia.
  rewrite Z.mul_assoc, (Z.mul_comm v), <- Z.mul_assoc, Z.mul_comm. apply Z.mod_mul.
  pose proof (Z.pow_pos_nonneg 2 n). lia.
Qed.

Lemma div_pow2_zero v k n : 0 <= v < 2 ^ n -> 0 <= n <= k -> v / 2 ^ k = 0.
Proof.
  intros Hv Hk. apply Z.div_small. split; [lia|].
  apply Z.lt_le_trans with (2 ^ n); [lia|]. apply Z.pow_le_mono_r; lia.
Qed.

Lemma uint128_shl_spec x y :
  wf128 x -> wf128 y ->
  wf128 (uint128_shl x y) /\
  val128 (uint128_shl x y) = (val128 x * 2 ^ val128 y) mod 2 ^ 128.
Proof.
  intros Hx Hy. pose proof (val128_range x Hx) as Rx. pose proof (val128_range y Hy) as Ry.
  unfold uint128_shl.
  destruct (z2b (upper128 y) || (128 <=? lower128 y)) eqn:Hbig.
  - split; [apply uint128_of_int_wf|]. rewrite mod_pow2_zero; [reflexivity|].
    unfold val128, wf128, z2b, fits in *. lia.
  - apply orb_false_iff in Hbig as [Hu Hl]. unfold z2b in Hu. bools.
    destruct Hy as [_ Hyl]. assert (Ey : val128 y = lower128 y) by (unfold val128; lia).
    rewrite Ey. clear Ry Ey Hu. destruct x as [xu xl], y as [yu s], Hx as [Hxu Hxl].
    cbn [upper128 lower128] in *. unfold fits in Hyl.
    destruct (Z.eqb_spec s 64) as [->|]; [split; [auto with vitex|]|].
    { unfold val128. cbn [upper128 lower128]. mach. }
    destruct (Z.eqb_spec s 0) as [->|]; [split; [split; assumption|]|].
    { rewrite Z.pow_0_r, Z.mul_1_r. symmetry. now apply Z.mod_small. }
    destruct (Z.ltb_spec s 64).
    + destruct (halves_shl 64 ltac:(lia) xu xl s Hxu Hxl ltac:(lia)) as [Hf Hv].
      rewrite !Z.shiftl_mul_pow2, Z.shiftr_div_pow2 by lia.
      split; [auto with vitex|]. unfold val128. cbn [upper128 lower128].
      rewrite (wrapU_id 64 (_ + _)) by assumption. exact Hv.
    + replace ((s <? 128) && (64 <? s)) with true by lia.
      split; [auto with vitex|]. unfold val128. cbn [upper128 lower128].
      rewrite Z.shiftl_mul_pow2 by lia. rewrite (pow2_split s 64) by lia.
      rewrite Z.add_0_r. unfold wrapU. change (2 ^ 128) with (2 ^ 64 * 2 ^ 64).
      rewrite (Z.mul_comm (2 ^ 64) (2 ^ (s - 64))), Z.mul_assoc, Z.mul_mod_distr_r by lia.
      f_equal. rewrite Z.mul_add_distr_r, <- Z.mul_assoc, (Z.mul_comm (2 ^ 64)), Z.mul_assoc.
      rewrite Z.add_comm, Z.mod_add by lia. reflexivity.
Qed.

Lemma uint128_shr_spec x y :
  wf128 x -> wf128 y ->
  wf128 (uint128_shr x y) /\ val128 (uint128_shr x y) = val128 x / 2 ^ val128 y.
Proof.
  intros Hx Hy. pose proof (val128_range x Hx) as Rx. pose proof (val128_range y Hy) as Ry.
  unfold uint128_shr.
  destruct (z2b (upper128 y) || (128 <=? lower128 y)) eqn:Hbig.
  - split; [apply uint128_of_int_wf|]. rewrite (div_pow2_zero _ _ 128 Rx); [reflexivity|].
    unfold val128, wf128, z2b, fits in *. lia.
  - apply orb_false_iff in Hbig as [Hu Hl]. unfold z2b in Hu. bools.
    destruct Hy as [_ Hyl]. assert (Ey : val128 y = lower128 y) by (unfold val128; lia).
    rewrite Ey. clear Ry Ey Hu. destruct x as [xu xl], y as [yu s], Hx as [Hxu Hxl].
    cbn [upper128 lower128] in *. unfold fits in Hyl.
    destruct (Z.eqb_spec s 64) as [->|]; [split; [auto with vitex|]|].
    { unfold val128. cbn [upper128 lower128]. mach. }
    destruct (Z.eqb_spec s 0) as [->|]; [split; [split; assumption|]|].
    { rewrite Z.pow_0_r, Z.div_1_r. reflexivity. }
    destruct (Z.ltb_spec s 64).
    + destruct (halves_shr 64 ltac:(lia) xu xl s Hxu Hxl ltac:(lia)) as [Hf Hv].
      rewrite !Z.shiftl_mul_pow2, !Z.shiftr_div_pow2 by lia.
      split; [auto with vitex|].
      unfold val128. cbn [upper128 lower128].
      rewrite (wrapU_id 64 (_ + _)) by assumption. exact Hv.
    + replace ((s <? 128) && (64 <? s)) with true by lia.
      split; [apply wf128_mk; auto with vitex|]. unfold val128. cbn [upper128 lower128].
      rewrite Z.shiftr_div_pow2 by lia. rewrite (pow2_split s 64) by lia.
      rewrite <- Z.div_div by lia. rewrite Z.div_add_l by lia.
      rewrite (Z.div_small xl) by exact Hxl. now rewrite Z.mul_0_l, Z.add_0_l, Z.add_0_r.
Qed.

(** ** Facts: multiplication *)
Lemma lo32_val p : lo32 p = p mod 2 ^ 32.
Proof. unfold lo32. change (2 ^ 32 - 1) with (Z.ones 32). now rewrite Z.land_ones by lia. Qed.
Lemma hi32_val p : hi32 p = p / 2 ^ 32.
Proof. unfold hi32. now rewrite Z.shiftr_div_pow2 by lia. Qed.

Lemma limb_product a b : fits 32 a -> fits 32 b -> 0 <= a * b <= (2 ^ 32 - 1) * (2 ^ 32 - 1).
Proof. unfold fits. nia. Qed.

(** Column sums of the schoolbook product, low column first, with the carries the code threads. *)
Lemma mul_columns p03 p02 p13 p01 p12 p23 p00 p11 p22 p33 K :
  let third := p02 mod 2 ^ 32 + p03 / 2 ^ 32 + p13 mod 2 ^ 32 in
  let second := p01 mod 2 ^ 32 + p02 / 2 ^ 32 + (p12 mod 2 ^ 32 + p13 / 2 ^ 32) + p23 mod 2 ^ 32
                + third / 2 ^ 32 in
  let first := p00 mod 2 ^ 32 + p01 / 2 ^ 32 + (p11 mod 2 ^ 32 + p12 / 2 ^ 32) +
               (p22 mod 2 ^ 32 + p23 / 2 ^ 32) + p33 mod 2 ^ 32 + second / 2 ^ 32 in
  (first mod 2 ^ 32 * 2 ^ 32 + second mod 2 ^ 32) * 2 ^ 64 +
  (third mod 2 ^ 32 * 2 ^ 32 + p03 mod 2 ^ 32) =
  (p03 + 2 ^ 32 * (p02 + p13) + 2 ^ 64 * (p01 + p12 + p23) + 2 ^ 96 * (p00 + p11 + p22 + p33)
   + 2 ^ 128 * K) mod 2 ^ 128.
Proof.
  intros third second first.
  apply Z.mod_unique with
    (first / 2 ^ 32 + p00 / 2 ^ 32 + p11 / 2 ^ 32 + p22 / 2 ^ 32 + p33 / 2 ^ 32 + K).
  - left. pose proof (Z.mod_pos_bound first (2 ^ 32)). pose proof (Z.mod_pos_bound second (2 ^ 32)).
    pose proof (Z.mod_pos_bound third (2 ^ 32)). pose proof (Z.mod_pos_bound p03 (2 ^ 32)).
    clearbody third second first. lia.
  - pose proof (Z.div_mod first (2 ^ 32)) as Hf. pose proof (Z.div_mod second (2 ^ 32)) as Hs.
    pose proof (Z.div_mod third (2 ^ 32)) as Ht.
    set (fd := first / 2 ^ 32) in *. set (fm := first mod 2 ^ 32) in *.
    set (sd := second / 2 ^ 32) in *. set (sm := second mod 2 ^ 32) in *.
    set (td := third / 2 ^ 32) in *. set (tm := third mod 2 ^ 32) in *.
    unfold third, second, first in *. clearbody fd fm sd sm td tm. clear third second first.
    lia.
Qed.

Lemma limbs32_val x :
  wf128 x ->
  let '(t0, t1, t2, t3) := limbs32 x in
  fits 32 t0 /\ fits 32 t1 /\ fits 32 t2 /\ fits 32 t3 /\
  val128 x = t0 * 2 ^ 96 + t1 * 2 ^ 64 + t2 * 2 ^ 32 + t3.
Proof.
  destruct x as [xu xl]. intros [? ?]. unfold limbs32, val128. cbn [upper128 lower128] in *.
  change (2 ^ 32 - 1) with (Z.ones 32). rewrite !Z.land_ones, !Z.shiftr_div_pow2 by lia.
  unfold fits in *. repeat split; lia.
Qed.

Lemma lo32_fits p : fits 32 (lo32 p).
Proof. rewrite lo32_val. apply (fits_wrapU 32). lia. Qed.

Lemma uint128_mul_spec x y :
  wf128 x -> wf128 y ->
  wf128 (uint128_mul x y) /\ val128 (uint128_mul x y) = (val128 x * val128 y) mod 2 ^ 128.
Proof.
  intros Hx Hy. unfold uint128_mul. pose proof (limbs32_val x Hx) as Vx.
  pose proof (limbs32_val y Hy) as Vy.
  destruct (limbs32 x) as [[[t0 t1] t2] t3], (limbs32 y) as [[[b0 b1] b2] b3].
  destruct Vx as (T0 & T1 & T2 & T3 & ->), Vy as (B0 & B1 & B2 & B3 & ->). clear Hx Hy.
  assert (NW : forall a b, fits 32 a -> fits 32 b -> u64 (a * b) = a * b).
  { intros a b Ha Hb. pose proof (limb_product a b Ha Hb). apply wrapU_id. unfold fits. lia. }
  rewrite !NW by assumption.
  replace ((t0 * 2 ^ 96 + t1 * 2 ^ 64 + t2 * 2 ^ 32 + t3) *
           (b0 * 2 ^ 96 + b1 * 2 ^ 64 + b2 * 2 ^ 32 + b3)) with
    (t3 * b3 + 2 ^ 32 * (t3 * b2 + t2 * b3) + 2 ^ 64 * (t3 * b1 + t2 * b2 + t1 * b3) +
     2 ^ 96 * (t3 * b0 + t2 * b1 + t1 * b2 + t0 * b3) +
     2 ^ 128 * (2 ^ 64 * (t0 * b0) + 2 ^ 32 * (t0 * b1 + t1 * b0) + (t0 * b2 + t1 * b1 + t2 * b0)))
    by ring.
  pose proof (limb_product t3 b3 T3 B3). pose proof (limb_product t3 b2 T3 B2).
  pose proof (limb_product t3 b1 T3 B1). pose proof (limb_product t3 b0 T3 B0).
  pose proof (limb_product t2 b3 T2 B3). pose proof (limb_product t2 b2 T2 B2).
  pose proof (limb_product t2 b1 T2 B1). pose proof (limb_product t1 b3 T1 B3).
  pose proof (limb_product t1 b2 T1 B2). pose proof (limb_product t0 b3 T0 B3).
  rewrite <- mul_columns. clear NW T0 T1 T2 T3 B0 B1 B2 B3.
  generalize dependent (t3 * b3). intros p03 ?. generalize dependent (t3 * b2). intros p02 ?.
  generalize dependent (t3 * b1). intros p01 ?. generalize dependent (t3 * b0). intros p00 ?.
  generalize dependent (t2 * b3). intros p13 ?. generalize dependent (t2 * b2). intros p12 ?.
  generalize dependent (t2 * b1). intros p11 ?. generalize dependent (t1 * b3). intros p23 ?.
  generalize dependent (t1 * b2). intros p22 ?. generalize dependent (t0 * b3). intros p33 ?.
  set (third := p02 mod 2 ^ 32 + p03 / 2 ^ 32 + p13 mod 2 ^ 32).
  set (second := p01 mod 2 ^ 32 + p02 / 2 ^ 32 + (p12 mod 2 ^ 32 + p13 / 2 ^ 32) + p23 mod 2 ^ 32
                 + third / 2 ^ 32).
  set (first := p00 mod 2 ^ 32 + p01 / 2 ^ 32 + (p11 mod 2 ^ 32 + p12 / 2 ^ 32) +
                (p22 mod 2 ^ 32 + p23 / 2 ^ 32) + p33 mod 2 ^ 32 + second / 2 ^ 32).
  replace (u64 (u64 (u64 (lo32 p02 + hi32 p03) + lo32 p13) + hi32 (lo32 p03))) with third
    by (rewrite !lo32_val, !hi32_val; unfold wrapU, third; lia).
  assert (0 <= third < 2 ^ 34) by (unfold third; lia). clearbody third.
  replace (u64 (u64 (u64 (u64 (lo32 p01 + hi32 p02) + u64 (lo32 p12 + hi32 p13)) + lo32 p23) +
                hi32 third)) with second
    by (rewrite !lo32_val, !hi32_val; unfold wrapU, second; lia).
  assert (0 <= second < 2 ^ 36) by (unfold second; lia). clearbody second.
  replace (u64 (u64 (u64 (u64 (u64 (lo32 p00 + hi32 p01) + u64 (lo32 p11 + hi32 p12)) +
                u64 (lo32 p22 + hi32 p23)) + lo32 p33) + hi32 second)) with first
    by (rewrite !lo32_val, !hi32_val; unfold wrapU, first; lia).
  clearbody first. unfold val128, wf128. cbn [upper128 lower128].
  rewrite !Z.shiftl_mul_pow2, !(wrapU_id 64) by (try lia; rewrite lo32_val; unfold fits; lia).
  rewrite !(lor_halves 32) by (try lia; apply lo32_fits).
  rewrite !lo32_val. unfold fits. repeat split; lia.
Qed.

(** ** Facts: bit and byte length *)
Lemma count_shifts_loop fuel x out :
  0 <= x < 2 ^ Z.of_nat fuel -> 0 <= out -> out + Z.of_nat fuel < 256 ->
  whileM fuel (fun s : Z * Z => z2b (fst s))
    (fun s => Some (Z.shiftr (fst s) 1, u8 (snd s + 1))) (x, out) = Some (0, out + bitlen x).
Proof.
  revert x out. induction fuel as [|fuel IH]; intros x out Hx Ho Hm.
  - rewrite Z.pow_0_r in Hx. replace x with 0 by lia. simpl. unfold bitlen. simpl. do 2 f_equal. lia.
  - simpl whileM. cbn [fst snd]. unfold z2b at 1. destruct (Z.eqb_spec x 0) as [->|]; simpl negb.
    + cbn iota. unfold bitlen. simpl. do 2 f_equal. lia.
    + cbn iota. rewrite Nat2Z.inj_succ, Z.pow_succ_r in Hx by lia.
      simpl mbind. rewrite Z.shiftr_div_pow2 by lia. change (2 ^ 1) with 2.
      rewrite wrapU_id by (unfold fits; lia). rewrite IH by lia.
      rewrite (bitlen_half x) by lia. do 2 f_equal. lia.
Qed.

Lemma count_shifts_spec x out :
  fits 64 x -> 0 <= out <= 64 -> count_shifts x out = Some (out + bitlen x).
Proof.
  intros Hx Ho. unfold count_shifts. rewrite count_shifts_loop; [reflexivity | | lia | lia].
  exact Hx.
Qed.

Lemma bitlen_halves w hi lo : 0 < w -> 0 < hi -> fits w lo -> bitlen (hi * 2 ^ w + lo) = w + bitlen hi.
Proof.
  intros Hw Hh [Hl0 Hl1]. unfold bitlen.
  assert (0 < 2 ^ w) by (apply Z.pow_pos_nonneg; lia).
  destruct (Z.eqb_spec (hi * 2 ^ w + lo) 0); [nia|]. destruct (Z.eqb_spec hi 0); [lia|].
  assert (E : Z.log2 (hi * 2 ^ w + lo) = Z.log2 hi + w); [|lia].
  apply Z.log2_unique; [pose proof (Z.log2_nonneg hi); lia|].
  pose proof (Z.log2_nonneg hi). destruct (Z.log2_spec hi Hh) as [H1 H2].
  rewrite <- Z.add_succ_l, !Z.pow_add_r by lia. nia.
Qed.

Lemma uint128_bits_spec x : wf128 x -> uint128_bits x = Some (bitlen (val128 x)).
Proof.
  destruct x as [xu xl]. intros [Hu Hl]. unfold uint128_bits, val128, z2b.
  cbn [upper128 lower128] in *. destruct (Z.eqb_spec xu 0) as [->|]; cbn [negb].
  - rewrite count_shifts_spec by (assumption || lia). do 2 f_equal. 
  - rewrite count_shifts_spec by (assumption || lia).
    rewrite bitlen_halves by (unfold fits in *; lia). reflexivity.
Qed.

(** ** Facts: division *)
Lemma divide128_round_spec left right x q r :
  wf128 left -> wf128 right -> wf128 q -> wf128 r -> 0 < x <= 128 ->
  val128 left / 2 ^ x = val128 q * val128 right + val128 r -> val128 r < val128 right ->
  let '(q', r') := divide128_round left right x (q, r) in
  wf128 q' /\ wf128 r' /\ val128 r' < val128 right /\
  val128 left / 2 ^ (x - 1) = val128 q' * val128 right + val128 r'.
Proof.
  intros Hl Hr Hq Hrem Hx Hinv Hlt. unfold divide128_round. cbn [fst snd].
  unfold uint128_shl_assign, uint128_sub_assign.
  set (one := uint128_of_int 1). assert (W1 : wf128 one) by apply uint128_of_int_wf.
  assert (V1 : val128 one = 1) by (apply uint128_of_nat_val; lia).
  pose proof (val128_range left Hl) as Rl. pose proof (val128_range right Hr) as Rr.
  pose proof (val128_range q Hq) as Rq. pose proof (val128_range r Hrem) as Rrem.
  destruct (uint128_shl_spec q one Hq W1) as [Wq2 Vq2].
  destruct (uint128_shl_spec r one Hrem W1) as [Wr2 Vr2].
  rewrite V1, Z.pow_1_r in Vq2, Vr2.
  set (D := val128 left / 2 ^ (x - 1)) in *.
  assert (HD2 : val128 left / 2 ^ x = D / 2).
  { unfold D. rewrite Z.div_div by (try apply Z.pow_pos_nonneg; lia).
    f_equal. rewrite <- (Z.pow_1_r 2) at 3. rewrite <- Z.pow_add_r by lia. f_equal. lia. }
  assert (HD : 0 <= D < 2 ^ 128).
  { unfold D. split; [apply Z.div_pos; [lia|apply Z.pow_pos_nonneg; lia]|].
    apply Z.div_lt_upper_bound; [apply Z.pow_pos_nonneg; lia|].
    pose proof (Z.pow_pos_nonneg 2 (x - 1)). nia. }
  rewrite HD2 in Hinv.
  set (sh := uint128_of_int (u32 (x - 1))).
  assert (Vsh : val128 sh = x - 1).
  { unfold sh. rewrite uint128_of_nat_val; unfold wrapU; rewrite Z.mod_small; lia. }
  destruct (uint128_shr_spec left sh Hl (uint128_of_int_wf _)) as [Wb Vb].
  rewrite Vsh in Vb. fold D in Vb.
  set (bit := uint128_shr left sh) in *.
  assert (Hbit : uint128_to_bool (mk_uint128 0 (Z.land (lower128 bit) 1)) = (D mod 2 =? 1)).
  { unfold uint128_to_bool, z2b. cbn [upper128 lower128 orb negb Z.eqb].
    change 1 with (Z.ones 1) at 1. rewrite Z.land_ones by lia. rewrite <- Vb.
    unfold val128. clear. lia. }
  rewrite Hbit. clear Hbit Vsh.
  assert (Hqle : 2 * val128 q + 1 < 2 ^ 128 /\ 2 * val128 r + 1 < 2 ^ 128) by (clear - Hinv HD Rq Rrem Rr Hlt; nia).
  rewrite Z.mod_small in Vq2, Vr2 by lia.
  set (r2 := if D mod 2 =? 1 then uint128_add_assign (uint128_shl r one) one else uint128_shl r one).
  assert (Hr2 : wf128 r2 /\ val128 r2 = 2 * val128 r + D mod 2).
  { unfold r2. destruct (Z.eqb_spec (D mod 2) 1) as [E|E].
    - rewrite uint128_add_assign_eq. destruct (uint128_add_spec _ one Wr2 W1) as [W V].
      split; [assumption|]. rewrite V, V1, Vr2, E, Z.mod_small by lia. lia.
    - split; [assumption|]. rewrite Vr2. lia. }
  destruct Hr2 as [Wr2' Vr2']. clearbody r2 D. rewrite uint128_ge_val by assumption.
  destruct (Z.leb_spec (val128 right) (val128 r2)).
  - rewrite uint128_add_assign_eq. destruct (uint128_add_spec _ one Wq2 W1) as [Wq' Vq'].
    destruct (uint128_sub_spec r2 right Wr2' Hr) as [Wr' Vr'].
    rewrite V1, Vq2, Z.mod_small in Vq' by lia. rewrite Z.mod_small in Vr' by lia.
    split; [exact Wq'|]. split; [exact Wr'|]. split; [lia|]. rewrite Vq', Vr'. clear - Hinv Vr2'. lia.
  - split; [exact Wq2|]. split; [exact Wr2'|]. split; [lia|]. rewrite Vq2. clear - Hinv Vr2'. lia.
Qed.

Lemma divide128_loop_spec left right n q r :
  wf128 left -> wf128 right -> wf128 q -> wf128 r -> (n <= 128)%nat ->
  val128 left / 2 ^ Z.of_nat n = val128 q * val128 right + val128 r -> val128 r < val128 right ->
  let '(q', r') := divide128_loop left right n (q, r) in
  wf128 q' /\ wf128 r' /\ val128 q' = val128 left / val128 right /\
  val128 r' = val128 left mod val128 right.
Proof.
  intros Hl Hr. revert q r. induction n as [|n IH]; intros q r Hq Hrem Hn Hinv Hlt.
  - simpl. change (Z.of_nat 0) with 0 in Hinv. rewrite Z.pow_0_r, Z.div_1_r in Hinv.
    pose proof (val128_range r Hrem). split; [exact Hq|]. split; [exact Hrem|]. split.
    + apply Z.div_unique with (val128 r); lia.
    + apply Z.mod_unique with (val128 q); lia.
  - simpl divide128_loop.
    pose proof (divide128_round_spec left right (Z.of_nat (S n)) q r Hl Hr Hq Hrem ltac:(lia) Hinv Hlt) as H.
    destruct (divide128_round left right (Z.of_nat (S n)) (q, r)) as [q' r'].
    destruct H as (Wq & Wr & Hlt' & Hinv'). apply IH; try assumption; [lia|].
    replace (Z.of_nat n) with (Z.of_nat (S n) - 1) by lia. exact Hinv'.
Qed.

Lemma uint128_divide_spec left right :
  wf128 left -> wf128 right -> val128 right <> 0 ->
  exists q r, uint128_divide left right = Some (q, r) /\ wf128 q /\ wf128 r /\
              val128 q = val128 left / val128 right /\ val128 r = val128 left mod val128 right.
Proof.
  intros Hl Hr Hnz. unfold uint128_divide.
  pose proof (val128_range left Hl) as Rl. pose proof (val128_range right Hr) as Rr.
  set (zero := uint128_of_int 0). set (one := uint128_of_int 1).
  assert (W0 : wf128 zero) by apply uint128_of_int_wf.
  assert (W1 : wf128 one) by apply uint128_of_int_wf.
  assert (V0 : val128 zero = 0) by (apply uint128_of_nat_val; lia).
  assert (V1 : val128 one = 1) by (apply uint128_of_nat_val; lia).
  rewrite !uint128_eq_val, uint128_lt_val, V0, V1 by assumption.
  destruct (Z.eqb_spec (val128 right) 0); [lia|].
  destruct (Z.eqb_spec (val128 right) 1) as [E|].
  { exists left, zero. rewrite V0, E, Z.div_1_r, Z.mod_1_r. auto. }
  destruct (Z.eqb_spec (val128 left) (val128 right)) as [E|].
  { exists one, zero. rewrite V0, V1, E, Z.div_same, Z.mod_same by lia. auto. }
  destruct ((val128 left =? 0) || (val128 left <? val128 right)) eqn:Hc.
  { exists zero, left. rewrite V0, Z.div_small, Z.mod_small by lia. auto. }
  rewrite uint128_bits_spec by assumption. simpl mbind.
  pose proof (bitlen_bound 128 (val128 left) ltac:(lia) Rl) as Hb.
  pose proof (divide128_loop_spec left right (Z.to_nat (bitlen (val128 left))) zero zero Hl Hr W0 W0
    ltac:(lia)) as H.
  rewrite V0, Z2Nat.id, Z.mul_0_l in H by lia.
  rewrite Z.div_small in H by (split; [lia | apply bitlen_spec; lia]).
  specialize (H eq_refl ltac:(lia)).
  destruct (divide128_loop _ _ _ _) as [q r]. exists q, r. tauto.
Qed.

(** ** The interface *)

#[export] Instance uint128_fixed : FixedUInt uint128 := {
  fu_width := 128; fu_wf := wf128; fu_val := val128; fu_of_int := uint128_of_int;
  fu_to_bool := uint128_to_bool; fu_to_uint8 := uint128_to_uint8;
  fu_add_assign := uint128_add_assign; fu_mul_assign := uint128_mul_assign;
  fu_divide := uint128_divide }.

Lemma uint128_to_uint8_val x : wf128 x -> uint128_to_uint8 x = val128 x mod 256.
Proof. destruct x as [u l]. unfold uint128_to_uint8, val128, wrapU. cbn. intros _. lia. Qed.

#[export] Instance uint128_laws : FixedUIntLaws uint128.
Proof.
  split; cbn [fu_width fu_wf fu_val fu_of_int fu_to_bool fu_to_uint8 fu_add_assign fu_mul_assign
              fu_divide uint128_fixed].
  - lia.
  - exact val128_range.
  - exact val128_inj.
  - exact uint128_of_int_wf.
  - exact uint128_of_nat_val.
  - exact uint128_to_bool_val.
  - exact uint128_to_uint8_val.
  - intros x y Hx Hy. rewrite uint128_add_assign_eq. now apply uint128_add_spec.
  - exact uint128_mul_spec.
  - exact uint128_divide_spec.
Qed.

(** ** Facts: bytes *)
Lemma uint128_bytes_spec x :
  wf128 x ->
  uint128_bytes x = Some (if val128 x =? 0 then 0 else Z.min 16 (bitlen (val128 x) / 8 + 1)).
Proof.
  intros Hx. unfold uint128_bytes. rewrite uint128_lnot_val by assumption.
  destruct (Z.eqb_spec (val128 x) 0); [reflexivity|]. rewrite uint128_bits_spec by assumption.
  cbn [mbind option_bind]. f_equal.
  pose proof (bitlen_bound 128 (val128 x) ltac:(lia) (val128_range x Hx)).
  rewrite Z.rem_mod_nonneg, Z.quot_div_nonneg by lia. unfold wrapU. lia.
Qed.

Lemma be_bytes_8 v : 0 <= v < 2 ^ 64 -> le_digits 8 256 (swap_endianness64 v) = rev (le_digits 8 256 v).
Proof.
  intros Hv. unfold swap_endianness64.
  rewrite <- (length_le_digits 8 256 v) at 1. rewrite <- length_rev.
  apply le_digits_le_val; [lia|]. apply digits_rev, digits_le_digits. lia.
Qed.

Lemma swap_involutive v : fits 64 v -> swap_endianness64 (swap_endianness64 v) = v.
Proof.
  intros Hv. unfold swap_endianness64 at 1. rewrite be_bytes_8, rev_involutive by exact Hv.
  rewrite le_val_le_digits by lia. apply Z.mod_small. exact Hv.
Qed.

Lemma load_store_8 v ds : fits 64 v -> le_val 256 (firstn 8 (le_digits 8 256 v ++ ds)) = v.
Proof.
  intros Hv. rewrite firstn_app, length_le_digits. simpl (8 - 8)%nat. rewrite firstn_O, app_nil_r.
  rewrite firstn_all2 by (rewrite length_le_digits; lia).
  rewrite le_val_le_digits by lia. apply Z.mod_small. exact Hv.
Qed.

Lemma swap_fits v : fits 64 (swap_endianness64 v).
Proof.
  unfold swap_endianness64, fits. change (2 ^ 64) with (256 ^ Z.of_nat 8).
  rewrite <- (length_le_digits 8 256 v) at 3. rewrite <- length_rev. apply le_val_bound; [lia|].
  apply digits_rev, digits_le_digits. lia.
Qed.

#[export] Hint Resolve swap_fits : vitex.

Lemma skipn_le_digits n m b v ds : skipn (n + m) (le_digits n b v ++ ds) = skipn m ds.
Proof.
  rewrite skipn_app, length_le_digits, skipn_all2 by (rewrite length_le_digits; lia).
  simpl. f_equal. lia.
Qed.

Lemma uint128_decode_encode x : wf128 x -> uint128_decode (uint128_encode x) = x.
Proof.
  destruct x as [u l]. intros [Hu Hl]. cbn [upper128 lower128] in *.
  unfold uint128_decode, uint128_encode, load64, to_endianness_big. cbn [store64 flat_map upper128 lower128].
  change (8 * 1)%nat with (8 + 0)%nat. rewrite skipn_le_digits. change (8 * 0)%nat with O.
  rewrite !skipn_O, !load_store_8, !swap_involutive by auto with vitex. reflexivity.
Qed.

Lemma uint128_encode_digits x : wf128 x -> uint128_encode x = rev (le_digits 16 256 (val128 x)).
Proof.
  destruct x as [u l]. intros [Hu Hl]. cbn [upper128 lower128] in *.
  unfold uint128_encode, to_endianness_big, store64, val128. cbn [flat_map upper128 lower128].
  rewrite app_nil_r, !be_bytes_8 by assumption. rewrite <- rev_app_distr. f_equal.
  apply (le_val_inj 256); try lia.
  - apply digits_app. split; apply digits_le_digits; lia.
  - apply digits_le_digits; lia.
  - now rewrite length_app, !length_le_digits.
  - rewrite le_val_app, !le_val_le_digits, length_le_digits by lia.
    change (256 ^ Z.of_nat 8) with (2 ^ 64). change (256 ^ Z.of_nat 16) with (2 ^ 64 * 2 ^ 64).
    unfold fits in *. rewrite !Z.mod_small; nia.
Qed.

Lemma uint128_encode_val x :
  wf128 x -> bytes (uint128_encode x) /\ length (uint128_encode x) = 16%nat /\
             be_val 256 (uint128_encode x) = val128 x.
Proof.
  intros Hx. rewrite uint128_encode_digits by assumption. split; [|split].
  - apply digits_rev, digits_le_digits. lia.
  - now rewrite length_rev, length_le_digits.
  - rewrite be_val_rev, rev_involutive, le_val_le_digits by lia.
    change (256 ^ Z.of_nat 16) with (2 ^ 128). apply Z.mod_small, val128_range, Hx.
Qed.

(** Dropping the leading zero bytes of a big-endian number keeps its value. *)
Lemma be_val_skipn b n ds :
  1 < b -> digits b ds -> be_val b ds < b ^ Z.of_nat (length ds - n) ->
  be_val b (skipn n ds) = be_val b ds.
Proof.
  intros Hb Hd Hlt. rewrite <- (firstn_skipn n ds) at 2. rewrite be_val_app, length_skipn.
  rewrite <- (firstn_skipn n ds) in Hd, Hlt. apply digits_app in Hd as [H1 H2].
  rewrite be_val_app, !length_app, length_skipn, length_firstn in Hlt.
  pose proof (be_val_bound b _ ltac:(lia) H1). pose proof (be_val_bound b _ ltac:(lia) H2) as B2.
  rewrite length_skipn in B2.
  replace (Nat.min n (length ds) + (length ds - n) - n)%nat with (length ds - n)%nat in Hlt by lia.
  assert (be_val b (firstn n ds) = 0); [|lia]. nia.
Qed.

Lemma uint128_compact_spec x :
  wf128 x -> val128 x <> 0 ->
  exists data, uint128_encode_compact x = Some data /\ bytes data /\
    Z.of_nat (length data) = Z.min 16 (bitlen (val128 x) / 8 + 1) /\ be_val 256 data = val128 x.
Proof.
  intros Hx Hnz. unfold uint128_encode_compact. rewrite uint128_bytes_spec by assumption.
  destruct (Z.eqb_spec (val128 x) 0); [lia|]. cbn [mbind option_bind].
  destruct (uint128_encode_val x Hx) as (Hb & Hl & Hv).
  pose proof (bitlen_bound 128 (val128 x) ltac:(lia) (val128_range x Hx)) as Hbl.
  set (size := Z.min 16 (bitlen (val128 x) / 8 + 1)) in *.
  assert (Hs : 0 < size <= 16) by (subst size; lia).
  rewrite firstn_all2 by (rewrite length_skipn, Hl; lia). eexists. split; [reflexivity|].
  split; [now apply digits_skipn|]. rewrite length_skipn, Hl. split; [lia|].
  rewrite be_val_skipn, Hv; [reflexivity|lia|assumption|]. rewrite Hl, Hv.
  replace (16 - (16 - Z.to_nat size))%nat with (Z.to_nat size) by lia. rewrite Z2Nat.id by lia.
  change 256 with (2 ^ 8). rewrite <- Z.pow_mul_r by lia.
  destruct (Z.min_spec 16 (bitlen (val128 x) / 8 + 1)) as [[_ E]|[_ E]]; fold size in E; rewrite E.
  - apply val128_range, Hx.
  - pose proof (bitlen_spec (val128 x)). pose proof (val128_range x Hx).
    eapply Z.lt_le_trans; [apply bitlen_spec; lia|]. apply Z.pow_le_mono_r; lia.
Qed.

Lemma uint128_decode_val data :
  bytes data -> length data = 16%nat ->
  wf128 (uint128_decode data) /\ val128 (uint128_decode data) = be_val 256 data.
Proof.
  intros Hb Hl. unfold uint128_decode, to_endianness_big. split; [split; apply swap_fits|].
  unfold val128. cbn [upper128 lower128].
  assert (E : forall i, (8 * i + 8 <= 16)%nat ->
              swap_endianness64 (load64 data i) = be_val 256 (firstn 8 (skipn (8 * i) data))).
  { intros i Hi. unfold swap_endianness64, load64.
    assert (Hlen : length (firstn 8 (skipn (8 * i) data)) = 8%nat)
      by (rewrite length_firstn, length_skipn; lia).
    rewrite <- Hlen at 1. rewrite le_digits_le_val; [now rewrite be_val_rev|lia|].
    now apply digits_firstn, digits_skipn. }
  rewrite !E by lia. change (8 * 0)%nat with 0%nat. rewrite skipn_O. change (8 * 1)%nat with 8%nat.
  rewrite (firstn_all2 (skipn 8 data)) by (rewrite length_skipn; lia).
  rewrite <- (firstn_skipn 8 data) at 3. rewrite be_val_app, length_skipn, Hl. reflexivity.
Qed.

(** ** Facts: text *)

Definition digit16 (d : Z) : Z := at_table alphabet16 d.

Lemma digit16_facts d :
  0 <= d < 16 ->
  isxdigit (digit16 d) = true /\ xdigit_val (digit16 d) = d /\ isspace (digit16 d) = false /\
  tolower (digit16 d) <> 120 /\ digit16 d <> 45 /\ digit16 d <> 43 /\
  (digit16 d =? 48) = (d =? 0) /\ (d < 10 -> digit16 d = 48 + d).
Proof.
  intros Hd.
  assert (H : (isxdigit (digit16 d) && (xdigit_val (digit16 d) =? d) && negb (isspace (digit16 d))
               && negb (tolower (digit16 d) =? 120) && negb (digit16 d =? 45)
               && negb (digit16 d =? 43) && Bool.eqb (digit16 d =? 48) (d =? 0)
               && (negb (d <? 10) || (digit16 d =? 48 + d))) = true).
  { by_range d 16. }
  repeat (apply andb_true_iff in H as [H ?]).
  split; [assumption|]. split; [lia|]. split; [now apply negb_true_iff|].
  repeat (split; [lia|]). lia.
Qed.

Lemma read_xdigits_map ds acc :
  digits 16 ds -> read_xdigits (map digit16 ds) acc = acc * 16 ^ Z.of_nat (length ds) + be_val 16 ds.
Proof.
  revert acc. induction ds as [|d ds IH]; intros acc H.
  - cbn [map read_xdigits length be_val fold_left]. unfold be_val. simpl. rewrite Z.pow_0_r. lia.
  - apply digits_cons in H as [Hd H]. destruct (digit16_facts d Hd) as (Hx & Hv & _).
    cbn [map read_xdigits length]. rewrite Hx, Hv, IH, be_val_cons by assumption.
    rewrite Nat2Z.inj_succ, Z.pow_succ_r by lia. ring.
Qed.

Lemma skip_spaces_digits ds : digits 16 ds -> skip_spaces (map digit16 ds) = map digit16 ds.
Proof.
  destruct ds as [|d ds]; intros H; [reflexivity|]. apply digits_cons in H as [Hd _].
  cbn [map skip_spaces]. now destruct (digit16_facts d Hd) as (_ & _ & -> & _).
Qed.

Lemma strip_0x_digits ds : digits 16 ds -> strip_0x (map digit16 ds) = map digit16 ds.
Proof.
  intros H. destruct ds as [|a [|b [|c ds]]]; try reflexivity. cbn [map strip_0x].
  apply digits_cons in H as [_ H]. apply digits_cons in H as [Hb _].
  destruct (digit16_facts b Hb) as (_ & _ & _ & Hx & _).
  destruct (Z.eqb_spec (tolower (digit16 b)) 120); [contradiction|]. now rewrite andb_false_r.
Qed.

Lemma stream_hex_digits ds :
  digits 16 ds -> (length ds <= 16)%nat -> stream_hex (map digit16 ds) 0 = be_val 16 ds.
Proof.
  intros H Hl. unfold stream_hex. rewrite skip_spaces_digits by assumption.
  destruct ds as [|d ds]; [reflexivity|]. cbn [map].
  pose proof (proj1 (digits_cons _ _ _) H) as [Hd _].
  destruct (digit16_facts d Hd) as (_ & _ & _ & _ & H1 & H2 & _).
  destruct (Z.eqb_spec (digit16 d) 45); [contradiction|].
  destruct (Z.eqb_spec (digit16 d) 43); [contradiction|].
  change (digit16 d :: map digit16 ds) with (map digit16 (d :: ds)).
  rewrite strip_0x_digits, read_xdigits_map by assumption. lia.
Qed.

(** Nibbles of a byte string. *)
Definition nibbles (value : list Z) : list Z := flat_map (fun c => [c / 16; c mod 16]) value.

Lemma nibbles_spec value :
  bytes value -> digits 16 (nibbles value) /\ length (nibbles value) = (2 * length value)%nat /\
    be_val 16 (nibbles value) = be_val 256 value /\
    hex_encode value false = map digit16 (nibbles value).
Proof.
  induction value as [|c value IH]; intros H; [repeat split; constructor|].
  apply digits_cons in H as [Hc H]. destruct (IH H) as (Hd & Hl & Hv & He).
  unfold nibbles in *. cbn [flat_map length app]. repeat split.
  - apply digits_cons. split; [lia|]. apply digits_cons. split; [lia|assumption].
  - rewrite Hl. lia.
  - rewrite !be_val_cons, Hv. cbn [length]. rewrite Hl.
    replace (Z.of_nat (S (2 * length value))) with (1 + 2 * Z.of_nat (length value)) by lia.
    replace (Z.of_nat (2 * length value)) with (2 * Z.of_nat (length value)) by lia.
    rewrite Z.pow_add_r, Z.pow_mul_r by lia. change (16 ^ 2) with 256. change (16 ^ 1) with 16.
    pose proof (Z.div_mod c 16 ltac:(lia)). nia.
  - cbn [map]. unfold hex_encode in *. cbn [flat_map app]. rewrite He. f_equal; [|f_equal].
    + now rewrite Z.shiftr_div_pow2 by lia.
    + change 15 with (Z.ones 4). now rewrite Z.land_ones by lia.
Qed.

Fixpoint strip_zeros (ds : list Z) : list Z :=
  match ds with
  | [] => []
  | d :: rest => if d =? 0 then strip_zeros rest else ds
  end.

Lemma erase_zeros_digits ds :
  digits 16 ds -> be_val 16 ds <> 0 -> erase_zeros (map digit16 ds) = map digit16 (strip_zeros ds).
Proof.
  induction ds as [|d ds IH]; intros H Hv; [reflexivity|].
  apply digits_cons in H as [Hd H]. destruct (digit16_facts d Hd) as (_ & _ & _ & _ & _ & _ & E0 & _).
  cbn [map erase_zeros strip_zeros]. rewrite E0. destruct (Z.eqb_spec d 0) as [->|].
  - rewrite be_val_cons, Z.mul_0_l, Z.add_0_l in Hv.
    destruct ds as [|d' ds]; [now destruct Hv|]. now apply IH.
  - destruct ds; reflexivity.
Qed.

Lemma strip_zeros_spec b ds :
  digits b ds -> digits b (strip_zeros ds) /\ be_val b (strip_zeros ds) = be_val b ds /\
  no_leading_zero (strip_zeros ds).
Proof.
  induction ds as [|d ds IH]; intros H; [repeat split; constructor|]. cbn [strip_zeros].
  pose proof (proj1 (digits_cons _ _ _) H) as [_ H']. destruct (Z.eqb_spec d 0) as [->|].
  - rewrite be_val_cons, Z.mul_0_l, Z.add_0_l. auto.
  - auto.
Qed.

(** A numeral without leading zeros is as long as its value is large. *)
Lemma numeral_length b n ds :
  1 < b -> digits b ds -> no_leading_zero ds -> be_val b ds < b ^ Z.of_nat n -> (length ds <= n)%nat.
Proof.
  intros Hb Hd Hz Hv. destruct ds as [|d ds]; [simpl; lia|]. cbn [no_leading_zero length] in *.
  apply digits_cons in Hd as [Hd Hds]. rewrite be_val_cons in Hv.
  pose proof (be_val_bound b ds ltac:(lia) Hds).
  destruct (Nat.le_gt_cases (S (length ds)) n) as [|Hgt]; [assumption|].
  pose proof (Z.pow_le_mono_r b (Z.of_nat n) (Z.of_nat (length ds)) ltac:(lia) ltac:(lia)). nia.
Qed.

(** [to_string] without padding writes the numeral of the value. *)
Lemma uint128_to_string_spec x base :
  wf128 x -> 2 <= base <= 16 ->
  exists ds, uint128_to_string x base 0 = Some (map digit16 ds) /\ digits base ds /\
             be_val base ds = val128 x /\ (val128 x = 0 /\ ds = [0] \/ ds <> [] /\ no_leading_zero ds).
Proof.
  intros Hx Hb. unfold uint128_to_string. rewrite uint128_lnot_val by assumption.
  destruct (Z.eqb_spec (val128 x) 0) as [E0|Hnz].
  { exists [0]. rewrite E0. split; [reflexivity|]. split; [apply digits_cons; split; [lia|constructor]|].
    auto. }
  destruct (Z.eqb_spec base 16) as [->|].
  - rewrite uint128_bytes_spec by assumption. destruct (Z.eqb_spec (val128 x) 0); [contradiction|].
    cbn [mbind option_bind].
    change (store64 [to_endianness_big (upper128 x); to_endianness_big (lower128 x)]) with (uint128_encode x).
    destruct (uint128_compact_spec x Hx Hnz) as (data & E & Hbd & Hl & Hv).
    unfold uint128_encode_compact in E. rewrite uint128_bytes_spec in E by assumption.
    destruct (Z.eqb_spec (val128 x) 0); [contradiction|]. cbn [mbind option_bind] in E.
    set (size := Z.min 16 (bitlen (val128 x) / 8 + 1)) in *.
    destruct (uint128_encode_val x Hx) as (_ & Hel & _).
    rewrite firstn_all2 in E by (rewrite length_skipn, Hel; lia). injection E as E. rewrite E.
    destruct (nibbles_spec data Hbd) as (Hnd & Hnl & Hnv & ->).
    unfold pad_zeros. rewrite length_map, Hnl.
    replace (Z.to_nat (Z.max 0 (size * 2)) - 2 * length data)%nat with O by lia.
    cbn [repeat]. rewrite app_nil_r, erase_zeros_digits by (assumption || lia).
    destruct (strip_zeros_spec 16 _ Hnd) as (Hsd & Hsv & Hsz). rewrite Hnv, Hv in Hsv.
    exists (strip_zeros (nibbles data)). repeat split; try assumption. right. split; [|assumption].
    intros E'. rewrite E' in Hsv. now destruct Hnz.
  - destruct (fu_digits_spec (HF := uint128_fixed) alphabet16 base 129 x) as (y & ds & E & Hd & Hv & Hz & Hne);
      [cbn; lia.. | exact Hx | exact Hnz | cbn; lia |].
    change (do_whileM 129 (digit_round128 base)
              (fun s : uint128 * list Z => uint128_to_bool (fst s)) (x, []) =
            Some (y, map digit16 ds)) in E.
    rewrite E. cbn [mbind option_bind snd]. unfold pad_zeros. change (Z.to_nat 0) with O.
    cbn [Nat.sub repeat]. rewrite app_nil_r, <- map_rev. exists (rev ds).
    split; [reflexivity|]. split; [auto with vitex|]. rewrite be_val_rev, rev_involutive.
    split; [exact Hv|]. right. split; [|exact Hz]. intros E'.
    apply (f_equal (@length Z)) in E'. rewrite length_rev in E'. now destruct ds.
Qed.

Lemma text_loop128_digits base ds self :
  base = 8 \/ base = 10 -> digits base ds ->
  text_loop128 base (47 + base) (map digit16 ds) self =
  fold_left (fu_text_round base) (map (fun d => 48 + d) ds) self.
Proof.
  intros Hb. revert self. induction ds as [|d ds IH]; intros self H; [reflexivity|].
  apply digits_cons in H as [Hd H]. destruct (digit16_facts d ltac:(lia)) as (_ & _ & _ & _ & _ & _ & _ & E).
  cbn [map text_loop128 fold_left]. rewrite E by lia.
  replace (negb (48 + d =? 0) && (48 <=? 48 + d) && (48 + d <=? 47 + base)) with true by lia.
  apply IH, H.
Qed.

Lemma text_loop128_val base ds :
  base = 8 \/ base = 10 -> digits base ds -> be_val base ds < 2 ^ 128 ->
  let r := text_loop128 base (47 + base) (map digit16 ds) (mk_uint128 0 0) in
  wf128 r /\ val128 r = be_val base ds.
Proof.
  intros Hb Hd Hv. cbv zeta. rewrite text_loop128_digits by assumption.
  assert (W0 : wf128 (mk_uint128 0 0)) by (apply wf128_mk; apply fits_0; lia).
  destruct (fu_text_spec (HF := uint128_fixed) base ds (mk_uint128 0 0) ltac:(lia) W0 Hd) as [W V]. split; [exact W|].
  etransitivity; [exact V|]. cbn [fu_val uint128_fixed fu_width].
  change (val128 (mk_uint128 0 0)) with 0. rewrite Z.mul_0_l, Z.add_0_l.
  apply Z.mod_small. split; [|assumption]. apply be_val_bound; [lia|assumption].
Qed.

Lemma bits_loop64_digits len ds half rest :
  digits 2 ds -> len = length ds -> half * 2 ^ Z.of_nat len + be_val 2 ds < 2 ^ 64 -> 0 <= half ->
  bits_loop64 len (map digit16 ds ++ rest) half = (half * 2 ^ Z.of_nat len + be_val 2 ds, rest).
Proof.
  intros H ->. revert half. induction ds as [|d ds IH]; intros half Hv Hh.
  - cbn. unfold be_val. simpl. rewrite Z.pow_0_r. f_equal. lia.
  - apply digits_cons in H as [Hd H].
    destruct (digit16_facts d ltac:(lia)) as (_ & _ & _ & _ & _ & _ & _ & E).
    cbn [length map app bits_loop64]. rewrite E by lia.
    replace (negb (48 + d =? 0) && (48 <=? 48 + d) && (48 + d <=? 49)) with true by lia.
    rewrite be_val_cons in *. cbn [length] in Hv. rewrite Nat2Z.inj_succ, Z.pow_succ_r in * by lia.
    pose proof (be_val_bound 2 ds ltac:(lia) H).
    assert (P : 0 < 2 ^ Z.of_nat (length ds)) by (apply Z.pow_pos_nonneg; lia).
    assert (Hs : fits 64 (half * 2 + d)) by (unfold fits; nia).
    assert (E2 : Z.lor (u64 (Z.shiftl half 1)) (u64 (48 + d - 48)) = half * 2 + d).
    { rewrite Z.shiftl_mul_pow2, !wrapU_id by (unfold fits in *; lia).
      replace (48 + d - 48) with d by lia. change 2 with (2 ^ 1) at 1.
      rewrite lor_halves by (unfold fits; lia). lia. }
    rewrite E2, IH by (assumption || nia). f_equal. ring.
Qed.

Lemma be_val_split b n ds : 0 < b -> digits b ds ->
  exists hi lo, ds = hi ++ lo /\ digits b hi /\ digits b lo /\
    length hi = (length ds - n)%nat /\ length lo = Nat.min n (length ds) /\
    be_val b ds = be_val b hi * b ^ Z.of_nat (length lo) + be_val b lo.
Proof.
  intros Hb Hd. exists (firstn (length ds - n) ds), (skipn (length ds - n) ds).
  rewrite firstn_skipn, length_firstn, length_skipn.
  split; [reflexivity|]. split; [now apply digits_firstn|]. split; [now apply digits_skipn|].
  split; [lia|]. split; [lia|]. rewrite <- (firstn_skipn (length ds - n) ds) at 1.
  rewrite be_val_app, length_skipn. reflexivity.
Qed.

(** The text constructor on an object whose storage is zero reads such a numeral back. *)
Section OfText.
Context (ds : list Z) (Hne : ds <> []) (Hz : no_leading_zero ds).

Lemma of_text_hex :
  digits 16 ds -> be_val 16 ds < 2 ^ 128 ->
  let x := uint128_of_text (mk_uint128 0 0) (map digit16 ds) 16 in
  wf128 x /\ val128 x = be_val 16 ds.
Proof using Hne Hz.
  intros Hd Hv. cbv zeta.
  pose proof (numeral_length 16 32 ds ltac:(lia) Hd Hz Hv) as Hlen.
  destruct (be_val_split 16 16 ds ltac:(lia) Hd) as (hi & lo & E & Hhi & Hlo & Lhi & Llo & V).
  pose proof (be_val_bound 16 hi ltac:(lia) Hhi) as Bhi.
  pose proof (be_val_bound 16 lo ltac:(lia) Hlo) as Blo.
  assert (Phi : 16 ^ Z.of_nat (length hi) <= 2 ^ 64).
  { change (2 ^ 64) with (16 ^ 16). apply Z.pow_le_mono_r; lia. }
  assert (Plo : 16 ^ Z.of_nat (length lo) <= 2 ^ 64).
  { change (2 ^ 64) with (16 ^ 16). apply Z.pow_le_mono_r; lia. }
  unfold uint128_of_text. destruct (map digit16 ds) eqn:E'; [now destruct ds|]. rewrite <- E'. clear E'.
  rewrite skip_spaces_digits by assumption. rewrite length_map. cbn [Z.eqb Pos.eqb].
  replace (Nat.ltb 32 (length ds)) with false by (symmetry; apply Nat.ltb_ge; lia).
  rewrite skipn_O. cbn [Nat.add upper128 lower128].
  replace (if Nat.leb 16 (Nat.min (length ds) 32) then (Nat.min (length ds) 32 - 16)%nat else O)
    with (length hi) by (destruct (Nat.leb_spec 16 (Nat.min (length ds) 32)); lia).
  replace (if Nat.leb 16 (Nat.min (length ds) 32) then 16%nat else Nat.min (length ds) 32)
    with (length lo) by (destruct (Nat.leb_spec 16 (Nat.min (length ds) 32)); lia).
  rewrite E, map_app.
  rewrite firstn_app, length_map, Nat.sub_diag, firstn_O, app_nil_r.
  rewrite firstn_all2 by (rewrite length_map; lia).
  rewrite skipn_app, length_map, Nat.sub_diag, skipn_O, skipn_all2, app_nil_l by (rewrite length_map; lia).
  rewrite firstn_all2 by (rewrite length_map; lia).
  rewrite !stream_hex_digits by (assumption || lia).
  rewrite <- E, V. unfold val128. cbn [upper128 lower128].
  split; [apply wf128_mk; unfold fits; lia|]. f_equal.
  destruct hi as [|h hi]; [unfold be_val; cbn [fold_left]; rewrite !Z.mul_0_l; reflexivity|].
  replace (length lo) with 16%nat by (cbn [length] in *; lia). reflexivity.
Qed.

Lemma of_text_bin :
  digits 2 ds -> be_val 2 ds < 2 ^ 128 ->
  let x := uint128_of_text (mk_uint128 0 0) (map digit16 ds) 2 in
  wf128 x /\ val128 x = be_val 2 ds.
Proof using Hne Hz.
  intros Hd Hv. cbv zeta.
  assert (Hd16 : digits 16 ds) by (eapply Forall_impl; [|exact Hd]; cbn; lia).
  pose proof (numeral_length 2 128 ds ltac:(lia) Hd Hz Hv) as Hlen.
  destruct (be_val_split 2 64 ds ltac:(lia) Hd) as (hi & lo & E & Hhi & Hlo & Lhi & Llo & V).
  pose proof (be_val_bound 2 hi ltac:(lia) Hhi) as Bhi.
  pose proof (be_val_bound 2 lo ltac:(lia) Hlo) as Blo.
  assert (Phi : 2 ^ Z.of_nat (length hi) <= 2 ^ 64) by (apply Z.pow_le_mono_r; lia).
  assert (Plo : 2 ^ Z.of_nat (length lo) <= 2 ^ 64) by (apply Z.pow_le_mono_r; lia).
  unfold uint128_of_text. destruct (map digit16 ds) eqn:E'; [now destruct ds|]. rewrite <- E'. clear E'.
  rewrite skip_spaces_digits by assumption. rewrite length_map. cbn [Z.eqb Pos.eqb].
  replace (Nat.ltb 128 (length ds)) with false by (symmetry; apply Nat.ltb_ge; lia).
  rewrite skipn_O. cbn [upper128 lower128].
  replace (if Nat.leb 64 (Nat.min (length ds) 128) then (Nat.min (length ds) 128 - 64)%nat else O)
    with (length hi) by (destruct (Nat.leb_spec 64 (Nat.min (length ds) 128)); lia).
  replace (if Nat.leb 64 (Nat.min (length ds) 128) then 64%nat else Nat.min (length ds) 128)
    with (length lo) by (destruct (Nat.leb_spec 64 (Nat.min (length ds) 128)); lia).
  replace (map digit16 ds) with (map digit16 hi ++ map digit16 lo) by (rewrite E; symmetry; apply map_app).
  rewrite bits_loop64_digits by (assumption || reflexivity || lia).
  rewrite <- (app_nil_r (map digit16 lo)), bits_loop64_digits by (assumption || reflexivity || lia).
  rewrite !Z.mul_0_l, !Z.add_0_l, V. unfold val128. cbn [upper128 lower128].
  split; [apply wf128_mk; unfold fits; lia|]. f_equal.
  destruct hi as [|h hi]; [unfold be_val; cbn [fold_left]; rewrite !Z.mul_0_l; reflexivity|].
  replace (length lo) with 64%nat by (cbn [length] in *; lia). reflexivity.
Qed.

Lemma of_text_dec_oct base :
  base = 8 \/ base = 10 -> digits base ds -> be_val base ds < 2 ^ 128 ->
  let x := uint128_of_text (mk_uint128 0 0) (map digit16 ds) base in
  wf128 x /\ val128 x = be_val base ds.
Proof using Hne Hz.
  intros Hb Hd Hv. cbv zeta.
  assert (Hd16 : digits 16 ds) by (eapply Forall_impl; [|exact Hd]; cbn; lia).
  unfold uint128_of_text. destruct (map digit16 ds) eqn:E'; [now destruct ds|]. rewrite <- E'. clear E'.
  rewrite skip_spaces_digits by assumption. rewrite length_map.
  destruct Hb as [-> | ->]; cbn [Z.eqb Pos.eqb].
  - pose proof (numeral_length 8 43 ds ltac:(lia) Hd Hz
      ltac:(eapply Z.lt_trans; [exact Hv|reflexivity])) as Hlen.
    replace (Nat.ltb 43 (length ds)) with false by (symmetry; apply Nat.ltb_ge; lia).
    rewrite skipn_O, firstn_all2 by (rewrite length_map; lia). now apply (text_loop128_val 8); auto.
  - pose proof (numeral_length 10 39 ds ltac:(lia) Hd Hz
      ltac:(eapply Z.lt_trans; [exact Hv|reflexivity])) as Hlen.
    replace (Nat.ltb 39 (length ds)) with false by (symmetry; apply Nat.ltb_ge; lia).
    rewrite skipn_O, firstn_all2 by (rewrite length_map; lia). now apply (text_loop128_val 10); auto.
Qed.

Lemma uint128_of_text_spec base :
  base = 2 \/ base = 8 \/ base = 10 \/ base = 16 -> digits base ds -> be_val base ds < 2 ^ 128 ->
  let x := uint128_of_text (mk_uint128 0 0) (map digit16 ds) base in
  wf128 x /\ val128 x = be_val base ds.
Proof using Hne Hz.
  intros [->|[->|[->| ->]]].
  - exact of_text_bin.
  - apply of_text_dec_oct. auto.
  - apply of_text_dec_oct. auto.
  - exact of_text_hex.
Qed.

End OfText.

(** ** Properties *)

(** The arithmetic operators refine arithmetic modulo 2^128: on well-formed operands [+], [-],
    [*], unary [-] and [~] return well-formed values that stand for the sum, difference, product,
    negation and complement reduced modulo 2^128, the compound assignments compute the same values
    as the operators, and increment and decrement return the old value and leave its neighbour. *)
Theorem uint128_ring (x y : uint128) :
  wf128 x -> wf128 y ->
  (wf128 (uint128_add x y) /\ val128 (uint128_add x y) = (val128 x + val128 y) mod 2 ^ 128) /\
  (wf128 (uint128_sub x y) /\ val128 (uint128_sub x y) = (val128 x - val128 y) mod 2 ^ 128) /\
  (wf128 (uint128_mul x y) /\ val128 (uint128_mul x y) = (val128 x * val128 y) mod 2 ^ 128) /\
  (wf128 (uint128_neg x) /\ val128 (uint128_neg x) = (- val128 x) mod 2 ^ 128) /\
  (wf128 (uint128_not x) /\ val128 (uint128_not x) = 2 ^ 128 - 1 - val128 x) /\
  uint128_add_assign x y = uint128_add x y /\ uint128_sub_assign x y = uint128_sub x y /\
  uint128_mul_assign x y = uint128_mul x y /\
  (fst (uint128_post_inc x) = x /\
   val128 (snd (uint128_post_inc x)) = (val128 x + 1) mod 2 ^ 128) /\
  (fst (uint128_post_dec x) = x /\
   val128 (snd (uint128_post_dec x)) = (val128 x - 1) mod 2 ^ 128).
Proof.
  intros Hx Hy. pose proof (uint128_of_int_wf 1) as W1.
  assert (V1 : val128 (uint128_of_int 1) = 1) by (apply uint128_of_nat_val; lia).
  split; [now apply uint128_add_spec|]. split; [now apply uint128_sub_spec|].
  split; [now apply uint128_mul_spec|]. split; [now apply uint128_neg_spec|].
  split; [now apply uint128_not_spec|]. split; [apply uint128_add_assign_eq|].
  split; [reflexivity|]. split; [reflexivity|].
  split; (split; [reflexivity|]); cbn [snd uint128_post_inc uint128_post_dec].
  - unfold uint128_pre_inc. rewrite uint128_add_assign_eq, <- V1. now apply uint128_add_spec.
  - unfold uint128_pre_dec, uint128_sub_assign. rewrite <- V1. now apply uint128_sub_spec.
Qed.

Lemma uint128_ring_witness :
  val128 (uint128_mul (mk_uint128 1 5) (mk_uint128 3 7)) = (1 * 2 ^ 64 + 5) * (3 * 2 ^ 64 + 7) mod 2 ^ 128.
Proof.
  refine (proj2 (proj1 (proj2 (proj2 (uint128_ring (mk_uint128 1 5) (mk_uint128 3 7) _ _)))));
    apply wf128_mk; unfold fits; lia.
Defined.

(** Shifts and bitwise operators: for every well-formed operand and every well-formed shift
    count, however large, [<<] is multiplication by the power of two modulo 2^128 and [>>] is
    division by it; [&], [|], [^] act bit by bit on the number the value stands for. *)
Theorem uint128_bit_operators (x y : uint128) :
  wf128 x -> wf128 y ->
  (wf128 (uint128_shl x y) /\ val128 (uint128_shl x y) = (val128 x * 2 ^ val128 y) mod 2 ^ 128) /\
  (wf128 (uint128_shr x y) /\ val128 (uint128_shr x y) = val128 x / 2 ^ val128 y) /\
  (wf128 (uint128_and x y) /\ val128 (uint128_and x y) = Z.land (val128 x) (val128 y)) /\
  (wf128 (uint128_or x y) /\ val128 (uint128_or x y) = Z.lor (val128 x) (val128 y)) /\
  (wf128 (uint128_xor x y) /\ val128 (uint128_xor x y) = Z.lxor (val128 x) (val128 y)).
Proof.
  intros Hx Hy. split; [now apply uint128_shl_spec|]. split; [now apply uint128_shr_spec|].
  now apply uint128_bitwise_spec.
Qed.

Lemma uint128_bit_operators_witness :
  val128 (uint128_shr (mk_uint128 3 5) (mk_uint128 0 65)) = (3 * 2 ^ 64 + 5) / 2 ^ 65.
Proof.
  refine (proj2 (proj1 (proj2 (uint128_bit_operators (mk_uint128 3 5) (mk_uint128 0 65) _ _))));
    apply wf128_mk; unfold fits; lia.
Defined.

(** [divide] always returns: a zero divisor gives the pair (0, 0), and any other divisor gives
    the quotient and the remainder of Euclidean division, both well formed. *)
Theorem uint128_divide_correct (left right : uint128) :
  wf128 left -> wf128 right ->
  exists q r, uint128_divide left right = Some (q, r) /\
    uint128_div left right = Some q /\ uint128_mod left right = Some r /\ wf128 q /\ wf128 r /\
    (if val128 right =? 0 then val128 q = 0 /\ val128 r = 0
     else val128 left = val128 q * val128 right + val128 r /\ 0 <= val128 r < val128 right).
Proof.
  intros Hl Hr. unfold uint128_div, uint128_mod. destruct (Z.eqb_spec (val128 right) 0) as [E|Hnz].
  - unfold uint128_divide. rewrite uint128_eq_val, E by auto with vitex.
    rewrite uint128_of_nat_val by lia. cbn [Z.eqb fmap option_fmap option_map fst snd].
    exists (uint128_of_int 0), (uint128_of_int 0). do 3 (split; [reflexivity|]).
    split; [auto with vitex|]. split; [auto with vitex|]. rewrite uint128_of_nat_val by lia. auto.
  - destruct (uint128_divide_spec left right Hl Hr Hnz) as (q & r & -> & Hq & Hrm & Vq & Vr).
    cbn [fmap option_fmap option_map fst snd]. exists q, r.
    pose proof (val128_range right Hr). pose proof (Z.div_mod (val128 left) (val128 right) Hnz).
    pose proof (Z.mod_pos_bound (val128 left) (val128 right)).
    do 3 (split; [reflexivity|]). split; [exact Hq|]. split; [exact Hrm|]. rewrite Vq, Vr. lia.
Qed.

Lemma uint128_divide_correct_witness :
  exists q r, uint128_divide (mk_uint128 7 1) (mk_uint128 0 10) = Some (q, r) /\
    val128 (mk_uint128 7 1) = val128 q * 10 + val128 r /\ 0 <= val128 r < 10.
Proof.
  destruct (uint128_divide_correct (mk_uint128 7 1) (mk_uint128 0 10)) as (q & r & E & _ & _ & _ & _ & H);
    [apply wf128_mk; unfold fits; lia..|].
  exists q, r. split; [exact E|].
  change (val128 (mk_uint128 0 10)) with 10 in H. exact H.
Defined.

(** The comparison operators decide the order of the numbers the values stand for. *)
Theorem uint128_order (x y : uint128) :
  wf128 x -> wf128 y ->
  uint128_eq x y = (val128 x =? val128 y) /\ uint128_ne x y = negb (val128 x =? val128 y) /\
  uint128_lt x y = (val128 x <? val128 y) /\ uint128_gt x y = (val128 y <? val128 x) /\
  uint128_le x y = (val128 x <=? val128 y) /\ uint128_ge x y = (val128 y <=? val128 x) /\
  uint128_to_bool x = negb (val128 x =? 0) /\ uint128_lnot x = (val128 x =? 0) /\
  (uint128_eq x y = true <-> x = y).
Proof.
  intros Hx Hy. rewrite uint128_eq_val, uint128_ne_val, uint128_lt_val, uint128_gt_val,
    uint128_le_val, uint128_ge_val, uint128_to_bool_val, uint128_lnot_val by assumption.
  repeat (split; [reflexivity|]). rewrite Z.eqb_eq. split; [now apply val128_inj | now intros ->].
Qed.

Lemma uint128_order_witness :
  uint128_lt (mk_uint128 1 0) (mk_uint128 0 5) = (2 ^ 64 + 0 <? 5).
Proof.
  refine (proj1 (proj2 (proj2 (uint128_order (mk_uint128 1 0) (mk_uint128 0 5) _ _))));
    apply wf128_mk; unfold fits; lia.
Defined.

(** An operator whose operand is a built-in integer in [0, 2^64) equals the operator applied
    to the converted operand, on either side and for arithmetic, bitwise and comparison operators. *)
Theorem uint128_int_operators (x : uint128) (n : Z) :
  wf128 x -> 0 <= n < 2 ^ 64 ->
  let y := uint128_of_int n in
  uint128_and_int x n = uint128_and x y /\ uint128_or_int x n = uint128_or x y /\
  uint128_xor_int x n = uint128_xor x y /\
  uint128_add_int x n = uint128_add x y /\ uint128_sub_int x n = uint128_sub x y /\
  uint128_eq_int x n = uint128_eq x y /\ uint128_ne_int x n = uint128_ne x y /\
  uint128_lt_int x n = uint128_lt x y /\ uint128_gt_int x n = uint128_gt x y /\
  uint128_le_int x n = uint128_le x y /\ uint128_ge_int x n = uint128_ge x y /\
  int_eq_uint128 n x = uint128_eq y x /\ int_ne_uint128 n x = uint128_ne y x /\
  int_lt_uint128 n x = uint128_lt y x /\ int_gt_uint128 n x = uint128_gt y x /\
  int_le_uint128 n x = uint128_le y x /\ int_ge_uint128 n x = uint128_ge y x /\
  int_sub_uint128 n x = uint128_sub y x.
Proof.
  intros Hx Hn y.
  assert (Ey : y = mk_uint128 0 n).
  { unfold y, uint128_of_int. rewrite (wrapU_id 64 n) by exact Hn.
    destruct (Z.ltb_spec n 0); [lia|reflexivity]. }
  assert (Wy : wf128 y) by (rewrite Ey; apply wf128_mk; [apply fits_0; lia | exact Hn]).
  assert (Esub : uint128_sub_int x n = uint128_sub x y).
  { rewrite Ey. destruct x as [xu xl], Hx. cbn [upper128 lower128] in *.
    unfold uint128_sub_int, uint128_sub. cbn [upper128 lower128].
    rewrite (wrapU_id 64 n), Z.sub_0_r, (wrapU_id 64 xu) by assumption. reflexivity. }
  assert (Eneg : int_sub_uint128 n x = uint128_sub y x).
  { unfold int_sub_uint128. rewrite Esub.
    destruct (uint128_sub_spec x y Hx Wy) as [W1 V1], (uint128_sub_spec y x Wy Hx) as [W2 V2].
    destruct (uint128_neg_spec _ W1) as [W3 V3]. apply val128_inj; [assumption..|].
    rewrite V3, V1, V2. clear. lia. }
  rewrite Esub, Eneg, Ey. clear Esub Eneg Ey Wy y. destruct x as [xu xl], Hx as [Hu Hl].
  cbn [upper128 lower128] in *.
  unfold uint128_and_int, uint128_and, uint128_or_int, uint128_or, uint128_xor_int, uint128_xor,
    uint128_add_int, uint128_add, uint128_le_int, uint128_le, uint128_ge_int, uint128_ge,
    uint128_lt_int, uint128_gt_int, uint128_eq_int, uint128_lt, uint128_gt, uint128_eq,
    uint128_ne_int, uint128_ne, int_eq_uint128, int_ne_uint128, int_lt_uint128, int_gt_uint128,
    int_le_uint128, int_ge_uint128, z2b. cbn [upper128 lower128].
  rewrite !(wrapU_id 64 n), Z.land_0_r, Z.lor_0_r, Z.lxor_0_r, Z.add_0_r, (wrapU_id 64 xu) by assumption.
  unfold fits in *. repeat split; repeat case_cmp; (reflexivity || lia).
Qed.

Lemma uint128_int_operators_witness :
  int_sub_uint128 10 (mk_uint128 1 3) = uint128_sub (uint128_of_int 10) (mk_uint128 1 3).
Proof.
  refine (proj2 (proj2 (proj2 (proj2 (proj2 (proj2 (proj2 (proj2 (proj2 (proj2 (proj2 (proj2 (proj2
    (proj2 (proj2 (proj2 (proj2 (uint128_int_operators (mk_uint128 1 3) 10 _ _))))))))))))))))));
    [apply wf128_mk; unfold fits; lia | lia].
Defined.

(** Byte serialisation.  [encode] writes the sixteen big-endian bytes of the value and
    [decode] reads them back.  [encode_compact] writes the value without its leading zero bytes, in
    one byte more than needed when the bit length is a multiple of eight below 128; since
    [decode_compact] copies those bytes to the front of its buffer, decoding them gives the value
    shifted left by the missing bytes. *)
Theorem uint128_serialisation (x : uint128) :
  wf128 x ->
  uint128_decode (uint128_encode x) = x /\ length (uint128_encode x) = 16%nat /\
  bytes (uint128_encode x) /\ be_val 256 (uint128_encode x) = val128 x /\
  (val128 x <> 0 -> exists data, uint128_encode_compact x = Some data /\ be_val 256 data = val128 x /\
     Z.of_nat (length data) = Z.min 16 (bitlen (val128 x) / 8 + 1) /\
     val128 (uint128_decode_compact data) = val128 x * 256 ^ (16 - Z.of_nat (length data))).
Proof.
  intros Hx. destruct (uint128_encode_val x Hx) as (Hb & Hl & Hv).
  split; [now apply uint128_decode_encode|]. split; [exact Hl|]. split; [exact Hb|]. split; [exact Hv|].
  intros Hnz. destruct (uint128_compact_spec x Hx Hnz) as (data & E & Hbd & Hld & Hvd).
  exists data. split; [exact E|]. split; [exact Hvd|]. split; [exact Hld|].
  unfold uint128_decode_compact. rewrite firstn_all2 by lia.
  assert (Hz : bytes (repeat 0 (16 - length data))).
  { apply Forall_forall. intros z Hin. apply repeat_spec in Hin. lia. }
  destruct (uint128_decode_val (data ++ repeat 0 (16 - length data))) as [_ ->].
  - apply digits_app. split; assumption.
  - rewrite length_app, repeat_length. lia.
  - rewrite be_val_app, Hvd, repeat_length, be_val_rev.
    replace (rev (repeat 0 (16 - length data))) with (repeat 0 (16 - length data))
      by (symmetry; apply rev_repeat).
    rewrite le_val_repeat_0. replace (Z.of_nat (16 - length data)) with (16 - Z.of_nat (length data)) by lia.
    lia.
Qed.

Lemma uint128_serialisation_witness :
  exists data, uint128_encode_compact (mk_uint128 0 1) = Some data /\
    val128 (uint128_decode_compact data) = val128 (mk_uint128 0 1) * 256 ^ (16 - Z.of_nat (length data)).
Proof.
  destruct (uint128_serialisation (mk_uint128 0 1)) as (_ & _ & _ & _ & H);
    [apply wf128_mk; unfold fits; lia|].
  destruct H as (data & E & _ & _ & V); [discriminate|]. exists data. split; [exact E | exact V].
Defined.

(** Text.  For every base from 2 to 16 [to_string] returns a numeral of the value in that
    base, without leading zeros; and for the bases 2, 8, 10 and 16 the text constructor, run on an
    object whose storage is zero, reads that numeral back as the same value. *)
Theorem uint128_text_roundtrip (x : uint128) (base : Z) :
  wf128 x -> 2 <= base <= 16 ->
  exists ds, uint128_to_string x base 0 = Some (map digit16 ds) /\ digits base ds /\
    be_val base ds = val128 x /\ (ds = [0] \/ no_leading_zero ds) /\
    (base = 2 \/ base = 8 \/ base = 10 \/ base = 16 ->
     uint128_of_text (mk_uint128 0 0) (map digit16 ds) base = x).
Proof.
  intros Hx Hb. destruct (uint128_to_string_spec x base Hx Hb) as (ds & E & Hd & Hv & Hc).
  exists ds. split; [exact E|]. split; [exact Hd|]. split; [exact Hv|].
  split; [destruct Hc as [[_ ->]|[_ Hz]]; auto|]. intros Hbase.
  destruct Hc as [[Hz ->]|[Hne Hz]].
  - rewrite (val128_inj x (mk_uint128 0 0)); [|assumption | apply wf128_mk; apply fits_0; lia | exact Hz].
    destruct Hbase as [->|[->|[->| ->]]]; reflexivity.
  - pose proof (val128_range x Hx) as Rx.
    destruct (uint128_of_text_spec ds Hne Hz base Hbase Hd ltac:(lia)) as [W V].
    apply val128_inj; [assumption..|]. now rewrite V.
Qed.

Lemma uint128_text_roundtrip_witness :
  exists ds, uint128_to_string (mk_uint128 1 7) 10 0 = Some (map digit16 ds) /\
             uint128_of_text (mk_uint128 0 0) (map digit16 ds) 10 = mk_uint128 1 7.
Proof.
  destruct (uint128_text_roundtrip (mk_uint128 1 7) 10) as (ds & E & _ & _ & _ & H);
    [apply wf128_mk; unfold fits; lia | lia |].
  exists ds. split; [exact E|]. apply H. auto.
Defined.
