(* ===== verification/UInt256.v ===== *)
(** * 256-bit unsigned integers ([vitex::compute::uint256])

    Source: src/src/vitex/compute.h (struct, operators against built-in integers) and
    src/src/vitex/compute.cpp (everything else), little-endian configuration.  A value is two
    [uint128] halves, and every operator is written, as the code writes it, with the operators of
    [uint128].  The two [operator||] and [operator&&] templates of [uint128] and the comparison
    [int != uint256] that calls one of them never return; they are not modelled. *)

From S2P Require Import Prelude Codec FixedUInt UInt128.

Record uint256 := mk_uint256 { upper256 : uint128; lower256 : uint128 }.

#[export] Instance uint256_eq_dec : EqDecision uint256.
Proof. solve_decision. Defined.

(** The number a value stands for, and the type invariant of the two halves. *)
Definition val256 (x : uint256) : Z := val128 (upper256 x) * 2 ^ 128 + val128 (lower256 x).
Definition wf256 (x : uint256) : Prop := wf128 (upper256 x) /\ wf128 (lower256 x).

(** ** Construction and conversion *)

Definition uint256_of_uint128 (lower_right : uint128) : uint256 := mk_uint256 uint128_min lower_right.
Definition uint256_of_int (right : Z) : uint256 :=
  mk_uint256 (if right <? 0 then uint128_of_halves (-1) (-1) else uint128_min) (uint128_of_int right).
Definition uint256_of_halves (upper_right lower_right : Z) : uint256 :=
  mk_uint256 (uint128_of_int upper_right) (uint128_of_int lower_right).
Definition uint256_of_quarters (upper_lhs lower_lhs upper_right lower_right : Z) : uint256 :=
  mk_uint256 (uint128_of_halves upper_lhs lower_lhs) (uint128_of_halves upper_right lower_right).
Definition uint256_assign_int (self : uint256) (right : Z) : uint256 :=
  let upper := uint128_min in
  let upper := if right <? 0 then uint128_of_halves (-1) (-1) else upper in
  mk_uint256 upper (uint128_assign_int (lower256 self) right).

Definition uint256_min : uint256 := uint256_of_int 0.
Definition uint256_max : uint256 :=
  mk_uint256 (uint128_of_halves (u64 (-1)) (u64 (-1))) (uint128_of_halves (u64 (-1)) (u64 (-1))).

Definition uint256_to_bool (x : uint256) : bool := uint128_lor (upper256 x) (lower256 x).
Definition uint256_to_uint8 (x : uint256) : Z := uint128_to_uint8 (lower256 x).
Definition uint256_to_uint16 (x : uint256) : Z := uint128_to_uint16 (lower256 x).
Definition uint256_to_uint32 (x : uint256) : Z := uint128_to_uint32 (lower256 x).
Definition uint256_to_uint64 (x : uint256) : Z := uint128_to_uint64 (lower256 x).
Definition uint256_to_uint128 (x : uint256) : uint128 := lower256 x.
Definition uint256_high (x : uint256) : uint128 := upper256 x.
Definition uint256_low (x : uint256) : uint128 := lower256 x.

(** ** Bitwise operators *)

Definition uint256_and (x right : uint256) : uint256 :=
  mk_uint256 (uint128_and (upper256 x) (upper256 right)) (uint128_and (lower256 x) (lower256 right)).
Definition uint256_and_128 (x : uint256) (right : uint128) : uint256 :=
  mk_uint256 uint128_min (uint128_and (lower256 x) right).
Definition uint256_and_assign (x right : uint256) : uint256 :=
  let upper := uint128_and_assign (upper256 x) (upper256 right) in
  let lower := uint128_and_assign (lower256 x) (lower256 right) in mk_uint256 upper lower.
Definition uint256_and_assign_128 (x : uint256) (right : uint128) : uint256 :=
  let upper := uint128_min in
  let lower := uint128_and_assign (lower256 x) right in mk_uint256 upper lower.
Definition uint256_or (x right : uint256) : uint256 :=
  mk_uint256 (uint128_or (upper256 x) (upper256 right)) (uint128_or (lower256 x) (lower256 right)).
Definition uint256_or_128 (x : uint256) (right : uint128) : uint256 :=
  mk_uint256 (upper256 x) (uint128_or (lower256 x) right).
Definition uint256_or_assign (x right : uint256) : uint256 :=
  let upper := uint128_or_assign (upper256 x) (upper256 right) in
  let lower := uint128_or_assign (lower256 x) (lower256 right) in mk_uint256 upper lower.
Definition uint256_or_assign_128 (x : uint256) (right : uint128) : uint256 :=
  mk_uint256 (upper256 x) (uint128_or_assign (lower256 x) right).
Definition uint256_xor (x right : uint256) : uint256 :=
  mk_uint256 (uint128_xor (upper256 x) (upper256 right)) (uint128_xor (lower256 x) (lower256 right)).
Definition uint256_xor_128 (x : uint256) (right : uint128) : uint256 :=
  mk_uint256 (upper256 x) (uint128_xor (lower256 x) right).
Definition uint256_xor_assign (x right : uint256) : uint256 :=
  let upper := uint128_xor_assign (upper256 x) (upper256 right) in
  let lower := uint128_xor_assign (lower256 x) (lower256 right) in mk_uint256 upper lower.
Definition uint256_xor_assign_128 (x : uint256) (right : uint128) : uint256 :=
  mk_uint256 (upper256 x) (uint128_xor_assign (lower256 x) right).
Definition uint256_not (x : uint256) : uint256 :=
  mk_uint256 (uint128_not (upper256 x)) (uint128_not (lower256 x)).

(** ** Logic and comparison *)

Definition uint256_lnot (x : uint256) : bool := negb (uint256_to_bool x).
Definition uint256_land (x right : uint256) : bool := uint256_to_bool x && uint256_to_bool right.
Definition uint256_lor (x right : uint256) : bool := uint256_to_bool x || uint256_to_bool right.
Definition uint256_eq (x right : uint256) : bool :=
  uint128_eq (upper256 x) (upper256 right) && uint128_eq (lower256 x) (lower256 right).
Definition uint256_ne (x right : uint256) : bool :=
  uint128_ne (upper256 x) (upper256 right) || uint128_ne (lower256 x) (lower256 right).
Definition uint256_gt (x right : uint256) : bool :=
  if uint128_eq (upper256 x) (upper256 right) then uint128_gt (lower256 x) (lower256 right)
  else uint128_gt (upper256 x) (upper256 right).
Definition uint256_lt (x right : uint256) : bool :=
  if uint128_eq (upper256 x) (upper256 right) then uint128_lt (lower256 x) (lower256 right)
  else uint128_lt (upper256 x) (upper256 right).
Definition uint256_ge (x right : uint256) : bool := uint256_gt x right || uint256_eq x right.
Definition uint256_le (x right : uint256) : bool := uint256_lt x right || uint256_eq x right.

(** ** Shifts *)

Definition uint256_shl (x right : uint256) : uint256 :=
  let shift := lower256 right in
  if uint128_to_bool (upper256 right) || uint128_ge shift (uint128_of_int 256) then uint256_min
  else if uint128_eq shift (uint128_of_int 128) then mk_uint256 (lower256 x) uint128_min
  else if uint128_eq shift uint128_min then x
  else if uint128_lt shift (uint128_of_int 128) then
    mk_uint256
      (uint128_add (uint128_shl (upper256 x) shift)
         (uint128_shr (lower256 x) (uint128_sub (uint128_of_int 128) shift)))
      (uint128_shl (lower256 x) shift)
  else if uint128_gt (uint128_of_int 256) shift && uint128_gt shift (uint128_of_int 128) then
    mk_uint256 (uint128_shl (lower256 x) (uint128_sub shift (uint128_of_int 128))) uint128_min
  else uint256_min.

Definition uint256_shr (x right : uint256) : uint256 :=
  let shift := lower256 right in
  if uint128_to_bool (upper256 right) || uint128_ge shift (uint128_of_int 128) then uint256_min
  else if uint128_eq shift (uint128_of_int 128) then uint256_of_uint128 (upper256 x)
  else if uint128_eq shift uint128_min then x
  else if uint128_lt shift (uint128_of_int 128) then
    mk_uint256 (uint128_shr (upper256 x) shift)
      (uint128_add (uint128_shl (upper256 x) (uint128_sub (uint128_of_int 128) shift))
         (uint128_shr (lower256 x) shift))
  else if uint128_gt (uint128_of_int 256) shift && uint128_gt shift (uint128_of_int 128) then
    uint256_of_uint128 (uint128_shr (upper256 x) (uint128_sub shift (uint128_of_int 128)))
  else uint256_min.

Definition uint256_shl_assign (x shift : uint256) : uint256 := uint256_shl x shift.
Definition uint256_shr_assign (x shift : uint256) : uint256 := uint256_shr x shift.

(** ** Arithmetic *)

Definition uint256_add (x right : uint256) : uint256 :=
  mk_uint256
    (uint128_add (uint128_add (upper256 x) (upper256 right))
       (if uint128_lt (uint128_add (lower256 x) (lower256 right)) (lower256 x)
        then uint128_of_int 1 else uint128_min))
    (uint128_add (lower256 x) (lower256 right)).
Definition uint256_add_assign (x right : uint256) : uint256 :=
  let upper :=
    uint128_add_int (uint128_add (upper256 right) (upper256 x))
      (b2z (uint128_lt (uint128_add (lower256 x) (lower256 right)) (lower256 x))) in
  let lower := uint128_add (lower256 x) (lower256 right) in mk_uint256 upper lower.
Definition uint256_sub (x right : uint256) : uint256 :=
  mk_uint256
    (uint128_sub_int (uint128_sub (upper256 x) (upper256 right))
       (b2z (uint128_gt (uint128_sub (lower256 x) (lower256 right)) (lower256 x))))
    (uint128_sub (lower256 x) (lower256 right)).
Definition uint256_sub_assign (x right : uint256) : uint256 := uint256_sub x right.

(** The 64-bit limbs of a value as [uint128]s, most significant first: [top] and [bottom]. *)
Definition limbs64 (x : uint256) : uint128 * uint128 * uint128 * uint128 :=
  (uint128_of_int (uint128_high (upper256 x)), uint128_of_int (uint128_low (upper256 x)),
   uint128_of_int (uint128_high (lower256 x)), uint128_of_int (uint128_low (lower256 x))).

Definition lo64 (p : uint128) : uint128 := uint128_of_int (uint128_low p).
Definition hi64 (p : uint128) : uint128 := uint128_of_int (uint128_high p).

Definition uint256_mul (x right : uint256) : uint256 :=
  let '(t0, t1, t2, t3) := limbs64 x in
  let '(b0, b1, b2, b3) := limbs64 right in
  let p03 := uint128_mul t3 b3 in let p02 := uint128_mul t2 b3 in
  let p01 := uint128_mul t1 b3 in let p00 := uint128_mul t0 b3 in
  let p13 := uint128_mul t3 b2 in let p12 := uint128_mul t2 b2 in
  let p11 := uint128_mul t1 b2 in
  let p23 := uint128_mul t3 b1 in let p22 := uint128_mul t2 b1 in
  let p33 := uint128_mul t3 b0 in
  let fourth64 := lo64 p03 in
  let third64 := uint128_add (lo64 p02) (hi64 p03) in
  let second64 := uint128_add (lo64 p01) (hi64 p02) in
  let first64 := uint128_add (lo64 p00) (hi64 p01) in
  let third64 := uint128_add_assign third64 (lo64 p13) in
  let second64 := uint128_add_assign second64 (uint128_add (lo64 p12) (hi64 p13)) in
  let first64 := uint128_add_assign first64 (uint128_add (lo64 p11) (hi64 p12)) in
  let second64 := uint128_add_assign second64 (lo64 p23) in
  let first64 := uint128_add_assign first64 (uint128_add (lo64 p22) (hi64 p23)) in
  let first64 := uint128_add_assign first64 (lo64 p33) in
  let c64 := uint128_of_int 64 in
  uint256_add
    (uint256_add
       (uint256_add (mk_uint256 (uint128_shl first64 c64) uint128_min)
          (mk_uint256 (uint128_of_int (uint128_high third64)) (uint128_shl third64 c64)))
       (mk_uint256 second64 uint128_min))
    (uint256_of_uint128 fourth64).
Definition uint256_mul_assign (x right : uint256) : uint256 := uint256_mul x right.

(** [bits]: the counting loops over a [uint128], at most 128 rounds. *)
Definition count_shifts128 (x : uint128) (out : Z) : option Z :=
  s ← whileM 128 (fun s : uint128 * Z => uint128_to_bool (fst s))
        (fun s => Some (uint128_shr_assign (fst s) (uint128_of_int 1), u16 (snd s + 1))) (x, out);
  Some (snd s).

Definition uint256_bits (x : uint256) : option Z :=
  if uint128_to_bool (upper256 x) then count_shifts128 (upper256 x) 128
  else count_shifts128 (lower256 x) 0.

Definition uint256_bytes (x : uint256) : option Z :=
  if uint256_lnot x then Some 0
  else
    length ← uint256_bits x;
    if length =? 0 then Some 0
    else
      let length := u16 (length - 1) in
      Some (Z.max 1 (u16 (Z.min 32 (Z.quot (length - Z.rem length 8 + 8) 8)))).

(** State of the division loop: quotient, remainder, shifted divisor, quotient bit. *)
Record division256 := mk_division256 {
  div_first : uint256; div_second : uint256; div_copyd : uint256; div_adder : uint256 }.

Definition divide256_halve (s : division256) : division256 :=
  mk_division256 (div_first s) (div_second s)
    (uint256_shr_assign (div_copyd s) (uint256_of_int 1))
    (uint256_shr_assign (div_adder s) (uint256_of_int 1)).

Definition divide256_round (s : division256) : division256 :=
  divide256_halve
    (if uint256_ge (div_second s) (div_copyd s)
     then mk_division256 (uint256_or_assign (div_first s) (div_adder s))
            (uint256_sub_assign (div_second s) (div_copyd s)) (div_copyd s) (div_adder s)
     else s).

(** [divide]: the shifted divisor starts at most 255 places up, hence the fuel. *)
Definition uint256_divide (left right : uint256) : option (uint256 * uint256) :=
  if uint256_eq right uint256_min then Some (uint256_min, uint256_min)
  else if uint256_eq right (uint256_of_int 1) then Some (left, uint256_min)
  else if uint256_eq left right then Some (uint256_of_int 1, uint256_min)
  else if uint256_eq left uint256_min || uint256_lt left right then Some (uint256_min, left)
  else
    left_bits ← uint256_bits left;
    right_bits ← uint256_bits right;
    let copyd := uint256_shl right (uint256_of_int (left_bits - right_bits)) in
    let adder := uint256_shl (uint256_of_int 1) (uint256_of_int (left_bits - right_bits)) in
    let s := mk_division256 uint256_min left copyd adder in
    let s := if uint256_gt copyd (div_second s) then divide256_halve s else s in
    s ← whileM 256 (fun s => uint256_ge (div_second s) right)
          (fun s => Some (divide256_round s)) s;
    Some (div_first s, div_second s).

Definition uint256_div (x right : uint256) : option uint256 := fst <$> uint256_divide x right.
Definition uint256_mod (x right : uint256) : option uint256 :=
  quotient ← uint256_div x right; Some (uint256_sub x (uint256_mul right quotient)).
Definition uint256_div_assign (x right : uint256) : option uint256 := uint256_div x right.
Definition uint256_mod_assign (x right : uint256) : option uint256 := uint256_mod x right.

Definition uint256_pre_inc (x : uint256) : uint256 := uint256_add_assign x (uint256_of_int 1).
Definition uint256_pre_dec (x : uint256) : uint256 := uint256_sub_assign x (uint256_of_int 1).
(** Postfix forms: the value returned and the value left in the object. *)
Definition uint256_post_inc (x : uint256) : uint256 * uint256 := (x, uint256_pre_inc x).
Definition uint256_post_dec (x : uint256) : uint256 * uint256 := (x, uint256_pre_dec x).
Definition uint256_plus (x : uint256) : uint256 := x.
Definition uint256_neg (x : uint256) : uint256 := uint256_add (uint256_not x) (uint256_of_int 1).

(** ** Operators whose right operand is a [uint128] *)

Definition uint256_shl_128 (x : uint256) (right : uint128) := uint256_shl x (uint256_of_uint128 right).
Definition uint256_shl_assign_128 (x : uint256) (shift : uint128) :=
  uint256_shl_assign x (uint256_of_uint128 shift).
Definition uint256_shr_128 (x : uint256) (right : uint128) := uint256_shr x (uint256_of_uint128 right).
Definition uint256_shr_assign_128 (x : uint256) (shift : uint128) :=
  uint256_shr_assign x (uint256_of_uint128 shift).
Definition uint256_land_128 (x : uint256) (right : uint128) := uint256_land x (uint256_of_uint128 right).
Definition uint256_lor_128 (x : uint256) (right : uint128) := uint256_lor x (uint256_of_uint128 right).
Definition uint256_eq_128 (x : uint256) (right : uint128) := uint256_eq x (uint256_of_uint128 right).
Definition uint256_ne_128 (x : uint256) (right : uint128) := uint256_ne x (uint256_of_uint128 right).
Definition uint256_gt_128 (x : uint256) (right : uint128) := uint256_gt x (uint256_of_uint128 right).
Definition uint256_lt_128 (x : uint256) (right : uint128) := uint256_lt x (uint256_of_uint128 right).
Definition uint256_ge_128 (x : uint256) (right : uint128) := uint256_ge x (uint256_of_uint128 right).
Definition uint256_le_128 (x : uint256) (right : uint128) := uint256_le x (uint256_of_uint128 right).
Definition uint256_add_128 (x : uint256) (right : uint128) := uint256_add x (uint256_of_uint128 right).
Definition uint256_add_assign_128 (x : uint256) (right : uint128) :=
  uint256_add_assign x (uint256_of_uint128 right).
Definition uint256_sub_128 (x : uint256) (right : uint128) := uint256_sub x (uint256_of_uint128 right).
Definition uint256_sub_assign_128 (x : uint256) (right : uint128) :=
  uint256_sub_assign x (uint256_of_uint128 right).
Definition uint256_mul_128 (x : uint256) (right : uint128) := uint256_mul x (uint256_of_uint128 right).
Definition uint256_mul_assign_128 (x : uint256) (right : uint128) :=
  uint256_mul_assign x (uint256_of_uint128 right).
Definition uint256_div_128 (x : uint256) (right : uint128) := uint256_div x (uint256_of_uint128 right).
Definition uint256_div_assign_128 (x : uint256) (right : uint128) :=
  uint256_div_assign x (uint256_of_uint128 right).
Definition uint256_mod_128 (x : uint256) (right : uint128) := uint256_mod x (uint256_of_uint128 right).
Definition uint256_mod_assign_128 (x : uint256) (right : uint128) :=
  uint256_mod_assign x (uint256_of_uint128 right).

(** ** Operators whose left operand is a [uint128]; the assignments return the new left operand *)

Definition u128_and_256 (left : uint128) (right : uint256) : uint256 := uint256_and_128 right left.
Definition u128_and_assign_256 (left : uint128) (right : uint256) : uint128 :=
  uint256_low (uint256_and_128 right left).
Definition u128_or_256 (left : uint128) (right : uint256) : uint256 := uint256_or_128 right left.
Definition u128_or_assign_256 (left : uint128) (right : uint256) : uint128 :=
  uint256_low (uint256_or_128 right left).
Definition u128_xor_256 (left : uint128) (right : uint256) : uint256 := uint256_xor_128 right left.
Definition u128_xor_assign_256 (left : uint128) (right : uint256) : uint128 :=
  uint256_low (uint256_xor_128 right left).
Definition u128_shl_256 (left : uint128) (right : uint256) : uint256 :=
  uint256_shl (uint256_of_uint128 left) right.
Definition u128_shl_assign_256 (left : uint128) (right : uint256) : uint128 :=
  uint256_low (uint256_shl (uint256_of_uint128 left) right).
Definition u128_shr_256 (left : uint128) (right : uint256) : uint256 :=
  uint256_shr (uint256_of_uint128 left) right.
Definition u128_shr_assign_256 (left : uint128) (right : uint256) : uint128 :=
  uint256_low (uint256_shr (uint256_of_uint128 left) right).
Definition u128_eq_256 (left : uint128) (right : uint256) : bool := uint256_eq_128 right left.
Definition u128_ne_256 (left : uint128) (right : uint256) : bool := uint256_ne_128 right left.
Definition u128_gt_256 (left : uint128) (right : uint256) : bool := uint256_lt_128 right left.
Definition u128_lt_256 (left : uint128) (right : uint256) : bool := uint256_gt_128 right left.
Definition u128_ge_256 (left : uint128) (right : uint256) : bool := uint256_le_128 right left.
Definition u128_le_256 (left : uint128) (right : uint256) : bool := uint256_ge_128 right left.
Definition u128_add_256 (left : uint128) (right : uint256) : uint256 := uint256_add_128 right left.
Definition u128_add_assign_256 (left : uint128) (right : uint256) : uint128 :=
  uint256_low (uint256_add_128 right left).
Definition u128_sub_256 (left : uint128) (right : uint256) : uint256 :=
  uint256_neg (uint256_sub_128 right left).
Definition u128_sub_assign_256 (left : uint128) (right : uint256) : uint128 :=
  uint256_low (uint256_neg (uint256_sub_128 right left)).
Definition u128_mul_256 (left : uint128) (right : uint256) : uint256 := uint256_mul_128 right left.
Definition u128_mul_assign_256 (left : uint128) (right : uint256) : uint128 :=
  uint256_low (uint256_mul_128 right left).
Definition u128_div_256 (left : uint128) (right : uint256) : option uint256 :=
  uint256_div (uint256_of_uint128 left) right.
Definition u128_div_assign_256 (left : uint128) (right : uint256) : option uint128 :=
  uint256_low <$> uint256_div (uint256_of_uint128 left) right.
Definition u128_mod_256 (left : uint128) (right : uint256) : option uint256 :=
  uint256_mod (uint256_of_uint128 left) right.
Definition u128_mod_assign_256 (left : uint128) (right : uint256) : option uint128 :=
  uint256_low <$> uint256_mod (uint256_of_uint128 left) right.

(** ** Operators whose right operand is a built-in integer *)

Definition uint256_and_int (x : uint256) (right : Z) : uint256 :=
  mk_uint256 uint128_min (uint128_and (lower256 x) (uint128_of_int right)).
Definition uint256_and_assign_int (x : uint256) (right : Z) : uint256 :=
  let upper := uint128_min in
  let lower := uint128_and_assign_int (lower256 x) right in mk_uint256 upper lower.
Definition uint256_or_int (x : uint256) (right : Z) : uint256 :=
  mk_uint256 (upper256 x) (uint128_or (lower256 x) (uint128_of_int right)).
Definition uint256_or_assign_int (x : uint256) (right : Z) : uint256 :=
  mk_uint256 (upper256 x) (uint128_or_assign (lower256 x) (uint128_of_int right)).
Definition uint256_xor_int (x : uint256) (right : Z) : uint256 :=
  mk_uint256 (upper256 x) (uint128_xor (lower256 x) (uint128_of_int right)).
Definition uint256_xor_assign_int (x : uint256) (right : Z) : uint256 :=
  mk_uint256 (upper256 x) (uint128_xor_assign (lower256 x) (uint128_of_int right)).
Definition uint256_shl_int (x : uint256) (right : Z) : uint256 := uint256_shl x (uint256_of_int right).
Definition uint256_shl_assign_int (x : uint256) (right : Z) : uint256 :=
  uint256_shl x (uint256_of_int right).
Definition uint256_shr_int (x : uint256) (right : Z) : uint256 := uint256_shr x (uint256_of_int right).
Definition uint256_shr_assign_int (x : uint256) (right : Z) : uint256 :=
  uint256_shr x (uint256_of_int right).
Definition uint256_land_int (x : uint256) (right : Z) : bool := uint256_to_bool x && z2b right.
Definition uint256_lor_int (x : uint256) (right : Z) : bool := uint256_to_bool x || z2b right.
Definition uint256_eq_int (x : uint256) (right : Z) : bool :=
  uint128_lnot (upper256 x) && uint128_eq (lower256 x) (uint128_of_int right).
Definition uint256_ne_int (x : uint256) (right : Z) : bool :=
  uint128_to_bool (upper256 x) || uint128_ne (lower256 x) (uint128_of_int right).
Definition uint256_gt_int (x : uint256) (right : Z) : bool :=
  uint128_to_bool (upper256 x) || uint128_gt (lower256 x) (uint128_of_int right).
Definition uint256_lt_int (x : uint256) (right : Z) : bool :=
  if uint128_lnot (upper256 x) then uint128_lt (lower256 x) (uint128_of_int right) else false.
Definition uint256_ge_int (x : uint256) (right : Z) : bool :=
  uint256_gt_int x right || uint256_eq_int x right.
Definition uint256_le_int (x : uint256) (right : Z) : bool :=
  uint256_lt_int x right || uint256_eq_int x right.
Definition uint256_add_int (x : uint256) (right : Z) : uint256 :=
  mk_uint256
    (uint128_add_int (upper256 x)
       (b2z (uint128_lt (uint128_add (lower256 x) (uint128_of_int right)) (lower256 x))))
    (uint128_add (lower256 x) (uint128_of_int right)).
Definition uint256_add_assign_int (x : uint256) (right : Z) : uint256 :=
  uint256_add_assign x (uint256_of_int right).
Definition uint256_sub_int (x : uint256) (right : Z) : uint256 :=
  mk_uint256
    (uint128_sub_int (upper256 x)
       (b2z (uint128_gt (uint128_sub_int (lower256 x) right) (lower256 x))))
    (uint128_sub_int (lower256 x) right).
Definition uint256_sub_assign_int (x : uint256) (right : Z) : uint256 :=
  uint256_sub x (uint256_of_int right).
Definition uint256_mul_int (x : uint256) (right : Z) : uint256 := uint256_mul x (uint256_of_int right).
Definition uint256_mul_assign_int (x : uint256) (right : Z) : uint256 :=
  uint256_mul x (uint256_of_int right).
Definition uint256_div_int (x : uint256) (right : Z) : option uint256 :=
  uint256_div x (uint256_of_int right).
Definition uint256_div_assign_int (x : uint256) (right : Z) : option uint256 :=
  uint256_div x (uint256_of_int right).
Definition uint256_mod_int (x : uint256) (right : Z) : option uint256 :=
  uint256_mod x (uint256_of_int right).
Definition uint256_mod_assign_int (x : uint256) (right : Z) : option uint256 :=
  uint256_mod x (uint256_of_int right).

(** ** Operators whose left operand is a built-in integer *)

Definition int_and_uint256 (left : Z) (right : uint256) : uint256 := uint256_and_int right left.
Definition int_or_uint256 (left : Z) (right : uint256) : uint256 := uint256_or_int right left.
Definition int_xor_uint256 (left : Z) (right : uint256) : uint256 := uint256_xor_int right left.
Definition int_shl_uint256 (left : Z) (right : uint256) : uint256 :=
  uint256_shl (uint256_of_int left) right.
Definition int_shr_uint256 (left : Z) (right : uint256) : uint256 :=
  uint256_shr (uint256_of_int left) right.
Definition int_eq_uint256 (left : Z) (right : uint256) : bool :=
  uint128_lnot (uint256_high right) && int_eq_uint128 (u64 left) (uint256_low right).
Definition int_gt_uint256 (left : Z) (right : uint256) : bool :=
  if uint128_to_bool (uint256_high right) then false
  else uint128_gt (uint128_of_int left) (uint256_low right).
Definition int_lt_uint256 (left : Z) (right : uint256) : bool :=
  if uint128_to_bool (uint256_high right) then true
  else uint128_lt (uint128_of_int left) (uint256_low right).
Definition int_ge_uint256 (left : Z) (right : uint256) : bool :=
  if uint128_to_bool (uint256_high right) then false
  else uint128_ge (uint128_of_int left) (uint256_low right).
Definition int_le_uint256 (left : Z) (right : uint256) : bool :=
  if uint128_to_bool (uint256_high right) then true
  else uint128_le (uint128_of_int left) (uint256_low right).
Definition int_add_uint256 (left : Z) (right : uint256) : uint256 := uint256_add_int right left.
Definition int_sub_uint256 (left : Z) (right : uint256) : uint256 :=
  uint256_neg (uint256_sub_int right left).
Definition int_mul_uint256 (left : Z) (right : uint256) : uint256 := uint256_mul_int right left.
Definition int_div_uint256 (left : Z) (right : uint256) : option uint256 :=
  uint256_div (uint256_of_int left) right.
Definition int_mod_uint256 (left : Z) (right : uint256) : option uint256 :=
  uint256_mod (uint256_of_int left) right.

(** ** Bytes *)

Definition uint256_encode (x : uint256) : list Z :=
  store64 [to_endianness_big (upper128 (upper256 x)); to_endianness_big (lower128 (upper256 x));
           to_endianness_big (upper128 (lower256 x)); to_endianness_big (lower128 (lower256 x))].

Definition uint256_encode_compact (x : uint256) : option (list Z) :=
  let intermediate := uint256_encode x in
  size ← uint256_bytes x;
  Some (firstn (Z.to_nat size) (skipn (32 - Z.to_nat size) intermediate)).

Definition uint256_decode (data : list Z) : uint256 :=
  mk_uint256
    (mk_uint128 (to_endianness_big (load64 data 0)) (to_endianness_big (load64 data 1)))
    (mk_uint128 (to_endianness_big (load64 data 2)) (to_endianness_big (load64 data 3))).

Definition uint256_decode_compact (data : list Z) : uint256 :=
  let data := firstn 32 data in
  uint256_decode (data ++ repeat 0 (32 - length data)).

(** ** Text *)

Definition char_digit (c : Z) : Z :=
  if (48 <=? c) && (c <=? 57) then c - 48
  else if (97 <=? c) && (c <=? 122) then u8 (c - 97 + 10) else 0.

(** [uint256(text, base)]: the loop runs from the last character to the first, so over the reversed
    text; the state is the value and the power of the base. *)
Definition text_round256 (base : Z) (s : uint256 * uint256) (c : Z) : uint256 * uint256 :=
  let digit := char_digit c in
  let self := uint256_add_assign (fst s) (int_mul_uint256 digit (snd s)) in
  let power := uint256_mul_assign_int (snd s) base in (self, power).

Definition uint256_of_text_base (self : uint256) (text : list Z) (base : Z) : uint256 :=
  fst (fold_left (text_round256 base) (rev text) (uint256_assign_int self 0, uint256_of_int 1)).

Definition uint256_of_text (self : uint256) (text : list Z) : uint256 :=
  uint256_of_text_base self text 10.

Definition alphabet36 : list Z := chars "0123456789abcdefghijklmnopqrstuvwxyz".

(** One round of the digit loop: divide, push the digit of the remainder. *)
Definition digit_round256 (base : Z) (s : uint256 * list Z) : option (uint256 * list Z) :=
  qr ← uint256_divide (fst s) (uint256_of_int base);
  c ← alphabet36 !! Z.to_nat (uint256_to_uint8 (snd qr));
  Some (fst qr, snd s ++ [c]).

(** [to_string].  In base 16 the code fills only the array elements the last [size] bytes lie in;
    the others are not read. *)
Definition uint256_to_string (x : uint256) (base length : Z) : option (list Z) :=
  if uint256_lnot x then
    Some (if length =? 0 then [48] else pad_zeros [] length)
  else if base =? 16 then
    size ← uint256_bytes x;
    let array3 := to_endianness_big (lower128 (lower256 x)) in
    let array2 := to_endianness_big (upper128 (lower256 x)) in
    let array1 := to_endianness_big (lower128 (upper256 x)) in
    let array0 := to_endianness_big (upper128 (upper256 x)) in
    let length := Z.max length (size * 2) in
    let output :=
      hex_encode (skipn (32 - Z.to_nat size) (store64 [array0; array1; array2; array3])) false in
    Some (erase_zeros (pad_zeros output length))
  else
    s ← do_whileM 257 (digit_round256 base) (fun s : uint256 * list Z => uint256_to_bool (fst s))
          (x, []);
    Some (rev (pad_zeros (snd s) length)).

(** ** Facts: representation

    [is128 x n]: the well-formed value [x] stands for [n].  The facts about [uint128] in this form
    compose through the nested operator calls of [uint256]. *)

Definition is128 (x : uint128) (n : Z) : Prop := wf128 x /\ val128 x = n.

Section Is128.
Context (x y : uint128) (a b : Z) (Hx : is128 x a) (Hy : is128 y b).

Local Ltac use lemma :=
  destruct Hx as [? <-], Hy as [? <-]; destruct (lemma x y) as [? ?]; try assumption;
  split; [assumption|].

Lemma is128_add : is128 (uint128_add x y) ((a + b) mod 2 ^ 128).
Proof. use uint128_add_spec. assumption. Qed.
Lemma is128_sub : is128 (uint128_sub x y) ((a - b) mod 2 ^ 128).
Proof. use uint128_sub_spec. assumption. Qed.
Lemma is128_mul : is128 (uint128_mul x y) ((a * b) mod 2 ^ 128).
Proof. use uint128_mul_spec. assumption. Qed.
Lemma is128_shl : is128 (uint128_shl x y) ((a * 2 ^ b) mod 2 ^ 128).
Proof. use uint128_shl_spec. assumption. Qed.
Lemma is128_shr : is128 (uint128_shr x y) (a / 2 ^ b).
Proof. use uint128_shr_spec. assumption. Qed.
Lemma is128_eq : uint128_eq x y = (a =? b).
Proof. destruct Hx as [? <-], Hy as [? <-]. now apply uint128_eq_val. Qed.
Lemma is128_ne : uint128_ne x y = negb (a =? b).
Proof. destruct Hx as [? <-], Hy as [? <-]. now apply uint128_ne_val. Qed.
Lemma is128_lt : uint128_lt x y = (a <? b).
Proof. destruct Hx as [? <-], Hy as [? <-]. now apply uint128_lt_val. Qed.
Lemma is128_gt : uint128_gt x y = (b <? a).
Proof. destruct Hx as [? <-], Hy as [? <-]. now apply uint128_gt_val. Qed.
Lemma is128_ge : uint128_ge x y = (b <=? a).
Proof. destruct Hx as [? <-], Hy as [? <-]. now apply uint128_ge_val. Qed.
Lemma is128_le : uint128_le x y = (a <=? b).
Proof. destruct Hx as [? <-], Hy as [? <-]. now apply uint128_le_val. Qed.
Lemma is128_add_exact : a + b < 2 ^ 128 -> is128 (uint128_add x y) (a + b).
Proof.
  intros Hs. rewrite <- (Z.mod_small (a + b) (2 ^ 128)); [exact is128_add|].
  destruct Hx as [? <-], Hy as [? <-]. pose proof (val128_range x). pose proof (val128_range y). lia.
Qed.
End Is128.

Lemma is128_val x : wf128 x -> is128 x (val128 x).
Proof. now split. Qed.

Lemma is128_range x a : is128 x a -> 0 <= a < 2 ^ 128.
Proof. intros [Hx <-]. now apply val128_range. Qed.

Lemma is128_int n : 0 <= n < 2 ^ 64 -> is128 (uint128_of_int n) n.
Proof. intros Hn. split; [apply uint128_of_int_wf | now apply uint128_of_nat_val]. Qed.

Lemma is128_min : is128 uint128_min 0.
Proof. apply is128_int. lia. Qed.

Lemma is128_bool x a : is128 x a -> uint128_to_bool x = negb (a =? 0).
Proof. intros [Hx <-]. now apply uint128_to_bool_val. Qed.

(** The integer forms used with a carry. *)
Lemma uint128_add_int_eq x n : wf128 x -> 0 <= n < 2 ^ 64 ->
  uint128_add_int x n = uint128_add x (uint128_of_int n).
Proof.
  intros [Hu _] Hn. unfold uint128_add_int, uint128_add, uint128_of_int.
  destruct (Z.ltb_spec n 0); [lia|]. cbn [upper128 lower128].
  rewrite (wrapU_id 64 n), Z.add_0_r, (wrapU_id 64 (upper128 x)) by assumption. reflexivity.
Qed.

Lemma uint128_sub_int_eq x n : wf128 x -> 0 <= n < 2 ^ 64 ->
  uint128_sub_int x n = uint128_sub x (uint128_of_int n).
Proof.
  intros [Hu _] Hn. unfold uint128_sub_int, uint128_sub, uint128_of_int.
  destruct (Z.ltb_spec n 0); [lia|]. cbn [upper128 lower128].
  rewrite (wrapU_id 64 n), Z.sub_0_r, (wrapU_id 64 (upper128 x)) by assumption. reflexivity.
Qed.

Lemma is128_add_int x a n : is128 x a -> 0 <= n < 2 ^ 64 -> is128 (uint128_add_int x n) ((a + n) mod 2 ^ 128).
Proof.
  intros Hx Hn. rewrite uint128_add_int_eq by (apply Hx || exact Hn).
  apply is128_add; [assumption | now apply is128_int].
Qed.

Lemma is128_sub_int x a n : is128 x a -> 0 <= n < 2 ^ 64 -> is128 (uint128_sub_int x n) ((a - n) mod 2 ^ 128).
Proof.
  intros Hx Hn. rewrite uint128_sub_int_eq by (apply Hx || exact Hn).
  apply is128_sub; [assumption | now apply is128_int].
Qed.

#[export] Hint Resolve is128_add is128_sub is128_mul is128_shl is128_shr is128_val is128_min
  is128_add_int is128_sub_int : vitex.

(** [is256 x hi lo]: the halves of [x] stand for [hi] and [lo]. *)
Definition is256 (x : uint256) (hi lo : Z) : Prop := is128 (upper256 x) hi /\ is128 (lower256 x) lo.

Lemma is256_mk u l hi lo : is128 u hi -> is128 l lo -> is256 (mk_uint256 u l) hi lo.
Proof. now split. Qed.

Lemma is256_wf x : wf256 x -> exists hi lo, is256 x hi lo /\ val256 x = hi * 2 ^ 128 + lo /\
  0 <= hi < 2 ^ 128 /\ 0 <= lo < 2 ^ 128.
Proof.
  intros [Hu Hl]. exists (val128 (upper256 x)), (val128 (lower256 x)).
  split; [split; now apply is128_val|]. split; [reflexivity|]. split; now apply val128_range.
Qed.

Lemma is256_sound x hi lo : is256 x hi lo -> wf256 x /\ val256 x = hi * 2 ^ 128 + lo.
Proof. intros [[Hu Vu] [Hl Vl]]. unfold val256. rewrite Vu, Vl. now split. Qed.

Lemma val256_range x : wf256 x -> 0 <= val256 x < 2 ^ 256.
Proof. intros H. destruct (is256_wf x H) as (hi & lo & _ & -> & ? & ?). lia. Qed.

Lemma val256_inj x y : wf256 x -> wf256 y -> val256 x = val256 y -> x = y.
Proof.
  destruct x as [xu xl], y as [yu yl]. intros [Hxu Hxl] [Hyu Hyl] E. unfold val256 in E.
  cbn [upper256 lower256] in *.
  pose proof (val128_range xu Hxu). pose proof (val128_range xl Hxl).
  pose proof (val128_range yu Hyu). pose proof (val128_range yl Hyl).
  f_equal; apply val128_inj; try assumption; lia.
Qed.

Lemma is256_int n : 0 <= n < 2 ^ 64 -> is256 (uint256_of_int n) 0 n.
Proof.
  intros Hn. unfold uint256_of_int. destruct (Z.ltb_spec n 0); [lia|].
  split; [apply is128_min | now apply is128_int].
Qed.

Lemma uint256_of_int_wf n : wf256 (uint256_of_int n).
Proof.
  unfold uint256_of_int. split; cbn [upper256 lower256]; [|apply uint128_of_int_wf].
  destruct (n <? 0); [apply wf128_mk; auto with vitex | apply uint128_of_int_wf].
Qed.

Lemma uint256_of_nat_val n : 0 <= n < 2 ^ 64 -> val256 (uint256_of_int n) = n.
Proof. intros Hn. destruct (is256_sound _ _ _ (is256_int n Hn)) as [_ ->]. lia. Qed.

Lemma uint256_min_val : wf256 uint256_min /\ val256 uint256_min = 0.
Proof. split; [apply uint256_of_int_wf | apply uint256_of_nat_val; lia]. Qed.

#[export] Hint Resolve uint256_of_int_wf is256_mk : vitex.

(** ** Facts: comparison *)

Ltac halves256 x Hx xu xl :=
  let I := fresh "I" in let V := fresh "V" in
  destruct (is256_wf x Hx) as (xu & xl & I & V & ? & ?);
  let Iu := fresh "Iu" in let Il := fresh "Il" in destruct I as [Iu Il].

Section Compare256.
Context (x y : uint256) (Hx : wf256 x) (Hy : wf256 y).

Lemma uint256_eq_val : uint256_eq x y = (val256 x =? val256 y).
Proof.
  halves256 x Hx xu xl. halves256 y Hy yu yl. unfold uint256_eq.
  erewrite !is128_eq by eassumption. lia.
Qed.
Lemma uint256_ne_val : uint256_ne x y = negb (val256 x =? val256 y).
Proof.
  halves256 x Hx xu xl. halves256 y Hy yu yl. unfold uint256_ne.
  erewrite !is128_ne by eassumption. lia.
Qed.
Lemma uint256_lt_val : uint256_lt x y = (val256 x <? val256 y).
Proof.
  halves256 x Hx xu xl. halves256 y Hy yu yl. unfold uint256_lt.
  erewrite is128_eq, !is128_lt by eassumption. repeat case_cmp; lia.
Qed.
Lemma uint256_gt_val : uint256_gt x y = (val256 y <? val256 x).
Proof.
  halves256 x Hx xu xl. halves256 y Hy yu yl. unfold uint256_gt.
  erewrite is128_eq, !is128_gt by eassumption. repeat case_cmp; lia.
Qed.
End Compare256.

Lemma uint256_ge_val x y : wf256 x -> wf256 y -> uint256_ge x y = (val256 y <=? val256 x).
Proof. intros. unfold uint256_ge. rewrite uint256_gt_val, uint256_eq_val by assumption. lia. Qed.
Lemma uint256_le_val x y : wf256 x -> wf256 y -> uint256_le x y = (val256 x <=? val256 y).
Proof. intros. unfold uint256_le. rewrite uint256_lt_val, uint256_eq_val by assumption. lia. Qed.
Lemma uint256_to_bool_val x : wf256 x -> uint256_to_bool x = negb (val256 x =? 0).
Proof.
  intros Hx. halves256 x Hx xu xl. unfold uint256_to_bool, uint128_lor.
  erewrite !is128_bool by eassumption. lia.
Qed.
Lemma uint256_lnot_val x : wf256 x -> uint256_lnot x = (val256 x =? 0).
Proof. intros Hx. unfold uint256_lnot. rewrite uint256_to_bool_val by assumption. apply negb_involutive. Qed.

(** ** Facts: addition, subtraction, complement *)
Lemma is256_result x hi lo n :
  is256 x hi lo -> 0 <= n < 2 ^ 256 -> hi * 2 ^ 128 + lo = n -> wf256 x /\ val256 x = n.
Proof. intros H _ <-. now apply is256_sound. Qed.

Lemma uint256_add_spec x y :
  wf256 x -> wf256 y ->
  wf256 (uint256_add x y) /\ val256 (uint256_add x y) = (val256 x + val256 y) mod 2 ^ 256.
Proof.
  intros Hx Hy. halves256 x Hx xu xl. halves256 y Hy yu yl. unfold uint256_add.
  rewrite (is128_lt _ _ _ _ (is128_add _ _ _ _ Il Il0) Il).
  assert (C : is128 (if (xl + yl) mod 2 ^ 128 <? xl then uint128_of_int 1 else uint128_min)
                (b2z ((xl + yl) mod 2 ^ 128 <? xl)))
    by (destruct (_ <? xl); [apply is128_int; cbn; lia | apply is128_min]).
  pose proof (is128_add _ _ _ _ Iu Iu0) as Su. pose proof (is128_add _ _ _ _ Il Il0) as Sl.
  destruct (is256_sound _ _ _ (is256_mk _ _ _ _ (is128_add _ _ _ _ Su C) Sl)) as [W ->].
  split; [exact W|]. rewrite V, V0. unfold b2z. case_cmp; lia.
Qed.

Lemma uint256_add_assign_eq x y : wf256 x -> wf256 y -> uint256_add_assign x y = uint256_add x y.
Proof.
  intros Hx Hy. destruct (uint256_add_spec x y Hx Hy) as [W E].
  halves256 x Hx xu xl. halves256 y Hy yu yl.
  assert (S : wf256 (uint256_add_assign x y) /\
              val256 (uint256_add_assign x y) = (val256 x + val256 y) mod 2 ^ 256).
  { unfold uint256_add_assign. rewrite (is128_lt _ _ _ _ (is128_add _ _ _ _ Il Il0) Il).
    pose proof (is128_add _ _ _ _ Iu0 Iu) as Su. pose proof (is128_add _ _ _ _ Il Il0) as Sl.
    pose proof (is128_add_int _ _ (b2z ((xl + yl) mod 2 ^ 128 <? xl)) Su
                  ltac:(unfold b2z; case_cmp; lia)) as C.
    destruct (is256_sound _ _ _ (is256_mk _ _ _ _ C Sl)) as [W' ->].
    split; [exact W'|]. rewrite V, V0. unfold b2z. case_cmp; lia. }
  apply val256_inj; [apply S | exact W | now rewrite E; apply S].
Qed.

Lemma uint256_sub_spec x y :
  wf256 x -> wf256 y ->
  wf256 (uint256_sub x y) /\ val256 (uint256_sub x y) = (val256 x - val256 y) mod 2 ^ 256.
Proof.
  intros Hx Hy. halves256 x Hx xu xl. halves256 y Hy yu yl. unfold uint256_sub.
  rewrite (is128_gt _ _ _ _ (is128_sub _ _ _ _ Il Il0) Il).
  pose proof (is128_sub _ _ _ _ Iu Iu0) as Su. pose proof (is128_sub _ _ _ _ Il Il0) as Sl.
  pose proof (is128_sub_int _ _ (b2z (xl <? (xl - yl) mod 2 ^ 128)) Su
                ltac:(unfold b2z; case_cmp; lia)) as C.
  destruct (is256_sound _ _ _ (is256_mk _ _ _ _ C Sl)) as [W ->].
  split; [exact W|]. rewrite V, V0. unfold b2z. case_cmp; lia.
Qed.

Lemma uint256_not_spec x :
  wf256 x -> wf256 (uint256_not x) /\ val256 (uint256_not x) = 2 ^ 256 - 1 - val256 x.
Proof.
  intros [Hu Hl]. unfold uint256_not, wf256, val256. cbn [upper256 lower256].
  destruct (uint128_not_spec _ Hu) as [Wu ->], (uint128_not_spec _ Hl) as [Wl ->].
  split; [now split|]. lia.
Qed.

Lemma uint256_neg_spec x :
  wf256 x -> wf256 (uint256_neg x) /\ val256 (uint256_neg x) = (- val256 x) mod 2 ^ 256.
Proof.
  intros Hx. unfold uint256_neg. destruct (uint256_not_spec x Hx) as [Hw Hv].
  destruct (uint256_add_spec _ (uint256_of_int 1) Hw (uint256_of_int_wf 1)) as [W ->].
  split; [exact W|]. rewrite Hv, uint256_of_nat_val by lia. pose proof (val256_range x Hx). lia.
Qed.

(** ** Facts: bitwise operators and shifts *)
Lemma uint256_bitwise_spec x y :
  wf256 x -> wf256 y ->
  (wf256 (uint256_and x y) /\ val256 (uint256_and x y) = Z.land (val256 x) (val256 y)) /\
  (wf256 (uint256_or x y) /\ val256 (uint256_or x y) = Z.lor (val256 x) (val256 y)) /\
  (wf256 (uint256_xor x y) /\ val256 (uint256_xor x y) = Z.lxor (val256 x) (val256 y)).
Proof.
  intros [Hxu Hxl] [Hyu Hyl].
  destruct (uint128_bitwise_spec _ _ Hxu Hyu) as ([A1 A2] & [B1 B2] & [C1 C2]).
  destruct (uint128_bitwise_spec _ _ Hxl Hyl) as ([D1 D2] & [E1 E2] & [F1 F2]).
  pose proof (val128_range _ Hxl) as Rx. pose proof (val128_range _ Hyl) as Ry.
  unfold uint256_and, uint256_or, uint256_xor, wf256, val256. cbn [upper256 lower256].
  rewrite A2, B2, C2, D2, E2, F2. split; [|split].
  - split; [now split|]. symmetry.
    apply (halves_bitop 128 ltac:(lia) Z.land andb); auto using Z.land_spec. apply fits_land; auto; lia.
  - split; [now split|]. symmetry.
    apply (halves_bitop 128 ltac:(lia) Z.lor orb); auto using Z.lor_spec. apply fits_lor; auto; lia.
  - split; [now split|]. symmetry.
    apply (halves_bitop 128 ltac:(lia) Z.lxor xorb); auto using Z.lxor_spec. apply fits_lxor; auto; lia.
Qed.

Lemma uint256_shl_spec x y :
  wf256 x -> wf256 y ->
  wf256 (uint256_shl x y) /\
  val256 (uint256_shl x y) = (val256 x * 2 ^ val256 y) mod 2 ^ 256.
Proof.
  intros Hx Hy. pose proof (val256_range x Hx) as Rx.
  halves256 x Hx xu xl. halves256 y Hy yu s. unfold uint256_shl.
  pose proof (is128_int 256 ltac:(lia)) as C256. pose proof (is128_int 128 ltac:(lia)) as C128.
  rewrite (is128_bool _ _ Iu0), (is128_ge _ _ _ _ Il0 C256), !(is128_eq _ _ _ _ Il0 C128),
    (is128_eq _ _ _ _ Il0 is128_min), (is128_lt _ _ _ _ Il0 C128), (is128_gt _ _ _ _ C256 Il0),
    (is128_gt _ _ _ _ Il0 C128).
  destruct (negb (yu =? 0) || (256 <=? s)) eqn:Hbig.
  - destruct uint256_min_val as [W ->]. split; [exact W|]. now rewrite mod_pow2_zero by lia.
  - assert (yu = 0 /\ s < 256) as [-> Hs] by lia. rewrite V0. rewrite Z.mul_0_l, Z.add_0_l in *. clear Hbig.
    destruct (Z.eqb_spec s 128) as [->|].
    { edestruct is256_sound as [W E]; [apply is256_mk; [exact Il | apply is128_min]|].
      split; [exact W|]. rewrite E, V. change (2 ^ 256) with (2 ^ 128 * 2 ^ 128). clear - H0. lia. }
    destruct (Z.eqb_spec s 0) as [->|].
    { split; [exact Hx|]. rewrite Z.pow_0_r, Z.mul_1_r, Z.mod_small by lia. reflexivity. }
    destruct (Z.ltb_spec s 128).
    + pose proof (is128_sub _ _ _ _ C128 Il0) as Sh. rewrite Z.mod_small in Sh by lia.
      pose proof (is128_shl _ _ _ _ Iu Il0) as A. pose proof (is128_shr _ _ _ _ Il Sh) as B.
      pose proof (is128_shl _ _ _ _ Il Il0) as L.
      destruct (halves_shl 128 ltac:(lia) xu xl s ltac:(assumption) ltac:(assumption) ltac:(lia))
        as [Hf Hv]. unfold wrapU in Hf, Hv.
      pose proof (is128_add_exact _ _ _ _ A B (proj2 Hf)) as U.
      destruct (is256_sound _ _ _ (is256_mk _ _ _ _ U L)) as [W ->]. split; [exact W|].
      rewrite V. exact Hv.
    + replace ((s <? 256) && (128 <? s)) with true by lia.
      pose proof (is128_sub _ _ _ _ Il0 C128) as Sh. rewrite Z.mod_small in Sh by lia.
      pose proof (is128_shl _ _ _ _ Il Sh) as A.
      destruct (is256_sound _ _ _ (is256_mk _ _ _ _ A is128_min)) as [W ->]. split; [exact W|].
      rewrite V, Z.add_0_r. rewrite (pow2_split s 128) by lia. change (2 ^ 256) with (2 ^ 128 * 2 ^ 128).
      rewrite (Z.mul_comm (2 ^ 128) (2 ^ (s - 128))), Z.mul_assoc, Z.mul_mod_distr_r by lia.
      f_equal. rewrite Z.mul_add_distr_r, <- Z.mul_assoc, (Z.mul_comm (2 ^ 128)), Z.mul_assoc.
      rewrite Z.add_comm, Z.mod_add by lia. reflexivity.
Qed.

(** The right shift gives zero from 128 places on. *)
Lemma uint256_shr_spec x y :
  wf256 x -> wf256 y ->
  wf256 (uint256_shr x y) /\
  val256 (uint256_shr x y) = if val256 y <? 128 then val256 x / 2 ^ val256 y else 0.
Proof.
  intros Hx Hy. halves256 x Hx xu xl. halves256 y Hy yu s. unfold uint256_shr.
  pose proof (is128_int 128 ltac:(lia)) as C128.
  rewrite (is128_bool _ _ Iu0), (is128_ge _ _ _ _ Il0 C128), !(is128_eq _ _ _ _ Il0 C128),
    (is128_eq _ _ _ _ Il0 is128_min), (is128_lt _ _ _ _ Il0 C128).
  destruct (negb (yu =? 0) || (128 <=? s)) eqn:Hbig.
  - destruct uint256_min_val as [W ->]. split; [exact W|].
    destruct (Z.ltb_spec (val256 y) 128); [lia|reflexivity].
  - assert (yu = 0 /\ s < 128) as [-> Hs] by lia. rewrite V0. rewrite Z.mul_0_l, Z.add_0_l in *. clear Hbig.
    destruct (Z.ltb_spec s 128); [|lia].
    destruct (Z.eqb_spec s 128) as [->|]; [lia|].
    destruct (Z.eqb_spec s 0) as [->|].
    { split; [exact Hx|]. now rewrite Z.pow_0_r, Z.div_1_r. }
    pose proof (is128_sub _ _ _ _ C128 Il0) as Sh. rewrite Z.mod_small in Sh by lia.
    pose proof (is128_shl _ _ _ _ Iu Sh) as A. pose proof (is128_shr _ _ _ _ Il Il0) as B.
    pose proof (is128_shr _ _ _ _ Iu Il0) as U.
    destruct (halves_shr 128 ltac:(lia) xu xl s ltac:(assumption) ltac:(assumption) ltac:(lia))
      as [Hf Hv]. unfold wrapU in Hf, Hv.
    pose proof (is128_add_exact _ _ _ _ A B (proj2 Hf)) as L.
    destruct (is256_sound _ _ _ (is256_mk _ _ _ _ U L)) as [W ->]. split; [exact W|].
    rewrite V. exact Hv.
Qed.

(** ** Facts: multiplication *)
Lemma lo64_is p n : is128 p n -> is128 (lo64 p) (n mod 2 ^ 64).
Proof.
  intros [Hp <-]. destruct p as [u l], Hp as [Hu Hl]. cbn [upper128 lower128] in *.
  unfold lo64, uint128_low, val128. cbn [upper128 lower128].
  replace ((u * 2 ^ 64 + l) mod 2 ^ 64) with l by mach. now apply is128_int.
Qed.

Lemma hi64_is p n : is128 p n -> is128 (hi64 p) (n / 2 ^ 64).
Proof.
  intros [Hp <-]. destruct p as [u l], Hp as [Hu Hl]. cbn [upper128 lower128] in *.
  unfold hi64, uint128_high, val128. cbn [upper128 lower128].
  replace ((u * 2 ^ 64 + l) / 2 ^ 64) with u by mach. now apply is128_int.
Qed.

Lemma limbs64_val x :
  wf256 x ->
  exists t0 t1 t2 t3 : Z,
    (let '(x0, x1, x2, x3) := limbs64 x in is128 x0 t0 /\ is128 x1 t1 /\ is128 x2 t2 /\ is128 x3 t3) /\
    fits 64 t0 /\ fits 64 t1 /\ fits 64 t2 /\ fits 64 t3 /\
    val256 x = t0 * 2 ^ 192 + t1 * 2 ^ 128 + t2 * 2 ^ 64 + t3.
Proof.
  destruct x as [[xuu xul] [xlu xll]]. intros [[H1 H2] [H3 H4]]. cbn [upper256 lower256 upper128 lower128] in *.
  exists xuu, xul, xlu, xll. unfold limbs64, uint128_high, uint128_low.
  cbn [upper256 lower256 upper128 lower128].
  split; [repeat split; try apply uint128_of_int_wf; now apply uint128_of_nat_val|].
  do 4 (split; [assumption|]). unfold val256, val128. cbn [upper256 lower256 upper128 lower128]. lia.
Qed.

Lemma is128_product x y a b : is128 x a -> is128 y b -> fits 64 a -> fits 64 b ->
  is128 (uint128_mul x y) (a * b) /\ 0 <= a * b <= (2 ^ 64 - 1) * (2 ^ 64 - 1).
Proof.
  intros Hx Hy Ha Hb. unfold fits in *. assert (R : 0 <= a * b <= (2 ^ 64 - 1) * (2 ^ 64 - 1)) by nia.
  split; [|exact R]. rewrite <- (Z.mod_small (a * b) (2 ^ 128)) by lia. now apply is128_mul.
Qed.

(** The column sums are below 2^67, so none of the [uint128] additions wraps. *)
Lemma is128_column x y a b : is128 x a -> is128 y b -> 0 <= a < 2 ^ 70 -> 0 <= b < 2 ^ 70 ->
  is128 (uint128_add x y) (a + b).
Proof. intros Hx Hy Ha Hb. apply is128_add_exact; try assumption. lia. Qed.

(** The code adds four shifted columns; the carries are those of [uint256] addition. *)
Lemma uint256_assemble x1 x2 x3 x4 first second third fourth :
  is128 x1 first -> is128 x2 second -> is128 x3 third -> is128 x4 fourth ->
  0 <= third < 2 ^ 70 ->
  let r := uint256_add
    (uint256_add
       (uint256_add (mk_uint256 (uint128_shl x1 (uint128_of_int 64)) uint128_min)
          (mk_uint256 (uint128_of_int (uint128_high x3)) (uint128_shl x3 (uint128_of_int 64))))
       (mk_uint256 x2 uint128_min))
    (uint256_of_uint128 x4) in
  wf256 r /\ val256 r = (first * 2 ^ 192 + second * 2 ^ 128 + third * 2 ^ 64 + fourth) mod 2 ^ 256.
Proof.
  intros H1 H2 H3 H4 Ht r. subst r. pose proof (is128_int 64 ltac:(lia)) as C64.
  pose proof (is128_shl _ _ _ _ H1 C64) as A. pose proof (is128_shl _ _ _ _ H3 C64) as B.
  pose proof (hi64_is _ _ H3) as Hh.
  destruct (is256_sound _ _ _ (is256_mk _ _ _ _ A is128_min)) as [WA VA].
  destruct (is256_sound _ _ _ (is256_mk _ _ _ _ Hh B)) as [WB VB].
  destruct (is256_sound _ _ _ (is256_mk _ _ _ _ H2 is128_min)) as [WC VC].
  destruct (is256_sound _ _ _ (is256_mk _ _ _ _ is128_min H4)) as [WD VD].
  destruct (uint256_add_spec _ _ WA WB) as [WS1 VS1].
  destruct (uint256_add_spec _ _ WS1 WC) as [WS2 VS2].
  destruct (uint256_add_spec _ _ WS2 WD) as [WS3 VS3]. split; [exact WS3|].
  etransitivity; [exact VS3|]. rewrite VS2, VS1, VA, VB, VC, VD.
  rewrite !Zplus_mod_idemp_l. change (2 ^ 192) with (2 ^ 64 * 2 ^ 128).
  change (2 ^ 256) with (2 ^ 128 * 2 ^ 128). clear - Ht. lia.
Qed.

Lemma mul_columns64 p03 p02 p13 p01 p12 p23 p00 p11 p22 p33 :
  let m := 2 ^ 64 in
  let third := p02 mod m + p03 / m + p13 mod m in
  let second := p01 mod m + p02 / m + (p12 mod m + p13 / m) + p23 mod m in
  let first := p00 mod m + p01 / m + (p11 mod m + p12 / m) + (p22 mod m + p23 / m) + p33 mod m in
  p03 + 2 ^ 64 * (p02 + p13) + 2 ^ 128 * (p01 + p12 + p23) + 2 ^ 192 * (p00 + p11 + p22 + p33) =
  first * 2 ^ 192 + second * 2 ^ 128 + third * 2 ^ 64 + p03 mod m +
    2 ^ 256 * (p00 / m + p11 / m + p22 / m + p33 / m).
Proof. cbv zeta. lia. Qed.

Lemma uint256_mul_spec x y :
  wf256 x -> wf256 y ->
  wf256 (uint256_mul x y) /\ val256 (uint256_mul x y) = (val256 x * val256 y) mod 2 ^ 256.
Proof.
  intros Hx Hy. unfold uint256_mul.
  destruct (limbs64_val x Hx) as (t0 & t1 & t2 & t3 & Lx & T0 & T1 & T2 & T3 & ->).
  destruct (limbs64_val y Hy) as (b0 & b1 & b2 & b3 & Ly & B0 & B1 & B2 & B3 & ->).
  destruct (limbs64 x) as [[[x0 x1] x2] x3], (limbs64 y) as [[[y0 y1] y2] y3].
  destruct Lx as (X0 & X1 & X2 & X3), Ly as (Y0 & Y1 & Y2 & Y3). clear Hx Hy.
  replace ((t0 * 2 ^ 192 + t1 * 2 ^ 128 + t2 * 2 ^ 64 + t3) *
           (b0 * 2 ^ 192 + b1 * 2 ^ 128 + b2 * 2 ^ 64 + b3)) with
    (t3 * b3 + 2 ^ 64 * (t2 * b3 + t3 * b2) + 2 ^ 128 * (t1 * b3 + t2 * b2 + t3 * b1) +
     2 ^ 192 * (t0 * b3 + t1 * b2 + t2 * b1 + t3 * b0) +
     2 ^ 256 * (2 ^ 128 * (t0 * b0) + 2 ^ 64 * (t0 * b1 + t1 * b0) + (t0 * b2 + t1 * b1 + t2 * b0)))
    by ring.
  set (rest := 2 ^ 128 * (t0 * b0) + 2 ^ 64 * (t0 * b1 + t1 * b0) + (t0 * b2 + t1 * b1 + t2 * b0)).
  clearbody rest.
  destruct (is128_product _ _ _ _ X3 Y3 T3 B3) as [P03 R03]. destruct (is128_product _ _ _ _ X2 Y3 T2 B3) as [P02 R02].
  destruct (is128_product _ _ _ _ X1 Y3 T1 B3) as [P01 R01]. destruct (is128_product _ _ _ _ X0 Y3 T0 B3) as [P00 R00].
  destruct (is128_product _ _ _ _ X3 Y2 T3 B2) as [P13 R13]. destruct (is128_product _ _ _ _ X2 Y2 T2 B2) as [P12 R12].
  destruct (is128_product _ _ _ _ X1 Y2 T1 B2) as [P11 R11]. destruct (is128_product _ _ _ _ X3 Y1 T3 B1) as [P23 R23].
  destruct (is128_product _ _ _ _ X2 Y1 T2 B1) as [P22 R22]. destruct (is128_product _ _ _ _ X3 Y0 T3 B0) as [P33 R33].
  rewrite mul_columns64. rewrite <- Z.add_assoc, <- Z.mul_add_distr_l, (Z.mul_comm (2 ^ 256)), Z.mod_add by lia.
  clear rest T0 T1 T2 T3 B0 B1 B2 B3 X0 X1 X2 X3 Y0 Y1 Y2 Y3.
  revert P03 R03 P02 R02 P01 R01 P00 R00 P13 R13 P12 R12 P11 R11 P23 R23 P22 R22 P33 R33.
  generalize (t3 * b3), (t2 * b3), (t1 * b3), (t0 * b3), (t3 * b2), (t2 * b2), (t1 * b2), (t3 * b1),
    (t2 * b1), (t3 * b0). clear.
  intros p03 p02 p01 p00 p13 p12 p11 p23 p22 p33; intros.
  apply uint256_assemble; [..|lia].
  - rewrite !uint128_add_assign_eq.
    repeat first [apply is128_column | apply lo64_is; eassumption | apply hi64_is; eassumption | lia].
  - rewrite !uint128_add_assign_eq.
    repeat first [apply is128_column | apply lo64_is; eassumption | apply hi64_is; eassumption | lia].
  - rewrite !uint128_add_assign_eq.
    repeat first [apply is128_column | apply lo64_is; eassumption | apply hi64_is; eassumption | lia].
  - apply lo64_is; eassumption.
Qed.

(** ** Facts: bit and byte length *)
Lemma count_shifts128_loop fuel x out :
  wf128 x -> val128 x < 2 ^ Z.of_nat fuel -> 0 <= out -> out + Z.of_nat fuel < 2 ^ 16 ->
  exists y, whileM fuel (fun s : uint128 * Z => uint128_to_bool (fst s))
    (fun s => Some (uint128_shr_assign (fst s) (uint128_of_int 1), u16 (snd s + 1))) (x, out) =
    Some (y, out + bitlen (val128 x)).
Proof.
  revert x out. induction fuel as [|fuel IH]; intros x out Hx Hlt Ho Hm;
    pose proof (val128_range x Hx) as Rx; simpl whileM; cbn [fst snd];
    rewrite uint128_to_bool_val by assumption; destruct (Z.eqb_spec (val128 x) 0) as [E|Hnz]; cbn [negb].
  - exists x. rewrite E. unfold bitlen. cbn [Z.eqb]. do 2 f_equal. lia.
  - rewrite Z.pow_0_r in Hlt. lia.
  - exists x. rewrite E. unfold bitlen. cbn [Z.eqb]. do 2 f_equal. lia.
  - rewrite Nat2Z.inj_succ, Z.pow_succ_r in Hlt by lia. cbn [mbind option_bind].
    rewrite wrapU_id by (unfold fits; lia).
    destruct (uint128_shr_spec x (uint128_of_int 1) Hx (uint128_of_int_wf 1)) as [W V].
    rewrite uint128_of_nat_val, Z.pow_1_r in V by lia.
    destruct (IH (uint128_shr_assign x (uint128_of_int 1)) (out + 1) W) as [y E];
      [unfold uint128_shr_assign; rewrite V; lia | lia | lia |].
    exists y. rewrite E. unfold uint128_shr_assign. rewrite V, (bitlen_half (val128 x)) by lia.
    do 2 f_equal. lia.
Qed.

Lemma count_shifts128_spec x out :
  wf128 x -> 0 <= out <= 128 -> count_shifts128 x out = Some (out + bitlen (val128 x)).
Proof.
  intros Hx Ho. unfold count_shifts128.
  destruct (count_shifts128_loop 128 x out Hx) as [y ->]; [apply val128_range, Hx | lia | lia |].
  reflexivity.
Qed.

Lemma uint256_bits_spec x : wf256 x -> uint256_bits x = Some (bitlen (val256 x)).
Proof.
  intros [Hu Hl]. unfold uint256_bits, val256. rewrite uint128_to_bool_val by assumption.
  pose proof (val128_range _ Hu). pose proof (val128_range _ Hl).
  destruct (Z.eqb_spec (val128 (upper256 x)) 0) as [E|Hnz]; cbn [negb].
  - rewrite count_shifts128_spec, E by (assumption || lia). do 2 f_equal.
  - rewrite count_shifts128_spec by (assumption || lia).
    rewrite bitlen_halves by (unfold fits; lia). reflexivity.
Qed.

Lemma uint256_bytes_spec x :
  wf256 x -> uint256_bytes x = Some ((bitlen (val256 x) + 7) / 8).
Proof.
  intros Hx. unfold uint256_bytes. rewrite uint256_lnot_val by assumption.
  pose proof (val256_range x Hx) as Rx.
  pose proof (bitlen_bound 256 (val256 x) ltac:(lia) Rx) as Hb.
  destruct (Z.eqb_spec (val256 x) 0) as [->|Hnz]; [reflexivity|].
  rewrite uint256_bits_spec by assumption. cbn [mbind option_bind].
  assert (bitlen (val256 x) <> 0).
  { unfold bitlen. destruct (Z.eqb_spec (val256 x) 0); [lia|]. pose proof (Z.log2_nonneg (val256 x)). lia. }
  destruct (Z.eqb_spec (bitlen (val256 x)) 0); [lia|]. f_equal.
  rewrite (wrapU_id 16 (_ - 1)) by (unfold fits; lia).
  rewrite Z.rem_mod_nonneg, Z.quot_div_nonneg by lia. unfold wrapU. lia.
Qed.

(** ** Facts: division *)

Section Divide.
Context (left right : uint256) (Hleft : wf256 left) (Hright : wf256 right) (Hnz : 0 < val256 right).

(** The loop invariant: with the divisor shifted [k] places, the quotient found so far is a
    multiple of 2^(k+1) and the remainder is below twice the shifted divisor. *)
Record div_state (k : Z) (s : division256) : Prop := {
  dv_k : 0 <= k <= 255;
  dv_copyd : wf256 (div_copyd s) /\ val256 (div_copyd s) = val256 right * 2 ^ k;
  dv_adder : wf256 (div_adder s) /\ val256 (div_adder s) = 2 ^ k;
  dv_first : exists q, val256 (div_first s) = q * 2 ^ (k + 1);
  dv_second : val256 (div_second s) < 2 * (val256 right * 2 ^ k) }.

Definition div_inv (s : division256) : Prop :=
  wf256 (div_first s) /\ wf256 (div_second s) /\
  val256 left = val256 (div_first s) * val256 right + val256 (div_second s) /\
  (val256 (div_second s) < val256 right \/ exists k, div_state k s).

Lemma shr_one_spec v n : wf256 v -> val256 v = n ->
  wf256 (uint256_shr_assign v (uint256_of_int 1)) /\
  val256 (uint256_shr_assign v (uint256_of_int 1)) = n / 2.
Proof.
  intros Hv <-. destruct (uint256_shr_spec v (uint256_of_int 1) Hv (uint256_of_int_wf 1)) as [W V].
  split; [exact W|]. etransitivity; [exact V|]. rewrite uint256_of_nat_val by lia. reflexivity.
Qed.

Lemma pow_half v k : 0 < k -> v * 2 ^ k / 2 = v * 2 ^ (k - 1).
Proof.
  intros Hk. replace (2 ^ k) with (2 * 2 ^ (k - 1)) by (rewrite <- Z.pow_succ_r by lia; f_equal; lia).
  replace (v * (2 * 2 ^ (k - 1))) with (v * 2 ^ (k - 1) * 2) by ring. apply Z.div_mul. lia.
Qed.

Lemma divide256_halve_spec k s :
  0 < k <= 255 -> wf256 (div_copyd s) -> val256 (div_copyd s) = val256 right * 2 ^ k ->
  wf256 (div_adder s) -> val256 (div_adder s) = 2 ^ k ->
  (exists q, val256 (div_first s) = q * 2 ^ k) ->
  val256 (div_second s) < val256 right * 2 ^ k -> div_state (k - 1) (divide256_halve s).
Proof.
  intros Hk Wc Vc Wa Va Hq Hs. destruct (shr_one_spec _ _ Wc Vc) as [Wc' Vc'].
  destruct (shr_one_spec _ _ Wa Va) as [Wa' Va']. rewrite pow_half in Vc' by lia.
  rewrite <- (Z.mul_1_l (2 ^ k)), pow_half, Z.mul_1_l in Va' by lia.
  split; unfold divide256_halve; cbn [div_copyd div_adder div_first div_second].
  - lia.
  - now split.
  - now split.
  - now replace (k - 1 + 1) with k by lia.
  - replace (2 ^ k) with (2 * 2 ^ (k - 1)) in Hs by (rewrite <- Z.pow_succ_r by lia; f_equal; lia). lia.
Qed.

Lemma divide256_take_spec k s :
  div_state k s -> wf256 (div_first s) -> wf256 (div_second s) ->
  val256 left = val256 (div_first s) * val256 right + val256 (div_second s) ->
  exists t, divide256_round s = divide256_halve t /\
    wf256 (div_first t) /\ wf256 (div_second t) /\
    val256 left = val256 (div_first t) * val256 right + val256 (div_second t) /\
    div_copyd t = div_copyd s /\ div_adder t = div_adder s /\
    (exists q, val256 (div_first t) = q * 2 ^ k) /\ val256 (div_second t) < val256 right * 2 ^ k.
Proof using Hright Hnz.
  intros [Hk [Wc Vc] [Wa Va] [q Hq] Hs] Wf Ws Heq. unfold divide256_round.
  rewrite uint256_ge_val, Vc by assumption.
  assert (P : 2 ^ (k + 1) = 2 * 2 ^ k) by (rewrite <- Z.pow_succ_r by lia; f_equal; lia).
  destruct (Z.leb_spec (val256 right * 2 ^ k) (val256 (div_second s))).
  - eexists. split; [reflexivity|]. cbn [div_copyd div_adder div_first div_second].
    destruct (uint256_bitwise_spec _ _ Wf Wa) as (_ & [Wo Vo] & _).
    destruct (uint256_sub_spec _ _ Ws Wc) as [Wd Vd].
    pose proof (val256_range _ Ws) as Rs. pose proof (val256_range _ Wc) as Rc.
    rewrite Z.mod_small in Vd by lia.
    rewrite Hq, Va, lor_halves in Vo.
    2: lia.
    2: { unfold fits. rewrite P. pose proof (Z.pow_pos_nonneg 2 k). lia. }
    split; [exact Wo|]. split; [exact Wd|].
    change (uint256_or_assign (div_first s) (div_adder s)) with (uint256_or (div_first s) (div_adder s)).
    unfold uint256_sub_assign. rewrite Vo, Vd, Vc.
    split; [rewrite Heq, Hq; ring|]. split; [reflexivity|]. split; [reflexivity|].
    split; [exists (2 * q + 1); rewrite P; ring | lia].
  - exists s. split; [reflexivity|]. do 3 (split; [assumption|]). do 2 (split; [reflexivity|]).
    split; [exists (2 * q); rewrite Hq, P; ring | lia].
Qed.

Definition div_measure (s : division256) : nat :=
  if val256 (div_second s) <? val256 right then O else Z.to_nat (Z.log2 (val256 (div_adder s)) + 1).

Lemma divide256_round_spec s :
  div_inv s -> uint256_ge (div_second s) right = true ->
  div_inv (divide256_round s) /\ (div_measure (divide256_round s) < div_measure s)%nat.
Proof using Hright Hnz.
  intros (Wf & Ws & Heq & Hcase) Hc. rewrite uint256_ge_val in Hc by assumption.
  destruct Hcase as [Hlt|[k Hk]]; [lia|].
  destruct (divide256_take_spec k s Hk Wf Ws Heq) as (t & -> & Wft & Wst & Heqt & Ec & Ea & Hq & Hlt).
  destruct Hk as [Hk0 [Wc Vc] [Wa Va] _ _]. unfold div_measure at 2. rewrite Va, Z.log2_pow2 by lia.
  destruct (Z.ltb_spec (val256 (div_second s)) (val256 right)); [lia|].
  unfold div_inv, div_measure. cbn [divide256_halve div_first div_second].
  destruct (Z.eq_dec k 0) as [->|Hpos].
  - rewrite Z.pow_0_r, Z.mul_1_r in Hlt.
    destruct (Z.ltb_spec (val256 (div_second t)) (val256 right)); [|lia].
    split; [|lia]. do 3 (split; [assumption|]). left. assumption.
  - assert (S : div_state (k - 1) (divide256_halve t)).
    { apply divide256_halve_spec; rewrite ?Ec, ?Ea; try assumption; lia. }
    split; [do 3 (split; [assumption|]); right; now exists (k - 1)|].
    destruct S as [_ _ [_ Va'] _ _]. rewrite Va', Z.log2_pow2 by lia.
    destruct (val256 (div_second t) <? val256 right); lia.
Qed.

Lemma divide256_start :
  val256 right <= val256 left ->
  let shift := bitlen (val256 left) - bitlen (val256 right) in
  let copyd := uint256_shl right (uint256_of_int shift) in
  let adder := uint256_shl (uint256_of_int 1) (uint256_of_int shift) in
  let s := mk_division256 uint256_min left copyd adder in
  let s := if uint256_gt copyd (div_second s) then divide256_halve s else s in
  div_inv s /\ (div_measure s <= 256)%nat.
Proof using Hleft Hright Hnz.
  intros Hle shift. cbv zeta. pose proof (val256_range _ Hleft) as Rl.
  pose proof (bitlen_bound 256 (val256 left) ltac:(lia) Rl) as Bl.
  pose proof (bitlen_mono (val256 right) (val256 left) ltac:(lia)) as Bm.
  pose proof (bitlen_lower (val256 right) Hnz) as Lr. pose proof (bitlen_spec (val256 right)) as Ur.
  pose proof (bitlen_spec (val256 left)) as Ul.
  assert (Br : 1 <= bitlen (val256 right)).
  { rewrite bitlen_half by lia. pose proof (bitlen_nonneg (val256 right / 2)). lia. }
  assert (Hsh : 0 <= shift <= 255) by (unfold shift; lia).
  assert (P0 : 0 < 2 ^ shift) by (apply Z.pow_pos_nonneg; lia).
  assert (P1 : 2 ^ bitlen (val256 left) = 2 ^ bitlen (val256 right) * 2 ^ shift).
  { rewrite <- Z.pow_add_r by (unfold shift; lia). f_equal. unfold shift. lia. }
  assert (P2 : 2 ^ bitlen (val256 right) = 2 * 2 ^ (bitlen (val256 right) - 1)).
  { rewrite <- Z.pow_succ_r by lia. f_equal. lia. }
  assert (P3 : 2 ^ bitlen (val256 left) <= 2 ^ 256) by (apply Z.pow_le_mono_r; lia).
  assert (P4 : 2 ^ shift < 2 ^ 256) by (apply Z.pow_lt_mono_r; lia).
  assert (Hcd : 0 <= val256 right * 2 ^ shift < 2 ^ 256) by nia.
  assert (Hup : val256 left < 2 * (val256 right * 2 ^ shift)) by nia.
  destruct (uint256_shl_spec right (uint256_of_int shift) Hright (uint256_of_int_wf _)) as [Wc Vc].
  destruct (uint256_shl_spec _ (uint256_of_int shift) (uint256_of_int_wf 1) (uint256_of_int_wf _)) as [Wa Va].
  rewrite uint256_of_nat_val in Vc by lia.
  rewrite (uint256_of_nat_val 1), (uint256_of_nat_val shift), Z.mul_1_l in Va by lia.
  rewrite Z.mod_small in Vc by exact Hcd. rewrite Z.mod_small in Va by (split; [lia | exact P4]).
  rewrite uint256_gt_val, Vc by assumption. cbn [div_second].
  destruct uint256_min_val as [W0 V0].
  assert (M : forall s k, div_state k s -> (div_measure s <= 256)%nat).
  { intros s k [Hk _ [_ Vk] _ _]. unfold div_measure. rewrite Vk, Z.log2_pow2 by lia. case_cmp; lia. }
  assert (S : div_state (if val256 left <? val256 right * 2 ^ shift then shift - 1 else shift)
    (if val256 left <? val256 right * 2 ^ shift
     then divide256_halve (mk_division256 uint256_min left (uint256_shl right (uint256_of_int shift))
                             (uint256_shl (uint256_of_int 1) (uint256_of_int shift)))
     else mk_division256 uint256_min left (uint256_shl right (uint256_of_int shift))
                             (uint256_shl (uint256_of_int 1) (uint256_of_int shift)))).
  { destruct (Z.ltb_spec (val256 left) (val256 right * 2 ^ shift)).
    - apply divide256_halve_spec; cbn [div_copyd div_adder div_first div_second]; try assumption.
      + destruct (Z.eq_dec shift 0) as [E|]; [|lia].
        assert (E1 : 2 ^ shift = 1) by (rewrite E; reflexivity). rewrite E1 in *. lia.
      + exists 0. rewrite V0. lia.
    - split; cbn [div_copyd div_adder div_first div_second]; auto; try lia.
      exists 0. rewrite V0. lia. }
  split; [|eapply M; exact S]. unfold div_inv.
  destruct (val256 left <? val256 right * 2 ^ shift); cbn [divide256_halve div_first div_second];
    (split; [exact W0|]; split; [exact Hleft|]; split; [rewrite V0; lia|]; right; eexists; exact S).
Qed.

End Divide.

Lemma uint256_divide_spec left right :
  wf256 left -> wf256 right -> val256 right <> 0 ->
  exists q r, uint256_divide left right = Some (q, r) /\ wf256 q /\ wf256 r /\
              val256 q = val256 left / val256 right /\ val256 r = val256 left mod val256 right.
Proof.
  intros Hl Hr Hnz. unfold uint256_divide.
  pose proof (val256_range left Hl) as Rl. pose proof (val256_range right Hr) as Rr.
  destruct uint256_min_val as [W0 V0]. pose proof (uint256_of_int_wf 1) as W1.
  assert (V1 : val256 (uint256_of_int 1) = 1) by (apply uint256_of_nat_val; lia).
  rewrite !uint256_eq_val, uint256_lt_val, V0, V1 by assumption.
  destruct (Z.eqb_spec (val256 right) 0); [lia|].
  destruct (Z.eqb_spec (val256 right) 1) as [E|].
  { exists left, uint256_min. rewrite V0, E, Z.div_1_r, Z.mod_1_r. auto. }
  destruct (Z.eqb_spec (val256 left) (val256 right)) as [E|].
  { exists (uint256_of_int 1), uint256_min. rewrite V0, V1, E, Z.div_same, Z.mod_same by lia. auto. }
  destruct ((val256 left =? 0) || (val256 left <? val256 right)) eqn:Hc.
  { exists uint256_min, left. rewrite V0, Z.div_small, Z.mod_small by lia. auto. }
  rewrite !uint256_bits_spec by assumption. cbn [mbind option_bind].
  destruct (divide256_start left right Hl Hr ltac:(lia) ltac:(lia)) as [HI Hm].
  edestruct (whileM_rule (div_inv left right) (div_measure right)
    (fun s => uint256_ge (div_second s) right) (fun s => Some (divide256_round s)) 256)
    as (s & E & (Wf & Ws & Heq & _) & Hcond); [exact HI | exact Hm | |].
  { intros s Hs Hcs. exists (divide256_round s). split; [reflexivity|].
    now apply divide256_round_spec; [|lia|..]. }
  rewrite E. cbn [mbind option_bind]. rewrite uint256_ge_val in Hcond by assumption.
  pose proof (val256_range _ Ws) as Rs. exists (div_first s), (div_second s).
  split; [reflexivity|]. split; [exact Wf|]. split; [exact Ws|]. split.
  - apply Z.div_unique with (val256 (div_second s)); lia.
  - apply Z.mod_unique with (val256 (div_first s)); lia.
Qed.

(** ** The interface *)

#[export] Instance uint256_fixed : FixedUInt uint256 := {
  fu_width := 256; fu_wf := wf256; fu_val := val256; fu_of_int := uint256_of_int;
  fu_to_bool := uint256_to_bool; fu_to_uint8 := uint256_to_uint8;
  fu_add_assign := uint256_add_assign; fu_mul_assign := uint256_mul_assign;
  fu_divide := uint256_divide }.

Lemma uint256_to_uint8_val x : wf256 x -> uint256_to_uint8 x = val256 x mod 256.
Proof.
  intros [Hu Hl]. unfold uint256_to_uint8, val256. rewrite uint128_to_uint8_val by assumption. lia.
Qed.

#[export] Instance uint256_laws : FixedUIntLaws uint256.
Proof.
  split; cbn [fu_width fu_wf fu_val fu_of_int fu_to_bool fu_to_uint8 fu_add_assign fu_mul_assign
              fu_divide uint256_fixed].
  - lia.
  - exact val256_range.
  - exact val256_inj.
  - exact uint256_of_int_wf.
  - exact uint256_of_nat_val.
  - exact uint256_to_bool_val.
  - exact uint256_to_uint8_val.
  - intros x y Hx Hy. rewrite uint256_add_assign_eq by assumption. now apply uint256_add_spec.
  - exact uint256_mul_spec.
  - exact uint256_divide_spec.
Qed.

(** ** Facts: bytes *)
Lemma uint256_encode_halves x :
  uint256_encode x = uint128_encode (upper256 x) ++ uint128_encode (lower256 x).
Proof.
  unfold uint256_encode, uint128_encode, store64. cbn [flat_map].
  now rewrite !app_nil_r, <- !app_assoc.
Qed.

Lemma load64_app_left a b i : (8 * i + 8 <= length a)%nat -> load64 (a ++ b) i = load64 a i.
Proof.
  intros H. unfold load64. rewrite skipn_app, firstn_app, length_skipn.
  replace (8 - (length a - 8 * i))%nat with O by lia. now rewrite firstn_O, app_nil_r.
Qed.

Lemma load64_app_right a b i : length a = 16%nat -> load64 (a ++ b) (2 + i) = load64 b i.
Proof.
  intros H. unfold load64. rewrite skipn_app, H, skipn_all2 by lia. cbn [app].
  now replace (8 * (2 + i) - 16)%nat with (8 * i)%nat by lia.
Qed.

Lemma uint256_decode_app a b :
  length a = 16%nat -> uint256_decode (a ++ b) = mk_uint256 (uint128_decode a) (uint128_decode b).
Proof.
  intros H. unfold uint256_decode, uint128_decode. rewrite !load64_app_left by lia.
  change (load64 (a ++ b) 2) with (load64 (a ++ b) (2 + 0)).
  change (load64 (a ++ b) 3) with (load64 (a ++ b) (2 + 1)). now rewrite !load64_app_right.
Qed.

Lemma uint256_decode_encode x : wf256 x -> uint256_decode (uint256_encode x) = x.
Proof.
  destruct x as [u l]. intros [Hu Hl]. cbn [upper256 lower256] in *.
  rewrite uint256_encode_halves, uint256_decode_app by (apply uint128_encode_val, Hu).
  cbn [upper256 lower256]. now rewrite !uint128_decode_encode.
Qed.

Lemma uint256_encode_val x :
  wf256 x -> bytes (uint256_encode x) /\ length (uint256_encode x) = 32%nat /\
             be_val 256 (uint256_encode x) = val256 x.
Proof.
  intros [Hu Hl]. rewrite uint256_encode_halves.
  destruct (uint128_encode_val _ Hu) as (Bu & Lu & Vu), (uint128_encode_val _ Hl) as (Bl & Ll & Vl).
  split; [now apply digits_app|]. split; [now rewrite length_app, Lu, Ll|].
  rewrite be_val_app, Vu, Vl, Ll. reflexivity.
Qed.

Lemma uint256_decode_val data :
  bytes data -> length data = 32%nat ->
  wf256 (uint256_decode data) /\ val256 (uint256_decode data) = be_val 256 data.
Proof.
  intros Hb Hl. rewrite <- (firstn_skipn 16 data) in Hb |- *. apply digits_app in Hb as [Ha Hb].
  assert (La : length (firstn 16 data) = 16%nat) by (rewrite length_firstn; lia).
  assert (Lb : length (skipn 16 data) = 16%nat) by (rewrite length_skipn; lia).
  destruct (uint128_decode_val _ Ha La) as [Wa Va], (uint128_decode_val _ Hb Lb) as [Wb Vb].
  rewrite uint256_decode_app by assumption. unfold val256. cbn [upper256 lower256].
  split; [now split|]. rewrite Va, Vb, be_val_app, Lb. reflexivity.
Qed.

Lemma uint256_compact_spec x :
  wf256 x ->
  exists data, uint256_encode_compact x = Some data /\ bytes data /\
    Z.of_nat (length data) = (bitlen (val256 x) + 7) / 8 /\ be_val 256 data = val256 x.
Proof.
  intros Hx. unfold uint256_encode_compact. rewrite uint256_bytes_spec by assumption.
  cbn [mbind option_bind]. destruct (uint256_encode_val x Hx) as (Hb & Hl & Hv).
  pose proof (val256_range x Hx) as Rx.
  pose proof (bitlen_bound 256 (val256 x) ltac:(lia) Rx) as Hbl.
  set (size := (bitlen (val256 x) + 7) / 8) in *.
  assert (Hs : 0 <= size <= 32) by (subst size; lia).
  rewrite firstn_all2 by (rewrite length_skipn, Hl; lia). eexists. split; [reflexivity|].
  split; [now apply digits_skipn|]. rewrite length_skipn, Hl. split; [lia|].
  rewrite be_val_skipn, Hv; [reflexivity|lia|assumption|]. rewrite Hl, Hv.
  replace (32 - (32 - Z.to_nat size))%nat with (Z.to_nat size) by lia. rewrite Z2Nat.id by lia.
  change 256 with (2 ^ 8). rewrite <- Z.pow_mul_r by lia.
  eapply Z.lt_le_trans; [apply bitlen_spec; lia|]. apply Z.pow_le_mono_r; lia.
Qed.

(** ** Facts: text *)

Definition digit36 (d : Z) : Z := at_table alphabet36 d.

Lemma char_digit_digit36 d : 0 <= d < 36 -> char_digit (digit36 d) = d.
Proof. intros Hd. apply Z.eqb_eq. by_range d 36. Qed.

Lemma digit16_36 d : 0 <= d < 16 -> digit16 d = digit36 d.
Proof. intros Hd. apply Z.eqb_eq. by_range d 16. Qed.

Lemma map_digit16_36 ds : digits 16 ds -> map digit16 ds = map digit36 ds.
Proof.
  induction ds as [|d ds IH]; intros H; [reflexivity|]. apply digits_cons in H as [Hd H].
  cbn [map]. now rewrite digit16_36, IH.
Qed.

Lemma char_digit_range c : 0 <= char_digit c < 36.
Proof.
  unfold char_digit, wrapU. destruct ((48 <=? c) && (c <=? 57)) eqn:E1; [lia|].
  destruct ((97 <=? c) && (c <=? 122)) eqn:E2; lia.
Qed.

Lemma text_fold256 base text s p :
  0 <= base < 256 -> wf256 s -> wf256 p ->
  let r := fold_left (text_round256 base) text (s, p) in
  wf256 (fst r) /\
  val256 (fst r) = (val256 s + val256 p * le_val base (map char_digit text)) mod 2 ^ 256.
Proof.
  intros Hb. revert s p. induction text as [|c text IH]; intros s p Hs Hp; cbv zeta.
  - cbn [fold_left fst map le_val]. split; [assumption|]. rewrite Z.mul_0_r, Z.add_0_r.
    symmetry. apply Z.mod_small. now apply val256_range.
  - cbn [fold_left map le_val]. pose proof (char_digit_range c) as Rc.
    unfold text_round256 at 2 4. cbn [fst snd].
    destruct (uint256_mul_spec p (uint256_of_int (char_digit c)) Hp (uint256_of_int_wf _)) as [W1 V1].
    destruct (uint256_mul_spec p (uint256_of_int base) Hp (uint256_of_int_wf _)) as [W2 V2].
    destruct (uint256_add_spec s _ Hs W1) as [W3 V3].
    change (int_mul_uint256 (char_digit c) p) with (uint256_mul p (uint256_of_int (char_digit c))).
    change (uint256_mul_assign_int p base) with (uint256_mul p (uint256_of_int base)).
    rewrite uint256_add_assign_eq by assumption.
    destruct (IH _ _ W3 W2) as [W V]. split; [exact W|]. rewrite V, V3, V1, V2.
    rewrite !uint256_of_nat_val by lia.
    rewrite Z.add_mod_idemp_l, !(Z.mod_eq (_ * _)) by lia.
    match goal with |- ?l mod _ = ?r mod _ =>
      replace l with (r + (- (val256 p * char_digit c / 2 ^ 256)
                           - val256 p * base / 2 ^ 256 * le_val base (map char_digit text)) * 2 ^ 256) by ring
    end. apply Z.mod_add. lia.
Qed.

(** The text constructor reads any text: the positional value of the character digits, a character
    that is no digit counting as zero, modulo 2^256. *)
Lemma uint256_of_text_val self text base :
  0 <= base < 256 ->
  wf256 (uint256_of_text_base self text base) /\
  val256 (uint256_of_text_base self text base) = be_val base (map char_digit text) mod 2 ^ 256.
Proof.
  intros Hb. unfold uint256_of_text_base.
  assert (W0 : wf256 (uint256_assign_int self 0)).
  { split; [apply uint128_of_int_wf | apply wf128_mk; [apply fits_0; lia | apply fits_wrapU; lia]]. }
  destruct (text_fold256 base (rev text) _ (uint256_of_int 1) Hb W0 (uint256_of_int_wf 1)) as [W V].
  split; [exact W|]. rewrite V, uint256_of_nat_val by lia.
  rewrite be_val_rev, map_rev, Z.mul_1_l. reflexivity.
Qed.

Lemma map_char_digit ds : digits 36 ds -> map char_digit (map digit36 ds) = ds.
Proof.
  induction ds as [|d ds IH]; intros H; [reflexivity|]. apply digits_cons in H as [Hd H].
  cbn [map]. now rewrite char_digit_digit36, IH.
Qed.

(** [to_string] without padding writes the numeral of the value. *)
Lemma uint256_to_string_spec x base :
  wf256 x -> 2 <= base <= 36 ->
  exists ds, uint256_to_string x base 0 = Some (map digit36 ds) /\ digits base ds /\
             be_val base ds = val256 x /\ (ds = [0] \/ no_leading_zero ds).
Proof.
  intros Hx Hb. unfold uint256_to_string. rewrite uint256_lnot_val by assumption.
  destruct (Z.eqb_spec (val256 x) 0) as [E0|Hnz].
  { exists [0]. rewrite E0. split; [reflexivity|]. split; [apply digits_cons; split; [lia|constructor]|].
    auto. }
  destruct (Z.eqb_spec base 16) as [->|].
  - rewrite uint256_bytes_spec by assumption. cbn [mbind option_bind].
    change (store64 [to_endianness_big (upper128 (upper256 x)); to_endianness_big (lower128 (upper256 x));
      to_endianness_big (upper128 (lower256 x)); to_endianness_big (lower128 (lower256 x))])
      with (uint256_encode x).
    destruct (uint256_compact_spec x Hx) as (data & E & Hbd & Hl & Hv).
    unfold uint256_encode_compact in E. rewrite uint256_bytes_spec in E by assumption.
    cbn [mbind option_bind] in E. pose proof (val256_range x Hx) as Rx.
    pose proof (bitlen_bound 256 (val256 x) ltac:(lia) Rx) as Hbl.
    set (size := (bitlen (val256 x) + 7) / 8) in *.
    destruct (uint256_encode_val x Hx) as (_ & Hel & _).
    rewrite firstn_all2 in E by (rewrite length_skipn, Hel; lia). injection E as E. rewrite E.
    destruct (nibbles_spec data Hbd) as (Hnd & Hnl & Hnv & ->).
    unfold pad_zeros. rewrite length_map, Hnl.
    replace (Z.to_nat (Z.max 0 (size * 2)) - 2 * length data)%nat with O by lia.
    cbn [repeat]. rewrite app_nil_r, erase_zeros_digits by (assumption || lia).
    destruct (strip_zeros_spec 16 _ Hnd) as (Hsd & Hsv & Hsz). rewrite Hnv, Hv in Hsv.
    exists (strip_zeros (nibbles data)). rewrite map_digit16_36 by assumption. auto.
  - destruct (fu_digits_spec (HF := uint256_fixed) alphabet36 base 257 x)
      as (y & ds & E & Hd & Hv & Hz & Hne); [cbn; lia.. | exact Hx | exact Hnz | cbn; lia |].
    change (do_whileM 257 (digit_round256 base)
              (fun s : uint256 * list Z => uint256_to_bool (fst s)) (x, []) =
            Some (y, map digit36 ds)) in E.
    rewrite E. cbn [mbind option_bind snd]. unfold pad_zeros. change (Z.to_nat 0) with O.
    cbn [Nat.sub repeat]. rewrite app_nil_r, <- map_rev. exists (rev ds).
    split; [reflexivity|]. split; [auto with vitex|]. rewrite be_val_rev, rev_involutive. auto.
Qed.

(** ** Properties *)

(** The arithmetic operators refine arithmetic modulo 2^256: on well-formed operands [+],
    [-], [*], unary [-] and [~] return well-formed values that stand for the sum, difference,
    product, negation and complement reduced modulo 2^256; [+=] computes what [+] does, and
    increment and decrement return the old value and leave its neighbour. *)
Theorem uint256_ring (x y : uint256) :
  wf256 x -> wf256 y ->
  (wf256 (uint256_add x y) /\ val256 (uint256_add x y) = (val256 x + val256 y) mod 2 ^ 256) /\
  (wf256 (uint256_sub x y) /\ val256 (uint256_sub x y) = (val256 x - val256 y) mod 2 ^ 256) /\
  (wf256 (uint256_mul x y) /\ val256 (uint256_mul x y) = (val256 x * val256 y) mod 2 ^ 256) /\
  (wf256 (uint256_neg x) /\ val256 (uint256_neg x) = (- val256 x) mod 2 ^ 256) /\
  (wf256 (uint256_not x) /\ val256 (uint256_not x) = 2 ^ 256 - 1 - val256 x) /\
  uint256_add_assign x y = uint256_add x y /\
  (fst (uint256_post_inc x) = x /\ val256 (snd (uint256_post_inc x)) = (val256 x + 1) mod 2 ^ 256) /\
  (fst (uint256_post_dec x) = x /\ val256 (snd (uint256_post_dec x)) = (val256 x - 1) mod 2 ^ 256).
Proof.
  intros Hx Hy. pose proof (uint256_of_int_wf 1) as W1.
  assert (V1 : val256 (uint256_of_int 1) = 1) by (apply uint256_of_nat_val; lia).
  split; [now apply uint256_add_spec|]. split; [now apply uint256_sub_spec|].
  split; [now apply uint256_mul_spec|]. split; [now apply uint256_neg_spec|].
  split; [now apply uint256_not_spec|]. split; [now apply uint256_add_assign_eq|].
  split; (split; [reflexivity|]); cbn [snd uint256_post_inc uint256_post_dec].
  - unfold uint256_pre_inc. rewrite uint256_add_assign_eq, <- V1 by assumption. now apply uint256_add_spec.
  - unfold uint256_pre_dec, uint256_sub_assign. rewrite <- V1. now apply uint256_sub_spec.
Qed.

Lemma uint256_ring_witness :
  val256 (uint256_mul (uint256_of_int 12) (uint256_of_int 7)) =
  val256 (uint256_of_int 12) * val256 (uint256_of_int 7) mod 2 ^ 256.
Proof.
  refine (proj2 (proj1 (proj2 (proj2 (uint256_ring (uint256_of_int 12) (uint256_of_int 7) _ _)))));
    apply uint256_of_int_wf.
Defined.

(** Shifts, bitwise operators and comparisons on the number a value stands for.  [<<] is exact
    for every count; [>>] divides by the power of two for counts below 128 and returns zero from
    128 on, although the operand has 256 bits. *)
Theorem uint256_bit_operators (x y : uint256) :
  wf256 x -> wf256 y ->
  (wf256 (uint256_shl x y) /\ val256 (uint256_shl x y) = (val256 x * 2 ^ val256 y) mod 2 ^ 256) /\
  (wf256 (uint256_shr x y) /\
   val256 (uint256_shr x y) = if val256 y <? 128 then val256 x / 2 ^ val256 y else 0) /\
  (wf256 (uint256_and x y) /\ val256 (uint256_and x y) = Z.land (val256 x) (val256 y)) /\
  (wf256 (uint256_or x y) /\ val256 (uint256_or x y) = Z.lor (val256 x) (val256 y)) /\
  (wf256 (uint256_xor x y) /\ val256 (uint256_xor x y) = Z.lxor (val256 x) (val256 y)) /\
  uint256_eq x y = (val256 x =? val256 y) /\ uint256_ne x y = negb (val256 x =? val256 y) /\
  uint256_lt x y = (val256 x <? val256 y) /\ uint256_gt x y = (val256 y <? val256 x) /\
  uint256_le x y = (val256 x <=? val256 y) /\ uint256_ge x y = (val256 y <=? val256 x).
Proof.
  intros Hx Hy. destruct (uint256_bitwise_spec x y Hx Hy) as (HA & HO & HX).
  split; [now apply uint256_shl_spec|]. split; [now apply uint256_shr_spec|].
  do 3 (split; [assumption|]).
  rewrite uint256_eq_val, uint256_ne_val, uint256_lt_val, uint256_gt_val, uint256_le_val,
    uint256_ge_val by assumption. auto 10.
Qed.

Lemma uint256_bit_operators_witness :
  val256 (uint256_shr uint256_max (uint256_of_int 200)) =
  if val256 (uint256_of_int 200) <? 128 then val256 uint256_max / 2 ^ val256 (uint256_of_int 200) else 0.
Proof.
  refine (proj2 (proj1 (proj2 (uint256_bit_operators uint256_max (uint256_of_int 200) _ _))));
    [split; apply wf128_mk; unfold fits; vm_compute; split; congruence | apply uint256_of_int_wf].
Defined.

(** The shift-and-subtract loop of [divide] ends and finds quotient and remainder of Euclidean
    division; [/] returns that quotient and [%], computed by multiplying back, that remainder.  For
    a zero divisor [divide] gives the pair (0, 0) and [%] the dividend. *)
Theorem uint256_divide_correct (left right : uint256) :
  wf256 left -> wf256 right ->
  exists q r m, uint256_divide left right = Some (q, r) /\ wf256 q /\ wf256 r /\
    uint256_div left right = Some q /\ uint256_mod left right = Some m /\ wf256 m /\
    (if val256 right =? 0 then val256 q = 0 /\ val256 r = 0 /\ m = left
     else val256 left = val256 q * val256 right + val256 r /\ 0 <= val256 r < val256 right /\ m = r).
Proof.
  intros Hl Hr. pose proof (val256_range left Hl) as Rl. pose proof (val256_range right Hr) as Rr.
  assert (D : exists q r, uint256_divide left right = Some (q, r) /\ wf256 q /\ wf256 r /\
    (if val256 right =? 0 then val256 q = 0 /\ val256 r = 0
     else val256 left = val256 q * val256 right + val256 r /\ 0 <= val256 r < val256 right)).
  { destruct uint256_min_val as [W0 V0]. destruct (Z.eqb_spec (val256 right) 0) as [E|Hnz].
    - unfold uint256_divide. rewrite uint256_eq_val, E, V0 by assumption. cbn [Z.eqb].
      exists uint256_min, uint256_min. auto.
    - destruct (uint256_divide_spec left right Hl Hr Hnz) as (q & r & -> & Hq & Hrm & Vq & Vr).
      exists q, r. pose proof (Z.div_mod (val256 left) (val256 right) Hnz).
      pose proof (Z.mod_pos_bound (val256 left) (val256 right)).
      do 3 (split; [auto|]). rewrite Vq, Vr. lia. }
  destruct D as (q & r & E & Hq & Hrm & D).
  destruct (uint256_mul_spec right q Hr Hq) as [Wm Vm].
  destruct (uint256_sub_spec left _ Hl Wm) as [Ws Vs].
  exists q, r, (uint256_sub left (uint256_mul right q)).
  unfold uint256_mod, uint256_div. rewrite E. cbn [fmap option_fmap option_map fst mbind option_bind].
  do 5 (split; [auto|]). split; [assumption|].
  pose proof (val256_range r Hrm). rewrite Vm in Vs.
  destruct (Z.eqb_spec (val256 right) 0) as [E0|Hnz].
  - destruct D as [D1 D2]. do 2 (split; [assumption|]). apply val256_inj; [assumption..|].
    rewrite Vs, E0, Z.mul_0_l, Z.mod_0_l, Z.sub_0_r by lia. apply Z.mod_small. lia.
  - destruct D as [D1 D2]. do 2 (split; [assumption|]). apply val256_inj; [assumption..|].
    rewrite Vs, Zminus_mod_idemp_r. rewrite D1.
    replace (val256 q * val256 right + val256 r - val256 right * val256 q) with (val256 r) by ring.
    apply Z.mod_small. lia.
Qed.

Lemma uint256_divide_correct_witness :
  exists q r m, uint256_divide uint256_max (uint256_of_int 10) = Some (q, r) /\
    uint256_mod uint256_max (uint256_of_int 10) = Some m /\
    (if val256 (uint256_of_int 10) =? 0 then val256 q = 0 /\ val256 r = 0 /\ m = uint256_max
     else val256 uint256_max = val256 q * val256 (uint256_of_int 10) + val256 r /\
          0 <= val256 r < val256 (uint256_of_int 10) /\ m = r).
Proof.
  destruct (uint256_divide_correct uint256_max (uint256_of_int 10)) as (q & r & m & E & _ & _ & _ & Em & _ & H);
    [split; apply wf128_mk; unfold fits; vm_compute; split; congruence | apply uint256_of_int_wf |].
  exists q, r, m. split; [exact E|]. split; [exact Em | exact H].
Defined.

(** Byte serialisation.  [encode] writes the thirty-two big-endian bytes of the value and
    [decode] reads them back; [encode_compact] writes exactly the bytes the value needs (none for
    zero), and [decode_compact] of those bytes is the value shifted left by the missing bytes. *)
Theorem uint256_serialisation (x : uint256) :
  wf256 x ->
  uint256_decode (uint256_encode x) = x /\ length (uint256_encode x) = 32%nat /\
  bytes (uint256_encode x) /\ be_val 256 (uint256_encode x) = val256 x /\
  exists data, uint256_encode_compact x = Some data /\ be_val 256 data = val256 x /\
    Z.of_nat (length data) = (bitlen (val256 x) + 7) / 8 /\
    val256 (uint256_decode_compact data) = val256 x * 256 ^ (32 - Z.of_nat (length data)).
Proof.
  intros Hx. destruct (uint256_encode_val x Hx) as (Hb & Hl & Hv).
  split; [now apply uint256_decode_encode|]. do 3 (split; [assumption|]).
  destruct (uint256_compact_spec x Hx) as (data & E & Hbd & Hld & Hvd).
  pose proof (bitlen_bound 256 (val256 x) ltac:(lia) (val256_range x Hx)).
  exists data. do 3 (split; [assumption|]).
  unfold uint256_decode_compact. rewrite firstn_all2 by lia.
  assert (Hz : bytes (repeat 0 (32 - length data))).
  { apply Forall_forall. intros z Hin. apply repeat_spec in Hin. lia. }
  destruct (uint256_decode_val (data ++ repeat 0 (32 - length data))) as [_ ->].
  - apply digits_app. split; assumption.
  - rewrite length_app, repeat_length. lia.
  - rewrite be_val_app, Hvd, repeat_length, be_val_rev, rev_repeat, le_val_repeat_0.
    replace (Z.of_nat (32 - length data)) with (32 - Z.of_nat (length data)) by lia. lia.
Qed.

Lemma uint256_serialisation_witness :
  uint256_decode (uint256_encode (uint256_of_int 77)) = uint256_of_int 77.
Proof. exact (proj1 (uint256_serialisation (uint256_of_int 77) (uint256_of_int_wf 77))). Defined.

(** Text.  For every base from 2 to 36 [to_string] returns a numeral of the value in that base
    without leading zeros, and the text constructor reads it back as the same value; on any text at
    all, the constructor's value is the positional value of the characters modulo 2^256, where a
    character that is no digit or lower-case letter counts as zero. *)
Theorem uint256_text_roundtrip (x self : uint256) (base : Z) :
  wf256 x -> 2 <= base <= 36 ->
  (exists ds, uint256_to_string x base 0 = Some (map digit36 ds) /\ digits base ds /\
     be_val base ds = val256 x /\ (ds = [0] \/ no_leading_zero ds) /\
     uint256_of_text_base self (map digit36 ds) base = x) /\
  (forall text, wf256 (uint256_of_text_base self text base) /\
     val256 (uint256_of_text_base self text base) = be_val base (map char_digit text) mod 2 ^ 256).
Proof.
  intros Hx Hb. split; [|intros text; apply uint256_of_text_val; lia].
  destruct (uint256_to_string_spec x base Hx Hb) as (ds & E & Hd & Hv & Hc).
  exists ds. do 4 (split; [assumption|]).
  destruct (uint256_of_text_val self (map digit36 ds) base ltac:(lia)) as [W V].
  apply val256_inj; [assumption..|]. rewrite V, map_char_digit.
  - rewrite Hv. apply Z.mod_small. now apply val256_range.
  - eapply Forall_impl; [|exact Hd]. cbn. lia.
Qed.

Lemma uint256_text_roundtrip_witness :
  exists ds, uint256_to_string (uint256_of_int 255) 36 0 = Some (map digit36 ds) /\
             uint256_of_text_base uint256_max (map digit36 ds) 36 = uint256_of_int 255.
Proof.
  destruct (uint256_text_roundtrip (uint256_of_int 255) uint256_max 36 (uint256_of_int_wf 255))
    as ((ds & E & _ & _ & _ & H) & _); [lia|]. exists ds. now split.
Defined.
