(* ===== verification/Decimal.v ===== *)
(** * Arbitrary-precision decimals ([vitex::core::decimal])

    Source: src/src/vitex/core.h (struct, the constructor from built-in integers) and
    src/src/vitex/core.cpp.  A decimal keeps its digit characters least significant first, the
    number of them that are fraction digits, and a sign character (NUL for a value that is not a
    number).  [length] is an [int32_t] the code never lets grow past the text it holds; it is an
    unbounded integer here.  Reading a [std::string] at its size gives NUL.  The conversions to and
    from floating point ([to_double], [is_safe_number], the operators with a [double]) are not
    modelled. *)

From Stdlib Require Import QArith.
From S2P Require Import Prelude Codec FixedUInt UInt128 UInt256.
Open Scope Z_scope.

Record decimal := mk_decimal { source : list Z; dlength : Z; sign : Z }.

#[export] Instance decimal_eq_dec : EqDecision decimal.
Proof. solve_decision. Defined.

(** The characters ['+'], ['-'] and ['0']. *)
Definition plus_sign : Z := 43.
Definition minus_sign : Z := 45.
Definition zero_char : Z := 48.

Definition char_to_int (value : Z) : Z := i8 value - 48.
Definition int_to_char (value : Z) : Z := u8 (value + 48).

(** [source[i]]. *)
Definition char_at (s : list Z) (i : nat) : Z := nth i s 0.
Definition size_of (d : decimal) : Z := Z.of_nat (length (source d)).

(** ** Construction *)

Definition decimal_default : decimal := mk_decimal [] 0 0.

(** [source.push_back(value)] for each character, as long as they are digits. *)
Fixpoint push_digits (text : list Z) (source : list Z) : option (list Z) :=
  match text with
  | [] => Some source
  | value :: rest => if isdigit value then push_digits rest (source ++ [value]) else None
  end.

(** [text.find('.', index)] on the text from [index] on; [None] is [npos]. *)
Fixpoint find_point (text : list Z) : option nat :=
  match text with
  | [] => None
  | c :: rest => if c =? 46 then Some O else S <$> find_point rest
  end.

Definition invalid_number : decimal := mk_decimal [] 0 0.

Definition apply_base10 (self : decimal) (text : list Z) : decimal :=
  match text with
  | [] => invalid_number
  | [value] =>
      if negb (isdigit value) then invalid_number
      else mk_decimal (source self ++ [value]) (dlength self) plus_sign
  | front :: _ =>
      let signed := (front =? plus_sign) || (front =? minus_sign) in
      if negb signed && negb (isdigit front) then invalid_number
      else
        let sign := if signed then front else plus_sign in
        let body := if signed then tail text else text in
        match find_point body with
        | None =>
            match push_digits body (source self) with
            | None => invalid_number
            | Some s => mk_decimal (rev s) (dlength self) sign
            end
        | Some position =>
            match push_digits (firstn position body) (source self) with
            | None => invalid_number
            | Some s =>
                let fraction := skipn (S position) body in
                match push_digits fraction s with
                | None => invalid_number
                | Some s => mk_decimal (rev s) (dlength self + Z.of_nat (length fraction)) sign
                end
            end
        end
  end.

Definition apply_zero (self : decimal) : decimal :=
  mk_decimal (source self ++ [zero_char]) (dlength self) plus_sign.

Definition decimal_of_text (text : list Z) : decimal := apply_base10 decimal_default text.
Definition decimal_zero : decimal := apply_zero decimal_default.
Definition decimal_nan : decimal := decimal_default.

(** [std::to_chars] of an integer: at most twenty digits and a sign. *)
Fixpoint digits10 (fuel : nat) (v : Z) : list Z :=
  match fuel with
  | O => []
  | S fuel => if v <? 10 then [v] else digits10 fuel (v / 10) ++ [v mod 10]
  end.
Definition to_chars (right : Z) : list Z :=
  (if right <? 0 then [minus_sign] else []) ++ map (fun d => 48 + d) (digits10 20 (Z.abs right)).

Definition decimal_of_int (right : Z) : decimal :=
  if negb (right =? 0) then apply_base10 decimal_default (to_chars right)
  else apply_zero decimal_default.

(** ** Queries *)

Definition is_nan (d : decimal) : bool := sign d =? 0.
Definition is_zero (d : decimal) : bool := forallb (fun item => item =? zero_char) (source d).
Definition is_zero_or_nan (d : decimal) : bool := is_nan d || is_zero d.
Definition is_integer (d : decimal) : bool := dlength d =? 0.
Definition is_fractional (d : decimal) : bool := 0 <? dlength d.
Definition decimal_size (d : decimal) : Z := u32 (dlength d).
Definition integer_size (d : decimal) : Z :=
  let total_length := u32 (size_of d) in
  let decimal_length := u32 (dlength d) in
  if decimal_length <? total_length then Z.max 1 (u32 (total_length - decimal_length)) else 1.
Definition position (d : decimal) : Z :=
  if sign d =? plus_sign then 1 else if sign d =? minus_sign then -1 else 0.

(** ** Padding and trimming *)

(** [length++; source.insert(0, 1, '0')] and [length--; source.erase(0, 1)]. *)
Definition push_zero (d : decimal) : decimal :=
  mk_decimal (zero_char :: source d) (dlength d + 1) (sign d).
Definition drop_digit (d : decimal) : decimal :=
  mk_decimal (tail (source d)) (dlength d - 1) (sign d).

(** [while (length < n)] padding and [while (length > n)] dropping. *)
Definition pad_to (n : Z) (d : decimal) : decimal :=
  Nat.iter (Z.to_nat (n - dlength d)) push_zero d.
Definition drop_to (n : Z) (d : decimal) : decimal :=
  Nat.iter (Z.to_nat (dlength d - n)) drop_digit d.

Definition truncate (precision : Z) (d : decimal) : decimal :=
  if is_nan d then d
  else
    let new_precision := i32 precision in
    if dlength d <? new_precision then pad_to new_precision d
    else if new_precision <? dlength d then drop_to new_precision d
    else d.

(** [unlead]: the loop runs down from the last character, the most significant digit, so over the
    reversed source; the rest of the list has the length of the index. *)
Fixpoint unlead_loop (rsource : list Z) (dlen : Z) : list Z :=
  match rsource with
  | c :: rest =>
      if (dlen <? Z.of_nat (length rest)) && (c =? zero_char) then unlead_loop rest dlen else rsource
  | [] => []
  end.
Definition unlead (d : decimal) : decimal :=
  mk_decimal (rev (unlead_loop (rev (source d)) (dlength d))) (dlength d) (sign d).

Fixpoint untrail_loop (source : list Z) (dlen : Z) : list Z * Z :=
  match source with
  | c :: rest => if (c =? zero_char) && (0 <? dlen) then untrail_loop rest (dlen - 1) else (source, dlen)
  | [] => ([], dlen)
  end.
Definition untrail (d : decimal) : decimal :=
  if is_nan d || bool_decide (source d = []) then d
  else let '(s, n) := untrail_loop (source d) (dlength d) in mk_decimal s n (sign d).

Definition trim (d : decimal) : decimal := untrail (unlead d).

(** ** Digit arithmetic *)

(** [i > source.size() - 1] on [size_t]: false for every index when the source is empty. *)
Definition beyond (s : list Z) (i : nat) : bool := u64 (Z.of_nat (length s) - 1) <? Z.of_nat i.
Definition digit_at (s : list Z) (i : nat) : Z := if beyond s i then 0 else char_to_int (char_at s i).

(** The loop of [sum]: [n] rounds from index [i] on, then the carry. *)
Fixpoint sum_loop (n i : nat) (left right : list Z) (carry : Z) : list Z :=
  match n with
  | O => if negb (carry =? 0) then [int_to_char carry] else []
  | S n =>
      let val1 := digit_at left i in
      let val2 := digit_at right i in
      let aus := val1 + val2 + carry in
      if 9 <? aus then int_to_char (aus - 10) :: sum_loop n (S i) left right 1
      else int_to_char aus :: sum_loop n (S i) left right 0
  end.

Definition sum (left right : decimal) : decimal :=
  let loop_size := Nat.max (length (source left)) (length (source right)) in
  mk_decimal (sum_loop loop_size 0 (source left) (source right) 0) 0 0.

Fixpoint subtract_loop (n i : nat) (left right : list Z) (carry : Z) : list Z :=
  match n with
  | O => []
  | S n =>
      let val1 := char_to_int (char_at left i) - carry in
      let val2 := digit_at right i in
      if val1 <? val2 then int_to_char (10 + val1 - val2) :: subtract_loop n (S i) left right 1
      else int_to_char (val1 - val2) :: subtract_loop n (S i) left right 0
  end.

Definition subtract (left right : decimal) : decimal :=
  mk_decimal (subtract_loop (length (source left)) 0 (source left) (source right) 0) 0 0.

(** One row of the schoolbook product: [digit] times [left], with the carry the code threads
    ([carry] counts the tens it takes off one at a time). *)
Fixpoint multiply_row (digit : Z) (left : list Z) (carry : Z) : list Z :=
  match left with
  | [] => if negb (carry =? 0) then [int_to_char carry] else []
  | c :: rest =>
      let aus := digit * char_to_int c + carry in
      if 9 <? aus
      then int_to_char (aus mod 10) :: multiply_row digit rest (aus / 10)
      else int_to_char aus :: multiply_row digit rest 0
  end.

Fixpoint multiply_loop (right : list Z) (i : nat) (left : list Z) (result : decimal) : decimal :=
  match right with
  | [] => result
  | c :: rest =>
      let temp := repeat zero_char i ++ multiply_row (char_to_int c) left 0 in
      multiply_loop rest (S i) left (sum result (mk_decimal temp 0 0))
  end.

Definition multiply (left right : decimal) : decimal :=
  multiply_loop (source right) 0 (source left) (mk_decimal [zero_char] 0 0).

(** ** Comparison *)

(** The loop over two sources of one size, most significant character first. *)
Fixpoint compare_chars (left right : list Z) : Z :=
  match left, right with
  | c :: l, d :: r => if i8 d <? i8 c then 1 else if i8 c <? i8 d then 2 else compare_chars l r
  | _, _ => 0
  end.

Definition compare_num (left right : decimal) : Z :=
  let l := u64 (size_of left - dlength left) in
  let r := u64 (size_of right - dlength right) in
  if r <? l then 1
  else if l <? r then 2
  else if dlength right <? dlength left then
    let temp := pad_to (dlength left) right in
    compare_chars (rev (source left)) (rev (source temp))
  else if dlength left <? dlength right then
    let temp := pad_to (dlength right) left in
    compare_chars (rev (source temp)) (rev (source right))
  else compare_chars (rev (source left)) (rev (source right)).

Definition decimal_eq (x right : decimal) : bool :=
  if is_nan x || is_nan right then false
  else (compare_num x right =? 0) && (sign x =? sign right).
Definition decimal_ne (x right : decimal) : bool :=
  if is_nan x || is_nan right then false else negb (decimal_eq x right).

Definition decimal_gt (x right : decimal) : bool :=
  if is_nan x || is_nan right then false
  else if (sign x =? plus_sign) && (sign right =? plus_sign) then compare_num x right =? 1
  else if (sign x =? minus_sign) && (sign right =? minus_sign) then compare_num x right =? 2
  else if is_zero x && is_zero right then false
  else if (sign x =? minus_sign) && (sign right =? plus_sign) then false
  else if (sign x =? plus_sign) && (sign right =? minus_sign) then true
  else false.
Definition decimal_lt (x right : decimal) : bool :=
  if is_nan x || is_nan right then false
  else if (sign x =? plus_sign) && (sign right =? plus_sign) then compare_num x right =? 2
  else if (sign x =? minus_sign) && (sign right =? minus_sign) then compare_num x right =? 1
  else if is_zero x && is_zero right then false
  else if (sign x =? minus_sign) && (sign right =? plus_sign) then true
  else if (sign x =? plus_sign) && (sign right =? minus_sign) then false
  else false.
Definition decimal_ge (x right : decimal) : bool :=
  if is_nan x || is_nan right then false else negb (decimal_lt x right).
Definition decimal_le (x right : decimal) : bool :=
  if is_nan x || is_nan right then false else negb (decimal_gt x right).

(** The comparisons with [0.0] convert it to a decimal zero. *)
Definition is_positive (d : decimal) : bool := negb (is_nan d) && decimal_gt d decimal_zero.
Definition is_negative (d : decimal) : bool := negb (is_nan d) && decimal_lt d decimal_zero.

(** ** Arithmetic operators *)

Definition with_sign (s : Z) (len : Z) (d : decimal) : decimal := mk_decimal (source d) len s.

(** The branch [+] and [-] share: digits of the larger minus digits of the smaller magnitude, with
    the sign each case gives. *)
Definition difference (left right : decimal) (sign1 sign2 : Z) : decimal :=
  let check := compare_num left right in
  if check =? 0 then decimal_of_int 0
  else if check =? 1 then unlead (with_sign sign1 (dlength left) (subtract left right))
  else unlead (with_sign sign2 (dlength left) (subtract right left)).

Definition decimal_add (l r : decimal) : decimal :=
  if is_nan l || is_nan r then decimal_default
  else
    let right := if dlength r <? dlength l then pad_to (dlength l) r else r in
    let left := if dlength l <? dlength r then pad_to (dlength r) l else l in
    if (sign left =? plus_sign) && (sign right =? minus_sign) then
      difference left right plus_sign minus_sign
    else if (sign left =? minus_sign) && (sign right =? plus_sign) then
      difference left right minus_sign plus_sign
    else if (sign left =? plus_sign) && (sign right =? plus_sign) then
      with_sign plus_sign (dlength left) (sum left right)
    else if (sign left =? minus_sign) && (sign right =? minus_sign) then
      with_sign minus_sign (dlength left) (sum left right)
    else decimal_default.

Definition decimal_sub (l r : decimal) : decimal :=
  if is_nan l || is_nan r then decimal_default
  else
    let right := if dlength r <? dlength l then pad_to (dlength l) r else r in
    let left := if dlength l <? dlength r then pad_to (dlength r) l else l in
    if (sign left =? plus_sign) && (sign right =? minus_sign) then
      with_sign plus_sign (dlength left) (sum left right)
    else if (sign left =? minus_sign) && (sign right =? plus_sign) then
      with_sign minus_sign (dlength left) (sum left right)
    else if (sign left =? plus_sign) && (sign right =? plus_sign) then
      difference left right plus_sign minus_sign
    else if (sign left =? minus_sign) && (sign right =? minus_sign) then
      difference left right minus_sign plus_sign
    else decimal_default.

Definition same_signs (left right : decimal) : bool :=
  ((sign left =? minus_sign) && (sign right =? minus_sign)) ||
  ((sign left =? plus_sign) && (sign right =? plus_sign)).

Definition decimal_mul (left right : decimal) : decimal :=
  if is_nan left || is_nan right then decimal_default
  else
    unlead (with_sign (if same_signs left right then plus_sign else minus_sign)
              (dlength left + dlength right) (multiply left right)).

Definition decimal_neg (d : decimal) : decimal :=
  mk_decimal (source d) (dlength d)
    (if sign d =? plus_sign then minus_sign
     else if sign d =? minus_sign then plus_sign else sign d).

Definition decimal_add_int (left : decimal) (vright : Z) : decimal := decimal_add left (decimal_of_int vright).
Definition decimal_sub_int (left : decimal) (vright : Z) : decimal := decimal_sub left (decimal_of_int vright).
Definition decimal_mul_int (left : decimal) (vright : Z) : decimal := decimal_mul left (decimal_of_int vright).
Definition decimal_add_assign (x v : decimal) : decimal := decimal_add x v.
Definition decimal_sub_assign (x v : decimal) : decimal := decimal_sub x v.
Definition decimal_mul_assign (x v : decimal) : decimal := decimal_mul x v.
Definition decimal_inc (x : decimal) : decimal := decimal_add_int x 1.
Definition decimal_dec (x : decimal) : decimal := decimal_sub_int x 1.

(** [round]: the last character dropped decides; a one in the last place is added when it is five
    or more, whatever the sign. *)
Definition last_dropped (n : Z) (d : decimal) : Z :=
  char_at (source (drop_to (n + 1) d)) 0.

Definition ulp_text (new_precision : Z) : list Z :=
  chars "0." ++ repeat zero_char (Z.to_nat (new_precision - 1)) ++ chars "1".

Definition round (precision : Z) (d : decimal) : decimal :=
  if is_nan d then d
  else
    let new_precision := i32 precision in
    if dlength d <? new_precision then pad_to new_precision d
    else if new_precision <? dlength d then
      let last := last_dropped new_precision d in
      let d := drop_to new_precision d in
      if 5 <=? char_to_int last then
        if negb (new_precision =? 0) then decimal_add d (decimal_of_text (ulp_text new_precision))
        else decimal_inc d
      else d
    else d.

(** ** Division *)

(** The padding loop: both operands lose their fraction together. *)
Definition shed_length (x : decimal) : decimal :=
  if dlength x =? 0 then mk_decimal (zero_char :: source x) (dlength x) (sign x)
  else mk_decimal (source x) (dlength x - 1) (sign x).
Definition align (n d : decimal) : decimal * decimal :=
  Nat.iter (Z.to_nat (Z.max (dlength n) (dlength d)))
    (fun nd : decimal * decimal => (shed_length (fst nd), shed_length (snd nd))) (n, d).

(** State of the loop that finds one quotient digit. *)
Record digit_search := mk_search { qsub : Z; rest : decimal; max : Z }.

Definition search_round (d : decimal) (s : digit_search) : digit_search :=
  let min := 0 in
  let avg := max s - min in
  let mod_avg := Z.quot avg 2 in
  let avg := if negb (avg - mod_avg * 2 =? 0) then mod_avg + 1 else mod_avg in
  let div_check := compare_num (rest s) (decimal_mul_int d avg) in
  if negb (div_check =? 2)
  then mk_search (qsub s + avg) (decimal_sub (rest s) (decimal_mul_int d avg)) 9
  else mk_search (qsub s) (rest s) avg.

(** [while (r >= d)]: at most five rounds for each subtraction, and nine subtractions when the
    quotient is a digit. *)
Definition search_digit (r d : decimal) : option digit_search :=
  whileM 1000 (fun s => decimal_ge (rest s) d) (fun s => Some (search_round d s)) (mk_search 0 r 9).

(** One round of the long division: the next digit of [n] enters [r], a digit enters [q]. *)
Definition division_round (d : decimal) (c : Z) (qr : list Z * decimal) : option (list Z * decimal) :=
  let '(q, r) := qr in
  let r := mk_decimal (c :: source r) (dlength r) (sign r) in
  if decimal_ge r d && negb (is_zero r) then
    s ← search_digit r d;
    let q := int_to_char (qsub s) :: q in
    let r := rest s in
    if is_zero r then Some (q, mk_decimal [] (dlength r) (sign r)) else Some (q, r)
  else Some (zero_char :: q, r).

(** [while (!n.source.empty())]: over the source from its last character down. *)
Fixpoint division_loop (d : decimal) (rn : list Z) (qr : list Z * decimal) :
    option (list Z * decimal) :=
  match rn with
  | [] => Some qr
  | c :: rn => qr ← division_round d c qr; division_loop d rn qr
  end.

Definition magnitude (x : decimal) : decimal :=
  if decimal_gt x decimal_zero then x else decimal_mul_int x (-1).

Definition decimal_div (left right : decimal) : option decimal :=
  if is_nan left || is_nan right then Some decimal_default
  else
    let zero := decimal_of_int 0 in
    if decimal_eq right zero then Some decimal_default
    else
      let '(n, d) := align (magnitude left) (magnitude right) in
      let n := unlead n in
      let d := unlead d in
      let div_precision := if dlength right <? dlength left then dlength left else dlength right in
      let n := mk_decimal (repeat zero_char (Z.to_nat div_precision) ++ source n) (dlength n) (sign n) in
      let check := compare_num n d in
      if check =? 2 then Some zero
      else
        qr ← division_loop d (rev (source n)) ([], mk_decimal [] 0 plus_sign);
        Some (unlead (mk_decimal (fst qr) div_precision
                        (if same_signs left right then plus_sign else minus_sign))).

(** The modulo loop also keeps the remainder of every round. *)
Definition modulo_round (d : decimal) (c : Z) (rr : decimal * decimal) : option (decimal * decimal) :=
  let '(r, result) := rr in
  let r := mk_decimal (c :: source r) (dlength r) (sign r) in
  if decimal_ge r d && negb (is_zero r) then
    s ← search_digit r d;
    let r := rest s in
    let result := r in
    if is_zero r then Some (mk_decimal [] (dlength r) (sign r), result) else Some (r, result)
  else Some (r, r).

Fixpoint modulo_loop (d : decimal) (rn : list Z) (rr : decimal * decimal) : option (decimal * decimal) :=
  match rn with
  | [] => Some rr
  | c :: rn => rr ← modulo_round d c rr; modulo_loop d rn rr
  end.

Definition decimal_mod (left right : decimal) : option decimal :=
  if is_nan left || is_nan right then Some decimal_default
  else if negb (dlength left =? 0) || negb (dlength right =? 0) then Some decimal_default
  else
    let zero := decimal_of_int 0 in
    if decimal_eq right zero then Some decimal_default
    else
      let n := magnitude left in
      let d := magnitude right in
      let check := compare_num n d in
      if check =? 0 then Some zero
      else if check =? 2 then Some left
      else
        rr ← modulo_loop d (rev (source n)) (mk_decimal [] 0 plus_sign, decimal_default);
        let temp := unlead (snd rr) in
        let temp := mk_decimal (source temp) (dlength temp)
                      (if same_signs left right then plus_sign else minus_sign) in
        Some (if compare_num temp zero =? 0
              then mk_decimal (source temp) (dlength temp) plus_sign else temp).

Definition decimal_div_int (left : decimal) (vright : Z) : option decimal :=
  decimal_div left (decimal_of_int vright).
Definition decimal_mod_int (left : decimal) (vright : Z) : option decimal :=
  decimal_mod left (decimal_of_int vright).
Definition decimal_div_assign (x v : decimal) : option decimal := decimal_div x v.

(** ** Text *)

(** The loop all printers start with: how many trailing fraction zeros there are. *)
Fixpoint trailing_zeros (source : list Z) (dsize : Z) : nat :=
  match source with
  | c :: rest => if (c =? zero_char) && (0 <? dsize) then S (trailing_zeros rest (dsize - 1)) else O
  | [] => O
  end.

(** The printing loop from index [source.size() - 1] down to [offset]. *)
Definition print_cell (s : list Z) (offset : nat) (len : Z) (i : nat) : list Z :=
  char_at s i ::
  (if (Z.of_nat i =? len) && negb (Z.of_nat i =? 0) && negb (Z.of_nat offset =? len) then [46] else []).

Definition to_string (d : decimal) : list Z :=
  if is_nan d || bool_decide (source d = []) then chars "NaN"
  else
    let offset := trailing_zeros (source d) (dlength d) in
    (if sign d =? minus_sign then [minus_sign] else []) ++
    flat_map (print_cell (source d) offset (dlength d))
      (rev (seq offset (length (source d) - offset))).

(** The integer printers stop after the digit at [length] instead of writing the point. *)
Fixpoint print_integer (s : list Z) (offset : nat) (len : Z) (indices : list nat) : list Z :=
  match indices with
  | [] => []
  | i :: more =>
      char_at s i ::
      (if (Z.of_nat i =? len) && negb (Z.of_nat i =? 0) && negb (Z.of_nat offset =? len)
       then [] else print_integer s offset len more)
  end.

(** [strtoll] and [strtoull] of optionally signed digits, saturating. *)
Fixpoint read_digits (text : list Z) (acc : Z) : Z :=
  match text with
  | c :: rest => if isdigit c then read_digits rest (acc * 10 + (c - 48)) else acc
  | [] => acc
  end.
Definition strtoll (text : list Z) : Z :=
  match text with
  | c :: rest =>
      Z.max (- 2 ^ 63) (Z.min (2 ^ 63 - 1)
        (if c =? minus_sign then - read_digits rest 0 else read_digits text 0))
  | [] => 0
  end.
Definition strtoull (text : list Z) : Z := Z.min (2 ^ 64 - 1) (read_digits text 0).

Definition integer_text (d : decimal) : list Z :=
  let offset := trailing_zeros (source d) (dlength d) in
  print_integer (source d) offset (dlength d) (rev (seq offset (length (source d) - offset))).

Definition to_int64 (d : decimal) : Z :=
  if is_nan d || bool_decide (source d = []) then 0
  else strtoll ((if sign d =? minus_sign then [minus_sign] else []) ++ integer_text d).
Definition to_uint64 (d : decimal) : Z :=
  if is_nan d || bool_decide (source d = []) then 0 else strtoull (integer_text d).
Definition to_int32 (d : decimal) : Z := i32 (to_int64 d).
Definition to_uint32 (d : decimal) : Z := u32 (to_uint64 d).
Definition to_int16 (d : decimal) : Z := wrapS 16 (to_int32 d).
Definition to_uint16 (d : decimal) : Z := u16 (to_uint32 d).
Definition to_int8 (d : decimal) : Z := i8 (to_int16 d).
Definition to_uint8 (d : decimal) : Z := u8 (to_uint16 d).

(** [decimal::from]: the table maps digits and letters of either case to their value, every other
    character to zero. *)
Definition from_mapping : list Z :=
  repeat 0 49 ++ [1; 2; 3; 4; 5; 6; 7; 8; 9] ++ repeat 0 7 ++
  [10; 11; 12; 13; 14; 15; 16; 17; 18; 19; 20; 21; 22; 23; 24; 25; 26; 27; 28; 29; 30; 31; 32; 33;
   34; 35] ++ repeat 0 6 ++
  [10; 11; 12; 13; 14; 15; 16; 17; 18; 19; 20; 21; 22; 23; 24; 25; 26; 27; 28; 29; 30; 31; 32; 33;
   34; 35] ++ repeat 0 133.

Definition from_step (radix value : decimal) (item : Z) : decimal :=
  let number := at_table from_mapping item in
  decimal_add (decimal_mul value radix) (decimal_of_int number).
Definition decimal_from (data : list Z) (base : Z) : decimal :=
  fold_left (from_step (decimal_of_int base)) data (decimal_of_text (chars "0")).

(** [compute::uint128::to_decimal] and [compute::uint256::to_decimal]. *)
Definition uint128_to_decimal (x : uint128) : option decimal :=
  text ← uint128_to_string x 16 0; Some (decimal_from text 16).
Definition uint256_to_decimal (x : uint256) : option decimal :=
  text ← uint256_to_string x 16 0; Some (decimal_from text 16).
