(* ===== verification/DecimalFacts.v ===== *)
(** * Decimals: representation and exact arithmetic

    The invariant of [Decimal.decimal], the rational a decimal stands for, and the lemmas on the digit
    loops, the comparison, [+], [-], [*], the text conversions, truncation and rounding. *)

From Stdlib Require Import QArith.
From S2P Require Import Prelude Codec FixedUInt UInt128 UInt256 Decimal.
Open Scope Z_scope.

(** ** The abstract number

    [canonical] is the type invariant: digit characters, a sign, at least one integer digit and no
    leading zero before it.  [mag] is the number the digits spell, [num] its signed version and
    [value] the rational the decimal stands for.  [in_memory] bounds the text so that no [int32_t]
    the operators compute can overflow. *)

Definition dchar (d : Z) : Z := 48 + d.
Definition cs (ds : list Z) : list Z := map dchar ds.
Definition digits_of (s : list Z) : list Z := map (fun c => c - 48) s.
Definition digit_chars (s : list Z) : Prop := Forall (fun c => 48 <= c < 58) s.

Definition mag (d : decimal) : Z := le_val 10 (digits_of (source d)).
Definition num (d : decimal) : Z := if sign d =? minus_sign then - mag d else mag d.
Definition value (d : decimal) : Q := num d # Z.to_pos (10 ^ dlength d).

Record canonical (d : decimal) : Prop := {
  can_chars : digit_chars (source d);
  can_sign : sign d = plus_sign \/ sign d = minus_sign;
  can_length : 0 <= dlength d < size_of d;
  can_top : size_of d = dlength d + 1 \/ List.last (source d) zero_char <> zero_char }.

Definition in_memory (d : decimal) : Prop := size_of d < 2 ^ 30.

(** ** Facts: digit characters *)
Lemma digits_of_cs ds : digits_of (cs ds) = ds.
Proof.
  unfold digits_of, cs, dchar. rewrite map_map. rewrite <- (map_id ds) at 2.
  apply map_ext. intros. lia.
Qed.

Lemma digit_chars_cs s : digit_chars s -> exists ds, s = cs ds /\ digits 10 ds.
Proof.
  induction 1 as [|c s Hc _ (ds & -> & Hd)]; [exists []; split; [reflexivity|constructor]|].
  exists (c - 48 :: ds). split; [unfold cs, dchar; cbn [map]; f_equal; lia|].
  apply digits_cons. split; [lia|assumption].
Qed.

Lemma cs_digit_chars ds : digits 10 ds -> digit_chars (cs ds).
Proof.
  intros H. apply Forall_map. eapply Forall_impl; [|exact H]. unfold dchar. cbn. lia.
Qed.

Lemma char_to_int_dchar d : 0 <= d < 10 -> char_to_int (dchar d) = d.
Proof. intros. unfold char_to_int, dchar. rewrite wrapS_id by lia. lia. Qed.

Lemma int_to_char_dchar d : 0 <= d < 10 -> int_to_char d = dchar d.
Proof. intros. unfold int_to_char, dchar. rewrite wrapU_id by (unfold fits; lia). lia. Qed.

Lemma nth_range ds i : digits 10 ds -> 0 <= nth i ds 0 < 10.
Proof.
  intros H. revert i. induction H as [|d ds Hd _ IH]; intros [|i]; cbn; try lia. apply IH.
Qed.

Lemma char_at_cs ds i : (i < length ds)%nat -> char_at (cs ds) i = dchar (nth i ds 0).
Proof.
  intros Hi. unfold char_at, cs. rewrite (nth_indep _ 0 (dchar 0)) by now rewrite length_map.
  apply map_nth.
Qed.

Lemma digit_at_cs ds i :
  digits 10 ds -> ds <> [] -> Z.of_nat (length ds) < 2 ^ 63 -> digit_at (cs ds) i = nth i ds 0.
Proof.
  intros Hd Hne Hl. unfold digit_at, beyond, cs. rewrite length_map.
  assert (length ds <> 0%nat) by now destruct ds.
  rewrite wrapU_id by (unfold fits; lia).
  destruct (Z.ltb_spec (Z.of_nat (length ds) - 1) (Z.of_nat i)).
  - rewrite nth_overflow by lia. reflexivity.
  - change (map dchar ds) with (cs ds). rewrite char_at_cs by lia.
    apply char_to_int_dchar, nth_range, Hd.
Qed.

Lemma le_val_skipn b ds i : le_val b (skipn i ds) = nth i ds 0 + b * le_val b (skipn (S i) ds).
Proof.
  revert i. induction ds as [|d ds IH]; intros i.
  - rewrite !skipn_nil. destruct i; cbn; lia.
  - destruct i as [|i]; [reflexivity|]. cbn [skipn nth]. apply IH.
Qed.

Lemma le_val_skipn_all b ds i : (length ds <= i)%nat -> le_val b (skipn i ds) = 0.
Proof. intros H. now rewrite skipn_all2. Qed.

(** The most significant digit is not zero exactly when the number is as long as its text. *)
Lemma last_digit_val b ds :
  1 < b -> digits b ds -> ds <> [] ->
  (List.last ds 0 <> 0 <-> b ^ (Z.of_nat (length ds) - 1) <= le_val b ds).
Proof.
  intros Hb Hd Hne. destruct (exists_last Hne) as (xs & x & ->).
  apply digits_app in Hd as [Hxs Hx]. apply digits_cons in Hx as [Hx _].
  rewrite List.last_last, le_val_app, length_app. cbn [length le_val].
  pose proof (le_val_bound b xs ltac:(lia) Hxs) as B.
  replace (Z.of_nat (length xs + 1) - 1) with (Z.of_nat (length xs)) by lia. split; intros; nia.
Qed.

Lemma last_map {A B} (f : A -> B) l d : List.last (map f l) (f d) = f (List.last l d).
Proof.
  induction l as [|x [|y l] IH]; [reflexivity..|]. exact IH.
Qed.

Lemma last_cs ds : List.last (cs ds) zero_char = zero_char <-> List.last ds 0 = 0.
Proof.
  change zero_char with (dchar 0). unfold cs. rewrite last_map. unfold dchar. lia.
Qed.

(** ** Facts: building canonical values *)
Lemma canonical_digits d :
  canonical d -> exists ds, source d = cs ds /\ digits 10 ds /\ ds <> [] /\ mag d = le_val 10 ds /\
    size_of d = Z.of_nat (length ds) /\ 0 <= mag d < 10 ^ size_of d /\
    (size_of d = dlength d + 1 \/ 10 ^ (size_of d - 1) <= mag d).
Proof.
  intros [Hc Hs Hl Ht]. destruct (digit_chars_cs _ Hc) as (ds & E & Hd). exists ds.
  assert (S : size_of d = Z.of_nat (length ds)) by (unfold size_of; rewrite E; unfold cs; now rewrite length_map).
  assert (M : mag d = le_val 10 ds) by (unfold mag; now rewrite E, digits_of_cs).
  assert (Hne : ds <> []) by (intros ->; cbn in S; lia).
  pose proof (le_val_bound 10 ds ltac:(lia) Hd) as B.
  do 5 (split; [assumption|]). rewrite S, M. split; [exact B|].
  destruct Ht as [Ht|Ht]; [left; lia|right]. rewrite E, last_cs in Ht.
  now apply (last_digit_val 10); [lia|..].
Qed.

Lemma canonical_of ds len s :
  digits 10 ds -> s = plus_sign \/ s = minus_sign -> 0 <= len < Z.of_nat (length ds) ->
  Z.of_nat (length ds) = len + 1 \/ 10 ^ (Z.of_nat (length ds) - 1) <= le_val 10 ds ->
  canonical (mk_decimal (cs ds) len s) /\ mag (mk_decimal (cs ds) len s) = le_val 10 ds.
Proof.
  intros Hd Hs Hl Ht. split; [|unfold mag; cbn [source]; now rewrite digits_of_cs].
  assert (S : size_of (mk_decimal (cs ds) len s) = Z.of_nat (length ds))
    by (unfold size_of, cs; cbn [source]; now rewrite length_map).
  split; cbn [source dlength sign].
  - now apply cs_digit_chars.
  - exact Hs.
  - now rewrite S.
  - rewrite S. destruct Ht as [Ht|Ht]; [now left|right]. rewrite last_cs.
    apply (last_digit_val 10); try assumption; [lia|]. intros ->. cbn in Hl. lia.
Qed.

Lemma canonical_not_nan d : canonical d -> is_nan d = false.
Proof. intros [_ [H|H] _ _]; unfold is_nan; rewrite H; reflexivity. Qed.

(** ** Facts: padding *)
Lemma pad_to_eq n d :
  dlength d <= n ->
  pad_to n d = mk_decimal (repeat zero_char (Z.to_nat (n - dlength d)) ++ source d) n (sign d).
Proof.
  intros Hn. unfold pad_to. destruct d as [s l g]. cbn [source dlength sign] in *.
  assert (H : forall k, Nat.iter k push_zero (mk_decimal s l g) =
                        mk_decimal (repeat zero_char k ++ s) (l + Z.of_nat k) g).
  { induction k as [|k IH]; [cbn; f_equal; lia|]. cbn [Nat.iter nat_rect]. unfold Nat.iter in IH.
    rewrite IH. unfold push_zero. cbn [source dlength sign repeat app]. f_equal. lia. }
  rewrite H. f_equal. lia.
Qed.

Lemma cs_repeat k : repeat zero_char k = cs (repeat 0 k).
Proof. unfold cs. rewrite map_repeat. reflexivity. Qed.

Lemma le_val_zeros b k ds : le_val b (repeat 0 k ++ ds) = b ^ Z.of_nat k * le_val b ds.
Proof. rewrite le_val_app, le_val_repeat_0, repeat_length. lia. Qed.

Lemma digits_repeat_0 k : digits 10 (repeat 0 k).
Proof. induction k; [constructor|]. apply digits_cons. split; [lia|assumption]. Qed.

Lemma pad_to_spec n d :
  canonical d -> dlength d <= n ->
  canonical (pad_to n d) /\ mag (pad_to n d) = mag d * 10 ^ (n - dlength d) /\
  dlength (pad_to n d) = n /\ sign (pad_to n d) = sign d /\
  size_of (pad_to n d) = size_of d + (n - dlength d).
Proof.
  intros Hd Hn. destruct (canonical_digits d Hd) as (ds & E & Dd & Hne & M & S & B & T).
  destruct Hd as [_ Hs Hl _]. rewrite pad_to_eq by assumption.
  rewrite E, cs_repeat. unfold cs. rewrite <- map_app. change (map dchar) with cs.
  set (k := Z.to_nat (n - dlength d)). assert (K : Z.of_nat k = n - dlength d) by lia.
  destruct (canonical_of (repeat 0 k ++ ds) n (sign d)) as [C V].
  - apply digits_app. split; [apply digits_repeat_0 | assumption].
  - assumption.
  - rewrite length_app, repeat_length. lia.
  - rewrite length_app, repeat_length, le_val_zeros, <- M.
    destruct T as [T|T]; [left; lia|right].
    replace (Z.of_nat (k + length ds) - 1) with (Z.of_nat k + (size_of d - 1)) by lia.
    rewrite Z.pow_add_r by lia. apply Z.mul_le_mono_nonneg_l; [apply Z.pow_nonneg|]; lia.
  - split; [exact C|]. split; [rewrite V, le_val_zeros, M, <- K; ring|].
    split; [reflexivity|]. split; [reflexivity|].
    unfold size_of at 1. cbn [source]. unfold cs. rewrite length_map, length_app, repeat_length. lia.
Qed.

(** ** Facts: comparison of magnitudes *)

Definition order_code (c : comparison) : Z := match c with Eq => 0 | Gt => 1 | Lt => 2 end.

Lemma compare_chars_val xs ys :
  digits 10 xs -> digits 10 ys -> length xs = length ys ->
  compare_chars (cs xs) (cs ys) = order_code (be_val 10 xs ?= be_val 10 ys).
Proof.
  intros Hx. revert ys. induction Hx as [|x xs Hx Hxs IH]; intros [|y ys] Hy Hl; try discriminate;
    [reflexivity|].
  apply digits_cons in Hy as [Hy Hys]. injection Hl as Hl.
  cbn [cs map compare_chars]. change (map dchar) with cs. unfold dchar at 1 2 3 4.
  rewrite !wrapS_id by lia. rewrite !be_val_cons, Hl.
  pose proof (be_val_bound 10 xs ltac:(lia) Hxs) as Bx. pose proof (be_val_bound 10 ys ltac:(lia) Hys) as By.
  rewrite Hl in Bx.
  destruct (Z.ltb_spec (48 + y) (48 + x)).
  - destruct (Z.compare_spec (x * 10 ^ Z.of_nat (length ys) + be_val 10 xs)
                             (y * 10 ^ Z.of_nat (length ys) + be_val 10 ys)); [nia|nia|reflexivity].
  - destruct (Z.ltb_spec (48 + x) (48 + y)).
    + destruct (Z.compare_spec (x * 10 ^ Z.of_nat (length ys) + be_val 10 xs)
                               (y * 10 ^ Z.of_nat (length ys) + be_val 10 ys)); [nia|reflexivity|nia].
    + replace y with x by lia. rewrite IH by assumption.
      now rewrite Zcompare_plus_compat.
Qed.

Lemma compare_sources l r :
  canonical l -> canonical r -> size_of l = size_of r ->
  compare_chars (rev (source l)) (rev (source r)) = order_code (mag l ?= mag r).
Proof.
  intros Hl Hr E. destruct (canonical_digits l Hl) as (xs & -> & Dx & _ & -> & Sx & _).
  destruct (canonical_digits r Hr) as (ys & -> & Dy & _ & -> & Sy & _).
  unfold cs. rewrite <- !map_rev. change (map dchar) with cs.
  rewrite compare_chars_val by (try rewrite !length_rev; auto with vitex; lia).
  now rewrite !be_val_rev, !rev_involutive.
Qed.

Lemma compare_scaled a b k : 0 < k -> (a * k ?= b * k) = (a ?= b).
Proof.
  intros Hk. destruct (Z.compare_spec a b) as [->|H|H].
  - apply Z.compare_refl.
  - apply Z.compare_lt_iff. nia.
  - apply Z.compare_gt_iff. nia.
Qed.

Lemma far_apart a b la lb A B :
  0 <= la -> 0 <= lb -> 1 <= B < A -> 10 ^ (la + A - 1) <= a -> 0 <= b < 10 ^ (lb + B) ->
  b * 10 ^ la < a * 10 ^ lb.
Proof.
  intros Hla Hlb HAB Ha Hb.
  assert (0 < 10 ^ la) by (apply Z.pow_pos_nonneg; lia).
  assert (0 < 10 ^ lb) by (apply Z.pow_pos_nonneg; lia).
  assert (E : 10 ^ (lb + B) * 10 ^ la <= 10 ^ (la + A - 1) * 10 ^ lb).
  { rewrite <- !Z.pow_add_r by lia. apply Z.pow_le_mono_r; lia. }
  nia.
Qed.

(** [compare_num] on invariant values orders the absolute values: 0 equal, 1 greater, 2 less. *)
Lemma compare_num_spec l r :
  canonical l -> canonical r -> size_of l < 2 ^ 62 -> size_of r < 2 ^ 62 ->
  compare_num l r = order_code (mag l * 10 ^ dlength r ?= mag r * 10 ^ dlength l).
Proof.
  intros Hl Hr Ml Mr. pose proof Hl as [_ _ Ll _]. pose proof Hr as [_ _ Lr _].
  destruct (canonical_digits l Hl) as (xs & _ & _ & _ & _ & _ & Bl & Tl).
  destruct (canonical_digits r Hr) as (ys & _ & _ & _ & _ & _ & Br & Tr).
  unfold compare_num. rewrite !wrapU_id by (unfold fits; lia).
  destruct (Z.ltb_spec (size_of r - dlength r) (size_of l - dlength l)).
  { assert (H1 : mag r * 10 ^ dlength l < mag l * 10 ^ dlength r).
    { apply (far_apart _ _ _ _ (size_of l - dlength l) (size_of r - dlength r)); try lia.
      - destruct Tl as [Tl|Tl]; [lia|]. replace (dlength l + _ - 1) with (size_of l - 1) by lia. exact Tl.
      - replace (dlength r + _) with (size_of r) by lia. exact Br. }
    apply Z.compare_gt_iff in H1. now rewrite H1. }
  destruct (Z.ltb_spec (size_of l - dlength l) (size_of r - dlength r)).
  { assert (H1 : mag l * 10 ^ dlength r < mag r * 10 ^ dlength l).
    { apply (far_apart _ _ _ _ (size_of r - dlength r) (size_of l - dlength l)); try lia.
      - destruct Tr as [Tr|Tr]; [lia|]. replace (dlength r + _ - 1) with (size_of r - 1) by lia. exact Tr.
      - replace (dlength l + _) with (size_of l) by lia. exact Bl. }
    apply Z.compare_lt_iff in H1. now rewrite H1. }
  destruct (Z.ltb_spec (dlength r) (dlength l)).
  { destruct (pad_to_spec (dlength l) r Hr ltac:(lia)) as (Cp & Vp & _ & _ & Sp).
    rewrite compare_sources by (assumption || lia). rewrite Vp.
    rewrite <- (compare_scaled _ _ (10 ^ dlength r)) by (apply Z.pow_pos_nonneg; lia).
    rewrite <- Z.mul_assoc, <- Z.pow_add_r by lia. do 3 f_equal. f_equal. lia. }
  destruct (Z.ltb_spec (dlength l) (dlength r)).
  { destruct (pad_to_spec (dlength r) l Hl ltac:(lia)) as (Cp & Vp & _ & _ & Sp).
    rewrite compare_sources by (assumption || lia). rewrite Vp.
    rewrite <- (compare_scaled _ _ (10 ^ dlength l)) by (apply Z.pow_pos_nonneg; lia).
    rewrite <- Z.mul_assoc, <- Z.pow_add_r by lia. do 3 f_equal. f_equal. lia. }
  rewrite compare_sources by (assumption || lia). replace (dlength r) with (dlength l) by lia.
  now rewrite compare_scaled by (apply Z.pow_pos_nonneg; lia).
Qed.

(** ** Facts: trimming *)

(** Digits without the leading zeros in front of the last integer digit. *)
Lemma unlead_loop_spec rs len :
  digits 10 rs -> 0 <= len < Z.of_nat (length rs) ->
  exists ks, unlead_loop (cs rs) len = cs ks /\ digits 10 ks /\ len < Z.of_nat (length ks) /\
    (length ks <= length rs)%nat /\ be_val 10 ks = be_val 10 rs /\
    (Z.of_nat (length ks) = len + 1 \/ exists k t, ks = k :: t /\ k <> 0).
Proof.
  induction rs as [|r rs IH]; intros Hd Hl; [cbn in Hl; lia|].
  pose proof (proj1 (digits_cons _ _ _) Hd) as [Hr Hrs]. cbn [length] in Hl.
  cbn [cs map unlead_loop]. change (map dchar) with cs. unfold cs at 1. rewrite length_map.
  destruct (Z.ltb_spec len (Z.of_nat (length rs))); [destruct (Z.eqb_spec (dchar r) zero_char) as [E|E]|]; cbn [andb].
  - destruct (IH Hrs ltac:(lia)) as (ks & E' & Hk & H1 & H2 & H3 & H4). exists ks.
    unfold dchar in E. change zero_char with 48 in E. replace r with 0 by lia.
    rewrite be_val_cons, Z.mul_0_l, Z.add_0_l. cbn [length]. repeat (split; [assumption || lia|]). assumption.
  - exists (r :: rs). split; [reflexivity|]. split; [assumption|]. cbn [length].
    split; [lia|]. split; [lia|]. split; [reflexivity|]. right. exists r, rs. split; [reflexivity|].
    intros ->. now apply E.
  - exists (r :: rs). split; [reflexivity|]. split; [assumption|]. cbn [length].
    split; [lia|]. split; [lia|]. split; [reflexivity|]. left. lia.
Qed.

Lemma unlead_spec ds len s :
  digits 10 ds -> 0 <= len < Z.of_nat (length ds) -> s = plus_sign \/ s = minus_sign ->
  let d := unlead (mk_decimal (cs ds) len s) in
  canonical d /\ mag d = le_val 10 ds /\ dlength d = len /\ sign d = s /\
  size_of d <= Z.of_nat (length ds).
Proof.
  intros Hd Hl Hs d. subst d. unfold unlead. cbn [source dlength sign].
  unfold cs. rewrite <- map_rev. change (map dchar) with cs.
  destruct (unlead_loop_spec (rev ds) len) as (ks & -> & Hk & H1 & H2 & H3 & H4);
    [auto with vitex | rewrite length_rev; lia |].
  rewrite length_rev in H2. unfold cs. rewrite <- map_rev. change (map dchar) with cs.
  assert (V : le_val 10 (rev ks) = le_val 10 ds)
    by (rewrite <- be_val_rev, H3, be_val_rev, rev_involutive; reflexivity).
  destruct (canonical_of (rev ks) len s) as [C M].
  - auto with vitex.
  - assumption.
  - rewrite length_rev. lia.
  - rewrite length_rev. destruct H4 as [H4|(k & t & -> & Hk0)]; [left; lia|right].
    rewrite <- (length_rev (k :: t)). apply last_digit_val; [lia|auto with vitex|..].
    + cbn [rev]. intros E. now destruct (rev t).
    + cbn [rev]. now rewrite List.last_last.
  - split; [exact C|]. split; [rewrite M; exact V|]. split; [reflexivity|]. split; [reflexivity|].
    unfold size_of, cs. cbn [source]. rewrite length_map, length_rev. lia.
Qed.

(** ** Facts: the digit loops *)
Lemma nth_step ds i : le_val 10 (skipn i ds) = nth i ds 0 + 10 * le_val 10 (skipn (S i) ds).
Proof. apply le_val_skipn. Qed.

Lemma sum_loop_spec n : forall i xs ys c,
  digits 10 xs -> digits 10 ys -> xs <> [] -> ys <> [] ->
  Z.of_nat (length xs) < 2 ^ 63 -> Z.of_nat (length ys) < 2 ^ 63 ->
  (length xs <= n + i)%nat -> (length ys <= n + i)%nat -> c = 0 \/ c = 1 ->
  exists out, sum_loop n i (cs xs) (cs ys) c = cs out /\ digits 10 out /\
    le_val 10 out = c + le_val 10 (skipn i xs) + le_val 10 (skipn i ys) /\
    (length out = n \/ length out = S n /\ 10 ^ Z.of_nat n <= le_val 10 out).
Proof.
  induction n as [|n IH]; intros i xs ys c Hx Hy Nx Ny Lx Ly Bx By Hc; cbn [sum_loop].
  - rewrite !le_val_skipn_all by lia. destruct Hc as [->| ->]; cbn [Z.eqb negb].
    + exists []. split; [reflexivity|]. split; [constructor|]. split; [reflexivity|]. now left.
    + exists [1]. split; [reflexivity|]. split; [apply digits_cons; split; [lia|constructor]|].
      split; [reflexivity|]. right. split; [reflexivity|]. cbn. lia.
  - rewrite !digit_at_cs by assumption.
    pose proof (nth_range xs i Hx) as Rx. pose proof (nth_range ys i Hy) as Ry.
    assert (Step : forall e, c + nth i xs 0 + nth i ys 0 = e + 10 * 0 \/ c + nth i xs 0 + nth i ys 0 = e + 10 * 1 -> True) by auto.
    destruct (Z.ltb_spec 9 (nth i xs 0 + nth i ys 0 + c)).
    + destruct (IH (S i) xs ys 1 Hx Hy Nx Ny Lx Ly ltac:(lia) ltac:(lia) ltac:(auto)) as (out & E & Do & V & T).
      exists ((nth i xs 0 + nth i ys 0 + c - 10) :: out).
      rewrite E, int_to_char_dchar by lia. split; [reflexivity|].
      split; [apply digits_cons; split; [lia|assumption]|]. cbn [le_val length].
      rewrite V, (nth_step xs i), (nth_step ys i). split; [lia|].
      destruct T as [T|[T1 T2]]; [left; lia|right]. split; [lia|].
      rewrite Nat2Z.inj_succ, Z.pow_succ_r by lia. lia.
    + destruct (IH (S i) xs ys 0 Hx Hy Nx Ny Lx Ly ltac:(lia) ltac:(lia) ltac:(auto)) as (out & E & Do & V & T).
      exists ((nth i xs 0 + nth i ys 0 + c) :: out).
      rewrite E, int_to_char_dchar by lia. split; [reflexivity|].
      split; [apply digits_cons; split; [lia|assumption]|]. cbn [le_val length].
      rewrite V, (nth_step xs i), (nth_step ys i). split; [lia|].
      destruct T as [T|[T1 T2]]; [left; lia|right]. split; [lia|].
      rewrite Nat2Z.inj_succ, Z.pow_succ_r by lia. lia.
Qed.

Lemma sum_source_spec xs ys :
  digits 10 xs -> digits 10 ys -> xs <> [] -> ys <> [] ->
  Z.of_nat (length xs) < 2 ^ 63 -> Z.of_nat (length ys) < 2 ^ 63 ->
  forall l1 s1 l2 s2, exists out,
    sum (mk_decimal (cs xs) l1 s1) (mk_decimal (cs ys) l2 s2) = mk_decimal (cs out) 0 0 /\
    digits 10 out /\ le_val 10 out = le_val 10 xs + le_val 10 ys /\
    (length out = Nat.max (length xs) (length ys) \/
     length out = S (Nat.max (length xs) (length ys)) /\
       10 ^ Z.of_nat (Nat.max (length xs) (length ys)) <= le_val 10 out).
Proof.
  intros Hx Hy Nx Ny Lx Ly l1 s1 l2 s2. unfold sum. cbn [source].
  unfold cs at 1 2. rewrite !length_map.
  destruct (sum_loop_spec (Nat.max (length xs) (length ys)) 0 xs ys 0) as (out & E & Do & V & T);
    try assumption; try lia.
  rewrite E. exists out. split; [reflexivity|]. split; [assumption|]. split; [exact V|]. exact T.
Qed.

Lemma subtract_loop_spec n : forall i xs ys c,
  digits 10 xs -> digits 10 ys -> ys <> [] -> Z.of_nat (length ys) < 2 ^ 63 ->
  (n + i = length xs)%nat -> (length ys <= n + i)%nat -> c = 0 \/ c = 1 ->
  exists out borrow, subtract_loop n i (cs xs) (cs ys) c = cs out /\ digits 10 out /\
    length out = n /\ 0 <= borrow /\
    le_val 10 out = le_val 10 (skipn i xs) - c - le_val 10 (skipn i ys) + 10 ^ Z.of_nat n * borrow.
Proof.
  induction n as [|n IH]; intros i xs ys c Hx Hy Ny Ly Bx By Hc; cbn [subtract_loop].
  - rewrite !le_val_skipn_all by lia. exists [], c. split; [reflexivity|]. split; [constructor|].
    split; [reflexivity|]. split; [lia|]. cbn. lia.
  - rewrite digit_at_cs, char_at_cs by (assumption || lia).
    pose proof (nth_range xs i Hx) as Rx. pose proof (nth_range ys i Hy) as Ry.
    rewrite char_to_int_dchar by assumption.
    destruct (Z.ltb_spec (nth i xs 0 - c) (nth i ys 0)).
    + destruct (IH (S i) xs ys 1 Hx Hy Ny Ly ltac:(lia) ltac:(lia) ltac:(auto)) as (out & b & E & Do & Lo & Hb & V).
      exists ((10 + (nth i xs 0 - c) - nth i ys 0) :: out), b.
      rewrite E, int_to_char_dchar by lia. split; [reflexivity|].
      split; [apply digits_cons; split; [lia|assumption]|]. cbn [le_val length].
      split; [lia|]. split; [assumption|].
      rewrite V, (nth_step xs i), (nth_step ys i), Nat2Z.inj_succ, Z.pow_succ_r by lia. lia.
    + destruct (IH (S i) xs ys 0 Hx Hy Ny Ly ltac:(lia) ltac:(lia) ltac:(auto)) as (out & b & E & Do & Lo & Hb & V).
      exists ((nth i xs 0 - c - nth i ys 0) :: out), b.
      rewrite E, int_to_char_dchar by lia. split; [reflexivity|].
      split; [apply digits_cons; split; [lia|assumption]|]. cbn [le_val length].
      split; [lia|]. split; [assumption|].
      rewrite V, (nth_step xs i), (nth_step ys i), Nat2Z.inj_succ, Z.pow_succ_r by lia. lia.
Qed.

Lemma subtract_source_spec xs ys :
  digits 10 xs -> digits 10 ys -> ys <> [] -> Z.of_nat (length ys) < 2 ^ 63 ->
  (length ys <= length xs)%nat -> le_val 10 ys <= le_val 10 xs ->
  forall l1 s1 l2 s2, exists out,
    subtract (mk_decimal (cs xs) l1 s1) (mk_decimal (cs ys) l2 s2) = mk_decimal (cs out) 0 0 /\
    digits 10 out /\ length out = length xs /\ le_val 10 out = le_val 10 xs - le_val 10 ys.
Proof.
  intros Hx Hy Ny Ly Hl Hle l1 s1 l2 s2. unfold subtract. cbn [source].
  unfold cs at 1. rewrite length_map.
  destruct (subtract_loop_spec (length xs) 0 xs ys 0) as (out & b & E & Do & Lo & Hb & V);
    try assumption; try lia.
  rewrite E. exists out. split; [reflexivity|]. split; [assumption|]. split; [assumption|].
  rewrite !skipn_O in V. pose proof (le_val_bound 10 out ltac:(lia) Do) as B. rewrite Lo in B.
  pose proof (le_val_bound 10 xs ltac:(lia) Hx).
  assert (b = 0); [|subst b; lia]. nia.
Qed.

Lemma multiply_row_spec digit xs c :
  0 <= digit < 10 -> digits 10 xs -> 0 <= c < 10 ->
  exists out, multiply_row digit (cs xs) c = cs out /\ digits 10 out /\
    le_val 10 out = digit * le_val 10 xs + c /\
    (length xs <= length out <= S (length xs))%nat.
Proof.
  intros Hg Hx. revert c. induction Hx as [|x xs Hx Hxs IH]; intros c Hc; cbn [cs map multiply_row].
  - destruct (Z.eqb_spec c 0) as [->|]; cbn [negb].
    + exists []. split; [reflexivity|]. split; [constructor|]. cbn. lia.
    + exists [c]. rewrite int_to_char_dchar by lia. split; [reflexivity|].
      split; [apply digits_cons; split; [lia|constructor]|]. cbn. lia.
  - change (map dchar) with cs. rewrite char_to_int_dchar by lia.
    destruct (Z.ltb_spec 9 (digit * x + c)).
    + destruct (IH ((digit * x + c) / 10)) as (out & E & Do & V & Lo);
        [split; [apply Z.div_pos; nia | apply Z.div_lt_upper_bound; nia]|].
      exists ((digit * x + c) mod 10 :: out). rewrite E, int_to_char_dchar by (apply Z.mod_pos_bound; lia).
      split; [reflexivity|]. split; [apply digits_cons; split; [apply Z.mod_pos_bound; lia|assumption]|].
      cbn [le_val length]. rewrite V. pose proof (Z.div_mod (digit * x + c) 10 ltac:(lia)). lia.
    + destruct (IH 0 ltac:(lia)) as (out & E & Do & V & Lo).
      exists (digit * x + c :: out). rewrite E, int_to_char_dchar by nia.
      split; [reflexivity|]. split; [apply digits_cons; split; [nia|assumption]|].
      cbn [le_val length]. rewrite V. lia.
Qed.

Lemma multiply_loop_spec ys : forall i xs acc,
  digits 10 xs -> xs <> [] -> digits 10 ys -> digits 10 acc -> acc <> [] ->
  (length acc <= length xs + 1 + i)%nat ->
  Z.of_nat (length xs) + Z.of_nat i + Z.of_nat (length ys) + 2 < 2 ^ 62 ->
  exists out, multiply_loop (cs ys) i (cs xs) (mk_decimal (cs acc) 0 0) = mk_decimal (cs out) 0 0 /\
    digits 10 out /\
    le_val 10 out = le_val 10 acc + 10 ^ Z.of_nat i * (le_val 10 xs * le_val 10 ys) /\
    (length out <= length xs + 1 + i + length ys)%nat /\ (length acc <= length out)%nat /\
    (ys <> [] -> (length xs + i + length ys <= length out + 1)%nat).
Proof.
  induction ys as [|y ys IH]; intros i xs acc Hx Nx Hy Ha Na La Hb; cbn [cs map multiply_loop].
  - exists acc. split; [reflexivity|]. split; [assumption|]. cbn [le_val length]. split; [lia|].
    split; [lia|]. split; [lia|]. now intros [].
  - change (map dchar) with cs. apply digits_cons in Hy as [Hy0 Hy]. cbn [length] in Hb.
    rewrite char_to_int_dchar by assumption.
    destruct (multiply_row_spec y xs 0 Hy0 Hx ltac:(lia)) as (row & -> & Dr & Vr & Lr).
    rewrite cs_repeat. unfold cs at 4 5. rewrite <- map_app. change (map dchar) with cs.
    assert (Lrow : (length xs + i <= length (repeat 0%Z i ++ row) <= length xs + 1 + i)%nat)
      by (rewrite length_app, repeat_length; lia).
    destruct (sum_source_spec acc (repeat 0 i ++ row)) with (l1 := 0) (s1 := 0) (l2 := 0) (s2 := 0)
      as (out & -> & Do & Vo & To).
    + assumption.
    + apply digits_app. split; [apply digits_repeat_0 | assumption].
    + assumption.
    + intros E. rewrite E in Lrow. destruct xs; [contradiction|cbn in Lrow; lia].
    + lia.
    + lia.
    + rewrite le_val_zeros in Vo.
      destruct (IH (S i) xs out Hx Nx Hy Do) as (out' & -> & Do' & Vo' & L1 & L2 & L3).
      * intros ->. cbn [length] in To. destruct acc; [contradiction|cbn in To; lia].
      * lia.
      * lia.
      * exists out'. split; [reflexivity|]. split; [assumption|]. cbn [le_val length].
        rewrite Vo', Vo, Vr, Nat2Z.inj_succ, Z.pow_succ_r by lia. split; [ring|].
        split; [lia|]. split; [lia|]. intros _.
        destruct ys as [|y' ys]; [cbn [length]; lia|]. specialize (L3 ltac:(discriminate)).
        cbn [length] in *. lia.
Qed.

(** ** Facts: values *)

(** Decide comparisons between sign characters. *)
Ltac signs := cbn [plus_sign minus_sign zero_char Z.eqb Pos.eqb andb orb negb] in *.

Lemma scale_pos k : 0 <= k -> Zpos (Z.to_pos (10 ^ k)) = 10 ^ k.
Proof. intros Hk. apply Z2Pos.id, Z.pow_pos_nonneg; lia. Qed.

Lemma value_at k d :
  0 <= dlength d <= k -> (value d == num d * 10 ^ (k - dlength d) # Z.to_pos (10 ^ k))%Q.
Proof.
  intros Hk. unfold value, Qeq. cbn [Qnum Qden]. rewrite !scale_pos by lia.
  rewrite <- Z.mul_assoc, <- Z.pow_add_r by lia. do 2 f_equal. lia.
Qed.

Lemma value_mk n k d : dlength d = k -> num d = n -> (value d == n # Z.to_pos (10 ^ k))%Q.
Proof. intros <- <-. reflexivity. Qed.

Lemma Qplus_same a b p : ((a # p) + (b # p) == (a + b) # p)%Q.
Proof. unfold Qeq, Qplus. cbn [Qnum Qden]. rewrite Pos2Z.inj_mul. ring. Qed.

Lemma Qminus_same a b p : ((a # p) - (b # p) == (a - b) # p)%Q.
Proof. unfold Qeq, Qminus, Qplus, Qopp. cbn [Qnum Qden]. rewrite Pos2Z.inj_mul. ring. Qed.

Lemma num_plus d : sign d = plus_sign -> num d = mag d.
Proof. intros H. unfold num. rewrite H. reflexivity. Qed.
Lemma num_minus d : sign d = minus_sign -> num d = - mag d.
Proof. intros H. unfold num. rewrite H. reflexivity. Qed.

(** A canonical result with the given parts. *)
Definition is_decimal (d : decimal) (s n len : Z) : Prop :=
  canonical d /\ sign d = s /\ mag d = n /\ dlength d = len.

Lemma zero_spec : is_decimal (decimal_of_int 0) plus_sign 0 0.
Proof.
  split; [|split; [|split]; reflexivity]. split.
  - change (digit_chars [48]). constructor; [lia|constructor].
  - now left.
  - change (0 <= 0 < 1). lia.
  - left. reflexivity.
Qed.

Definition sizes_ok (l r : decimal) : Prop := size_of l < 2 ^ 62 /\ size_of r < 2 ^ 62.

Lemma size_digits d ds : source d = cs ds -> size_of d = Z.of_nat (length ds).
Proof. intros H. unfold size_of. rewrite H. unfold cs. now rewrite length_map. Qed.

Lemma sum_spec l r s :
  canonical l -> canonical r -> dlength l = dlength r -> sizes_ok l r ->
  s = plus_sign \/ s = minus_sign ->
  is_decimal (with_sign s (dlength l) (sum l r)) s (mag l + mag r) (dlength l) /\
  size_of (with_sign s (dlength l) (sum l r)) <= Z.max (size_of l) (size_of r) + 1.
Proof.
  intros Hl Hr El [Sl Sr] Hs.
  pose proof Hl as [_ _ Ll _]. pose proof Hr as [_ _ Lr _].
  destruct (canonical_digits l Hl) as (xs & Ex & Dx & Nx & Mx & Zx & _ & Tx).
  destruct (canonical_digits r Hr) as (ys & Ey & Dy & Ny & My & Zy & _ & Ty).
  destruct l as [ls ll lg], r as [rs rl rg]. cbn [source dlength] in *. subst ls rs.
  destruct (sum_source_spec xs ys Dx Dy Nx Ny ltac:(lia) ltac:(lia) ll lg rl rg) as (out & -> & Do & Vo & To).
  unfold with_sign. cbn [source]. rewrite Mx, My.
  assert (Lo : (Nat.max (length xs) (length ys) <= length out <= S (Nat.max (length xs) (length ys)))%nat) by lia.
  pose proof (le_val_bound 10 xs ltac:(lia) Dx). pose proof (le_val_bound 10 ys ltac:(lia) Dy).
  destruct (canonical_of out ll s Do Hs) as [C V].
  - lia.
  - destruct To as [To|[To1 To2]].
    + destruct (Nat.le_ge_cases (length xs) (length ys)).
      * replace (length out) with (length ys) by lia.
        destruct Ty as [Ty|Ty]; [left; lia|right]. rewrite Vo. rewrite <- Zy. lia.
      * replace (length out) with (length xs) by lia.
        destruct Tx as [Tx|Tx]; [left; lia|right]. rewrite Vo. rewrite <- Zx. lia.
    + right. replace (Z.of_nat (length out) - 1) with (Z.of_nat (Nat.max (length xs) (length ys))) by lia. exact To2.
  - split; [split; [exact C|]; split; [reflexivity|]; split; [rewrite V; exact Vo | reflexivity]|].
    rewrite (size_digits _ out) by reflexivity. lia.
Qed.

Lemma subtract_spec l r s :
  canonical l -> canonical r -> dlength l = dlength r -> sizes_ok l r -> mag r <= mag l ->
  s = plus_sign \/ s = minus_sign ->
  is_decimal (unlead (with_sign s (dlength l) (subtract l r))) s (mag l - mag r) (dlength l) /\
  size_of (unlead (with_sign s (dlength l) (subtract l r))) <= size_of l.
Proof.
  intros Hl Hr El [Sl Sr] Hle Hs.
  pose proof Hl as [_ _ Ll _]. pose proof Hr as [_ _ Lr _].
  destruct (canonical_digits l Hl) as (xs & Ex & Dx & Nx & Mx & Zx & Bx & Tx).
  destruct (canonical_digits r Hr) as (ys & Ey & Dy & Ny & My & Zy & _ & Ty).
  destruct l as [ls ll lg], r as [rs rl rg]. cbn [source dlength] in *. subst ls rs.
  assert (Len : (length ys <= length xs)%nat).
  { destruct (Nat.le_gt_cases (length ys) (length xs)) as [|Hgt]; [assumption|].
    destruct Ty as [Ty|Ty]; [lia|].
    assert (10 ^ size_of (mk_decimal (cs xs) ll lg) <= 10 ^ (size_of (mk_decimal (cs ys) rl rg) - 1)) by (apply Z.pow_le_mono_r; lia).
    lia. }
  rewrite Mx, My in Hle.
  destruct (subtract_source_spec xs ys Dx Dy Ny ltac:(lia) Len Hle ll lg rl rg) as (out & -> & Do & Lo & Vo).
  unfold with_sign. cbn [source].
  destruct (unlead_spec out ll s Do ltac:(lia) Hs) as (C & M & L & G & Z0).
  split; [|lia]. split; [exact C|]. split; [exact G|]. split; [rewrite M, Mx, My; exact Vo | exact L].
Qed.

(** The branch on unlike signs: [num] of the result is the difference with the given signs. *)
Lemma difference_spec l r s1 s2 :
  canonical l -> canonical r -> dlength l = dlength r -> sizes_ok l r ->
  s1 = plus_sign \/ s1 = minus_sign -> s2 = plus_sign \/ s2 = minus_sign ->
  let d := difference l r s1 s2 in
  canonical d /\ size_of d <= Z.max (size_of l) (size_of r) /\
  (mag l = mag r /\ is_decimal d plus_sign 0 0 \/
   mag r < mag l /\ is_decimal d s1 (mag l - mag r) (dlength l) \/
   mag l < mag r /\ is_decimal d s2 (mag r - mag l) (dlength l)).
Proof.
  intros Hl Hr El Hsz Hs1 Hs2 d. subst d. unfold difference.
  pose proof Hl as [_ _ Ll _]. pose proof Hr as [_ _ Lr _].
  rewrite compare_num_spec by (assumption || apply Hsz). rewrite <- El.
  rewrite compare_scaled by (apply Z.pow_pos_nonneg; lia).
  destruct (Z.compare_spec (mag l) (mag r)) as [E|E|E]; cbn [order_code Z.eqb Pos.eqb].
  - pose proof zero_spec as Z0. split; [apply Z0|].
    split; [change (size_of (decimal_of_int 0)) with 1; lia|]. left. now split.
  - destruct (subtract_spec r l s2 Hr Hl (eq_sym El) (conj (proj2 Hsz) (proj1 Hsz)) ltac:(lia) Hs2) as [D S].
    rewrite <- El in D, S. split; [apply D|]. split; [lia|]. right. right. now split.
  - destruct (subtract_spec l r s1 Hl Hr El Hsz ltac:(lia) Hs1) as [D S].
    split; [apply D|]. split; [lia|]. right. left. now split.
Qed.

Lemma difference_value l r s1 s2 :
  canonical l -> canonical r -> dlength l = dlength r -> sizes_ok l r ->
  s1 = plus_sign /\ s2 = minus_sign \/ s1 = minus_sign /\ s2 = plus_sign ->
  let d := difference l r s1 s2 in
  canonical d /\ size_of d <= Z.max (size_of l) (size_of r) /\ 0 <= dlength d <= dlength l /\
  (value d == (if s1 =? plus_sign then mag l - mag r else mag r - mag l) # Z.to_pos (10 ^ dlength l))%Q.
Proof.
  intros Hl Hr El Hsz Hs d. pose proof Hl as [_ _ Ll _].
  destruct (difference_spec l r s1 s2 Hl Hr El Hsz) as (C & S & D); [intuition auto..|].
  fold d in C, S, D. split; [exact C|]. split; [exact S|].
  destruct D as [[E (_ & G & M & L)]|[[E (_ & G & M & L)]|[E (_ & G & M & L)]]].
  - split; [lia|]. rewrite (value_at (dlength l)) by lia. rewrite num_plus, M by assumption.
    rewrite Z.mul_0_l, E, Z.sub_diag. now destruct (s1 =? plus_sign).
  - split; [lia|]. apply value_mk; [assumption|]. unfold num. rewrite G, M.
    destruct Hs as [[-> ->]|[-> ->]]; signs; lia.
  - split; [lia|]. apply value_mk; [assumption|]. unfold num. rewrite G, M.
    destruct Hs as [[-> ->]|[-> ->]]; signs; lia.
Qed.

Lemma sum_value l r s :
  canonical l -> canonical r -> dlength l = dlength r -> sizes_ok l r ->
  s = plus_sign \/ s = minus_sign ->
  let d := with_sign s (dlength l) (sum l r) in
  canonical d /\ size_of d <= Z.max (size_of l) (size_of r) + 1 /\ 0 <= dlength d <= dlength l /\
  (value d == (if s =? plus_sign then mag l + mag r else - (mag l + mag r)) # Z.to_pos (10 ^ dlength l))%Q.
Proof.
  intros Hl Hr El Hsz Hs d. pose proof Hl as [_ _ Ll _].
  destruct (sum_spec l r s Hl Hr El Hsz Hs) as [(C & G & M & L) S]. fold d in C, G, M, L, S.
  split; [exact C|]. split; [exact S|]. split; [lia|]. apply value_mk; [assumption|].
  unfold num. rewrite G, M. destruct Hs as [-> | ->]; reflexivity.
Qed.

(** Alignment of the two operands to the longer fraction. *)
Lemma align_spec l r :
  canonical l -> canonical r ->
  let right := if dlength r <? dlength l then pad_to (dlength l) r else r in
  let left := if dlength l <? dlength r then pad_to (dlength r) l else l in
  let k := Z.max (dlength l) (dlength r) in
  (canonical left /\ sign left = sign l /\ dlength left = k /\ size_of left <= size_of l + dlength r /\
   (value l == num left # Z.to_pos (10 ^ k))%Q) /\
  (canonical right /\ sign right = sign r /\ dlength right = k /\ size_of right <= size_of r + dlength l /\
   (value r == num right # Z.to_pos (10 ^ k))%Q).
Proof.
  intros Hl Hr right left k.
  assert (P : forall a b, canonical a -> 0 <= dlength b ->
    let c := if dlength a <? dlength b then pad_to (dlength b) a else a in
    canonical c /\ sign c = sign a /\ dlength c = Z.max (dlength a) (dlength b) /\
    size_of c <= size_of a + dlength b /\
    (value a == num c # Z.to_pos (10 ^ Z.max (dlength a) (dlength b)))%Q).
  { intros a b Ha Hb c. pose proof Ha as [_ _ La _]. subst c.
    destruct (Z.ltb_spec (dlength a) (dlength b)).
    - destruct (pad_to_spec (dlength b) a Ha ltac:(lia)) as (C & M & L & G & S).
      rewrite Z.max_r by lia. do 3 (split; [assumption|]). split; [lia|].
      rewrite (value_at (dlength b)) by lia. unfold num. rewrite G, M.
      destruct (sign a =? minus_sign); [rewrite Z.mul_opp_l|]; reflexivity.
    - rewrite Z.max_l by lia. do 2 (split; [assumption || reflexivity|]). split; [reflexivity|].
      split; [lia|]. reflexivity. }
  pose proof Hl as [_ _ Ll _]. pose proof Hr as [_ _ Lr _]. split; [apply (P l r); [assumption|lia]|].
  pose proof (P r l Hr ltac:(lia)) as Q0. cbv zeta in Q0. rewrite (Z.max_comm (dlength r)) in Q0. exact Q0.
Qed.

(** The four sign combinations of [+] and [-] on aligned operands. *)
Lemma signed_sum_value (l r : decimal) (sr : Z) (k : Z) :
  canonical l -> canonical r -> dlength l = k -> dlength r = k -> sizes_ok l r ->
  sr = plus_sign \/ sr = minus_sign ->
  let d := if (sign l =? plus_sign) && (sr =? minus_sign) then difference l r plus_sign minus_sign
    else if (sign l =? minus_sign) && (sr =? plus_sign) then difference l r minus_sign plus_sign
    else with_sign (sign l) k (sum l r) in
  canonical d /\ size_of d <= Z.max (size_of l) (size_of r) + 1 /\ 0 <= dlength d <= k /\
  (value d == (num l + (if sr =? minus_sign then - mag r else mag r)) # Z.to_pos (10 ^ k))%Q.
Proof.
  intros Hl Hr <- Er Hsz Hsr d. symmetry in Er. subst d. pose proof Hl as [_ Sl _ _].
  destruct Sl as [Sl|Sl], Hsr as [->| ->]; rewrite Sl;
    signs.
  - destruct (sum_value l r plus_sign Hl Hr Er Hsz ltac:(now left)) as (C & S & L & V).
    rewrite num_plus by assumption. now repeat (split; [assumption|]).
  - destruct (difference_value l r plus_sign minus_sign Hl Hr Er Hsz ltac:(now left)) as (C & S & L & V).
    rewrite num_plus by assumption. split; [exact C|]. split; [lia|]. split; [exact L | exact V].
  - destruct (difference_value l r minus_sign plus_sign Hl Hr Er Hsz ltac:(now right)) as (C & S & L & V).
    rewrite num_minus by assumption. split; [exact C|]. split; [lia|]. split; [exact L|].
    rewrite V. signs. replace (- mag l + mag r) with (mag r - mag l) by ring. reflexivity.
  - destruct (sum_value l r minus_sign Hl Hr Er Hsz ltac:(now right)) as (C & S & L & V).
    rewrite num_minus by assumption. split; [exact C|]. split; [lia|]. split; [exact L|].
    rewrite V. signs. replace (- mag l + - mag r) with (- (mag l + mag r)) by ring. reflexivity.
Qed.

Lemma decimal_add_spec l r :
  canonical l -> canonical r -> size_of l < 2 ^ 60 -> size_of r < 2 ^ 60 ->
  canonical (decimal_add l r) /\ size_of (decimal_add l r) <= size_of l + size_of r + 1 /\
  0 <= dlength (decimal_add l r) <= Z.max (dlength l) (dlength r) /\
  (value (decimal_add l r) == value l + value r)%Q.
Proof.
  intros Hl Hr Sl Sr. unfold decimal_add. rewrite !canonical_not_nan by assumption. cbn [orb].
  pose proof Hl as [_ _ Ll _]. pose proof Hr as [_ Gr Lr _].
  destruct (align_spec l r Hl Hr) as [(Cl & Gl & Kl & Zl & Vl) (Cr & Gr' & Kr & Zr & Vr)].
  set (right := if dlength r <? dlength l then pad_to (dlength l) r else r) in *.
  set (left := if dlength l <? dlength r then pad_to (dlength r) l else l) in *.
  set (k := Z.max (dlength l) (dlength r)) in *. rewrite <- Gr' in Gr.
  destruct (signed_sum_value left right (sign right) k Cl Cr Kl Kr) as (C & S & L & V); [split; lia|assumption|].
  assert (B : size_of left <= size_of l + size_of r /\ size_of right <= size_of l + size_of r) by lia.
  assert (N : num right = (if sign right =? minus_sign then - mag right else mag right)) by reflexivity.
  rewrite <- N in V. rewrite Vl, Vr, Qplus_same. clearbody left right. clear Vl Vr Zl Zr Gl Gr' N.
  pose proof Cl as [_ Gl _ _]. rewrite Kl.
  destruct Gl as [Gl|Gl], Gr as [Gr|Gr]; rewrite Gl, Gr in *; signs;
    (split; [exact C|]; split; [lia|]; split; [exact L | exact V]).
Qed.

Lemma decimal_sub_spec l r :
  canonical l -> canonical r -> size_of l < 2 ^ 60 -> size_of r < 2 ^ 60 ->
  canonical (decimal_sub l r) /\ size_of (decimal_sub l r) <= size_of l + size_of r + 1 /\
  0 <= dlength (decimal_sub l r) <= Z.max (dlength l) (dlength r) /\
  (value (decimal_sub l r) == value l - value r)%Q.
Proof.
  intros Hl Hr Sl Sr. unfold decimal_sub. rewrite !canonical_not_nan by assumption. cbn [orb].
  pose proof Hl as [_ _ Ll _]. pose proof Hr as [_ Gr Lr _].
  destruct (align_spec l r Hl Hr) as [(Cl & Gl & Kl & Zl & Vl) (Cr & Gr' & Kr & Zr & Vr)].
  set (right := if dlength r <? dlength l then pad_to (dlength l) r else r) in *.
  set (left := if dlength l <? dlength r then pad_to (dlength r) l else l) in *.
  set (k := Z.max (dlength l) (dlength r)) in *. rewrite <- Gr' in Gr.
  set (flip := if sign right =? plus_sign then minus_sign else plus_sign).
  destruct (signed_sum_value left right flip k Cl Cr Kl Kr) as (C & S & L & V);
    [split; lia | unfold flip; destruct (sign right =? plus_sign); auto |].
  assert (B : size_of left <= size_of l + size_of r /\ size_of right <= size_of l + size_of r) by lia.
  rewrite Vl, Vr, Qminus_same.
  assert (N : (if flip =? minus_sign then - mag right else mag right) = - num right).
  { unfold flip, num. destruct Gr as [Gr|Gr]; rewrite Gr; signs; lia. }
  rewrite N in V. unfold flip in *. clear flip N. clearbody left right. clear Vl Vr Zl Zr Gl Gr'.
  pose proof Cl as [_ Gl _ _]. rewrite Kl.
  destruct Gl as [Gl|Gl], Gr as [Gr|Gr]; rewrite Gl, Gr in *; signs;
    (split; [exact C|]; split; [lia|]; split; [exact L | exact V]).
Qed.

Lemma decimal_mul_spec l r :
  canonical l -> canonical r -> size_of l < 2 ^ 60 -> size_of r < 2 ^ 60 ->
  let d := decimal_mul l r in
  is_decimal d (if same_signs l r then plus_sign else minus_sign) (mag l * mag r) (dlength l + dlength r) /\
  size_of d <= size_of l + size_of r + 1 /\ (value d == value l * value r)%Q.
Proof.
  intros Hl Hr Sl Sr d. subst d. unfold decimal_mul. rewrite !canonical_not_nan by assumption. cbn [orb].
  pose proof Hl as [_ Gl Ll _]. pose proof Hr as [_ Gr Lr _].
  destruct (canonical_digits l Hl) as (xs & Ex & Dx & Nx & Mx & Zx & _).
  destruct (canonical_digits r Hr) as (ys & Ey & Dy & Ny & My & Zy & _).
  unfold multiply. rewrite Ex, Ey. change [zero_char] with (cs [0]).
  destruct (multiply_loop_spec ys 0 xs [0]) as (out & -> & Do & Vo & L1 & L2 & L3); try assumption.
  - apply digits_cons. split; [lia|constructor].
  - discriminate.
  - cbn [length]. lia.
  - lia.
  - specialize (L3 Ny). unfold with_sign. cbn [source].
    set (s := if same_signs l r then plus_sign else minus_sign).
    assert (Hs : s = plus_sign \/ s = minus_sign) by (unfold s; destruct (same_signs l r); auto).
    destruct (unlead_spec out (dlength l + dlength r) s Do ltac:(lia) Hs) as (C & M & L & G & Z0).
    assert (V : le_val 10 out = mag l * mag r) by (rewrite Vo, Mx, My; cbn; lia).
    split; [split; [exact C|]; split; [exact G|]; split; [now rewrite M | exact L]|].
    split; [lia|]. rewrite value_mk by (exact L || reflexivity).
    unfold value, Qeq, Qmult. cbn [Qnum Qden]. rewrite Pos2Z.inj_mul, !scale_pos, Z.pow_add_r by lia.
    unfold num. rewrite G, M, V. unfold s, same_signs.
    destruct Gl as [Gl|Gl], Gr as [Gr|Gr]; rewrite Gl, Gr; signs; ring.
Qed.

(** ** Facts: order *)
Lemma is_zero_cs ds : digits 10 ds -> forallb (fun c => c =? zero_char) (cs ds) = (le_val 10 ds =? 0).
Proof.
  induction 1 as [|d ds Hd Hds IH]; [reflexivity|]. cbn [cs map forallb le_val].
  change (map dchar ds) with (cs ds). rewrite IH.
  pose proof (le_val_bound 10 ds ltac:(lia) Hds). unfold dchar, zero_char.
  destruct (Z.eqb_spec (le_val 10 ds) 0); lia.
Qed.

Lemma is_zero_spec d : canonical d -> is_zero d = (mag d =? 0).
Proof.
  intros Hd. destruct (canonical_digits d Hd) as (ds & E & Dd & _ & M & _). unfold is_zero.
  rewrite E, M. now apply is_zero_cs.
Qed.

Lemma mag_nonneg d : canonical d -> 0 <= mag d.
Proof. intros Hd. destruct (canonical_digits d Hd) as (ds & _ & _ & _ & _ & _ & B & _). lia. Qed.

Definition is_lt (c : comparison) : bool := match c with Lt => true | _ => false end.
Definition is_gt (c : comparison) : bool := match c with Gt => true | _ => false end.

Lemma value_compare l r : 0 <= dlength l -> 0 <= dlength r ->
  (value l ?= value r)%Q = (num l * 10 ^ dlength r ?= num r * 10 ^ dlength l).
Proof. intros. unfold value, Qcompare. cbn [Qnum Qden]. now rewrite !scale_pos by assumption. Qed.

(** The comparison of the magnitudes and of the zeros decides every sign combination. *)
Lemma order_spec l r :
  canonical l -> canonical r -> sizes_ok l r ->
  decimal_lt l r = is_lt (value l ?= value r)%Q /\ decimal_gt l r = is_gt (value l ?= value r)%Q.
Proof.
  intros Hl Hr [Sl Sr]. pose proof Hl as [_ Gl Ll _]. pose proof Hr as [_ Gr Lr _].
  rewrite value_compare by lia. unfold decimal_lt, decimal_gt.
  rewrite !canonical_not_nan, !is_zero_spec, compare_num_spec by assumption. cbn [orb].
  pose proof (mag_nonneg l Hl) as Nl. pose proof (mag_nonneg r Hr) as Nr.
  assert (Pl : 0 < 10 ^ dlength l) by (apply Z.pow_pos_nonneg; lia).
  assert (Pr : 0 < 10 ^ dlength r) by (apply Z.pow_pos_nonneg; lia).
  set (pl := 10 ^ dlength l) in *. set (pr := 10 ^ dlength r) in *. clearbody pl pr.
  unfold num. destruct Gl as [Gl|Gl], Gr as [Gr|Gr]; rewrite Gl, Gr; signs.
  - destruct (Z.compare_spec (mag l * pr) (mag r * pl)); split; reflexivity.
  - destruct (Z.eqb_spec (mag l) 0), (Z.eqb_spec (mag r) 0); cbn [andb];
      destruct (Z.compare_spec (mag l * pr) (- mag r * pl)); split; try reflexivity; nia.
  - destruct (Z.eqb_spec (mag l) 0), (Z.eqb_spec (mag r) 0); cbn [andb];
      destruct (Z.compare_spec (- mag l * pr) (mag r * pl)); split; try reflexivity; nia.
  - rewrite !Z.mul_opp_l, Z.compare_opp, (Z.compare_antisym (mag l * pr) (mag r * pl)).
    destruct (Z.compare_spec (mag l * pr) (mag r * pl)); split; reflexivity.
Qed.

Lemma decimal_ge_spec l r :
  canonical l -> canonical r -> sizes_ok l r -> sign l = plus_sign -> sign r = plus_sign ->
  dlength l = 0 -> dlength r = 0 -> decimal_ge l r = (mag r <=? mag l).
Proof.
  intros Hl Hr Hs Gl Gr El Er. unfold decimal_ge. rewrite !canonical_not_nan by assumption. cbn [orb].
  destruct (order_spec l r Hl Hr Hs) as [-> _]. rewrite value_compare by lia.
  rewrite El, Er, Z.pow_0_r, !Z.mul_1_r, !num_plus by assumption.
  destruct (Z.compare_spec (mag l) (mag r)); cbn [is_lt negb]; lia.
Qed.

Lemma decimal_eq_spec l r :
  canonical l -> canonical r -> sizes_ok l r ->
  decimal_eq l r = (mag l * 10 ^ dlength r =? mag r * 10 ^ dlength l) && (sign l =? sign r).
Proof.
  intros Hl Hr [Sl Sr]. unfold decimal_eq. rewrite !canonical_not_nan, compare_num_spec by assumption.
  cbn [orb]. f_equal. destruct (Z.compare_spec (mag l * 10 ^ dlength r) (mag r * 10 ^ dlength l));
    cbn [order_code]; lia.
Qed.

(** ** Facts: reading text *)
Lemma isdigit_dchar d : 0 <= d < 10 -> isdigit (dchar d) = true.
Proof. unfold isdigit, dchar. lia. Qed.

Lemma push_digits_cs ds s : digits 10 ds -> push_digits (cs ds) s = Some (s ++ cs ds).
Proof.
  intros H. revert s. induction H as [|d ds Hd _ IH]; intros s; cbn [cs map push_digits].
  - now rewrite app_nil_r.
  - change (map dchar ds) with (cs ds). rewrite isdigit_dchar, IH, <- app_assoc by assumption. reflexivity.
Qed.

Lemma find_point_cs ds rest :
  digits 10 ds -> find_point (cs ds ++ rest) = (fun n => (length ds + n)%nat) <$> find_point rest.
Proof.
  induction 1 as [|d ds Hd _ IH]; cbn [cs map app find_point length].
  - destruct (find_point rest); reflexivity.
  - change (map dchar ds) with (cs ds). rewrite IH.
    destruct (Z.eqb_spec (dchar d) 46); [unfold dchar in *; lia|].
    destruct (find_point rest); reflexivity.
Qed.

Definition sign_text (s : Z) : list Z := if s =? minus_sign then [minus_sign] else [].
Definition fraction_text (ds : list Z) : list Z := match ds with [] => [] | _ => 46 :: cs ds end.

(** A numeral with an optional sign, at least one integer digit and an optional fraction. *)
Lemma parse_spec s ip fp :
  s = plus_sign \/ s = minus_sign -> digits 10 ip -> digits 10 fp -> ip <> [] ->
  decimal_of_text (sign_text s ++ cs ip ++ fraction_text fp) =
  mk_decimal (cs (rev (ip ++ fp))) (Z.of_nat (length fp)) s.
Proof.
  intros Hs Hi Hf Hne. unfold decimal_of_text.
  assert (Body : forall sg, (match find_point (cs ip ++ fraction_text fp) with
    | None => match push_digits (cs ip ++ fraction_text fp) [] with
              | None => invalid_number | Some t => mk_decimal (rev t) 0 sg end
    | Some p => match push_digits (firstn p (cs ip ++ fraction_text fp)) [] with
        | None => invalid_number
        | Some t => match push_digits (skipn (S p) (cs ip ++ fraction_text fp)) t with
            | None => invalid_number
            | Some t => mk_decimal (rev t) (0 + Z.of_nat (length (skipn (S p) (cs ip ++ fraction_text fp)))) sg
            end end end) = mk_decimal (cs (rev (ip ++ fp))) (Z.of_nat (length fp)) sg).
  { intros sg. rewrite find_point_cs by assumption. destruct fp as [|f fp].
    - cbn [fraction_text find_point fmap option_fmap option_map]. rewrite !app_nil_r.
      rewrite push_digits_cs by assumption. cbn [app]. unfold cs. now rewrite map_rev.
    - cbn [fraction_text find_point fmap option_fmap option_map Z.eqb Pos.eqb].
      rewrite Nat.add_0_r.
      assert (Lc : length (cs ip) = length ip) by (unfold cs; apply length_map).
      rewrite firstn_app, Lc, Nat.sub_diag, firstn_O, app_nil_r, firstn_all2 by lia.
      rewrite skipn_app, Lc, skipn_all2 by lia.
      replace (S (length ip) - length ip)%nat with 1%nat by lia. cbn [skipn app].
      rewrite push_digits_cs by assumption. cbn iota. rewrite !skipn_O, push_digits_cs by assumption.
      cbn iota. cbn [app]. unfold cs.
      now rewrite <- map_app, <- map_rev, length_map. }
  destruct ip as [|i ip]; [contradiction|].
  pose proof (proj1 (digits_cons _ _ _) Hi) as [Hi0 Hip].
  assert (Ni : negb ((dchar i =? plus_sign) || (dchar i =? minus_sign)) = true)
    by (unfold dchar, plus_sign, minus_sign; lia).
  destruct Hs as [-> | ->].
  - change (sign_text plus_sign) with (@nil Z). cbn [app].
    destruct (cs (i :: ip) ++ fraction_text fp) as [|c [|c' text]] eqn:E.
    + discriminate.
    + destruct fp as [|f fp]; [|destruct ip; discriminate]. destruct ip as [|i' ip]; [|discriminate].
      cbn in E. injection E as <-. cbn [apply_base10]. rewrite isdigit_dchar by assumption. reflexivity.
    + etransitivity; [|exact (Body plus_sign)].
      assert (Ec : c = dchar i) by (cbn in E; congruence). subst c. unfold apply_base10.
      rewrite Ni, (proj1 (negb_true_iff _) Ni), isdigit_dchar by assumption. reflexivity.
  - change (sign_text minus_sign) with [minus_sign]. cbn [app].
    destruct (cs (i :: ip) ++ fraction_text fp) as [|c text] eqn:E; [discriminate|].
    etransitivity; [|exact (Body minus_sign)]. reflexivity.
Qed.

Lemma parse_value s ip fp :
  s = plus_sign \/ s = minus_sign -> digits 10 ip -> digits 10 fp -> ip <> [] ->
  (ip = [0] \/ no_leading_zero ip) ->
  is_decimal (decimal_of_text (sign_text s ++ cs ip ++ fraction_text fp)) s (be_val 10 (ip ++ fp))
    (Z.of_nat (length fp)).
Proof.
  intros Hs Hi Hf Hne Hz. rewrite parse_spec by assumption.
  assert (Da : digits 10 (ip ++ fp)) by now apply digits_app.
  assert (L : 0 < Z.of_nat (length ip)) by (destruct ip; [contradiction|cbn; lia]).
  destruct (canonical_of (rev (ip ++ fp)) (Z.of_nat (length fp)) s) as [C M].
  - auto with vitex.
  - assumption.
  - rewrite length_rev, length_app. lia.
  - rewrite length_rev, length_app. destruct Hz as [->|Hz]; [left; cbn; lia|right].
    rewrite <- length_app, <- length_rev. apply last_digit_val; [lia|auto with vitex|..].
    + intros E. apply (f_equal (@length Z)) in E. rewrite length_rev, length_app in E. cbn in E. lia.
    + destruct ip as [|i ip]; [contradiction|]. cbn [app rev]. now rewrite List.last_last.
  - split; [exact C|]. split; [reflexivity|]. split; [|reflexivity].
    rewrite M, be_val_rev. reflexivity.
Qed.

(** ** Facts: integers *)
Lemma digits10_spec fuel v :
  0 <= v < 10 ^ Z.of_nat fuel ->
  digits 10 (digits10 fuel v) /\ be_val 10 (digits10 fuel v) = v /\
  (fuel = O \/ digits10 fuel v <> [] /\ (v <> 0 -> no_leading_zero (digits10 fuel v))).
Proof.
  revert v. induction fuel as [|fuel IH]; intros v Hv.
  - rewrite Z.pow_0_r in Hv. split; [constructor|]. split; [unfold be_val; cbn; lia | now left].
  - cbn [digits10]. rewrite Nat2Z.inj_succ, Z.pow_succ_r in Hv by lia.
    destruct (Z.ltb_spec v 10).
    + split; [apply digits_cons; split; [lia|constructor]|]. split; [reflexivity|].
      right. split; [discriminate|]. cbn. auto.
    + destruct (IH (v / 10)) as (D & V & T); [lia|].
      split; [apply digits_app; split; [assumption|apply digits_cons; split; [lia|constructor]]|].
      split; [rewrite be_val_snoc, V; lia|]. right. split; [now destruct (digits10 fuel (v / 10))|].
      intros _. destruct T as [->|[T1 T2]]; [cbn in *; lia|].
      destruct (digits10 fuel (v / 10)) as [|x l]; [contradiction|]. cbn. apply T2. lia.
Qed.

Lemma decimal_of_int_spec n :
  Z.abs n < 10 ^ 20 ->
  is_decimal (decimal_of_int n) (if n <? 0 then minus_sign else plus_sign) (Z.abs n) 0.
Proof.
  intros Hn. unfold decimal_of_int. destruct (Z.eqb_spec n 0) as [->|Hnz]; cbn [negb].
  - exact zero_spec.
  - destruct (digits10_spec 20 (Z.abs n)) as (D & V & T); [split; [lia|exact Hn]|].
    destruct T as [T|[T1 T2]]; [discriminate|].
    change (apply_base10 decimal_default (to_chars n)) with (decimal_of_text (to_chars n)).
    assert (E : to_chars n = sign_text (if n <? 0 then minus_sign else plus_sign) ++
                             cs (digits10 20 (Z.abs n)) ++ fraction_text []).
    { unfold to_chars. cbn [fraction_text]. rewrite app_nil_r. destruct (n <? 0); reflexivity. }
    rewrite E. pose proof (parse_value (if n <? 0 then minus_sign else plus_sign)
      (digits10 20 (Z.abs n)) []) as P.
    rewrite (app_nil_r (digits10 20 (Z.abs n))), V in P.
    apply P; try assumption; [destruct (n <? 0); auto | constructor | right; apply T2; lia].
Qed.

(** ** Facts: printing *)
Lemma trailing_zeros_spec ds n :
  digits 10 ds -> 0 <= n -> n <= Z.of_nat (length ds) ->
  let t := trailing_zeros (cs ds) n in
  Z.of_nat t <= n /\ firstn t ds = repeat 0 t /\
  untrail_loop (cs ds) n = (cs (skipn t ds), n - Z.of_nat t) /\
  (Z.of_nat t < n -> nth t ds 0 <> 0).
Proof.
  intros Hd. revert n. induction Hd as [|d ds Hd _ IH]; intros n Hn Hl; cbv zeta.
  - cbn in *. repeat split; try lia. f_equal. lia.
  - cbn [cs map trailing_zeros untrail_loop]. change (map dchar ds) with (cs ds).
    cbn [length] in Hl. destruct (Z.eqb_spec (dchar d) zero_char) as [E|E]; cbn [andb].
    + destruct (Z.ltb_spec 0 n).
      * destruct (IH (n - 1) ltac:(lia) ltac:(lia)) as (H1 & H2 & H3 & H4).
        set (t := trailing_zeros (cs ds) (n - 1)) in *. cbn [firstn repeat skipn nth].
        replace d with 0 by (unfold dchar, zero_char in E; lia).
        split; [lia|]. split; [now rewrite H2|]. split; [rewrite H3; f_equal; lia|]. intros. apply H4. lia.
      * rewrite firstn_O, skipn_O. repeat split; try lia. f_equal. lia.
    + rewrite firstn_O, skipn_O. split; [lia|]. split; [reflexivity|]. split; [f_equal; lia|].
      intros _. cbn. unfold dchar, zero_char in E. lia.
Qed.

Lemma untrail_eq d : canonical d ->
  untrail d = mk_decimal (fst (untrail_loop (source d) (dlength d)))
                (snd (untrail_loop (source d) (dlength d))) (sign d).
Proof.
  intros Hd. unfold untrail. rewrite canonical_not_nan by assumption. cbn [orb].
  rewrite bool_decide_eq_false_2.
  - now destruct (untrail_loop (source d) (dlength d)).
  - intros E. destruct Hd as [_ _ Hl _]. unfold size_of in Hl. rewrite E in Hl. cbn in Hl. lia.
Qed.

Lemma untrail_spec d :
  canonical d ->
  canonical (untrail d) /\ (value (untrail d) == value d)%Q /\ sign (untrail d) = sign d /\
  0 <= dlength (untrail d) <= dlength d.
Proof.
  intros Hd. rewrite untrail_eq by assumption.
  destruct (canonical_digits d Hd) as (ds & E & Dd & Hne & M & Z0 & B & T).
  destruct Hd as [_ Hs Hl _]. rewrite E.
  destruct (trailing_zeros_spec ds (dlength d) Dd ltac:(lia) ltac:(lia)) as (H1 & H2 & -> & H4).
  set (t := trailing_zeros (cs ds) (dlength d)) in *. cbn [fst snd].
  assert (V : le_val 10 ds = 10 ^ Z.of_nat t * le_val 10 (skipn t ds)).
  { rewrite <- (firstn_skipn t ds) at 1. rewrite H2. apply le_val_zeros. }
  assert (P : 0 < 10 ^ Z.of_nat t) by (apply Z.pow_pos_nonneg; lia).
  destruct (canonical_of (skipn t ds) (dlength d - Z.of_nat t) (sign d)) as [C Mg].
  - now apply digits_skipn.
  - assumption.
  - rewrite length_skipn. lia.
  - rewrite length_skipn. destruct T as [T|T]; [left; lia|right].
    rewrite M, V in T. apply (Z.mul_le_mono_pos_l _ _ (10 ^ Z.of_nat t)); [assumption|].
    rewrite <- Z.pow_add_r by lia. replace (Z.of_nat t + _) with (size_of d - 1) by lia. exact T.
  - split; [exact C|]. split; [|split; [reflexivity | cbn [dlength]; lia]].
    unfold value, Qeq. cbn [Qnum Qden dlength]. rewrite !scale_pos by lia.
    unfold num. cbn [sign]. rewrite Mg, M, V.
    replace (10 ^ dlength d) with (10 ^ Z.of_nat t * 10 ^ (dlength d - Z.of_nat t))
      by (rewrite <- Z.pow_add_r by lia; f_equal; lia).
    destruct (sign d =? minus_sign); ring.
Qed.

Lemma skipn_nth n (ds : list Z) : (n < length ds)%nat -> skipn n ds = nth n ds 0 :: skipn (S n) ds.
Proof.
  revert n. induction ds as [|x ds IH]; intros n Hn; [cbn in Hn; lia|].
  destruct n; [reflexivity|]. cbn [skipn nth]. apply IH. cbn in Hn. lia.
Qed.

Lemma map_char_seq ds a n : (a + n <= length ds)%nat ->
  map (char_at (cs ds)) (seq a n) = cs (firstn n (skipn a ds)).
Proof.
  revert a. induction n as [|n IH]; intros a Hl; [reflexivity|]. cbn [seq map].
  rewrite IH by lia. rewrite char_at_cs by lia.
  rewrite (skipn_nth a ds) by lia. reflexivity.
Qed.

Lemma print_cells s off len ix :
  (forall i, In i ix -> Z.of_nat i <> len) -> flat_map (print_cell s off len) ix = map (char_at s) ix.
Proof.
  induction ix as [|i ix IH]; intros H; [reflexivity|]. cbn [flat_map map].
  rewrite IH by (intros j Hj; apply H; now right). unfold print_cell at 1.
  destruct (Z.eqb_spec (Z.of_nat i) len) as [E|]; [exfalso; apply (H i); [now left|assumption]|]. reflexivity.
Qed.

(** The printing loop writes the integer digits, then the fraction from the first kept digit. *)
Lemma print_spec ds t n :
  (t <= n < length ds)%nat ->
  flat_map (print_cell (cs ds) t (Z.of_nat n)) (rev (seq t (length ds - t))) =
  cs (rev (skipn n ds)) ++ fraction_text (rev (skipn t (firstn n ds))).
Proof.
  intros Hn. replace (length ds - t)%nat with ((n - t) + (1 + (length ds - n - 1)))%nat by lia.
  rewrite !seq_app, !rev_app_distr, !flat_map_app. replace (t + (n - t))%nat with n by lia.
  rewrite print_cells, (print_cells _ _ _ (rev (seq t (n - t)))).
  2, 3: intros i Hi; rewrite <- in_rev, in_seq in Hi; lia.
  rewrite !map_rev, !map_char_seq by lia. cbn [seq rev app flat_map].
  unfold print_cell. rewrite Z.eqb_refl, char_at_cs by lia. cbn [andb].
  rewrite (firstn_all2 (skipn (n + 1) ds)) by (rewrite length_skipn; lia).
  rewrite (skipn_nth n ds) by lia. rewrite Nat.add_1_r. cbn [rev].
  unfold cs. rewrite map_app, !map_rev. cbn [map]. rewrite <- !app_assoc. f_equal. cbn [app]. f_equal.
  rewrite skipn_firstn_comm.
  destruct (Z.eqb_spec (Z.of_nat t) (Z.of_nat n)) as [Et|Et].
  - replace (n - t)%nat with O by lia. rewrite firstn_O. cbn [negb rev map fraction_text].
    now rewrite andb_false_r.
  - destruct (Z.eqb_spec (Z.of_nat n) 0); [lia|]. cbn [negb andb app]. rewrite <- map_rev.
    destruct (rev (firstn (n - t) (skipn t ds))) eqn:Er; [|reflexivity].
    apply (f_equal (@length Z)) in Er. rewrite length_rev, length_firstn, length_skipn in Er. cbn in Er. lia.
Qed.

(** Printing and reading back gives the value without trailing fraction zeros. *)
Lemma to_string_spec d :
  canonical d ->
  exists ip fp, to_string d = sign_text (sign d) ++ cs ip ++ fraction_text fp /\
    digits 10 ip /\ digits 10 fp /\ ip <> [] /\ (ip = [0] \/ no_leading_zero ip) /\
    cs (rev (ip ++ fp)) = source (untrail d) /\ Z.of_nat (length fp) = dlength (untrail d).
Proof.
  intros Hd. rewrite untrail_eq by assumption. unfold to_string.
  rewrite canonical_not_nan by assumption. cbn [orb].
  destruct (canonical_digits d Hd) as (ds & E & Dd & Hne & M & Z0 & B & T).
  destruct Hd as [_ Hs Hl Ht]. rewrite E.
  rewrite bool_decide_eq_false_2 by (destruct ds; [contradiction|discriminate]).
  destruct (trailing_zeros_spec ds (dlength d) Dd ltac:(lia) ltac:(lia)) as (H1 & H2 & -> & H4).
  set (t := trailing_zeros (cs ds) (dlength d)) in *. cbn [fst snd source dlength].
  unfold cs at 2. rewrite length_map.
  set (n := Z.to_nat (dlength d)). assert (En : Z.of_nat n = dlength d) by lia.
  exists (rev (skipn n ds)), (rev (skipn t (firstn n ds))).
  assert (Dn : digits 10 (skipn n ds)) by now apply digits_skipn.
  assert (Df : digits 10 (skipn t (firstn n ds))) by now apply digits_skipn, digits_firstn.
  assert (Ln : length (skipn n ds) <> 0%nat) by (rewrite length_skipn; lia).
  split; [f_equal | split; [|split; [|split; [|split; [|split]]]]].
  - rewrite <- En. apply print_spec. lia.
  - auto with vitex.
  - auto with vitex.
  - intros X. apply (f_equal (@length Z)) in X. rewrite length_rev in X. cbn in X. lia.
  - destruct (rev (skipn n ds)) as [|x l] eqn:Er.
    { apply (f_equal (@length Z)) in Er. rewrite length_rev in Er. cbn in Er. lia. }
    destruct (Z.eq_dec x 0) as [->|Hx]; [left|right; exact Hx]. f_equal.
    destruct l as [|y l]; [reflexivity|]. exfalso.
    assert (Els : List.last ds 0 = 0).
    { rewrite <- (firstn_skipn n ds), <- (rev_involutive (skipn n ds)), Er.
      cbn [rev]. rewrite app_assoc. apply List.last_last. }
    destruct Ht as [Ht|Ht].
    + apply (f_equal (@length Z)) in Er. rewrite length_rev, length_skipn in Er. cbn in Er. lia.
    + apply Ht. rewrite E. now apply last_cs.
  - rewrite <- rev_app_distr, rev_involutive. f_equal.
    rewrite <- (firstn_skipn n ds) at 3. rewrite skipn_app.
    replace (t - length (firstn n ds))%nat with O by (rewrite length_firstn; lia).
    now rewrite skipn_O.
  - rewrite length_rev, length_skipn, length_firstn. lia.
Qed.

(** ** Facts: precision *)
Lemma tail_iter k : forall d, Nat.iter k drop_digit d =
  mk_decimal (skipn k (source d)) (dlength d - Z.of_nat k) (sign d).
Proof.
  induction k as [|k IH]; intros [s l g].
  - cbn [Nat.iter nat_rect source dlength sign]. rewrite skipn_O. f_equal. lia.
  - change (Nat.iter (S k) drop_digit (mk_decimal s l g)) with
      (drop_digit (Nat.iter k drop_digit (mk_decimal s l g))).
    rewrite IH. unfold drop_digit. cbn [source dlength sign]. f_equal; [|lia].
    clear IH. revert s. induction k as [|k IH]; intros [|x s]; try reflexivity.
    cbn [skipn]. rewrite IH. reflexivity.
Qed.

Lemma drop_to_spec n d :
  canonical d -> 0 <= n <= dlength d ->
  is_decimal (drop_to n d) (sign d) (mag d / 10 ^ (dlength d - n)) n /\
  size_of (drop_to n d) <= size_of d.
Proof.
  intros Hd Hn. destruct (canonical_digits d Hd) as (ds & E & Dd & Hne & M & Z0 & B & T).
  destruct Hd as [_ Hs Hl Ht]. unfold drop_to. rewrite tail_iter, E.
  set (k := Z.to_nat (dlength d - n)). assert (K : Z.of_nat k = dlength d - n) by lia.
  assert (P : 0 < 10 ^ Z.of_nat k) by (apply Z.pow_pos_nonneg; lia).
  assert (V : le_val 10 (skipn k ds) = mag d / 10 ^ Z.of_nat k).
  { rewrite M. replace (le_val 10 ds) with (le_val 10 (firstn k ds ++ skipn k ds)) by now rewrite firstn_skipn.
    rewrite le_val_app, length_firstn, Nat.min_l by lia.
    pose proof (le_val_bound 10 (firstn k ds) ltac:(lia) ltac:(now apply digits_firstn)) as Bf.
    rewrite length_firstn, Nat.min_l in Bf by lia.
    rewrite Z.mul_comm, Z.div_add, Z.div_small by lia. lia. }
  assert (Es : skipn k (cs ds) = cs (skipn k ds)) by (unfold cs; apply skipn_map).
  rewrite Es. replace (dlength d - Z.of_nat k) with n by lia. rewrite <- K, <- V.
  destruct (canonical_of (skipn k ds) n (sign d)) as [C Mg].
  - now apply digits_skipn.
  - assumption.
  - rewrite length_skipn. lia.
  - rewrite length_skipn. destruct T as [T|T]; [left; lia|right]. rewrite V.
    apply Z.div_le_lower_bound; [assumption|]. rewrite <- Z.pow_add_r by lia.
    replace (Z.of_nat k + _) with (size_of d - 1) by lia. exact T.
  - split; [split; [exact C|]; split; [reflexivity|]; split; [exact Mg | reflexivity]|].
    rewrite (size_digits _ (skipn k ds)), length_skipn by reflexivity. lia.
Qed.

(** The magnitude scaled to [p] fraction digits, towards zero. *)
Definition scaled (d : decimal) (p : Z) : Z := mag d * 10 ^ p / 10 ^ dlength d.

Lemma scaled_up d p : 0 <= dlength d <= p -> scaled d p = mag d * 10 ^ (p - dlength d).
Proof.
  intros H. unfold scaled. replace (10 ^ p) with (10 ^ (p - dlength d) * 10 ^ dlength d)
    by (rewrite <- Z.pow_add_r by lia; f_equal; lia).
  rewrite Z.mul_assoc. apply Z.div_mul. apply Z.pow_nonzero; lia.
Qed.

Lemma scaled_down d p : 0 <= p <= dlength d -> scaled d p = mag d / 10 ^ (dlength d - p).
Proof.
  intros H. unfold scaled. replace (10 ^ dlength d) with (10 ^ (dlength d - p) * 10 ^ p)
    by (rewrite <- Z.pow_add_r by lia; f_equal; lia).
  apply Z.div_mul_cancel_r; apply Z.pow_nonzero; lia.
Qed.

Lemma truncate_spec p d :
  canonical d -> 0 <= p < 2 ^ 31 -> is_decimal (truncate p d) (sign d) (scaled d p) p.
Proof.
  intros Hd Hp. unfold truncate. rewrite canonical_not_nan, wrapS_id by (assumption || lia).
  pose proof Hd as [_ _ Hl _]. destruct (Z.ltb_spec (dlength d) p); [|destruct (Z.ltb_spec p (dlength d))].
  - rewrite scaled_up by lia. destruct (pad_to_spec p d Hd ltac:(lia)) as (C & M & L & G & _).
    now split.
  - rewrite scaled_down by lia. apply drop_to_spec; [assumption|lia].
  - replace p with (dlength d) by lia. rewrite scaled_up, Z.sub_diag, Z.pow_0_r, Z.mul_1_r by lia.
    now split.
Qed.

(** The digit that decides the rounding: the first one dropped. *)
Lemma last_dropped_spec p d :
  canonical d -> 0 <= p < dlength d ->
  char_to_int (last_dropped p d) = scaled d (p + 1) mod 10.
Proof.
  intros Hd Hp. unfold last_dropped.
  destruct (drop_to_spec (p + 1) d Hd ltac:(lia)) as [(C & _ & M & _) _].
  rewrite scaled_down by lia. rewrite <- M.
  destruct (canonical_digits _ C) as (ds & -> & Dd & Hne & -> & _).
  destruct ds as [|x ds]; [contradiction|]. apply digits_cons in Dd as [Hx _].
  cbn [cs map char_at nth le_val]. rewrite char_to_int_dchar by assumption. lia.
Qed.

Lemma scaled_digit d p :
  canonical d -> 0 <= p < dlength d ->
  (5 <=? scaled d (p + 1) mod 10) = (10 ^ dlength d <=? 2 * (mag d * 10 ^ p mod 10 ^ dlength d)).
Proof.
  intros Hd Hp. pose proof (mag_nonneg d Hd) as Hm. unfold scaled.
  set (q := 10 ^ dlength d). set (a := mag d * 10 ^ p).
  replace (mag d * 10 ^ (p + 1)) with (10 * a) by (unfold a; rewrite Z.pow_add_r by lia; ring).
  assert (Hq : q = 10 * 10 ^ (dlength d - 1)).
  { unfold q. rewrite <- Z.pow_succ_r by lia. f_equal. lia. }
  assert (0 < 10 ^ (dlength d - 1)) by (apply Z.pow_pos_nonneg; lia).
  assert (0 <= a) by (unfold a; apply Z.mul_nonneg_nonneg; [lia|apply Z.pow_nonneg; lia]).
  clearbody a. clear Hm. assert (Q0 : 0 < q) by lia. clearbody q.
  pose proof (Z.div_mod a q ltac:(lia)) as Da. pose proof (Z.mod_pos_bound a q Q0) as Ba.
  set (u := a / q) in *. set (r := a mod q) in *. clearbody u r. rename Ba into Br.
  assert (E : 10 * a / q = 10 * r / q + 10 * u).
  { rewrite Da. replace (10 * (q * u + r)) with (10 * r + (10 * u) * q) by ring. now apply Z.div_add; lia. }
  assert (B : 0 <= 10 * r / q < 10).
  { clear - Br Q0. split; [apply Z.div_pos; lia | apply Z.div_lt_upper_bound; lia]. }
  rewrite E, (Z.mul_comm 10 u), Z.mod_add, Z.mod_small by lia. clear - Q0 Br.
  destruct (Z.leb_spec 5 (10 * r / q)) as [H5|H5].
  - symmetry. apply Z.leb_le. pose proof (Z.mul_div_le (10 * r) q Q0). nia.
  - symmetry. apply Z.leb_gt. pose proof (Z.mul_succ_div_gt (10 * r) q Q0). nia.
Qed.

Lemma ulp_spec p : 0 < p -> is_decimal (decimal_of_text (ulp_text p)) plus_sign 1 p.
Proof.
  intros Hp. set (fp := repeat 0 (Z.to_nat (p - 1)) ++ [1]).
  assert (Df : digits 10 fp).
  { apply digits_app. split; [apply digits_repeat_0|]. apply digits_cons. split; [lia|constructor]. }
  assert (Lf : Z.of_nat (length fp) = p) by (unfold fp; rewrite length_app, repeat_length; cbn; lia).
  assert (E : ulp_text p = sign_text plus_sign ++ cs [0] ++ fraction_text fp).
  { unfold ulp_text, fp. rewrite cs_repeat. destruct (repeat 0 (Z.to_nat (p - 1)) ++ [1]) eqn:X.
    - now destruct (repeat 0 (Z.to_nat (p - 1))).
    - unfold fraction_text. rewrite <- X. unfold cs. rewrite map_app. reflexivity. }
  rewrite E. destruct (parse_value plus_sign [0] fp) as (C & G & M & L).
  - now left.
  - apply digits_cons. split; [lia|constructor].
  - assumption.
  - discriminate.
  - now left.
  - split; [exact C|]. split; [exact G|]. rewrite Lf in L. split; [|exact L]. rewrite M.
    unfold fp. cbn [app]. rewrite be_val_cons, be_val_snoc, be_val_rev, rev_repeat, le_val_repeat_0. lia.
Qed.

Lemma value_is d s n len :
  is_decimal d s n len -> (value d == (if Z.eqb s minus_sign then - n else n) # Z.to_pos (10 ^ len))%Q.
Proof. intros (C & <- & <- & <-). reflexivity. Qed.

Lemma round_spec p d :
  canonical d -> in_memory d -> 0 <= p < 2 ^ 31 ->
  canonical (round p d) /\
  (value (round p d) ==
     (if Z.eqb (sign d) minus_sign then - scaled d p else scaled d p) +
     b2z ((p <? dlength d) && (10 ^ dlength d <=? 2 * (mag d * 10 ^ p mod 10 ^ dlength d)))
     # Z.to_pos (10 ^ p))%Q.
Proof.
  intros Hd Hm Hp. unfold in_memory in Hm. unfold round.
  rewrite canonical_not_nan, wrapS_id by (assumption || lia).
  pose proof (truncate_spec p d Hd Hp) as T. unfold truncate in T.
  rewrite canonical_not_nan, wrapS_id in T by (assumption || lia).
  pose proof Hd as [_ Gd Hl _].
  destruct (Z.ltb_spec (dlength d) p); [|destruct (Z.ltb_spec p (dlength d)) as [Hlt|]].
  - destruct (Z.ltb_spec p (dlength d)); [lia|]. cbn [andb b2z]. rewrite Z.add_0_r.
    split; [apply T | exact (value_is _ _ _ _ T)].
  - rewrite last_dropped_spec, scaled_digit by (assumption || lia). cbn [andb].
    destruct (drop_to_spec p d Hd ltac:(lia)) as [_ Sz].
    destruct (10 ^ dlength d <=? 2 * (mag d * 10 ^ p mod 10 ^ dlength d)); cbn [b2z].
    + assert (A : forall one, is_decimal one plus_sign 1 p -> size_of one < 2 ^ 60 ->
        canonical (decimal_add (drop_to p d) one) /\
        (value (decimal_add (drop_to p d) one) ==
         (if sign d =? minus_sign then - scaled d p else scaled d p) + 1 # Z.to_pos (10 ^ p))%Q).
      { intros one Ho So. destruct (decimal_add_spec (drop_to p d) one) as (C & _ & _ & V);
          [apply T | apply Ho | lia | assumption |].
        split; [exact C|]. rewrite V, (value_is _ _ _ _ T), (value_is _ _ _ _ Ho). signs. apply Qplus_same. }
      destruct (Z.eqb_spec p 0) as [->|]; cbn [negb].
      * apply A; [apply (decimal_of_int_spec 1); lia|]. change (size_of (decimal_of_int 1)) with 1. lia.
      * apply A; [apply ulp_spec; lia|].
        destruct (ulp_spec p ltac:(lia)) as (C & _ & M & L).
        destruct (canonical_digits _ C) as (ds & _ & _ & _ & _ & _ & _ & T1).
        destruct T1 as [T1|T1]; [lia|]. rewrite M in T1.
        destruct (Z.le_gt_cases (size_of (decimal_of_text (ulp_text p))) 1); [lia|].
        pose proof (Z.pow_gt_1 10 (size_of (decimal_of_text (ulp_text p)) - 1) ltac:(lia)). lia.
    + rewrite Z.add_0_r. split; [apply T | exact (value_is _ _ _ _ T)].
  - cbn [andb b2z]. rewrite Z.add_0_r. split; [apply T | exact (value_is _ _ _ _ T)].
Qed.

(** ** Facts: conversion from a numeral in any base *)
Lemma from_mapping_range item : 0 <= at_table from_mapping item < 36.
Proof.
  unfold at_table. destruct (Nat.lt_ge_cases (Z.to_nat item) 256) as [Hlt|Hge].
  - assert (H : ((0 <=? nth (Z.to_nat item) from_mapping 0) && (nth (Z.to_nat item) from_mapping 0 <? 36)) = true).
    { assert (R : forall i, 0 <= i < 256 ->
        ((0 <=? nth (Z.to_nat i) from_mapping 0) && (nth (Z.to_nat i) from_mapping 0 <? 36)) = true)
        by (intros i Hi; by_range i 256).
      specialize (R (Z.of_nat (Z.to_nat item)) ltac:(lia)). now rewrite Nat2Z.id in R. }
    lia.
  - rewrite nth_overflow by (change (length from_mapping) with 256%nat; lia). lia.
Qed.

Lemma int_size n : 0 <= n < 256 -> size_of (decimal_of_int n) <= 3.
Proof.
  intros Hn. apply Z.leb_le. by_range n 256.
Qed.

Lemma from_loop_spec base data v :
  0 <= base < 256 -> canonical v -> dlength v = 0 -> size_of v + 10 * Z.of_nat (length data) < 2 ^ 59 ->
  let r := fold_left (from_step (decimal_of_int base)) data v in
  canonical r /\ dlength r = 0 /\
  num r = num v * base ^ Z.of_nat (length data) + be_val base (map (at_table from_mapping) data).
Proof.
  intros Hb. revert v. induction data as [|c data IH]; intros v Cv Lv Sv; cbv zeta.
  - cbn [fold_left map length]. rewrite Z.pow_0_r. unfold be_val. cbn. repeat split; try assumption; try lia; apply Cv.
  - cbn [fold_left map length] in *.
    pose proof (from_mapping_range c) as Rc.
    destruct (decimal_of_int_spec base ltac:(lia)) as (Cb & Gb & Mb & Lb).
    destruct (decimal_of_int_spec (at_table from_mapping c) ltac:(lia)) as (Cc & Gc & Mc & Lc).
    pose proof (int_size base Hb) as Sb. pose proof (int_size (at_table from_mapping c) ltac:(lia)) as Sc.
    destruct (decimal_mul_spec v (decimal_of_int base) Cv Cb ltac:(lia) ltac:(lia)) as ((Cm & _ & _ & Lm) & Sm & Vm).
    destruct (decimal_add_spec _ (decimal_of_int (at_table from_mapping c)) Cm Cc ltac:(lia) ltac:(lia))
      as (Ca & Sa & La & Va).
    rewrite Lv, Lb in Lm. rewrite Lm, Lc in La.
    destruct (IH (from_step (decimal_of_int base) v c)) as (Cr & Lr & Nr).
    + exact Ca.
    + unfold from_step. lia.
    + unfold from_step. lia.
    + split; [exact Cr|]. split; [exact Lr|]. rewrite Nr, be_val_cons, length_map.
      rewrite Nat2Z.inj_succ, Z.pow_succ_r by lia.
      assert (Na : num (from_step (decimal_of_int base) v c) = num v * base + at_table from_mapping c).
      { assert (Nb : num (decimal_of_int base) = base).
        { unfold num. rewrite Gb, Mb. destruct (Z.ltb_spec base 0); [lia|]. signs. lia. }
        assert (Nc : num (decimal_of_int (at_table from_mapping c)) = at_table from_mapping c).
        { unfold num. rewrite Gc, Mc. destruct (Z.ltb_spec (at_table from_mapping c) 0); [lia|]. signs. lia. }
        rewrite Vm in Va. unfold value in Va. rewrite Lv, Lb, Lc in Va.
        replace (dlength (decimal_add (decimal_mul v (decimal_of_int base))
          (decimal_of_int (at_table from_mapping c)))) with 0 in Va by lia.
        change (Z.to_pos (10 ^ 0)) with 1%positive in Va.
        unfold Qeq, Qplus, Qmult in Va. cbn [Qnum Qden Pos.mul] in Va.
        rewrite Nb, Nc, !Z.mul_1_r in Va. exact Va. }
      rewrite Na. ring.
Qed.

(** A value that is written and read back is the value without its trailing fraction zeros. *)
Lemma decimal_reparse d : canonical d -> decimal_of_text (to_string d) = untrail d.
Proof.
  intros Hd. destruct (untrail_spec d Hd) as (_ & _ & G & _).
  destruct (to_string_spec d Hd) as (i & f & -> & Di & Df & Ni & _ & Es & El).
  rewrite parse_spec by (assumption || apply Hd). rewrite Es, El, <- G. now destruct (untrail d).
Qed.

(** ** A decision procedure for the invariant *)

Definition canonical_b (d : decimal) : bool :=
  forallb (fun c => (48 <=? c) && (c <? 58)) (source d) &&
  ((sign d =? plus_sign) || (sign d =? minus_sign)) &&
  (0 <=? dlength d) && (dlength d <? size_of d) &&
  ((size_of d =? dlength d + 1) || negb (List.last (source d) zero_char =? zero_char)).

Lemma canonical_check d : canonical_b d = true -> canonical d.
Proof.
  unfold canonical_b. rewrite !andb_true_iff, !orb_true_iff, negb_true_iff.
  intros ((((Hc & Hs) & H0) & H1) & Ht). split.
  - apply List.Forall_forall. intros c Hin. rewrite forallb_forall in Hc.
    specialize (Hc c Hin). lia.
  - lia.
  - lia.
  - lia.
Qed.

Lemma decimal_neg_spec d :
  canonical d -> canonical (decimal_neg d) /\ (value (decimal_neg d) == - value d)%Q.
Proof.
  intros [Hc Hs Hl Ht]. unfold decimal_neg. split.
  - split; [exact Hc | | exact Hl | exact Ht]. cbn [sign].
    destruct Hs as [-> | ->]; [now right | now left].
  - unfold value, num, mag. cbn [source dlength sign].
    destruct Hs as [-> | ->]; signs; [reflexivity|]. unfold Qeq, Qopp. cbn [Qnum Qden]. lia.
Qed.

(** Values are equal exactly when magnitudes at a common scale and the signs of nonzero values are. *)
Lemma decimal_eq_value l r :
  canonical l -> canonical r -> sizes_ok l r ->
  (decimal_eq l r = true <-> (value l == value r)%Q /\ sign l = sign r).
Proof.
  intros Cl Cr S. rewrite decimal_eq_spec by assumption. rewrite andb_true_iff, !Z.eqb_eq.
  pose proof (can_length l Cl). pose proof (can_length r Cr).
  unfold Qeq, value. cbn [Qnum Qden]. rewrite !scale_pos by lia. unfold num.
  split; intros [E G]; (split; [|exact G]); rewrite G in *; destruct (sign r =? minus_sign); lia.
Qed.
