(* ===== verification/DecimalDivision.v ===== *)
(** * Decimals: the long division

    The lemmas on [/] and [%] of [Decimal.decimal]: the search for one quotient digit, the round, the
    loop, the alignment of the operands; and on the conversions from the fixed-width integers. *)

From Stdlib Require Import QArith.
From S2P Require Import Prelude Codec FixedUInt UInt128 UInt256 Decimal DecimalFacts.
Open Scope Z_scope.

(** ** Facts: division

    [whole d n]: the canonical integer [n] with a plus sign. *)

Definition whole (d : decimal) (n : Z) : Prop := is_decimal d plus_sign n 0.

Lemma whole_size d n k : whole d n -> n < 10 ^ k -> 0 < k -> size_of d <= k.
Proof.
  intros (C & _ & M & L) Hn Hk. destruct (canonical_digits _ C) as (ds & _ & _ & _ & _ & _ & B & T).
  destruct T as [T|T]; [lia|]. rewrite M in T.
  destruct (Z.le_gt_cases (size_of d) k); [assumption|].
  pose proof (Z.pow_le_mono_r 10 k (size_of d - 1) ltac:(lia) ltac:(lia)). lia.
Qed.

Lemma whole_nonneg d n : whole d n -> 0 <= n.
Proof. intros (C & _ & <- & _). now apply mag_nonneg. Qed.

Lemma whole_ge r d a b : whole r a -> whole d b -> sizes_ok r d -> decimal_ge r d = (b <=? a).
Proof. intros (Cr & Gr & <- & Lr) (Cd & Gd & <- & Ld) Hs. now apply decimal_ge_spec. Qed.

Lemma whole_mul_int d b n :
  whole d b -> size_of d < 2 ^ 60 -> 0 <= n < 256 ->
  whole (decimal_mul_int d n) (b * n) /\ size_of (decimal_mul_int d n) <= size_of d + 4.
Proof.
  intros (Cd & Gd & Md & Ld) Sd Hn.
  destruct (decimal_of_int_spec n ltac:(lia)) as (Cn & Gn & Mn & Ln).
  pose proof (int_size n Hn) as Sn.
  destruct (decimal_mul_spec d (decimal_of_int n) Cd Cn Sd ltac:(lia)) as ((C & G & M & L) & S & _).
  split; [|unfold decimal_mul_int; lia]. split; [exact C|]. unfold decimal_mul_int.
  split; [|split; lia]. rewrite G. unfold same_signs. rewrite Gd, Gn.
  destruct (Z.ltb_spec n 0); [lia|]. reflexivity.
Qed.

Lemma whole_sub r d a b :
  whole r a -> whole d b -> sizes_ok r d -> b <= a ->
  whole (decimal_sub r d) (a - b) /\ size_of (decimal_sub r d) <= Z.max (size_of r) (size_of d).
Proof.
  intros (Cr & Gr & Mr & Lr) (Cd & Gd & Md & Ld) Hs Hle. unfold decimal_sub.
  rewrite !canonical_not_nan by assumption. cbn [orb]. rewrite Lr, Ld, Z.ltb_irrefl, Gr, Gd. signs.
  destruct (difference_spec r d plus_sign minus_sign Cr Cd ltac:(lia) Hs ltac:(now left) ltac:(now right))
    as (C & S & D). signs. split; [|exact S].
  destruct D as [[E D]|[[E D]|[E D]]]; [| |lia]; rewrite Mr, Md in *.
  - now replace (a - b) with 0 by lia.
  - rewrite Lr in D. exact D.
Qed.

(** The search for one quotient digit ends and finds quotient and remainder. *)
Lemma search_digit_spec r d a b :
  whole r a -> whole d b -> size_of r < 2 ^ 58 -> size_of d < 2 ^ 58 ->
  0 < b -> b <= a -> a < 10 * b ->
  exists s, search_digit r d = Some s /\ qsub s = a / b /\ whole (rest s) (a mod b) /\
            size_of (rest s) <= Z.max (size_of r) (size_of d + 4).
Proof.
  intros Wr Wd Sr Sd Hb Hab Hlt. unfold search_digit.
  edestruct (whileM_rule
    (fun s => exists x, whole (rest s) x /\ size_of (rest s) <= Z.max (size_of r) (size_of d + 4) /\
       a = qsub s * b + x /\ 0 <= x < 10 * b /\ 1 <= max s <= 9)
    (fun s => Z.to_nat (10 * (mag (rest s) / b) + max s))
    (fun s => decimal_ge (rest s) d) (fun s => Some (search_round d s)) 1000 (mk_search 0 r 9))
    as (s & E & (x & Wx & Sx & Hx & Bx & _) & Hc).
  - exists a. cbn [rest qsub max]. repeat (split; [assumption || lia|]). lia.
  - cbn [rest max]. destruct Wr as (_ & _ & -> & _).
    assert (a / b < 10) by (apply Z.div_lt_upper_bound; lia). lia.
  - intros s (x & Wx & Sx & Hx & Bx & Bm) Hc. exists (search_round d s). split; [reflexivity|].
    rewrite (whole_ge _ _ x b) in Hc by (assumption || split; lia).
    unfold search_round. rewrite Z.sub_0_r. rewrite Z.quot_div_nonneg by lia.
    set (avg := if negb (max s - max s / 2 * 2 =? 0) then max s / 2 + 1 else max s / 2).
    assert (Ha : 1 <= avg <= 5 /\ (avg < max s \/ max s = 1 /\ avg = 1)).
    { unfold avg. destruct (Z.eqb_spec (max s - max s / 2 * 2) 0); cbn [negb]; lia. }
    destruct (whole_mul_int d b avg Wd ltac:(lia) ltac:(lia)) as [Wm Sm].
    pose proof Wx as (Cx & _ & Mx & Lx). pose proof Wm as (Cm & _ & Mm & Lm).
    rewrite compare_num_spec, Lx, Lm, Mx, Mm, Z.pow_0_r, !Z.mul_1_r by (assumption || lia).
    destruct (Z.compare_spec x (b * avg)) as [Ec|Ec|Ec]; cbn [order_code Z.eqb Pos.eqb negb].
    1, 3: destruct (whole_sub _ _ x (b * avg) Wx Wm ltac:(split; lia) ltac:(lia)) as [Ws Ss];
      split; [exists (x - b * avg); cbn [rest qsub max]; repeat split; try apply Ws; lia|];
      cbn [rest max]; destruct Ws as (_ & _ & -> & _);
      replace (x - b * avg) with (x + (- avg) * b) by ring; rewrite Z.div_add by lia;
      pose proof (Z.div_pos x b ltac:(lia) ltac:(lia));
      pose proof (Z.div_le_lower_bound x b avg ltac:(lia) ltac:(lia)); lia.
    assert (avg < max s) by nia.
    split; [exists x; cbn [rest qsub max]; repeat (split; [assumption || lia|]); lia|].
    cbn [rest max]. rewrite ?Mx. pose proof (Z.div_pos x b ltac:(lia) ltac:(lia)). lia.
  - exists s. split; [exact E|]. rewrite (whole_ge _ _ x b) in Hc by (assumption || split; lia).
    assert (Q0 : qsub s = a / b) by (apply Z.div_unique with x; lia).
    assert (R0 : x = a mod b) by (apply Z.mod_unique with (qsub s); lia).
    split; [exact Q0|]. split; [now rewrite <- R0 | exact Sx].
Qed.

(** The partial remainder [r] of the loop: the empty text for zero, a canonical integer else. *)
Definition partial (r : decimal) (x : Z) : Prop :=
  x = 0 /\ r = mk_decimal [] 0 plus_sign \/ 0 < x /\ whole r x.

(** The next digit enters the partial remainder. *)
Lemma partial_push r x c :
  partial r x -> 0 <= c < 10 ->
  whole (mk_decimal (dchar c :: source r) (dlength r) (sign r)) (10 * x + c).
Proof.
  intros [[-> ->]|[Hx (C & G & M & L)]] Hc.
  - cbn [source dlength sign]. change [dchar c] with (cs [c]).
    destruct (canonical_of [c] 0 plus_sign) as [C V].
    + apply digits_cons. split; [assumption|constructor].
    + now left.
    + cbn. lia.
    + left. reflexivity.
    + split; [exact C|]. split; [reflexivity|]. split; [rewrite V; cbn; lia | reflexivity].
  - destruct (canonical_digits _ C) as (ds & E & Dd & Hne & Md & Sd & B & T).
    pose proof (can_length _ C) as Hlen.
    rewrite E, L, G. change (dchar c :: cs ds) with (cs (c :: ds)).
    destruct (canonical_of (c :: ds) 0 plus_sign) as [C' V].
    + apply digits_cons. now split.
    + now left.
    + cbn [length]. lia.
    + right. cbn [length le_val]. rewrite <- Md, M.
      replace (Z.of_nat (S (length ds)) - 1) with (1 + (size_of r - 1)) by lia.
      rewrite Z.pow_add_r by lia. destruct T as [T|T]; [|rewrite M in T; lia].
      rewrite T, L. change (10 ^ (0 + 1 - 1)) with 1. lia.
    + split; [exact C'|]. split; [reflexivity|]. split; [|reflexivity].
      rewrite V. cbn [le_val]. rewrite <- Md, M. lia.
Qed.

Lemma division_round_spec d b r x c q :
  whole d b -> 0 < b -> partial r x -> 0 <= x < b -> 0 <= c < 10 -> 10 * x + c <> 0 ->
  size_of r < 2 ^ 50 -> size_of d < 2 ^ 50 ->
  exists r', division_round d (dchar c) (q, r) = Some (dchar ((10 * x + c) / b) :: q, r') /\
    partial r' ((10 * x + c) mod b) /\ size_of r' <= Z.max (size_of r + 1) (size_of d + 4).
Proof.
  intros Wd Hb Hp Hx Hc Hnz Sr Sd. unfold division_round.
  pose proof (partial_push r x c Hp Hc) as Wr.
  set (r1 := mk_decimal (dchar c :: source r) (dlength r) (sign r)) in *.
  assert (S1 : size_of r1 = size_of r + 1) by (unfold size_of, r1; cbn [source length]; lia).
  rewrite (whole_ge r1 d (10 * x + c) b) by (assumption || split; lia).
  pose proof Wr as (Cr & _ & Mr & _). rewrite is_zero_spec, Mr by assumption.
  destruct (Z.eqb_spec (10 * x + c) 0); [contradiction|]. cbn [negb]. rewrite andb_true_r.
  destruct (Z.leb_spec b (10 * x + c)).
  - destruct (search_digit_spec r1 d (10 * x + c) b Wr Wd) as (s & -> & Q0 & Wm & Sm); [lia..|].
    cbn [mbind option_bind]. rewrite Q0.
    assert (Hq : 0 <= (10 * x + c) / b < 10)
      by (split; [apply Z.div_pos; lia | apply Z.div_lt_upper_bound; lia]).
    rewrite int_to_char_dchar by assumption. pose proof Wm as (Cm & Gm & Mm & Lm).
    rewrite is_zero_spec, Mm by assumption. pose proof (whole_nonneg _ _ Wm).
    destruct (Z.eqb_spec ((10 * x + c) mod b) 0) as [E|E]; eexists; (split; [reflexivity|]).
    + rewrite Lm, Gm. split; [left; now split|].
      change (size_of (mk_decimal [] 0 plus_sign)) with 0. unfold size_of in S1 |- *. lia.
    + split; [right; split; [lia|assumption]|]. lia.
  - rewrite Z.div_small, Z.mod_small by lia. exists r1. split; [reflexivity|].
    split; [right; split; [lia|assumption]|]. lia.
Qed.

(** Zeros after an exact remainder: every further digit of the quotient is zero. *)
Lemma zero_rounds d n : forall k q, division_loop d (cs (repeat 0 n)) (q, mk_decimal (cs (repeat 0 k)) 0 plus_sign) =
  Some (cs (repeat 0 n) ++ q, mk_decimal (cs (repeat 0 (k + n))) 0 plus_sign).
Proof.
  induction n as [|n IH]; intros k q; [cbn; now rewrite Nat.add_0_r|].
  cbn [repeat cs map division_loop]. change (map dchar) with cs. unfold division_round.
  cbn [source dlength sign].
  assert (E : is_zero (mk_decimal (dchar 0 :: cs (repeat 0 k)) 0 plus_sign) = true).
  { unfold is_zero. cbn [source]. change (dchar 0 :: cs (repeat 0 k)) with (cs (repeat 0 (S k))).
    rewrite is_zero_cs by apply digits_repeat_0. now rewrite le_val_repeat_0. }
  rewrite E, andb_false_r. cbn [mbind option_bind].
  change (dchar 0 :: cs (repeat 0 k)) with (cs (repeat 0 (S k))). rewrite IH.
  replace (S k + n)%nat with (k + S n)%nat by lia. do 2 f_equal.
  change (zero_char :: q) with (cs [0] ++ q). rewrite app_assoc. unfold cs. rewrite <- map_app.
  rewrite <- (repeat_cons n 0). reflexivity.
Qed.

(** Long division of the digits by [b] from the partial remainder [x] never meets a zero digit
    while the remainder is zero, except in a run of zeros that ends the number. *)
Fixpoint smooth (b x : Z) (ds : list Z) : bool :=
  match ds with
  | [] => true
  | c :: ds =>
      if 10 * x + c =? 0 then forallb (fun c => c =? 0) ds
      else smooth b ((10 * x + c) mod b) ds
  end.

Lemma forallb_repeat ds : forallb (fun c => c =? 0) ds = true -> ds = repeat 0 (length ds).
Proof.
  induction ds as [|d ds IH]; [reflexivity|]. cbn. intros H. apply andb_true_iff in H as [H1 H2].
  apply Z.eqb_eq in H1. subst d. f_equal. now apply IH.
Qed.

Lemma division_loop_spec d b : whole d b -> 0 < b -> forall ds r x qs,
  digits 10 ds -> digits 10 qs -> partial r x -> 0 <= x < b -> smooth b x ds = true ->
  Z.max (size_of r) (size_of d + 4) + Z.of_nat (length ds) < 2 ^ 50 ->
  exists qs' r', division_loop d (cs ds) (cs qs, r) = Some (cs qs', r') /\ digits 10 qs' /\
    length qs' = (length ds + length qs)%nat /\
    le_val 10 qs' = (x * 10 ^ Z.of_nat (length ds) + be_val 10 ds) / b +
                    10 ^ Z.of_nat (length ds) * le_val 10 qs.
Proof.
  intros Wd Hb. induction ds as [|c ds IH]; intros r x qs Hd Hq Hp Hx Hs Sz.
  - exists qs, r. cbn [cs map division_loop length]. split; [reflexivity|]. split; [assumption|].
    split; [reflexivity|]. rewrite Z.pow_0_r, Z.mul_1_r, Z.mul_1_l. unfold be_val. cbn [fold_left].
    rewrite Z.add_0_r, Z.div_small by lia. lia.
  - apply digits_cons in Hd as [Hc Hd]. cbn [smooth] in Hs. cbn [cs map division_loop length] in *.
    change (map dchar ds) with (cs ds). rewrite Nat2Z.inj_succ, Z.pow_succ_r in * by lia.
    rewrite be_val_cons. assert (0 <= size_of r /\ 0 <= size_of d) by (unfold size_of; lia).
    destruct (Z.eqb_spec (10 * x + c) 0) as [E0|Hnz].
    + assert (x = 0 /\ c = 0) as [-> ->] by lia. rewrite (forallb_repeat ds Hs) in *.
      rewrite repeat_length. destruct Hp as [[_ ->]|[Hp _]]; [|lia].
      pose proof (zero_rounds d (S (length ds)) 0 (cs qs)) as Z1. cbn [repeat cs map division_loop] in Z1.
      exists (repeat 0 (S (length ds)) ++ qs), (mk_decimal (cs (repeat 0 (S (length ds)))) 0 plus_sign).
      split; [etransitivity; [exact Z1|]; unfold cs; now rewrite map_app|].
      split; [apply digits_app; split; [apply digits_repeat_0|assumption]|].
      split; [now rewrite length_app, repeat_length|].
      rewrite le_val_zeros, be_val_rev, rev_repeat, le_val_repeat_0.
      rewrite !Z.mul_0_l, Z.div_0_l, Nat2Z.inj_succ, Z.pow_succ_r by lia. lia.
    + destruct (division_round_spec d b r x c (cs qs) Wd Hb Hp Hx Hc Hnz ltac:(lia) ltac:(lia))
        as (r1 & -> & Hp1 & S1). cbn [mbind option_bind].
      set (q1 := (10 * x + c) / b) in *. set (x1 := (10 * x + c) mod b) in *.
      assert (Bx : 0 <= x1 < b) by (apply Z.mod_pos_bound; lia).
      assert (Bq : 0 <= q1 < 10)
        by (split; [apply Z.div_pos; lia | apply Z.div_lt_upper_bound; lia]).
      assert (Ex : 10 * x + c = b * q1 + x1) by (apply Z.div_mod; lia).
      change (dchar q1 :: cs qs) with (cs (q1 :: qs)).
      destruct (IH r1 x1 (q1 :: qs)) as (qs' & r' & E & Dq & Lq & Vq); try assumption.
      * apply digits_cons. now split.
      * lia.
      * exists qs', r'. split; [exact E|]. split; [exact Dq|]. cbn [length] in Lq. split; [lia|].
        rewrite Vq. cbn [le_val]. set (p := 10 ^ Z.of_nat (length ds)).
        replace (x * (10 * p) + (c * p + be_val 10 ds)) with (x1 * p + be_val 10 ds + (q1 * p) * b)
          by (transitivity ((10 * x + c) * p + be_val 10 ds); [rewrite Ex|]; ring).
        rewrite Z.div_add by lia. ring.
Qed.

(** ** Facts: the division operators *)
Lemma magnitude_spec x :
  canonical x -> size_of x < 2 ^ 50 ->
  canonical (magnitude x) /\ mag (magnitude x) = mag x /\ dlength (magnitude x) = dlength x /\
  (mag x <> 0 -> sign (magnitude x) = plus_sign) /\ size_of (magnitude x) <= size_of x + 4.
Proof.
  intros Cx Sx. unfold magnitude. pose proof zero_spec as (Cz & Gz & Mz & Lz).
  pose proof Cx as [_ Gx Lx _].
  destruct (order_spec x decimal_zero Cx Cz) as [_ ->]; [split; [lia|]; change (size_of decimal_zero) with 1; lia|].
  rewrite value_compare by (lia || exact (Z.le_refl 0)).
  change (num decimal_zero) with 0. change (dlength decimal_zero) with 0.
  rewrite Z.pow_0_r, Z.mul_0_l, Z.mul_1_r. pose proof (mag_nonneg x Cx) as Nx.
  destruct (Z.compare_spec (num x) 0) as [E|E|E]; cbn [is_gt].
  1, 2: destruct (decimal_of_int_spec (-1) ltac:(lia)) as (C1 & G1 & M1 & L1);
    destruct (decimal_mul_spec x (decimal_of_int (-1)) Cx C1 ltac:(lia)
      ltac:(change (size_of (decimal_of_int (-1))) with 1; lia)) as ((C & G & M & L) & S & _);
    change (size_of (decimal_of_int (-1))) with 1 in S; rewrite M1, L1 in *; unfold decimal_mul_int;
    (split; [exact C|]); (split; [rewrite M; lia|]); (split; [lia|]);
    (split; [|lia]); intros Hnz; rewrite G; unfold same_signs; rewrite G1; unfold num in E;
    destruct Gx as [Gx|Gx]; rewrite Gx in *; signs; (reflexivity || lia).
  split; [assumption|]. split; [reflexivity|]. split; [reflexivity|]. split; [|lia]. intros _.
  unfold num in E. destruct Gx as [Gx|Gx]; [assumption|]. rewrite Gx in E. signs. lia.
Qed.

Lemma shed_iter k x :
  0 <= dlength x ->
  Nat.iter k shed_length x =
  mk_decimal (repeat zero_char (k - Z.to_nat (dlength x)) ++ source x)
             (Z.max 0 (dlength x - Z.of_nat k)) (sign x).
Proof.
  intros Hl. induction k as [|k IH]; [destruct x as [xs xl xg]; cbn [Nat.iter nat_rect source dlength sign repeat app Nat.sub] in *; f_equal; lia|].
  change (Nat.iter (S k) shed_length x) with (shed_length (Nat.iter k shed_length x)). rewrite IH.
  unfold shed_length. cbn [source dlength sign].
  destruct (Z.eqb_spec (Z.max 0 (dlength x - Z.of_nat k)) 0) as [E|E].
  - replace (S k - Z.to_nat (dlength x))%nat with (S (k - Z.to_nat (dlength x))) by lia.
    cbn [repeat app]. f_equal. lia.
  - replace (S k - Z.to_nat (dlength x))%nat with (k - Z.to_nat (dlength x))%nat by lia. f_equal. lia.
Qed.

Lemma align_eq n d :
  0 <= dlength n -> 0 <= dlength d ->
  let k := Z.max (dlength n) (dlength d) in
  align n d =
    (mk_decimal (repeat zero_char (Z.to_nat (k - dlength n)) ++ source n) 0 (sign n),
     mk_decimal (repeat zero_char (Z.to_nat (k - dlength d)) ++ source d) 0 (sign d)).
Proof.
  intros Hn Hd k. unfold align.
  assert (P : forall j, Nat.iter j (fun nd : decimal * decimal => (shed_length (fst nd), shed_length (snd nd))) (n, d)
    = (Nat.iter j shed_length n, Nat.iter j shed_length d)).
  { induction j as [|j IH]; [reflexivity|]. cbn [Nat.iter nat_rect]. unfold Nat.iter in IH. now rewrite IH. }
  rewrite P, !shed_iter by assumption. fold k.
  replace (Z.to_nat k - Z.to_nat (dlength n))%nat with (Z.to_nat (k - dlength n)) by lia.
  replace (Z.to_nat k - Z.to_nat (dlength d))%nat with (Z.to_nat (k - dlength d)) by lia.
  do 2 f_equal; lia.
Qed.

(** An operand after alignment and [unlead]: the magnitude at the common scale. *)
Lemma aligned_spec x k :
  canonical x -> dlength x <= k ->
  let y := unlead (mk_decimal (repeat zero_char (Z.to_nat (k - dlength x)) ++ source x) 0 (sign x)) in
  canonical y /\ mag y = mag x * 10 ^ (k - dlength x) /\ dlength y = 0 /\ sign y = sign x /\
  size_of y <= size_of x + (k - dlength x).
Proof.
  intros Cx Hk. destruct (canonical_digits x Cx) as (ds & E & Dd & Hne & M & S & _).
  pose proof Cx as [_ G L _]. cbv zeta. rewrite E, cs_repeat. unfold cs. rewrite <- map_app.
  change (map dchar) with cs.
  set (j := Z.to_nat (k - dlength x)). assert (J : Z.of_nat j = k - dlength x) by lia.
  destruct (unlead_spec (repeat 0 j ++ ds) 0 (sign x)) as (C & V & L' & G' & S').
  - apply digits_app. split; [apply digits_repeat_0 | assumption].
  - rewrite length_app. lia.
  - assumption.
  - rewrite length_app, repeat_length in S'. rewrite le_val_zeros, <- M, J in V.
    split; [exact C|]. split; [lia|]. split; [exact L'|]. split; [exact G' | lia].
Qed.

(** The digits the long division of [left] by [right] goes through, most significant first. *)
Definition dividend (left right : decimal) : list Z :=
  let div_precision := if dlength right <? dlength left then dlength left else dlength right in
  digits_of (rev (repeat zero_char (Z.to_nat div_precision) ++
                  source (unlead (fst (align (magnitude left) (magnitude right)))))).

Lemma digits_of_rev s : digits_of (rev s) = rev (digits_of s).
Proof. unfold digits_of. apply map_rev. Qed.

(** Quotient of the magnitudes at the scale the code works at. *)
Definition quotient (l r : decimal) : Z :=
  let k := Z.max (dlength l) (dlength r) in
  (mag l * 10 ^ (k - dlength l) * 10 ^ k) / (mag r * 10 ^ (k - dlength r)).

(** The dividend with [j] zeros pushed in front, as digits. *)
Lemma shifted_digits n j :
  canonical n ->
  exists xs, repeat zero_char j ++ source n = cs xs /\ digits 10 xs /\
    Z.of_nat (length xs) = Z.of_nat j + size_of n /\ le_val 10 xs = mag n * 10 ^ Z.of_nat j.
Proof.
  intros Cn. destruct (canonical_digits n Cn) as (ds & -> & Dd & _ & M & S & _).
  exists (repeat 0 j ++ ds). rewrite cs_repeat. split; [unfold cs; now rewrite map_app|].
  split; [apply digits_app; split; [apply digits_repeat_0|assumption]|].
  split; [rewrite length_app, repeat_length; lia|]. rewrite le_val_zeros, M. ring.
Qed.

(** The early exit of the division is taken only when the quotient is zero. *)
Lemma shifted_check n d j b :
  canonical n -> dlength n = 0 -> whole d b -> 0 < b -> size_of n + Z.of_nat j < 2 ^ 60 ->
  size_of d < 2 ^ 60 ->
  compare_num (mk_decimal (repeat zero_char j ++ source n) (dlength n) (sign n)) d = 2 ->
  mag n * 10 ^ Z.of_nat j < b.
Proof.
  intros Cn Ln (Cd & _ & Md & Ld) Hb Sn Sd Hc. pose proof (mag_nonneg n Cn) as Nn.
  pose proof (can_sign n Cn) as Gn.
  destruct (Z.eq_dec (mag n) 0) as [->|Ez]; [lia|].
  destruct (canonical_digits n Cn) as (_ & _ & _ & _ & _ & _ & _ & Tn).
  destruct (shifted_digits n j Cn) as (xs & E & Dx & Lx & Vx). rewrite E, Ln in Hc.
  pose proof (can_length n Cn) as Hl. rewrite Ln in Hl.
  assert (P : 0 < 10 ^ Z.of_nat j) by (apply Z.pow_pos_nonneg; lia).
  destruct (canonical_of xs 0 (sign n) Dx Gn ltac:(lia)) as [C' V'].
  { right. rewrite Lx, Vx. destruct Tn as [Tn|Tn].
    - rewrite Tn, Ln. replace (Z.of_nat j + (0 + 1) - 1) with (Z.of_nat j) by lia. nia.
    - replace (Z.of_nat j + size_of n - 1) with ((size_of n - 1) + Z.of_nat j) by lia.
      rewrite Z.pow_add_r by lia. apply Z.mul_le_mono_nonneg_r; [lia | exact Tn]. }
  rewrite compare_num_spec in Hc; try assumption.
  - cbn [dlength] in Hc. rewrite Ld, Z.pow_0_r, !Z.mul_1_r, V', Md, Vx in Hc.
    destruct (Z.compare_spec (mag n * 10 ^ Z.of_nat j) b); cbn [order_code] in Hc; (assumption || discriminate).
  - rewrite (size_digits _ xs) by reflexivity. lia.
  - lia.
Qed.

Lemma shifted_division n d j b :
  canonical n -> whole d b -> 0 < b ->
  smooth b 0 (digits_of (rev (repeat zero_char j ++ source n))) = true ->
  size_of n + Z.of_nat j < 2 ^ 48 -> size_of d < 2 ^ 48 ->
  exists qs r', division_loop d (rev (repeat zero_char j ++ source n)) ([], mk_decimal [] 0 plus_sign) =
      Some (cs qs, r') /\ digits 10 qs /\ Z.of_nat (length qs) = Z.of_nat j + size_of n /\
    le_val 10 qs = mag n * 10 ^ Z.of_nat j / b.
Proof.
  intros Cn Wd Hb Hsm Sn Sd. destruct (shifted_digits n j Cn) as (xs & E & Dx & Lx & Vx).
  rewrite E in Hsm |- *. rewrite digits_of_rev, digits_of_cs in Hsm.
  unfold cs at 1. rewrite <- map_rev. change (map dchar) with cs.
  destruct (division_loop_spec d b Wd Hb (rev xs) (mk_decimal [] 0 plus_sign) 0 [])
    as (qs & r' & E' & Dq & Lq & Vq); try assumption.
  - auto with vitex.
  - constructor.
  - left. now split.
  - lia.
  - rewrite length_rev. change (size_of (mk_decimal [] 0 plus_sign)) with 0. lia.
  - exists qs, r'. rewrite length_rev in Lq. cbn [length] in Lq. split; [exact E'|].
    split; [exact Dq|]. split; [lia|]. rewrite Vq, be_val_rev, rev_involutive, Vx. cbn [le_val].
    now rewrite Z.mul_0_l, Z.add_0_l, Z.mul_0_r, Z.add_0_r.
Qed.

(** Both operands of the loop: magnitudes at the common scale [k]. *)
Lemma aligned_magnitudes l r :
  canonical l -> canonical r -> in_memory l -> in_memory r -> mag r <> 0 ->
  let k := Z.max (dlength l) (dlength r) in
  let n := unlead (fst (align (magnitude l) (magnitude r))) in
  let d := unlead (snd (align (magnitude l) (magnitude r))) in
  canonical n /\ dlength n = 0 /\ mag n = mag l * 10 ^ (k - dlength l) /\ size_of n < 2 ^ 32 /\
  whole d (mag r * 10 ^ (k - dlength r)) /\ 0 < mag r * 10 ^ (k - dlength r) /\ size_of d < 2 ^ 32.
Proof.
  intros Cl Cr Ml Mr Hnz k. unfold in_memory in *.
  pose proof (can_length l Cl) as Ll. pose proof (can_length r Cr) as Lr.
  destruct (magnitude_spec l Cl ltac:(lia)) as (Cm & Mm & Lm & _ & Sm).
  destruct (magnitude_spec r Cr ltac:(lia)) as (Cd & Md & Ld & Gd & Sd). specialize (Gd Hnz).
  rewrite align_eq by lia. cbn [fst snd]. rewrite Lm, Ld. fold k.
  pose proof (aligned_spec (magnitude l) k Cm ltac:(lia)) as (Cn & Vn & Ln & _ & Sn).
  pose proof (aligned_spec (magnitude r) k Cd ltac:(lia)) as (Ce & Ve & Le & Ge & Se).
  rewrite Lm in *. rewrite Ld in *. rewrite Mm in Vn. rewrite Md in Ve.
  split; [exact Cn|]. split; [exact Ln|]. split; [exact Vn|]. split; [lia|].
  split; [split; [exact Ce|]; split; [now rewrite Ge|]; split; [exact Ve | exact Le]|].
  split; [|lia]. pose proof (mag_nonneg r Cr).
  apply Z.mul_pos_pos; [lia|apply Z.pow_pos_nonneg; lia].
Qed.

Lemma decimal_div_spec l r :
  canonical l -> canonical r -> in_memory l -> in_memory r -> mag r <> 0 ->
  let k := Z.max (dlength l) (dlength r) in
  smooth (mag r * 10 ^ (k - dlength r)) 0 (dividend l r) = true ->
  exists q, decimal_div l r = Some q /\ canonical q /\ 0 <= dlength q <= k /\
    (value q == (if same_signs l r then quotient l r else - quotient l r) # Z.to_pos (10 ^ k))%Q.
Proof.
  intros Cl Cr Ml Mr Hnz k Hsm. pose proof (can_length l Cl) as Ll. pose proof (can_length r Cr) as Lr.
  destruct (aligned_magnitudes l r Cl Cr Ml Mr Hnz) as (Cn & Ln & Vn & Sn & Wd & Hb & Sd).
  pose proof zero_spec as (Cz & _ & Mz & Lz). unfold in_memory in *.
  unfold decimal_div. rewrite !canonical_not_nan by assumption. cbn [orb].
  rewrite decimal_eq_spec by (assumption || (split; [lia | change (size_of (decimal_of_int 0)) with 1; lia])).
  rewrite Mz, Lz, Z.pow_0_r, Z.mul_1_r, Z.mul_0_l.
  destruct (Z.eqb_spec (mag r) 0) as [|_]; [contradiction|]. cbn [andb].
  unfold dividend in Hsm. destruct (align (magnitude l) (magnitude r)) as [n0 d0]. cbn [fst snd] in *.
  fold k in Vn, Wd, Hb. unfold quotient. fold k. rewrite <- Vn.
  set (b := mag r * 10 ^ (k - dlength r)) in *. set (n := unlead n0) in *. set (d := unlead d0) in *.
  clearbody n d b. clear n0 d0 Cz Mz Lz.
  replace (if dlength r <? dlength l then dlength l else dlength r) with k in Hsm |- *
    by (unfold k; destruct (Z.ltb_spec (dlength r) (dlength l)); lia).
  assert (J : Z.of_nat (Z.to_nat k) = k) by lia.
  assert (Hs : (if same_signs l r then plus_sign else minus_sign) = plus_sign \/
               (if same_signs l r then plus_sign else minus_sign) = minus_sign)
    by (destruct (same_signs l r); auto).
  destruct (Z.eqb_spec (compare_num (mk_decimal (repeat zero_char (Z.to_nat k) ++ source n)
    (dlength n) (sign n)) d) 2) as [E2|_].
  - apply (shifted_check n d (Z.to_nat k) b) in E2; try assumption; try lia.
    exists (decimal_of_int 0). split; [reflexivity|]. split; [apply zero_spec|]. split; [cbn; lia|].
    rewrite J in E2. rewrite Z.div_small by (pose proof (mag_nonneg n Cn); pose proof (Z.pow_nonneg 10 k); nia).
    destruct (same_signs l r); reflexivity.
  - destruct (shifted_division n d (Z.to_nat k) b) as (qs & r' & E & Dq & Lq & Vq); try assumption; try lia.
    cbn [source]. rewrite E. cbn [mbind option_bind fst].
    destruct (unlead_spec qs k _ Dq ltac:(pose proof (can_length n Cn); lia) Hs) as (C & M & L & G & _).
    eexists. split; [reflexivity|]. split; [exact C|]. split; [lia|].
    rewrite (value_mk _ k _ L eq_refl). unfold num. rewrite G, M, Vq, J.
    destruct (same_signs l r); reflexivity.
Qed.

(** ** Facts: the modulo operator

    [residue d v]: digits, possibly with leading zeros, that spell [v]. *)

Definition residue (d : decimal) (v : Z) : Prop :=
  exists rs, d = mk_decimal (cs rs) 0 plus_sign /\ digits 10 rs /\ rs <> [] /\ le_val 10 rs = v /\
    size_of d < 2 ^ 52.

Lemma whole_residue d v : whole d v -> size_of d < 2 ^ 52 -> residue d v.
Proof.
  intros (C & G & <- & L) Sz. destruct (canonical_digits d C) as (ds & E & D & N & M & _).
  exists ds. destruct d as [s l g]. cbn [source dlength sign] in *. subst. repeat split; auto.
Qed.

Lemma modulo_round_spec d b r x c res :
  whole d b -> 0 < b -> partial r x -> 0 <= x < b -> 0 <= c < 10 -> 10 * x + c <> 0 ->
  size_of r < 2 ^ 50 -> size_of d < 2 ^ 50 ->
  exists r' res', modulo_round d (dchar c) (r, res) = Some (r', res') /\
    partial r' ((10 * x + c) mod b) /\ residue res' ((10 * x + c) mod b) /\
    size_of r' <= Z.max (size_of r + 1) (size_of d + 4).
Proof.
  intros Wd Hb Hp Hx Hc Hnz Sr Sd. unfold modulo_round.
  pose proof (partial_push r x c Hp Hc) as Wr.
  set (r1 := mk_decimal (dchar c :: source r) (dlength r) (sign r)) in *.
  assert (S1 : size_of r1 = size_of r + 1) by (unfold size_of, r1; cbn [source length]; lia).
  rewrite (whole_ge r1 d (10 * x + c) b) by (assumption || split; lia).
  pose proof Wr as (Cr & _ & Mr & _). rewrite is_zero_spec, Mr by assumption.
  destruct (Z.eqb_spec (10 * x + c) 0); [contradiction|]. cbn [negb]. rewrite andb_true_r.
  destruct (Z.leb_spec b (10 * x + c)).
  - destruct (search_digit_spec r1 d (10 * x + c) b Wr Wd) as (s & -> & _ & Wm & Sm); [lia..|].
    cbn [mbind option_bind]. pose proof Wm as (Cm & Gm & Mm & Lm).
    rewrite is_zero_spec, Mm by assumption. pose proof (whole_nonneg _ _ Wm).
    destruct (Z.eqb_spec ((10 * x + c) mod b) 0) as [E|E]; do 2 eexists; (split; [reflexivity|]).
    + rewrite Lm, Gm. split; [left; now split|]. split; [apply whole_residue; [assumption|lia]|].
      change (size_of (mk_decimal [] 0 plus_sign)) with 0. unfold size_of in S1 |- *. lia.
    + split; [right; split; [lia|assumption]|]. split; [apply whole_residue; [assumption|lia]|]. lia.
  - rewrite Z.mod_small by lia. exists r1, r1. split; [reflexivity|].
    split; [right; split; [lia|assumption]|]. split; [apply whole_residue; [assumption|lia]|]. lia.
Qed.

Lemma modulo_round_zero d k res :
  let z := mk_decimal (cs (repeat 0 (S k))) 0 plus_sign in
  modulo_round d (dchar 0) (mk_decimal (cs (repeat 0 k)) 0 plus_sign, res) = Some (z, z).
Proof.
  intros z. unfold modulo_round. cbn [source dlength sign].
  change (dchar 0 :: cs (repeat 0 k)) with (cs (repeat 0 (S k))). fold z.
  assert (E : is_zero z = true).
  { unfold is_zero, z. cbn [source]. rewrite is_zero_cs by apply digits_repeat_0.
    now rewrite le_val_repeat_0. }
  now rewrite E, andb_false_r.
Qed.

Lemma modulo_zero_rounds d n : forall k res,
  Z.of_nat (k + S n) < 2 ^ 52 -> exists rr,
  modulo_loop d (cs (repeat 0 (S n))) (mk_decimal (cs (repeat 0 k)) 0 plus_sign, res) = Some rr /\
  residue (snd rr) 0.
Proof.
  induction n as [|n IH]; intros k res Sz.
  - change (cs (repeat 0 1)) with [dchar 0]. cbn [modulo_loop]. rewrite modulo_round_zero.
    eexists. split; [reflexivity|]. exists (repeat 0 (S k)). split; [reflexivity|].
    split; [apply digits_repeat_0|]. split; [discriminate|]. split; [now rewrite le_val_repeat_0|].
    rewrite (size_digits _ (repeat 0 (S k))) by reflexivity. rewrite repeat_length. lia.
  - change (cs (repeat 0 (S (S n)))) with (dchar 0 :: cs (repeat 0 (S n))). cbn [modulo_loop].
    rewrite modulo_round_zero. cbn [mbind option_bind]. apply IH. lia.
Qed.

Lemma modulo_loop_spec d b : whole d b -> 0 < b -> forall ds r x res,
  digits 10 ds -> partial r x -> 0 <= x < b -> residue res x \/ ds <> [] -> smooth b x ds = true ->
  Z.max (size_of r) (size_of d + 4) + Z.of_nat (length ds) < 2 ^ 50 ->
  exists rr, modulo_loop d (cs ds) (r, res) = Some rr /\
    residue (snd rr) ((x * 10 ^ Z.of_nat (length ds) + be_val 10 ds) mod b).
Proof.
  intros Wd Hb. induction ds as [|c ds IH]; intros r x res Hd Hp Hx Hres Hs Sz.
  - exists (r, res). cbn [cs map modulo_loop length]. split; [reflexivity|].
    rewrite Z.pow_0_r, Z.mul_1_r. unfold be_val. cbn [fold_left]. rewrite Z.add_0_r, Z.mod_small by lia.
    cbn [snd]. destruct Hres as [Hres|Hres]; [exact Hres|contradiction].
  - apply digits_cons in Hd as [Hc Hd]. cbn [smooth] in Hs.
    cbn [length] in *. rewrite Nat2Z.inj_succ, Z.pow_succ_r in * by lia.
    rewrite be_val_cons. assert (0 <= size_of r /\ 0 <= size_of d) by (unfold size_of; lia).
    destruct (Z.eqb_spec (10 * x + c) 0) as [E0|Hnz].
    + assert (x = 0 /\ c = 0) as [-> ->] by lia. rewrite (forallb_repeat ds Hs) in *.
      rewrite repeat_length in *.
      destruct Hp as [[_ ->]|[Hp _]]; [|lia].
      destruct (modulo_zero_rounds d (length ds) 0 res ltac:(lia)) as (res' & E & R). exists res'.
      cbn [repeat] in E. split; [exact E|].
      rewrite be_val_rev, rev_repeat, le_val_repeat_0.
      now rewrite !Z.mul_0_l, Z.mod_0_l by lia.
    + cbn [cs map modulo_loop]. change (map dchar ds) with (cs ds).
      destruct (modulo_round_spec d b r x c res Wd Hb Hp Hx Hc Hnz ltac:(lia) ltac:(lia))
        as (r1 & res1 & -> & Hp1 & R1 & S1). cbn [mbind option_bind].
      assert (Ex := Z.div_mod (10 * x + c) b ltac:(lia)).
      assert (Bx := Z.mod_pos_bound (10 * x + c) b Hb).
      set (x1 := (10 * x + c) mod b) in *. set (q1 := (10 * x + c) / b) in *.
      destruct (IH r1 x1 res1) as (rr & E & R); auto; [lia|].
      exists rr. split; [exact E|]. set (p := 10 ^ Z.of_nat (length ds)) in *.
      replace (x * (10 * p) + (c * p + be_val 10 ds)) with (x1 * p + be_val 10 ds + (q1 * p) * b)
        by (transitivity ((10 * x + c) * p + be_val 10 ds); [rewrite Ex|]; ring).
      rewrite Z.mod_add by lia. exact R.
Qed.

(** The tail of the operator: trimming, the sign and the positive zero. *)
Lemma modulo_finish res v s :
  residue res v -> s = plus_sign \/ s = minus_sign ->
  let temp := unlead res in
  let temp := mk_decimal (source temp) (dlength temp) s in
  is_decimal (if compare_num temp (decimal_of_int 0) =? 0
              then mk_decimal (source temp) (dlength temp) plus_sign else temp)
    (if v =? 0 then plus_sign else s) v 0.
Proof.
  intros (rs & -> & Dr & Nr & <- & Sz) Hs. cbv zeta.
  assert (Lr : 0 <= 0 < Z.of_nat (length rs)) by (destruct rs; [contradiction|cbn [length]; lia]).
  assert (U : mk_decimal (source (unlead (mk_decimal (cs rs) 0 plus_sign)))
                (dlength (unlead (mk_decimal (cs rs) 0 plus_sign))) s =
              unlead (mk_decimal (cs rs) 0 s)) by reflexivity.
  rewrite U. destruct (unlead_spec rs 0 s Dr Lr Hs) as (C & M & L & G & S).
  destruct (unlead_spec rs 0 plus_sign Dr Lr ltac:(now left)) as (C' & M' & L' & G' & _).
  pose proof zero_spec as (Cz & _ & Mz & Lz).
  rewrite (size_digits _ rs) in Sz by reflexivity.
  rewrite compare_num_spec by (assumption || change (size_of (decimal_of_int 0)) with 1; lia).
  rewrite Mz, Lz, L, M, Z.pow_0_r, Z.mul_1_r, Z.mul_0_l.
  destruct (Z.compare_spec (le_val 10 rs) 0) as [E|E|E]; cbn [order_code Z.eqb Pos.eqb].
  - rewrite E. split; [exact C'|]. split; [reflexivity|]. rewrite E in M'. split; [exact M'|exact L'].
  - pose proof (le_val_bound 10 rs ltac:(lia) Dr). lia.
  - destruct (Z.eqb_spec (le_val 10 rs) 0); [lia|]. split; [exact C|]. split; [exact G|]. now split.
Qed.


Lemma decimal_mod_spec l r :
  canonical l -> canonical r -> in_memory l -> in_memory r -> mag r <> 0 ->
  dlength l = 0 -> dlength r = 0 ->
  smooth (mag r) 0 (rev (digits_of (source (magnitude l)))) = true ->
  exists m, decimal_mod l r = Some m /\
    is_decimal m (if mag l <? mag r then sign l
                  else if mag l mod mag r =? 0 then plus_sign
                  else if same_signs l r then plus_sign else minus_sign) (mag l mod mag r) 0.
Proof.
  intros Cl Cr Ml Mr Hnz Ll Lr Hsm. unfold in_memory in *.
  destruct (magnitude_spec l Cl ltac:(lia)) as (Cn & Mn & Ln & Gn & Sn).
  destruct (magnitude_spec r Cr ltac:(lia)) as (Cd & Md & Ld & Gd & Sd). specialize (Gd Hnz).
  pose proof zero_spec as (Cz & Gz & Mz & Lz). pose proof (mag_nonneg l Cl) as Nl.
  pose proof (mag_nonneg r Cr) as Nr.
  unfold decimal_mod. rewrite !canonical_not_nan by assumption. cbn [orb].
  rewrite Ll, Lr. cbn [Z.eqb negb orb].
  rewrite decimal_eq_spec by (assumption || (split; [lia | change (size_of (decimal_of_int 0)) with 1; lia])).
  rewrite Mz, Lz, Z.pow_0_r, Z.mul_1_r, Z.mul_0_l.
  destruct (Z.eqb_spec (mag r) 0) as [|_]; [contradiction|]. cbn [andb].
  rewrite compare_num_spec, Ln, Ld, Ll, Lr, Z.pow_0_r, !Z.mul_1_r, Mn, Md by (assumption || lia).
  assert (Hs : (if same_signs l r then plus_sign else minus_sign) = plus_sign \/
               (if same_signs l r then plus_sign else minus_sign) = minus_sign)
    by (destruct (same_signs l r); auto).
  destruct (Z.compare_spec (mag l) (mag r)) as [E|E|E]; cbn [order_code Z.eqb Pos.eqb].
  - eexists. split; [reflexivity|]. rewrite E, Z.ltb_irrefl, Z_mod_same_full. exact zero_spec.
  - eexists. split; [reflexivity|]. rewrite (proj2 (Z.ltb_lt _ _) E), Z.mod_small by lia.
    split; [assumption|]. split; [reflexivity|]. now split.
  - destruct (Z.ltb_spec (mag l) (mag r)); [lia|].
    destruct (canonical_digits _ Cn) as (ds & Es & Dd & Nd & Md' & Sd' & _). rewrite Es in Hsm |- *.
    rewrite digits_of_cs in Hsm. unfold cs at 1. rewrite <- map_rev. change (map dchar) with cs.
    assert (Wd : whole (magnitude r) (mag r)) by (split; [assumption|]; split; [assumption|]; split; [assumption|lia]).
    destruct (modulo_loop_spec (magnitude r) (mag r) Wd ltac:(lia) (rev ds) (mk_decimal [] 0 plus_sign) 0
      decimal_default) as (rr & -> & R); auto with vitex.
    + left. now split.
    + right. intros Er. apply (f_equal (@rev Z)) in Er. rewrite rev_involutive in Er. now apply Nd.
    + rewrite length_rev. change (size_of (mk_decimal [] 0 plus_sign)) with 0. lia.
    + cbn [mbind option_bind]. eexists. split; [reflexivity|].
      rewrite Z.mul_0_l, Z.add_0_l, be_val_rev, rev_involutive, <- Md', Mn in R.
      now apply modulo_finish.
Qed.

(** ** Facts: conversions from the fixed-width integers *)
Lemma from_mapping_digit16 d : 0 <= d < 16 -> at_table from_mapping (digit16 d) = d.
Proof.
  intros Hd. assert (H : forallb (fun d => at_table from_mapping (digit16 d) =? d)
    (map Z.of_nat (seq 0 16)) = true) by reflexivity.
  rewrite forallb_forall in H. apply Z.eqb_eq, H. rewrite in_map_iff. exists (Z.to_nat d).
  split; [lia|]. apply in_seq. lia.
Qed.

Lemma from_mapping_digit36 d : 0 <= d < 16 -> at_table from_mapping (digit36 d) = d.
Proof.
  intros Hd. assert (H : forallb (fun d => at_table from_mapping (digit36 d) =? d)
    (map Z.of_nat (seq 0 16)) = true) by reflexivity.
  rewrite forallb_forall in H. apply Z.eqb_eq, H. rewrite in_map_iff. exists (Z.to_nat d).
  split; [lia|]. apply in_seq. lia.
Qed.

(** [decimal::from] on a hexadecimal numeral, however its letters are written. *)
Lemma decimal_from_hex (digit : Z -> Z) ds :
  (forall d, 0 <= d < 16 -> at_table from_mapping (digit d) = d) ->
  digits 16 ds -> Z.of_nat (length ds) < 2 ^ 50 ->
  is_decimal (decimal_from (map digit ds) 16) (sign (decimal_from (map digit ds) 16))
    (mag (decimal_from (map digit ds) 16)) 0 /\
  num (decimal_from (map digit ds) 16) = be_val 16 ds.
Proof.
  intros Hf Hd Hl. pose proof zero_spec as (C & _). unfold decimal_from.
  change (decimal_of_text (chars "0")) with (decimal_of_int 0).
  destruct (from_loop_spec 16 (map digit ds) (decimal_of_int 0)) as (C' & L' & N'); try assumption.
  - lia.
  - reflexivity.
  - rewrite length_map. change (size_of (decimal_of_int 0)) with 1. lia.
  - split; [split; [exact C'|]; repeat (split; [reflexivity|]); exact L'|].
    rewrite N'. change (num (decimal_of_int 0)) with 0. rewrite Z.mul_0_l, Z.add_0_l. f_equal.
    rewrite map_map. rewrite <- (map_id ds) at 2. apply map_ext_in. intros d Hin. apply Hf.
    unfold digits in Hd. rewrite List.Forall_forall in Hd. now apply Hd.
Qed.

Lemma hex_numeral_length b ds n :
  1 < b -> digits b ds -> be_val b ds < b ^ n -> 0 < n -> ds = [0] \/ no_leading_zero ds ->
  Z.of_nat (length ds) <= n.
Proof.
  intros Hb Hd Hv Hn [->|Hz]; [cbn; lia|].
  destruct ds as [|d ds]; [cbn; lia|]. apply digits_cons in Hd as [Hd Hds].
  cbn [no_leading_zero] in Hz. rewrite be_val_cons in Hv. cbn [length].
  pose proof (be_val_bound b ds ltac:(lia) Hds) as B.
  destruct (Z.le_gt_cases (Z.of_nat (S (length ds))) n) as [|G]; [assumption|].
  pose proof (Z.pow_le_mono_r b n (Z.of_nat (length ds)) ltac:(lia) ltac:(lia)). nia.
Qed.
