(* ===== verification/DecimalSpec.v ===== *)
(** * Decimals: what the operations promise

    The properties of [Decimal.decimal] over the invariant [canonical] and the rational [value], both of
    DecimalFacts.v. *)

From Stdlib Require Import QArith.
From S2P Require Import Prelude Codec FixedUInt UInt128 UInt256 Decimal DecimalFacts DecimalDivision.
Open Scope Z_scope.

(** ** Properties *)

(** (C39) Arithmetic is exact: on values of the invariant [+], [-], [*] and the unary minus return
    values of the invariant that stand for the rational sum, difference, product and negation, whatever
    the two scales and signs; and an operand that is not a number makes the result one. *)
Theorem decimal_arithmetic (l r : decimal) :
  canonical l -> canonical r -> in_memory l -> in_memory r ->
  (canonical (decimal_add l r) /\ (value (decimal_add l r) == value l + value r)%Q) /\
  (canonical (decimal_sub l r) /\ (value (decimal_sub l r) == value l - value r)%Q) /\
  (canonical (decimal_mul l r) /\ (value (decimal_mul l r) == value l * value r)%Q) /\
  (canonical (decimal_neg l) /\ (value (decimal_neg l) == - value l)%Q) /\
  (forall x, is_nan x = true ->
     Forall (fun y => is_nan y = true)
       [decimal_add x l; decimal_add l x; decimal_sub x l; decimal_sub l x;
        decimal_mul x l; decimal_mul l x; decimal_neg x]).
Proof.
  unfold in_memory. intros Cl Cr Ml Mr.
  destruct (decimal_add_spec l r Cl Cr ltac:(lia) ltac:(lia)) as (Ca & _ & _ & Va).
  destruct (decimal_sub_spec l r Cl Cr ltac:(lia) ltac:(lia)) as (Cs & _ & _ & Vs).
  destruct (decimal_mul_spec l r Cl Cr ltac:(lia) ltac:(lia)) as ((Cm & _) & _ & Vm).
  split; [now split|]. split; [now split|]. split; [now split|].
  split; [now apply decimal_neg_spec|]. intros x Hx.
  unfold decimal_add, decimal_sub, decimal_mul, decimal_neg. rewrite Hx, orb_true_r. cbn [orb].
  repeat constructor. unfold is_nan in *. cbn [sign]. apply Z.eqb_eq in Hx. rewrite Hx. reflexivity.
Qed.

Lemma decimal_arithmetic_witness :
  let l := decimal_of_text (chars "-12.50") in
  let r := decimal_of_text (chars "3.125") in
  to_string (decimal_add l r) = chars "-9.375" /\
  (value (decimal_add l r) == value l + value r)%Q.
Proof.
  intros l r. split; [vm_compute; reflexivity|].
  apply (decimal_arithmetic l r); try (vm_compute; reflexivity);
    apply canonical_check; vm_compute; reflexivity.
Defined.

(** Order.  The four order operators compare the rationals the operands stand for, and
    [==] holds exactly when these are equal and the signs are the same; every comparison with
    something that is not a number is false. *)
Theorem decimal_order (l r : decimal) :
  canonical l -> canonical r -> in_memory l -> in_memory r ->
  (decimal_lt l r = true <-> (value l < value r)%Q) /\
  (decimal_gt l r = true <-> (value r < value l)%Q) /\
  (decimal_le l r = true <-> (value l <= value r)%Q) /\
  (decimal_ge l r = true <-> (value r <= value l)%Q) /\
  (decimal_eq l r = true <-> (value l == value r)%Q /\ sign l = sign r) /\
  (decimal_ne l r = negb (decimal_eq l r)) /\
  (forall x, is_nan x = true ->
     decimal_lt x l = false /\ decimal_gt x l = false /\ decimal_le x l = false /\
     decimal_ge x l = false /\ decimal_eq x l = false /\ decimal_ne x l = false).
Proof.
  unfold in_memory. intros Cl Cr Ml Mr. assert (S : sizes_ok l r) by (split; lia).
  destruct (order_spec l r Cl Cr S) as [El Eg].
  unfold decimal_le, decimal_ge, decimal_ne. rewrite !canonical_not_nan by assumption. cbn [orb].
  rewrite El, Eg. split; [|split; [|split; [|split; [|split; [|split; [reflexivity|]]]]]].
  - rewrite Qlt_alt. destruct (value l ?= value r)%Q; cbn [is_lt]; split; congruence.
  - rewrite Qgt_alt. destruct (value l ?= value r)%Q; cbn; split; congruence.
  - rewrite Qle_alt. destruct (value l ?= value r)%Q; cbn; split; congruence.
  - rewrite Qge_alt. destruct (value l ?= value r)%Q; cbn; split; congruence.
  - now apply decimal_eq_value.
  - intros x Hx. unfold decimal_lt, decimal_gt, decimal_eq. rewrite Hx. cbn [orb]. repeat split.
Qed.

Lemma decimal_order_witness :
  let l := decimal_of_text (chars "2.5") in
  let r := decimal_of_text (chars "2.500") in
  decimal_eq l r = true /\ (decimal_lt l r = true <-> (value l < value r)%Q).
Proof.
  intros l r. split; [vm_compute; reflexivity|].
  apply (decimal_order l r); try (vm_compute; reflexivity);
    apply canonical_check; vm_compute; reflexivity.
Defined.

(** Text.  A sign, a numeral without leading zeros and a fraction are read as the number they
    spell, at the scale of the fraction; and the text [to_string] writes for a value is read back as
    the same rational with the same sign, its trailing fraction zeros dropped. *)
Theorem decimal_text_roundtrip (d : decimal) (s : Z) (ip fp : list Z) :
  canonical d -> s = plus_sign \/ s = minus_sign -> digits 10 ip -> digits 10 fp -> ip <> [] ->
  ip = [0] \/ no_leading_zero ip ->
  is_decimal (decimal_of_text (sign_text s ++ cs ip ++ fraction_text fp)) s
    (be_val 10 (ip ++ fp)) (Z.of_nat (length fp)) /\
  decimal_of_text (to_string d) = untrail d /\ canonical (untrail d) /\
  (value (untrail d) == value d)%Q /\ sign (untrail d) = sign d.
Proof.
  intros Hd Hs Hi Hf Hn Hz. split; [now apply parse_value|].
  destruct (untrail_spec d Hd) as (C & V & G & _).
  split; [now apply decimal_reparse|now split; [|split]].
Qed.

Lemma decimal_text_roundtrip_witness :
  let d := decimal_of_text (chars "-10.250") in
  to_string d = chars "-10.25" /\ decimal_of_text (to_string d) = untrail d.
Proof.
  intros d. split; [vm_compute; reflexivity|].
  apply (decimal_text_roundtrip d plus_sign [1] []).
  - apply canonical_check. vm_compute. reflexivity.
  - now left.
  - apply digits_cons. split; [lia|constructor].
  - constructor.
  - discriminate.
  - right. discriminate.
Defined.

(** Precision.  [truncate(p)] keeps the sign and leaves exactly [p] fraction digits, the
    magnitude scaled to them and rounded towards zero; [round(p)] is the truncated value plus one unit
    in the last place when the part dropped is at least a half, plus whatever the sign, so that
    negative numbers move towards zero. *)
Theorem decimal_precision (d : decimal) (p : Z) :
  canonical d -> in_memory d -> 0 <= p < 2 ^ 31 ->
  is_decimal (truncate p d) (sign d) (mag d * 10 ^ p / 10 ^ dlength d) p /\
  canonical (round p d) /\
  (value (round p d) ==
     value (truncate p d) +
     (b2z ((p <? dlength d) && (10 ^ dlength d <=? 2 * (mag d * 10 ^ p mod 10 ^ dlength d)))
      # Z.to_pos (10 ^ p)))%Q.
Proof.
  intros Cd Md Hp. pose proof (truncate_spec p d Cd Hp) as T. split; [exact T|].
  destruct (round_spec p d Cd Md Hp) as [C V]. split; [exact C|]. rewrite V.
  rewrite (value_is _ _ _ _ T). now rewrite Qplus_same.
Qed.

Lemma decimal_precision_witness :
  let d := decimal_of_text (chars "1.275") in
  to_string (round 2 d) = chars "1.28" /\
  is_decimal (truncate 2 d) (sign d) (mag d * 10 ^ 2 / 10 ^ dlength d) 2.
Proof.
  intros d. split; [vm_compute; reflexivity|].
  apply (decimal_precision d 2); [apply canonical_check| |lia]; vm_compute; reflexivity.
Defined.

(** Division.  With a divisor that is not zero, and a dividend whose long division never meets a
    zero digit right after an exact remainder other than in the run of zeros that ends it, [/] ends and
    returns the quotient truncated towards zero at the larger of the two scales, with the product sign.
    Division by a positive zero, or with an operand that is not a number, is not a number. *)
Theorem decimal_division (l r : decimal) :
  canonical l -> canonical r -> in_memory l -> in_memory r ->
  let k := Z.max (dlength l) (dlength r) in
  let n := mag l * 10 ^ (k - dlength l) in
  let d := mag r * 10 ^ (k - dlength r) in
  (mag r <> 0 -> smooth d 0 (dividend l r) = true ->
   exists q, decimal_div l r = Some q /\ canonical q /\
     (value q == (if same_signs l r then n * 10 ^ k / d else - (n * 10 ^ k / d)) # Z.to_pos (10 ^ k))%Q) /\
  (mag r = 0 -> sign r = plus_sign -> decimal_div l r = Some decimal_nan) /\
  (forall x, is_nan x = true -> decimal_div x r = Some decimal_nan /\ decimal_div l x = Some decimal_nan).
Proof.
  intros Cl Cr Ml Mr k n d. split; [|split].
  - intros Hnz Hsm. destruct (decimal_div_spec l r Cl Cr Ml Mr Hnz Hsm) as (q & E & C & _ & V).
    exists q. split; [exact E|]. now split.
  - intros Hz Hs. unfold decimal_div. rewrite !canonical_not_nan by assumption. cbn [orb].
    pose proof zero_spec as (Cz & Gz & Mz & Lz). unfold in_memory in *.
    rewrite decimal_eq_spec by (assumption || (split; [lia | change (size_of (decimal_of_int 0)) with 1; lia])).
    now rewrite Hz, Mz, Hs, Gz.
  - intros x Hx. unfold decimal_div. rewrite Hx, orb_true_r. now split.
Qed.

Lemma decimal_division_witness :
  let l := decimal_of_text (chars "-22.000") in
  let r := decimal_of_text (chars "7") in
  to_string <$> decimal_div l r = Some (chars "-3.142") /\
  exists q, decimal_div l r = Some q /\ canonical q /\ (value q == -3142 # 1000)%Q.
Proof.
  intros l r. split; [vm_compute; reflexivity|].
  apply (decimal_division l r); try discriminate; try (vm_compute; reflexivity);
    apply canonical_check; vm_compute; reflexivity.
Defined.

(** Modulo.  On integers, with a divisor that is not zero and a dividend of the same kind as for
    the division, [%] ends and returns the remainder of the magnitudes; it has the sign of the dividend
    when that is the smaller operand, else the product sign, and a zero remainder is positive.  A
    fraction in an operand makes the result not a number. *)
Theorem decimal_modulo (l r : decimal) :
  canonical l -> canonical r -> in_memory l -> in_memory r ->
  (dlength l = 0 -> dlength r = 0 -> mag r <> 0 ->
   smooth (mag r) 0 (rev (digits_of (source (magnitude l)))) = true ->
   exists m, decimal_mod l r = Some m /\
    is_decimal m (if mag l <? mag r then sign l
                  else if mag l mod mag r =? 0 then plus_sign
                  else if same_signs l r then plus_sign else minus_sign) (mag l mod mag r) 0) /\
  (dlength l <> 0 \/ dlength r <> 0 -> decimal_mod l r = Some decimal_nan).
Proof.
  intros Cl Cr Ml Mr. split.
  - intros Ll Lr Hnz Hsm. now apply decimal_mod_spec.
  - intros Hf. unfold decimal_mod. rewrite !canonical_not_nan by assumption. cbn [orb].
    destruct (Z.eqb_spec (dlength l) 0), (Z.eqb_spec (dlength r) 0); try reflexivity. lia.
Qed.

Lemma decimal_modulo_witness :
  let l := decimal_of_text (chars "-1998") in
  let r := decimal_of_text (chars "7") in
  to_string <$> decimal_mod l r = Some (chars "-3") /\
  exists m, decimal_mod l r = Some m /\ is_decimal m minus_sign 3 0.
Proof.
  intros l r. split; [vm_compute; reflexivity|].
  apply (decimal_modulo l r); try discriminate; try (vm_compute; reflexivity);
    apply canonical_check; vm_compute; reflexivity.
Defined.

(** Conversion.  [uint128::to_decimal] and [uint256::to_decimal] end and return the canonical
    integer of the value they convert. *)
Theorem integers_to_decimal (x : uint128) (y : uint256) :
  wf128 x -> wf256 y ->
  (exists d, uint128_to_decimal x = Some d /\ canonical d /\ dlength d = 0 /\ num d = val128 x) /\
  (exists d, uint256_to_decimal y = Some d /\ canonical d /\ dlength d = 0 /\ num d = val256 y).
Proof.
  intros Hx Hy. unfold uint128_to_decimal, uint256_to_decimal. split.
  - destruct (uint128_to_string_spec x 16 Hx ltac:(lia)) as (ds & -> & Hd & Hv & Hc).
    pose proof (val128_range x Hx). cbn [mbind option_bind]. eexists. split; [reflexivity|].
    destruct (decimal_from_hex digit16 ds from_mapping_digit16 Hd) as [(C & _ & _ & L) N].
    + pose proof (hex_numeral_length 16 ds 32 ltac:(lia) Hd ltac:(lia) ltac:(lia)
        ltac:(destruct Hc as [[_ ->]|[_ Hz]]; auto)). lia.
    + rewrite N. now split.
  - destruct (uint256_to_string_spec y 16 Hy ltac:(lia)) as (ds & -> & Hd & Hv & Hc).
    pose proof (val256_range y Hy). cbn [mbind option_bind]. eexists. split; [reflexivity|].
    destruct (decimal_from_hex digit36 ds from_mapping_digit36 Hd) as [(C & _ & _ & L) N].
    + pose proof (hex_numeral_length 16 ds 64 ltac:(lia) Hd ltac:(lia) ltac:(lia) Hc). lia.
    + rewrite N. now split.
Qed.

Lemma integers_to_decimal_witness :
  (exists d, uint128_to_decimal (mk_uint128 1 7) = Some d /\ canonical d /\ dlength d = 0 /\
     num d = val128 (mk_uint128 1 7)) /\
  to_string <$> uint128_to_decimal (mk_uint128 1 7) = Some (chars "18446744073709551623").
Proof.
  split; [|vm_compute; reflexivity].
  apply (integers_to_decimal (mk_uint128 1 7) (mk_uint256 (mk_uint128 0 0) (mk_uint128 0 1))).
  - apply wf128_mk; unfold fits; lia.
  - split; apply wf128_mk; unfold fits; lia.
Defined.

(** Where the division goes wrong.  A zero digit right after an exact partial remainder leaves a
    leading zero in the remainder, which the size comparison then takes for a large number: 1003 / 5
    prints with a character past '9' and 7001 % 7 is 0; leading zeros of a text are kept,
    so 007 compares greater than 12; and the two zeros are ordered as equal but are not [==]. *)
Theorem decimal_leading_zero_defects :
  to_string <$> decimal_div (decimal_of_text (chars "1003")) (decimal_of_text (chars "5"))
    = Some (chars "20D") /\
  to_string <$> decimal_mod (decimal_of_text (chars "7001")) (decimal_of_text (chars "7"))
    = Some (chars "0") /\
  decimal_gt (decimal_of_text (chars "007")) (decimal_of_text (chars "12")) = true /\
  to_string (round 1 (decimal_of_text (chars "-1.27"))) = chars "-1.1" /\
  (let zero := decimal_of_text (chars "0") in
   let minus_zero := decimal_neg zero in
   decimal_lt minus_zero zero = false /\ decimal_gt minus_zero zero = false /\
   decimal_eq minus_zero zero = false).
Proof. repeat split; vm_compute; reflexivity. Qed.
