(* ===== verification/Chunked.v ===== *)
(** * Chunked transfer coding

    Source: src/src/vitex/network/http.cpp ([parser::parse_decode_chunked], [connection::send_chunk]) and
    src/src/vitex/network/http.h ([parser::chunked_state]).  The decoder works in place: it compacts the
    data bytes of the chunks at the front of the buffer it reads, and keeps its state between calls.
    [decode_chunked_loop] is the code, with the buffer, the two offsets and the [memmove]s;
    [chunk_run] is the abstract decoder, an automaton that reads bytes and emits data, and
    [parse_decode_chunked] refines it. *)

From S2P Require Import Prelude Codec.

Inductive chunked_status :=
  | status_size | status_ext | status_data | status_end | status_head | status_middle.

#[export] Instance chunked_status_eq_dec : EqDecision chunked_status.
Proof. solve_decision. Defined.

Record chunked_state := mk_chunked {
  chunk_length : Z;
  chunk_status : chunked_status;
  consume_trailer : Z;
  hex_count : Z }.

#[export] Instance chunked_state_eq_dec : EqDecision chunked_state.
Proof. solve_decision. Defined.

(** [prepare_for_chunked_parsing]. *)
Definition chunked_initial : chunked_state := mk_chunked 0 status_size 1 0.

Definition set_status (c : chunked_state) (s : chunked_status) : chunked_state :=
  mk_chunked (chunk_length c) s (consume_trailer c) (hex_count c).
Definition set_chunk_length (c : chunked_state) (n : Z) : chunked_state :=
  mk_chunked n (chunk_status c) (consume_trailer c) (hex_count c).
Definition set_hex_count (c : chunked_state) (n : Z) : chunked_state :=
  mk_chunked (chunk_length c) (chunk_status c) (consume_trailer c) n.

(** ** The decoder *)

(** The locals of one call: the state kept between calls, the buffer of [*length] bytes and the offsets
    of the next byte to write and to read. *)
Record decode_state := mk_decode { chunk : chunked_state; buf : list Z; dest : nat; src : nat }.

Definition unread (d : decode_state) : list Z := skipn (src d) (buf d).
Definition with_chunk (d : decode_state) (c : chunked_state) : decode_state :=
  mk_decode c (buf d) (dest d) (src d).
Definition read (d : decode_state) (n : nat) : decode_state :=
  mk_decode (chunk d) (buf d) (dest d) (src d + n).

(** [memmove(buffer + dest, buffer + src, n)] for ranges inside the buffer. *)
Definition memmove (buffer : list Z) (dest src n : nat) : list Z :=
  firstn dest buffer ++ firstn n (skipn src buffer) ++ skipn (dest + n) buffer.

(** [if (dest != src) memmove(...); src += n; dest += n]. *)
Definition take_data (d : decode_state) (n : nat) : decode_state :=
  mk_decode (chunk d)
    (if Nat.eqb (dest d) (src d) then buf d else memmove (buf d) (dest d) (src d) n)
    (dest d + n) (src d + n).

(** How a case of the switch ends: [break] out of it, or [goto exit] with a result. *)
Inductive case_outcome :=
  | case_break (d : decode_state)
  | case_exit (d : decode_state) (result : Z).

Definition complete (d : decode_state) : case_outcome :=
  case_exit d (Z.of_nat (length (buf d)) - Z.of_nat (src d)).

(** Value of a hexadecimal digit, -1 for every other byte. *)
Definition chunk_digit (v : Z) : Z :=
  if (48 <=? v) && (v <=? 57) then v - 48
  else if (65 <=? v) && (v <=? 70) then v - 65 + 10
  else if (97 <=? v) && (v <=? 102) then v - 97 + 10
  else -1.

(** The loop of the size case over the unread bytes: the state, how many bytes it passed, and how it
    left: at the end of the buffer, with an error, or at a byte that is no digit. *)
Inductive size_end := size_exhausted | size_error | size_stop.
Fixpoint size_loop (rest : list Z) (c : chunked_state) (n : nat) : chunked_state * nat * size_end :=
  match rest with
  | [] => (c, n, size_exhausted)
  | b :: rest =>
      let v := chunk_digit b in
      if v =? -1 then (c, n, if hex_count c =? 0 then size_error else size_stop)
      else if hex_count c =? 16 then (c, n, size_error)
      else
        let c := set_chunk_length c (u64 (chunk_length c * 16 + v)) in
        size_loop rest (set_hex_count c (hex_count c + 1)) (S n)
  end.

(** [for (;; ++src)] up to the first byte that ends the loop. *)
Fixpoint skip_while (p : Z -> bool) (rest : list Z) : nat :=
  match rest with
  | b :: rest => if p b then S (skip_while p rest) else O
  | [] => O
  end.

Definition case_middle (d : decode_state) : case_outcome :=
  let d := read d (skip_while (fun b => negb (b =? 10)) (unread d)) in
  match unread d with
  | [] => case_exit d (-2)
  | _ => let d := read d 1 in case_break (with_chunk d (set_status (chunk d) status_head))
  end.

Definition case_head (d : decode_state) : case_outcome :=
  let d := read d (skip_while (fun b => b =? 13) (unread d)) in
  match unread d with
  | [] => case_exit d (-2)
  | b :: _ =>
      let d := read d 1 in
      if b =? 10 then complete d else case_middle (with_chunk d (set_status (chunk d) status_middle))
  end.

Definition case_end (d : decode_state) : case_outcome :=
  let d := read d (skip_while (fun b => b =? 13) (unread d)) in
  match unread d with
  | [] => case_exit d (-2)
  | b :: _ =>
      if negb (b =? 10) then case_exit d (-1)
      else let d := read d 1 in case_break (with_chunk d (set_status (chunk d) status_size))
  end.

Definition case_data (d : decode_state) : case_outcome :=
  let avail := (length (buf d) - src d)%nat in
  if Z.of_nat avail <? chunk_length (chunk d) then
    let d := take_data d avail in
    case_exit (with_chunk d (set_chunk_length (chunk d) (chunk_length (chunk d) - Z.of_nat avail))) (-2)
  else
    let d := take_data d (Z.to_nat (chunk_length (chunk d))) in
    case_end (with_chunk d (set_status (set_chunk_length (chunk d) 0) status_end)).

Definition case_ext (d : decode_state) : case_outcome :=
  let d := read d (skip_while (fun b => negb (b =? 10)) (unread d)) in
  match unread d with
  | [] => case_exit d (-2)
  | _ =>
      let d := read d 1 in
      if chunk_length (chunk d) =? 0 then
        if z2b (consume_trailer (chunk d))
        then case_break (with_chunk d (set_status (chunk d) status_head))
        else complete d
      else case_data (with_chunk d (set_status (chunk d) status_data))
  end.

Definition case_size (d : decode_state) : case_outcome :=
  let '(c, n, stop) := size_loop (unread d) (chunk d) 0 in
  let d := with_chunk (read d n) c in
  match stop with
  | size_exhausted => case_exit d (-2)
  | size_error => case_exit d (-1)
  | size_stop => case_ext (with_chunk d (set_status (set_hex_count c 0) status_ext))
  end.

Definition decode_switch (d : decode_state) : case_outcome :=
  match chunk_status (chunk d) with
  | status_size => case_size d
  | status_ext => case_ext d
  | status_data => case_data d
  | status_end => case_end d
  | status_head => case_head d
  | status_middle => case_middle d
  end.

(** [while (true) switch]: every [break] has read a byte. *)
Fixpoint decode_chunked_loop (fuel : nat) (d : decode_state) : option (decode_state * Z) :=
  match fuel with
  | O => None
  | S fuel =>
      match decode_switch d with
      | case_break d => decode_chunked_loop fuel d
      | case_exit d result => Some (d, result)
      end
  end.

(** The new state, the buffer, [*length] and the result: -2 to be continued, -1 error, otherwise how
    many bytes are left after the coding. *)
Definition parse_decode_chunked (c : chunked_state) (buffer : list Z) :
    option (chunked_state * list Z * nat * Z) :=
  '(d, result) ← decode_chunked_loop (S (length buffer)) (mk_decode c buffer 0 0);
  let buffer :=
    if Nat.eqb (dest d) (src d) then buf d
    else memmove (buf d) (dest d) (src d) (length (buf d) - src d) in
  Some (chunk d, buffer, dest d, result).

(** ** The encoder *)

(** What [send_chunk] writes for a chunk of a chunked response: [%x] of its size as [uint32_t]. *)
Definition text_x (n : Z) : list Z :=
  let ds := rev (le_digits 8 16 (u32 n)) in
  map (at_table (chars "0123456789abcdef")) (skipn (skip_while (fun d => d =? 0) (firstn 7 ds)) ds).
Definition send_chunk (content : list Z) : list Z :=
  match content with
  | [] => chars "0" ++ [13; 10; 13; 10]
  | _ => text_x (Z.of_nat (length content)) ++ [13; 10] ++ content ++ [13; 10]
  end.

(** ** The abstract decoder *)

Inductive chunk_event :=
  | chunk_bad
  | chunk_done (c : chunked_state)
  | chunk_go (c : chunked_state) (out : list Z).

(** The rest of the line after the size. *)
Definition ext_byte (c : chunked_state) (b : Z) : chunk_event :=
  if b =? 10 then
    if chunk_length c =? 0 then
      if z2b (consume_trailer c) then chunk_go (set_status c status_head) [] else chunk_done c
    else chunk_go (set_status c status_data) []
  else chunk_go c [].

Definition chunk_byte (c : chunked_state) (b : Z) : chunk_event :=
  match chunk_status c with
  | status_size =>
      if chunk_digit b =? -1 then
        if hex_count c =? 0 then chunk_bad
        else ext_byte (set_status (set_hex_count c 0) status_ext) b
      else if hex_count c =? 16 then chunk_bad
      else chunk_go (mk_chunked (chunk_length c * 16 + chunk_digit b) status_size (consume_trailer c)
                       (hex_count c + 1)) []
  | status_ext => ext_byte c b
  | status_data =>
      chunk_go (set_status (set_chunk_length c (chunk_length c - 1))
                  (if chunk_length c =? 1 then status_end else status_data)) [b]
  | status_end =>
      if b =? 13 then chunk_go c []
      else if b =? 10 then chunk_go (set_status c status_size) []
      else chunk_bad
  | status_head =>
      if b =? 13 then chunk_go c []
      else if b =? 10 then chunk_done c
      else chunk_go (set_status c status_middle) []
  | status_middle => if b =? 10 then chunk_go (set_status c status_head) [] else chunk_go c []
  end.

(** What a run over some input ends with; both endings keep the bytes not used. *)
Inductive chunk_verdict := chunk_more | chunk_error (rest : list Z) | chunk_complete (rest : list Z).

Fixpoint chunk_run (c : chunked_state) (input : list Z) : chunked_state * list Z * chunk_verdict :=
  match input with
  | [] => (c, [], chunk_more)
  | b :: rest =>
      match chunk_byte c b with
      | chunk_bad => (c, [], chunk_error input)
      | chunk_done c => (c, [], chunk_complete rest)
      | chunk_go c out => let '(c, more, v) := chunk_run c rest in (c, out ++ more, v)
      end
  end.

Definition verdict_rest (v : chunk_verdict) : list Z :=
  match v with chunk_more => [] | chunk_error rest => rest | chunk_complete rest => rest end.
Definition verdict_code (v : chunk_verdict) : Z :=
  match v with
  | chunk_more => -2
  | chunk_error _ => -1
  | chunk_complete rest => Z.of_nat (length rest)
  end.

(** Invariant of the state: a size has at most sixteen digits, data are left in the data state. *)
Definition chunk_ok (c : chunked_state) : Prop :=
  0 <= chunk_length c < 2 ^ 64 /\ 0 <= hex_count c <= 16 /\
  (chunk_status c = status_size -> chunk_length c < 16 ^ hex_count c) /\
  (chunk_status c = status_data -> 0 < chunk_length c) /\
  (chunk_status c = status_end -> chunk_length c = 0) /\
  (chunk_status c <> status_size -> hex_count c = 0).

(** ** Facts: the buffer *)

Definition well_placed (d : decode_state) : Prop := (dest d <= src d <= length (buf d))%nat.

(** Between two points of the decoder [out] has been appended to the decoded prefix and some unread
    bytes have been passed. *)
Definition moved (d d' : decode_state) (out : list Z) : Prop :=
  well_placed d' /\ length (buf d') = length (buf d) /\
  dest d' = (dest d + length out)%nat /\
  firstn (dest d') (buf d') = firstn (dest d) (buf d) ++ out /\
  (src d <= src d')%nat /\ unread d' = skipn (src d' - src d) (unread d).

Lemma length_unread d : length (unread d) = (length (buf d) - src d)%nat.
Proof. apply length_skipn. Qed.

Lemma moved_refl d : well_placed d -> moved d d [].
Proof.
  intros H. split; [exact H|]. split; [reflexivity|]. split; [cbn; lia|].
  split; [now rewrite app_nil_r|]. split; [lia|]. now rewrite Nat.sub_diag.
Qed.

Lemma moved_trans d1 d2 d3 o1 o2 : moved d1 d2 o1 -> moved d2 d3 o2 -> moved d1 d3 (o1 ++ o2).
Proof.
  intros (W2 & L2 & D2 & F2 & S2 & U2) (W3 & L3 & D3 & F3 & S3 & U3).
  split; [exact W3|]. split; [congruence|]. split; [rewrite length_app; lia|].
  split; [rewrite F3, F2; now rewrite app_assoc|]. split; [lia|].
  rewrite U3, U2, skipn_skipn. f_equal. lia.
Qed.

Lemma moved_read d n : well_placed d -> (n <= length (unread d))%nat -> moved d (read d n) [].
Proof.
  unfold well_placed. rewrite length_unread. intros H Hn.
  split; [unfold well_placed, read; cbn [dest src buf]; lia|]. split; [reflexivity|].
  split; [cbn; lia|]. split; [now rewrite app_nil_r|]. cbn [read src]. split; [lia|].
  unfold unread, read. cbn [src buf]. rewrite skipn_skipn. f_equal. lia.
Qed.

Lemma memmove_spec buffer t s n :
  (t <= s)%nat -> (s + n <= length buffer)%nat ->
  length (memmove buffer t s n) = length buffer /\
  firstn (t + n) (memmove buffer t s n) = firstn t buffer ++ firstn n (skipn s buffer) /\
  skipn (s + n) (memmove buffer t s n) = skipn (s + n) buffer.
Proof.
  intros Ht Hs. unfold memmove.
  assert (L1 : length (firstn t buffer) = t) by (rewrite length_firstn; lia).
  assert (L2 : length (firstn n (skipn s buffer)) = n) by (rewrite length_firstn, length_skipn; lia).
  split; [rewrite !length_app, L1, L2, length_skipn; lia|]. split.
  - rewrite app_assoc, firstn_app, length_app, L1, L2, Nat.sub_diag, firstn_O, app_nil_r.
    apply firstn_all2. rewrite length_app. lia.
  - rewrite app_assoc, skipn_app, length_app, L1, L2.
    rewrite skipn_all2 by (rewrite length_app; lia). cbn [app]. rewrite skipn_skipn. f_equal. lia.
Qed.

Lemma moved_take d n :
  well_placed d -> (n <= length (unread d))%nat ->
  moved d (take_data d n) (firstn n (unread d)).
Proof.
  unfold well_placed. rewrite length_unread. intros H Hn. unfold take_data.
  assert (Ln : length (firstn n (unread d)) = n) by (rewrite length_firstn, length_unread; lia).
  unfold moved, well_placed. rewrite Ln. cbn [dest src buf].
  destruct (Nat.eqb_spec (dest d) (src d)) as [E|E].
  - split; [lia|]. split; [reflexivity|]. split; [reflexivity|]. split.
    + unfold unread. rewrite E. rewrite <- (firstn_skipn (src d) (buf d)) at 1.
      rewrite firstn_app, length_firstn, firstn_firstn. f_equal.
      * f_equal. lia.
      * f_equal. lia.
    + split; [lia|]. unfold unread. cbn [src buf]. rewrite skipn_skipn. f_equal. lia.
  - destruct (memmove_spec (buf d) (dest d) (src d) n ltac:(lia) ltac:(lia)) as (L & F & S).
    split; [lia|]. split; [exact L|]. split; [reflexivity|]. split; [exact F|]. split; [lia|].
    unfold unread. cbn [src buf]. rewrite S, skipn_skipn. f_equal. lia.
Qed.

Lemma moved_with d d' c out : moved d d' out -> moved d (with_chunk d' c) out.
Proof. exact (fun H => H). Qed.

(** ** Facts: steps of the abstract decoder *)

Definition prepend (out : list Z) (r : chunked_state * list Z * chunk_verdict) :=
  let '(c, more, v) := r in (c, out ++ more, v).

Lemma prepend_app o1 o2 r : prepend o1 (prepend o2 r) = prepend (o1 ++ o2) r.
Proof. destruct r as [[c o] v]. cbn. now rewrite app_assoc. Qed.

Lemma prepend_nil r : prepend [] r = r.
Proof. now destruct r as [[c o] v]. Qed.

Lemma chunk_run_go c b rest c' out :
  chunk_byte c b = chunk_go c' out -> chunk_run c (b :: rest) = prepend out (chunk_run c' rest).
Proof. intros H. cbn [chunk_run]. now rewrite H. Qed.

Lemma skip_while_length p rest : (skip_while p rest <= length rest)%nat.
Proof. induction rest as [|b rest IH]; [reflexivity|]. cbn. destruct (p b); lia. Qed.

Lemma skip_while_stop p rest b more : skipn (skip_while p rest) rest = b :: more -> p b = false.
Proof.
  induction rest as [|a rest IH]; [discriminate|]. cbn [skip_while].
  destruct (p a) eqn:E; [exact IH|]. cbn. now intros [= <- <-].
Qed.

Lemma chunk_run_skip c p rest :
  (forall b, p b = true -> chunk_byte c b = chunk_go c []) ->
  chunk_run c rest = chunk_run c (skipn (skip_while p rest) rest).
Proof.
  intros H. induction rest as [|b rest IH]; [reflexivity|]. cbn [skip_while].
  destruct (p b) eqn:E; [|reflexivity]. rewrite (chunk_run_go _ _ _ _ _ (H b E)), prepend_nil. exact IH.
Qed.

(** The data state emits as many bytes as the size says. *)
Lemma chunk_run_data n : forall c rest,
  chunk_status c = status_data -> (n <= length rest)%nat -> Z.of_nat n <= chunk_length c ->
  0 < chunk_length c ->
  chunk_run c rest =
  prepend (firstn n rest)
    (chunk_run (set_status (set_chunk_length c (chunk_length c - Z.of_nat n))
                  (if chunk_length c =? Z.of_nat n then status_end else status_data)) (skipn n rest)).
Proof.
  induction n as [|n IH]; intros c rest Hs Hr Hl Hp.
  - rewrite firstn_O, skipn_O, prepend_nil, Z.sub_0_r.
    destruct (Z.eqb_spec (chunk_length c) (Z.of_nat 0)); [lia|].
    f_equal. destruct c. cbn in *. now rewrite Hs.
  - destruct rest as [|b rest]; [cbn in Hr; lia|]. cbn [firstn skipn].
    assert (E : chunk_byte c b = chunk_go (set_status (set_chunk_length c (chunk_length c - 1))
                  (if chunk_length c =? 1 then status_end else status_data)) [b])
      by (unfold chunk_byte; now rewrite Hs).
    rewrite (chunk_run_go _ _ _ _ _ E).
    destruct (Z.eqb_spec (chunk_length c) 1) as [E1|E1].
    + assert (n = 0)%nat as -> by lia. rewrite firstn_O, skipn_O. rewrite E1.
      reflexivity.
    + rewrite IH; cbn [set_status set_chunk_length chunk_length chunk_status consume_trailer hex_count];
        try (reflexivity || lia); [|cbn in Hr; lia].
      rewrite prepend_app. cbn [app]. do 2 f_equal.
      replace (chunk_length c - 1 - Z.of_nat n) with (chunk_length c - Z.of_nat (S n)) by lia.
      destruct (Z.eqb_spec (chunk_length c - 1) (Z.of_nat n)), (Z.eqb_spec (chunk_length c) (Z.of_nat (S n)));
        (reflexivity || lia).
Qed.

(** ** Facts: the cases of the switch *)

Definition keeps_ok (c c' : chunked_state) : Prop := chunk_ok c -> chunk_ok c'.

(** A step of the code that the abstract decoder follows. *)
Definition step (d d' : decode_state) (out : list Z) : Prop :=
  moved d d' out /\
  chunk_run (chunk d) (unread d) = prepend out (chunk_run (chunk d') (unread d')) /\
  keeps_ok (chunk d) (chunk d').

(** The way a case ends agrees with the abstract decoder. *)
Definition refines (d : decode_state) (o : case_outcome) : Prop :=
  match o with
  | case_break d' => exists out, step d d' out /\ (src d < src d')%nat
  | case_exit d' r =>
      exists out v, moved d d' out /\ chunk_run (chunk d) (unread d) = (chunk d', out, v) /\
        unread d' = verdict_rest v /\ r = verdict_code v /\ keeps_ok (chunk d) (chunk d')
  end.

Lemma step_trans d1 d2 d3 o1 o2 : step d1 d2 o1 -> step d2 d3 o2 -> step d1 d3 (o1 ++ o2).
Proof.
  intros (M1 & R1 & K1) (M2 & R2 & K2). split; [eapply moved_trans; eassumption|].
  split; [rewrite R1, R2; apply prepend_app|]. intros H. now apply K2, K1.
Qed.

Lemma refines_after d1 d2 o out : step d1 d2 out -> refines d2 o -> refines d1 o.
Proof.
  intros S R. pose proof S as (M & E & K). destruct o as [d'|d' r].
  - destruct R as (out' & S' & L). exists (out ++ out'). split; [eapply step_trans; eassumption|].
    destruct M as (_ & _ & _ & _ & L' & _). lia.
  - destruct R as (out' & v & M' & E' & U & C & K'). exists (out ++ out'), v.
    split; [eapply moved_trans; eassumption|]. split; [rewrite E, E'; reflexivity|].
    split; [exact U|]. split; [exact C|]. intros H. now apply K', K.
Qed.

Lemma step_skip d p :
  well_placed d -> (forall b, p b = true -> chunk_byte (chunk d) b = chunk_go (chunk d) []) ->
  step d (read d (skip_while p (unread d))) [].
Proof.
  intros W H. pose proof (moved_read d _ W (skip_while_length p (unread d))) as M.
  split; [exact M|]. split; [|now intros ?]. rewrite prepend_nil. cbn [chunk read].
  rewrite (chunk_run_skip _ p) by exact H. f_equal. destruct M as (_ & _ & _ & _ & _ & ->).
  cbn [read src]. f_equal. lia.
Qed.

Lemma unread_one d b rest : unread d = b :: rest -> unread (read d 1) = rest.
Proof.
  intros E. unfold unread, read. cbn [src buf]. rewrite Nat.add_comm, <- skipn_skipn.
  unfold unread in E. now rewrite E.
Qed.

Lemma moved_one d b rest : well_placed d -> unread d = b :: rest -> moved d (read d 1) [].
Proof. intros W E. apply moved_read; [exact W|]. rewrite E. cbn. lia. Qed.

Lemma step_byte d b rest c' :
  well_placed d -> unread d = b :: rest -> chunk_byte (chunk d) b = chunk_go c' [] ->
  keeps_ok (chunk d) c' -> step d (with_chunk (read d 1) c') [].
Proof.
  intros W E H K. split; [now apply moved_with, (moved_one _ b rest)|]. split; [|exact K].
  rewrite E, (chunk_run_go _ _ _ _ _ H), !prepend_nil. cbn [chunk with_chunk].
  change (unread (with_chunk (read d 1) c')) with (unread (read d 1)). now rewrite (unread_one _ _ _ E).
Qed.

Lemma step_same d b rest c' :
  well_placed d -> unread d = b :: rest -> chunk_byte (chunk d) b = chunk_byte c' b ->
  chunk_byte c' b <> chunk_bad -> keeps_ok (chunk d) c' -> step d (with_chunk d c') [].
Proof.
  intros W E H Nb K. split; [now apply moved_with, moved_refl|]. split; [|exact K].
  rewrite prepend_nil. change (unread (with_chunk d c')) with (unread d). cbn [chunk with_chunk].
  rewrite E. cbn [chunk_run]. rewrite H. now destruct (chunk_byte c' b).
Qed.

Lemma refines_more d : well_placed d -> unread d = [] -> refines d (case_exit d (-2)).
Proof.
  intros W E. exists [], chunk_more. split; [now apply moved_refl|]. rewrite E.
  split; [reflexivity|]. split; [reflexivity|]. split; [reflexivity|]. now intros ?.
Qed.

Lemma refines_bad d b rest :
  well_placed d -> unread d = b :: rest -> chunk_byte (chunk d) b = chunk_bad ->
  refines d (case_exit d (-1)).
Proof.
  intros W E H. exists [], (chunk_error (b :: rest)). split; [now apply moved_refl|]. rewrite E.
  split; [cbn [chunk_run]; now rewrite H|]. split; [reflexivity|]. split; [reflexivity|]. now intros ?.
Qed.

Lemma refines_complete d b rest :
  well_placed d -> unread d = b :: rest -> chunk_byte (chunk d) b = chunk_done (chunk d) ->
  refines d (complete (read d 1)).
Proof.
  intros W E H. exists [], (chunk_complete rest). split; [now apply (moved_one _ b rest)|].
  rewrite E. split; [cbn [chunk_run]; now rewrite H|].
  split; [now apply unread_one in E|]. split; [|now intros ?].
  cbn [verdict_code]. rewrite <- (unread_one _ _ _ E), length_unread.
  destruct (moved_one d b rest W E) as ((_ & W') & _). lia.
Qed.

Ltac unfold_ok :=
  unfold keeps_ok, chunk_ok, set_status, set_chunk_length, set_hex_count;
  cbn [chunk_length chunk_status consume_trailer hex_count].

Lemma well_placed_step d d' out : step d d' out -> well_placed d'.
Proof. intros ((W & _) & _). exact W. Qed.

(** Skip to a byte that ends the loop, then either there is none or it is [b]. *)
Lemma refines_skip d p (f : list Z -> case_outcome) :
  well_placed d -> (forall b, p b = true -> chunk_byte (chunk d) b = chunk_go (chunk d) []) ->
  let d' := read d (skip_while p (unread d)) in
  (unread d' = [] -> f [] = case_exit d' (-2)) ->
  (forall b rest, well_placed d' -> unread d' = b :: rest -> p b = false -> refines d' (f (b :: rest))) ->
  refines d (f (unread d')).
Proof.
  intros W H d' H0 H1. assert (S : step d d' []) by now apply step_skip.
  pose proof (well_placed_step _ _ _ S) as W'. apply (refines_after _ _ _ _ S).
  destruct (unread d') as [|b rest] eqn:E.
  - rewrite H0 by exact eq_refl. now apply refines_more.
  - apply H1; [exact W' | exact eq_refl |]. apply (skip_while_stop p (unread d) b rest).
    rewrite <- E. destruct S as ((_ & _ & _ & _ & _ & ->) & _). f_equal. unfold d'. cbn [read src]. lia.
Qed.

Lemma case_middle_refines d :
  well_placed d -> chunk_status (chunk d) = status_middle -> refines d (case_middle d).
Proof.
  intros W Hs. unfold case_middle.
  apply (refines_skip d (fun b => negb (b =? 10)) (fun u => match u with [] => _ | _ => _ end) W).
  - intros b Hb. unfold chunk_byte. rewrite Hs. now destruct (b =? 10).
  - reflexivity.
  - intros b rest W' E Hb. apply negb_false_iff in Hb.
    set (d' := read d _) in *. exists []. split; [|cbn; lia].
    apply (step_byte d' b rest); try assumption.
    + unfold chunk_byte. change (chunk d') with (chunk d). now rewrite Hs, Hb.
    + change (chunk (read d' 1)) with (chunk d). change (chunk d') with (chunk d).
      unfold_ok. rewrite Hs. intuition discriminate.
Qed.

Lemma case_head_refines d :
  well_placed d -> chunk_status (chunk d) = status_head -> refines d (case_head d).
Proof.
  intros W Hs. unfold case_head.
  apply (refines_skip d (fun b => b =? 13) (fun u => match u with [] => _ | b :: _ => _ end) W).
  - intros b Hb. unfold chunk_byte. now rewrite Hs, Hb.
  - reflexivity.
  - intros b rest W' E Hb. set (d' := read d _) in *.
    assert (Hd : chunk d' = chunk d) by reflexivity.
    destruct (Z.eqb_spec b 10) as [->|Hn].
    + apply (refines_complete d' 10 rest); try assumption. unfold chunk_byte. now rewrite Hd, Hs.
    + assert (S : step d' (with_chunk (read d' 1) (set_status (chunk d) status_middle)) []).
      { apply (step_byte d' b rest); try assumption.
        - unfold chunk_byte. rewrite Hd, Hs, Hb. destruct (Z.eqb_spec b 10); [contradiction|reflexivity].
        - rewrite Hd. unfold_ok. rewrite Hs. intuition discriminate. }
      apply (refines_after _ _ _ _ S). apply case_middle_refines; [|reflexivity].
      eapply well_placed_step. exact S.
Qed.

Lemma case_end_refines d :
  well_placed d -> chunk_status (chunk d) = status_end -> refines d (case_end d).
Proof.
  intros W Hs. unfold case_end.
  apply (refines_skip d (fun b => b =? 13) (fun u => match u with [] => _ | b :: _ => _ end) W).
  - intros b Hb. unfold chunk_byte. now rewrite Hs, Hb.
  - reflexivity.
  - intros b rest W' E Hb. set (d' := read d _) in *.
    assert (Hd : chunk d' = chunk d) by reflexivity.
    destruct (Z.eqb_spec b 10) as [->|Hn]; cbn [negb].
    + exists []. split; [|cbn; lia]. apply (step_byte d' 10 rest); try assumption.
      * unfold chunk_byte. now rewrite Hd, Hs.
      * change (chunk (read d' 1)) with (chunk d). rewrite Hd. unfold_ok. rewrite Hs.
        intros (A & B & _ & _ & C & D). rewrite (D ltac:(discriminate)), (C eq_refl).
        repeat (split; [lia || discriminate|]). intros F. now elim F.
    + apply (refines_bad d' b rest); try assumption. unfold chunk_byte. rewrite Hd, Hs, Hb.
      destruct (Z.eqb_spec b 10); [contradiction|reflexivity].
Qed.

Lemma case_data_refines d :
  well_placed d -> chunk_status (chunk d) = status_data -> 0 < chunk_length (chunk d) ->
  refines d (case_data d).
Proof.
  intros W Hs Hl. unfold case_data. rewrite <- length_unread.
  destruct (Z.ltb_spec (Z.of_nat (length (unread d))) (chunk_length (chunk d))) as [Hlt|Hge].
  - set (n := length (unread d)) in *.
    pose proof (moved_take d n W (Nat.le_refl _)) as M. exists (firstn n (unread d)), chunk_more.
    split; [exact M|].
    rewrite (chunk_run_data n) by (assumption || lia).
    destruct M as (_ & _ & _ & _ & _ & U). cbn [take_data src] in U.
    replace (src d + n - src d)%nat with n in U by lia.
    assert (A0 : skipn n (unread d) = []) by (apply skipn_all2; lia).
    rewrite A0 in U |- *. cbn [chunk_run prepend]. rewrite app_nil_r.
    destruct (Z.eqb_spec (chunk_length (chunk d)) (Z.of_nat n)); [lia|].
    cbn [with_chunk chunk take_data]. split; [|split; [exact U|split; [reflexivity|]]].
    + do 3 f_equal. unfold set_status, set_chunk_length. now rewrite Hs.
    + unfold_ok. rewrite Hs. intros (A & B & _ & C & _ & D). rewrite (D ltac:(discriminate)).
      repeat (split; [lia || discriminate|]). auto.
  - set (n := Z.to_nat (chunk_length (chunk d))).
    assert (S : step d (with_chunk (take_data d n)
              (set_status (set_chunk_length (chunk (take_data d n)) 0) status_end)) (firstn n (unread d))).
    { pose proof (moved_take d n W ltac:(lia)) as M. split; [exact M|]. split.
      - rewrite (chunk_run_data n) by (assumption || lia). f_equal.
        destruct M as (_ & _ & _ & _ & _ & U). cbn [take_data src] in U.
        replace (src d + n - src d)%nat with n in U by lia.
        change (unread (with_chunk (take_data d n) _)) with (unread (take_data d n)). rewrite U.
        f_equal. cbn [with_chunk chunk take_data]. unfold set_status, set_chunk_length.
        cbn [chunk_length consume_trailer hex_count].
        destruct (Z.eqb_spec (chunk_length (chunk d)) (Z.of_nat n)); [|lia]. f_equal. lia.
      - cbn [with_chunk chunk take_data]. unfold_ok. rewrite Hs. intros (A & B & _ & C & _ & D).
        rewrite (D ltac:(discriminate)). repeat (split; [lia || discriminate|]). auto. }
    apply (refines_after _ _ _ _ S). apply case_end_refines; [|reflexivity].
    eapply well_placed_step. exact S.
Qed.

Lemma case_ext_refines d :
  well_placed d -> chunk_status (chunk d) = status_ext -> 0 <= chunk_length (chunk d) ->
  refines d (case_ext d).
Proof.
  intros W Hs Hl. unfold case_ext.
  apply (refines_skip d (fun b => negb (b =? 10)) (fun u => match u with [] => _ | _ => _ end) W).
  - intros b Hb. unfold chunk_byte, ext_byte. rewrite Hs. now destruct (b =? 10).
  - reflexivity.
  - intros b rest W' E Hb. apply negb_false_iff in Hb.
    set (d' := read d _) in *. assert (Hd : chunk d' = chunk d) by reflexivity.
    assert (B : chunk_byte (chunk d') b = ext_byte (chunk d) b) by (unfold chunk_byte; now rewrite Hd, Hs).
    unfold ext_byte in B. rewrite Hb in B. change (chunk (read d' 1)) with (chunk d).
    destruct (Z.eqb_spec (chunk_length (chunk d)) 0) as [Z0|Zn].
    + destruct (z2b (consume_trailer (chunk d))).
      * exists []. split; [|cbn; lia]. apply (step_byte d' b rest); try assumption.
        rewrite Hd. unfold_ok. rewrite Hs. intuition discriminate.
      * apply (refines_complete d' b rest); assumption.
    + assert (S : step d' (with_chunk (read d' 1) (set_status (chunk d) status_data)) []).
      { apply (step_byte d' b rest); try assumption. rewrite Hd. unfold_ok. rewrite Hs.
        intros (A & C & _ & _ & _ & D). rewrite (D ltac:(discriminate)).
        repeat (split; [lia || discriminate|]). auto. }
      apply (refines_after _ _ _ _ S). apply case_data_refines; [|reflexivity|cbn; lia].
      eapply well_placed_step. exact S.
Qed.

(** ** Facts: the size *)
Lemma chunk_digit_range b : -1 <= chunk_digit b < 16.
Proof. unfold chunk_digit. repeat case_cmp; cbn [andb]; lia. Qed.

Lemma size_ok c v :
  chunk_status c = status_size -> chunk_ok c -> hex_count c <> 16 -> 0 <= v < 16 ->
  let c' := mk_chunked (chunk_length c * 16 + v) status_size (consume_trailer c) (hex_count c + 1) in
  chunk_ok c' /\ u64 (chunk_length c * 16 + v) = chunk_length c * 16 + v.
Proof.
  intros Hs (A & B & C & _ & _ & D) Hn Hv c'. specialize (C Hs).
  assert (P : 16 ^ hex_count c * 16 = 16 ^ (hex_count c + 1)) by (rewrite Z.pow_add_r; lia).
  assert (Q : 16 ^ (hex_count c + 1) <= 2 ^ 64).
  { change (2 ^ 64) with (16 ^ 16). apply Z.pow_le_mono_r; lia. }
  split; [|apply wrapU_id; unfold fits; lia].
  unfold chunk_ok, c'. cbn [chunk_length chunk_status consume_trailer hex_count].
  split; [lia|]. split; [lia|]. split; [lia|]. split; [discriminate|]. split; [discriminate|].
  intros F. now elim F.
Qed.

(** The loop of the size case passes the digits of the size. *)
Lemma size_loop_spec rest : forall c n,
  chunk_status c = status_size -> chunk_ok c ->
  exists c' k stop, size_loop rest c n = (c', (n + k)%nat, stop) /\ (k <= length rest)%nat /\
    chunk_run c rest = chunk_run c' (skipn k rest) /\ chunk_status c' = status_size /\ chunk_ok c' /\
    match stop with
    | size_exhausted => skipn k rest = []
    | size_error => exists b more, skipn k rest = b :: more /\ chunk_byte c' b = chunk_bad
    | size_stop => exists b more, skipn k rest = b :: more /\ chunk_digit b = -1 /\ hex_count c' <> 0
    end.
Proof.
  induction rest as [|b rest IH]; intros c n Hs Hc.
  - exists c, O, size_exhausted. rewrite Nat.add_0_r. cbn. auto 10.
  - cbn [size_loop]. destruct (Z.eqb_spec (chunk_digit b) (-1)) as [E|E].
    + exists c, O, (if hex_count c =? 0 then size_error else size_stop). rewrite Nat.add_0_r, skipn_O.
      split; [reflexivity|]. split; [lia|]. split; [reflexivity|]. split; [exact Hs|]. split; [exact Hc|].
      destruct (Z.eqb_spec (hex_count c) 0) as [E0|E0]; exists b, rest; (split; [reflexivity|]).
      * unfold chunk_byte. now rewrite Hs, E, E0.
      * now split.
    + destruct (Z.eqb_spec (hex_count c) 16) as [E16|E16].
      * exists c, O, size_error. rewrite Nat.add_0_r, skipn_O.
        split; [reflexivity|]. split; [lia|]. split; [reflexivity|]. split; [exact Hs|]. split; [exact Hc|].
        exists b, rest. split; [reflexivity|]. unfold chunk_byte. rewrite Hs, E16.
        destruct (Z.eqb_spec (chunk_digit b) (-1)); [contradiction|reflexivity].
      * pose proof (chunk_digit_range b) as Hr.
        destruct (size_ok c (chunk_digit b) Hs Hc E16 ltac:(lia)) as [Hc' U]. rewrite U.
        set (c1 := mk_chunked _ _ _ _) in Hc'.
        replace (set_hex_count _ _) with c1 by (unfold c1, set_hex_count, set_chunk_length; cbn; now rewrite Hs).
        destruct (IH c1 (S n) eq_refl Hc') as (c' & k & stop & E1 & Lk & R & Hs' & Hc2 & P).
        exists c', (S k), stop. rewrite E1. split; [f_equal; f_equal; lia|]. cbn [length skipn].
        split; [lia|]. split; [|auto]. rewrite <- R.
        assert (G : chunk_byte c b = chunk_go c1 []).
        { unfold chunk_byte. rewrite Hs. destruct (Z.eqb_spec (chunk_digit b) (-1)); [contradiction|].
          destruct (Z.eqb_spec (hex_count c) 16); [contradiction|]. reflexivity. }
        now rewrite (chunk_run_go _ _ _ _ _ G), prepend_nil.
Qed.

Lemma case_size_refines d :
  well_placed d -> chunk_status (chunk d) = status_size -> chunk_ok (chunk d) ->
  refines d (case_size d).
Proof.
  intros W Hs Hc. unfold case_size.
  destruct (size_loop_spec (unread d) (chunk d) 0 Hs Hc) as (c' & k & stop & -> & Lk & R & Hs' & Hc' & P).
  cbn [Nat.add]. set (d' := with_chunk (read d k) c').
  pose proof (moved_read d k W Lk) as M.
  assert (U : unread d' = skipn k (unread d)).
  { destruct M as (_ & _ & _ & _ & _ & U). cbn [read src] in U.
    replace (src d + k - src d)%nat with k in U by lia. exact U. }
  assert (S : step d d' []).
  { split; [exact M|]. rewrite prepend_nil, U. split; [exact R|]. now intros _. }
  pose proof (well_placed_step _ _ _ S) as W'. apply (refines_after _ _ _ _ S). rewrite <- U in P.
  destruct stop.
  - now apply refines_more.
  - destruct P as (b & more & E & B). now apply (refines_bad d' b more).
  - destruct P as (b & more & E & B & Hh).
    set (c1 := set_status (set_hex_count c' 0) status_ext).
    assert (S1 : step d' (with_chunk d' c1) []).
    { apply (step_same d' b more); try assumption.
      - unfold chunk_byte. cbn [chunk d' with_chunk]. rewrite Hs', B.
        destruct (Z.eqb_spec (hex_count c') 0); [contradiction|]. reflexivity.
      - unfold chunk_byte, ext_byte, c1. cbn [chunk_status set_status].
        repeat case_match; discriminate.
      - unfold c1. cbn [chunk d' with_chunk]. unfold_ok. intros (A & _).
        repeat (split; [lia || discriminate|]). auto. }
    apply (refines_after _ _ _ _ S1). apply case_ext_refines; [exact (well_placed_step _ _ _ S1)|reflexivity|].
    cbn. apply Hc'.
Qed.

Lemma decode_switch_refines d : well_placed d -> chunk_ok (chunk d) -> refines d (decode_switch d).
Proof.
  intros W Hc. unfold decode_switch. destruct (chunk_status (chunk d)) eqn:E.
  - now apply case_size_refines.
  - apply case_ext_refines; [assumption..|]. apply Hc.
  - apply case_data_refines; [assumption..|]. destruct Hc as (_ & _ & _ & H & _). now apply H.
  - now apply case_end_refines.
  - now apply case_head_refines.
  - now apply case_middle_refines.
Qed.

(** ** Facts: whole calls *)
Lemma decode_chunked_loop_spec fuel : forall d,
  well_placed d -> chunk_ok (chunk d) -> (length (unread d) < fuel)%nat ->
  exists d' r, decode_chunked_loop fuel d = Some (d', r) /\ refines d (case_exit d' r).
Proof.
  induction fuel as [|fuel IH]; intros d W Hc Hf; [lia|]. cbn [decode_chunked_loop].
  pose proof (decode_switch_refines d W Hc) as R. destruct (decode_switch d) as [d1|d1 r].
  - destruct R as (out & S & L). pose proof (well_placed_step _ _ _ S) as W1.
    destruct S as (M & E & K).
    destruct (IH d1 W1 (K Hc)) as (d' & r & -> & R).
    + destruct M as (_ & Lb & _). rewrite length_unread in *. destruct W1 as [_ W1]. lia.
    + exists d', r. split; [reflexivity|]. exact (refines_after _ _ _ _ (conj M (conj E K)) R).
  - exists d1, r. now split.
Qed.

Lemma finish_spec d :
  well_placed d ->
  let n := (length (buf d) - src d)%nat in
  let buffer := if Nat.eqb (dest d) (src d) then buf d else memmove (buf d) (dest d) (src d) n in
  length buffer = length (buf d) /\
  firstn (dest d) buffer = firstn (dest d) (buf d) /\ firstn n (skipn (dest d) buffer) = unread d.
Proof.
  intros [W1 W2] n buffer. unfold buffer, n. destruct (Nat.eqb_spec (dest d) (src d)) as [E|E].
  - split; [reflexivity|]. split; [reflexivity|]. rewrite E. apply firstn_all2. now rewrite length_unread.
  - destruct (memmove_spec (buf d) (dest d) (src d) (length (buf d) - src d)) as (L & F & _); [lia..|].
    set (m := memmove _ _ _ _) in *. split; [exact L|].
    assert (U : firstn (length (buf d) - src d) (skipn (src d) (buf d)) = unread d)
      by (apply firstn_all2; now rewrite length_unread). rewrite U in F. split.
    + rewrite <- (Nat.min_l (dest d) (dest d + (length (buf d) - src d))) at 1 by lia.
      rewrite <- firstn_firstn, F, firstn_app, length_firstn.
      replace (dest d - Nat.min (dest d) (length (buf d)))%nat with O by lia.
      now rewrite firstn_O, app_nil_r, firstn_firstn, Nat.min_id.
    + rewrite firstn_skipn_comm, F, skipn_app, length_firstn.
      rewrite skipn_all2 by (rewrite length_firstn; lia).
      replace (dest d - Nat.min (dest d) (length (buf d)))%nat with O by lia. reflexivity.
Qed.

(** One call refines the abstract decoder. *)
Lemma parse_decode_chunked_spec c buffer :
  chunk_ok c ->
  let '(c', out, v) := chunk_run c buffer in
  exists buffer', parse_decode_chunked c buffer = Some (c', buffer', length out, verdict_code v) /\
    chunk_ok c' /\ length buffer' = length buffer /\
    firstn (length out) buffer' = out /\
    firstn (length (verdict_rest v)) (skipn (length out) buffer') = verdict_rest v.
Proof.
  intros Hc. set (d0 := mk_decode c buffer 0 0).
  assert (W0 : well_placed d0) by (unfold well_placed; cbn; lia).
  destruct (decode_chunked_loop_spec (S (length buffer)) d0 W0 Hc) as (d & r & E & out & v & M & R & U & C & K).
  - rewrite length_unread. cbn. lia.
  - change (chunk d0) with c in *. change (unread d0) with buffer in *. rewrite R.
    destruct M as (W & L & D & F & _). cbn in D, F.
    destruct (finish_spec d W) as (Lb & Fb & Ub). unfold parse_decode_chunked. fold d0. rewrite E.
    cbn [mbind option_bind]. eexists. rewrite D in *. rewrite C. split; [reflexivity|].
    split; [now apply K|]. split; [rewrite Lb, L; reflexivity|]. split; [rewrite Fb; exact F|].
    rewrite <- U at 1. rewrite length_unread, Ub. exact U.
Qed.

(** The abstract decoder does not depend on how its input is cut. *)
Lemma chunk_run_app c xs ys :
  chunk_run c (xs ++ ys) =
  let '(c1, out1, v1) := chunk_run c xs in
  match v1 with
  | chunk_more => prepend out1 (chunk_run c1 ys)
  | chunk_error rest => (c1, out1, chunk_error (rest ++ ys))
  | chunk_complete rest => (c1, out1, chunk_complete (rest ++ ys))
  end.
Proof.
  revert c. induction xs as [|b xs IH]; intros c; [cbn; now rewrite prepend_nil|].
  cbn [app chunk_run]. destruct (chunk_byte c b) as [|c'|c' out]; [reflexivity..|].
  rewrite IH. destruct (chunk_run c' xs) as [[c1 out1] [|rest|rest]]; [|reflexivity..].
  destruct (chunk_run c1 ys) as [[c2 out2] v2]. cbn. now rewrite app_assoc.
Qed.

(** ** Facts: the encoder *)
Lemma chunk_digit_hex d : 0 <= d < 16 -> chunk_digit (at_table (chars "0123456789abcdef") d) = d.
Proof. intros Hd. apply Z.eqb_eq. by_range d 16. Qed.

Lemma chunk_run_size ds : forall c rest,
  chunk_status c = status_size -> digits 16 ds -> hex_count c + Z.of_nat (length ds) <= 16 ->
  0 <= hex_count c ->
  chunk_run c (map (at_table (chars "0123456789abcdef")) ds ++ rest) =
  chunk_run (mk_chunked (chunk_length c * 16 ^ Z.of_nat (length ds) + be_val 16 ds) status_size
               (consume_trailer c) (hex_count c + Z.of_nat (length ds))) rest.
Proof.
  induction ds as [|d ds IH]; intros c rest Hs Hd Hl H0.
  - cbn [map app length]. f_equal. destruct c. cbn in *. rewrite Hs. f_equal; [unfold be_val; cbn; lia|lia].
  - apply digits_cons in Hd as [Hd Hds]. cbn [map app length] in *.
    assert (G : chunk_byte c (at_table (chars "0123456789abcdef") d) =
      chunk_go (mk_chunked (chunk_length c * 16 + d) status_size (consume_trailer c) (hex_count c + 1)) []).
    { unfold chunk_byte. rewrite Hs, chunk_digit_hex by assumption.
      destruct (Z.eqb_spec d (-1)); [lia|]. destruct (Z.eqb_spec (hex_count c) 16); [lia|]. reflexivity. }
    rewrite (chunk_run_go _ _ _ _ _ G), prepend_nil, IH; cbn [chunk_status chunk_length hex_count consume_trailer];
      [|reflexivity|assumption|lia|lia].
    f_equal. rewrite be_val_cons, Nat2Z.inj_succ, Z.pow_succ_r by lia. f_equal; [ring|lia].
Qed.

Lemma be_val_skip_zeros ds n :
  be_val 16 (skipn (skip_while (fun d => d =? 0) (firstn n ds)) ds) = be_val 16 ds.
Proof.
  revert n. induction ds as [|d ds IH]; intros [|n]; try reflexivity. cbn [firstn skip_while].
  destruct (Z.eqb_spec d 0) as [->|]; [|reflexivity]. cbn [skipn]. rewrite IH, be_val_cons. lia.
Qed.

Lemma text_x_spec n :
  0 < n < 2 ^ 32 -> exists ds, text_x n = map (at_table (chars "0123456789abcdef")) ds /\ digits 16 ds /\
    be_val 16 ds = n /\ (0 < length ds <= 8)%nat.
Proof.
  intros Hn. unfold text_x. rewrite wrapU_id by (unfold fits; lia).
  set (ds := rev (le_digits 8 16 n)). exists (skipn (skip_while (fun d => d =? 0) (firstn 7 ds)) ds).
  assert (L : length ds = 8%nat) by (unfold ds; now rewrite length_rev, length_le_digits).
  assert (D : digits 16 ds) by (apply digits_rev, digits_le_digits; lia).
  pose proof (skip_while_length (fun d => d =? 0) (firstn 7 ds)) as S. rewrite length_firstn in S.
  split; [reflexivity|]. split; [now apply digits_skipn|].
  split; [|rewrite length_skipn; lia]. rewrite be_val_skip_zeros. unfold ds.
  rewrite be_val_rev, rev_involutive, le_val_le_digits by lia. apply Z.mod_small. cbn. lia.
Qed.

(** The abstract decoder on one chunk as [send_chunk] writes it, and on the last one. *)
Lemma chunk_run_send c content rest :
  chunk_status c = status_size -> chunk_length c = 0 -> hex_count c = 0 ->
  content <> [] -> Z.of_nat (length content) < 2 ^ 32 ->
  chunk_run c (send_chunk content ++ rest) = prepend content (chunk_run c rest).
Proof.
  intros Hs Hl Hh Hne Hc. unfold send_chunk. destruct content as [|x xs] eqn:Ec; [contradiction|].
  rewrite <- Ec in *. clear Hne. assert (Hp : (0 < length content)%nat) by (rewrite Ec; cbn; lia). clear Ec x xs.
  destruct (text_x_spec (Z.of_nat (length content)) ltac:(lia)) as (ds & -> & Dd & Vd & Ld).
  rewrite <- app_assoc, chunk_run_size by (assumption || lia). rewrite Hl, Hh, Vd, Z.mul_0_l, Z.add_0_l.
  set (n := Z.of_nat (length content)) in *. cbn [app].
  set (c1 := mk_chunked n status_size (consume_trailer c) (0 + Z.of_nat (length ds))).
  assert (G1 : chunk_byte c1 13 = chunk_go (mk_chunked n status_ext (consume_trailer c) 0) []).
  { unfold chunk_byte, c1. cbn [chunk_status hex_count].
    change (chunk_digit 13 =? -1) with true. cbn iota.
    destruct (Z.eqb_spec (0 + Z.of_nat (length ds)) 0); [lia|]. reflexivity. }
  rewrite (chunk_run_go _ _ _ _ _ G1), prepend_nil.
  assert (G2 : chunk_byte (mk_chunked n status_ext (consume_trailer c) 0) 10 =
               chunk_go (mk_chunked n status_data (consume_trailer c) 0) []).
  { unfold chunk_byte, ext_byte. cbn. destruct (Z.eqb_spec n 0); [lia|]. reflexivity. }
  rewrite (chunk_run_go _ _ _ _ _ G2), prepend_nil, (chunk_run_data (length content));
    cbn [chunk_status chunk_length]; [|reflexivity|rewrite !length_app; lia|lia|lia].
  rewrite <- app_assoc, firstn_app, firstn_all, Nat.sub_diag, firstn_O, app_nil_r.
  rewrite skipn_app, skipn_all, Nat.sub_diag, skipn_O. cbn [app]. f_equal.
  fold n. rewrite Z.eqb_refl, Z.sub_diag. cbn [chunk_run].
  destruct c as [l s t h]. cbn in *. subst. now rewrite !prepend_nil || (destruct (chunk_run _ _) as [[? ?] ?]).
Qed.

Lemma chunk_run_last rest :
  chunk_run chunked_initial (send_chunk [] ++ rest) = (mk_chunked 0 status_head 1 0, [], chunk_complete rest).
Proof. reflexivity. Qed.

(** ** A body that arrives in pieces

    The callers of [parse_decode_chunked] (http.cpp, [connection::fetch] and [client::fetch]) decode the
    piece of every read event, append the decoded prefix to the content and go on reading exactly while
    the result is -2. *)
Fixpoint decode_pieces (c : chunked_state) (pieces : list (list Z)) : option (list Z * Z) :=
  match pieces with
  | [] => Some ([], -2)
  | piece :: pieces =>
      '(c, buffer, recv, result) ← parse_decode_chunked c piece;
      if result =? -2 then
        '(content, result) ← decode_pieces c pieces; Some (firstn recv buffer ++ content, result)
      else Some (firstn recv buffer, result)
  end.

Lemma decode_pieces_spec pieces : forall c,
  chunk_ok c -> snd (chunk_run c (concat pieces)) = chunk_complete [] ->
  decode_pieces c pieces = Some (snd (fst (chunk_run c (concat pieces))), 0).
Proof.
  induction pieces as [|p ps IH]; intros c Hc Hv; [discriminate|].
  cbn [concat decode_pieces] in *. rewrite chunk_run_app in Hv |- *.
  pose proof (parse_decode_chunked_spec c p Hc) as S.
  destruct (chunk_run c p) as [[c1 out] v]. destruct S as (b & -> & Hc1 & _ & F & _).
  cbn [mbind option_bind]. destruct v as [|rest|rest]; cbn [verdict_code].
  - change (-2 =? -2) with true. cbn iota. rewrite F.
    specialize (IH c1 Hc1). destruct (chunk_run c1 (concat ps)) as [[c2 out2] v2]. cbn [prepend fst snd] in *.
    now rewrite IH.
  - discriminate.
  - cbn [fst snd] in *. injection Hv as Hv. apply app_eq_nil in Hv as [-> _]. cbn. now rewrite F.
Qed.

(** ** Properties *)

(** (C7) The in-place decoder refines the byte automaton: from every well-formed state and on every
    buffer the call returns (the loop ends), its new state is that of the automaton and well formed,
    the front of the buffer holds the bytes the automaton emits, followed by the bytes it did not use,
    and the result is -2 when more input is needed, -1 on an error and otherwise the number of bytes
    left behind the coding.  No size overflows [size_t]. *)
Theorem chunked_refinement (c : chunked_state) (buffer : list Z) :
  chunk_ok c ->
  let '(c', out, v) := chunk_run c buffer in
  exists buffer', parse_decode_chunked c buffer = Some (c', buffer', length out, verdict_code v) /\
    chunk_ok c' /\ length buffer' = length buffer /\
    firstn (length out) buffer' = out /\
    firstn (length (verdict_rest v)) (skipn (length out) buffer') = verdict_rest v.
Proof. apply parse_decode_chunked_spec. Qed.

Lemma chunked_refinement_witness :
  exists buffer', parse_decode_chunked chunked_initial (chars "3" ++ [10] ++ chars "abcd") =
      Some (mk_chunked 0 status_end 1 0, buffer', 3%nat, -1) /\ firstn 3 buffer' = chars "abc".
Proof.
  assert (H : chunk_ok chunked_initial)
    by (unfold chunk_ok, chunked_initial; cbn; repeat (split; [lia || discriminate|]); now intros []).
  destruct (chunked_refinement chunked_initial (chars "3" ++ [10] ++ chars "abcd") H)
    as (b & E & _ & _ & F & _). exists b. split; [exact E | exact F].
Defined.

(** The decoder does not depend on how the input is cut: decoding [xs] and then, when more input
    is asked for, [ys] leaves the state and gives the bytes and the result of decoding them at once;
    and a call that has reached an end or an error is not affected by what follows. *)
Theorem chunked_incremental (c : chunked_state) (xs ys : list Z) :
  chunk_ok c ->
  exists c1 b1 n1 r1 c3 b3 n3 r3,
    parse_decode_chunked c xs = Some (c1, b1, n1, r1) /\
    parse_decode_chunked c (xs ++ ys) = Some (c3, b3, n3, r3) /\
    (r1 = -2 -> exists b2 n2,
       parse_decode_chunked c1 ys = Some (c3, b2, n2, r3) /\
       firstn n3 b3 = firstn n1 b1 ++ firstn n2 b2 /\ n3 = (n1 + n2)%nat) /\
    (r1 <> -2 ->
       c3 = c1 /\ firstn n3 b3 = firstn n1 b1 /\
       r3 = if r1 =? -1 then -1 else r1 + Z.of_nat (length ys)).
Proof.
  intros Hc. pose proof (parse_decode_chunked_spec c xs Hc) as S1.
  pose proof (parse_decode_chunked_spec c (xs ++ ys) Hc) as S3. rewrite chunk_run_app in S3.
  destruct (chunk_run c xs) as [[c1 o1] v1]. destruct S1 as (b1 & E1 & Hc1 & _ & F1 & _).
  rewrite E1. destruct v1 as [|rest|rest].
  - pose proof (parse_decode_chunked_spec c1 ys Hc1) as S2.
    destruct (chunk_run c1 ys) as [[c2 o2] v2]. destruct S2 as (b2 & E2 & _ & _ & F2 & _).
    cbn [prepend] in S3. destruct S3 as (b3 & E3 & _ & _ & F3 & _). rewrite E3.
    do 8 eexists. do 2 (split; [reflexivity|]). split; [|now intros []].
    intros _. exists b2, (length o2). split; [exact E2|]. rewrite F1, F2, F3, length_app. now split.
  - destruct S3 as (b3 & E3 & _ & _ & F3 & _). rewrite E3.
    do 8 eexists. do 2 (split; [reflexivity|]). split; [discriminate|]. rewrite F1, F3. now split.
  - destruct S3 as (b3 & E3 & _ & _ & F3 & _). rewrite E3.
    do 8 eexists. do 2 (split; [reflexivity|]). cbn [verdict_code]. rewrite length_app.
    split; [lia|]. rewrite F1, F3. intros _. split; [reflexivity|]. split; [reflexivity|].
    destruct (Z.eqb_spec (Z.of_nat (length rest)) (-1)); lia.
Qed.

Lemma chunked_incremental_witness :
  exists c1 b1 n1 r1 c3 b3 n3 r3,
    parse_decode_chunked chunked_initial (chars "5" ++ [13; 10] ++ chars "ab") = Some (c1, b1, n1, r1) /\
    parse_decode_chunked chunked_initial ((chars "5" ++ [13; 10] ++ chars "ab") ++ chars "cde") =
      Some (c3, b3, n3, r3) /\
    (r1 = -2 -> exists b2 n2,
       parse_decode_chunked c1 (chars "cde") = Some (c3, b2, n2, r3) /\
       firstn n3 b3 = firstn n1 b1 ++ firstn n2 b2 /\ n3 = (n1 + n2)%nat).
Proof.
  assert (H : chunk_ok chunked_initial)
    by (unfold chunk_ok, chunked_initial; cbn; repeat (split; [lia || discriminate|]); now intros []).
  destruct (chunked_incremental chunked_initial (chars "5" ++ [13; 10] ++ chars "ab") (chars "cde") H)
    as (c1 & b1 & n1 & r1 & c3 & b3 & n3 & r3 & E1 & E3 & G & _).
  exists c1, b1, n1, r1, c3, b3, n3, r3. split; [exact E1|]. split; [exact E3 | exact G].
Defined.

(** (C8) What [send_chunk] writes is decoded to what was sent: a body sent as non-empty chunks and
    closed by the empty chunk, cut into pieces in any way on its way, is reassembled to the
    concatenation of the chunks, and the decoder reports the end with nothing left over. *)
Theorem chunked_roundtrip (chunks pieces : list (list Z)) :
  Forall (fun content => content <> [] /\ Z.of_nat (length content) < 2 ^ 32) chunks ->
  concat pieces = concat (map send_chunk chunks) ++ send_chunk [] ->
  decode_pieces chunked_initial pieces = Some (concat chunks, 0).
Proof.
  intros Hc Hp.
  assert (R : chunk_run chunked_initial (concat pieces) =
              (mk_chunked 0 status_head 1 0, concat chunks, chunk_complete [])).
  { rewrite Hp. clear Hp. induction Hc as [|content chunks [Hne Hl] _ IH]; [reflexivity|].
    cbn [map concat]. rewrite <- app_assoc, chunk_run_send by (reflexivity || assumption). now rewrite IH. }
  rewrite decode_pieces_spec; rewrite ?R; try reflexivity.
  unfold chunk_ok, chunked_initial; cbn. repeat (split; [lia || discriminate|]). now intros [].
Qed.

Lemma chunked_roundtrip_witness :
  decode_pieces chunked_initial
    [chars "2" ++ [13]; [10] ++ chars "ab" ++ [13; 10] ++ chars "1"; [13; 10] ++ chars "c" ++ [13; 10];
     chars "0" ++ [13; 10; 13; 10]] = Some (chars "abc", 0).
Proof.
  apply (chunked_roundtrip [chars "ab"; chars "c"]).
  - repeat constructor; (discriminate || reflexivity).
  - reflexivity.
Defined.
