(* ===== verification/WebCodec.v ===== *)
(** * WebSocket frames

    Source: src/src/vitex/network/http.cpp ([web_codec::parse_frame], [web_codec::get_frame], the frame
    [web_socket_frame::send] writes) and src/src/vitex/network/http.h ([web_codec], [web_socket_op]).
    The codec is a byte-driven state machine that survives between reads; [web_step] is one round of its
    loop, every case of the switch included.  The members the constructor leaves uninitialised may hold
    anything.  [rfc_frame] is the frame of RFC 6455, the reference the codec is measured against. *)

From S2P Require Import Prelude Codec.

Inductive web_socket_op := op_next | op_text | op_binary | op_close | op_ping | op_pong.

#[export] Instance web_socket_op_eq_dec : EqDecision web_socket_op.
Proof. solve_decision. Defined.

Definition op_code (op : web_socket_op) : Z :=
  match op with
  | op_next => 0 | op_text => 1 | op_binary => 2 | op_close => 8 | op_ping => 9 | op_pong => 10
  end.

Inductive bytecode :=
  | code_begin | code_length
  | code_length160 | code_length161
  | code_length640 | code_length641 | code_length642 | code_length643
  | code_length644 | code_length645 | code_length646 | code_length647
  | code_mask0 | code_mask1 | code_mask2 | code_mask3
  | code_end.

#[export] Instance bytecode_eq_dec : EqDecision bytecode.
Proof. solve_decision. Defined.

(** [payload] only buffers the bytes of one call and is left out. *)
Record web_codec := mk_codec {
  queue : list (web_socket_op * list Z);
  remains : Z;
  opcode : web_socket_op;
  state : bytecode;
  mask : list Z;
  fragment : Z;
  final : Z;
  control : Z;
  masked : Z;
  masks : Z }.

(** Field updates. *)
Definition set_queue (c : web_codec) q := mk_codec q (remains c) (opcode c) (state c) (mask c) (fragment c) (final c) (control c) (masked c) (masks c).
Definition set_remains (c : web_codec) r := mk_codec (queue c) r (opcode c) (state c) (mask c) (fragment c) (final c) (control c) (masked c) (masks c).
Definition set_opcode (c : web_codec) o := mk_codec (queue c) (remains c) o (state c) (mask c) (fragment c) (final c) (control c) (masked c) (masks c).
Definition set_state (c : web_codec) s := mk_codec (queue c) (remains c) (opcode c) s (mask c) (fragment c) (final c) (control c) (masked c) (masks c).
Definition set_mask (c : web_codec) m := mk_codec (queue c) (remains c) (opcode c) (state c) m (fragment c) (final c) (control c) (masked c) (masks c).
Definition set_fragment (c : web_codec) f := mk_codec (queue c) (remains c) (opcode c) (state c) (mask c) f (final c) (control c) (masked c) (masks c).
Definition set_final (c : web_codec) f := mk_codec (queue c) (remains c) (opcode c) (state c) (mask c) (fragment c) f (control c) (masked c) (masks c).
Definition set_control (c : web_codec) k := mk_codec (queue c) (remains c) (opcode c) (state c) (mask c) (fragment c) (final c) k (masked c) (masks c).
Definition set_masked (c : web_codec) m := mk_codec (queue c) (remains c) (opcode c) (state c) (mask c) (fragment c) (final c) (control c) m (masks c).
Definition set_masks (c : web_codec) m := mk_codec (queue c) (remains c) (opcode c) (state c) (mask c) (fragment c) (final c) (control c) (masked c) m.

(** How a round of the loop ends: another round over the data left, [goto fetch_payload], or
    [return !queue.empty()]. *)
Inductive web_outcome :=
  | web_continue (c : web_codec) (data : list Z)
  | web_fetch (c : web_codec) (data : list Z)
  | web_return (c : web_codec).

Definition has_bits (x m : Z) : bool := z2b (Z.land x m).

(** Flags of the first byte. *)
Definition begin_frame (c : web_codec) (index : Z) (rest : list Z) : web_outcome :=
  let op := Z.land index 15 in
  if has_bits index 112 then web_return c
  else
    let c := set_final c (if has_bits index 128 then 1 else 0) in
    if op =? 0 then
      if negb (z2b (fragment c)) then web_return c
      else web_continue (set_state (set_control c 0) code_length) rest
    else if has_bits op 8 then
      if negb (op =? 9) && negb (op =? 10) && negb (op =? 8) then web_return c
      else if negb (z2b (final c)) then web_return c
      else
        let o := if op =? 9 then op_ping else if op =? 10 then op_pong else op_close in
        web_continue (set_state (set_opcode (set_control c 1) o) code_length) rest
    else if negb (op =? 1) && negb (op =? 2) then web_return c
    else
      let o := if op =? 1 then op_text else op_binary in
      web_continue
        (set_state (set_opcode (set_fragment (set_control c 0) (if z2b (final c) then 0 else 1)) o) code_length)
        rest.

Definition after_length (c : web_codec) : bytecode := if z2b (masked c) then code_mask0 else code_end.

Definition push_message (c : web_codec) (m : web_socket_op * list Z) : web_codec :=
  set_queue c (queue c ++ [m]).

Definition frame_length (c : web_codec) (index : Z) (rest : list Z) : web_outcome :=
  let length := Z.land index 127 in
  let c := set_masks (set_masked c (if has_bits index 128 then 1 else 0)) 0 in
  let proceed c :=
    if bool_decide (state c = code_end) && (remains c =? 0)
    then web_fetch (push_message c (opcode c, [])) rest
    else web_continue c rest in
  if z2b (control c) then
    if 125 <? length then web_return c
    else proceed (set_state (set_remains c length) (after_length c))
  else if length <? 126 then proceed (set_state (set_remains c length) (after_length c))
  else if length =? 126 then proceed (set_state c code_length160)
  else proceed (set_state c code_length640).

(** The byte number [shift / 8] of the extended length. *)
Definition more_length (c : web_codec) (index shift : Z) : web_codec :=
  set_remains c (u64 (Z.lor (remains c) (Z.shiftl index shift))).

(** [data[i] ^= mask[masks++ % 4]], [masks] being a [uint8_t]. *)
Fixpoint unmask (mask : list Z) (data : list Z) (masks : Z) : list Z * Z :=
  match data with
  | [] => ([], masks)
  | b :: data =>
      let b := Z.lxor b (nth (Z.to_nat (masks mod 4)) mask 0) in
      let '(data, masks) := unmask mask data (u8 (masks + 1)) in
      (b :: data, masks)
  end.

(** [queue.front().second.insert(end, message)]. *)
Definition extend_front (q : list (web_socket_op * list Z)) (message : list Z) :=
  match q with
  | [] => []
  | (op, top) :: q => (op, top ++ message) :: q
  end.

Definition read_payload (c : web_codec) (data : list Z) : web_outcome :=
  let length := Z.to_nat (Z.min (Z.of_nat (length data)) (remains c)) in
  let head := firstn length data in
  let data := skipn length data in
  let '(message, c) :=
    if z2b (masked c) then
      let '(message, n) := unmask (mask c) head (masks c) in (message, set_masks c n)
    else (head, c) in
  let c :=
    if bool_decide (opcode c = op_next) && negb (bool_decide (queue c = []))
    then set_queue c (extend_front (queue c) message)
    else push_message c (if bool_decide (opcode c = op_next) then op_text else opcode c, message) in
  let c := set_remains (set_opcode c op_next) (remains c - Z.of_nat length) in
  if remains c =? 0 then web_fetch c data else web_continue c data.

(** The switch; [index] is the first byte of the data. *)
Definition web_step (c : web_codec) (index : Z) (rest : list Z) : web_outcome :=
  match state c with
  | code_begin => begin_frame c index rest
  | code_length => frame_length c index rest
  | code_length160 => web_continue (set_state (set_remains c (Z.shiftl index 8)) code_length161) rest
  | code_length161 =>
      let c := set_remains c (u64 (Z.lor (remains c) index)) in
      let c := set_state c (after_length c) in
      if remains c <? 126 then web_return c else web_continue c rest
  | code_length640 => web_continue (set_state (set_remains c (u64 (Z.shiftl index 56))) code_length641) rest
  | code_length641 => web_continue (set_state (more_length c index 48) code_length642) rest
  | code_length642 => web_continue (set_state (more_length c index 40) code_length643) rest
  | code_length643 => web_continue (set_state (more_length c index 32) code_length644) rest
  | code_length644 => web_continue (set_state (more_length c index 24) code_length645) rest
  | code_length645 => web_continue (set_state (more_length c index 16) code_length646) rest
  | code_length646 => web_continue (set_state (more_length c index 8) code_length647) rest
  | code_length647 =>
      let c := more_length c index 0 in
      let c := set_state c (after_length c) in
      if remains c <? 65536 then web_return c else web_continue c rest
  | code_mask0 => web_continue (set_state (set_mask c (<[0%nat := index]> (mask c))) code_mask1) rest
  | code_mask1 => web_continue (set_state (set_mask c (<[1%nat := index]> (mask c))) code_mask2) rest
  | code_mask2 => web_continue (set_state (set_mask c (<[2%nat := index]> (mask c))) code_mask3) rest
  | code_mask3 =>
      let c := set_state (set_mask c (<[3%nat := index]> (mask c))) code_end in
      if remains c =? 0 then web_fetch (push_message c (opcode c, [])) rest else web_continue c rest
  | code_end => read_payload c (index :: rest)
  end.

Definition has_messages (c : web_codec) : bool := negb (bool_decide (queue c = [])).

(** The loop with its two labels.  A round reads a byte, or leaves the [end] state. *)
Fixpoint web_loop (fuel : nat) (c : web_codec) (data : list Z) : option (web_codec * bool) :=
  match fuel with
  | O => None
  | S fuel =>
      match data with
      | [] => Some (c, has_messages c)
      | index :: rest =>
          match web_step c index rest with
          | web_continue c data => web_loop fuel c data
          | web_return c => Some (c, has_messages c)
          | web_fetch c data =>
              if negb (z2b (control c)) && negb (z2b (final c)) then Some (c, has_messages c)
              else
                let c := set_state c code_begin in
                match data with
                | [] => Some (c, true)
                | _ => web_loop fuel c data
                end
          end
      end
  end.

Definition parse_frame (c : web_codec) (buffer : list Z) : option (web_codec * bool) :=
  match buffer with
  | [] => Some (c, has_messages c)
  | _ => web_loop (2 * S (length buffer)) c buffer
  end.

(** [get_frame]: the codec, and the operation and message it hands out. *)
Definition get_frame (c : web_codec) : web_codec * option (web_socket_op * list Z) :=
  match queue c with
  | [] => (c, None)
  | base :: q => (set_queue c q, Some base)
  end.

(** ** Sending *)

Definition be_bytes (n : nat) (x : Z) : list Z := rev (le_digits n 256 x).

(** The bytes [web_socket_frame::send] hands to the stream: [mask] is copied in the byte order of the
    (little-endian) machine, and the payload is written as it is. *)
Definition send_header (mask size : Z) (op : web_socket_op) : list Z :=
  let first := 128 + Z.land (op_code op) 15 in
  let flag := if z2b mask then 128 else 0 in
  (if size <? 126 then [first; Z.lor (u8 size) flag]
   else if size <=? 65535 then [first; Z.lor 126 flag] ++ be_bytes 2 (wrapU 16 size)
   else [first; Z.lor 127 flag] ++ be_bytes 4 (u32 (Z.shiftr size 32)) ++ be_bytes 4 (Z.land size 4294967295)) ++
  (if z2b mask then le_digits 4 256 mask else []).
Definition send_frame (mask : Z) (buffer : list Z) (op : web_socket_op) : list Z :=
  send_header mask (Z.of_nat (length buffer)) op ++ buffer.

(** ** The reference frame *)

(** Masking of RFC 6455, 5.3: byte [i] of the payload with byte [i mod 4] of the key. *)
Fixpoint rfc_mask (key : list Z) (i : Z) (payload : list Z) : list Z :=
  match payload with
  | [] => []
  | b :: payload => Z.lxor b (nth (Z.to_nat (i mod 4)) key 0) :: rfc_mask key (i + 1) payload
  end.

(** RFC 6455, 5.2: flags and operation, mask bit and length, extended length, masking key. *)
Definition rfc_extended (n : Z) : list Z :=
  if n <? 126 then [] else if n <? 65536 then be_bytes 2 n else be_bytes 8 n.
Definition rfc_length7 (n : Z) : Z := if n <? 126 then n else if n <? 65536 then 126 else 127.
Definition rfc_header (fin : bool) (op : web_socket_op) (key : option (list Z)) (n : Z) : list Z :=
  [(if fin then 128 else 0) + op_code op;
   (match key with Some _ => 128 | None => 0 end) + rfc_length7 n] ++
  rfc_extended n ++ (match key with Some key => key | None => [] end).
Definition rfc_frame (fin : bool) (op : web_socket_op) (key : option (list Z)) (payload : list Z) : list Z :=
  rfc_header fin op key (Z.of_nat (length payload)) ++
  (match key with Some key => rfc_mask key 0 payload | None => payload end).

Definition is_control (op : web_socket_op) : bool := 8 <=? op_code op.

(** A frame the protocol allows: an operation that starts a message, a final and short control frame,
    a key of four bytes. *)
Definition frame_ok (fin : bool) (op : web_socket_op) (key : option (list Z)) (n : Z) : Prop :=
  op <> op_next /\ 0 <= n < 2 ^ 63 /\ (is_control op = true -> fin = true /\ n <= 125) /\
  (match key with Some key => length key = 4%nat /\ bytes key | None => True end).

(** ** Facts: the loop *)

Definition codec_ok (c : web_codec) : Prop :=
  length (mask c) = 4%nat /\ 0 <= remains c < 2 ^ 64 /\ 0 <= masks c < 256.

Definition round_measure (c : web_codec) (data : list Z) : nat :=
  (2 * length data + if bool_decide (state c = code_end) then 1 else 0)%nat.

(** A run of the loop with enough fuel. *)
Definition run (c : web_codec) (data : list Z) : option (web_codec * bool) :=
  web_loop (2 * S (length data)) c data.

Lemma parse_frame_run c buffer : parse_frame c buffer = run c buffer.
Proof. now destruct buffer. Qed.

Definition outcome_ok (P : web_codec -> list Z -> Prop) (o : web_outcome) : Prop :=
  match o with
  | web_continue c data | web_fetch c data => codec_ok c /\ P c data
  | web_return c => codec_ok c
  end.

(** Every state but [end] reads one byte. *)
Lemma web_step_reads c index rest :
  codec_ok c -> 0 <= index < 256 -> state c <> code_end ->
  outcome_ok (fun _ data => data = rest) (web_step c index rest).
Proof.
  intros (Hm & Hr & Hk) Hi Hs. unfold web_step.
  assert (L : 0 <= Z.land index 127 < 2 ^ 64).
  { change 127 with (Z.ones 7). rewrite Z.land_ones by lia. lia. }
  assert (U : forall x, 0 <= u64 x < 2 ^ 64) by (intros x; apply Z.mod_pos_bound; lia).
  assert (S8 : 0 <= Z.shiftl index 8 < 2 ^ 64) by (rewrite Z.shiftl_mul_pow2 by lia; lia).
  destruct (state c); try contradiction; unfold begin_frame, frame_length, more_length;
    repeat case_match;
    unfold outcome_ok, codec_ok, push_message;
    cbn [mask remains masks set_queue set_remains set_opcode set_state set_mask set_fragment set_final
         set_control set_masked set_masks];
    rewrite ?length_insert; repeat split; (assumption || reflexivity || lia || apply U || apply L).
Qed.

(** The [end] state reads as much of the payload as there is. *)
Lemma unmask_spec key payload : forall m,
  0 <= m < 256 -> unmask key payload m = (rfc_mask key m payload, u8 (m + Z.of_nat (length payload))).
Proof.
  assert (G : forall p i j, i mod 4 = j mod 4 -> rfc_mask key i p = rfc_mask key j p).
  { induction p as [|b p IH]; intros i j E; [reflexivity|]. cbn [rfc_mask]. rewrite E. f_equal.
    apply IH. lia. }
  induction payload as [|b p IH]; intros m Hm; cbn [unmask rfc_mask length].
  - rewrite Z.add_0_r, wrapU_id by (unfold fits; lia). reflexivity.
  - rewrite IH by (apply Z.mod_pos_bound; lia). f_equal.
    + f_equal. apply G. unfold wrapU. lia.
    + unfold wrapU. rewrite Z.add_mod_idemp_l by lia. f_equal. lia.
Qed.

Lemma read_payload_reads c data :
  codec_ok c -> data <> [] ->
  outcome_ok (fun c' rest => (length rest < length data)%nat \/ remains c = 0 /\ remains c' = 0)
    (read_payload c data) /\
  (remains c = 0 -> exists c', read_payload c data = web_fetch c' data).
Proof.
  intros (Hm & Hr & Hk) Hne. unfold read_payload.
  assert (P : (0 < length data)%nat) by (destruct data; [contradiction|cbn; lia]).
  set (n := Z.to_nat (Z.min (Z.of_nat (length data)) (remains c))).
  assert (Hn : Z.of_nat n <= remains c) by lia.
  assert (M : exists m k, (if z2b (masked c) then
      let '(message, k) := unmask (mask c) (firstn n data) (masks c) in (message, set_masks c k)
    else (firstn n data, c)) = (m, set_masks c k) /\ 0 <= k < 256).
  { destruct (z2b (masked c)).
    - rewrite unmask_spec by assumption. do 2 eexists. split; [reflexivity|]. apply Z.mod_pos_bound. lia.
    - exists (firstn n data), (masks c). split; [now destruct c|assumption]. }
  destruct M as (m & k & -> & Hk'). cbn beta iota zeta.
  set (c2 := if bool_decide (_) && _ then _ else _).
  assert (F : mask c2 = mask c /\ remains c2 = remains c /\ masks c2 = k).
  { unfold c2. destruct (bool_decide _ && _); repeat split. }
  destruct F as (Fm & Fr & Fk).
  assert (O : codec_ok (set_remains (set_opcode c2 op_next) (remains c2 - Z.of_nat n))).
  { unfold codec_ok. cbn [mask remains masks set_remains set_opcode]. rewrite Fm, Fr, Fk.
    split; [assumption|]. split; [lia|assumption]. }
  cbn [remains set_remains set_opcode]. rewrite Fr. split.
  - destruct (Z.eqb_spec (remains c - Z.of_nat n) 0); cbn [outcome_ok]; (split; [rewrite <- Fr; exact O|]);
      rewrite length_skipn; cbn [remains set_remains set_opcode]; lia.
  - intros E. assert (n = 0)%nat as -> by lia. rewrite skipn_O, E. cbn. eexists. reflexivity.
Qed.

(** A round reads a byte, or it is the read of an empty payload. *)
Lemma web_step_ok c index rest :
  codec_ok c -> 0 <= index < 256 ->
  match web_step c index rest with
  | web_continue c' data =>
      codec_ok c' /\ (round_measure c' data < round_measure c (index :: rest))%nat
  | web_fetch c' data =>
      codec_ok c' /\ (round_measure (set_state c' code_begin) data < round_measure c (index :: rest))%nat
  | web_return c' => codec_ok c'
  end.
Proof.
  intros Hc Hi. unfold round_measure. cbn [length].
  destruct (decide (state c = code_end)) as [E|E].
  - rewrite (bool_decide_eq_true_2 (state c = code_end)) by assumption.
    replace (web_step c index rest) with (read_payload c (index :: rest)) by (unfold web_step; now rewrite E).
    destruct (read_payload_reads c (index :: rest) Hc ltac:(discriminate)) as [O F].
    destruct (read_payload c (index :: rest)) as [c' d|c' d|c']; cbn [outcome_ok length] in O.
    + destruct O as [Ok [L|[R _]]]; (split; [exact Ok|]).
      * destruct (bool_decide (state c' = code_end)); lia.
      * destruct (F R) as [? ?]; discriminate.
    + destruct O as [Ok [L|[R _]]]; (split; [exact Ok|]).
      * cbn [state set_state]. rewrite bool_decide_eq_false_2 by discriminate. lia.
      * destruct (F R) as [c2 [= -> ->]]. cbn [state set_state length].
        rewrite bool_decide_eq_false_2 by discriminate. lia.
    + exact O.
  - pose proof (web_step_reads c index rest Hc Hi E) as O.
    destruct (web_step c index rest) as [c' d|c' d|c']; cbn [outcome_ok] in O; [| |exact O];
      destruct O as [Ok ->]; (split; [exact Ok|]);
      destruct (bool_decide (state _ = code_end)), (bool_decide (state c = code_end)); lia.
Qed.

(** A round leaves a suffix of the data. *)
Definition leaves (P : list Z -> Prop) (o : web_outcome) : Prop :=
  match o with web_continue _ d | web_fetch _ d => P d | web_return _ => True end.

Lemma web_step_suffix c index rest :
  leaves (fun d => exists k, d = skipn k (index :: rest)) (web_step c index rest).
Proof.
  assert (K : exists k, rest = skipn k (index :: rest)) by (now exists 1%nat).
  unfold web_step. destruct (state c); unfold begin_frame, frame_length;
    try (repeat case_match; first [exact I | exact K]).
  unfold read_payload. cbn zeta. repeat case_match; eexists; reflexivity.
Qed.

(** Fuel: any two amounts above the measure agree, and both give a result. *)
Lemma web_loop_total f1 : forall f2 c data,
  codec_ok c -> bytes data -> (round_measure c data < f1)%nat -> (round_measure c data < f2)%nat ->
  exists c' b, web_loop f1 c data = Some (c', b) /\ web_loop f2 c data = Some (c', b) /\ codec_ok c'.
Proof.
  induction f1 as [|f1 IH]; intros [|f2] c data Hc Hd H1 H2; [lia..|].
  cbn [web_loop]. destruct data as [|index rest]; [eauto|].
  pose proof (proj1 (digits_cons _ _ _) Hd) as [Hi Hr].
  pose proof (web_step_ok c index rest Hc Hi) as O.
  pose proof (web_step_suffix c index rest) as B. unfold leaves in B.
  destruct (web_step c index rest) as [c' d|c' d|c']; [..|eauto].
  - destruct O as [Ok M]. apply IH; [exact Ok| |lia|lia]. destruct B as [k ->]. now apply digits_skipn.
  - destruct O as [Ok M]. destruct (negb _ && negb _); [eauto|].
    destruct d as [|b d]; [do 2 eexists; repeat split; apply Ok|].
    apply IH; [exact Ok| |lia|lia]. destruct B as [k ->]. now apply digits_skipn.
Qed.

Lemma run_nil c : run c [] = Some (c, has_messages c).
Proof. reflexivity. Qed.

Lemma round_measure_bound c data : (round_measure c data < 2 * S (length data))%nat.
Proof. unfold round_measure. destruct (bool_decide _); lia. Qed.

(** The loop without fuel. *)
Lemma run_cons c index rest :
  codec_ok c -> bytes (index :: rest) ->
  run c (index :: rest) =
  match web_step c index rest with
  | web_continue c data => run c data
  | web_return c => Some (c, has_messages c)
  | web_fetch c data =>
      if negb (z2b (control c)) && negb (z2b (final c)) then Some (c, has_messages c)
      else match data with [] => Some (set_state c code_begin, true) | _ => run (set_state c code_begin) data end
  end.
Proof.
  intros Hc Hd. unfold run at 1. pose proof (round_measure_bound c (index :: rest)) as Mb.
  destruct (2 * S (length (index :: rest)))%nat as [|f] eqn:Ef; [lia|]. cbn [web_loop].
  pose proof (proj1 (digits_cons _ _ _) Hd) as [Hi Hr].
  pose proof (web_step_ok c index rest Hc Hi) as O. pose proof (web_step_suffix c index rest) as B. unfold leaves in B.
  destruct (web_step c index rest) as [c' d|c' d|c']; [| |reflexivity].
  - destruct O as [Ok M], B as [k ->].
    destruct (web_loop_total f (2 * S (length (skipn k (index :: rest)))) c' (skipn k (index :: rest)))
      as (c2 & b & E1 & E2 & _); try assumption.
    + now apply digits_skipn.
    + lia.
    + apply round_measure_bound.
    + unfold run. now rewrite E1, E2.
  - destruct O as [Ok M], B as [k ->]. destruct (negb _ && negb _); [reflexivity|].
    destruct (skipn k (index :: rest)) as [|b d] eqn:Es; [reflexivity|]. rewrite <- Es in *.
    destruct (web_loop_total f (2 * S (length (skipn k (index :: rest)))) (set_state c' code_begin)
      (skipn k (index :: rest))) as (c2 & b' & E1 & E2 & _); try assumption.
    + now apply digits_skipn.
    + lia.
    + apply round_measure_bound.
    + unfold run. now rewrite E1, E2.
Qed.

Lemma run_total c data : codec_ok c -> bytes data -> exists c' b, run c data = Some (c', b) /\ codec_ok c'.
Proof.
  intros Hc Hd. destruct (web_loop_total (2 * S (length data)) (2 * S (length data)) c data Hc Hd)
    as (c' & b & E & _ & Hc'); [apply round_measure_bound..|]. exists c', b. now split.
Qed.
