(* ===== verification/WebFrames.v ===== *)
(** * WebSocket frames: what the codec promises

    The lemmas that follow the codec of WebCodec.v through the header and the payload of a frame, in one
    read and in pieces, and the properties of [parse_frame], [get_frame] and [send]. *)

From S2P Require Import Prelude Codec WebCodec.

(** ** Facts: the header *)

(** A byte that moves the codec from one state to the next whatever follows it. *)
Definition hop (c : web_codec) (b : Z) (c' : web_codec) : Prop :=
  state c <> code_end /\ forall rest, web_step c b rest = web_continue c' rest.

Inductive hops : web_codec -> list Z -> web_codec -> Prop :=
  | hops_nil c : hops c [] c
  | hops_cons c b c1 bs c2 : hop c b c1 -> hops c1 bs c2 -> hops c (b :: bs) c2.

Lemma hops_app c1 xs c2 ys c3 : hops c1 xs c2 -> hops c2 ys c3 -> hops c1 (xs ++ ys) c3.
Proof. induction 1; [auto|]. intros H'. econstructor; eauto. Qed.

Lemma hops_one c b c' : hop c b c' -> hops c [b] c'.
Proof. intros H. econstructor; [exact H|constructor]. Qed.

Lemma hop_ok c b c' : codec_ok c -> 0 <= b < 256 -> hop c b c' -> codec_ok c'.
Proof.
  intros Hc Hb [Hs H]. pose proof (web_step_reads c b [] Hc Hb Hs) as O. rewrite H in O. apply O.
Qed.

Lemma hops_ok c bs c' : hops c bs c' -> codec_ok c -> bytes bs -> codec_ok c'.
Proof.
  induction 1 as [|c b c1 bs c2 H _ IH]; [auto|]. intros Hc Hd. apply digits_cons in Hd as [Hb Hd].
  apply IH; [|exact Hd]. eapply hop_ok; eassumption.
Qed.

Lemma run_hops c bs c' rest :
  hops c bs c' -> codec_ok c -> bytes (bs ++ rest) -> run c (bs ++ rest) = run c' rest.
Proof.
  induction 1 as [|c b c1 bs c2 H _ IH]; [reflexivity|]. intros Hc Hd. cbn [app] in *.
  rewrite run_cons by assumption. destruct H as [Hs H]. rewrite H.
  apply digits_cons in Hd as [Hb Hd]. apply IH; [|exact Hd]. eapply hop_ok; [exact Hc|exact Hb|now split].
Qed.

(** The codec after the first byte, after the length byte, and after the header. *)
Definition begun (c : web_codec) (fin : bool) (op : web_socket_op) : web_codec :=
  set_state (set_opcode (set_fragment (set_control (set_final c (b2z fin)) (b2z (is_control op)))
    (if is_control op then fragment c else b2z (negb fin))) op) code_length.
Definition sized (c : web_codec) (m : bool) (r : Z) (s : bytecode) : web_codec :=
  set_state (set_remains (set_masks (set_masked c (b2z m)) 0) r) s.

Lemma begin_hop c fin op :
  state c = code_begin -> op <> op_next -> (is_control op = true -> fin = true) ->
  hop c ((if fin then 128 else 0) + op_code op) (begun c fin op).
Proof.
  intros Hs Hop Hf. split; [now rewrite Hs|]. intros rest. unfold web_step. rewrite Hs.
  destruct op; try contradiction; destruct fin; try (specialize (Hf eq_refl); discriminate);
    destruct c; reflexivity.
Qed.

Lemma length_byte (m : bool) l :
  0 <= l < 128 -> Z.land ((if m then 128 else 0) + l) 127 = l /\ has_bits ((if m then 128 else 0) + l) 128 = m.
Proof.
  intros Hl. assert (H : (Z.land ((if m then 128 else 0) + l) 127 =? l) &&
    Bool.eqb (has_bits ((if m then 128 else 0) + l) 128) m = true) by (destruct m; by_range l 128).
  apply andb_true_iff in H as [H1 H2]. split; [now apply Z.eqb_eq | now apply Bool.eqb_prop].
Qed.

Lemma after_length_masked c (m : bool) : masked c = b2z m -> after_length c = if m then code_mask0 else code_end.
Proof. unfold after_length. intros ->. now destruct m. Qed.

(** The upper bytes of a length. *)
Definition upper (n j : Z) : Z := n / 2 ^ (8 * j) * 2 ^ (8 * j).

Lemma upper_byte n j :
  0 <= j -> 0 <= n < 2 ^ 63 ->
  u64 (Z.lor (upper n (j + 1)) (Z.shiftl (n / 2 ^ (8 * j) mod 256) (8 * j))) = upper n j.
Proof.
  intros Hj Hn. unfold upper. assert (P : 0 < 2 ^ (8 * j)) by (apply Z.pow_pos_nonneg; lia).
  assert (Q : 2 ^ (8 * (j + 1)) = 2 ^ (8 * j) * 256)
    by (replace (8 * (j + 1)) with (8 * j + 8) by lia; rewrite Z.pow_add_r by lia; reflexivity).
  rewrite lor_shift.
  - rewrite Q, <- Z.div_div by lia. set (m := n / 2 ^ (8 * j)).
    replace (m / 256 * (2 ^ (8 * j) * 256) + m mod 256 * 2 ^ (8 * j))
      with ((256 * (m / 256) + m mod 256) * 2 ^ (8 * j)) by ring.
    rewrite <- Z.div_mod by lia. apply wrapU_id. unfold fits, m.
    pose proof (Z.mul_div_le n (2 ^ (8 * j)) P). split; [|lia].
    apply Z.mul_nonneg_nonneg; [apply Z.div_pos; lia|lia].
  - lia.
  - apply Z.mod_pos_bound. lia.
  - replace (8 * j + 8) with (8 * (j + 1)) by lia. apply Z.mod_mul.
    apply Z.pow_nonzero; lia.
Qed.

Lemma more_length_upper c n j :
  remains c = upper n (j + 1) -> 0 <= j -> 0 <= n < 2 ^ 63 ->
  more_length c (n / 2 ^ (8 * j) mod 256) (8 * j) = set_remains c (upper n j).
Proof. intros E Hj Hn. unfold more_length. now rewrite E, upper_byte. Qed.

Lemma upper_top n j : 0 <= n < 2 ^ (8 * (j + 1)) -> 0 <= j -> upper n (j + 1) = 0.
Proof. intros Hn Hj. unfold upper. now rewrite Z.div_small. Qed.

Lemma upper_0 n : upper n 0 = n.
Proof. unfold upper. change (2 ^ (8 * 0)) with 1. now rewrite Z.div_1_r, Z.mul_1_r. Qed.

Lemma be_bytes_digits k n : length (be_bytes k n) = k /\ bytes (be_bytes k n).
Proof.
  unfold be_bytes. rewrite length_rev, length_le_digits. split; [reflexivity|].
  apply digits_rev, digits_le_digits. lia.
Qed.

Lemma be_bytes_2 n : be_bytes 2 n = [n / 2 ^ 8 mod 256; n mod 256].
Proof. unfold be_bytes. cbn [le_digits rev app]. reflexivity. Qed.

Lemma be_bytes_unroll n : be_bytes 8 n =
  [n / 2 ^ 56 mod 256; n / 2 ^ 48 mod 256; n / 2 ^ 40 mod 256; n / 2 ^ 32 mod 256;
   n / 2 ^ 24 mod 256; n / 2 ^ 16 mod 256; n / 2 ^ 8 mod 256; n mod 256].
Proof.
  unfold be_bytes. cbn [le_digits rev app]. rewrite !Z.div_div by lia. reflexivity.
Qed.

(** One hop through a state that only stores a byte. *)
Ltac take_hop := split; [discriminate|]; intros ?; unfold web_step; cbn [state set_state sized]; reflexivity.

Lemma extended_hops_2 c (m : bool) n :
  126 <= n < 65536 ->
  hops (sized c m (remains c) code_length160) (be_bytes 2 n)
       (sized c m n (if m then code_mask0 else code_end)).
Proof.
  intros Hn. rewrite be_bytes_2.
  assert (E : Z.lor (Z.shiftl (n / 2 ^ 8 mod 256) 8) (n mod 256) = n).
  { rewrite Z.shiftl_mul_pow2 by lia. rewrite lor_halves by (unfold fits; lia). lia. }
  apply hops_cons with (sized c m (Z.shiftl (n / 2 ^ 8 mod 256) 8) code_length161); [take_hop|].
  apply hops_one. split; [discriminate|]. intros rest. unfold web_step. cbn [state set_state sized].
  cbn [remains set_remains set_state set_masks set_masked sized]. rewrite E, wrapU_id by (unfold fits; lia).
  destruct (Z.ltb_spec n 126); [lia|]. rewrite (after_length_masked _ m) by reflexivity. reflexivity.
Qed.

Lemma hop_more c n j s s' :
  0 <= j -> 0 <= n < 2 ^ 63 -> remains c = upper n (j + 1) -> state c = s -> s <> code_end ->
  (forall b rest, web_step c b rest = web_continue (set_state (more_length c b (8 * j)) s') rest) ->
  hop c (n / 2 ^ (8 * j) mod 256) (set_state (set_remains c (upper n j)) s').
Proof.
  intros Hj Hn Hr Hs Hne H. split; [now rewrite Hs|]. intros rest. rewrite H.
  now rewrite more_length_upper.
Qed.

Lemma extended_hops_8 c (m : bool) n :
  65536 <= n < 2 ^ 63 ->
  hops (sized c m (remains c) code_length640) (be_bytes 8 n)
       (sized c m n (if m then code_mask0 else code_end)).
Proof.
  intros Hn. rewrite be_bytes_unroll.
  apply hops_cons with (sized c m (upper n 7) code_length641).
  { split; [discriminate|]. intros rest. unfold web_step. cbn [state set_state sized].
    pose proof (upper_byte n 7 ltac:(lia) ltac:(lia)) as E. rewrite upper_top in E by lia.
    rewrite Z.lor_0_l in E. change (8 * 7) with 56 in E. now rewrite E. }
  apply hops_cons with (sized c m (upper n 6) code_length642);
    [apply (hop_more (sized c m (upper n 7) code_length641) n 6 code_length641); (lia || reflexivity || discriminate)|].
  apply hops_cons with (sized c m (upper n 5) code_length643);
    [apply (hop_more (sized c m (upper n 6) code_length642) n 5 code_length642); (lia || reflexivity || discriminate)|].
  apply hops_cons with (sized c m (upper n 4) code_length644);
    [apply (hop_more (sized c m (upper n 5) code_length643) n 4 code_length643); (lia || reflexivity || discriminate)|].
  apply hops_cons with (sized c m (upper n 3) code_length645);
    [apply (hop_more (sized c m (upper n 4) code_length644) n 3 code_length644); (lia || reflexivity || discriminate)|].
  apply hops_cons with (sized c m (upper n 2) code_length646);
    [apply (hop_more (sized c m (upper n 3) code_length645) n 2 code_length645); (lia || reflexivity || discriminate)|].
  apply hops_cons with (sized c m (upper n 1) code_length647);
    [apply (hop_more (sized c m (upper n 2) code_length646) n 1 code_length646); (lia || reflexivity || discriminate)|].
  apply hops_one. split; [discriminate|]. intros rest. unfold web_step. cbn [state set_state sized].
  pose proof (more_length_upper (sized c m (upper n 1) code_length647) n 0 eq_refl ltac:(lia) ltac:(lia)) as E.
  change (8 * 0) with 0 in E. rewrite Z.pow_0_r, Z.div_1_r, upper_0 in E. rewrite E.
  cbn [remains set_remains set_state set_masks set_masked sized]. destruct (Z.ltb_spec n 65536); [lia|].
  rewrite (after_length_masked _ m) by reflexivity. reflexivity.
Qed.

Definition is_masked (key : option (list Z)) : bool := match key with Some _ => true | None => false end.
Definition headed (c : web_codec) (fin : bool) (op : web_socket_op) (key : option (list Z)) (n : Z) : web_codec :=
  let c := sized (begun c fin op) (is_masked key) n code_end in
  match key with Some key => set_mask c key | None => c end.

(** The state after the length, before a key. *)
Definition after_size (m : bool) : bytecode := if m then code_mask0 else code_end.

Lemma control_flag c fin op : z2b (control (begun c fin op)) = is_control op.
Proof. cbn. now destruct (is_control op). Qed.

Lemma short_length_step c fin op (m : bool) n rest :
  0 <= n < 126 ->
  web_step (begun c fin op) ((if m then 128 else 0) + n) rest =
  if negb m && (n =? 0)
  then web_fetch (push_message (sized (begun c fin op) m n code_end) (op, [])) rest
  else web_continue (sized (begun c fin op) m n (after_size m)) rest.
Proof.
  intros Hn. unfold web_step. cbn [state begun set_state].
  destruct (length_byte m n ltac:(lia)) as [E1 E2].
  change (set_state (set_opcode _ _) code_length) with (begun c fin op).
  unfold frame_length. rewrite E1, E2.
  change (control (set_masks _ _)) with (control (begun c fin op)). rewrite control_flag.
  set (c1 := set_masks (set_masked (begun c fin op) (if m then 1 else 0)) 0).
  assert (A : after_length c1 = after_size m) by (unfold after_length, c1; cbn; now destruct m).
  rewrite A. destruct (Z.ltb_spec 125 n), (Z.ltb_spec n 126); try lia.
  assert (G : (if is_control op then
      if bool_decide (state (set_state (set_remains c1 n) (after_size m)) = code_end) &&
         (remains (set_state (set_remains c1 n) (after_size m)) =? 0)
      then web_fetch (push_message (set_state (set_remains c1 n) (after_size m))
             (opcode (set_state (set_remains c1 n) (after_size m)), [])) rest
      else web_continue (set_state (set_remains c1 n) (after_size m)) rest
    else
      if bool_decide (state (set_state (set_remains c1 n) (after_size m)) = code_end) &&
         (remains (set_state (set_remains c1 n) (after_size m)) =? 0)
      then web_fetch (push_message (set_state (set_remains c1 n) (after_size m))
             (opcode (set_state (set_remains c1 n) (after_size m)), [])) rest
      else web_continue (set_state (set_remains c1 n) (after_size m)) rest) =
    (if negb m && (n =? 0)
     then web_fetch (push_message (sized (begun c fin op) m n code_end) (op, [])) rest
     else web_continue (sized (begun c fin op) m n (after_size m)) rest)).
  { cbn [state remains opcode set_state set_remains]. destruct m; cbn [after_size negb andb].
    - rewrite bool_decide_eq_false_2 by discriminate. cbn [andb]. now destruct (is_control op).
    - rewrite bool_decide_eq_true_2 by reflexivity. cbn [andb].
      now destruct (is_control op), (n =? 0). }
  exact G.
Qed.

Lemma long_length_hop c fin op (m : bool) l :
  is_control op = false -> l = 126 \/ l = 127 ->
  hop (begun c fin op) ((if m then 128 else 0) + l)
    (sized (begun c fin op) m (remains c) (if l =? 126 then code_length160 else code_length640)).
Proof.
  intros Hc Hl. split; [discriminate|]. intros rest. unfold web_step. cbn [state begun set_state].
  destruct (length_byte m l ltac:(lia)) as [E1 E2].
  change (set_state (set_opcode _ _) code_length) with (begun c fin op).
  unfold frame_length. rewrite E1, E2.
  change (control (set_masks _ _)) with (control (begun c fin op)). rewrite control_flag, Hc.
  destruct Hl as [-> | ->]; reflexivity.
Qed.

(** Up to the key. *)
Lemma size_hops c fin op (m : bool) n :
  0 <= n < 2 ^ 63 -> (is_control op = true -> n <= 125) -> m = true \/ 0 < n ->
  hops (begun c fin op) (((if m then 128 else 0) + rfc_length7 n) :: rfc_extended n)
    (sized (begun c fin op) m n (after_size m)).
Proof.
  intros Hn Hc Hm. unfold rfc_length7, rfc_extended.
  destruct (Z.ltb_spec n 126); [|destruct (Z.ltb_spec n 65536)].
  - apply hops_one. split; [discriminate|]. intros rest. rewrite short_length_step by lia.
    destruct m; [reflexivity|]. destruct (Z.eqb_spec n 0); [|reflexivity].
    destruct Hm; [discriminate|lia].
  - apply hops_cons with (sized (begun c fin op) m (remains c) code_length160).
    + apply (long_length_hop c fin op m 126); [|now left]. destruct (is_control op); [lia|reflexivity].
    + apply (extended_hops_2 (begun c fin op) m n). lia.
  - apply hops_cons with (sized (begun c fin op) m (remains c) code_length640).
    + apply (long_length_hop c fin op m 127); [|now right]. destruct (is_control op); [lia|reflexivity].
    + apply (extended_hops_8 (begun c fin op) m n). lia.
Qed.

(** The key: the first three bytes, and the last one. *)
Lemma key_hops c k0 k1 k2 :
  state c = code_mask0 ->
  hops c [k0; k1; k2] (set_state (set_mask c (<[2%nat := k2]> (<[1%nat := k1]> (<[0%nat := k0]> (mask c))))) code_mask3).
Proof.
  intros Hs.
  apply hops_cons with (set_state (set_mask c (<[0%nat := k0]> (mask c))) code_mask1).
  { split; [now rewrite Hs|]. intros rest. unfold web_step. now rewrite Hs. }
  apply hops_cons with (set_state (set_mask c (<[1%nat := k1]> (<[0%nat := k0]> (mask c)))) code_mask2); [take_hop|].
  apply hops_one. take_hop.
Qed.

Lemma key_replaced (m : list Z) k0 k1 k2 k3 :
  length m = 4%nat -> <[3%nat := k3]> (<[2%nat := k2]> (<[1%nat := k1]> (<[0%nat := k0]> m))) = [k0; k1; k2; k3].
Proof. destruct m as [|? [|? [|? [|? [|]]]]]; try discriminate. reflexivity. Qed.

(** Header of a frame with a payload. *)
Lemma header_hops c fin op key n :
  codec_ok c -> state c = code_begin -> frame_ok fin op key n -> 0 < n ->
  hops c (rfc_header fin op key n) (headed c fin op key n).
Proof.
  intros (Hm & _) Hs (Hop & Hn & Hc & Hk) Hp. unfold rfc_header. cbn [app].
  apply hops_cons with (begun c fin op); [apply begin_hop; try assumption; intros; now apply Hc|].
  rewrite app_comm_cons. destruct key as [key|].
  - destruct Hk as [Hk _]. destruct key as [|k0 [|k1 [|k2 [|k3 [|]]]]]; try discriminate.
    apply hops_app with (sized (begun c fin op) true n code_mask0).
    { apply (size_hops c fin op true n); [lia|intros; now apply Hc|now left]. }
    change [k0; k1; k2; k3] with ([k0; k1; k2] ++ [k3]). eapply hops_app; [now apply key_hops|].
    apply hops_one. split; [discriminate|]. intros rest. unfold web_step. cbn [state set_state].
    cbn [remains set_remains set_state set_mask set_masks set_masked sized mask].
    destruct (Z.eqb_spec n 0); [lia|]. unfold headed. cbn [is_masked].
    rewrite key_replaced by exact Hm. reflexivity.
  - rewrite app_nil_r. apply (size_hops c fin op false n); [lia|intros; now apply Hc|now right].
Qed.

(** Header of an empty frame: its last byte completes the frame. *)
Lemma header_empty c fin op key :
  codec_ok c -> state c = code_begin -> frame_ok fin op key 0 ->
  exists hs b c1, rfc_header fin op key 0 = hs ++ [b] /\ hops c hs c1 /\ state c1 <> code_end /\
    forall rest, web_step c1 b rest = web_fetch (push_message (headed c fin op key 0) (op, [])) rest.
Proof.
  intros (Hm & _) Hs (Hop & Hn & Hc & Hk).
  assert (B : hop c ((if fin then 128 else 0) + op_code op) (begun c fin op))
    by (apply begin_hop; try assumption; intros; now apply Hc).
  unfold rfc_header. cbn [app]. destruct key as [key|].
  - destruct Hk as [Hk _]. destruct key as [|k0 [|k1 [|k2 [|k3 [|]]]]]; try discriminate.
    exists ([(if fin then 128 else 0) + op_code op; 128 + 0] ++ [k0; k1; k2]), k3.
    eexists. split; [reflexivity|]. split; [|split].
    + apply hops_app with (sized (begun c fin op) true 0 code_mask0).
      * apply hops_cons with (begun c fin op); [exact B|].
        apply (size_hops c fin op true 0); [lia|lia|now left].
      * now apply key_hops.
    + discriminate.
    + intros rest. unfold web_step. cbn [state set_state].
      cbn [remains set_remains set_state set_mask set_masks set_masked sized mask].
      unfold headed. cbn [is_masked]. rewrite key_replaced by exact Hm. reflexivity.
  - exists [(if fin then 128 else 0) + op_code op], (0 + 0), (begun c fin op).
    split; [reflexivity|]. split; [now apply hops_one|]. split; [discriminate|]. intros rest.
    now rewrite (short_length_step c fin op false 0) by lia.
Qed.

(** ** Facts: whole frames *)
Lemma rfc_mask_length key payload : forall i, length (rfc_mask key i payload) = length payload.
Proof. induction payload as [|b p IH]; intros i; [reflexivity|]. cbn. now rewrite IH. Qed.

Lemma rfc_mask_involutive key payload : forall i, rfc_mask key i (rfc_mask key i payload) = payload.
Proof.
  induction payload as [|b p IH]; intros i; [reflexivity|]. cbn [rfc_mask].
  rewrite IH, Z.lxor_assoc, Z.lxor_nilpotent, Z.lxor_0_r. reflexivity.
Qed.

Lemma nth_byte j key : bytes key -> 0 <= nth j key 0 < 256.
Proof.
  intros H. revert j. induction H as [|k ks Hk _ IH]; intros [|j]; cbn; try lia. apply IH.
Qed.

Lemma rfc_mask_bytes key payload : bytes key -> bytes payload -> forall i, bytes (rfc_mask key i payload).
Proof.
  intros Hk. induction 1 as [|b p Hb _ IH]; intros i; [constructor|]. cbn [rfc_mask].
  apply digits_cons. split; [|apply IH].
  pose proof (nth_byte (Z.to_nat (i mod 4)) key Hk) as N.
  apply (fits_lxor 8); unfold fits; lia.
Qed.

(** The payload on the wire. *)
Definition wire (key : option (list Z)) (payload : list Z) : list Z :=
  match key with Some key => rfc_mask key 0 payload | None => payload end.

Lemma wire_length key payload : length (wire key payload) = length payload.
Proof. destruct key; [apply rfc_mask_length | reflexivity]. Qed.

Lemma rfc_header_bytes fin op key n : frame_ok fin op key n -> bytes (rfc_header fin op key n).
Proof.
  intros (_ & Hn & _ & Hk). unfold rfc_header. cbn [app].
  apply digits_cons. split; [destruct fin, op; cbn; lia|].
  apply digits_cons. split.
  { unfold rfc_length7. destruct key; repeat case_cmp; lia. }
  apply digits_app. split.
  - unfold rfc_extended. destruct (n <? 126); [constructor|]. destruct (n <? 65536); apply be_bytes_digits.
  - destruct key; [apply Hk|constructor].
Qed.

Lemma frame_bytes fin op key payload :
  frame_ok fin op key (Z.of_nat (length payload)) -> bytes payload -> bytes (rfc_frame fin op key payload).
Proof.
  intros Hf Hp. apply digits_app. split; [now apply rfc_header_bytes|].
  destruct key as [key|]; [|exact Hp]. apply rfc_mask_bytes; [|exact Hp]. apply Hf.
Qed.

Lemma headed_ok c fin op key n : codec_ok c -> frame_ok fin op key n -> codec_ok (headed c fin op key n).
Proof.
  intros (Hm & Hr & Hk) (_ & Hn & _ & Kk). unfold codec_ok, headed.
  destruct key as [key|]; cbn [mask remains masks sized begun set_mask set_state set_remains set_masks
    set_masked set_opcode set_fragment set_control set_final]; lia.
Qed.

(** The codec when a frame is complete. *)
Definition received (c : web_codec) (fin : bool) (op : web_socket_op) (key : option (list Z))
    (payload : list Z) (c' : web_codec) : Prop :=
  codec_ok c' /\ queue c' = queue c ++ [(op, payload)] /\ remains c' = 0 /\
  control c' = b2z (is_control op) /\ final c' = b2z fin /\ state c' = code_end /\
  fragment c' = (if is_control op then fragment c else b2z (negb fin)) /\
  (payload <> [] -> opcode c' = op_next).

Lemma payload_step c fin op key payload rest :
  codec_ok c -> frame_ok fin op key (Z.of_nat (length payload)) -> payload <> [] ->
  exists c', read_payload (headed c fin op key (Z.of_nat (length payload))) (wire key payload ++ rest) =
    web_fetch c' rest /\ received c fin op key payload c'.
Proof.
  intros Hc Hf Hne. pose proof (headed_ok c fin op key _ Hc Hf) as Hh.
  assert (P : (0 < length payload)%nat) by (destruct payload; [contradiction|cbn; lia]).
  set (n := length payload) in *. set (h := headed c fin op key (Z.of_nat n)) in *.
  assert (Rh : remains h = Z.of_nat n) by (unfold h, headed; destruct key; reflexivity).
  assert (Oh : opcode h = op) by (unfold h, headed; destruct key; reflexivity).
  assert (Qh : queue h = queue c) by (unfold h, headed; destruct key; reflexivity).
  assert (Ch : control h = b2z (is_control op)) by (unfold h, headed; destruct key; reflexivity).
  assert (Fh : final h = b2z fin) by (unfold h, headed; destruct key; reflexivity).
  assert (Sh : state h = code_end) by (unfold h, headed; destruct key; reflexivity).
  assert (Gh : fragment h = if is_control op then fragment c else b2z (negb fin))
    by (unfold h, headed; destruct key; reflexivity).
  unfold read_payload. rewrite Rh, length_app, wire_length. fold n.
  replace (Z.to_nat (Z.min (Z.of_nat (n + length rest)) (Z.of_nat n))) with n by lia.
  assert (F : firstn n (wire key payload ++ rest) = wire key payload).
  { rewrite firstn_app, wire_length. fold n. rewrite Nat.sub_diag, firstn_O, app_nil_r.
    apply firstn_all2. rewrite wire_length. lia. }
  assert (S : skipn n (wire key payload ++ rest) = rest).
  { rewrite skipn_app, wire_length. fold n. rewrite Nat.sub_diag, skipn_O.
    rewrite skipn_all2 by (rewrite wire_length; lia). reflexivity. }
  rewrite F, S.
  assert (M : exists k, (if z2b (masked h) then
      let '(message, k) := unmask (mask h) (wire key payload) (masks h) in (message, set_masks h k)
    else (wire key payload, h)) = (payload, set_masks h k) /\ 0 <= k < 256).
  { unfold h, headed. destruct key as [key|]; cbn [masked mask masks is_masked sized begun set_mask set_state
      set_remains set_masks set_masked set_opcode set_fragment set_control set_final b2z].
    - change (z2b (Z.b2z true)) with true. cbn iota. rewrite unmask_spec by lia. cbn [wire].
      rewrite rfc_mask_involutive. eexists. split; [reflexivity|]. apply Z.mod_pos_bound. lia.
    - change (z2b (Z.b2z false)) with false. cbn iota. exists 0. split; [reflexivity|lia]. }
  destruct M as (k & -> & Hk). cbn beta iota zeta.
  change (opcode (set_masks h k)) with (opcode h). rewrite Oh.
  rewrite (bool_decide_eq_false_2 (op = op_next)) by apply Hf. cbn [andb].
  cbn [remains set_remains set_opcode push_message set_queue set_masks]. rewrite Rh, Z.sub_diag.
  eexists. split; [reflexivity|]. destruct Hh as (Mh & _ & _).
  unfold received, codec_ok. cbn [mask remains masks queue control final state fragment opcode
    set_remains set_opcode push_message set_queue set_masks].
  rewrite Qh, Ch, Fh, Sh, Gh. repeat split; (assumption || lia).
Qed.

(** A frame at the start of the data, when the codec waits for one. *)
Lemma frame_step c fin op key payload rest :
  codec_ok c -> state c = code_begin -> frame_ok fin op key (Z.of_nat (length payload)) ->
  bytes payload -> bytes rest ->
  exists c', received c fin op key payload c' /\
    run c (rfc_frame fin op key payload ++ rest) =
    if fin then run (set_state c' code_begin) rest else Some (c', true).
Proof.
  intros Hc Hs Hf Hp Hr. pose proof (frame_bytes fin op key payload Hf Hp) as Hb.
  assert (Hb' : bytes (rfc_frame fin op key payload ++ rest)) by (apply digits_app; now split).
  assert (Z0 : forall c1 c' b rest0, codec_ok c1 -> bytes (b :: rest0) ->
    web_step c1 b rest0 = web_fetch c' rest -> received c fin op key payload c' ->
    run c1 (b :: rest0) = if fin then run (set_state c' code_begin) rest else Some (c', true)).
  { intros c1 c' b rest0 Ok1 Hb1 E R. rewrite run_cons, E by assumption.
    destruct R as (_ & Q & _ & C & F & _). rewrite C, F.
    assert (HM : has_messages c' = true)
      by (unfold has_messages; rewrite Q, bool_decide_eq_false_2; [reflexivity|now destruct (queue c)]).
    destruct Hf as (_ & _ & Hcf & _). destruct fin.
    - change (z2b (b2z true)) with true. cbn [negb]. rewrite andb_false_r.
      destruct rest; [|reflexivity]. rewrite run_nil. unfold has_messages in *. cbn [queue set_state].
      now rewrite HM.
    - destruct (is_control op); [destruct (Hcf eq_refl); discriminate|].
      change (negb (z2b (b2z false)) && negb (z2b (b2z false))) with true. cbn iota. now rewrite HM. }
  destruct (decide (payload = [])) as [->|Hne].
  - cbn [length] in Hf. change (Z.of_nat 0) with 0 in Hf.
    destruct (header_empty c fin op key Hc Hs Hf) as (hs & b & c1 & E & H & Hn1 & St).
    assert (F : rfc_frame fin op key [] = hs ++ [b]).
    { unfold rfc_frame. cbn [length]. change (Z.of_nat 0) with 0. rewrite E. destruct key; apply app_nil_r. }
    rewrite F in *. rewrite <- app_assoc in *. cbn [app] in *.
    exists (push_message (headed c fin op key 0) (op, [])).
    assert (R : received c fin op key [] (push_message (headed c fin op key 0) (op, []))).
    { pose proof (headed_ok c fin op key 0 Hc Hf) as Hh. split; [exact Hh|].
      unfold headed. destruct key; repeat split; intros []; reflexivity. }
    split; [exact R|]. rewrite (run_hops c hs c1) by assumption.
    apply digits_app in Hb' as [Hb1 Hb2]. apply (Z0 c1 _ b rest); [|assumption|apply St|exact R].
    eapply hops_ok; [exact H|exact Hc|exact Hb1].
  - assert (Hl : 0 < Z.of_nat (length payload)) by (destruct payload; [contradiction|cbn; lia]).
    pose proof (header_hops c fin op key _ Hc Hs Hf Hl) as H.
    unfold rfc_frame in *. fold (wire key payload) in *. rewrite <- app_assoc in *.
    destruct (payload_step c fin op key payload rest Hc Hf Hne) as (c' & E & R).
    exists c'. split; [exact R|]. rewrite (run_hops _ _ _ _ H) by assumption.
    assert (Hh : state (headed c fin op key (Z.of_nat (length payload))) = code_end)
      by (unfold headed; destruct key; reflexivity).
    pose proof (wire_length key payload) as WL.
    destruct (wire key payload ++ rest) as [|b w] eqn:Ew.
    { apply (f_equal (@length Z)) in Ew. rewrite length_app in Ew. cbn in Ew. lia. }
    apply digits_app in Hb' as [_ Hb2].
    apply (Z0 _ c' b w); [now apply headed_ok|assumption|unfold web_step; now rewrite Hh|exact R].
Qed.

(** ** Facts: a frame that arrives in pieces *)

(** [parse_frame] on every piece, as [web_socket_frame::update] calls it after every read. *)
Fixpoint feed (c : web_codec) (pieces : list (list Z)) : option web_codec :=
  match pieces with
  | [] => Some c
  | piece :: pieces => '(c, _) ← parse_frame c piece; feed c pieces
  end.

(** Inside the payload of the only message: [w] is still to come, the part read is in the queue. *)
Definition in_payload (c : web_codec) (w : list Z) (op : web_socket_op) (payload : list Z) : Prop :=
  codec_ok c /\ state c = code_end /\ w <> [] /\ remains c = Z.of_nat (length w) /\
  z2b (final c) = true /\ op <> op_next /\
  exists part, payload = part ++ (if z2b (masked c) then rfc_mask (mask c) (masks c) w else w) /\
    (opcode c = op /\ queue c = [] /\ part = [] \/ opcode c = op_next /\ queue c = [(op, part)]).

Definition frame_done (c : web_codec) (op : web_socket_op) (payload : list Z) : Prop :=
  codec_ok c /\ state c = code_begin /\ queue c = [(op, payload)].

(** Anywhere in the frame, [d] being still to come. *)
Definition in_frame (c : web_codec) (d : list Z) (op : web_socket_op) (payload : list Z) : Prop :=
  codec_ok c /\ exists hs c1, hops c hs c1 /\
    ((exists w, d = hs ++ w /\ in_payload c1 w op payload) \/
     (exists b c2, d = hs ++ [b] /\ state c1 <> code_end /\
        (forall rest, web_step c1 b rest = web_fetch c2 rest) /\ z2b (final c2) = true /\
        codec_ok c2 /\ queue c2 = [(op, payload)])).

Lemma hops_split xs : forall c ys c', hops c (xs ++ ys) c' -> exists cm, hops c xs cm /\ hops cm ys c'.
Proof.
  induction xs as [|x xs IH]; intros c ys c' H; [exists c; split; [constructor|exact H]|].
  cbn [app] in H. inversion H as [|? ? c1 ? ? Hop Hops]; subst.
  destruct (IH _ _ _ Hops) as (cm & H1 & H2). exists cm. split; [econstructor; eassumption|exact H2].
Qed.

Lemma rfc_mask_app key xs ys : forall i,
  rfc_mask key i (xs ++ ys) = rfc_mask key i xs ++ rfc_mask key (i + Z.of_nat (length xs)) ys.
Proof.
  induction xs as [|x xs IH]; intros i; [cbn; now rewrite Z.add_0_r|]. cbn [app rfc_mask length].
  rewrite IH. do 3 f_equal. lia.
Qed.

Lemma rfc_mask_wrap key ys i : rfc_mask key (u8 i) ys = rfc_mask key i ys.
Proof.
  assert (G : forall p i j, i mod 4 = j mod 4 -> rfc_mask key i p = rfc_mask key j p).
  { induction p as [|b p IH]; intros a j E; [reflexivity|]. cbn [rfc_mask]. rewrite E. f_equal. apply IH. lia. }
  apply G. unfold wrapU. lia.
Qed.

(** The round that reads a piece of the payload. *)
Lemma read_payload_piece c xs ys op payload :
  in_payload c (xs ++ ys) op payload -> xs <> [] ->
  exists c', z2b (final c') = true /\ codec_ok c' /\
    if bool_decide (ys = []) then read_payload c xs = web_fetch c' [] /\ queue c' = [(op, payload)]
    else read_payload c xs = web_continue c' [] /\ in_payload c' ys op payload.
Proof.
  intros (Ok & Hs & _ & Hr & Hf & Hop & part & Hp & Hq) Hne.
  assert (P : (0 < length xs)%nat) by (destruct xs; [contradiction|cbn; lia]).
  rewrite length_app in Hr. unfold read_payload.
  replace (Z.to_nat (Z.min (Z.of_nat (length xs)) (remains c))) with (length xs) by lia.
  rewrite firstn_all, skipn_all.
  set (got := if z2b (masked c) then rfc_mask (mask c) (masks c) xs else xs).
  assert (M : exists k, (if z2b (masked c) then
      let '(message, k) := unmask (mask c) xs (masks c) in (message, set_masks c k)
    else (xs, c)) = (got, set_masks c k) /\ 0 <= k < 256 /\
    payload = (part ++ got) ++ (if z2b (masked c) then rfc_mask (mask c) k ys else ys)).
  { destruct Ok as (_ & _ & Hk). unfold got. rewrite Hp. destruct (z2b (masked c)).
    - rewrite unmask_spec by assumption. eexists. split; [reflexivity|].
      split; [apply Z.mod_pos_bound; lia|]. now rewrite rfc_mask_wrap, rfc_mask_app, app_assoc.
    - exists (masks c). split; [now destruct c|]. split; [assumption|]. now rewrite app_assoc. }
  destruct M as (k & -> & Hk & Hp'). cbn beta iota zeta.
  change (opcode (set_masks c k)) with (opcode c). change (queue (set_masks c k)) with (queue c).
  set (c2 := if bool_decide (opcode c = op_next) && _ then _ else _).
  assert (E2 : c2 = set_queue (set_masks c k) [(op, part ++ got)]).
  { unfold c2, push_message. destruct Hq as [(Ho & Q & ->)|[Ho Q]]; rewrite Ho.
    - rewrite (bool_decide_eq_false_2 (op = op_next)) by assumption. cbn [andb app].
      change (queue (set_masks c k)) with (queue c). now rewrite Q.
    - rewrite Q. reflexivity. }
  rewrite E2. cbn [remains set_remains set_opcode set_queue set_masks]. rewrite Hr.
  destruct Ok as (Om & Or & Ok'). 
  set (c' := set_remains _ _). exists c'.
  assert (Okc : codec_ok c') by (unfold codec_ok, c'; cbn [mask remains masks set_remains set_opcode set_queue set_masks]; split; [assumption|]; split; lia).
  split; [exact Hf|]. split; [exact Okc|].
  destruct (bool_decide_reflect (ys = [])) as [->|Hy].
  - cbn [length]. rewrite Nat.add_0_r, Z.sub_diag. split; [reflexivity|]. cbn. rewrite Hp'.
    destruct (z2b (masked c)); cbn [rfc_mask]; now rewrite app_nil_r.
  - assert (P' : (0 < length ys)%nat) by (destruct ys; [contradiction|cbn; lia]).
    destruct (Z.eqb_spec (Z.of_nat (length xs + length ys) - Z.of_nat (length xs)) 0); [lia|].
    split; [reflexivity|]. split; [exact Okc|]. split; [exact Hs|]. split; [exact Hy|].
    split; [cbn; lia|]. split; [exact Hf|]. split; [exact Hop|].
    exists (part ++ got). split; [exact Hp'|]. right. now split.
Qed.

(** A piece of the payload, from the state inside the payload. *)
Lemma payload_piece c xs ys op payload :
  in_payload c (xs ++ ys) op payload -> xs <> [] -> bytes xs ->
  exists c' b, run c xs = Some (c', b) /\
    if bool_decide (ys = []) then frame_done c' op payload else in_payload c' ys op payload.
Proof.
  intros H Hne Hb. destruct (read_payload_piece c xs ys op payload H Hne) as (c' & Hf & Ok & R).
  destruct H as (Okc & Hs & _). destruct xs as [|x xs]; [contradiction|].
  rewrite run_cons by assumption.
  replace (web_step c x xs) with (read_payload c (x :: xs)) by (unfold web_step; now rewrite Hs).
  destruct (bool_decide_reflect (ys = [])) as [->|Hy]; destruct R as [-> R].
  - rewrite Hf. cbn [negb]. rewrite andb_false_r. do 2 eexists. split; [reflexivity|].
    split; [exact Ok|]. now split.
  - rewrite run_nil. do 2 eexists. split; [reflexivity|exact R].
Qed.

Lemma in_frame_payload c w op payload : in_payload c w op payload -> in_frame c w op payload.
Proof.
  intros H. split; [apply H|]. exists [], c. split; [constructor|]. left. exists w. now split.
Qed.

(** A piece of a frame, wherever it is cut. *)
Lemma frame_piece c xs ys op payload :
  in_frame c (xs ++ ys) op payload -> bytes (xs ++ ys) -> xs <> [] ->
  exists c' b, run c xs = Some (c', b) /\
    if bool_decide (ys = []) then frame_done c' op payload else in_frame c' ys op payload.
Proof.
  intros (Ok & hs & c1 & H & D) Hb Hne. pose proof (proj1 (digits_app _ _ _) Hb) as [Hbx Hby].
  assert (L : (length xs <= length hs)%nat \/ (length hs < length xs)%nat) by lia.
  assert (D' : exists tl, xs ++ ys = hs ++ tl).
  { destruct D as [(w & E & _)|(b & c2 & E & _)]; eauto. }
  destruct D' as (tl & Et). destruct L as [L|L].
  - (* inside the header *)
    assert (E : exists hs2, hs = xs ++ hs2 /\ ys = hs2 ++ tl).
    { exists (skipn (length xs) hs). assert (E1 : xs = firstn (length xs) hs).
      { apply (f_equal (firstn (length xs))) in Et. rewrite !firstn_app in Et.
        replace (length xs - length hs)%nat with O in Et by lia.
        rewrite Nat.sub_diag, !firstn_O, !app_nil_r, firstn_all in Et. exact Et. }
      split; [rewrite E1 at 1; now rewrite firstn_skipn|].
      apply (f_equal (skipn (length xs))) in Et. rewrite !skipn_app in Et.
      replace (length xs - length hs)%nat with O in Et by lia.
      rewrite Nat.sub_diag, !skipn_O, skipn_all in Et. exact Et. }
    destruct E as (hs2 & -> & ->). apply hops_split in H as (cm & H1 & H2).
    exists cm, (has_messages cm). split.
    { rewrite <- (app_nil_r xs) at 1. rewrite (run_hops c xs cm) by (assumption || now rewrite app_nil_r).
      apply run_nil. }
    assert (Okm : codec_ok cm) by (eapply hops_ok; eassumption).
    assert (T : tl <> []).
    { destruct D as [(w & E & W)|(b & c2 & E & _)]; rewrite <- app_assoc in E; apply app_inv_head in E;
        apply app_inv_head in E; subst tl; [apply W|discriminate]. }
    rewrite bool_decide_eq_false_2 by (destruct hs2; [exact T|discriminate]).
    split; [exact Okm|]. exists hs2, c1. split; [exact H2|].
    destruct D as [(w & E & W)|(b & c2 & E & R)]; rewrite <- app_assoc in E; apply app_inv_head in E.
    + left. exists w. now split.
    + right. exists b, c2. now split.
  - (* past it *)
    assert (E : exists w1, xs = hs ++ w1 /\ tl = w1 ++ ys).
    { exists (skipn (length hs) xs). assert (E1 : hs = firstn (length hs) xs).
      { apply (f_equal (firstn (length hs))) in Et. rewrite !firstn_app in Et.
        replace (length hs - length xs)%nat with O in Et by lia.
        rewrite Nat.sub_diag, !firstn_O, !app_nil_r, firstn_all in Et. now symmetry. }
      split; [rewrite E1 at 1; now rewrite firstn_skipn|].
      apply (f_equal (skipn (length hs))) in Et. rewrite !skipn_app in Et.
      replace (length hs - length xs)%nat with O in Et by lia.
      rewrite Nat.sub_diag, !skipn_O, skipn_all in Et. now symmetry. }
    destruct E as (w1 & -> & ->). rewrite (run_hops c hs c1) by assumption.
    apply digits_app in Hbx as [Hbh Hbw].
    assert (Hw : w1 <> []) by (intros ->; rewrite app_nil_r in L; lia).
    destruct D as [(w & E & W)|(b & c2 & E & Hs & St & Hf & Ok2 & Q)]; rewrite <- app_assoc in E;
      apply app_inv_head in E.
    + subst w. destruct (payload_piece c1 w1 ys op payload W Hw Hbw) as (c' & bb & R & F).
      exists c', bb. split; [exact R|]. destruct (bool_decide (ys = [])); [exact F|].
      now apply in_frame_payload.
    + destruct w1 as [|x w1]; [contradiction|]. injection E as -> E. apply app_eq_nil in E as [-> ->].
      rewrite run_cons, St by (assumption || (eapply hops_ok; eassumption)). rewrite Hf. cbn [negb].
      rewrite andb_false_r. do 2 eexists. split; [reflexivity|].
      rewrite bool_decide_eq_true_2 by reflexivity. split; [exact Ok2|]. now split.
Qed.

Lemma feed_done c op payload pieces :
  frame_done c op payload -> concat pieces = [] -> feed c pieces = Some c.
Proof.
  intros H. induction pieces as [|p ps IH]; [reflexivity|]. cbn [concat feed]. intros E.
  apply app_eq_nil in E as [-> E]. now apply IH.
Qed.

Lemma feed_frame pieces : forall c op payload,
  in_frame c (concat pieces) op payload -> bytes (concat pieces) ->
  exists c', feed c pieces = Some c' /\ frame_done c' op payload.
Proof.
  induction pieces as [|p ps IH]; intros c op payload H Hb.
  - destruct H as (_ & hs & c1 & _ & [(w & E & W)|(b & c2 & E & _)]).
    + symmetry in E. apply app_eq_nil in E as [_ ->]. now destruct W as (_ & _ & [] & _).
    + now destruct hs.
  - cbn [concat feed] in *. rewrite parse_frame_run. destruct (decide (p = [])) as [->|Hp].
    + rewrite run_nil. cbn [mbind option_bind]. now apply IH.
    + destruct (frame_piece c p (concat ps) op payload H Hb Hp) as (c' & b & -> & R).
      cbn [mbind option_bind]. apply digits_app in Hb as [_ Hb].
      destruct (bool_decide_reflect (concat ps = [])) as [E|E]; [|now apply IH].
      exists c'. split; [now apply (feed_done c' op payload)|exact R].
Qed.

(** The start of a frame, with nothing queued. *)
Lemma frame_start c op key payload :
  codec_ok c -> state c = code_begin -> queue c = [] -> frame_ok true op key (Z.of_nat (length payload)) ->
  in_frame c (rfc_frame true op key payload) op payload.
Proof.
  intros Hc Hs Hq Hf. split; [exact Hc|]. destruct (decide (payload = [])) as [->|Hne].
  - cbn [length] in Hf. change (Z.of_nat 0) with 0 in Hf.
    destruct (header_empty c true op key Hc Hs Hf) as (hs & b & c1 & E & H & Hn1 & St).
    exists hs, c1. split; [exact H|]. right. eexists b, _.
    split; [unfold rfc_frame; cbn [length]; change (Z.of_nat 0) with 0; rewrite E; destruct key; apply app_nil_r|].
    split; [exact Hn1|]. split; [exact St|]. unfold headed.
    split; [now destruct key|]. split; [exact (headed_ok c true op key 0 Hc Hf)|].
    destruct key; cbn; now rewrite Hq.
  - assert (Hl : 0 < Z.of_nat (length payload)) by (destruct payload; [contradiction|cbn; lia]).
    exists (rfc_header true op key (Z.of_nat (length payload))), (headed c true op key (Z.of_nat (length payload))).
    split; [now apply header_hops|]. left. exists (wire key payload). split; [reflexivity|].
    pose proof (wire_length key payload) as WL.
    split; [now apply headed_ok|]. split; [now destruct key|].
    split; [intros E; rewrite E in WL; cbn in WL; lia|]. split; [destruct key; cbn in *; lia|].
    split; [now destruct key|]. split; [apply Hf|]. exists []. cbn [app]. split.
    + unfold headed. destruct key as [key|]; cbn; [now rewrite rfc_mask_involutive|reflexivity].
    + left. unfold headed. split; [now destruct key|]. split; [destruct key; cbn; exact Hq|reflexivity].
Qed.

(** ** Facts: the sender *)
Lemma be_bytes_halves n :
  0 <= n < 2 ^ 64 ->
  be_bytes 4 (u32 (Z.shiftr n 32)) ++ be_bytes 4 (Z.land n 4294967295) = be_bytes 8 n.
Proof.
  intros Hn. change 4294967295 with (Z.ones 32). rewrite Z.land_ones, Z.shiftr_div_pow2 by lia.
  rewrite (wrapU_id 32) by (unfold fits; lia). rewrite be_bytes_unroll. unfold be_bytes. cbn [le_digits rev app].
  change (2 ^ 32) with 4294967296. change (2 ^ 56) with 72057594037927936.
  change (2 ^ 48) with 281474976710656. change (2 ^ 40) with 1099511627776.
  change (2 ^ 24) with 16777216. change (2 ^ 16) with 65536. change (2 ^ 8) with 256.
  rewrite !Z.div_div by lia. cbn [Z.mul Pos.mul Pos.add].
  repeat (apply (f_equal2 cons); [lia|]). reflexivity.
Qed.

Lemma lor_flag l (m : bool) : 0 <= l < 128 -> Z.lor l (if m then 128 else 0) = (if m then 128 else 0) + l.
Proof. intros Hl. apply Z.eqb_eq. destruct m; by_range l 128. Qed.

Lemma send_header_rfc mask n op :
  0 <= n < 2 ^ 63 -> op <> op_next ->
  send_header mask n op =
  rfc_header true op (if z2b mask then Some (le_digits 4 256 mask) else None) n.
Proof.
  intros Hn Hop. unfold send_header, rfc_header, rfc_length7, rfc_extended.
  assert (Ho : 128 + Z.land (op_code op) 15 = 128 + op_code op) by (destruct op; reflexivity).
  rewrite Ho. set (k := if z2b mask then le_digits 4 256 mask else []).
  assert (K : match (if z2b mask then Some (le_digits 4 256 mask) else None) with
              | Some key => key | None => [] end = k) by (unfold k; now destruct (z2b mask)).
  assert (F : match (if z2b mask then Some (le_digits 4 256 mask) else None) with
              | Some _ => 128 | None => 0 end = if z2b mask then 128 else 0) by (now destruct (z2b mask)).
  rewrite K, F. destruct (Z.ltb_spec n 126); [|destruct (Z.leb_spec n 65535), (Z.ltb_spec n 65536); try lia].
  - rewrite wrapU_id by (unfold fits; lia). rewrite lor_flag by lia. reflexivity.
  - rewrite lor_flag by lia. rewrite wrapU_id by (unfold fits; lia). reflexivity.
  - rewrite lor_flag by lia. rewrite be_bytes_halves by lia. reflexivity.
Qed.

(** Frames one after the other in one buffer. *)
Definition frame_of (f : web_socket_op * option (list Z) * list Z) : list Z :=
  let '(op, key, payload) := f in rfc_frame true op key payload.
Definition message_of (f : web_socket_op * option (list Z) * list Z) : web_socket_op * list Z :=
  let '(op, _, payload) := f in (op, payload).
Definition sendable (f : web_socket_op * option (list Z) * list Z) : Prop :=
  let '(op, key, payload) := f in frame_ok true op key (Z.of_nat (length payload)) /\ bytes payload.

Lemma sendable_bytes frames : Forall sendable frames -> bytes (concat (map frame_of frames)).
Proof.
  induction 1 as [|[[op key] payload] frames [H1 H2] _ IH]; [constructor|]. cbn [map concat].
  apply digits_app. split; [now apply frame_bytes|exact IH].
Qed.

Lemma frames_run frames : forall c,
  codec_ok c -> state c = code_begin -> Forall sendable frames ->
  exists c', run c (concat (map frame_of frames)) = Some (c', has_messages c') /\
    codec_ok c' /\ state c' = code_begin /\ queue c' = queue c ++ map message_of frames.
Proof.
  induction frames as [|[[op key] payload] frames IH]; intros c Hc Hs Hf.
  - exists c. rewrite app_nil_r. split; [reflexivity|]. now split.
  - inversion Hf as [|? ? Hf1 Hf']; subst. destruct Hf1 as [H1 H2]. cbn [map concat frame_of message_of].
    destruct (frame_step c true op key payload (concat (map frame_of frames)) Hc Hs H1 H2
      (sendable_bytes _ Hf')) as (c1 & R & ->).
    destruct R as (Ok1 & Q1 & _).
    destruct (IH (set_state c1 code_begin) Ok1 eq_refl Hf') as (c' & -> & Ok' & S' & Q').
    exists c'. split; [reflexivity|]. split; [exact Ok'|]. split; [exact S'|].
    rewrite Q'. cbn [queue set_state]. now rewrite Q1, <- app_assoc.
Qed.

(** ** Properties *)

(** (C9) Complete frames in one buffer: where the codec is at the beginning of a frame and the buffer is a sequence of complete
    final frames of RFC 6455, masked or not, of any payload length, the codec ends ready for the next frame with the unmasked
    messages appended to its queue in order, each with its operation, and [get_frame] hands the first of them out.
    (Fragments are not received so, see [web_fragments_lost], and the rest of a payload that two buffers cut goes to the oldest message of the queue.) *)
Theorem web_frames_received (c : web_codec) (frames : list (web_socket_op * option (list Z) * list Z)) :
  codec_ok c -> state c = code_begin -> Forall sendable frames ->
  exists c', parse_frame c (concat (map frame_of frames)) = Some (c', has_messages c') /\
    codec_ok c' /\ state c' = code_begin /\ queue c' = queue c ++ map message_of frames /\
    (forall m q, queue c' = m :: q -> get_frame c' = (set_queue c' q, Some m)).
Proof.
  intros Hc Hs Hf. rewrite parse_frame_run. destruct (frames_run frames c Hc Hs Hf) as (c' & E & Ok & S & Q).
  exists c'. do 3 (split; [assumption|]). split; [assumption|]. intros m q Em. unfold get_frame. now rewrite Em.
Qed.

Definition example_codec : web_codec := mk_codec [] 0 op_next code_begin [0; 0; 0; 0] 0 0 0 0 0.

Lemma example_codec_ok : codec_ok example_codec.
Proof. split; [reflexivity|]. cbn. lia. Qed.

Lemma web_frames_received_witness :
  exists c', parse_frame example_codec
      (concat (map frame_of [(op_text, Some [1; 2; 3; 4], chars "hello"); (op_ping, None, [])])) =
      Some (c', has_messages c') /\ queue c' = [(op_text, chars "hello"); (op_ping, [])].
Proof.
  destruct (web_frames_received example_codec [(op_text, Some [1; 2; 3; 4], chars "hello"); (op_ping, None, [])])
    as (c' & E & _ & _ & Q & _).
  - exact example_codec_ok.
  - reflexivity.
  - repeat apply Forall_cons; try apply Forall_nil; repeat split; try discriminate; try lia;
      try (apply digits_check; reflexivity).
  - exists c'. split; [exact E|exact Q].
Defined.

(** A frame that arrives in pieces: however a complete final frame is cut into reads, down to
    single bytes, when nothing else is queued the codec ends ready for the next frame with the whole
    message, and only it, in its queue. *)
Theorem web_frame_pieces (c : web_codec) (op : web_socket_op) (key : option (list Z)) (payload : list Z)
    (pieces : list (list Z)) :
  codec_ok c -> state c = code_begin -> queue c = [] ->
  frame_ok true op key (Z.of_nat (length payload)) -> bytes payload ->
  concat pieces = rfc_frame true op key payload ->
  exists c', feed c pieces = Some c' /\ codec_ok c' /\ state c' = code_begin /\ queue c' = [(op, payload)].
Proof.
  intros Hc Hs Hq Hf Hb Hp. apply feed_frame; rewrite Hp.
  - now apply frame_start.
  - now apply frame_bytes.
Qed.

Lemma web_frame_pieces_witness :
  exists c', feed example_codec [[129]; [131; 1; 2]; [3; 4; Z.lxor 97 1]; []; [Z.lxor 98 2; Z.lxor 99 3]] = Some c' /\
    queue c' = [(op_text, chars "abc")].
Proof.
  destruct (web_frame_pieces example_codec op_text (Some [1; 2; 3; 4]) (chars "abc")
    [[129]; [131; 1; 2]; [3; 4; Z.lxor 97 1]; []; [Z.lxor 98 2; Z.lxor 99 3]]) as (c' & E & _ & _ & Q).
  - exact example_codec_ok.
  - reflexivity.
  - reflexivity.
  - repeat split; try discriminate; try lia. apply digits_check. reflexivity.
  - apply digits_check. reflexivity.
  - reflexivity.
  - exists c'. split; [exact E|exact Q].
Defined.

(** What [send] writes.  Without a mask it is the RFC frame of the buffer, for every length up to the
    sixty-four bit one; with a mask the header announces a key but the payload goes out unmasked, so it
    is the RFC frame of a different payload, the buffer combined with the key, and that is what a
    receiver gets. *)
Theorem web_send_frame (mask : Z) (buffer : list Z) (op : web_socket_op) :
  op <> op_next -> Z.of_nat (length buffer) < 2 ^ 63 ->
  send_frame 0 buffer op = rfc_frame true op None buffer /\
  (mask <> 0 ->
   let key := le_digits 4 256 mask in
   send_frame mask buffer op = rfc_frame true op (Some key) (rfc_mask key 0 buffer)).
Proof.
  intros Hop Hl. unfold send_frame. split; [now rewrite send_header_rfc by (assumption || lia)|].
  intros Hm. rewrite send_header_rfc by (assumption || lia).
  destruct (z2b mask) eqn:E;
    [|exfalso; unfold z2b in E; destruct (Z.eqb_spec mask 0); [contradiction|discriminate]].
  unfold rfc_frame. now rewrite rfc_mask_length, rfc_mask_involutive.
Qed.

Lemma web_send_frame_witness :
  send_frame 0 (chars "hi") op_text = rfc_frame true op_text None (chars "hi") /\
  send_frame 1 (chars "hi") op_text = rfc_frame true op_text (Some [1; 0; 0; 0]) (chars "ii").
Proof.
  destruct (web_send_frame 1 (chars "hi") op_text ltac:(discriminate) ltac:(reflexivity)) as [H1 H2].
  split; [exact H1|]. exact (H2 ltac:(discriminate)).
Defined.

(** After the last byte of a frame that is not final the codec is left in the [end] state with nothing
    to read. *)
Definition stuck (c : web_codec) : Prop :=
  codec_ok c /\ state c = code_end /\ remains c = 0 /\ control c = 0 /\ final c = 0 /\ opcode c = op_next.

Lemma stuck_run c data :
  stuck c -> bytes data ->
  exists c' b, run c data = Some (c', b) /\ stuck c' /\
    (queue c' = queue c \/ queue c = [] /\ queue c' = [(op_text, [])]).
Proof.
  intros (Ok & Hs & Hr & Hc & Hf & Ho) Hd. pose proof Ok as (Hm & _ & Hk).
  destruct data as [|x xs]; [exists c, (has_messages c); unfold stuck; auto 10|].
  rewrite run_cons by assumption.
  replace (web_step c x xs) with (read_payload c (x :: xs)) by (unfold web_step; now rewrite Hs).
  unfold read_payload. rewrite Hr. replace (Z.to_nat (Z.min _ 0)) with O by lia. rewrite firstn_O, skipn_O.
  replace (if z2b (masked c) then _ else _) with (@nil Z, set_masks c (masks c))
    by (destruct (z2b (masked c)); [reflexivity | now destruct c]).
  cbn beta iota zeta. replace (set_masks c (masks c)) with c by (now destruct c). rewrite Ho.
  change (bool_decide (op_next = op_next)) with true. cbn [andb].
  set (c2 := if negb _ then _ else _).
  assert (E : exists q, c2 = set_queue c q /\ (q = queue c \/ queue c = [] /\ q = [(op_text, [])])).
  { unfold c2, push_message. destruct (bool_decide_reflect (queue c = [])) as [Eq|Eq]; cbn [negb].
    - eexists. split; [reflexivity|]. right. rewrite Eq. now split.
    - eexists. split; [reflexivity|]. left. destruct (queue c) as [|[o m] q]; [contradiction|]. cbn.
      now rewrite app_nil_r. }
  destruct E as (q & -> & Hq). cbn [remains set_remains set_opcode set_queue control final]. rewrite Hr.
  change (0 - Z.of_nat 0 =? 0) with true. cbn iota.
  cbn [control final set_remains set_opcode set_queue]. rewrite Hc, Hf. cbn [negb andb].
  change (z2b 0) with false. cbn [negb andb]. do 2 eexists. split; [reflexivity|].
  split; [|exact Hq]. unfold stuck, codec_ok. cbn [mask remains masks state control final opcode
    set_remains set_opcode set_queue]. repeat split; assumption || lia.
Qed.

(** Fragmented messages never arrive.  When a text or binary frame without the final flag is
    complete, the part read is queued as if it were a message and the codec stays in the [end] state:
    what follows in the same buffer is dropped, and no input at all makes it read another frame; all it
    can still do is queue an empty text message. *)
Theorem web_fragments_lost (c : web_codec) (op : web_socket_op) (key : option (list Z)) (payload rest : list Z)
    (pieces : list (list Z)) :
  codec_ok c -> state c = code_begin -> is_control op = false -> payload <> [] ->
  frame_ok false op key (Z.of_nat (length payload)) -> bytes payload -> bytes rest ->
  Forall bytes pieces ->
  exists c1 c2, parse_frame c (rfc_frame false op key payload ++ rest) = Some (c1, true) /\
    queue c1 = queue c ++ [(op, payload)] /\
    feed c1 pieces = Some c2 /\ stuck c2 /\ queue c2 = queue c1.
Proof.
  intros Hc Hs Hctl Hne Hf Hb Hr Hps. rewrite parse_frame_run.
  destruct (frame_step c false op key payload rest Hc Hs Hf Hb Hr) as (c1 & R & ->).
  destruct R as (Ok1 & Q1 & R1 & C1 & F1 & S1 & _ & O1). rewrite Hctl in C1.
  exists c1. assert (St : stuck c1) by (repeat split; try apply Ok1; auto).
  assert (G : forall ps c0, Forall bytes ps -> stuck c0 -> queue c0 <> [] ->
    exists c2, feed c0 ps = Some c2 /\ stuck c2 /\ queue c2 = queue c0).
  { induction ps as [|p ps IH]; intros c0 Hp H0 Hq; [exists c0; now split|].
    inversion Hp; subst. cbn [feed]. rewrite parse_frame_run.
    destruct (stuck_run c0 p H0) as (c' & b & -> & H' & Eq); [assumption|]. cbn [mbind option_bind].
    destruct Eq as [Eq|[Eq _]]; [|contradiction].
    destruct (IH c' ltac:(assumption) H') as (c2 & E2 & S2 & Q2); [congruence|].
    exists c2. split; [exact E2|]. split; [exact S2|congruence]. }
  destruct (G pieces c1 Hps St) as (c2 & E2 & S2 & Q2); [rewrite Q1; now destruct (queue c)|].
  exists c2. split; [reflexivity|]. split; [exact Q1|]. split; [exact E2|]. now split.
Qed.

Lemma web_fragments_lost_witness :
  exists c1 c2, parse_frame example_codec (rfc_frame false op_text None (chars "Hel") ++ rfc_frame true op_next None (chars "lo"))
      = Some (c1, true) /\ queue c1 = [(op_text, chars "Hel")] /\
    feed c1 [rfc_frame true op_text None (chars "next")] = Some c2 /\ queue c2 = queue c1.
Proof.
  destruct (web_fragments_lost example_codec op_text None (chars "Hel") (rfc_frame true op_next None (chars "lo"))
    [rfc_frame true op_text None (chars "next")]) as (c1 & c2 & E1 & Q1 & E2 & _ & Q2).
  - exact example_codec_ok.
  - reflexivity.
  - reflexivity.
  - discriminate.
  - repeat split; try discriminate; try lia.
  - apply digits_check. reflexivity.
  - apply digits_check. reflexivity.
  - constructor; [|constructor]. apply digits_check. reflexivity.
  - exists c1, c2. split; [exact E1|]. split; [exact Q1|]. split; [exact E2|exact Q2].
Defined.

(** The codec is total: on every buffer, well-formed or not, the loop ends, the invariant of the
    members holds afterwards, and the result says whether a message is queued.  A first byte with a
    reserved bit, an unknown operation, a control frame that is not final, or a continuation when
    nothing was fragmented leaves the state and the queue as they were. *)
Theorem web_parse_total (c : web_codec) (buffer : list Z) :
  codec_ok c -> bytes buffer ->
  exists c' b, parse_frame c buffer = Some (c', b) /\ codec_ok c' /\
    match buffer with
    | index :: _ =>
        state c = code_begin ->
        has_bits index 112 = true \/
        (let op := Z.land index 15 in
         op = 0 /\ fragment c = 0 \/ 3 <= op < 8 \/ 11 <= op \/ 8 <= op /\ has_bits index 128 = false) ->
        state c' = code_begin /\ queue c' = queue c /\ b = has_messages c
    | [] => c' = c /\ b = has_messages c
    end.
Proof.
  intros Hc Hd. rewrite parse_frame_run. destruct (run_total c buffer Hc Hd) as (c' & b & E & Ok).
  exists c', b. split; [exact E|]. split; [exact Ok|]. destruct buffer as [|index rest].
  - rewrite run_nil in E. now injection E as <- <-.
  - intros Hs Hbad. rewrite run_cons in E by assumption. unfold web_step in E. rewrite Hs in E.
    assert (B : exists c1, begin_frame c index rest = web_return c1 /\ state c1 = code_begin /\ queue c1 = queue c).
    { apply digits_cons in Hd as [Hi _]. pose proof (Z.land_nonneg index 15) as Hl.
      assert (H8 : forall op, 0 <= op < 16 -> has_bits op 8 = (8 <=? op)).
      { intros op Hop. apply Bool.eqb_prop. by_range op 16. }
      assert (Hr : 0 <= Z.land index 15 < 16)
        by (change 15 with (Z.ones 4); rewrite Z.land_ones by lia; apply Z.mod_pos_bound; lia).
      unfold begin_frame. destruct (has_bits index 112) eqn:E112; [eauto|].
      destruct Hbad as [H|Hbad]; [discriminate|]. cbn zeta in Hbad. rewrite H8 by assumption.
      set (op := Z.land index 15) in *. clearbody op.
      assert (F : z2b (fragment (set_final c (if has_bits index 128 then 1 else 0))) = z2b (fragment c)) by reflexivity.
      destruct (Z.eqb_spec op 0).
      - rewrite F. destruct Hbad as [[_ Hg]|[?|[?|[? _]]]]; [|lia..]. rewrite Hg. cbn. eauto.
      - destruct (Z.leb_spec 8 op).
        + destruct Hbad as [[? _]|[?|[?|[_ Hfin]]]]; [lia|lia| |].
          * repeat case_cmp; try lia; cbn; eauto.
          * rewrite Hfin. repeat case_match; cbn; eauto; discriminate.
        + destruct Hbad as [[? _]|[?|[?|[? _]]]]; [lia| |lia|lia].
          repeat case_cmp; try lia; cbn; eauto. }
    destruct B as (c1 & B & S1 & Q1). rewrite B in E. injection E as <- <-.
    split; [exact S1|]. split; [exact Q1|]. unfold has_messages. now rewrite Q1.
Qed.

Lemma web_parse_total_witness :
  exists c' b, parse_frame example_codec [255; 0] = Some (c', b) /\ codec_ok c' /\
    state c' = code_begin /\ queue c' = [] /\ b = false.
Proof.
  destruct (web_parse_total example_codec [255; 0]) as (c' & b & E & Ok & H).
  - exact example_codec_ok.
  - apply digits_check. reflexivity.
  - exists c', b. split; [exact E|]. split; [exact Ok|]. apply H; [reflexivity|]. left. reflexivity.
Defined.
