(* ===== verification/Text.v ===== *)
(** * Strings: the operations of [stringify] (src/vitex/core.cpp)

    A [string] or [string_view] is the list of its bytes, an index into it a [nat] as [size_t] is; an
    operation that changes its argument in place returns the changed string.  [cstr] is the reading of a
    string by the C library: what stands before the first zero byte. *)
From S2P Require Import Prelude.

(** ** Positions and searches *)

Record text_settle := mk_settle { settle_start : nat; settle_end : nat; found : bool }.

Definition at_ (s : list Z) (i : nat) : Z := nth i s 0.
Definition substr (s : list Z) (pos n : nat) : list Z := firstn n (skipn pos s).

Fixpoint cstr (s : list Z) : list Z :=
  match s with [] => [] | b :: s' => if b =? 0 then [] else b :: cstr s' end.

(** The index of the first byte at or after [i] that satisfies [p], walking the bytes [rest] from there. *)
Fixpoint first_from (p : Z -> bool) (rest : list Z) (i : nat) : option nat :=
  match rest with [] => None | b :: rest' => if p b then Some i else first_from p rest' (S i) end.

Definition settle_of (other : list Z) (r : option nat) : text_settle :=
  match r with Some i => mk_settle i (i + 1) true | None => mk_settle (length other) (length other) false end.

Definition one_of (needle : list Z) (b : Z) : bool := existsb (Z.eqb b) needle.

(** [find] of a character, of any of some characters, and of any but some characters. *)
Definition find_char (other : list Z) (needle : Z) (offset : nat) : text_settle :=
  settle_of other (first_from (Z.eqb needle) (skipn offset other) offset).
Definition find_of (other needle : list Z) (offset : nat) : text_settle :=
  settle_of other (first_from (one_of needle) (skipn offset other) offset).
Definition find_not_of (other needle : list Z) (offset : nat) : text_settle :=
  settle_of other (first_from (fun b => negb (one_of needle b)) (skipn offset other) offset).

(** [pm_split] on a character appends the pieces to the output it is given. *)
Fixpoint split_loop (fuel : nat) (output : list (list Z)) (other : list Z) (with_ : Z) (offset : nat) :
    option (list (list Z)) :=
  match fuel with
  | O => None
  | S f =>
      let result := find_char other with_ offset in
      if found result then
        split_loop f (output ++ [substr other offset (settle_start result - offset)]) other with_ (settle_end result)
      else Some (if (offset <? length other)%nat then output ++ [skipn offset other] else output)
  end.
Definition pm_split (output : list (list Z)) (other : list Z) (with_ : Z) (start : nat) : option (list (list Z)) :=
  if (length other <=? start)%nat then Some output
  else split_loop (S (length other)) output other with_ start.

(** ** Trimming and comparison *)

Fixpoint drop_spaces (s : list Z) : list Z :=
  match s with [] => [] | b :: s' => if isspace b then drop_spaces s' else s end.
Definition trim_start (s : list Z) : list Z := drop_spaces s.
Definition trim_end (s : list Z) : list Z := rev (drop_spaces (rev s)).
Definition trim_text (s : list Z) : list Z := trim_end (trim_start s).

Fixpoint equal_by (f : Z -> Z) (xs ys : list Z) : bool :=
  match xs, ys with
  | [], [] => true
  | x :: xs', y :: ys' => (f x =? f y) && equal_by f xs' ys'
  | _, _ => false
  end.
Definition case_equals (value1 value2 : list Z) : bool :=
  ((length value1 =? length value2)%nat) && equal_by tolower value1 value2.

(** ** Numbers *)

(** [size_to_string] of an unsigned 64-bit integer (std::to_chars, base 10). *)
Fixpoint to_chars_loop (fuel : nat) (n : Z) (acc : list Z) : list Z :=
  match fuel with
  | O => acc
  | S f => if n <? 10 then (48 + n) :: acc else to_chars_loop f (n / 10) ((48 + n mod 10) :: acc)
  end.
Definition size_to_string (n : Z) : list Z := to_chars_loop 20 n [].

(** [from_string<size_t>] (std::from_chars, base 10): the digits at the front, an error when there are none
    or when their value does not fit. *)
Fixpoint digits_value (s : list Z) (acc : Z) : Z :=
  match s with [] => acc | b :: s' => if isdigit b then digits_value s' (acc * 10 + (b - 48)) else acc end.
Definition from_string_size (s : list Z) : option Z :=
  match s with
  | b :: _ => if isdigit b then (if digits_value s 0 <? 2 ^ 64 then Some (digits_value s 0) else None) else None
  | [] => None
  end.
