(* ===== verification/TextEdit.v ===== *)
(** * Strings: edits, predicates, replacement, splitting and wide characters (src/vitex/core.cpp)

    The rest of [stringify] that works on the bytes of a string.  A loop over an index into a string that
    it edits keeps the index and the string, and has fuel; the theorems at the end show what the loops
    compute and that they end. *)
From S2P Require Import Prelude Text Codec.

(** ** Editing by position *)

Definition insert_at (s : list Z) (i : nat) (ins : list Z) : list Z := firstn i s ++ ins ++ skipn i s.
Definition erase_count (s : list Z) (position count : nat) : list Z := firstn position s ++ skipn (position + count) s.
Definition erase_offsets (s : list Z) (start end_ : nat) : list Z := erase_count s start (end_ - start).
Definition set_byte (s : list Z) (i : nat) (v : Z) : list Z := firstn i s ++ v :: skipn (S i) s.

Definition erase (s : list Z) (position : nat) : list Z := firstn position s.
Definition clip (s : list Z) (len : nat) : list Z := if (len <? length s)%nat then erase_count s len (length s - len) else s.
Definition replace_part (other : list Z) (start end_ : nat) (value : list Z) : list Z :=
  if (start =? 0)%nat then
    if negb (length other =? end_)%nat then value ++ substr other end_ (length other - end_) else value
  else if (length other =? end_)%nat then substr other 0 start ++ value
  else substr other 0 start ++ value ++ substr other end_ (length other - end_).
Definition remove_part (other : list Z) (start end_ : nat) : list Z :=
  if (start =? 0)%nat then
    if negb (length other =? end_)%nat then substr other end_ (length other - end_) else []
  else if (length other =? end_)%nat then substr other 0 start
  else substr other 0 start ++ substr other end_ (length other - end_).
Definition reverse_range (s : list Z) (start end_ : nat) : list Z :=
  firstn start s ++ rev (substr s start (end_ - start)) ++ skipn end_ s.
Definition reverse (s : list Z) : list Z := if (1 <? length s)%nat then reverse_range s 0 (length s) else s.
Definition splice (s : list Z) (start end_ : nat) : list Z :=
  let end_ := if (length s <? end_)%nat then (length s - start)%nat else end_ in
  let offset := Z.of_nat start - Z.of_nat end_ in
  substr s start (Z.to_nat (if offset <? 0 then - offset else offset)).
Definition substring (s : list Z) (r : text_settle) : list Z :=
  if (length s <=? settle_start r)%nat then []
  else
    let offset := if (length s <? settle_end r)%nat then Z.of_nat (length s - settle_start r) else Z.of_nat (settle_end r) in
    let offset := Z.of_nat (settle_start r) - offset in
    substr s (settle_start r) (Z.to_nat (if offset <? 0 then - offset else offset)).
Definition fill_all (s : list Z) (symbol : Z) : list Z := map (fun _ => symbol) s.
Definition fill_count (symbol : Z) (count : nat) : list Z := repeat symbol count.
Definition fill_range (s : list Z) (symbol : Z) (start count : nat) : list Z :=
  let count := if (length s <? start + count)%nat then (length s - start)%nat else count in
  firstn start s ++ repeat symbol count ++ skipn (start + count) s.

Definition to_upper (s : list Z) : list Z := map toupper s.
Definition to_lower (s : list Z) : list Z := map tolower s.
Definition replace_char_range (s : list Z) (from to : Z) (position count : nat) : list Z :=
  firstn position s ++ map (fun c => if c =? from then to else c) (substr s position count) ++ skipn (position + count) s.

(** ** Escaping *)

(** The letter that stands for a control character, and back. *)
Definition escape_letter (v : Z) : option Z :=
  if v =? 10 then Some 110 else if v =? 9 then Some 116 else if v =? 11 then Some 118 else if v =? 8 then Some 98
  else if v =? 13 then Some 114 else if v =? 12 then Some 102 else if v =? 7 then Some 97 else None.
Definition unescape_letter (v : Z) : option Z :=
  if v =? 110 then Some 10 else if v =? 116 then Some 9 else if v =? 118 then Some 11 else if v =? 98 then Some 8
  else if v =? 114 then Some 13 else if v =? 102 then Some 12 else if v =? 97 then Some 7 else None.

Fixpoint escape_loop (fuel : nat) (other : list Z) (i : nat) : option (list Z) :=
  match fuel with
  | O => None
  | S f =>
      if (i <? length other)%nat then
        let v := at_ other i in
        if v =? 34 then
          if (0 <? i)%nat && (at_ other (i - 1) =? 92) then escape_loop f other (i + 1)
          else escape_loop f (insert_at other i [92]) (i + 2)
        else match escape_letter v with
             | Some l => escape_loop f (insert_at (set_byte other i l) i [92]) (i + 2)
             | None => escape_loop f other (i + 1)
             end
      else Some other
  end.
Definition escape (other : list Z) : option (list Z) := escape_loop (S (length other)) other 0.

Fixpoint unescape_loop (fuel : nat) (other : list Z) (i : nat) : option (list Z) :=
  match fuel with
  | O => None
  | S f =>
      if (i <? length other)%nat then
        if negb (at_ other i =? 92) || (length other <=? i + 1)%nat then unescape_loop f other (i + 1)
        else match unescape_letter (at_ other (i + 1)) with
             | Some v => unescape_loop f (erase_count (set_byte other (i + 1) v) i 1) (i + 1)
             | None => unescape_loop f other (i + 1)
             end
      else Some other
  end.
Definition unescape (other : list Z) : option (list Z) := unescape_loop (S (length other)) other 0.

Fixpoint escape_print_loop (fuel : nat) (other : list Z) (i : nat) : option (list Z) :=
  match fuel with
  | O => None
  | S f =>
      if (i <? length other)%nat then
        if negb (at_ other i =? 37) then escape_print_loop f other (i + 1)
        else if (i + 1 <? length other)%nat then
          if negb (at_ other (i + 1) =? 37) then escape_print_loop f (insert_at other i [37]) (i + 2)
          else escape_print_loop f other (i + 1)
        else escape_print_loop f (other ++ [37]) (i + 2)
      else Some other
  end.
Definition escape_print (other : list Z) : option (list Z) := escape_print_loop (S (length other)) other 0.

(** ** Searching text *)

Fixpoint prefix_of (n h : list Z) : bool :=
  match n, h with
  | [], _ => true
  | c :: n', b :: h' => (c =? b) && prefix_of n' h'
  | _ :: _, [] => false
  end.
Fixpoint strstr (h n : list Z) (i : nat) : option nat :=
  if prefix_of n h then Some i else match h with [] => None | _ :: h' => strstr h' n (S i) end.
Definition not_found (other : list Z) : text_settle := mk_settle (length other) (length other) false.
Definition find_text (other needle : list Z) (offset : nat) : text_settle :=
  match other with
  | [] => not_found other
  | _ =>
      if (length other <=? offset)%nat then not_found other
      else match strstr (cstr (skipn offset other)) (cstr needle) offset with
           | Some set => mk_settle set (set + length needle) true
           | None => not_found other
           end
  end.

(** A backward search: the last index below [size] where [p] holds. *)
Fixpoint last_below (p : nat -> bool) (size : nat) : option nat :=
  match size with O => None | S i => if p i then Some i else last_below p i end.
Definition reverse_search (p : nat -> bool) (other : list Z) (offset : nat) : text_settle :=
  match other with
  | [] => not_found other
  | _ => if (length other <=? offset)%nat then not_found other
         else settle_of other (last_below p (length other - offset))
  end.
Definition unescaped_at (other : list Z) (needle : Z) (i : nat) : bool :=
  (at_ other i =? needle) && ((Z.of_nat i - 1 <? 0) || negb (at_ other (i - 1) =? 92)).
Definition reverse_find_char (other : list Z) (needle : Z) (offset : nat) : text_settle :=
  reverse_search (fun i => at_ other i =? needle) other offset.
Definition reverse_find_unescaped (other : list Z) (needle : Z) (offset : nat) : text_settle :=
  reverse_search (unescaped_at other needle) other offset.
Definition reverse_find_of (other needle : list Z) (offset : nat) : text_settle :=
  reverse_search (fun i => one_of needle (at_ other i)) other offset.
Fixpoint first_index (p : nat -> bool) (count i : nat) : option nat :=
  match count with O => None | S n => if p i then Some i else first_index p n (S i) end.
Definition find_unescaped (other : list Z) (needle : Z) (offset : nat) : text_settle :=
  settle_of other (first_index (unescaped_at other needle) (length other - offset) offset).

(** ** Replacing *)

(** The common loop of [replace], [replace_of] and [replace_not_of]: [search] finds the next match. *)
Fixpoint replace_loop (fuel : nat) (search : list Z -> nat -> text_settle) (to other : list Z) (offset : nat) :
    option (list Z) :=
  match fuel with
  | O => None
  | S f =>
      let result := search other offset in
      if found result then
        let other := erase_offsets other (settle_start result) (settle_end result) in
        let other := insert_at other (settle_start result) to in
        replace_loop f search to other (settle_start result + length to)
      else Some other
  end.
Definition replace (other from to : list Z) (start : nat) : option (list Z) :=
  replace_loop (S (length other)) (fun s o => find_text s from o) to other start.
Definition replace_of (other chars to : list Z) (start : nat) : option (list Z) :=
  replace_loop (S (length other)) (fun s o => find_of s chars o) to other start.
Definition replace_not_of (other chars to : list Z) (start : nat) : option (list Z) :=
  replace_loop (S (length other)) (fun s o => find_not_of s chars o) to other start.

(** ** Splitting *)

Fixpoint split_by (fuel : nat) (search : list Z -> nat -> text_settle) (limit : option nat)
    (output : list (list Z)) (other : list Z) (offset : nat) : option (list (list Z)) :=
  match fuel with
  | O => None
  | S f =>
      let room := match limit with Some count => (length output <? count)%nat | None => true end in
      let result := search other offset in
      if found result && room then
        split_by f search limit (output ++ [substr other offset (settle_start result - offset)]) other (settle_end result)
      else Some (if (offset <? length other)%nat && room then output ++ [skipn offset other] else output)
  end.
Definition split_with (search : list Z -> nat -> text_settle) (limit : option nat) (output : list (list Z))
    (other : list Z) (start : nat) : option (list (list Z)) :=
  if (length other <=? start)%nat then Some output else split_by (S (length other)) search limit output other start.
Definition pm_split_text (output : list (list Z)) (other with_ : list Z) (start : nat) :=
  split_with (fun s o => find_text s with_ o) None output other start.
Definition pm_split_max (output : list (list Z)) (other : list Z) (with_ : Z) (count start : nat) :=
  split_with (fun s o => find_char s with_ o) (Some count) output other start.
Definition pm_split_of (output : list (list Z)) (other with_ : list Z) (start : nat) :=
  split_with (fun s o => find_of s with_ o) None output other start.
Definition pm_split_not_of (output : list (list Z)) (other with_ : list Z) (start : nat) :=
  split_with (fun s o => find_not_of s with_ o) None output other start.
Definition split (other : list Z) (with_ : Z) (start : nat) := pm_split [] other with_ start.
Definition split_text (other with_ : list Z) (start : nat) := pm_split_text [] other with_ start.
Definition split_max (other : list Z) (with_ : Z) (count start : nat) := pm_split_max [] other with_ count start.
Definition split_of (other with_ : list Z) (start : nat) := pm_split_of [] other with_ start.
Definition split_not_of (other with_ : list Z) (start : nat) := pm_split_not_of [] other with_ start.

(** ** Predicates *)

Definition count_lines (other : list Z) : nat := S (count_occ Z.eq_dec other 10).
Definition is_not_preceded_by_escape (buffer : list Z) (offset : nat) (esc : Z) : bool :=
  if (offset <? 1)%nat || negb (at_ buffer (offset - 1) =? esc) then true
  else (1 <? offset)%nat && (at_ buffer (offset - 2) =? esc).
Definition is_whitespace (symbol : Z) : bool := isspace symbol.
Definition is_numeric (symbol : Z) : bool := isdigit symbol.
Definition is_alphabetic (symbol : Z) : bool := isalpha symbol.
Definition is_alphanum (symbol : Z) : bool := isalnum symbol.
Definition is_empty_or_whitespace (other : list Z) : bool := forallb is_whitespace other.
Definition is_preceded_by (other : list Z) (at0 : nat) (of_ : list Z) : bool :=
  if (at0 =? 0)%nat || (length other <=? at0 - 1)%nat then false else one_of of_ (at_ other (at0 - 1)).
Definition is_followed_by (other : list Z) (at0 : nat) (of_ : list Z) : bool :=
  if (length other <=? at0 + 1)%nat then false else one_of of_ (at_ other (at0 + 1)).
Definition starts_with (other value : list Z) (offset : nat) : bool :=
  if (length other <? length value)%nat then false
  else forallb (fun i => at_ value i =? at_ other i) (seq offset (length value - offset)).
Definition starts_of (other value : list Z) (offset : nat) : bool :=
  if (length other <=? offset)%nat then false else one_of value (at_ other offset).
Definition starts_not_of (other value : list Z) (offset : nat) : bool :=
  if (length other <=? offset)%nat then false else negb (one_of value (at_ other offset)).
Definition ends_with (other value : list Z) : bool :=
  match other with
  | [] => false
  | _ => if (length other <? length value)%nat then false
         else bool_decide (cstr (skipn (length other - length value) other) = cstr value)
  end.
Definition ends_with_char (other : list Z) (value : Z) : bool :=
  match other with [] => false | _ => List.last other 0 =? value end.
Definition ends_of (other value : list Z) : bool :=
  match other with [] => false | _ => one_of value (List.last other 0) end.
Definition ends_not_of (other value : list Z) : bool :=
  match other with [] => true | _ => negb (one_of value (List.last other 0)) end.
Definition consists_of (other alphabet : list Z) : bool := forallb (one_of alphabet) other.
Definition has_sign (other : list Z) : bool :=
  match other with c :: _ => (c =? 43) || (c =? 45) | [] => false end.
Definition unsigned (other : list Z) : list Z := if has_sign other then tl other else other.
Definition has_integer (other : list Z) : bool :=
  match other with
  | [] => false
  | c :: rest =>
      if bool_decide (rest = []) && negb (is_numeric c) then false
      else forallb is_numeric (unsigned other) && (0 <? length (unsigned other))%nat
  end.
Fixpoint number_loop (rest : list Z) (digits points : nat) : bool :=
  match rest with
  | [] => (0 <? digits)%nat && (points <? 2)%nat
  | v :: rest' =>
      if is_numeric v then number_loop rest' (S digits) points
      else if (points =? 0)%nat && (v =? 46) && negb (bool_decide (rest' = [])) then number_loop rest' digits (S points)
      else false
  end.
Definition has_number (other : list Z) : bool :=
  match other with
  | [] => false
  | c :: rest => if bool_decide (rest = []) && negb (is_numeric c) then false else number_loop (unsigned other) 0 0
  end.
(** [None]: the second [substr] starts behind the end and throws. *)
Definition has_decimal (other : list Z) : option bool :=
  let f := find_char other 46 0 in
  if negb (found f) then Some (has_integer other && (19 <=? length other)%nat)
  else
    let D1 := substr other 0 (settle_end f - 1) in
    if bool_decide (D1 = []) || negb (has_integer D1) then Some false
    else if (length other <? settle_end f + 1)%nat then None
    else
      let D2 := substr other (settle_end f + 1) (length other - settle_end f - 1) in
      if bool_decide (D2 = []) || negb (has_integer D2) then Some false
      else Some ((19 <=? length D1)%nat || (2 <? length D2)%nat).
Definition is_numeric_or_dot (symbol : Z) : bool := (symbol =? 46) || is_numeric symbol.
Definition is_numeric_or_dot_or_whitespace (symbol : Z) : bool := is_whitespace symbol || is_numeric_or_dot symbol.
Definition is_hex (symbol : Z) : bool :=
  is_numeric symbol || ((97 <=? symbol) && (symbol <=? 102)) || ((65 <=? symbol) && (symbol <=? 70)).
Definition is_hex_or_dot (symbol : Z) : bool := (symbol =? 46) || is_hex symbol.
Definition is_hex_or_dot_or_whitespace (symbol : Z) : bool := is_whitespace symbol || is_hex_or_dot symbol.

(** [None]: an empty text is read at its first index. *)
Fixpoint compare_loop (size : nat) (value1 value2 : list Z) : option Z :=
  match value1, value2 with
  | a :: v1, b :: v2 =>
      let diff := tolower a - tolower b in
      if (diff =? 0) && (1 <? size)%nat then compare_loop (size - 1) v1 v2 else Some diff
  | _, _ => None
  end.
Definition case_compare (value1 value2 : list Z) : option Z :=
  compare_loop (Nat.min (length value1) (length value2)) value1 value2.

(** ** Wide characters *)

(** The low bits [m] of a continuation byte, shifted; [None] is the exception of [at] behind the end. *)
Definition cont (other : list Z) (i : nat) (shift : Z) : option Z :=
  if (i <? length other)%nat then Some (Z.shiftl (Z.land (at_ other i) 63) shift) else None.
Definition wide_at (other : list Z) (i : nat) : option (Z * nat) :=
  let c := at_ other i in
  let b := fun m => Z.land c m in
  if b 128 =? 0 then Some (c, 1%nat)
  else if b 224 =? 192 then
    c1 ← cont other (i + 1) 0; Some (Z.lor (Z.shiftl (b 31) 6) c1, 2%nat)
  else if b 240 =? 224 then
    c1 ← cont other (i + 1) 6; c2 ← cont other (i + 2) 0;
    Some (Z.lor (Z.lor (Z.shiftl (b 15) 12) c1) c2, 3%nat)
  else if b 248 =? 240 then
    c1 ← cont other (i + 1) 12; c2 ← cont other (i + 2) 6; c3 ← cont other (i + 3) 0;
    Some (Z.lor (Z.lor (Z.lor (Z.shiftl (b 7) 18) c1) c2) c3, 4%nat)
  else if b 252 =? 248 then
    Some (Z.lor (Z.lor (Z.lor (Z.lor (Z.shiftl (b 3) 24) (Z.shiftl (b 63) 18)) (Z.shiftl (b 63) 12)) (Z.shiftl (b 63) 6)) (b 63), 5%nat)
  else if b 254 =? 252 then
    Some (Z.lor (Z.lor (Z.lor (Z.lor (Z.lor (Z.shiftl (b 1) 30) (Z.shiftl (b 63) 24)) (Z.shiftl (b 63) 18)) (Z.shiftl (b 63) 12)) (Z.shiftl (b 63) 6)) (b 63), 6%nat)
  else Some (i8 c, 1%nat).
Fixpoint wide_loop (fuel : nat) (other : list Z) (i : nat) : option (list Z) :=
  match fuel with
  | O => None
  | S f =>
      if (i <? length other)%nat then
        '(w, n) ← wide_at other i; ws ← wide_loop f other (i + n); Some (w :: ws)
      else Some []
  end.
Definition to_wide (other : list Z) : option (list Z) := wide_loop (S (length other)) other 0.

(** ** Wildcard matching

    [match] with its alternatives, [text] read with a zero byte behind its end.  [None] when the fuel is
    used up. *)
Fixpoint strcspn_slash (s : list Z) : nat :=
  match s with [] => 0%nat | b :: s' => if (b =? 47) || (b =? 0) then 0%nat else S (strcspn_slash s') end.
Fixpoint match_text (fuel : nat) (pattern text : list Z) : option Z :=
  match fuel with
  | O => None
  | S f =>
      match first_from (Z.eqb 124) pattern 0 with
      | Some token =>
          output ← match_text f (firstn token pattern) text;
          if 0 <? output then Some output else match_text f (skipn (S token) pattern) text
      | None => match_loop f pattern text 0
      end
  end
with match_loop (fuel : nat) (pattern text : list Z) (j : nat) : option Z :=
  match fuel with
  | O => None
  | S f =>
      match pattern with
      | [] => Some (Z.of_nat j)
      | p :: pattern' =>
          if (p =? 63) && negb (at_ text j =? 0) then match_loop f pattern text j
          else if p =? 36 then Some (if at_ text j =? 0 then Z.of_nat j else -1)
          else if p =? 42 then
            let '(rest, offset) :=
              match pattern' with
              | 42 :: pattern'' => (pattern'', length (skipn j text))
              | _ => (pattern', strcspn_slash (skipn j text))
              end in
            match rest with
            | [] => Some (Z.of_nat j + Z.of_nat offset)
            | _ => match_star f rest text j offset
            end
          else if negb (tolower p =? tolower (at_ text j)) then Some (-1)
          else match_loop f pattern' text (j + 1)
      end
  end
with match_star (fuel : nat) (rest text : list Z) (j offset : nat) : option Z :=
  match fuel with
  | O => None
  | S f =>
      result ← match_text f rest (skipn (j + offset) text);
      if result =? -1 then match offset with O => Some (-1) | S offset' => match_star f rest text j offset' end
      else Some (Z.of_nat j + result + Z.of_nat offset)
  end.

(** ** Replacing: what the loop computes *)

Section Replace.
Context (from to : list Z).

(** [from] replaced from left to right; [skip] bytes of a match are still to be passed over. *)
Fixpoint subst_all (skip : nat) (h : list Z) : list Z :=
  match h with
  | [] => []
  | c :: h' =>
      match skip with
      | S k => subst_all k h'
      | O => if prefix_of from h then to ++ subst_all (length from - 1) h' else c :: subst_all 0 h'
      end
  end.

Lemma prefix_of_app n h : prefix_of n h = true <-> exists b, h = n ++ b.
Proof.
  revert h. induction n as [|c n IH]; intros h; cbn [prefix_of]; [split; [now exists h|reflexivity]|].
  destruct h as [|b h]; [split; [discriminate|now intros [? ?]]|]. rewrite andb_true_iff, IH, Z.eqb_eq. split.
  - intros [-> [r ->]]. now exists r.
  - intros [r E]. injection E as -> ->. split; [reflexivity|now exists r].
Qed.

Lemma subst_skip k a b : length a = k -> subst_all k (a ++ b) = subst_all 0 b.
Proof. revert a. induction k as [|k IH]; intros [|c a] L; try discriminate; [reflexivity|]. cbn. apply IH. now injection L. Qed.

Hypothesis from_ne : from <> [].

Lemma subst_match b : subst_all 0 (from ++ b) = to ++ subst_all 0 b.
Proof.
  assert (exists c n, from = c :: n) as (c & n & E) by (destruct from; [congruence|eauto]).
  replace (from ++ b) with (c :: n ++ b) by now rewrite E. cbn [subst_all].
  rewrite (proj2 (prefix_of_app from (c :: n ++ b))) by (exists b; now rewrite E).
  f_equal. apply subst_skip. rewrite E. cbn. lia.
Qed.

Lemma strstr_subst h i :
  match strstr h from i with
  | Some j => exists a b, h = a ++ from ++ b /\ j = (i + length a)%nat /\ subst_all 0 h = a ++ to ++ subst_all 0 b
  | None => subst_all 0 h = h
  end.
Proof.
  revert i. induction h as [|c h IH]; intros i; cbn [strstr].
  - destruct (prefix_of from []) eqn:P; [|reflexivity]. apply prefix_of_app in P as [b P].
    symmetry in P. now apply app_eq_nil in P as [-> _].
  - destruct (prefix_of from (c :: h)) eqn:P.
    + apply prefix_of_app in P as [b P]. exists [], b. rewrite P.
      split; [reflexivity|]. split; [cbn; lia|]. apply subst_match.
    + cbn [subst_all]. rewrite P. specialize (IH (S i)). destruct (strstr h from (S i)) as [j|].
      * destruct IH as (a & b & -> & -> & ->). exists (c :: a), b.
        split; [reflexivity|]. split; [cbn; lia|reflexivity].
      * now rewrite IH.
Qed.

Lemma cstr_no0 s : Forall (fun b => b <> 0) s -> cstr s = s.
Proof. induction 1 as [|b s H _ IH]; [reflexivity|]. cbn. destruct (Z.eqb_spec b 0); [contradiction|]. now rewrite IH. Qed.

Hypothesis from_text : Forall (fun b => b <> 0) from.

Lemma find_text_spec pre rest : Forall (fun b => b <> 0) rest ->
  find_text (pre ++ rest) from (length pre) =
  match strstr rest from (length pre) with Some j => mk_settle j (j + length from) true | None => not_found (pre ++ rest) end.
Proof.
  intros H. unfold find_text. destruct rest as [|b rest].
  - rewrite app_nil_r. destruct pre as [|p pre].
    + cbn. destruct from; [congruence|reflexivity].
    + rewrite Nat.leb_refl. cbn [strstr]. destruct from; [congruence|]. reflexivity.
  - destruct (pre ++ b :: rest) as [|x xs] eqn:E; [now destruct pre|]. rewrite <- E.
    destruct (Nat.leb_spec (length (pre ++ b :: rest)) (length pre)) as [C|_]; [rewrite length_app in C; cbn in C; lia|].
    now rewrite drop_app_length, !cstr_no0.
Qed.

Lemma replace_loop_spec fuel pre rest :
  (length rest < fuel)%nat -> Forall (fun b => b <> 0) rest ->
  replace_loop fuel (fun s o => find_text s from o) to (pre ++ rest) (length pre) = Some (pre ++ subst_all 0 rest).
Proof.
  revert pre rest. induction fuel as [|f IH]; intros pre rest Hf H0; [lia|]. cbn [replace_loop].
  rewrite find_text_spec by assumption. pose proof (strstr_subst rest (length pre)) as S.
  destruct (strstr rest from (length pre)) as [j|]; cbn [found not_found]; [|now rewrite S].
  destruct S as (a & b & -> & -> & ->). cbn [settle_start settle_end].
  assert (L : (0 < length from)%nat) by (destruct from; [congruence|cbn; lia]).
  assert (E : insert_at (erase_offsets (pre ++ a ++ from ++ b) (length pre + length a) (length pre + length a + length from))
    (length pre + length a) to = (pre ++ a ++ to) ++ b).
  { unfold erase_offsets, erase_count, insert_at.
    replace (length pre + length a + length from - (length pre + length a))%nat with (length from) by lia.
    rewrite !(app_assoc pre a), <- length_app, take_app_length.
    rewrite (app_assoc (pre ++ a) from b), <- (length_app (pre ++ a) from), drop_app_length.
    rewrite take_app_length, drop_app_length. now rewrite <- !app_assoc. }
  rewrite E. replace (length pre + length a + length to)%nat with (length (pre ++ a ++ to)) by (rewrite !length_app; lia).
  rewrite IH; [now rewrite <- !app_assoc| |].
  - rewrite !length_app in Hf. lia.
  - now apply Forall_app in H0 as [_ [_ H0]%Forall_app].
Qed.
End Replace.

(** ** Splitting: pieces and separators *)

Fixpoint join (c : Z) (pieces : list (list Z)) : list Z :=
  match pieces with [] => [] | [p] => p | p :: ps => p ++ c :: join c ps end.

Lemma first_from_spec p rest i :
  match first_from p rest i with
  | Some j => exists a b r, rest = a ++ b :: r /\ j = (i + length a)%nat /\ p b = true /\ Forall (fun x => p x = false) a
  | None => Forall (fun x => p x = false) rest
  end.
Proof.
  revert i. induction rest as [|b rest IH]; intros i; cbn [first_from]; [constructor|].
  destruct (p b) eqn:E.
  - exists [], b, rest. split; [reflexivity|]. split; [cbn; lia|]. split; [assumption|constructor].
  - specialize (IH (S i)). destruct (first_from p rest (S i)) as [j|].
    + destruct IH as (a & x & r & -> & -> & Hx & Ha). exists (b :: a), x, r. split; [reflexivity|]. split; [cbn; lia|].
      split; [assumption|now constructor].
    + now constructor.
Qed.

Lemma split_loop_spec c fuel : forall output pre rest,
  (length rest < fuel)%nat ->
  exists pieces, split_loop fuel output (pre ++ rest) c (length pre) = Some (output ++ pieces) /\
    Forall (fun p => ~ In c p) pieces /\
    (rest = [] /\ pieces = [] \/ rest = join c pieces \/ (pieces <> [] /\ rest = join c pieces ++ [c])).
Proof.
  induction fuel as [|f IH]; intros output pre rest Hf; [lia|]. cbn [split_loop]. unfold find_char.
  rewrite drop_app_length. pose proof (first_from_spec (Z.eqb c) rest (length pre)) as S.
  destruct (first_from (Z.eqb c) rest (length pre)) as [j|]; cbn [settle_of found].
  - destruct S as (a & b & r & -> & -> & Hb & Ha). apply Z.eqb_eq in Hb as <-. cbn [settle_start settle_end].
    assert (E : substr (pre ++ a ++ c :: r) (length pre) (length pre + length a - length pre) = a).
    { unfold substr. replace (length pre + length a - length pre)%nat with (length a) by lia.
      now rewrite drop_app_length, take_app_length. }
    rewrite E. destruct (IH (output ++ [a]) (pre ++ a ++ [c]) r) as (ps & E' & Hps & C).
    { rewrite length_app in Hf. cbn in Hf. lia. }
    replace (pre ++ a ++ c :: r) with ((pre ++ a ++ [c]) ++ r) by (rewrite <- !app_assoc; reflexivity).
    replace (length pre + length a + 1)%nat with (length (pre ++ a ++ [c])) by (rewrite !length_app; cbn; lia).
    exists (a :: ps). rewrite E', <- app_assoc. split; [reflexivity|].
    assert (Na : ~ In c a).
    { rewrite List.Forall_forall in Ha. intros I. apply Ha in I. now rewrite Z.eqb_refl in I. }
    split; [now constructor|]. right. destruct C as [[-> ->]|[C|[N C]]].
    + right. now split.
    + destruct ps as [|p ps]; [cbn in C; subst r; right; now split|]. left. cbn [join]. now rewrite C.
    + right. split; [discriminate|]. destruct ps as [|p ps]; [congruence|]. cbn [join]. rewrite C, <- app_assoc. reflexivity.
  - assert (N : ~ In c rest).
    { rewrite List.Forall_forall in S. intros I. apply S in I. now rewrite Z.eqb_refl in I. }
    destruct rest as [|b rest].
    + rewrite app_nil_r, Nat.ltb_irrefl. exists []. rewrite app_nil_r. split; [reflexivity|]. split; [constructor|now left].
    + destruct (Nat.ltb_spec (length pre) (length (pre ++ b :: rest))) as [_|C]; [|rewrite length_app in C; cbn in C; lia].
      exists [b :: rest]. split; [now rewrite ?drop_app_length|]. split; [now constructor|]. right. now left.
Qed.

(** ** Wide characters: the decoder on what the encoder writes *)
Lemma lor_step x y k : 0 <= k -> 0 <= y < 64 ->
  Z.lor (Z.shiftl x (k + 6)) (Z.shiftl y k) = Z.shiftl (x * 64 + y) k.
Proof.
  intros Hk Hy. change (x * 64) with (x * 2 ^ 6). rewrite <- (lor_halves 6 x y) by (unfold fits; lia).
  rewrite Z.shiftl_lor. f_equal. rewrite <- Z.shiftl_mul_pow2, Z.shiftl_shiftl by lia. f_equal. lia.
Qed.

(** The masks of the decoder on a lead byte and on a continuation byte. *)
Definition lead_ok (a : Z) : bool :=
  (if a <? 128 then Z.land a 128 =? 0
   else negb (Z.land a 128 =? 0) &&
     (if (192 <=? a) && (a <? 224) then (Z.land a 224 =? 192) && (Z.land a 31 =? a - 192)
      else if (224 <=? a) && (a <? 240) then
        negb (Z.land a 224 =? 192) && (Z.land a 240 =? 224) && (Z.land a 15 =? a - 224)
      else if (240 <=? a) && (a <? 248) then
        negb (Z.land a 224 =? 192) && negb (Z.land a 240 =? 224) && (Z.land a 248 =? 240) && (Z.land a 7 =? a - 240)
      else if a <? 192 then Z.land a 63 =? a - 128 else true)).

Lemma lead_masks a : 0 <= a < 256 -> lead_ok a = true.
Proof. intros H. by_range a 256. Qed.

Ltac lead a :=
  let H := fresh in
  assert (H : lead_ok a = true) by (apply lead_masks; lia); unfold lead_ok in H;
  repeat match type of H with
         | context [?x <? ?y] => destruct (Z.ltb_spec x y); try (exfalso; lia)
         | context [?x <=? ?y] => destruct (Z.leb_spec x y); try (exfalso; lia)
         end;
  cbn [andb] in H; bools.

Lemma cont_value b : 128 <= b < 192 -> Z.land b 63 = b - 128.
Proof. intros Hb. lead b. assumption. Qed.

Lemma cont_at pre bs rest i shift b : nth_error bs i = Some b -> 128 <= b < 192 ->
  cont (pre ++ bs ++ rest) (length pre + i) shift = Some (Z.shiftl (b - 128) shift).
Proof.
  intros E Hb. assert (L : (i < length bs)%nat) by (apply nth_error_Some; congruence). unfold cont, at_.
  rewrite (proj2 (Nat.ltb_lt _ _)) by (rewrite !length_app; lia).
  rewrite app_nth2 by lia. replace (length pre + i - length pre)%nat with i by lia.
  rewrite app_nth1 by assumption. rewrite (nth_error_nth bs i 0 E). now rewrite cont_value.
Qed.

Lemma wide_at_spells pre bs rest code : utf8_spells bs code ->
  wide_at (pre ++ bs ++ rest) (length pre) = Some (code, length bs).
Proof.
  intros S. assert (At : forall a l, at_ (pre ++ (a :: l) ++ rest) (length pre) = a)
    by (intros; unfold at_; rewrite app_nth2, Nat.sub_diag by lia; reflexivity).
  destruct bs as [|a [|b [|c [|d [|]]]]]; cbn [utf8_spells] in S; try contradiction; unfold wide_at, continuation in *;
    rewrite At; cbv zeta; rewrite <- ?Nat.add_assoc.
  - destruct S as [Ha ->]. lead a. now rewrite (proj2 (Z.eqb_eq _ _)).
  - destruct S as (Ha & Hb & ->). lead a. rewrite (proj2 (Z.eqb_neq (Z.land a 128) 0)), (proj2 (Z.eqb_eq (Z.land a 224) 192)) by assumption.
    rewrite cont_at with (i := 1%nat) (b := b) by (reflexivity || assumption). cbn [mbind option_bind].
    replace (Z.land a 31) with (a - 192) by congruence. rewrite (lor_step _ _ 0) by lia. now rewrite Z.shiftl_0_r.
  - destruct S as (Ha & Hb & Hc & ->). lead a.
    rewrite (proj2 (Z.eqb_neq (Z.land a 128) 0)), (proj2 (Z.eqb_neq (Z.land a 224) 192)), (proj2 (Z.eqb_eq (Z.land a 240) 224)) by assumption.
    rewrite cont_at with (i := 1%nat) (b := b) by (reflexivity || assumption). rewrite cont_at with (i := 2%nat) (b := c) by (reflexivity || assumption).
    cbn [mbind option_bind]. replace (Z.land a 15) with (a - 224) by congruence.
    rewrite (lor_step _ _ 6), (lor_step _ _ 0), Z.shiftl_0_r by lia. do 2 f_equal. lia.
  - destruct S as (Ha & Hb & Hc & Hd & ->). lead a.
    rewrite (proj2 (Z.eqb_neq (Z.land a 128) 0)), (proj2 (Z.eqb_neq (Z.land a 224) 192)), (proj2 (Z.eqb_neq (Z.land a 240) 224)),
      (proj2 (Z.eqb_eq (Z.land a 248) 240)) by assumption.
    rewrite cont_at with (i := 1%nat) (b := b) by (reflexivity || assumption). rewrite cont_at with (i := 2%nat) (b := c) by (reflexivity || assumption).
    rewrite cont_at with (i := 3%nat) (b := d) by (reflexivity || assumption).
    cbn [mbind option_bind]. replace (Z.land a 7) with (a - 240) by congruence.
    rewrite (lor_step _ _ 12), (lor_step _ _ 6), (lor_step _ _ 0), Z.shiftl_0_r by lia. do 2 f_equal. lia.
Qed.

Lemma wide_loop_spells codes : Forall scalar_value codes -> forall fuel pre,
  (length (concat (map utf8 codes)) < fuel)%nat ->
  wide_loop fuel (pre ++ concat (map utf8 codes)) (length pre) = Some codes.
Proof.
  induction 1 as [|code codes Hc _ IH]; intros fuel pre Hf; (destruct fuel as [|f]; [lia|]); cbn [wide_loop map concat].
  - cbn [map concat]. now rewrite app_nil_r, Nat.ltb_irrefl.
  - apply utf8_scalar in Hc. assert (L : (0 < length (utf8 code))%nat) by (destruct (utf8 code); [destruct Hc|cbn; lia]).
    cbn [map concat] in Hf. rewrite length_app in Hf.
    rewrite (proj2 (Nat.ltb_lt _ _)) by (rewrite !length_app; lia).
    rewrite (wide_at_spells _ _ _ _ Hc). cbn [mbind option_bind].
    rewrite app_assoc, <- length_app, IH by lia. reflexivity.
Qed.

(** ** Properties *)

(** [replace] ends and replaces every occurrence, from left to right, also when the new text contains
    the old one: on texts without zero bytes the result is the scan [subst_all] of what stands behind
    [start], and without an occurrence nothing changes. *)
Theorem text_replace (other from to : list Z) (start : nat) :
  from <> [] -> Forall (fun b => b <> 0) from -> Forall (fun b => b <> 0) other -> (start <= length other)%nat ->
  replace other from to start = Some (firstn start other ++ subst_all from to 0 (skipn start other)) /\
  (strstr (skipn start other) from 0 = None -> replace other from to start = Some other).
Proof.
  intros Nf Hf Ho Hs.
  assert (E : replace other from to start = Some (firstn start other ++ subst_all from to 0 (skipn start other))).
  { unfold replace. rewrite <- (firstn_skipn start other) at 2.
    replace start with (length (firstn start other)) at 3 by (rewrite length_firstn; lia).
    apply replace_loop_spec; try assumption; [rewrite length_skipn; lia|].
    rewrite <- (firstn_skipn start other) in Ho. now apply Forall_app in Ho as [_ Ho]. }
  split; [exact E|]. intros N. rewrite E.
  pose proof (strstr_subst from to Nf (skipn start other) 0) as S. rewrite N in S. now rewrite S, firstn_skipn.
Qed.

Lemma text_replace_witness : replace (chars "a-b--c") (chars "-") (chars "--") 1 = Some (chars "a--b----c").
Proof.
  assert (N : forall s, forallb (fun b => negb (b =? 0)) s = true -> Forall (fun b => b <> 0) s).
  { intros s H. rewrite forallb_forall in H. apply List.Forall_forall. intros b Hb. apply H in Hb. lia. }
  rewrite (proj1 (text_replace (chars "a-b--c") (chars "-") (chars "--") 1 ltac:(discriminate)
    (N (chars "-") eq_refl) (N (chars "a-b--c") eq_refl) ltac:(cbn; lia))). reflexivity.
Defined.

(** Splitting on a character and joining again: [split] returns, no piece contains the separator, and
    the pieces joined by it are the text, up to one separator at the very end, which is dropped. *)
Theorem text_split_join (other : list Z) (c : Z) :
  exists pieces, split other c 0 = Some pieces /\ Forall (fun p => ~ In c p) pieces /\
    (other = join c pieces \/ other = join c pieces ++ [c]).
Proof.
  unfold split, pm_split. destruct (Nat.leb_spec (length other) 0) as [L|L].
  - exists []. destruct other; [|cbn in L; lia]. repeat split; [constructor|now left].
  - destruct (split_loop_spec c (S (length other)) [] [] other ltac:(lia)) as (ps & E & H & C).
    exists ps. split; [exact E|]. split; [exact H|]. destruct C as [[-> ->]|[C|[_ C]]]; [now left|now left|now right].
Qed.

(** UTF-8 text to wide characters: decoding what [codec::utf8] writes for any sequence of Unicode
    scalar values gives the sequence back. *)
Theorem wide_roundtrip (codes : list Z) :
  Forall scalar_value codes -> to_wide (concat (map utf8 codes)) = Some codes.
Proof. intros H. apply (wide_loop_spells codes H _ []). lia. Qed.

Lemma wide_roundtrip_witness : to_wide (concat (map utf8 [8364; 36; 128512])) = Some [8364; 36; 128512].
Proof. apply (wide_roundtrip [8364; 36; 128512]). repeat constructor; unfold scalar_value; lia. Defined.

(** A question mark before a character never matches: the loop does not advance past it. *)
Lemma match_question_loops fuel text j : at_ text j <> 0 -> match_loop fuel [63] text j = None.
Proof.
  intros H. induction fuel as [|f IH]; [reflexivity|]. cbn [match_loop Z.eqb Pos.eqb].
  destruct (Z.eqb_spec (at_ text j) 0); [contradiction|]. exact IH.
Qed.
