(* ===== verification/HttpMessage.v ===== *)
(** * HTTP messages (src/vitex/network/http.h, http.cpp)

    The header maps with case-insensitive keys, [request_frame] and [response_frame] with their accessors,
    the byte ranges a request asks for, and the writing of a message's head.  A header map is the list of
    its entries; the order of an unordered map is not specified, and the theorems hold for every order. *)
From S2P Require Import Prelude Text.

(** ** [kimv_unordered_map] *)

Definition kimv_unordered_map := list (list Z * list (list Z)).

Definition kimv_equal_to (left right : list Z) : bool :=
  ((length left =? length right)%nat) && equal_by tolower left right.

Fixpoint kimv_find (m : kimv_unordered_map) (key : list Z) : option (list (list Z)) :=
  match m with [] => None | (k, r) :: m' => if kimv_equal_to k key then Some r else kimv_find m' key end.

Fixpoint kimv_update (m : kimv_unordered_map) (key : list Z) (f : list (list Z) -> list (list Z)) :
    kimv_unordered_map :=
  match m with
  | [] => []
  | (k, r) :: m' => if kimv_equal_to k key then (k, f r) :: m' else (k, r) :: kimv_update m' key f
  end.

(** [operator[]]: an absent key is inserted with an empty vector. *)
Definition kimv_index (m : kimv_unordered_map) (key : list Z) : kimv_unordered_map :=
  match kimv_find m key with Some _ => m | None => m ++ [(key, [])] end.

(** The hash of a key folds its lower-case bytes, so equal keys have equal hashes. *)
Definition lfnv1a_hash (value : list Z) : Z :=
  fold_left (fun st b => u64 (Z.lxor st (tolower b) * 1099511628211)) value 14695981039346656037.

Definition cleanup_hash_map (m : kimv_unordered_map) : kimv_unordered_map :=
  if Z.of_nat (length m) <=? 48 then map (fun e => (fst e, [])) m else [].

Definition put_header (m : kimv_unordered_map) (label value : list Z) : kimv_unordered_map :=
  kimv_update (kimv_index m label) label (fun range => range ++ [value]).
Definition set_header (m : kimv_unordered_map) (label value : list Z) : kimv_unordered_map :=
  kimv_update (kimv_index m label) label (fun _ => [value]).
Definition compose_header (m : kimv_unordered_map) (label : list Z) : list Z :=
  match kimv_find m label with
  | None => []
  | Some r =>
      let result := concat (map (fun item => item ++ [44]) r) in
      match result with [] => result | _ => firstn (length result - 1) result end
  end.
Definition get_header_ranges (m : kimv_unordered_map) (label : list Z) : kimv_unordered_map * list (list Z) :=
  match kimv_find m label with Some r => (m, r) | None => (kimv_index m label, []) end.
Definition get_header_blob (m : kimv_unordered_map) (label : list Z) : option (list Z) :=
  match kimv_find m label with None | Some [] => None | Some r => Some (List.last r []) end.
Definition get_header (m : kimv_unordered_map) (label : list Z) : list Z :=
  match kimv_find m label with None | Some [] => [] | Some r => List.last r [] end.

(** ** Cookies and frames *)

Record cookie := mk_cookie {
  cookie_name : list Z; cookie_value : list Z; cookie_domain : list Z; cookie_path : list Z;
  cookie_same_site : list Z; cookie_expires : list Z; cookie_secure : bool; cookie_http_only : bool }.

Definition LABEL_SIZE : nat := 16.

(** A [char[LABEL_SIZE]] filled by [memset] and [memcpy]. *)
Definition label_of (value : list Z) : list Z :=
  firstn LABEL_SIZE value ++ repeat 0 (LABEL_SIZE - length value).

Record request_frame := mk_request {
  request_cookies : kimv_unordered_map; request_headers : kimv_unordered_map; request_query : list Z;
  request_path : list Z; request_location : list Z; request_referrer : list Z;
  request_method : list Z; request_version : list Z }.

Definition request_initial : request_frame :=
  mk_request [] [] [] [] [] [] (label_of (chars "GET")) (label_of (chars "HTTP/1.1")).

Definition request_with_headers (r : request_frame) (h : kimv_unordered_map) : request_frame :=
  mk_request (request_cookies r) h (request_query r) (request_path r) (request_location r) (request_referrer r)
    (request_method r) (request_version r).
Definition request_set_method (r : request_frame) (value : list Z) : request_frame :=
  mk_request (request_cookies r) (request_headers r) (request_query r) (request_path r) (request_location r)
    (request_referrer r) (label_of value) (request_version r).
Definition request_set_version (r : request_frame) (major minor : Z) : request_frame :=
  mk_request (request_cookies r) (request_headers r) (request_query r) (request_path r) (request_location r)
    (request_referrer r) (request_method r) (label_of (chars "HTTP/" ++ size_to_string major ++ [46] ++ size_to_string minor)).
Definition request_cleanup (r : request_frame) : request_frame :=
  mk_request (cleanup_hash_map (request_cookies r)) (cleanup_hash_map (request_headers r)) [] [] [] []
    (label_of []) (label_of []).
Definition request_put_header (r : request_frame) (label value : list Z) : request_frame :=
  request_with_headers r (put_header (request_headers r) label value).
Definition request_set_header (r : request_frame) (label value : list Z) : request_frame :=
  request_with_headers r (set_header (request_headers r) label value).
Definition request_get_header (r : request_frame) (label : list Z) : list Z := get_header (request_headers r) label.
Definition request_get_cookie (r : request_frame) (key : list Z) : list Z := get_header (request_cookies r) key.

Record response_frame := mk_response {
  response_headers : kimv_unordered_map; response_cookies : list cookie; response_status_code : Z;
  response_error : bool }.

Definition response_initial : response_frame := mk_response [] [] (-1) false.
Fixpoint replace_cookie (cookies : list cookie) (value : cookie) : option (list cookie) :=
  match cookies with
  | [] => None
  | c :: cs =>
      if case_equals (cstr (cookie_name c)) (cstr (cookie_name value)) then Some (value :: cs)
      else cs' ← replace_cookie cs value; Some (c :: cs')
  end.
Definition response_set_cookie (r : response_frame) (value : cookie) : response_frame :=
  mk_response (response_headers r)
    match replace_cookie (response_cookies r) value with
    | Some cs => cs
    | None => response_cookies r ++ [value]
    end (response_status_code r) (response_error r).
Definition response_get_cookie (r : response_frame) (key : list Z) : option cookie :=
  List.find (fun c => case_equals (cstr (cookie_name c)) key) (response_cookies r).
Definition response_cleanup (r : response_frame) : response_frame :=
  mk_response (cleanup_hash_map (response_headers r)) [] (-1) false.
Definition response_put_header (r : response_frame) (label value : list Z) : response_frame :=
  mk_response (put_header (response_headers r) label value) (response_cookies r) (response_status_code r)
    (response_error r).
Definition response_set_header (r : response_frame) (label value : list Z) : response_frame :=
  mk_response (set_header (response_headers r) label value) (response_cookies r) (response_status_code r)
    (response_error r).
Definition response_is_undefined (r : response_frame) : bool := response_status_code r <=? 0.
Definition response_is_ok (r : response_frame) : bool :=
  (200 <=? response_status_code r) && (response_status_code r <? 400).

(** ** Byte ranges *)

(** [npos] is the size_t -1 that stands for an absent bound. *)
Definition npos : Z := 2 ^ 64 - 1.

(** The digits before the hyphen at index [start], counted backwards.  The loop condition reads the byte
    before the one it stands at even at the front of the string: [before] is what it finds there. *)
Definition byte_at (before : Z) (item : list Z) (i : Z) : Z := if i <? 0 then before else at_ item (Z.to_nat i).
Fixpoint left_digits (fuel : nat) (before : Z) (item : list Z) (start left_size : Z) : Z :=
  match fuel with
  | O => left_size
  | S f =>
      if isdigit (byte_at before item (start - left_size - 1)) && (left_size <=? start - 1)
      then left_digits f before item start (left_size + 1) else left_size
  end.
Definition range_start (before : Z) (item : list Z) (start : nat) : Z :=
  if (0 <? start)%nat && isdigit (at_ item (start - 1)) then
    let left_size := Z.to_nat (left_digits start before item (Z.of_nat start) 1) in
    match from_string_size (substr item (start - left_size) left_size) with Some from => from | None => npos end
  else npos.
Fixpoint right_digits (s : list Z) : nat :=
  match s with [] => 0%nat | b :: s' => if negb (b =? 0) && isdigit b then S (right_digits s') else 0%nat end.
Definition range_end (item : list Z) (start end_ : nat) : Z :=
  if (end_ <? length item)%nat then
    let right_size := right_digits (skipn (start + 1) item) in
    if (0 <? right_size)%nat then
      match from_string_size (substr item (start + 1) right_size) with Some to => to | None => npos end
    else npos
  else npos.
Definition range_of_item (before : Z) (item : list Z) : list (Z * Z) :=
  let result := find_char item 45 0 in
  if found result then
    let content_start := range_start before item (settle_start result) in
    let content_end := range_end item (settle_start result) (settle_end result) in
    if negb (content_start =? npos) || negb (content_end =? npos) then [(content_start, content_end)] else []
  else [].
Definition get_ranges (before : Z) (r : request_frame) : list (Z * Z) :=
  match kimv_find (request_headers r) (chars "Range") with
  | None => []
  | Some items => concat (map (range_of_item before) items)
  end.

(** [get_range] changes the range it is given and returns the offset and the length to send. *)
Definition get_range (range : Z * Z) (content_length : Z) : (Z * Z) * (Z * Z) :=
  let '(first, second) := range in
  if (first =? npos) && (second =? npos) then (range, (0, content_length)) else
  let '(first, second) :=
    if first =? npos then
      let second := if content_length <? second then 0 else second in
      (u64 (content_length - second), content_length)
    else ((if content_length <? first then content_length else first), second) in
  let second := if second =? npos then content_length
                else if content_length <? second then content_length else second in
  let first := if second <? first then second else first in
  ((first, second), (first, u64 (second - first))).

Definition construct_content_range (offset len content_length : Z) : list Z :=
  chars "bytes " ++ size_to_string offset ++ [45] ++ size_to_string (u64 (offset + len)) ++ [47] ++ size_to_string content_length.

(** ** Writing the head of a message *)

Definition crlf : list Z := [13; 10].
Definition header_line (key payload : list Z) : list Z := key ++ chars ": " ++ payload ++ crlf.
Definition header_lines (m : kimv_unordered_map) : list Z :=
  concat (map (fun item => concat (map (header_line (fst item)) (snd item))) m).
Definition append_field (label value : list Z) : list Z := match value with [] => [] | _ => label ++ value end.
Definition cookie_line (item : cookie) : list Z :=
  match cookie_name item with
  | [] => []
  | _ =>
      chars "Set-Cookie: " ++ cookie_name item ++ chars "=" ++ cookie_value item ++
      append_field (chars "; expires=") (cookie_expires item) ++
      append_field (chars "; domain=") (cookie_domain item) ++
      append_field (chars "; path=") (cookie_path item) ++
      append_field (chars "; same_site=") (cookie_same_site item) ++
      (if cookie_secure item then chars "; SameSite" else []) ++
      (if cookie_http_only item then chars "; HttpOnly" else []) ++ crlf
  end.
Definition construct_head_full (request : request_frame) (response : response_frame) (is_request : bool)
    (buffer : list Z) : list Z :=
  if is_request then buffer ++ header_lines (request_headers request)
  else buffer ++ header_lines (response_headers response) ++ concat (map cookie_line (response_cookies response)).
Definition construct_head_uncache (buffer : list Z) : list Z :=
  buffer ++ firstn 102 (chars "Cache-Control: no-cache, no-store, must-revalidate, private, max-age=0" ++ crlf ++
    chars "Pragma: no-cache" ++ crlf ++ chars "Expires: 0" ++ crlf).
Definition construct_head_cache (static_file_max_age : Z) (buffer : list Z) : list Z :=
  if z2b static_file_max_age
  then buffer ++ chars "Cache-Control: max-age=" ++ size_to_string static_file_max_age ++ crlf
  else construct_head_uncache buffer.

(** The request line and head a client sends, from [client::send]. *)
Definition request_line (r : request_frame) : list Z :=
  let location := match request_location r with [] => chars "/" | l => l end in
  match request_query r with
  | [] => cstr (request_method r) ++ chars " " ++ location ++ chars " " ++ cstr (request_version r) ++ crlf
  | q => cstr (request_method r) ++ chars " " ++ location ++ chars "?" ++ q ++ chars " " ++
         cstr (request_version r) ++ crlf
  end.
Definition client_head (r : request_frame) : list Z :=
  construct_head_full r response_initial true (request_line r) ++ crlf.

(** The status line a server sends, from [connection::compose_response]. *)
Definition status_line (version : list Z) (status_code : Z) (status_text : list Z) : list Z :=
  cstr version ++ chars " " ++ size_to_string status_code ++ chars " " ++ status_text ++ crlf.
