(* ===== verification/HttpParser.v ===== *)
(** * The parser of HTTP heads (src/vitex/network/http.cpp: [parser], [parsing])

    [parser::parse_request] and [parser::parse_response] with everything they call.  The pointer into the
    buffer is the list of the bytes from it to [buffer_end]; reading a byte at [buffer_end] is the outcome
    [Overrun].  A function that returns [nullptr] is [Stop] with the value it left in [*out], [None] when
    it left it unset; [Throw] is the exception of a string built with a negative size.  A loop that used
    up its fuel would be [Overrun] too, so that the absence of [Overrun] also shows that the loops end.
    The message the parser fills is threaded through, so that what was stored before a failure is kept. *)
From S2P Require Import Prelude Text HttpMessage.

(** ** The state and the monad of the parser *)

Record message_state := mk_message {
  header : list Z; version : option (list Z); method : option (list Z); status_code : option Z;
  location : option (list Z); query : option (list Z);
  cookies : option kimv_unordered_map; headers : option kimv_unordered_map }.

Definition set_msg_header (m : message_state) h := mk_message h (version m) (method m) (status_code m) (location m) (query m) (cookies m) (headers m).
Definition set_msg_version (m : message_state) v := mk_message (header m) v (method m) (status_code m) (location m) (query m) (cookies m) (headers m).
Definition set_msg_method (m : message_state) v := mk_message (header m) (version m) v (status_code m) (location m) (query m) (cookies m) (headers m).
Definition set_msg_status (m : message_state) v := mk_message (header m) (version m) (method m) v (location m) (query m) (cookies m) (headers m).
Definition set_msg_location (m : message_state) v := mk_message (header m) (version m) (method m) (status_code m) v (query m) (cookies m) (headers m).
Definition set_msg_query (m : message_state) v := mk_message (header m) (version m) (method m) (status_code m) (location m) v (cookies m) (headers m).
Definition set_msg_cookies (m : message_state) v := mk_message (header m) (version m) (method m) (status_code m) (location m) (query m) v (headers m).
Definition set_msg_headers (m : message_state) v := mk_message (header m) (version m) (method m) (status_code m) (location m) (query m) (cookies m) v.

Inductive outcome (A : Type) :=
| Ok (a : A)
| Stop (out : option Z)
| Overrun
| Throw.
Arguments Ok {A} a.
Arguments Stop {A} out.
Arguments Overrun {A}.
Arguments Throw {A}.

Definition parse (A : Type) := message_state -> message_state * outcome A.
Definition ret {A} (a : A) : parse A := fun m => (m, Ok a).
Definition stop {A} (out : option Z) : parse A := fun m => (m, Stop out).
Definition lift {A} (o : outcome A) : parse A := fun m => (m, o).
Definition bind {A B} (p : parse A) (k : A -> parse B) : parse B :=
  fun m => let '(m', o) := p m in
    match o with Ok a => k a m' | Stop out => (m', Stop out) | Overrun => (m', Overrun) | Throw => (m', Throw) end.
Definition modify (f : message_state -> message_state) : parse unit := fun m => (f m, Ok tt).

Declare Scope parse_scope.
Delimit Scope parse_scope with parse.
Notation "'do' x <- p ; k" := (bind p (fun x => k%parse))
  (at level 10, x pattern, p at level 100, k at level 200, only parsing) : parse_scope.
Notation "p ;; k" := (bind p%parse (fun _ => k%parse)) (at level 100, k at level 200, only parsing) : parse_scope.
#[local] Open Scope parse_scope.

Definition suffix := list Z.

(** [*buffer] *)
Definition deref (buffer : suffix) : outcome Z := match buffer with [] => Overrun | b :: _ => Ok b end.

(** ** Preparation *)

Definition prepare_for_request_parsing (r : request_frame) : message_state :=
  mk_message [] (Some (request_version r)) (Some (request_method r)) None (Some (request_location r))
    (Some (request_query r)) (Some (request_cookies r)) (Some (request_headers r)).
Definition prepare_for_response_parsing (r : response_frame) : message_state :=
  mk_message [] None None (Some (response_status_code r)) None None None (Some (response_headers r)).

(** ** The callbacks of [parsing] *)

Definition parse_header_field (name : list Z) : parse unit :=
  match name with [] => ret tt | _ => modify (fun m => set_msg_header m name) end.

(** [data[i]], and [std::string(data + pos, n)]: a read behind the end is an [Overrun]. *)
Definition obind {A B} (o : outcome A) (k : A -> outcome B) : outcome B :=
  match o with Ok a => k a | Stop out => Stop out | Overrun => Overrun | Throw => Throw end.
Definition read_at (data : list Z) (i : nat) : outcome Z := match nth_error data i with Some b => Ok b | None => Overrun end.
Definition read_string (data : list Z) (pos n : nat) : outcome (list Z) :=
  if (pos + n <=? length data)%nat then Ok (substr data pos n) else Overrun.

(** The name and value pairs of a cookie header.  [semicolon] is the inner loop: it stops at a semicolon
    or at the last byte.  A name that would end before it starts has a negative length, for which
    [std::string] throws. *)
Fixpoint semicolon (fuel : nat) (data : list Z) (i : nat) : outcome nat :=
  match fuel with
  | O => Overrun
  | S f =>
      if (i + 1 <? length data)%nat then obind (read_at data i) (fun b => if negb (b =? 59) then semicolon f data (i + 1) else Ok i)
      else Ok i
  end.
Fixpoint cookie_loop (fuel : nat) (data : list Z) (i offset : nat) (acc : list (list Z * list Z)) :
    outcome (list (list Z * list Z)) :=
  match fuel with
  | O => Overrun
  | S f =>
      if (i <? length data)%nat then
        obind (read_at data i) (fun b =>
        if b =? 61 then
          if (i <? offset)%nat then Throw
          else
            obind (read_string data offset (i - offset)) (fun name =>
            obind (semicolon (length data) data i) (fun j =>
            obind (read_at data j) (fun c =>
            let j := if c =? 59 then (j - 1)%nat else j in
            obind (read_string data (i + 1) (j - i)) (fun value =>
            cookie_loop f data (j + 1) (j + 3) (acc ++ [(name, value)])))))
        else cookie_loop f data (i + 1) offset acc)
      else Ok acc
  end.
Definition parse_cookies (data : list Z) : outcome (list (list Z * list Z)) :=
  cookie_loop (S (length data)) data 0 0 [].

Definition header_is (m : message_state) (name : list Z) : bool := case_equals (cstr (header m)) name.

Definition store_values (data : list Z) (m : message_state) (source : list (list Z)) : list (list Z) :=
  if negb (header_is m (chars "user-agent")) && existsb (Z.eqb 44) (header m)
  then match pm_split source data 44 0 with Some r => map trim_text r | None => source end
  else source ++ [data].

Definition parse_header_value (data : list Z) : parse unit :=
  fun m =>
    match data, header m with
    | [], _ | _, [] => (m, Ok tt)
    | _, _ =>
        if header_is m (chars "cookie") then
          match cookies m with
          | None => (set_msg_header m [], Ok tt)
          | Some jar =>
              match parse_cookies data with
              | Ok items =>
                  (set_msg_header (set_msg_cookies m
                    (Some (fold_left (fun jar item => put_header jar (fst item) (snd item)) items jar))) [], Ok tt)
              | Stop out => (m, Stop out) | Overrun => (m, Overrun) | Throw => (m, Throw)
              end
          end
        else match headers m with
             | None => (set_msg_header m [], Ok tt)
             | Some h =>
                 (set_msg_header (set_msg_headers m
                   (Some (kimv_update (kimv_index h (header m)) (header m) (store_values data m)))) [], Ok tt)
             end
    end.

Definition parse_version (data : list Z) : parse unit :=
  modify (fun m => match data, version m with [], _ | _, None => m | _, Some _ => set_msg_version m (Some (label_of data)) end).
Definition parse_status_code (value : Z) : parse unit :=
  modify (fun m => match status_code m with None => m | Some _ => set_msg_status m (Some (i32 value)) end).
Definition parse_method_value (data : list Z) : parse unit :=
  modify (fun m => match data, method m with [], _ | _, None => m | _, Some _ => set_msg_method m (Some (label_of data)) end).
Definition parse_path_value (data : list Z) : parse unit :=
  modify (fun m => match data, location m with [], _ | _, None => m | _, Some _ => set_msg_location m (Some data) end).
Definition parse_query_value (data : list Z) : parse unit :=
  modify (fun m => match data, query m with [], _ | _, None => m | _, Some _ => set_msg_query m (Some data) end).

(** ** [is_completed] *)

(** One round of the loop: the byte or line end read, the new count of line ends, and what is left. *)
Fixpoint completed_loop (fuel : nat) (buffer : suffix) (result : Z) : outcome suffix :=
  match fuel with
  | O => Overrun
  | S f =>
      match buffer with
      | [] => Stop (Some (-2))
      | b :: rest =>
          if b =? 13 then
            match rest with
            | [] => Stop (Some (-2))
            | b' :: rest' =>
                if negb (b' =? 10) then Stop (Some (-1))
                else if result + 1 =? 2 then Ok rest' else completed_loop f rest' (result + 1)
            end
          else if b =? 10 then
            if result + 1 =? 2 then Ok rest else completed_loop f rest (result + 1)
          else completed_loop f rest 0
      end
  end.
Definition is_completed (buffer : list Z) (offset : nat) : outcome suffix :=
  let start := if (offset <? 3)%nat then 0%nat else (offset - 3)%nat in
  if (length buffer <? start)%nat then Overrun
  else completed_loop (S (length buffer)) (skipn start buffer) 0.

(** ** [tokenize] *)

Definition plain_byte (b : Z) : bool := u32 (b - 32) <? 95.
Definition control_byte (b : Z) : bool := ((b <? 32) && negb (b =? 9)) || (b =? 127).

(** Eight bytes at a time: the inner loop stops at the first byte that is not plain. *)
Fixpoint eight (n : nat) (buffer : suffix) : suffix * bool :=
  match n with
  | O => (buffer, true)
  | S n' => match buffer with b :: rest => if plain_byte b then eight n' rest else (buffer, false) | [] => ([], false) end
  end.
Fixpoint tokenize_slow (buffer : suffix) : outcome suffix :=
  match buffer with
  | [] => Stop (Some (-2))
  | b :: rest => if negb (plain_byte b) && control_byte b then Ok buffer else tokenize_slow rest
  end.
Fixpoint tokenize_fast (fuel : nat) (buffer : suffix) : outcome suffix :=
  match fuel with
  | O => Overrun
  | S f =>
      if (8 <=? length buffer)%nat then
        match eight 8 buffer with
        | (rest, true) => tokenize_fast f rest
        | (b :: rest, false) => if control_byte b then Ok (b :: rest) else tokenize_fast f rest
        | ([], false) => Overrun
        end
      else tokenize_slow buffer
  end.

(** The token's length, and the buffer behind the line end. *)
Definition tokenize (buffer : suffix) : outcome (nat * suffix) :=
  match tokenize_fast (S (length buffer)) buffer with
  | Stop out => Stop out
  | Overrun => Overrun
  | Throw => Throw
  | Ok at_control =>
      let n := (length buffer - length at_control)%nat in
      match at_control with
      | [] => Overrun
      | b :: rest =>
          if b =? 13 then
            match rest with
            | [] => Stop (Some (-2))
            | b' :: rest' => if negb (b' =? 10) then Stop (Some (-1)) else Ok (n, rest')
            end
          else if b =? 10 then Ok (n, rest)
          else Stop (Some (-1))
      end
  end.

(** ** [process_version] and [process_headers] *)

Fixpoint expect (text : list Z) (buffer : suffix) : outcome suffix :=
  match text with
  | [] => Ok buffer
  | c :: text' =>
      match buffer with
      | [] => Overrun
      | b :: rest => if negb (b =? c) then Stop (Some (-1)) else expect text' rest
      end
  end.

Definition process_version (buffer : suffix) : parse suffix :=
  if (length buffer <? 9)%nat then stop (Some (-2))
  else
    do rest <- lift (expect (chars "HTTP/1.") buffer);
    do b <- lift (deref rest);
    if (b <? 48) || (57 <? b) then stop (Some (-1))
    else
      parse_version (firstn 8 buffer) ;;
      ret (skipn 8 buffer).

(** The bytes of a header name: the table of [process_headers]. *)
Definition mapping : list Z :=
  [0;0;0;0;0;0;0;0;0;0;0;0;0;0;0;0;0;0;0;0;0;0;0;0;0;0;0;0;0;0;0;0;
   0;1;0;1;1;1;1;1;0;0;1;1;0;1;1;0;1;1;1;1;1;1;1;1;1;1;0;0;0;0;0;0;
   0;1;1;1;1;1;1;1;1;1;1;1;1;1;1;1;1;1;1;1;1;1;1;1;1;1;1;0;0;0;1;1;
   1;1;1;1;1;1;1;1;1;1;1;1;1;1;1;1;1;1;1;1;1;1;1;1;1;1;1;0;1;0;1;0] ++ repeat 0 128.

(** The name up to the colon, and the buffer at the colon. *)
Fixpoint header_name (buffer : suffix) : outcome (list Z * suffix) :=
  match buffer with
  | [] => Overrun
  | b :: rest =>
      if b =? 58 then Ok ([], buffer)
      else if negb (z2b (at_ mapping (Z.to_nat b))) then Stop (Some (-1))
      else match rest with
           | [] => Stop (Some (-2))
           | _ => match header_name rest with
                  | Ok (name, colon) => Ok (b :: name, colon)
                  | Stop out => Stop out | Overrun => Overrun | Throw => Throw
                  end
           end
  end.

Definition blank (b : Z) : bool := (b =? 32) || (b =? 9).
Fixpoint skip_blanks (buffer : suffix) : suffix :=
  match buffer with [] => [] | b :: rest => if blank b then skip_blanks rest else buffer end.

(** The value without the blanks at its end. *)
Definition strip (value : list Z) : list Z := rev (skip_blanks (rev value)).

(** A line end at the front of the buffer: [Ok (Some rest)] behind it, [Ok None] when there is none. *)
Definition line_end (buffer : suffix) : outcome (option suffix) :=
  match buffer with
  | [] => Stop (Some (-2))
  | b :: rest =>
      if b =? 13 then
        match rest with
        | [] => Stop (Some (-2))
        | b' :: rest' => if negb (b' =? 10) then Stop (Some (-1)) else Ok (Some rest')
        end
      else if b =? 10 then Ok (Some rest)
      else Ok None
  end.

(** The field name of a header line, and the buffer at its value.  A line that starts with a blank
    continues the field of the line before. *)
Definition header_start (buffer : suffix) : parse suffix :=
  do b <- lift (deref buffer);
  if negb (blank b) then
    do (name, colon) <- lift (header_name buffer);
    match name with
    | [] => stop (Some (-1))
    | _ =>
        parse_header_field name ;;
        match skip_blanks (tl colon) with
        | [] => parse_header_value [] ;; stop (Some (-2))
        | value => ret value
        end
    end
  else parse_header_field [] ;; ret buffer.

(** The value of a header line, handed to [parse_header_value], and the buffer behind the line. *)
Definition header_rest (buffer : suffix) : parse suffix :=
  match tokenize buffer with
  | Ok (n, rest) => parse_header_value (strip (firstn n buffer)) ;; ret rest
  | Stop out => parse_header_value [] ;; stop out
  | Overrun => lift Overrun
  | Throw => lift Throw
  end.

Fixpoint headers_loop (fuel : nat) (buffer : suffix) : parse suffix :=
  match fuel with
  | O => lift Overrun
  | S f =>
      do e <- lift (line_end buffer);
      match e with
      | Some rest => ret rest
      | None =>
          do value <- header_start buffer;
          do rest <- header_rest value;
          headers_loop f rest
      end
  end.

Definition clear_maps (m : message_state) : message_state :=
  let m := match headers m with Some _ => set_msg_headers m (Some []) | None => m end in
  match cookies m with Some _ => set_msg_cookies m (Some []) | None => m end.

Definition process_headers (buffer : suffix) : parse suffix :=
  modify clear_maps ;; headers_loop (S (length buffer)) buffer.

(** ** [process_request] *)

(** A word of the request line: the bytes up to a space, and the buffer at the space. *)
Fixpoint word (buffer : suffix) : outcome (list Z * suffix) :=
  match buffer with
  | [] => Overrun
  | b :: rest =>
      if b =? 32 then Ok ([], buffer)
      else if negb (plain_byte b) && ((b <? 32) || (b =? 127)) then Stop (Some (-1))
      else match rest with
           | [] => Stop (Some (-2))
           | _ => match word rest with
                  | Ok (w, space) => Ok (b :: w, space)
                  | Stop out => Stop out | Overrun => Overrun | Throw => Throw
                  end
           end
  end.

(** [do { ++buffer; } while ( *buffer == ' ');] *)
Fixpoint skip_word_spaces (buffer : suffix) : outcome suffix :=
  match buffer with [] => Overrun | b :: rest => if b =? 32 then skip_word_spaces rest else Ok buffer end.
Definition next_word (buffer : suffix) : outcome suffix := skip_word_spaces (tl buffer).

(** The index of the first question mark of the path, or its length. *)
Fixpoint question (path : list Z) : nat :=
  match path with [] => 0%nat | b :: path' => if b =? 63 then 0%nat else S (question path') end.

Definition split_path (path : list Z) : parse unit :=
  let PL := length path in
  let QL := question path in
  if (0 <? QL)%nat && (QL <? PL)%nat
  then
    let QL := (PL - QL - 1)%nat in
    let PL := (PL - (QL + 1))%nat in
    parse_query_value (substr path (PL + 1) QL) ;; parse_path_value (firstn PL path)
  else parse_path_value path.

(** The optional line end in front of a request line. *)
Definition skip_line_end (buffer : suffix) : outcome suffix :=
  match line_end buffer with
  | Ok (Some rest) => Ok rest
  | Ok None => Ok buffer
  | Stop out => Stop out | Overrun => Overrun | Throw => Throw
  end.

(** The line end behind the version. *)
Definition version_line_end (buffer : suffix) : outcome suffix :=
  match buffer with
  | [] => Overrun
  | b :: rest =>
      if b =? 13 then
        match rest with
        | [] => Stop (Some (-2))
        | b' :: rest' => if negb (b' =? 10) then Stop (Some (-1)) else Ok rest'
        end
      else if negb (b =? 10) then Stop (Some (-1)) else Ok rest
  end.

Definition not_at_end (buffer : suffix) : parse unit :=
  match buffer with [] => stop (Some (-2)) | _ => ret tt end.

Definition process_request (buffer : suffix) : parse suffix :=
  do buffer <- lift (skip_line_end buffer);
  not_at_end buffer ;;
  do (token, buffer) <- lift (word buffer);
  match token with
  | [] => stop None
  | _ =>
      parse_method_value token ;;
      do buffer <- lift (next_word buffer);
      not_at_end buffer ;;
      do (path, buffer) <- lift (word buffer);
      match path with
      | [] => stop None
      | _ =>
          split_path path ;;
          do buffer <- lift (next_word buffer);
          do buffer <- process_version buffer;
          do buffer <- lift (version_line_end buffer);
          process_headers buffer
      end
  end.

(** ** [process_response] *)

Definition status_digit (buffer : suffix) : outcome (Z * suffix) :=
  match buffer with
  | [] => Overrun
  | b :: rest => if (b <? 48) || (57 <? b) then Stop (Some (-1)) else Ok (b - 48, rest)
  end.

Definition process_response (buffer : suffix) : parse suffix :=
  do buffer <- process_version buffer;
  do b <- lift (deref buffer);
  if negb (b =? 32) then stop (Some (-1))
  else
    do buffer <- lift (next_word buffer);
    if (length buffer <? 4)%nat then stop (Some (-2))
    else
      do (d1, buffer) <- lift (status_digit buffer);
      do (d2, buffer) <- lift (status_digit buffer);
      do (d3, buffer) <- lift (status_digit buffer);
      parse_status_code (100 * d1 + 10 * d2 + d3) ;;
      do (message_length, rest) <- lift (tokenize buffer);
      if (message_length =? 0)%nat then process_headers rest
      else
        do b <- lift (deref buffer);
        if negb (b =? 32) then stop (Some (-1))
        else
          do _ <- lift (next_word buffer);
          process_headers rest.

(** ** The entry points *)

Inductive parse_result :=
| parsed (result : Z)
| unset_result
| overrun
| exception.

Definition finish (size : nat) (r : message_state * outcome suffix) : message_state * parse_result :=
  let '(m, o) := r in
  (m, match o with
      | Ok rest => parsed (Z.of_nat size - Z.of_nat (length rest))
      | Stop (Some out) => parsed out
      | Stop None => unset_result
      | Overrun => overrun
      | Throw => exception
      end).

Definition parse_request (m : message_state) (buffer : list Z) (offset : nat) : message_state * parse_result :=
  finish (length buffer)
    ((do _ <- lift (is_completed buffer offset); process_request buffer) m).
Definition parse_response (m : message_state) (buffer : list Z) (offset : nat) : message_state * parse_result :=
  finish (length buffer)
    ((do _ <- lift (is_completed buffer offset); process_response buffer) m).
