(* ===== verification/HttpFacts.v ===== *)
(** * The HTTP head parser: memory safety and incremental completion

    Every read of the parser of HttpParser.v is inside the buffer once the terminator has been found, all
    its loops end, and looking for the terminator again from three bytes before the old end gives what a
    scan from the start gives. *)
From S2P Require Import Prelude Text HttpMessage HttpParser.

(** ** Safe computations *)

(** [safe jar P o]: the outcome reads nothing outside the buffer, a returned value satisfies [P], and an
    exception is possible only when cookies are collected. *)
Definition safe {A} (jar : bool) (P : A -> Prop) (o : outcome A) : Prop :=
  match o with
  | Ok a => P a
  | Stop out => out = None \/ out = Some (-1) \/ out = Some (-2)
  | Overrun => False
  | Throw => jar = true
  end.

Definition jar_ok (jar : bool) (m : message_state) : Prop := jar = false -> cookies m = None.

Definition safe_parse {A} (jar : bool) (P : A -> Prop) (p : parse A) : Prop :=
  forall m, jar_ok jar m -> jar_ok jar (fst (p m)) /\ safe jar P (snd (p m)).

(** A result of the parser: one of the two codes or a position within the buffer; or none at all, where the code returns without one; or an exception. *)
Definition result_ok (jar : bool) (size : nat) (r : parse_result) : Prop :=
  match r with
  | parsed n => n = -2 \/ n = -1 \/ 0 <= n <= Z.of_nat size
  | unset_result => True
  | overrun => False
  | exception => jar = true
  end.

Section Safety.
Context (jar : bool).

Lemma safe_mono {A} (P Q : A -> Prop) o : safe jar P o -> (forall a, P a -> Q a) -> safe jar Q o.
Proof. destruct o; cbn; auto. Qed.

Lemma safe_ret {A} (P : A -> Prop) a : P a -> safe_parse jar P (ret a).
Proof. intros H m Hm. split; [exact Hm|exact H]. Qed.

Lemma safe_stop {A} (P : A -> Prop) out :
  out = None \/ out = Some (-1) \/ out = Some (-2) -> safe_parse jar P (stop out).
Proof. intros H m Hm. split; [exact Hm|exact H]. Qed.

Lemma safe_lift {A} (P : A -> Prop) o : safe jar P o -> safe_parse jar P (lift o).
Proof. intros H m Hm. split; [exact Hm|exact H]. Qed.

Lemma safe_bind {A B} (P : A -> Prop) (Q : B -> Prop) (p : parse A) (k : A -> parse B) :
  safe_parse jar P p -> (forall a, P a -> safe_parse jar Q (k a)) -> safe_parse jar Q (bind p k).
Proof.
  intros Hp Hk m Hm. unfold bind. specialize (Hp m Hm). destruct (p m) as [m' o]. cbn [fst snd] in Hp.
  destruct Hp as [Hm' Ho]. destruct o; cbn in Ho |- *; try (now split).
  now apply Hk.
Qed.

Lemma safe_modify f : (forall m, cookies m = None -> cookies (f m) = None) ->
  safe_parse jar (fun _ => True) (modify f).
Proof. intros H m Hm. split; [|exact I]. intros J. cbn. now apply H, Hm. Qed.

(** *** The callbacks *)
Lemma safe_header_field name : safe_parse jar (fun _ => True) (parse_header_field name).
Proof. destruct name; [now apply safe_ret | apply safe_modify; now intros []]. Qed.

Lemma read_at_inside data i : (i < length data)%nat -> read_at data i = Ok (at_ data i).
Proof. intros H. unfold read_at, at_. now rewrite (nth_error_nth' data 0 H). Qed.
Lemma read_string_inside data pos n : (pos + n <= length data)%nat -> read_string data pos n = Ok (substr data pos n).
Proof. intros H. unfold read_string. now rewrite (proj2 (Nat.leb_le _ _) H). Qed.
Lemma semicolon_spec fuel data i : (i < length data <= i + fuel)%nat ->
  exists j, semicolon fuel data i = Ok j /\ (i <= j < length data)%nat /\ (at_ data i <> 59 -> at_ data j = 59 -> (i < j)%nat).
Proof.
  revert i. induction fuel as [|f IH]; intros i Hi; [lia|]. cbn [semicolon]. rewrite read_at_inside by lia. cbn [obind].
  destruct (Nat.ltb_spec (i + 1) (length data)); [|exists i; split; [reflexivity|]; split; [lia|congruence]].
  destruct (Z.eqb_spec (at_ data i) 59); cbn [negb]; [exists i; split; [reflexivity|]; split; [lia|congruence]|].
  destruct (IH (i + 1)%nat ltac:(lia)) as (j & -> & Hj & _). exists j. split; [reflexivity|]. split; lia.
Qed.

Lemma safe_cookie_loop fuel data i offset acc :
  (i <= length data < i + fuel)%nat -> safe true (fun _ => True) (cookie_loop fuel data i offset acc).
Proof.
  revert i offset acc. induction fuel as [|f IH]; intros i offset acc Hf; [lia|]. cbn [cookie_loop].
  destruct (Nat.ltb_spec i (length data)); [|exact I]. rewrite read_at_inside by lia. cbn [obind].
  destruct (Z.eqb_spec (at_ data i) 61) as [E|E]; [|apply IH; lia].
  destruct (Nat.ltb_spec i offset); [reflexivity|]. rewrite read_string_inside by lia. cbn [obind].
  destruct (semicolon_spec (length data) data i) as (j & -> & Hj & Hlt); [lia|]. cbn [obind]. rewrite read_at_inside by lia. cbn [obind].
  destruct (Z.eqb_spec (at_ data j) 59) as [E'|E']; rewrite read_string_inside by lia; cbn [obind]; apply IH.
  - specialize (Hlt ltac:(congruence) E'). lia.
  - lia.
Qed.

Lemma safe_parse_cookies data : safe true (fun _ => True) (parse_cookies data).
Proof. apply safe_cookie_loop. lia. Qed.

Lemma safe_header_value data : safe_parse jar (fun _ => True) (parse_header_value data).
Proof.
  intros m Hm. unfold parse_header_value.
  destruct data as [|b data]; [now split|]. destruct (header m) as [|h hs]; [now split|].
  destruct (header_is m (chars "cookie")).
  - destruct (cookies m) as [c|] eqn:E; cbn [fst snd]; [|split; [intros _; exact E|exact I]].
    assert (J : jar = true) by (destruct jar; [reflexivity|]; specialize (Hm eq_refl); congruence).
    pose proof (safe_parse_cookies (b :: data)) as S. destruct (parse_cookies (b :: data)); cbn [fst snd] in *;
      (split; [intros ?; congruence|]); solve [exact I | exact S | exact J | destruct S].
  - destruct (headers m); cbn [fst snd]; (split; [intros J; exact (Hm J)|exact I]).
Qed.

Ltac modifies := apply safe_modify; intros []; cbn; intros ->; repeat case_match; reflexivity.
Lemma safe_version data : safe_parse jar (fun _ => True) (parse_version data).
Proof. modifies. Qed.
Lemma safe_status value : safe_parse jar (fun _ => True) (parse_status_code value).
Proof. modifies. Qed.
Lemma safe_method data : safe_parse jar (fun _ => True) (parse_method_value data).
Proof. modifies. Qed.
Lemma safe_path data : safe_parse jar (fun _ => True) (parse_path_value data).
Proof. modifies. Qed.
Lemma safe_query data : safe_parse jar (fun _ => True) (parse_query_value data).
Proof. modifies. Qed.
Lemma safe_clear : safe_parse jar (fun _ => True) (modify clear_maps).
Proof. apply safe_modify. intros m E. unfold clear_maps. destruct (headers m); cbn; rewrite E; cbn; assumption. Qed.

(** *** Tokens *)
Lemma plain_control b : plain_byte b = true -> negb (plain_byte b) && control_byte b = false.
Proof. now intros ->. Qed.

Lemma tokenize_slow_plain pre rest :
  Forall (fun b => plain_byte b = true) pre -> tokenize_slow (pre ++ rest) = tokenize_slow rest.
Proof. induction 1 as [|b pre Hb _ IH]; [reflexivity|]. cbn [app tokenize_slow]. now rewrite Hb. Qed.

Lemma eight_spec n buffer : (n <= length buffer)%nat ->
  exists pre, Forall (fun b => plain_byte b = true) pre /\ buffer = pre ++ fst (eight n buffer) /\
    (if snd (eight n buffer) then length pre = n
     else exists b rest, fst (eight n buffer) = b :: rest /\ plain_byte b = false).
Proof.
  revert buffer. induction n as [|n IH]; intros buffer Hn; cbn [eight].
  - exists []. now repeat split.
  - destruct buffer as [|b rest]; [cbn in Hn; lia|]. destruct (plain_byte b) eqn:E.
    + destruct (IH rest ltac:(cbn in Hn; lia)) as (pre & F & Eb & C). exists (b :: pre).
      split; [now constructor|]. split; [cbn; congruence|]. destruct (snd (eight n rest)); [cbn; lia|exact C].
    + exists []. cbn. eauto 10.
Qed.

(** Scanning eight bytes at a time finds what scanning byte by byte finds. *)
Lemma tokenize_fast_slow fuel buffer : (length buffer < fuel)%nat -> tokenize_fast fuel buffer = tokenize_slow buffer.
Proof.
  revert buffer. induction fuel as [|f IH]; intros buffer Hf; [lia|]. cbn [tokenize_fast].
  destruct (Nat.leb_spec 8 (length buffer)) as [H8|]; [|reflexivity].
  destruct (eight_spec 8 buffer H8) as (pre & F & Eb & C).
  destruct (eight 8 buffer) as [rest []]; cbn [fst snd] in *.
  - transitivity (tokenize_slow rest); [|rewrite Eb; symmetry; now apply tokenize_slow_plain].
    rewrite Eb, length_app in Hf. destruct rest; apply IH; cbn [length] in *; lia.
  - destruct C as (b & r & -> & Hb). rewrite Eb, tokenize_slow_plain by assumption. cbn [tokenize_slow].
    rewrite Hb. cbn [negb andb]. destruct (control_byte b); [reflexivity|].
    apply IH. rewrite Eb, length_app in Hf. cbn in Hf. lia.
Qed.

Lemma tokenize_slow_spec buffer :
  match tokenize_slow buffer with
  | Ok r => exists pre b rest, buffer = pre ++ r /\ r = b :: rest
  | o => o = Stop (Some (-2))
  end.
Proof.
  induction buffer as [|b buffer IH]; [reflexivity|]. cbn [tokenize_slow].
  destruct (negb (plain_byte b) && control_byte b); [now exists [], b, buffer|].
  destruct (tokenize_slow buffer); try assumption.
  destruct IH as (pre & b' & r & -> & ->). now exists (b :: pre), b', r.
Qed.

Lemma safe_tokenize buffer :
  safe jar (fun r => (length (snd r) < length buffer)%nat /\ (fst r <= length buffer)%nat /\
    exists pre, buffer = pre ++ 10 :: snd r) (tokenize buffer).
Proof.
  unfold tokenize. rewrite tokenize_fast_slow by lia. pose proof (tokenize_slow_spec buffer) as S.
  destruct (tokenize_slow buffer) as [r|out| |]; try discriminate; [|injection S as ->; right; right; reflexivity].
  destruct S as (pre & b & rest & -> & ->). cbn beta zeta iota.
  destruct (Z.eqb_spec b 13) as [->|_].
  - destruct rest as [|b' rest']; cbn; [tauto|]. destruct (Z.eqb_spec b' 10) as [->|_]; cbn; [|tauto].
    rewrite !length_app. cbn. split; [lia|]. split; [lia|]. exists (pre ++ [13]). now rewrite <- app_assoc.
  - destruct (Z.eqb_spec b 10) as [->|_]; cbn; [|tauto].
    rewrite !length_app. cbn. split; [lia|]. split; [lia|]. now exists pre.
Qed.

(** *** Headers *)

Definition shorter (buffer rest : suffix) : Prop := (length rest < length buffer)%nat.
Definition within (buffer rest : suffix) : Prop := (length rest <= length buffer)%nat.

Lemma safe_line_end buffer :
  safe jar (fun e => match e with Some rest => shorter buffer rest | None => buffer <> [] end) (line_end buffer).
Proof.
  unfold line_end, shorter. destruct buffer as [|b rest]; cbn; [tauto|].
  destruct (b =? 13); [|destruct (b =? 10); cbn; [lia|discriminate]].
  destruct rest as [|b' rest']; cbn; [tauto|]. destruct (negb (b' =? 10)); cbn; [tauto|lia].
Qed.

Lemma safe_header_name buffer : buffer <> [] ->
  safe jar (fun r => exists c rest, snd r = c :: rest /\ buffer = fst r ++ snd r) (header_name buffer).
Proof.
  induction buffer as [|b buffer IH]; [congruence|]. intros _. cbn [header_name].
  destruct (b =? 58); [cbn; eauto|]. destruct (negb (z2b (at_ mapping (Z.to_nat b)))); [cbn; tauto|].
  destruct buffer as [|b' buffer']; [cbn; tauto|]. specialize (IH ltac:(discriminate)).
  destruct (header_name (b' :: buffer')) as [[name colon]| | |]; cbn in IH |- *; try assumption.
  destruct IH as (c & rest & -> & ->). eauto.
Qed.

Lemma skip_blanks_within buffer : within buffer (skip_blanks buffer).
Proof.
  unfold within. induction buffer as [|b buffer IH]; [cbn; lia|]. cbn [skip_blanks].
  destruct (blank b); cbn; lia.
Qed.

Lemma safe_header_start buffer : buffer <> [] -> safe_parse jar (within buffer) (header_start buffer).
Proof.
  intros Hb. unfold header_start. apply safe_bind with (fun _ => True).
  { apply safe_lift. now destruct buffer. }
  intros b _. destruct (negb (blank b)).
  2: { eapply safe_bind; [apply safe_header_field|]. intros _ _. apply safe_ret. unfold within. lia. }
  eapply safe_bind; [apply safe_lift, (safe_header_name buffer Hb)|].
  intros [name colon] (c & rest & E & Ebuf); cbn [fst snd] in *; subst colon.
  destruct name as [|n ns]; [apply safe_stop; tauto|].
  eapply safe_bind; [apply safe_header_field|]. intros _ _. cbn [tl].
  pose proof (skip_blanks_within rest) as W. destruct (skip_blanks rest) as [|v vs].
  - eapply safe_bind; [apply safe_header_value|]. intros _ _. apply safe_stop. tauto.
  - apply safe_ret. unfold within in *. rewrite Ebuf, length_app. cbn in *. lia.
Qed.

Lemma safe_header_rest buffer : safe_parse jar (shorter buffer) (header_rest buffer).
Proof.
  unfold header_rest. pose proof (safe_tokenize buffer) as T. destruct (tokenize buffer) as [[n rest]|out| |].
  - eapply safe_bind; [apply safe_header_value|]. intros _ _. apply safe_ret. exact (proj1 T).
  - eapply safe_bind; [apply safe_header_value|]. intros _ _. apply safe_stop. exact T.
  - destruct T.
  - apply safe_lift. exact T.
Qed.

Lemma safe_headers_loop fuel buffer : (length buffer < fuel)%nat -> safe_parse jar (within buffer) (headers_loop fuel buffer).
Proof.
  revert buffer. induction fuel as [|f IH]; intros buffer Hf; [lia|]. cbn [headers_loop].
  eapply safe_bind; [apply safe_lift, safe_line_end|]. intros [rest|] He.
  - apply safe_ret. unfold shorter, within in *. lia.
  - eapply safe_bind; [now apply safe_header_start|]. intros value Hv.
    eapply safe_bind; [apply safe_header_rest|]. intros rest Hr. unfold shorter, within in *.
    intros m Hm. destruct (IH rest ltac:(lia) m Hm) as [Jm S]. split; [exact Jm|].
    eapply safe_mono; [exact S|]. cbn beta. lia.
Qed.

Lemma safe_process_headers buffer : safe_parse jar (within buffer) (process_headers buffer).
Proof. eapply safe_bind; [apply safe_clear|]. intros _ _. apply safe_headers_loop. lia. Qed.

(** *** The request and status lines *)
Lemma safe_word buffer : buffer <> [] ->
  safe jar (fun r => exists rest, snd r = 32 :: rest /\ buffer = fst r ++ snd r /\ ~ In 10 (fst r)) (word buffer).
Proof.
  induction buffer as [|b buffer IH]; [congruence|]. intros _. cbn [word].
  destruct (Z.eqb_spec b 32) as [->|N]; [cbn; eauto|].
  destruct (negb (plain_byte b) && ((b <? 32) || (b =? 127))) eqn:C; [cbn; tauto|].
  destruct buffer as [|b' buffer']; [cbn; tauto|]. specialize (IH ltac:(discriminate)).
  destruct (word (b' :: buffer')) as [[w sp]| | |]; cbn in IH |- *; try assumption.
  destruct IH as (rest & -> & -> & Hn). exists rest. do 2 (split; [reflexivity|]).
  intros [->|H]; [|tauto]. discriminate C.
Qed.

Lemma safe_skip_spaces buffer : In 10 buffer ->
  safe jar (fun r => In 10 r /\ within buffer r) (skip_word_spaces buffer).
Proof.
  unfold within. induction buffer as [|b buffer IH]; [intros []|]. intros H. cbn [skip_word_spaces].
  destruct (Z.eqb_spec b 32) as [->|N]; [|cbn in *; intuition lia].
  destruct H as [H|H]; [discriminate|]. eapply safe_mono; [exact (IH H)|]. cbn. intuition lia.
Qed.

Lemma in_tail b (rest : suffix) : b <> 10 -> In 10 (b :: rest) -> In 10 rest.
Proof. intros H [?|?]; [congruence|assumption]. Qed.

Lemma expect_spec text buffer : (length text <= length buffer)%nat ->
  safe jar (fun r => buffer = text ++ r) (expect text buffer).
Proof.
  revert buffer. induction text as [|c text IH]; intros buffer H; [reflexivity|].
  destruct buffer as [|b buffer]; [cbn in H; lia|]. cbn [expect].
  destruct (Z.eqb_spec b c) as [->|_]; cbn [negb]; [|cbn; tauto].
  eapply safe_mono; [apply IH; cbn in H; lia|]. intros r ->. reflexivity.
Qed.

Lemma safe_process_version buffer :
  safe_parse jar (fun r => r <> [] /\ within buffer r /\ (In 10 buffer -> In 10 r)) (process_version buffer).
Proof.
  unfold process_version. destruct (Nat.ltb_spec (length buffer) 9) as [|H9]; [apply safe_stop; tauto|].
  eapply safe_bind; [apply safe_lift, expect_spec; cbn; lia|]. intros rest E. cbn beta in E.
  assert (L : (2 <= length rest)%nat) by (rewrite E, length_app in H9; cbn in H9; lia).
  destruct rest as [|b [|b' rest]]; [cbn in L; lia|cbn in L; lia|]. subst buffer.
  eapply safe_bind with (P := fun x => x = b); [apply safe_lift; reflexivity|]. intros x ->.
  destruct ((b <? 48) || (57 <? b)) eqn:D; [apply safe_stop; tauto|].
  eapply safe_bind; [apply safe_version|]. intros _ _. apply safe_ret. cbn [skipn chars app].
  change (skipn 8 (chars "HTTP/1." ++ b :: b' :: rest)) with (b' :: rest).
  split; [discriminate|]. split; [unfold within; cbn; lia|].
  intros H. apply orb_false_iff in D as [D1 _]. apply Z.ltb_ge in D1.
  do 7 (apply in_tail in H; [|discriminate]). apply in_tail in H; [exact H|lia].
Qed.

Lemma safe_version_line_end buffer : buffer <> [] -> safe jar (within buffer) (version_line_end buffer).
Proof.
  unfold within. destruct buffer as [|b rest]; [congruence|]. intros _. cbn [version_line_end].
  destruct (b =? 13); [|destruct (negb (b =? 10)); cbn; [tauto|lia]].
  destruct rest as [|b' rest']; cbn; [tauto|]. destruct (negb (b' =? 10)); cbn; [tauto|lia].
Qed.

Lemma safe_not_at_end buffer : safe_parse jar (fun _ => buffer <> []) (not_at_end buffer).
Proof. destruct buffer; [apply safe_stop; tauto|now apply safe_ret]. Qed.

Lemma safe_next_word w rest buffer : buffer = w ++ 32 :: rest -> ~ In 10 w -> In 10 buffer ->
  safe jar (fun r => In 10 r /\ within buffer r) (next_word (32 :: rest)).
Proof.
  intros -> Hw H. cbn [next_word tl]. apply in_app_iff in H as [H|H]; [contradiction|].
  apply in_tail in H; [|discriminate]. eapply safe_mono; [now apply safe_skip_spaces|].
  unfold within. cbn [tl]. intros r [? ?]. split; [assumption|]. rewrite length_app. cbn in *. lia.
Qed.

Lemma safe_split_path path : safe_parse jar (fun _ => True) (split_path path).
Proof.
  unfold split_path. cbv zeta. case_match; [|apply safe_path].
  eapply safe_bind; [apply safe_query|]. intros _ _. apply safe_path.
Qed.

Definition line_feeds (buffer : list Z) : nat := count_occ Z.eq_dec buffer 10.

(** A line end in front takes one of the two line feeds of the terminator, not both. *)
Lemma safe_skip_line_end buffer : (2 <= line_feeds buffer)%nat ->
  safe jar (fun r => In 10 r /\ within buffer r) (skip_line_end buffer).
Proof.
  intros H2. unfold skip_line_end, line_end, within.
  assert (IN : forall l, (1 <= line_feeds l)%nat -> In 10 l)
    by (intros l Hl; apply (count_occ_In Z.eq_dec); unfold line_feeds in Hl; lia).
  unfold line_feeds in *. destruct buffer as [|b rest]; [cbn; tauto|]. cbn [count_occ] in H2.
  destruct (Z.eqb_spec b 13) as [->|N].
  - destruct rest as [|b' rest']; [cbn; tauto|]. cbn in H2.
    destruct (Z.eqb_spec b' 10) as [->|_]; cbn; [|tauto]. split; [|lia]. apply IN. cbn in H2. lia.
  - destruct (Z.eqb_spec b 10) as [->|N']; cbn.
    + split; [|lia]. apply IN. cbn in H2. lia.
    + split; [|lia]. right. apply IN. destruct (Z.eq_dec b 10); [congruence|]. lia.
Qed.

Lemma safe_process_request buffer : (2 <= line_feeds buffer)%nat ->
  safe_parse jar (within buffer) (process_request buffer).
Proof.
  intros H2. unfold process_request.
  eapply safe_bind; [apply safe_lift, safe_skip_line_end, H2|]. intros b1 [I1 W1].
  eapply safe_bind; [apply safe_not_at_end|]. intros ? N1.
  eapply safe_bind; [apply safe_lift, safe_word, N1|]. intros [w b2] (r & E2 & Eb & Hw).
  cbn [fst snd] in E2, Eb, Hw. rewrite E2 in *. clear b2 E2.
  destruct w as [|w0 w]; [apply safe_stop; tauto|].
  eapply safe_bind; [apply safe_method|]. intros _ _.
  eapply safe_bind; [apply safe_lift; eapply safe_next_word; eassumption|]. intros b3 [I3 W3].
  eapply safe_bind; [apply safe_not_at_end|]. intros ? N3.
  eapply safe_bind; [apply safe_lift, safe_word, N3|]. intros [p b4] (r' & E4 & Eb' & Hp).
  cbn [fst snd] in E4, Eb', Hp. rewrite E4 in *. clear b4 E4.
  destruct p as [|p0 p]; [apply safe_stop; tauto|].
  eapply safe_bind; [apply safe_split_path|]. intros _ _.
  eapply safe_bind; [apply safe_lift; eapply safe_next_word; eassumption|]. intros b5 [I5 W5].
  eapply safe_bind; [apply safe_process_version|]. intros b6 (N6 & W6 & _).
  eapply safe_bind; [apply safe_lift, safe_version_line_end, N6|]. intros b7 W7.
  intros m Hm. destruct (safe_process_headers b7 m Hm) as [J S]. split; [exact J|].
  eapply safe_mono; [exact S|]. unfold within in *. cbn beta. lia.
Qed.

Lemma safe_status_digit buffer : buffer <> [] ->
  safe jar (fun r => within buffer (snd r) /\ (length buffer <= S (length (snd r)))%nat /\
    (In 10 buffer -> In 10 (snd r))) (status_digit buffer).
Proof.
  destruct buffer as [|b rest]; [congruence|]. intros _. cbn [status_digit].
  destruct (Z.ltb_spec b 48); cbn [orb]; [cbn; tauto|].
  destruct (57 <? b); [cbn; tauto|]. unfold within. cbn. repeat (split; [lia|]). intros [?|?]; [lia|assumption].
Qed.

Lemma safe_process_response buffer : In 10 buffer -> safe_parse jar (within buffer) (process_response buffer).
Proof.
  intros H10. unfold process_response.
  eapply safe_bind; [apply safe_process_version|]. intros b1 (N1 & W1 & I1). specialize (I1 H10).
  destruct b1 as [|x b1]; [congruence|].
  eapply safe_bind with (P := fun y => y = x); [apply safe_lift; reflexivity|]. intros y ->.
  destruct (Z.eqb_spec x 32) as [->|]; cbn [negb]; [|apply safe_stop; tauto].
  eapply safe_bind; [apply safe_lift; eapply (safe_next_word []); [reflexivity|tauto|exact I1]|].
  intros b2 [I2 W2]. cbn [app] in W2. destruct (Nat.ltb_spec (length b2) 4) as [|L2]; [apply safe_stop; tauto|].
  unfold within in W1, W2. cbn [length] in W1, W2.
  assert (NE : forall l : suffix, (0 < length l)%nat -> l <> []) by (intros [|]; cbn; [lia|discriminate]).
  unfold within in *.
  eapply safe_bind; [apply safe_lift, safe_status_digit, NE; lia|]. intros [d1 b3] (V3 & L3 & I3). cbn [snd] in *.
  eapply safe_bind; [apply safe_lift, safe_status_digit, NE; lia|]. intros [d2 b4] (V4 & L4 & I4). cbn [snd] in *.
  eapply safe_bind; [apply safe_lift, safe_status_digit, NE; lia|]. intros [d3 b5] (V5 & L5 & I5). cbn [snd] in *.
  eapply safe_bind; [apply safe_status|]. intros _ _.
  eapply safe_bind; [apply safe_lift, safe_tokenize|]. intros [n rest] (S6 & L6 & _). cbn [fst snd] in *.
  assert (Headers : safe_parse jar (within buffer) (process_headers rest)).
  { intros m Hm. destruct (safe_process_headers rest m Hm) as [J S]. split; [exact J|].
    eapply safe_mono; [exact S|]. unfold within in *. cbn beta. unfold within in *. lia. }
  destruct (Nat.eqb_spec n 0) as [|N0]; [exact Headers|].
  destruct b5 as [|b b5]; [cbn in L6; lia|].
  eapply safe_bind with (P := fun y => y = b); [apply safe_lift; reflexivity|]. intros y ->.
  destruct (Z.eqb_spec b 32) as [->|]; cbn [negb]; [|apply safe_stop; tauto].
  eapply safe_bind; [apply safe_lift; eapply (safe_next_word []); [reflexivity|tauto|auto]|]. intros _ _.
  exact Headers.
Qed.

(** *** The terminator *)
Lemma safe_completed_loop fuel buffer result : (length buffer < fuel)%nat -> 0 <= result < 2 ->
  safe jar (fun rest => exists pre, buffer = pre ++ rest /\ 2 <= Z.of_nat (line_feeds pre) + result)
    (completed_loop fuel buffer result).
Proof.
  revert buffer result. induction fuel as [|f IH]; intros buffer result Hf Hr; [lia|]. cbn [completed_loop].
  assert (Step : forall p rest r, buffer = p ++ rest -> p <> [] -> 0 <= r < 2 ->
    r <= Z.of_nat (line_feeds p) + result ->
    safe jar (fun rest => exists pre, buffer = pre ++ rest /\ 2 <= Z.of_nat (line_feeds pre) + result)
      (completed_loop f rest r)).
  { intros p rest r -> Hp Hr' Hc. rewrite length_app in Hf. destruct p as [|b p]; [congruence|]. cbn [length] in Hf.
    eapply safe_mono; [apply IH; lia|]. intros rest' (q & -> & Hq). exists ((b :: p) ++ q).
    split; [now rewrite <- app_assoc|]. unfold line_feeds in *. rewrite count_occ_app. lia. }
  destruct buffer as [|b rest]; [cbn; tauto|]. destruct (Z.eqb_spec b 13) as [->|N13].
  - destruct rest as [|b' rest']; [cbn; tauto|]. destruct (Z.eqb_spec b' 10) as [->|_]; cbn [negb]; [|cbn; tauto].
    destruct (Z.eqb_spec (result + 1) 2).
    + exists [13; 10]. split; [reflexivity|]. cbn. lia.
    + apply (Step [13; 10]); [reflexivity|discriminate|lia|cbn; lia].
  - destruct (Z.eqb_spec b 10) as [->|N10].
    + destruct (Z.eqb_spec (result + 1) 2).
      * exists [10]. split; [reflexivity|]. cbn. lia.
      * apply (Step [10]); [reflexivity|discriminate|lia|cbn; lia].
    + apply (Step [b]); [reflexivity|discriminate|lia|lia].
Qed.

Lemma safe_is_completed buffer offset : (offset <= length buffer + 3)%nat ->
  safe jar (fun _ => (2 <= line_feeds buffer)%nat) (is_completed buffer offset).
Proof.
  intros Ho. unfold is_completed. cbv zeta.
  set (start := if (offset <? 3)%nat then 0%nat else (offset - 3)%nat).
  assert (Hs : (start <= length buffer)%nat) by (unfold start; destruct (Nat.ltb_spec offset 3); lia).
  destruct (Nat.ltb_spec (length buffer) start); [lia|].
  eapply safe_mono; [apply safe_completed_loop; [rewrite length_skipn; lia|lia]|].
  intros rest (pre & E & H2). rewrite <- (firstn_skipn start buffer), E.
  unfold line_feeds in *. rewrite !count_occ_app. lia.
Qed.
End Safety.

(** ** Properties *)
Lemma finish_ok jar buffer m (p : parse suffix) :
  safe_parse jar (within buffer) p -> jar_ok jar m -> result_ok jar (length buffer) (snd (finish (length buffer) (p m))).
Proof.
  intros Hp Hm. destruct (Hp m Hm) as [_ S]. destruct (p m) as [m' o]. cbn [snd] in S.
  destruct o as [rest|out| |]; cbn in *; try assumption.
  - unfold within in S. lia.
  - destruct S as [->|[->| ->]]; cbn; tauto.
Qed.

(** ** Looking for the terminator again

    [scan] is the loop of [is_completed] one byte at a time, with a flag for a carriage return just read;
    [scan_step] is the state after a byte that neither ends the scan nor fails. *)
Fixpoint scan (buffer : suffix) (r : Z) (cr : bool) : outcome suffix :=
  match buffer with
  | [] => Stop (Some (-2))
  | b :: rest =>
      if cr then
        if b =? 10 then (if r + 1 =? 2 then Ok rest else scan rest (r + 1) false) else Stop (Some (-1))
      else if b =? 13 then scan rest r true
      else if b =? 10 then (if r + 1 =? 2 then Ok rest else scan rest (r + 1) false)
      else scan rest 0 false
  end.

Definition scan_step (st : Z * bool) (b : Z) : option (Z * bool) :=
  let '(r, cr) := st in
  if cr then if b =? 10 then (if r + 1 =? 2 then None else Some (r + 1, false)) else None
  else if b =? 13 then Some (r, true)
  else if b =? 10 then (if r + 1 =? 2 then None else Some (r + 1, false))
  else Some (0, false).
Fixpoint scan_after (buffer : suffix) (st : Z * bool) : option (Z * bool) :=
  match buffer with [] => Some st | b :: rest => st' ← scan_step st b; scan_after rest st' end.

Lemma completed_scan fuel buffer r : (length buffer < fuel)%nat -> completed_loop fuel buffer r = scan buffer r false.
Proof.
  revert buffer r. induction fuel as [|f IH]; intros buffer r Hf; [lia|]. cbn [completed_loop].
  destruct buffer as [|b rest]; [reflexivity|]. cbn [scan]. cbn [length] in Hf.
  destruct (b =? 13).
  - destruct rest as [|b' rest']; [reflexivity|]. cbn [scan]. cbn [length] in Hf.
    destruct (b' =? 10); cbn [negb]; [|reflexivity]. destruct (r + 1 =? 2); [reflexivity|]. apply IH. lia.
  - destruct (b =? 10); [|apply IH; lia]. destruct (r + 1 =? 2); [reflexivity|]. apply IH. lia.
Qed.

Lemma is_completed_scan buffer : is_completed buffer 0 = scan buffer 0 false.
Proof. unfold is_completed. cbn [Nat.ltb Nat.leb skipn]. apply completed_scan. lia. Qed.

Lemma scan_more xs : forall r cr,
  scan xs r cr = Stop (Some (-2)) ->
  exists st, scan_after xs (r, cr) = Some st /\ forall ys, scan (xs ++ ys) r cr = scan ys (fst st) (snd st).
Proof.
  induction xs as [|b xs IH]; intros r cr H; [exists (r, cr); now split|].
  cbn [scan app scan_after mbind option_bind] in *. unfold scan_step at 1.
  destruct cr.
  - destruct (b =? 10); [|discriminate]. destruct (r + 1 =? 2); [discriminate|]. exact (IH _ _ H).
  - destruct (b =? 13); [exact (IH _ _ H)|]. destruct (b =? 10); [|exact (IH _ _ H)].
    destruct (r + 1 =? 2); [discriminate|]. exact (IH _ _ H).
Qed.

Lemma scan_after_app xs ys st : scan_after (xs ++ ys) st = st' ← scan_after xs st; scan_after ys st'.
Proof.
  revert st. induction xs as [|b xs IH]; intros st; [reflexivity|]. cbn [app scan_after mbind option_bind].
  destruct (scan_step st b); [apply IH|reflexivity].
Qed.

Lemma scan_after_range xs r cr st : 0 <= r < 2 -> scan_after xs (r, cr) = Some st -> 0 <= fst st < 2.
Proof.
  revert r cr. induction xs as [|b xs IH]; intros r cr Hr H; cbn [scan_after mbind option_bind] in H.
  - now injection H as <-.
  - unfold scan_step in H. repeat case_match; try discriminate; (eapply IH; [|exact H]); lia.
Qed.

(** What precedes the last three bytes does not matter. *)
Lemma scan_last_three p a b c st : scan_after (p ++ [a; b; c]) (0, false) = Some st ->
  scan_after [a; b; c] (0, false) = Some st.
Proof.
  rewrite scan_after_app. destruct (scan_after p (0, false)) as [[r cr]|] eqn:E; [|discriminate].
  apply scan_after_range in E; [|lia]. cbn [fst] in E. cbn [mbind option_bind].
  assert (C : r = 0 \/ r = 1) by lia.
  cbn [scan_after mbind option_bind]. unfold scan_step.
  destruct C as [-> | ->], cr; destruct (Z.eqb_spec a 13), (Z.eqb_spec a 10); subst; try discriminate; try lia;
    cbn; destruct (Z.eqb_spec b 13), (Z.eqb_spec b 10); subst; try discriminate; try lia; cbn;
    destruct (Z.eqb_spec c 13), (Z.eqb_spec c 10); subst; cbn; congruence || lia.
Qed.

(** Scanning again from three bytes before the end of what was incomplete. *)
Lemma is_completed_again xs ys : is_completed xs 0 = Stop (Some (-2)) ->
  is_completed (xs ++ ys) (length xs) = is_completed (xs ++ ys) 0.
Proof.
  rewrite !is_completed_scan. intros H. apply scan_more in H as (st & A & G). rewrite G.
  unfold is_completed. cbv zeta. destruct (Nat.ltb_spec (length xs) 3) as [L|L].
  - destruct (Nat.ltb_spec (length (xs ++ ys)) 0); [lia|]. rewrite skipn_O, completed_scan by lia. apply G.
  - destruct (Nat.ltb_spec (length (xs ++ ys)) (length xs - 3)) as [C|_]; [rewrite length_app in C; lia|].
    rewrite completed_scan by (rewrite length_skipn; lia).
    rewrite skipn_app. replace (length xs - 3 - length xs)%nat with 0%nat by lia. rewrite skipn_O.
    pose proof (firstn_skipn (length xs - 3) xs) as E. set (w := skipn (length xs - 3) xs) in *.
    assert (Lw : length w = 3%nat) by (unfold w; rewrite length_skipn; lia).
    destruct w as [|a [|b [|c [|? ?]]]]; try discriminate Lw. rewrite <- E in A.
    pose proof (scan_last_three _ _ _ _ _ A) as A3.
    assert (H3 : scan [a; b; c] 0 false = Stop (Some (-2))).
    { revert A3. cbn [scan scan_after mbind option_bind]. unfold scan_step.
      repeat case_match; try discriminate; try reflexivity; simplify_eq; cbn; congruence. }
    apply scan_more in H3 as (st' & A' & G'). rewrite G'. congruence.
Qed.

(** (C4) Memory safety of the head parser.  On every buffer, from every message state, and for every
    offset that is at most three bytes past the end (the callers pass the length of the part seen before),
    [parse_request] and [parse_response] read no byte outside the buffer and all their loops end.  Where they
    give a result, it is -2 (more is needed), -1 (malformed) or the number of bytes of the head, which is within the
    buffer.  They may also end without setting the result (an empty method or path), or with an exception, which is possible
    only where the message collects cookies, so never for a response that does not. *)
Theorem http_parser_safe (m : message_state) (buffer : list Z) (offset : nat) :
  (offset <= length buffer + 3)%nat ->
  result_ok true (length buffer) (snd (parse_request m buffer offset)) /\
  result_ok true (length buffer) (snd (parse_response m buffer offset)) /\
  (cookies m = None -> result_ok false (length buffer) (snd (parse_response m buffer offset))).
Proof.
  intros Ho.
  assert (Response : forall jar, jar_ok jar m -> result_ok jar (length buffer) (snd (parse_response m buffer offset))).
  { intros jar Hm. apply finish_ok; [|exact Hm]. eapply safe_bind; [apply safe_lift, safe_is_completed, Ho|].
    intros ? H2. apply safe_process_response. apply (count_occ_In Z.eq_dec). unfold line_feeds in H2. lia. }
  split; [|split].
  - apply finish_ok; [|discriminate]. eapply safe_bind; [apply safe_lift, safe_is_completed, Ho|].
    intros ? H2. now apply safe_process_request.
  - apply Response. discriminate.
  - intros E. apply Response. intros _. exact E.
Qed.

Lemma http_parser_safe_witness :
  let buffer := chars "GET / HTTP/1.1" ++ crlf ++ chars "Cookie: a=b;=c" ++ crlf ++ crlf in
  let m := prepare_for_request_parsing request_initial in
  result_ok true (length buffer) (snd (parse_request m buffer 0)) /\ snd (parse_request m buffer 0) = exception.
Proof.
  intros buffer m. split; [|vm_compute; reflexivity].
  refine (proj1 (http_parser_safe m buffer 0 _)). lia.
Defined.

(** (C5) Receiving a head in parts.  When the bytes seen so far are an incomplete head, parsing them with
    the new bytes behind them from the old length gives what parsing everything from the start gives:
    the same message and the same result, for requests and for responses. *)
Theorem http_parse_incremental (m : message_state) (xs ys : list Z) :
  is_completed xs 0 = Stop (Some (-2)) ->
  parse_request m (xs ++ ys) (length xs) = parse_request m (xs ++ ys) 0 /\
  parse_response m (xs ++ ys) (length xs) = parse_response m (xs ++ ys) 0.
Proof.
  intros H. unfold parse_request, parse_response. now rewrite is_completed_again.
Qed.

Lemma http_parse_incremental_witness :
  let xs := chars "GET / HTTP/1.1" ++ crlf ++ chars "A: b" ++ [13; 10; 13] in
  let m := prepare_for_request_parsing request_initial in
  parse_request m (xs ++ [10; 120]) (length xs) = parse_request m (xs ++ [10; 120]) 0 /\
  snd (parse_request m (xs ++ [10; 120]) 0) = parsed 24.
Proof.
  intros xs m. split; [|vm_compute; reflexivity].
  refine (proj1 (http_parse_incremental m xs [10; 120] _)). vm_compute. reflexivity.
Defined.
