(* ===== verification/HttpRoundtrip.v ===== *)
(** * HTTP heads: what a client writes, a server reads; byte ranges

    The head [client::send] writes for a request frame (HttpMessage.v) is parsed back by [parse_request]
    (HttpParser.v) to the same method, location, query, version and headers; and a byte range taken from a
    request always lies inside the content. *)
From S2P Require Import Prelude Text HttpMessage HttpParser HttpFacts.

(** ** Well-formed requests *)

(** A byte that [word] passes over; a byte of a header value; a byte of a header name. *)
Definition word_byte (b : Z) : Prop := 32 < b < 256 /\ b <> 127.
Definition value_byte (b : Z) : Prop := (32 <= b < 256 \/ b = 9) /\ b <> 127.
Definition name_byte (b : Z) : Prop := 0 <= b < 256 /\ z2b (at_ mapping (Z.to_nat b)) = true.

Definition value_ok (v : list Z) : Prop :=
  Forall value_byte v /\ (exists b v', v = b :: v' /\ blank b = false) /\ (exists v' b, v = v' ++ [b] /\ blank b = false).
Definition entry_ok (e : list Z * list (list Z)) : Prop :=
  Forall name_byte (fst e) /\ fst e <> [] /\ case_equals (fst e) (chars "cookie") = false /\
  snd e <> [] /\ Forall value_ok (snd e).
Fixpoint distinct_keys (m : kimv_unordered_map) : Prop :=
  match m with
  | [] => True
  | (k, _) :: m' => Forall (fun e => kimv_equal_to k (fst e) = false) m' /\ distinct_keys m'
  end.

(** ** Facts on bytes and text *)
Lemma word_byte_spec b : word_byte b ->
  b <> 32 /\ b <> 10 /\ b <> 13 /\ b <> 0 /\ negb (plain_byte b) && ((b <? 32) || (b =? 127)) = false.
Proof.
  unfold word_byte. intros [H1 H2]. repeat (split; [lia|]). apply andb_false_iff. right.
  apply orb_false_iff. split; [apply Z.ltb_ge | apply Z.eqb_neq]; lia.
Qed.

Lemma value_byte_spec b : value_byte b -> b <> 10 /\ b <> 13 /\ control_byte b = false.
Proof.
  unfold value_byte, control_byte. intros [H1 H2]. repeat (split; [lia|]).
  destruct (Z.eqb_spec b 127); [lia|]. rewrite orb_false_r. destruct (Z.ltb_spec b 32); [|reflexivity].
  destruct (Z.eqb_spec b 9); [reflexivity|lia].
Qed.

Lemma name_byte_spec b : name_byte b -> b <> 58 /\ b <> 44 /\ b <> 10 /\ b <> 13 /\ b <> 0 /\ blank b = false.
Proof.
  unfold name_byte. intros [H1 H2].
  assert (T : forall x, z2b (at_ mapping (Z.to_nat x)) = false -> b <> x) by (intros x Hx ->; congruence).
  unfold blank. rewrite (proj2 (Z.eqb_neq b 32)), (proj2 (Z.eqb_neq b 9)) by now apply T.
  repeat split; apply T; reflexivity.
Qed.

Lemma word_run w rest : Forall word_byte w -> word (w ++ 32 :: rest) = Ok (w, 32 :: rest).
Proof.
  induction 1 as [|b w Hb _ IH]; [reflexivity|]. apply word_byte_spec in Hb as (H32 & _ & _ & _ & C).
  cbn [app word]. destruct (Z.eqb_spec b 32); [contradiction|]. rewrite C.
  destruct (w ++ 32 :: rest) eqn:E; [now destruct w|]. rewrite <- E in *. now rewrite IH.
Qed.

Lemma header_name_run name rest : Forall name_byte name -> header_name (name ++ 58 :: rest) = Ok (name, 58 :: rest).
Proof.
  induction 1 as [|b w Hb _ IH]; [reflexivity|]. pose proof (name_byte_spec b Hb) as (H58 & _).
  destruct Hb as [_ Hb]. cbn [app header_name]. destruct (Z.eqb_spec b 58); [contradiction|]. rewrite Hb. cbn [negb].
  destruct (w ++ 58 :: rest) eqn:E; [now destruct w|]. rewrite <- E in *. now rewrite IH.
Qed.

Lemma tokenize_run v rest : Forall value_byte v -> tokenize (v ++ 13 :: 10 :: rest) = Ok (length v, rest).
Proof.
  intros H. unfold tokenize. rewrite tokenize_fast_slow by lia.
  assert (E : tokenize_slow (v ++ 13 :: 10 :: rest) = Ok (13 :: 10 :: rest)).
  { induction H as [|b v Hb _ IH]; [reflexivity|]. cbn [app tokenize_slow].
    apply value_byte_spec in Hb as (_ & _ & ->). now rewrite andb_false_r. }
  rewrite E. cbn [Z.eqb Pos.eqb negb]. do 2 f_equal. rewrite length_app. lia.
Qed.

Lemma strip_ok v : value_ok v -> strip v = v.
Proof.
  intros (_ & _ & v' & b & -> & Hb). unfold strip. rewrite rev_app_distr. cbn [rev app skip_blanks].
  rewrite Hb. cbn [rev]. now rewrite rev_involutive.
Qed.

Lemma line_end_other b rest : b <> 10 -> b <> 13 -> line_end (b :: rest) = Ok None.
Proof. intros ? ?. cbn. destruct (Z.eqb_spec b 13), (Z.eqb_spec b 10); congruence. Qed.

Lemma cstr_id s : ~ In 0 s -> cstr s = s.
Proof.
  induction s as [|b s IH]; [reflexivity|]. intros H. cbn [cstr]. destruct (Z.eqb_spec b 0) as [->|]; [now destruct H; left|].
  f_equal. apply IH. intros ?. apply H. now right.
Qed.

Lemma cstr_label w : ~ In 0 w -> (length w < LABEL_SIZE)%nat -> cstr (label_of w) = w.
Proof.
  unfold label_of, LABEL_SIZE. intros H L. rewrite firstn_all2 by lia.
  replace (16 - length w)%nat with (S (15 - length w)) by lia. cbn [repeat].
  generalize (15 - length w)%nat as n. clear L. intros n.
  induction w as [|b w IH]; [reflexivity|]. cbn [app cstr]. destruct (Z.eqb_spec b 0) as [->|]; [now destruct H; left|].
  f_equal. apply IH. intros ?. apply H. now right.
Qed.

Lemma word_bytes_no0 w : Forall word_byte w -> ~ In 0 w.
Proof. rewrite List.Forall_forall. intros H I. apply H, word_byte_spec in I. tauto. Qed.

Lemma name_bytes_text k : Forall name_byte k -> ~ In 0 k /\ existsb (Z.eqb 44) k = false.
Proof.
  intros H. split.
  - rewrite List.Forall_forall in H. intros I. apply H, name_byte_spec in I. tauto.
  - induction H as [|b k Hb _ IH]; [reflexivity|]. apply name_byte_spec in Hb. cbn [existsb].
    rewrite IH, orb_false_r. apply Z.eqb_neq. lia.
Qed.

(** ** The header map a sequence of lines builds *)
Lemma equal_by_refl f s : equal_by f s s = true.
Proof. induction s as [|b s IH]; [reflexivity|]. cbn. now rewrite Z.eqb_refl. Qed.

Lemma kimv_equal_refl k : kimv_equal_to k k = true.
Proof. unfold kimv_equal_to. now rewrite Nat.eqb_refl, equal_by_refl. Qed.

Lemma kimv_find_none m k : Forall (fun e => kimv_equal_to (fst e) k = false) m -> kimv_find m k = None.
Proof. induction 1 as [|[k' r] m H _ IH]; [reflexivity|]. cbn in *. now rewrite H. Qed.

Lemma kimv_find_last m k r :
  Forall (fun e => kimv_equal_to (fst e) k = false) m -> kimv_find (m ++ [(k, r)]) k = Some r.
Proof.
  induction 1 as [|[k' r'] m H _ IH]; cbn in *; [now rewrite kimv_equal_refl|]. now rewrite H.
Qed.

Lemma kimv_update_last m k r f :
  Forall (fun e => kimv_equal_to (fst e) k = false) m -> kimv_update (m ++ [(k, r)]) k f = m ++ [(k, f r)].
Proof.
  induction 1 as [|[k' r'] m H _ IH]; cbn in *; [now rewrite kimv_equal_refl|]. rewrite H. now rewrite IH.
Qed.

Definition pairs (m : kimv_unordered_map) : list (list Z * list Z) := concat (map (fun e => map (pair (fst e)) (snd e)) m).
Definition add_pairs (h : kimv_unordered_map) (ps : list (list Z * list Z)) : kimv_unordered_map :=
  fold_left (fun h p => put_header h (fst p) (snd p)) ps h.

Lemma add_values acc k vs : forall r,
  Forall (fun e => kimv_equal_to (fst e) k = false) acc ->
  add_pairs (acc ++ [(k, r)]) (map (pair k) vs) = acc ++ [(k, r ++ vs)].
Proof.
  induction vs as [|v vs IH]; intros r H; [now rewrite app_nil_r|].
  cbn [map add_pairs fold_left fst snd]. unfold put_header at 2, kimv_index. rewrite kimv_find_last, kimv_update_last by assumption.
  unfold add_pairs in IH. rewrite IH by assumption. now rewrite <- app_assoc.
Qed.

Lemma add_pairs_map m : forall acc,
  distinct_keys m -> Forall (fun e => snd e <> []) m ->
  Forall (fun e' => Forall (fun e => kimv_equal_to (fst e) (fst e') = false) acc) m ->
  add_pairs acc (pairs m) = acc ++ m.
Proof.
  induction m as [|[k vs] m IH]; intros acc D V A; [now rewrite app_nil_r|].
  destruct D as [Dk D]. inversion_clear V as [|? ? V1 V2]. inversion_clear A as [|? ? A1 A2]. cbn [fst snd] in *.
  destruct vs as [|v vs]; [congruence|]. unfold pairs. cbn [map concat fst snd]. fold (pairs m).
  unfold add_pairs. rewrite fold_left_app. fold (add_pairs acc (pair k v :: map (pair k) vs)).
  assert (E : add_pairs acc ((k, v) :: map (pair k) vs) = acc ++ [(k, v :: vs)]).
  { cbn [add_pairs fold_left fst snd]. unfold put_header at 2, kimv_index. rewrite kimv_find_none by assumption.
    rewrite kimv_update_last by assumption. now apply add_values. }
  rewrite E. fold (add_pairs (acc ++ [(k, v :: vs)]) (pairs m)). rewrite IH; try assumption.
  - now rewrite <- app_assoc.
  - rewrite List.Forall_forall in *. intros e He. apply Forall_app. split; [exact (A2 e He)|].
    constructor; [|constructor]. exact (Dk e He).
Qed.

(** ** Header lines *)

Definition line_ok (p : list Z * list Z) : Prop :=
  Forall name_byte (fst p) /\ fst p <> [] /\ case_equals (fst p) (chars "cookie") = false /\ value_ok (snd p).
Definition pair_lines (ps : list (list Z * list Z)) : list Z := concat (map (fun p => header_line (fst p) (snd p)) ps).

Lemma header_lines_pairs m : header_lines m = pair_lines (pairs m).
Proof.
  unfold header_lines, pair_lines, pairs. induction m as [|[k vs] m IH]; [reflexivity|].
  cbn [map concat fst snd]. rewrite map_app, concat_app, IH. f_equal. now rewrite map_map.
Qed.

Lemma header_line_shape k v rest : header_line k v ++ rest = k ++ 58 :: 32 :: v ++ 13 :: 10 :: rest.
Proof. unfold header_line, crlf. rewrite <- !app_assoc. reflexivity. Qed.

Lemma headers_step f k v rest m h : line_ok (k, v) -> header m = [] -> headers m = Some h ->
  headers_loop (S f) (header_line k v ++ rest) m = headers_loop f rest (set_msg_headers m (Some (put_header h k v))).
Proof.
  intros (Hk & Nk & Ck & Hv) Hm Hh. cbn [fst snd] in *. rewrite header_line_shape.
  destruct k as [|b k]; [congruence|].
  pose proof (name_byte_spec b (Forall_inv Hk)) as (_ & _ & N10 & N13 & _ & Bb).
  cbn [headers_loop app]. rewrite line_end_other by assumption.
  destruct (name_bytes_text _ Hk) as [K0 K44].
  pose proof Hv as (Fv & (b0 & v0 & Ev & B0) & _).
  assert (T : tokenize (v ++ 13 :: 10 :: rest) = Ok (length v, rest)) by now apply tokenize_run.
  assert (SB : skip_blanks (tl (58 :: 32 :: v ++ 13 :: 10 :: rest)) = v ++ 13 :: 10 :: rest).
  { rewrite Ev. cbn [tl app skip_blanks]. change (blank 32) with true. cbn iota. now rewrite B0. }
  unfold bind at 1, lift at 1. cbn beta iota. unfold bind at 1. unfold header_start, deref.
  unfold bind at 1, lift at 1. cbn beta iota. rewrite Bb. cbn [negb].
  unfold bind at 1, lift at 1. change (b :: k ++ 58 :: 32 :: v ++ 13 :: 10 :: rest)
    with ((b :: k) ++ 58 :: 32 :: v ++ 13 :: 10 :: rest). rewrite header_name_run by assumption.
  cbn beta iota. unfold bind at 1, parse_header_field, modify. cbn beta iota. rewrite SB.
  destruct (v ++ 13 :: 10 :: rest) as [|x xs] eqn:Ex; [now rewrite Ev in Ex|]. rewrite <- Ex in *. clear x xs Ex.
  unfold ret at 1. cbn beta iota. unfold bind at 1, header_rest. rewrite T, firstn_app, firstn_all, Nat.sub_diag.
  cbn [firstn]. rewrite app_nil_r, strip_ok by assumption.
  unfold bind at 1, parse_header_value. rewrite Ev at 1. cbn [header set_msg_header]. cbn beta iota.
  unfold header_is. change (header (set_msg_header m (b :: k))) with (b :: k). rewrite cstr_id, Ck by assumption.
  change (headers (set_msg_header m (b :: k))) with (headers m). rewrite Hh.
  unfold ret. cbn beta iota. f_equal. unfold store_values, header_is.
  change (header (set_msg_header m (b :: k))) with (b :: k). rewrite K44, andb_false_r. destruct m; cbn in *. subst. reflexivity.
Qed.

Lemma headers_lines ps : forall f rest m h,
  Forall line_ok ps -> header m = [] -> headers m = Some h -> (length (pair_lines ps) < f)%nat ->
  headers_loop f (pair_lines ps ++ crlf ++ rest) m = (set_msg_headers m (Some (add_pairs h ps)), Ok rest).
Proof.
  induction ps as [|[k v] ps IH]; intros f rest m h Hps Hm Hh Hf; (destruct f as [|f]; [lia|]).
  - cbn. unfold bind, lift. destruct m; cbn in *. now subst.
  - inversion_clear Hps as [|? ? Hp Hps']. unfold pair_lines in *. cbn [map concat fst snd] in *.
    rewrite <- app_assoc. rewrite headers_step with (h := h) by assumption.
    rewrite IH with (h := put_header h k v); try assumption; try reflexivity.
    rewrite length_app in Hf. assert (0 < length (header_line k v))%nat by (unfold header_line; rewrite !length_app; cbn; lia). lia.
Qed.

Lemma pair_lines_ok m : Forall entry_ok m -> Forall line_ok (pairs m).
Proof.
  induction 1 as [|[k vs] m (Hk & Nk & Ck & _ & Hv) _ IH]; [constructor|]. unfold pairs in *. cbn [map concat fst snd] in *.
  apply Forall_app. split; [|exact IH]. induction Hv as [|v vs Hv _ IHv]; constructor; [|exact IHv].
  exact (conj Hk (conj Nk (conj Ck Hv))).
Qed.

(** ** The terminator of a head *)

Definition text_byte (b : Z) : Prop := b <> 10 /\ b <> 13.

Lemma scan_line w rest r : Forall text_byte w -> w <> [] -> scan (w ++ 13 :: 10 :: rest) r false = scan rest 1 false.
Proof.
  intros H N. assert (G : forall r, scan (w ++ 13 :: 10 :: rest) r false = scan (13 :: 10 :: rest) (match w with [] => r | _ => 0 end) false).
  { clear N. induction H as [|b w [N10 N13] _ IH]; intros r'; [reflexivity|]. cbn [app scan].
    destruct (Z.eqb_spec b 13), (Z.eqb_spec b 10); try contradiction. rewrite IH. now destruct w. }
  rewrite G. destruct w; [congruence|]. reflexivity.
Qed.

Lemma scan_lines ps rest : Forall line_ok ps -> scan (pair_lines ps ++ crlf ++ rest) 1 false = Ok rest.
Proof.
  induction 1 as [|[k v] ps (Hk & Nk & _ & Hv) _ IH]; [reflexivity|]. unfold pair_lines in *. cbn [map concat fst snd] in *.
  rewrite <- app_assoc, header_line_shape.
  change (k ++ 58 :: 32 :: v ++ 13 :: 10 :: ?r) with (k ++ [58; 32] ++ v ++ 13 :: 10 :: r).
  rewrite !app_assoc, <- (app_assoc _ v), <- !app_assoc. rewrite app_assoc, (app_assoc (k ++ _)).
  rewrite scan_line; [exact IH| |].
  - repeat (apply Forall_app; split).
    + eapply Forall_impl; [|exact Hk]. intros b Hb. apply name_byte_spec in Hb. unfold text_byte. tauto.
    + repeat constructor; discriminate.
    + eapply Forall_impl; [|exact (proj1 Hv)]. intros b Hb. apply value_byte_spec in Hb. unfold text_byte. tauto.
  - destruct k; [congruence|discriminate].
Qed.

(** ** The request line *)

Record request_ok (r : request_frame) (mw : list Z) (d : Z) : Prop := {
  ok_method : request_method r = label_of mw;
  ok_method_word : Forall word_byte mw /\ mw <> [] /\ (length mw < LABEL_SIZE)%nat;
  ok_location : Forall word_byte (request_location r) /\ ~ In 63 (request_location r);
  ok_query : Forall word_byte (request_query r);
  ok_version : request_version r = label_of (chars "HTTP/1." ++ [d]);
  ok_digit : 48 <= d <= 57;
  ok_entries : Forall entry_ok (request_headers r);
  ok_keys : distinct_keys (request_headers r) }.

Lemma question_none p : ~ In 63 p -> question p = length p.
Proof.
  induction p as [|b p IH]; [reflexivity|]. intros H. cbn [question]. destruct (Z.eqb_spec b 63) as [->|]; [now destruct H; left|].
  cbn [length]. f_equal. apply IH. intros ?. apply H. now right.
Qed.

Lemma question_app p q : ~ In 63 p -> question (p ++ 63 :: q) = length p.
Proof.
  induction p as [|b p IH]; [reflexivity|]. intros H. cbn [question app]. destruct (Z.eqb_spec b 63) as [->|]; [now destruct H; left|].
  cbn [length]. f_equal. apply IH. intros ?. apply H. now right.
Qed.

(** The path the client writes and what [split_path] makes of it. *)
Definition sent_location (r : request_frame) : list Z := match request_location r with [] => chars "/" | l => l end.
Definition sent_path (r : request_frame) : list Z :=
  match request_query r with [] => sent_location r | q => sent_location r ++ 63 :: q end.

Lemma request_line_path r : request_line r = cstr (request_method r) ++ 32 :: sent_path r ++ 32 :: cstr (request_version r) ++ crlf.
Proof.
  unfold request_line, sent_path, sent_location.
  destruct (request_query r); [reflexivity|]. rewrite <- !app_assoc. reflexivity.
Qed.

Lemma sent_path_ok r mw d : request_ok r mw d ->
  Forall word_byte (sent_path r) /\ sent_location r <> [] /\ ~ In 63 (sent_location r).
Proof.
  intros [_ _ [L1 L2] Q _ _ _ _]. unfold sent_path, sent_location.
  assert (W : forall c, 33 <= c <= 126 -> word_byte c) by (intros; unfold word_byte; lia).
  destruct (request_location r) as [|b l].
  - split; [|split; [discriminate|]].
    + change (chars "/") with [47]. destruct (request_query r); cbn [app];
        repeat (apply List.Forall_cons; [apply W; lia|]); first [exact Q | constructor].
    + intros [H|[]]. discriminate.
  - split; [|split; [discriminate|exact L2]]. destruct (request_query r); [exact L1|].
    apply Forall_app. split; [exact L1|]. constructor; [apply W; lia|exact Q].
Qed.

Lemma split_path_run r mw d m l : request_ok r mw d -> query m <> None -> location m = Some l ->
  split_path (sent_path r) m =
  (set_msg_location (match request_query r with [] => m | q => set_msg_query m (Some q) end) (Some (sent_location r)), Ok tt).
Proof.
  intros Hr Hq Hl. destruct (sent_path_ok r mw d Hr) as (_ & N & N63). unfold split_path, sent_path. cbv zeta.
  destruct (sent_location r) as [|b loc] eqn:El; [congruence|].
  destruct (request_query r) as [|c q].
  - rewrite question_none, Nat.ltb_irrefl, andb_false_r by assumption.
    unfold parse_path_value, modify. now rewrite Hl.
  - rewrite question_app by assumption. rewrite length_app.
    destruct (Nat.ltb_spec 0 (length (b :: loc))) as [_|C]; [|cbn in C; lia].
    destruct (Nat.ltb_spec (length (b :: loc)) (length (b :: loc) + length (63%Z :: c :: q))) as [_|C]; [|cbn in C; lia].
    cbn [andb].
    replace (length (b :: loc) + length (63%Z :: c :: q) - length (b :: loc) - 1)%nat with (length (c :: q)) by (cbn; lia).
    replace (length (b :: loc) + length (63%Z :: c :: q) - (length (c :: q) + 1))%nat with (length (b :: loc)) by (cbn; lia).
    assert (E1 : substr ((b :: loc) ++ 63 :: c :: q) (length (b :: loc) + 1) (length (c :: q)) = c :: q).
    { unfold substr. rewrite skipn_app, skipn_all2 by lia.
      replace (length (b :: loc) + 1 - length (b :: loc))%nat with 1%nat by lia. apply firstn_all. }
    assert (E2 : firstn (length (b :: loc)) ((b :: loc) ++ 63 :: c :: q) = b :: loc) by apply take_app_length.
    rewrite E1, E2.
    unfold bind, parse_query_value, parse_path_value, modify. destruct (query m); [|congruence].
    cbn [location set_msg_query]. now rewrite Hl.
Qed.

Lemma version_run d m v rest : 48 <= d <= 57 -> version m = Some v ->
  process_version (chars "HTTP/1." ++ d :: 13 :: rest) m =
  (set_msg_version m (Some (label_of (chars "HTTP/1." ++ [d]))), Ok (13 :: rest)).
Proof.
  intros Hd Hv. unfold process_version.
  destruct (Nat.ltb_spec (length (chars "HTTP/1." ++ d :: 13 :: rest)) 9) as [C|_]; [cbn in C; lia|].
  unfold bind at 1, lift at 1.
  change (expect (chars "HTTP/1.") (chars "HTTP/1." ++ d :: 13 :: rest)) with (@Ok suffix (d :: 13 :: rest)).
  cbn beta iota. unfold bind at 1, lift at 1. cbn [deref].
  destruct (Z.ltb_spec d 48); [lia|]. destruct (Z.ltb_spec 57 d); [lia|]. cbn [orb].
  unfold bind, parse_version, modify, ret.
  change (firstn 8 (chars "HTTP/1." ++ d :: 13 :: rest)) with (chars "HTTP/1." ++ [d]).
  change (skipn 8 (chars "HTTP/1." ++ d :: 13 :: rest)) with (13 :: rest).
  rewrite Hv. reflexivity.
Qed.

Lemma bind_ok {A B} (p : parse A) (k : A -> parse B) m m' a : p m = (m', Ok a) -> bind p k m = k a m'.
Proof. unfold bind. now intros ->. Qed.

Lemma lift_ok {A} (o : outcome A) a m : o = Ok a -> lift o m = (m, Ok a).
Proof. now intros ->. Qed.

Ltac run_with E := erewrite bind_ok by exact E; cbn beta iota.

Lemma next_word_run b rest : b <> 32 -> next_word (32 :: b :: rest) = Ok (b :: rest).
Proof. intros H. cbn. destruct (Z.eqb_spec b 32); [contradiction|reflexivity]. Qed.

Lemma cstr_version d : 48 <= d <= 57 -> cstr (label_of (chars "HTTP/1." ++ [d])) = chars "HTTP/1." ++ [d].
Proof.
  intros Hd. apply cstr_label; [|cbn; unfold LABEL_SIZE; lia].
  intros H. apply in_app_iff in H as [H|[H|[]]]; [|lia]. cbn in H. intuition discriminate.
Qed.

Lemma request_run r mw d r0 rest : request_ok r mw d ->
  process_request (client_head r ++ rest) (prepare_for_request_parsing r0) =
  (mk_message [] (Some (request_version r)) (Some (request_method r)) None (Some (sent_location r))
     (Some (match request_query r with [] => request_query r0 | q => q end)) (Some []) (Some (request_headers r)),
   Ok rest).
Proof.
  intros Hr. destruct (sent_path_ok r mw d Hr) as (Wp & Np & _).
  pose proof Hr as [Em (Wm & Nm & Lm) _ _ Ev Hd He Hk].
  set (m0 := prepare_for_request_parsing r0).
  assert (Eh : client_head r ++ rest = mw ++ 32 :: sent_path r ++ 32 :: chars "HTTP/1." ++ d :: 13 :: 10 ::
    pair_lines (pairs (request_headers r)) ++ crlf ++ rest).
  { unfold client_head, construct_head_full. rewrite request_line_path, header_lines_pairs, Em, Ev.
    rewrite cstr_version, (cstr_label mw) by (assumption || now apply word_bytes_no0).
    rewrite <- !app_assoc. cbn [app]. rewrite <- !app_assoc. cbn [app]. rewrite <- !app_assoc. reflexivity. }
  rewrite Eh. clear Eh. unfold process_request.
  destruct mw as [|b0 mw]; [congruence|].
  pose proof (word_byte_spec b0 (Forall_inv Wm)) as (_ & N10 & N13 & _).
  run_with (lift_ok (skip_line_end ((b0 :: mw) ++ 32 :: sent_path r ++ 32 :: chars "HTTP/1." ++ d :: 13 :: 10 ::
    pair_lines (pairs (request_headers r)) ++ crlf ++ rest)) _ m0
    ltac:(unfold skip_line_end; cbn [app]; rewrite line_end_other by assumption; reflexivity)).
  erewrite bind_ok by reflexivity. cbn beta iota.
  change (b0 :: mw ++ ?x) with ((b0 :: mw) ++ x).
  erewrite bind_ok by (apply lift_ok, word_run, Wm). cbn beta iota.
  erewrite bind_ok by reflexivity. cbn beta iota.
  destruct (sent_path r) as [|p0 p] eqn:Ep.
  { exfalso. unfold sent_path in Ep. destruct (request_query r); [congruence|]. now destruct (sent_location r). }
  cbn [app]. erewrite bind_ok by (apply lift_ok, next_word_run; apply word_byte_spec, (Forall_inv Wp)). cbn beta iota.
  erewrite bind_ok by reflexivity. cbn beta iota.
  change (p0 :: p ++ ?x) with ((p0 :: p) ++ x).
  erewrite bind_ok by (apply lift_ok, word_run, Wp). cbn beta iota.
  rewrite <- Ep. erewrite bind_ok by (eapply split_path_run; [exact Hr|discriminate|reflexivity]). cbn beta iota.
  erewrite bind_ok by (apply lift_ok, next_word_run; discriminate). cbn beta iota.
  erewrite bind_ok by (apply (version_run d _ (request_version r0)); [exact Hd|];
    destruct (request_query r); reflexivity). cbn beta iota.
  erewrite bind_ok by reflexivity. cbn beta iota.
  unfold process_headers. erewrite bind_ok by reflexivity. cbn beta iota.
  rewrite headers_lines with (h := []); try assumption.
  - rewrite add_pairs_map; [|assumption| |].
    + rewrite Em, Ev. unfold m0. destruct (request_query r); reflexivity.
    + eapply Forall_impl; [|exact He]. intros e (_ & _ & _ & V & _). exact V.
    + apply List.Forall_forall. intros e _. constructor.
  - now apply pair_lines_ok.
  - unfold m0. destruct (request_query r); reflexivity.
  - unfold m0. destruct (request_query r); reflexivity.
  - rewrite length_app. lia.
Qed.

Lemma client_head_completed r mw d rest : request_ok r mw d -> is_completed (client_head r ++ rest) 0 = Ok rest.
Proof.
  intros Hr. rewrite is_completed_scan. destruct (sent_path_ok r mw d Hr) as (Wp & _ & _).
  pose proof Hr as [Em (Wm & Nm & Lm) _ _ Ev Hd He Hk].
  unfold client_head, construct_head_full. rewrite request_line_path, header_lines_pairs, Em, Ev.
  rewrite cstr_version, (cstr_label mw) by (assumption || now apply word_bytes_no0).
  rewrite <- (app_assoc _ crlf rest), <- app_assoc.
  assert (G : forall x, (mw ++ 32 :: sent_path r ++ 32 :: (chars "HTTP/1." ++ [d]) ++ crlf) ++ x =
    (mw ++ [32] ++ sent_path r ++ [32] ++ chars "HTTP/1." ++ [d]) ++ 13 :: 10 :: x).
  { intros x. rewrite <- !app_assoc. cbn [app]. rewrite <- !app_assoc. reflexivity. }
  rewrite G, scan_line.
  - apply scan_lines. now apply pair_lines_ok.
  - assert (T : forall w, Forall word_byte w -> Forall text_byte w).
    { intros w Hw. eapply Forall_impl; [|exact Hw]. intros b Hb. apply word_byte_spec in Hb. unfold text_byte. tauto. }
    repeat (apply Forall_app; split); try (now apply T); repeat constructor; discriminate || lia.
  - destruct mw; [congruence|discriminate].
Qed.

(** (C6) What a client sends, a server reads.  The head [client::send] writes for a well-formed request
    frame, with anything behind it, is parsed to the same method, location ("/" for an empty one), query,
    version and header map, every field with all its values in order, no cookies, and the length of the
    head as the result.  Without a query the target frame keeps the query it had. *)
Theorem http_request_roundtrip (r r0 : request_frame) (mw : list Z) (d : Z) (rest : list Z) :
  request_ok r mw d ->
  parse_request (prepare_for_request_parsing r0) (client_head r ++ rest) 0 =
  (mk_message [] (Some (request_version r)) (Some (request_method r)) None (Some (sent_location r))
     (Some (match request_query r with [] => request_query r0 | q => q end)) (Some []) (Some (request_headers r)),
   parsed (Z.of_nat (length (client_head r)))).
Proof.
  intros Hr. unfold parse_request. erewrite bind_ok by (eapply lift_ok, client_head_completed, Hr). cbn beta iota.
  erewrite request_run by exact Hr. unfold finish. do 2 f_equal. rewrite length_app. lia.
Qed.

Definition example_request : request_frame :=
  mk_request [] [(chars "Host", [chars "a.b"]); (chars "X-A", [chars "1"; chars "2 3"])] (chars "q=1?") [] (chars "/x") []
    (label_of (chars "GET")) (label_of (chars "HTTP/1.1")).

Lemma example_request_ok : request_ok example_request (chars "GET") 49.
Proof.
  assert (W : forall w, forallb (fun b => (32 <? b) && (b <? 127)) w = true -> Forall word_byte w).
  { intros w H. rewrite forallb_forall in H. apply List.Forall_forall. intros b Hb. apply H in Hb. unfold word_byte. lia. }
  assert (N : forall w, forallb (fun b => (0 <=? b) && (b <? 256) && z2b (at_ mapping (Z.to_nat b))) w = true ->
    Forall name_byte w).
  { intros w H. rewrite forallb_forall in H. apply List.Forall_forall. intros b Hb. apply H in Hb. unfold name_byte.
    apply andb_true_iff in Hb as [? ?]. split; [lia|assumption]. }
  assert (V : forall w, forallb (fun b => (32 <=? b) && (b <? 127)) w = true -> Forall value_byte w).
  { intros w H. rewrite forallb_forall in H. apply List.Forall_forall. intros b Hb. apply H in Hb. unfold value_byte. lia. }
  assert (VO : forall b w c, forallb (fun b => (32 <=? b) && (b <? 127)) (b :: w ++ [c]) = true -> blank b = false ->
    blank c = false -> value_ok (b :: w ++ [c])).
  { intros b w c H Hb Hc. split; [now apply V|]. split; [now exists b, (w ++ [c])|]. now exists (b :: w), c. }
  constructor.
  - reflexivity.
  - split; [now apply W|]. split; [discriminate|]. cbn. unfold LABEL_SIZE. lia.
  - split; [now apply W|]. cbn. intuition discriminate.
  - now apply W.
  - reflexivity.
  - lia.
  - constructor; [|constructor; [|constructor]].
    + split; [now apply N|]. do 3 (split; [discriminate || reflexivity|]). constructor; [|constructor].
      now apply (VO 97 [46] 98).
    + split; [now apply N|]. do 3 (split; [discriminate || reflexivity|]). constructor; [|constructor; [|constructor]].
      * split; [now apply V|]. split; [now exists 49, []|]. now exists [], 49.
      * now apply (VO 50 [32] 51).
  - cbn. repeat split; repeat constructor.
Qed.

Lemma http_request_roundtrip_witness :
  request_ok example_request (chars "GET") 49 /\
  snd (parse_request (prepare_for_request_parsing request_initial) (client_head example_request ++ [1; 2]) 0) = parsed 53.
Proof.
  split; [exact example_request_ok|].
  rewrite (http_request_roundtrip example_request request_initial (chars "GET") 49 [1; 2] example_request_ok).
  vm_compute. reflexivity.
Defined.

(** ** Numerals *)

Definition fold_digits (ds : list Z) (v : Z) : Z := fold_left (fun acc b => acc * 10 + (b - 48)) ds v.
Definition numeral (ds : list Z) : Prop := Forall (fun b => isdigit b = true) ds.

Lemma isdigit_range b : isdigit b = true <-> 48 <= b <= 57.
Proof. unfold isdigit. lia. Qed.

Lemma to_chars_spec fuel : forall n acc, 0 <= n < 10 ^ Z.of_nat fuel ->
  exists ds, to_chars_loop fuel n acc = ds ++ acc /\ numeral ds /\ (n = 0 -> (1 <= fuel)%nat -> ds <> []) /\
    (0 < n -> ds <> []) /\ fold_digits ds 0 = n.
Proof.
  induction fuel as [|f IH]; intros n acc Hn.
  - exists []. cbn in Hn. repeat split; try constructor; try lia. cbn. lia.
  - cbn [to_chars_loop]. destruct (Z.ltb_spec n 10).
    + exists [48 + n]. repeat split; try discriminate; [constructor; [apply isdigit_range; lia|constructor]|].
      unfold fold_digits. cbn. lia.
    + rewrite Nat2Z.inj_succ, Z.pow_succ_r in Hn by lia.
      destruct (IH (n / 10) ((48 + n mod 10) :: acc) ltac:(lia)) as (ds & E & N & _ & D & V).
      exists (ds ++ [48 + n mod 10]). rewrite E, <- app_assoc. split; [reflexivity|]. repeat split.
      * apply Forall_app. split; [exact N|]. constructor; [apply isdigit_range; lia|constructor].
      * now intros _ _ ?%app_eq_nil.
      * now intros _ ?%app_eq_nil.
      * unfold fold_digits in *. rewrite fold_left_app, V. cbn. lia.
Qed.

Lemma digits_value_run ds rest v : numeral ds ->
  match rest with [] => True | b :: _ => isdigit b = false end -> digits_value (ds ++ rest) v = fold_digits ds v.
Proof.
  intros N R. revert v. induction N as [|b ds Hb _ IH]; intros v.
  - cbn. destruct rest as [|b rest]; [reflexivity|]. cbn. now rewrite R.
  - cbn [app digits_value]. rewrite Hb. apply IH.
Qed.

Lemma size_to_string_spec n : 0 <= n < 2 ^ 64 ->
  numeral (size_to_string n) /\ size_to_string n <> [] /\ from_string_size (size_to_string n) = Some n.
Proof.
  intros Hn. destruct (to_chars_spec 20 n []) as (ds & E & N & Z0 & Z1 & V); [lia|]. unfold size_to_string.
  rewrite app_nil_r in E. rewrite E. assert (Ne : ds <> []) by (destruct (Z.eq_dec n 0); [apply Z0; lia|apply Z1; lia]).
  do 2 (split; [assumption|]). unfold from_string_size. destruct ds as [|b ds]; [congruence|].
  rewrite (Forall_inv N). rewrite <- (app_nil_r (b :: ds)), digits_value_run by (assumption || exact I).
  rewrite V. now rewrite (proj2 (Z.ltb_lt n (2 ^ 64))) by lia.
Qed.

(** ** Reading a range *)
Lemma first_from_app p pre b rest i : Forall (fun x => p x = false) pre -> p b = true ->
  first_from p (pre ++ b :: rest) i = Some (i + length pre)%nat.
Proof.
  intros H Hb. revert i. induction H as [|x pre Hx _ IH]; intros i; cbn.
  - rewrite Hb. f_equal. lia.
  - rewrite Hx, IH. f_equal. lia.
Qed.

Lemma numeral_nth ds i : numeral ds -> (i < length ds)%nat -> isdigit (nth i ds 0) = true.
Proof. intros N Hi. unfold numeral in N. rewrite List.Forall_forall in N. apply N, nth_In, Hi. Qed.

Section RangeItem.
Context (before : Z) (unit_ da db : list Z) (c : Z).
Hypothesis Hda : numeral da.
Hypothesis Hc : isdigit c = false.
Let item := (unit_ ++ c :: da) ++ 45 :: db.
Let start := length (unit_ ++ c :: da).

Lemma item_digit i : (i < length da)%nat -> isdigit (at_ item (start - S i)) = true.
Proof.
  intros Hi. unfold at_, item, start. rewrite length_app. cbn [length].
  rewrite app_nth1 by (rewrite length_app; cbn; lia). rewrite app_nth2 by lia.
  replace (length unit_ + S (length da) - S i - length unit_)%nat with (S (length da - S i)) by lia.
  cbn [nth]. apply numeral_nth; [assumption|lia].
Qed.

Lemma item_delimiter : at_ item (start - S (length da)) = c.
Proof.
  unfold at_, item, start. rewrite length_app. cbn [length].
  rewrite app_nth1 by (rewrite length_app; cbn; lia). rewrite app_nth2 by lia.
  now replace (length unit_ + S (length da) - S (length da) - length unit_)%nat with 0%nat by lia.
Qed.

Lemma left_digits_run fuel k : (length da < k + fuel)%nat -> (k <= length da)%nat ->
  left_digits fuel before item (Z.of_nat start) (Z.of_nat k) = Z.of_nat (length da).
Proof.
  revert k. induction fuel as [|f IH]; intros k Hf Hk; [lia|]. cbn [left_digits].
  assert (Hs : (length da < start)%nat) by (unfold start; rewrite length_app; cbn; lia).
  unfold byte_at. destruct (Z.ltb_spec (Z.of_nat start - Z.of_nat k - 1) 0); [lia|].
  replace (Z.to_nat (Z.of_nat start - Z.of_nat k - 1)) with (start - S k)%nat by lia.
  destruct (Nat.eq_dec k (length da)) as [->|Ne].
  - rewrite item_delimiter, Hc. reflexivity.
  - rewrite item_digit by lia. destruct (Z.leb_spec (Z.of_nat k) (Z.of_nat start - 1)); [|lia].
    cbn [andb]. replace (Z.of_nat k + 1) with (Z.of_nat (S k)) by lia. apply IH; lia.
Qed.
End RangeItem.

Lemma right_digits_run db : numeral db -> right_digits db = length db.
Proof.
  induction 1 as [|b db Hb _ IH]; [reflexivity|]. cbn [right_digits length]. rewrite Hb.
  apply isdigit_range in Hb. destruct (Z.eqb_spec b 0); [lia|]. cbn. now rewrite IH.
Qed.

(** The header "bytes=a-b" asks for the range the numerals say. *)
Lemma range_of_item_run before a b : 0 <= a < npos -> 0 <= b < npos ->
  range_of_item before (chars "bytes=" ++ size_to_string a ++ [45] ++ size_to_string b) = [(a, b)].
Proof.
  unfold npos. intros Ha Hb.
  destruct (size_to_string_spec a ltac:(lia)) as (Na & Ea & Va). destruct (size_to_string_spec b ltac:(lia)) as (Nb & Eb & Vb).
  set (da := size_to_string a) in *. set (db := size_to_string b) in *.
  assert (Item : chars "bytes=" ++ da ++ [45] ++ db = (chars "bytes" ++ 61 :: da) ++ 45 :: db)
    by (rewrite <- app_assoc; reflexivity). rewrite Item.
  assert (F : find_char ((chars "bytes" ++ 61 :: da) ++ 45 :: db) 45 0 =
    mk_settle (length (chars "bytes" ++ 61 :: da)) (length (chars "bytes" ++ 61 :: da) + 1) true).
  { unfold find_char. rewrite skipn_O, first_from_app; [reflexivity| |reflexivity].
    apply Forall_app. split; [repeat constructor|]. constructor; [reflexivity|].
    eapply Forall_impl; [|exact Na]. intros x Hx. apply isdigit_range in Hx. apply Z.eqb_neq. lia. }
  assert (La : (0 < length da)%nat) by (destruct da; [congruence|cbn; lia]).
  assert (Lb : (0 < length db)%nat) by (destruct db; [congruence|cbn; lia]).
  assert (Ls : length (chars "bytes" ++ 61 :: da) = (6 + length da)%nat) by (rewrite length_app; reflexivity).
  assert (Rs : range_start before ((chars "bytes" ++ 61 :: da) ++ 45 :: db) (length (chars "bytes" ++ 61 :: da)) = a).
  { unfold range_start. rewrite Ls at 1. change (0 <? 6 + length da)%nat with true.
    rewrite item_digit with (i := 0%nat) by assumption. cbn [andb]. cbv zeta.
    change 1 with (Z.of_nat 1). rewrite left_digits_run by (reflexivity || assumption || lia). rewrite Nat2Z.id.
    unfold substr. rewrite Ls, Nat.add_sub.
    change (skipn 6 ((chars "bytes" ++ 61 :: da) ++ 45 :: db)) with (da ++ 45 :: db).
    now rewrite take_app_length, Va. }
  assert (Re : range_end ((chars "bytes" ++ 61 :: da) ++ 45 :: db) (length (chars "bytes" ++ 61 :: da))
    (length (chars "bytes" ++ 61 :: da) + 1) = b).
  { set (pre := chars "bytes" ++ 61 :: da). unfold range_end.
    rewrite (proj2 (Nat.ltb_lt (length pre + 1) _)) by (rewrite length_app; cbn [length]; lia).
    unfold substr. rewrite Nat.add_1_r.
    assert (Sk : skipn (S (length pre)) (pre ++ 45 :: db) = db).
    { rewrite skipn_app, skipn_all2 by lia. now rewrite Nat.sub_succ_l, Nat.sub_diag by lia. }
    rewrite Sk, right_digits_run by assumption. rewrite (proj2 (Nat.ltb_lt 0 _)) by assumption.
    now rewrite firstn_all, Vb. }
  unfold range_of_item. rewrite F. cbn [found settle_start settle_end]. rewrite Rs, Re. unfold npos.
  destruct (Z.eqb_spec a (2 ^ 64 - 1)); [lia|]. reflexivity.
Qed.

(** (C40) Byte ranges stay inside the content.  For any pair of 64-bit bounds, absent ones included, and any
    content length, [get_range] returns an offset and a length whose sum does not pass the end, without
    wrap-around, and asking again with the range it changed gives the same.  The header "bytes=a-b" is
    read as the pair (a, b); the part sent for it then has b - a bytes from a, and is announced as "bytes
    a-b": RFC 9110 counts the last byte in, so the part is one byte short.  A suffix of k bytes gives the
    last k bytes, and nothing when the content is shorter. *)
Theorem http_range_bounds (first second n : Z) :
  0 <= first <= npos -> 0 <= second <= npos -> 0 <= n < npos ->
  (let '(range, (off, len)) := get_range (first, second) n in
   0 <= off /\ 0 <= len /\ off + len <= n /\ get_range range n = (range, (off, len))) /\
  (forall before, first <= second -> second < n ->
   range_of_item before (chars "bytes=" ++ size_to_string first ++ [45] ++ size_to_string second) = [(first, second)] /\
   snd (get_range (first, second) n) = (first, second - first) /\
   construct_content_range first (second - first) n =
     chars "bytes " ++ size_to_string first ++ [45] ++ size_to_string second ++ [47] ++ size_to_string n) /\
  snd (get_range (npos, second) n) =
    (if second =? npos then (0, n) else if second <=? n then (n - second, second) else (n, 0)).
Proof.
  intros H1 H2 Hn. assert (W : forall x, 0 <= x <= n -> u64 x = x) by (intros; apply wrapU_id; unfold fits, npos in *; lia).
  assert (B : forall f s, 0 <= f <= npos -> 0 <= s <= npos ->
    let '(range, (off, len)) := get_range (f, s) n in
    0 <= off /\ 0 <= len /\ off + len <= n /\ (range = (f, s) /\ f = npos /\ s = npos \/
      range = (off, off + len) /\ off + len <= n)).
  { intros f s Hf Hs. unfold get_range.
    destruct (Z.eqb_spec f npos) as [Ef|Ef], (Z.eqb_spec s npos) as [Es|Es]; cbn [andb].
    - do 3 (split; [lia|]). now left.
    - repeat case_cmp; rewrite ?W by lia; repeat case_cmp; rewrite ?W by lia; try lia;
        (do 3 (split; [lia|])); (right; split; [f_equal; lia|lia]).
    - repeat case_cmp; rewrite ?W by lia; try lia; (do 3 (split; [lia|])); (right; split; [f_equal; lia|lia]).
    - repeat case_cmp; rewrite ?W by lia; try lia; (do 3 (split; [lia|])); (right; split; [f_equal; lia|lia]). }
  split; [|split].
  - specialize (B first second H1 H2). destruct (get_range (first, second) n) as [range [off len]] eqn:E.
    destruct B as (B1 & B2 & B3 & B). do 3 (split; [assumption|]).
    destruct B as [(-> & -> & ->)|[-> B]]; [congruence|].
    unfold get_range. destruct (Z.eqb_spec off npos); [lia|]. destruct (Z.eqb_spec (off + len) npos); [lia|].
    cbn [andb]. destruct (Z.ltb_spec n off); [lia|]. destruct (Z.ltb_spec n (off + len)); [lia|].
    destruct (Z.ltb_spec (off + len) off); [lia|]. replace (off + len - off) with len by lia. now rewrite W by lia.
  - intros before Hle Hlt. split; [apply range_of_item_run; lia|]. split.
    + unfold get_range. destruct (Z.eqb_spec first npos); [lia|]. destruct (Z.eqb_spec second npos); [lia|].
      cbn [andb]. destruct (Z.ltb_spec n first); [lia|]. destruct (Z.ltb_spec n second); [lia|].
      destruct (Z.ltb_spec second first); [lia|]. cbn [snd]. now rewrite W by lia.
    + unfold construct_content_range. rewrite W by lia. now replace (first + (second - first)) with second by lia.
  - unfold get_range. rewrite Z.eqb_refl. cbn [andb]. destruct (Z.eqb_spec second npos); [reflexivity|].
    destruct (Z.eqb_spec n npos); [lia|].
    destruct (Z.ltb_spec n second), (Z.leb_spec second n); try lia; rewrite W by lia.
    + rewrite Z.ltb_irrefl, Z.sub_0_r, Z.ltb_irrefl. cbn [snd]. rewrite W by lia. f_equal. lia.
    + rewrite Z.ltb_irrefl. destruct (Z.ltb_spec n (n - second)); [lia|]. cbn [snd].
      replace (n - (n - second)) with second by lia. now rewrite W by lia.
Qed.

Lemma http_range_bounds_witness :
  range_of_item 0 (chars "bytes=0-499") = [(0, 499)] /\ snd (get_range (0, 499) 1000) = (0, 499).
Proof.
  destruct (http_range_bounds 0 499 1000) as (_ & H & _); [unfold npos; lia|unfold npos; lia|unfold npos; lia|].
  destruct (H 0 ltac:(lia) ltac:(lia)) as (E1 & E2 & _). split; [exact E1|exact E2].
Defined.
