(* ===== verification/Variant.v ===== *)
(** * Variants (src/vitex/core.cpp: [variant])

    The tagged union of schema values.  The short-string buffer and the heap buffer of a string hold the
    same bytes, so a string is its bytes here; a number is the 64 bits of its [double].  The conversions
    between a double and text belong to [std::to_chars] and [std::from_chars] and are arguments of the
    definitions that use them. *)
From S2P Require Import Prelude Text TextEdit Codec Decimal.

(** The tags, in the order of their codes; [unknown] is a byte that is no tag. *)
Inductive var_type :=
| type_null | type_undefined | type_object | type_array | type_pointer | type_string | type_binary
| type_integer | type_number | type_decimal | type_boolean | type_unknown (code : Z).

#[export] Instance var_type_eq_dec : EqDecision var_type.
Proof. solve_decision. Defined.

Definition type_code (t : var_type) : Z :=
  match t with
  | type_null => 0 | type_undefined => 1 | type_object => 2 | type_array => 3 | type_pointer => 4
  | type_string => 5 | type_binary => 6 | type_integer => 7 | type_number => 8 | type_decimal => 9
  | type_boolean => 10 | type_unknown code => code
  end.
Definition type_of_code (c : Z) : var_type :=
  if c =? 0 then type_null else if c =? 1 then type_undefined else if c =? 2 then type_object
  else if c =? 3 then type_array else if c =? 4 then type_pointer else if c =? 5 then type_string
  else if c =? 6 then type_binary else if c =? 7 then type_integer else if c =? 8 then type_number
  else if c =? 9 then type_decimal else if c =? 10 then type_boolean else type_unknown c.

Inductive variant :=
| V_null | V_undefined | V_object | V_array
| V_pointer (pointer : Z)
| V_string (text : list Z)
| V_binary (data : list Z)
| V_integer (integer : Z)
| V_number (bits : Z)
| V_decimal (value : decimal)
| V_boolean (boolean : bool)
| V_unknown (code : Z).

#[export] Instance variant_eq_dec : EqDecision variant.
Proof. solve_decision. Defined.

Definition get_type (v : variant) : var_type :=
  match v with
  | V_null => type_null | V_undefined => type_undefined | V_object => type_object | V_array => type_array
  | V_pointer _ => type_pointer | V_string _ => type_string | V_binary _ => type_binary
  | V_integer _ => type_integer | V_number _ => type_number | V_decimal _ => type_decimal
  | V_boolean _ => type_boolean | V_unknown c => type_unknown c
  end.

(** ** Queries *)

Definition get_string (v : variant) : list Z :=
  match v with V_string s | V_binary s => s | _ => [] end.
Definition variant_size (v : variant) : Z :=
  match v with
  | V_pointer _ => 8
  | V_string s | V_binary s => Z.of_nat (length s)
  | V_decimal d => decimal_size d
  | V_integer _ | V_number _ => 8
  | V_boolean _ => 1
  | _ => 0
  end.
Definition is_string (v : variant) (text : list Z) : bool := bool_decide (get_string v = text).
Definition is_object (v : variant) : bool :=
  bool_decide (get_type v = type_object) || bool_decide (get_type v = type_array).
Definition is_type (v : variant) (t : var_type) : bool := bool_decide (get_type v = t).
Definition get_pointer (v : variant) : Z := match v with V_pointer p => p | _ => 0 end.

Section Doubles.
(** Text of a double, a double from text, and its comparisons. *)
Context (number_to_string : Z -> list Z) (number_from_string : list Z -> option Z).

Definition boolean_text (b : bool) : list Z := if b then chars "true" else chars "false".

Definition serialize (v : variant) : list Z :=
  match v with
  | V_null => chars "$null$"
  | V_undefined => chars "$undefined$"
  | V_object => chars "${}$"
  | V_array => chars "$[]$"
  | V_pointer _ => chars "$void*$"
  | V_string s => s
  | V_binary s => chars "`" ++ bep45_encode s ++ chars "`"
  | V_decimal d => if is_nan d then chars "$null$" else to_string d
  | V_integer i => to_chars i
  | V_number b => number_to_string b
  | V_boolean b => boolean_text b
  | V_unknown _ => []
  end.

Definition get_blob (v : variant) : list Z :=
  match v with
  | V_string s | V_binary s => s
  | V_decimal d => to_string d
  | V_integer i => to_chars i
  | V_number b => number_to_string b
  | V_boolean b => if b then chars "1" else chars "0"
  | _ => []
  end.
Definition get_decimal (v : variant) : decimal :=
  match v with
  | V_decimal d => d
  | V_integer i => decimal_of_text (to_chars i)
  | V_number b => decimal_of_text (number_to_string b)
  | V_boolean b => decimal_of_text (if b then chars "1" else chars "0")
  | V_string s => decimal_of_text s
  | _ => decimal_nan
  end.

(** [from_string<int64_t>] (std::from_chars): a minus sign, digits, and the range of [int64_t]. *)
Definition from_string_int64 (s : list Z) : option Z :=
  let negative := match s with c :: _ => c =? 45 | [] => false end in
  let body := if negative then tl s else s in
  match body with
  | c :: _ =>
      if isdigit c then
        let n := digits_value body 0 in
        if negative then (if n <=? 2 ^ 63 then Some (- n) else None)
        else (if n <? 2 ^ 63 then Some n else None)
      else None
  | [] => None
  end.

Definition text_front (s : list Z) : Z := match s with c :: _ => c | [] => 0 end.
Definition text_back (s : list Z) : Z := List.last s 0.

(** The final branch of [deserialize]: binary data between grave accents, or a string. *)
Definition deserialize_text (text : list Z) : variant :=
  if (2 <? length text)%nat && (text_front text =? 96) && (text_back text =? 96)
  then V_binary (bep45_decode (substr text 1 (length text - 2))) else V_string text.

(** [None] is the exception [has_decimal] throws. *)
Definition deserialize (text : list Z) (strict : bool) : option variant :=
  if negb strict && negb (bool_decide (text = [])) then
    if (2 <? length text)%nat && (text_front text =? 36) && (text_back text =? 36) then
      Some (if bool_decide (text = chars "$null$") then V_null
            else if bool_decide (text = chars "$undefined$") then V_undefined
            else if bool_decide (text = chars "${}$") then V_object
            else if bool_decide (text = chars "$[]$") then V_array
            else if bool_decide (text = chars "$void*$") then V_pointer 0
            else deserialize_text text)
    else if bool_decide (text = chars "true") then Some (V_boolean true)
    else if bool_decide (text = chars "false") then Some (V_boolean false)
    else if has_number text then
      if has_integer text then
        Some (match from_string_int64 text with Some n => V_integer n | None => deserialize_text text end)
      else
        d ← has_decimal text;
        Some (if (d : bool) then V_decimal (decimal_of_text text)
              else match number_from_string text with Some b => V_number b | None => deserialize_text text end)
    else Some (deserialize_text text)
  else Some (deserialize_text text).
End Doubles.

Section DoubleValues.
(** Doubles by their bits: the value of a decimal or an integer, the integer part, the comparisons with
    zero, and whether two are closer than the machine epsilon. *)
Context (to_double : decimal -> Z) (double_of_int : Z -> Z) (int_of_double : Z -> Z).
Context (double_positive double_zero : Z -> bool) (double_near : Z -> Z -> bool).
Context (double_from_string : list Z -> option Z).

Definition get_integer (v : variant) : Z :=
  match v with
  | V_integer i => i
  | V_number b => int_of_double b
  | V_decimal d => int_of_double (to_double d)
  | V_boolean b => b2z b
  | V_string s => match from_string_int64 s with Some i => i | None => 0 end
  | _ => 0
  end.
(** The bits of [0.0] are [0]. *)
Definition get_number (v : variant) : Z :=
  match v with
  | V_number b => b
  | V_integer i => double_of_int i
  | V_decimal d => to_double d
  | V_boolean b => double_of_int (b2z b)
  | V_string s => match double_from_string s with Some b => b | None => 0 end
  | _ => 0
  end.
Definition get_boolean (v : variant) : bool :=
  match v with
  | V_boolean b => b
  | V_number b => double_positive b
  | V_integer i => 0 <? i
  | V_decimal d => double_positive (to_double d)
  | _ => 0 <? variant_size v
  end.
Definition variant_empty (v : variant) : bool :=
  match v with
  | V_null | V_undefined => true
  | V_object | V_array => false
  | V_pointer p => p =? 0
  | V_string s | V_binary s => (length s =? 0)%nat
  | V_decimal d => double_zero (to_double d)
  | V_integer i => i =? 0
  | V_number b => double_zero b
  | V_boolean b => negb b
  | V_unknown _ => true
  end.
Definition same (v other : variant) : bool :=
  match v, other with
  | V_null, V_null | V_undefined, V_undefined => true
  | V_pointer p, V_pointer q => p =? q
  | V_string s, V_string t | V_binary s, V_binary t => bool_decide (s = t)
  | V_decimal d, V_decimal e => decimal_eq d e
  | V_integer i, V_integer j => i =? j
  | V_number a, V_number b => double_near a b
  | V_boolean a, V_boolean b => Bool.eqb a b
  | _, _ => false
  end.
End DoubleValues.
