(* ===== verification/VariantFacts.v ===== *)
(** * Variants: their text form

    What [serialize] writes (Variant.v) is read back by [deserialize] to the same variant, for the variants
    whose text names their type. *)
From S2P Require Import Prelude Text TextEdit Codec Decimal DecimalFacts Variant.

(** ** Decimal text of an integer *)
Lemma numeric_cs ds : digits 10 ds -> forallb is_numeric (cs ds) = true.
Proof.
  induction 1 as [|d ds Hd _ IH]; [reflexivity|]. cbn. fold (cs ds). rewrite IH, andb_true_r. unfold is_numeric, isdigit, dchar. lia.
Qed.

Lemma digits_value_cs ds acc : digits 10 ds -> digits_value (cs ds) acc = fold_left (fun acc d => acc * 10 + d) ds acc.
Proof.
  intros H. revert acc. induction H as [|d ds Hd _ IH]; intros acc; [reflexivity|]. cbn. fold (cs ds).
  replace (isdigit (dchar d)) with true by (unfold isdigit, dchar; lia). rewrite <- IH. f_equal. unfold dchar. lia.
Qed.

Lemma number_loop_digits s n : forallb is_numeric s = true -> (0 < length s + n)%nat -> number_loop s n 0 = true.
Proof.
  revert n. induction s as [|c s IH]; intros n; cbn [forallb number_loop length].
  - intros _ Hn. destruct (Nat.ltb_spec 0 n); [reflexivity|lia].
  - intros [-> Hs]%andb_true_iff _. apply IH; [exact Hs|lia].
Qed.

Lemma to_chars_digits i : Z.abs i < 10 ^ 20 ->
  exists d ds, to_chars i = (if i <? 0 then [45] else []) ++ cs (d :: ds) /\ digits 10 (d :: ds) /\ be_val 10 (d :: ds) = Z.abs i.
Proof.
  intros Hi. destruct (digits10_spec 20 (Z.abs i)) as (D & V & [C|[N _]]); [lia|discriminate|].
  unfold to_chars. fold (cs (digits10 20 (Z.abs i))). destruct (digits10 20 (Z.abs i)) as [|d ds]; [congruence|]. now exists d, ds.
Qed.

Lemma dchar_digit d : 0 <= d < 10 -> 48 <= dchar d <= 57 /\ isdigit (dchar d) = true.
Proof. unfold isdigit, dchar. lia. Qed.

Lemma from_string_to_chars i : - 2 ^ 63 <= i < 2 ^ 63 -> from_string_int64 (to_chars i) = Some i.
Proof.
  intros Hi. destruct (to_chars_digits i) as (d & ds & -> & D & V); [lia|].
  assert (Dv : digits_value (cs (d :: ds)) 0 = Z.abs i) by (rewrite digits_value_cs by exact D; exact V).
  assert (Hd : 0 <= d < 10) by (apply digits_cons in D; tauto). destruct (dchar_digit d Hd) as [R T].
  unfold from_string_int64. destruct (Z.ltb_spec i 0).
  - cbn [app tl]. change (45 =? 45) with true. cbv iota zeta. rewrite Dv. cbn [cs map]. rewrite T.
    destruct (Z.leb_spec (Z.abs i) (2 ^ 63)); [f_equal; lia|lia].
  - cbn [app]. cbn [cs map] in Dv |- *. replace (dchar d =? 45) with false by lia. cbv zeta iota. rewrite Dv, T.
    destruct (Z.ltb_spec (Z.abs i) (2 ^ 63)); [f_equal; lia|lia].
Qed.

Lemma digits_are_integer s : (1 < length s)%nat \/ is_numeric (hd 0 s) = true ->
  forallb is_numeric (unsigned s) = true -> (0 < length (unsigned s))%nat -> has_number s = true /\ has_integer s = true.
Proof.
  unfold has_number, has_integer. intros H N L. destruct s as [|c s]; [cbn in L; lia|].
  assert (E : bool_decide (s = []) && negb (is_numeric c) = false).
  { destruct H as [H| H]; [|cbn in H; now rewrite H, andb_false_r]. destruct s; [cbn in H; lia|reflexivity]. }
  rewrite E, N. split; [apply number_loop_digits; [exact N|lia]|]. now apply Nat.ltb_lt in L as ->.
Qed.

Lemma to_chars_is_integer i : Z.abs i < 10 ^ 20 -> has_number (to_chars i) = true /\ has_integer (to_chars i) = true.
Proof.
  intros Hi. destruct (to_chars_digits i Hi) as (d & ds & -> & D & _).
  assert (Hd : 0 <= d < 10) by (apply digits_cons in D; tauto). destruct (dchar_digit d Hd) as [R T].
  assert (U : unsigned ((if i <? 0 then [45] else []) ++ cs (d :: ds)) = cs (d :: ds)).
  { unfold unsigned. destruct (i <? 0); cbn [app cs map has_sign tl]; [reflexivity|].
    now replace ((dchar d =? 43) || (dchar d =? 45)) with false by lia. }
  apply digits_are_integer; rewrite ?U; [|now apply numeric_cs|cbn; lia].
  destruct (i <? 0); [left; cbn; lia|right; exact T].
Qed.

(** ** The text of a variant *)

(** The strings that [deserialize] takes for nothing else. *)
Record plain_string (s : list Z) : Prop := {
  plain_enum : ~ In s (map chars ["$null$"; "$undefined$"; "${}$"; "$[]$"; "$void*$"; "true"; "false"]%string);
  plain_number : has_number s = false;
  plain_binary : (length s <= 2)%nat \/ text_front s <> 96 \/ text_back s <> 96 }.

Section DoublesFromText.
Context (number_to_string : Z -> list Z) (number_from_string : list Z -> option Z).
Abbreviation parse := (fun s => deserialize number_from_string s false).

Lemma deserialize_plain s : plain_string s -> parse s = Some (V_string s).
Proof.
  intros [E N B]. assert (D : deserialize_text s = V_string s).
  { unfold deserialize_text. destruct (Nat.ltb_spec 2 (length s)), (Z.eqb_spec (text_front s) 96), (Z.eqb_spec (text_back s) 96);
      cbn [andb]; try reflexivity. exfalso. destruct B as [|[]]; [lia|contradiction|contradiction]. }
  assert (X : forall t, In t (map chars ["$null$"; "$undefined$"; "${}$"; "$[]$"; "$void*$"; "true"; "false"]%string) ->
    bool_decide (s = t) = false) by (intros t I; apply bool_decide_eq_false_2; now intros ->).
  unfold deserialize. destruct (_ && _); [|now rewrite D].
  rewrite !X by (cbn; tauto). rewrite N, D. now destruct (_ && _).
Qed.

Lemma deserialize_integer i : - 2 ^ 63 <= i < 2 ^ 63 -> parse (to_chars i) = Some (V_integer i).
Proof.
  intros Hi. pose proof (from_string_to_chars i Hi) as F. destruct (to_chars_is_integer i) as [N I]; [lia|].
  destruct (to_chars_digits i) as (d & ds & E & D & _); [lia|].
  assert (Hd : 0 <= d < 10) by (apply digits_cons in D; tauto). destruct (dchar_digit d Hd) as [R _].
  assert (L : exists c t, to_chars i = c :: t /\ c <> 36 /\ c <> 116 /\ c <> 102 /\ c <> 0).
  { rewrite E. destruct (i <? 0); cbn [app cs map]; eexists _, _; (split; [reflexivity|lia]). }
  destruct L as (c & t & L & L1 & L2 & L3 & L4). unfold deserialize. rewrite N, I, F, L. cbn [text_front].
  rewrite (proj2 (Z.eqb_neq c 36) L1), andb_false_r. cbn [andb negb].
  rewrite !(bool_decide_eq_false_2 (c :: t = _)) by (intros C; apply (f_equal text_front) in C; cbv in C; congruence). reflexivity.
Qed.

Lemma deserialize_binary b : bytes b -> b <> [] -> parse (chars "`" ++ bep45_encode b ++ chars "`") = Some (V_binary b).
Proof.
  intros Hb Hn. pose proof (bep45_decode_encode b Hb) as R. destruct (bep45_encode b) as [|e es] eqn:E.
  { cbn in R. congruence. }
  change (chars "`") with [96]. set (s := [96] ++ (e :: es) ++ [96]).
  assert (Ls : (2 < length s)%nat) by (unfold s; rewrite !length_app; cbn; lia).
  assert (Bs : text_back s = 96) by (unfold s, text_back; rewrite app_assoc; apply last_last).
  assert (Ds : deserialize_text s = V_binary b).
  { unfold deserialize_text. rewrite Bs, (proj2 (Nat.ltb_lt 2 (length s)) Ls). cbn [s text_front app Z.eqb Pos.eqb andb].
    f_equal. rewrite <- R. f_equal. unfold substr. cbn [length skipn].
    rewrite length_app. cbn [length]. replace (S (S (length es + 1)) - 2)%nat with (length (e :: es)) by (cbn; lia).
    apply (take_app_length (e :: es)). }
  unfold deserialize. rewrite Ds.
  replace (text_front s =? 36) with false by reflexivity. rewrite andb_false_r. cbn [andb].
  replace (has_number s) with false by reflexivity. reflexivity.
Qed.

(** The variants whose text is theirs alone. *)
Definition has_text (v : variant) : Prop :=
  match v with
  | V_null | V_undefined | V_object | V_array | V_boolean _ => True
  | V_pointer p => p = 0
  | V_string s => plain_string s
  | V_binary b => bytes b /\ b <> []
  | V_integer i => - 2 ^ 63 <= i < 2 ^ 63
  | V_number _ | V_decimal _ | V_unknown _ => False
  end.

(** Text of variants: a variant written by [serialize] is read back by [deserialize] when it is not
    strict: the tags, booleans, 64-bit integers, non-empty binary data and the strings that look like none
    of these; and a strict reading of a text that is not binary data is the string. *)
Theorem variant_text_roundtrip (v : variant) : has_text v ->
  deserialize number_from_string (serialize number_to_string v) false = Some v /\
  (text_front (serialize number_to_string v) <> 96 ->
   deserialize number_from_string (serialize number_to_string v) true = Some (V_string (serialize number_to_string v))).
Proof.
  intros H. split.
  - destruct v as [| | | |p|s|b|i|x|d|b|c]; cbn [has_text serialize] in *; try reflexivity; try contradiction.
    + now subst p.
    + now apply deserialize_plain.
    + now apply deserialize_binary.
    + now apply deserialize_integer.
    + now destruct b.
  - intros F. unfold deserialize, deserialize_text. apply Z.eqb_neq in F. rewrite F, andb_false_r. reflexivity.
Qed.
End DoublesFromText.

Lemma variant_text_roundtrip_witness :
  deserialize (fun _ => None) (serialize (fun _ => []) (V_integer (- 2 ^ 63))) false = Some (V_integer (- 2 ^ 63)) /\
  deserialize (fun _ => None) (serialize (fun _ => []) (V_string (chars "12a"))) false = Some (V_string (chars "12a")) /\
  deserialize (fun _ => None) (serialize (fun _ => []) (V_binary [0; 96; 255])) false = Some (V_binary [0; 96; 255]).
Proof.
  split; [|split].
  - refine (proj1 (variant_text_roundtrip (fun _ => []) (fun _ => None) _ _)). cbn. lia.
  - refine (proj1 (variant_text_roundtrip (fun _ => []) (fun _ => None) _ _)). cbn [has_text]. constructor.
    + vm_compute. intuition discriminate.
    + reflexivity.
    + right. left. discriminate.
  - refine (proj1 (variant_text_roundtrip (fun _ => []) (fun _ => None) _ _)). cbn [has_text].
    split; [repeat constructor; lia|discriminate].
Defined.
