(* ===== verification/Schema.v ===== *)
(** * Schemas and their binary form (src/vitex/core.cpp: [schema])

    A schema is a tree of named values.  The operations that find, set and remove children, and the
    conversion to and from JSONB, the binary format of the library.  The pointer from a child to its
    parent is the position in the tree here.  The host is little-endian, so
    [to_endianness(little)] is the identity and an integer is written as its bytes, lowest first. *)
From stdpp Require Import sorting.
From S2P Require Import Prelude Text TextEdit Codec Decimal Variant.

(** [nodes] is [None] while the vector is not allocated. *)
#[warnings="-register-all"]
Inductive schema := mk_schema (key : list Z) (value : variant) (nodes : option (list schema)) (saved : bool).

Definition schema_key (s : schema) := let 'mk_schema k _ _ _ := s in k.
Definition schema_value (s : schema) := let 'mk_schema _ v _ _ := s in v.
Definition schema_nodes (s : schema) := let 'mk_schema _ _ n _ := s in n.
Definition schema_saved (s : schema) := let 'mk_schema _ _ _ b := s in b.
(** [*nodes], or nothing. *)
Definition children (s : schema) : list schema := match schema_nodes s with Some l => l | None => [] end.

Definition new_schema (v : variant) : schema := mk_schema [] v None true.

(** ** Induction on schemas *)

Section SchemaInd.
Context (P : schema -> Prop).
Context (H : forall k v n b, (forall cs, n = Some cs -> List.Forall P cs) -> P (mk_schema k v n b)).
Fixpoint schema_ind_nested (s : schema) : P s :=
  match s with
  | mk_schema k v n b =>
      H k v n b
        match n as n0 return (forall cs, n0 = Some cs -> List.Forall P cs) with
        | None => fun cs E => match E with eq_refl => I end
        | Some l => fun cs E =>
            match E in (_ = o) return (match o with Some cs => List.Forall P cs | None => True end) with
            | eq_refl => (fix all (l : list schema) : List.Forall P l :=
                match l with [] => @List.Forall_nil schema P | c :: cs => @List.Forall_cons schema P c cs (schema_ind_nested c) (all cs) end) l
            end
        end
  end.
End SchemaInd.

(** ** Tree operations *)

Definition schema_get (s : schema) (name : list Z) : option schema :=
  List.find (fun c => bool_decide (schema_key c = name)) (children s).
Definition schema_get_at (s : schema) (index : nat) : option schema := nth_error (children s) index.
Definition schema_get_var (s : schema) (name : list Z) : variant :=
  match schema_get s name with Some c => schema_value c | None => V_undefined end.

(** [from_string<uint64_t>], whose missing value [find] dereferences: [None] is that failure. *)
Definition index_of_name (name : list Z) : option (option nat) :=
  if has_integer name then Some <$> (Z.to_nat <$> from_string_size name) else Some None.

(** [find] with [deep] looks into each child without [deep]. *)
Fixpoint find_keys (name : list Z) (deep : schema -> option (option schema)) (cs : list schema) : option (option schema) :=
  match cs with
  | [] => Some None
  | k :: cs' =>
      if bool_decide (schema_key k = name) then Some (Some k)
      else r ← deep k; match r with Some v => Some (Some v) | None => find_keys name deep cs' end
  end.
Definition find_flat (s : schema) (name : list Z) : option (option schema) :=
  match schema_nodes s with
  | None => Some None
  | Some cs =>
      i ← index_of_name name;
      match i with
      | Some index =>
          match nth_error cs index with Some c => Some (Some c) | None => find_keys name (fun _ => Some None) cs end
      | None => find_keys name (fun _ => Some None) cs
      end
  end.
Definition schema_find (s : schema) (name : list Z) (deep : bool) : option (option schema) :=
  if deep then
    match schema_nodes s with
    | None => Some None
    | Some cs =>
        i ← index_of_name name;
        match i with
        | Some index =>
            match nth_error cs index with Some c => Some (Some c) | None => find_keys name (fun k => find_flat k name) cs end
        | None => find_keys name (fun k => find_flat k name) cs
        end
    end
  else find_flat s name.

Fixpoint fetch_names (s : schema) (names : list (list Z)) (deep : bool) : option (option schema) :=
  match names with
  | [] => Some (Some s)
  | n :: names' => r ← schema_find s n deep; match r with Some c => fetch_names c names' deep | None => Some None end
  end.
Definition fetch (s : schema) (notation : list Z) (deep : bool) : option (option schema) :=
  names ← split notation 46 0;
  match names with [] => Some None | _ => fetch_names s names deep end.
Definition has (s : schema) (name : list Z) : option bool :=
  r ← fetch s name false; Some (match r with Some _ => true | None => false end).
Definition fetch_var (s : schema) (name : list Z) (deep : bool) : option variant :=
  r ← fetch s name deep; Some (match r with Some c => schema_value c | None => V_undefined end).

Definition is_attribute (s : schema) : bool :=
  match schema_key s with c :: _ :: _ => c =? 58 | _ => false end.
Definition get_name (s : schema) : list Z := if is_attribute s then tl (schema_key s) else schema_key s.
Definition get_attributes (s : schema) : list schema := List.filter is_attribute (children s).
Definition find_collection (s : schema) (name : list Z) (deep : bool) : list schema :=
  concat (map (fun v => (if bool_decide (schema_key v = name) then [v] else []) ++
    (if deep then List.filter (fun w => bool_decide (schema_key w = name)) (children v) else [])) (children s)).
Definition fetch_collection (s : schema) (notation : list Z) (deep : bool) : option (list schema) :=
  names ← split notation 46 0;
  match names with
  | [] => Some []
  | [n] => Some (find_collection s n false)
  | _ =>
      r ← fetch_names s (removelast names) deep;
      Some (match r with Some c => find_collection c (List.last names []) deep | None => [] end)
  end.
Definition get_attribute (s : schema) (name : list Z) : option schema := schema_get s (58 :: name).
Definition has_attribute (s : schema) (name : list Z) : option bool := has s (58 :: name).
Definition schema_size (s : schema) : nat := length (children s).
Definition schema_empty (s : schema) : bool := match children s with [] => true | _ => false end.

(** [set] of a value: the first child of that name is overwritten and loses its children; a new child is
    appended, always when the schema is not an object. *)
Fixpoint overwrite (cs : list schema) (name : list Z) (base : variant) : option (list schema) :=
  match cs with
  | [] => None
  | c :: cs' =>
      if bool_decide (schema_key c = name) then Some (mk_schema (schema_key c) base None false :: cs')
      else r ← overwrite cs' name base; Some (c :: r)
  end.
Definition append_child (s : schema) (c : schema) : schema :=
  mk_schema (schema_key s) (schema_value s) (Some (children s ++ [c])) false.
Definition schema_set (s : schema) (name : list Z) (base : variant) : schema :=
  let pushed := append_child s (mk_schema name base None false) in
  if bool_decide (get_type (schema_value s) = type_object) then
    match overwrite (children s) name base with
    | Some cs => mk_schema (schema_key s) (schema_value s) (Some cs) false
    | None => pushed
    end
  else pushed.
Definition set_attribute (s : schema) (name : list Z) (base : variant) : schema := schema_set s (58 :: name) base.
Definition schema_push (s : schema) (base : variant) : schema := append_child s (mk_schema [] base None false).
Definition schema_pop_at (s : schema) (index : nat) : schema :=
  mk_schema (schema_key s) (schema_value s) (Some (firstn index (children s) ++ skipn (S index) (children s))) false.
Fixpoint remove_first (cs : list schema) (name : list Z) : option (list schema) :=
  match cs with
  | [] => None
  | c :: cs' =>
      if bool_decide (schema_key c = name) then Some cs' else r ← remove_first cs' name; Some (c :: r)
  end.
Definition schema_pop (s : schema) (name : list Z) : schema :=
  match remove_first (children s) name with
  | Some cs => mk_schema (schema_key s) (schema_value s) (Some cs) false
  | None => s
  end.
Fixpoint rename_first (cs : list schema) (name new_name : list Z) : option (list schema) :=
  match cs with
  | [] => None
  | mk_schema k v n b :: cs' =>
      if bool_decide (k = name) then Some (mk_schema new_name v n b :: cs')
      else r ← rename_first cs' name new_name; Some (mk_schema k v n b :: r)
  end.
Definition rename_child (s : schema) (name new_name : list Z) : schema * bool :=
  match rename_first (children s) name new_name with
  | Some cs => (mk_schema (schema_key s) (schema_value s) (Some cs) (schema_saved s), true)
  | None => (s, false)
  end.
Definition clear_nodes (s : schema) : schema := mk_schema (schema_key s) (schema_value s) None (schema_saved s).

(** The recursive operations. *)
Fixpoint schema_copy (s : schema) : schema :=
  let 'mk_schema k v n b := s in
  mk_schema k v (match n with Some cs => Some (map schema_copy cs) | None => None end) b.
Fixpoint save (s : schema) : schema :=
  let 'mk_schema k v n b := s in
  mk_schema k v
    match n with
    | Some cs => Some (map (fun c => if is_object (schema_value c) then save c
                                     else mk_schema (schema_key c) (schema_value c) (schema_nodes c) true) cs)
    | None => None
    end true.
Fixpoint transform (callback : list Z -> list Z) (s : schema) : schema :=
  let 'mk_schema k v n b := s in
  mk_schema (callback k) v (match n with Some cs => Some (map (transform callback) cs) | None => None end) b.

(** ** Writing JSONB *)

Definition le16 (n : Z) : list Z := le_digits 2 256 (u16 n).
Definition le32 (n : Z) : list Z := le_digits 4 256 (u32 n).
Definition le64 (n : Z) : list Z := le_digits 8 256 (u64 n).

(** The naming table: every non-empty key once, numbered in the order it is met. *)
Definition naming_table := list (list Z * Z).
Fixpoint table_find (map : naming_table) (k : list Z) : option Z :=
  match map with [] => None | (k', i) :: m => if bool_decide (k' = k) then Some i else table_find m k end.
Definition add_name (st : naming_table * Z) (k : list Z) : naming_table * Z :=
  let '(map, index) := st in
  match k with
  | [] => st
  | _ => match table_find map k with Some _ => st | None => (map ++ [(k, index)], index + 1) end
  end.
Fixpoint generate_naming_table (s : schema) (st : naming_table * Z) : naming_table * Z :=
  let 'mk_schema k _ n _ := s in
  match n with
  | Some cs => fold_left (fun st c => generate_naming_table c st) cs (add_name st k)
  | None => add_name st k
  end.
Definition get_names (s : schema) : naming_table := fst (generate_naming_table s ([], 0)).

Definition JSONB_VERSION : Z := 0xef1033dd.

Definition jsonb_id (map : naming_table) (k : list Z) : Z :=
  match k with [] => 2 ^ 32 - 1 | _ => match table_find map k with Some i => u32 i | None => 0 end end.

(** The value of a node, without its children. *)
Definition jsonb_value (v : variant) : list Z :=
  match v with
  | V_string s | V_binary s => le32 (Z.of_nat (length s)) ++ firstn (Z.to_nat (u32 (Z.of_nat (length s)))) s
  | V_decimal d =>
      let number := to_string d in
      le16 (Z.of_nat (length number)) ++ firstn (Z.to_nat (u16 (Z.of_nat (length number)))) number
  | V_integer i => le64 i
  | V_number b => le64 b
  | V_boolean b => [b2z b]
  | _ => []
  end.
Fixpoint process_convertion_to_jsonb (map : naming_table) (s : schema) : list Z :=
  let 'mk_schema k v n _ := s in
  le32 (jsonb_id map k) ++ [type_code (get_type v)] ++
  if is_object v then
    match n with
    | Some cs =>
        le32 (Z.of_nat (length cs)) ++
        (if 0 <? u32 (Z.of_nat (length cs)) then concat (List.map (process_convertion_to_jsonb map) cs) else [])
    | None => le32 0
    end
  else jsonb_value v.

(** One entry of the dictionary.  The iteration order of the unordered map is not specified: [entries] is
    the naming table in the order it is visited. *)
Definition jsonb_entry (e : list Z * Z) : list Z :=
  let size := u16 (Z.of_nat (length (fst e))) in
  le32 (snd e) ++ le16 size ++ firstn (Z.to_nat size) (fst e).
Definition to_jsonb (entries : naming_table) (s : schema) : list Z :=
  le64 JSONB_VERSION ++ le32 (Z.of_nat (length entries)) ++ concat (List.map jsonb_entry entries) ++
  process_convertion_to_jsonb (get_names s) s.

(** ** Reading JSONB *)

Inductive parser_error :=
| bad_version | bad_dictionary | bad_name_index | bad_name | bad_key_name | bad_key_type | bad_value
| bad_string | bad_integer | bad_double | bad_boolean.

(** A reader takes bytes from the front of the input; [None] is an exhausted fuel. *)
Inductive reading (A : Type) := read_ok (a : A) (rest : list Z) | read_error (e : parser_error).
Arguments read_ok {A} a rest.
Arguments read_error {A} e.

Definition read_bytes (n : Z) (e : parser_error) (binary : list Z) : reading (list Z) :=
  if n <=? Z.of_nat (length binary) then read_ok (firstn (Z.to_nat n) binary) (skipn (Z.to_nat n) binary) else read_error e.
Definition read_uint (n : nat) (e : parser_error) (binary : list Z) : reading Z :=
  match read_bytes (Z.of_nat n) e binary with
  | read_ok bs rest => read_ok (le_val 256 bs) rest
  | read_error e => read_error e
  end.

(** A length and as many bytes. *)
Definition read_block (n : nat) (binary : list Z) : reading (list Z) :=
  match read_uint n bad_value binary with
  | read_ok size rest => read_bytes size bad_string rest
  | read_error e => read_error e
  end.
Definition read_map {A B} (f : A -> B) (r : reading A) : reading B :=
  match r with read_ok a rest => read_ok (f a) rest | read_error e => read_error e end.

(** The value of a node that is no container. *)
Definition read_value (t : var_type) (binary : list Z) : reading variant :=
  match t with
  | type_null => read_ok V_null binary
  | type_undefined => read_ok V_undefined binary
  | type_object => read_ok V_object binary
  | type_array => read_ok V_array binary
  | type_pointer => read_ok (V_pointer 0) binary
  | type_string => read_map V_string (read_block 4 binary)
  | type_binary => read_map V_binary (read_block 4 binary)
  | type_integer => read_map (fun n => V_integer (i64 n)) (read_uint 8 bad_integer binary)
  | type_number => read_map V_number (read_uint 8 bad_double binary)
  | type_decimal => read_map (fun s => V_decimal (decimal_of_text s)) (read_block 2 binary)
  | type_boolean => read_map (fun b => V_boolean (z2b b)) (read_uint 1 bad_boolean binary)
  | type_unknown c => read_ok (V_unknown c) binary
  end.

(** The names by their index; an index met again keeps its first name. *)
Definition name_map := list (Z * list Z).
Fixpoint name_find (map : name_map) (i : Z) : option (list Z) :=
  match map with [] => None | (j, k) :: m => if j =? i then Some k else name_find m i end.
Definition key_of_id (map : name_map) (id : Z) : list Z :=
  if id =? 2 ^ 32 - 1 then [] else match name_find map id with Some k => k | None => [] end.

Fixpoint process_convertion_from_jsonb (fuel : nat) (map : name_map) (binary : list Z) : option (reading schema) :=
  match fuel with
  | O => None
  | S f =>
      match read_uint 4 bad_key_name binary with
      | read_error e => Some (read_error e)
      | read_ok id rest =>
          match read_uint 1 bad_key_type rest with
          | read_error e => Some (read_error e)
          | read_ok code rest =>
              let t := type_of_code code in
              if bool_decide (t = type_object) || bool_decide (t = type_array) then
                match read_uint 4 bad_value rest with
                | read_error e => Some (read_error e)
                | read_ok count rest =>
                    r ← process_children f map count rest;
                    Some (read_map (fun cs => mk_schema (key_of_id map id) (if bool_decide (t = type_object) then V_object else V_array)
                                                (if count =? 0 then None else Some cs) true) r)
                end
              else Some (read_map (fun v => mk_schema (key_of_id map id) v None true) (read_value t rest))
          end
      end
  end
with process_children (fuel : nat) (map : name_map) (count : Z) (binary : list Z) : option (reading (list schema)) :=
  match fuel with
  | O => None
  | S f =>
      if count <=? 0 then Some (read_ok [] binary)
      else
        c ← process_convertion_from_jsonb f map binary;
        match c with
        | read_error e => Some (read_error e)
        | read_ok c rest => r ← process_children f map (count - 1) rest; Some (read_map (cons c) r)
        end
  end.

Fixpoint read_names (fuel : nat) (set : Z) (map : name_map) (binary : list Z) : option (reading name_map) :=
  match fuel with
  | O => None
  | S f =>
      if set <=? 0 then Some (read_ok map binary)
      else
        match read_uint 4 bad_name_index binary with
        | read_error e => Some (read_error e)
        | read_ok index rest =>
            match read_uint 2 bad_name rest with
            | read_error e => Some (read_error e)
            | read_ok size rest =>
                if size <=? 0 then read_names f (set - 1) map rest
                else
                  match read_bytes size bad_name rest with
                  | read_error e => Some (read_error e)
                  | read_ok name rest =>
                      read_names f (set - 1) (match name_find map index with Some _ => map | None => map ++ [(index, name)] end) rest
                  end
            end
        end
  end.

Definition jsonb_fuel (binary : list Z) : nat := 2 * length binary + 2.

Definition from_jsonb (binary : list Z) : option (reading schema) :=
  match read_uint 8 bad_version binary with
  | read_error e => Some (read_error e)
  | read_ok version rest =>
      if negb (version =? JSONB_VERSION) then Some (read_error bad_version)
      else
        match read_uint 4 bad_dictionary rest with
        | read_error e => Some (read_error e)
        | read_ok set rest =>
            m ← read_names (jsonb_fuel binary) set [] rest;
            match m with
            | read_error e => Some (read_error e)
            | read_ok map rest => process_convertion_from_jsonb (jsonb_fuel binary) map rest
            end
        end
  end.
