(* ===== verification/SchemaFacts.v ===== *)
(** * Schemas: the JSONB round trip and its reader on arbitrary input

    The binary form of a schema (Schema.v) is read back to the schema it was written from, up to what the
    format does not store; and reading ends on every input. *)
From stdpp Require Import list.
From S2P Require Import Prelude Text TextEdit Codec Decimal DecimalFacts Variant Schema.

(** ** Fields on the wire

    A field is written, and read back from the front of what follows; [norm] is what the format keeps. *)
Class Wire {A : Type} (write : A -> list Z) (reader : list Z -> reading A) (ok : A -> Prop) (norm : A -> A) :=
  wire_law : forall a rest, ok a -> reader (write a ++ rest) = read_ok (norm a) rest.

Lemma read_bytes_app n e xs rest : Z.of_nat (length xs) = n -> read_bytes n e (xs ++ rest) = read_ok xs rest.
Proof.
  intros <-. unfold read_bytes. rewrite length_app. rewrite (proj2 (Z.leb_le _ _)) by lia. rewrite Nat2Z.id.
  now rewrite take_app_length, drop_app_length.
Qed.

#[export] Instance wire_uint (n : nat) (e : parser_error) :
  Wire (le_digits n 256) (read_uint n e) (fun x => 0 <= x < 256 ^ Z.of_nat n) (fun x => x).
Proof.
  intros x rest Hx. unfold read_uint. rewrite read_bytes_app by (rewrite length_le_digits; reflexivity).
  rewrite le_val_le_digits by lia. now rewrite Z.mod_small.
Qed.

Definition write_block (n : nat) (s : list Z) : list Z := le_digits n 256 (Z.of_nat (length s)) ++ s.
#[export] Instance wire_block (n : nat) :
  Wire (write_block n) (read_block n) (fun s => Z.of_nat (length s) < 256 ^ Z.of_nat n) (fun s => s).
Proof.
  intros s rest Hs. unfold read_block, write_block. rewrite <- app_assoc.
  rewrite (wire_law (Wire := wire_uint n bad_value)) by lia. now apply read_bytes_app.
Qed.

Lemma read_map_wire {A B} (write : A -> list Z) reader ok norm (f : A -> B) `{!Wire write reader ok norm} a rest :
  ok a -> read_map f (reader (write a ++ rest)) = read_ok (f (norm a)) rest.
Proof. intros H. now rewrite wire_law. Qed.

(** ** Values *)

Definition value_storable (v : variant) : Prop :=
  match v with
  | V_string s | V_binary s => Z.of_nat (length s) < 2 ^ 32
  | V_integer i => - 2 ^ 63 <= i < 2 ^ 63
  | V_number b => 0 <= b < 2 ^ 64
  | V_decimal d => (canonical d \/ d = decimal_nan) /\ Z.of_nat (length (to_string d)) < 2 ^ 16
  | V_unknown c => 11 <= c < 256
  | _ => True
  end.

(** A pointer is not stored, a decimal is stored as its text. *)
Definition value_loaded (v : variant) : variant :=
  match v with V_pointer _ => V_pointer 0 | V_decimal d => V_decimal (untrail d) | _ => v end.

Lemma type_code_byte v : value_storable v -> 0 <= type_code (get_type v) < 256.
Proof. destruct v; cbn; intros; lia. Qed.

Lemma type_of_type_code v : value_storable v -> type_of_code (type_code (get_type v)) = get_type v.
Proof.
  destruct v; try reflexivity. cbn. intros H. unfold type_of_code.
  repeat match goal with |- context [code =? ?k] => destruct (Z.eqb_spec code k); [lia|] end. reflexivity.
Qed.

Lemma le_block n w s : Z.of_nat (length s) < 2 ^ w ->
  le_digits n 256 (wrapU w (Z.of_nat (length s))) ++ firstn (Z.to_nat (wrapU w (Z.of_nat (length s)))) s = write_block n s.
Proof. intros H. rewrite wrapU_id by (unfold fits; lia). now rewrite Nat2Z.id, firstn_all. Qed.

Lemma read_value_written v rest : value_storable v -> is_object v = false ->
  read_value (get_type v) (jsonb_value v ++ rest) = read_ok (value_loaded v) rest.
Proof.
  destruct v as [| | | |p|s|s|i|b|d|b|c]; cbn [value_storable get_type read_value jsonb_value value_loaded];
    intros Hv Ho; try reflexivity; try discriminate.
  - unfold le32. rewrite le_block by assumption.
    now rewrite (read_map_wire (write_block 4) (read_block 4) _ _ V_string) by exact Hv.
  - unfold le32. rewrite le_block by assumption.
    now rewrite (read_map_wire (write_block 4) (read_block 4) _ _ V_binary) by exact Hv.
  - unfold le64. rewrite (read_map_wire (le_digits 8 256) (read_uint 8 bad_integer) _ _ _) by (cbn; mach).
    do 2 f_equal. mach.
  - unfold le64. rewrite (wrapU_id 64) by exact Hv.
    now rewrite (read_map_wire (le_digits 8 256) (read_uint 8 bad_double) _ _ _) by (cbn; lia).
  - destruct Hv as [Hd Hl]. unfold le16. cbv zeta. rewrite le_block by assumption.
    rewrite (read_map_wire (write_block 2) (read_block 2) _ _ _) by exact Hl.
    do 2 f_equal. destruct Hd as [Hd| ->]; [now apply decimal_reparse|reflexivity].
  - replace [b2z b] with (le_digits 1 256 (b2z b)) by now destruct b.
    rewrite (read_map_wire (le_digits 1 256) (read_uint 1 bad_boolean) _ _ _) by (destruct b; cbn; lia).
    now destruct b.
Qed.

(** ** Names *)

Fixpoint keys_of (s : schema) : list (list Z) :=
  let 'mk_schema k _ n _ := s in k :: match n with Some cs => concat (map keys_of cs) | None => [] end.

(** The table while it grows: distinct non-empty keys with the numbers below the next one. *)
Record table_ok (st : naming_table * Z) : Prop := {
  table_keys : List.NoDup (map fst (fst st));
  table_ids : List.NoDup (map snd (fst st));
  table_range : forall e, In e (fst st) -> fst e <> [] /\ 0 <= snd e < snd st;
  table_length : snd st = Z.of_nat (length (fst st)) }.
Definition extends (st st' : naming_table * Z) : Prop :=
  forall k i, table_find (fst st) k = Some i -> table_find (fst st') k = Some i.

Lemma table_find_in m k i : table_find m k = Some i -> In (k, i) m.
Proof.
  induction m as [|[k' j] m IH]; [discriminate|]. cbn. case_bool_decide; [|auto].
  intros [= ->]. left. congruence.
Qed.

Lemma table_find_none m k : table_find m k = None -> ~ In k (map fst m).
Proof.
  induction m as [|[k' j] m IH]; [auto|]. cbn. case_bool_decide; [discriminate|]. intros E [->|I]; [congruence|]. now apply IH.
Qed.

Lemma table_find_app m k j k' : table_find (m ++ [(k, j)]) k' =
  match table_find m k' with Some i => Some i | None => if bool_decide (k = k') then Some j else None end.
Proof. induction m as [|[k0 i] m IH]; [reflexivity|]. cbn. destruct (bool_decide (k0 = k')); [reflexivity|]. exact IH. Qed.

Lemma add_name_ok st k : table_ok st ->
  table_ok (add_name st k) /\ extends st (add_name st k) /\ (k <> [] -> is_Some (table_find (fst (add_name st k)) k)).
Proof.
  intros Ht. unfold add_name. destruct st as [m index]. destruct k as [|c k]; [now repeat split; try apply Ht|].
  destruct (table_find m (c :: k)) as [i|] eqn:E.
  - split; [exact Ht|]. split; [now intros ? ?|]. intros _. cbn. rewrite E. now eexists.
  - destruct Ht as [T1 T2 T3 T4]. cbn [fst snd] in *. split; [|split].
    + constructor; cbn [fst snd].
      * rewrite map_app. apply List.NoDup_app; [exact T1|repeat constructor; auto|].
        intros x Hx [<-|[]]. now apply table_find_none in E.
      * rewrite map_app. apply List.NoDup_app; [exact T2|repeat constructor; auto|].
        intros x Hx [E'|[]]. cbn in E'. subst x. apply in_map_iff in Hx as ([k0 j] & E' & Hj). apply T3 in Hj. cbn in E', Hj. lia.
      * intros e [He|[<-|[]]]%in_app_iff; [apply T3 in He; split; [tauto|lia]|]. cbn. split; [discriminate|lia].
      * rewrite length_app. cbn. lia.
    + intros k' i. cbn [fst]. rewrite table_find_app. now intros ->.
    + intros _. cbn [fst]. rewrite table_find_app, E, bool_decide_eq_true_2 by reflexivity. now eexists.
Qed.

Lemma extends_trans a b c : extends a b -> extends b c -> extends a c.
Proof. intros H1 H2 k i E. now apply H2, H1. Qed.

Lemma naming_table_ok s : forall st, table_ok st ->
  table_ok (generate_naming_table s st) /\ extends st (generate_naming_table s st) /\
  (forall k, In k (keys_of s) -> k <> [] -> is_Some (table_find (fst (generate_naming_table s st)) k)).
Proof.
  induction s as [k v n b IH] using schema_ind_nested. intros st Ht.
  destruct (add_name_ok st k Ht) as (T1 & E1 & K1). cbn [generate_naming_table keys_of].
  destruct n as [cs|].
  - specialize (IH cs eq_refl). revert T1 E1 K1. generalize (add_name st k) as st1.
    assert (G : forall st1, table_ok st1 ->
      let st2 := fold_left (fun st c => generate_naming_table c st) cs st1 in
      table_ok st2 /\ extends st1 st2 /\
      (forall k, In k (concat (map keys_of cs)) -> k <> [] -> is_Some (table_find (fst st2) k))).
    { induction IH as [|c cs Hc _ IHcs]; intros st1 T; [split; [exact T|]; split; [now intros ? ?|now intros ? []]|].
      destruct (Hc st1 T) as (T2 & E2 & K2). destruct (IHcs _ T2) as (T3 & E3 & K3).
      split; [exact T3|]. split; [now apply extends_trans with (generate_naming_table c st1)|].
      intros k0 [I|I]%in_app_iff Hk; [|now apply K3]. destruct (K2 k0 I Hk) as [i Ei]. exists i. now apply E3. }
    intros st1 T1 E1 K1. destruct (G st1 T1) as (T2 & E2 & K2).
    split; [exact T2|]. split; [now apply extends_trans with st1|].
    intros k0 [<-|I] Hk; [|now apply K2]. destruct (K1 Hk) as [i Ei]. exists i. now apply E2.
  - split; [exact T1|]. split; [exact E1|]. intros k0 [<-|[]] Hk. now apply K1.
Qed.

(** The map the reader builds from the entries. *)
Definition swapped (entries : naming_table) : name_map := map (fun e => (snd e, fst e)) entries.

Lemma name_find_swapped entries k i : List.NoDup (map snd entries) -> In (k, i) entries -> name_find (swapped entries) i = Some k.
Proof.
  induction entries as [|[k' j] m IH]; [intros _ []|]. cbn. intros Hn [[= -> ->]|I]; [now rewrite Z.eqb_refl|].
  inversion_clear Hn as [|? ? N Hn']. destruct (Z.eqb_spec j i) as [->|]; [|now apply IH].
  destruct N. now apply (in_map snd) in I.
Qed.

Lemma name_find_none map i : ~ In i (List.map fst map) -> name_find map i = None.
Proof.
  induction map as [|[j k] m IH]; [reflexivity|]. cbn. intros H. destruct (Z.eqb_spec j i) as [->|]; [now destruct H; left|].
  apply IH. intros ?. apply H. now right.
Qed.

Definition entry_storable (e : list Z * Z) : Prop := fst e <> [] /\ Z.of_nat (length (fst e)) < 2 ^ 16 /\ 0 <= snd e < 2 ^ 32.

Lemma read_names_written entries : forall fuel m rest,
  List.Forall entry_storable entries -> List.NoDup (map fst m ++ map snd entries) -> (length entries < fuel)%nat ->
  read_names fuel (Z.of_nat (length entries)) m (concat (map jsonb_entry entries) ++ rest) =
  Some (read_ok (m ++ swapped entries) rest).
Proof.
  induction entries as [|[k i] es IH]; intros fuel m rest He Hn Hf; (destruct fuel as [|f]; [lia|]); cbn [read_names].
  - cbn. now rewrite app_nil_r.
  - inversion_clear He as [|? ? (Nk & Lk & Ri) He']. cbn [fst snd] in *.
    destruct (Z.leb_spec (Z.of_nat (length ((k, i) :: es))) 0) as [C|_]; [cbn in C; lia|].
    cbn [map concat]. unfold jsonb_entry at 1. cbn [fst snd]. unfold le32, le16.
    rewrite (wrapU_id 32 i), (wrapU_id 16 (Z.of_nat (length k))) by (unfold fits; lia).
    rewrite Nat2Z.id, firstn_all, <- !app_assoc. rewrite (wrapU_id 16) by (unfold fits; lia).
    rewrite (wire_law (Wire := wire_uint 4 bad_name_index)) by (cbn; lia).
    rewrite (wire_law (Wire := wire_uint 2 bad_name)) by (cbn; lia).
    assert (Lp : (0 < length k)%nat) by (destruct k; [congruence|cbn; lia]).
    destruct (Z.leb_spec (Z.of_nat (length k)) 0) as [C|_]; [lia|].
    rewrite read_bytes_app by reflexivity.
    rewrite name_find_none.
    + replace (Z.of_nat (length ((k, i) :: es)) - 1) with (Z.of_nat (length es)) by (cbn [length]; lia).
      rewrite IH; [now rewrite <- app_assoc|assumption| |cbn [length] in Hf; lia].
      rewrite map_app, <- app_assoc. exact Hn.
    + cbn [map snd] in Hn. apply NoDup_remove_2 in Hn. intros I. apply Hn. apply in_app_iff. now left.
Qed.

(** ** The round trip *)

Fixpoint storable (s : schema) : Prop :=
  let 'mk_schema k v n _ := s in
  Z.of_nat (length k) < 2 ^ 16 /\ value_storable v /\
  match n with
  | Some cs => Z.of_nat (length cs) < 2 ^ 32 /\ fold_right (fun c P => storable c /\ P) True cs
  | None => True
  end.

(** What the reader returns: an empty vector of children is not allocated, children of a value that is no
    container are not stored, and nothing is marked as changed. *)
Fixpoint loaded (s : schema) : schema :=
  let 'mk_schema k v n _ := s in
  mk_schema k (value_loaded v)
    (if is_object v then match n with Some cs => match cs with [] => None | _ => Some (map loaded cs) end | None => None end
     else None) true.

Definition key_coded (mp : naming_table) (dm : name_map) (k : list Z) : Prop :=
  k <> [] -> exists i, table_find mp k = Some i /\ 0 <= i < 2 ^ 32 - 1 /\ name_find dm i = Some k.

Lemma key_read mp dm k : key_coded mp dm k -> 0 <= jsonb_id mp k < 2 ^ 32 /\ key_of_id dm (jsonb_id mp k) = k.
Proof.
  unfold key_coded, jsonb_id, key_of_id. destruct k as [|c k]; [intros _; split; [lia|reflexivity]|].
  intros (i & -> & Hi & En); [discriminate|]. rewrite wrapU_id by (unfold fits; lia). rewrite En.
  destruct (Z.eqb_spec i (2 ^ 32 - 1)); [lia|]. split; [lia|reflexivity].
Qed.

Lemma read_key mp dm k rest : key_coded mp dm k ->
  read_map (key_of_id dm) (read_uint 4 bad_key_name (le32 (jsonb_id mp k) ++ rest)) = read_ok k rest.
Proof.
  intros [Hi Ek]%key_read. unfold le32. rewrite wrapU_id by (unfold fits; lia).
  rewrite (read_map_wire (le_digits 4 256) (read_uint 4 bad_key_name) _ _ _) by (cbn; lia). now rewrite Ek.
Qed.

Lemma is_object_type v : is_object v = true -> v = V_object \/ v = V_array.
Proof. destruct v; cbn; intros H; try discriminate; auto. Qed.

Lemma encoded_length mp s : (5 <= length (process_convertion_to_jsonb mp s))%nat.
Proof. destruct s as [k v n b]. cbn [process_convertion_to_jsonb]. unfold le32 at 1. rewrite !length_app, length_le_digits. cbn [length]. lia. Qed.

Section Reader.
Context (mp : naming_table) (dm : name_map).
Abbreviation enc := (process_convertion_to_jsonb mp).
Abbreviation rd := process_convertion_from_jsonb.

Definition reads_back (s : schema) : Prop := forall fuel rest, (length (enc s) <= fuel)%nat ->
  rd fuel dm (enc s ++ rest) = Some (read_ok (loaded s) rest).

Lemma children_read cs : List.Forall reads_back cs -> forall fuel rest, (length (concat (map enc cs)) < fuel)%nat ->
  process_children fuel dm (Z.of_nat (length cs)) (concat (map enc cs) ++ rest) = Some (read_ok (map loaded cs) rest).
Proof.
  induction 1 as [|c cs Hc _ IH]; intros fuel rest Hf; (destruct fuel as [|f]; [lia|]); cbn [process_children]; [reflexivity|].
  cbn [map concat] in *. rewrite length_app in Hf. pose proof (encoded_length mp c) as Lc.
  destruct (Z.leb_spec (Z.of_nat (length (c :: cs))) 0) as [C|_]; [cbn [length] in C; lia|].
  rewrite <- app_assoc, Hc by lia. cbn [mbind option_bind].
  replace (Z.of_nat (length (c :: cs)) - 1) with (Z.of_nat (length cs)) by (cbn [length]; lia).
  now rewrite IH by lia.
Qed.

(** The front of a node: its key and its type. *)
Lemma node_front k v tail f : key_coded mp dm k -> value_storable v ->
  rd (S f) dm (le32 (jsonb_id mp k) ++ [type_code (get_type v)] ++ tail) =
  if is_object v then
    match read_uint 4 bad_value tail with
    | read_error e => Some (read_error e)
    | read_ok count rest =>
        r ← process_children f dm count rest;
        Some (read_map (fun cs => mk_schema k v (if count =? 0 then None else Some cs) true) r)
    end
  else Some (read_map (fun x => mk_schema k x None true) (read_value (get_type v) tail)).
Proof.
  intros Hk Hv. pose proof (read_key mp dm k ([type_code (get_type v)] ++ tail) Hk) as R.
  cbn [process_convertion_from_jsonb]. destruct (read_uint 4 bad_key_name _) as [id rest|e]; [|discriminate].
  cbn in R. injection R as R1 R2. subst rest. rewrite R1.
  replace (type_code (get_type v) :: tail) with (le_digits 1 256 (type_code (get_type v)) ++ tail)
    by (cbn; now rewrite Z.mod_small by now apply type_code_byte).
  rewrite (wire_law (Wire := wire_uint 1 bad_key_type)) by (pose proof (type_code_byte v Hv); cbn; lia).
  rewrite type_of_type_code by exact Hv. fold (is_object v). destruct (is_object v) eqn:Eo; [|reflexivity].
  destruct (is_object_type v Eo) as [-> | ->]; reflexivity.
Qed.

Lemma node_reads_back s : storable s -> List.Forall (key_coded mp dm) (keys_of s) -> reads_back s.
Proof.
  induction s as [k v n b IH] using schema_ind_nested. cbn [storable keys_of]. intros (_ & Hv & Hn) Hk fuel rest.
  inversion_clear Hk as [|? ? Hk0 Hks]. destruct fuel as [|f].
  { intros Hf. pose proof (encoded_length mp (mk_schema k v n b)). lia. }
  cbn [process_convertion_to_jsonb loaded]. rewrite <- !app_assoc. intros Hf.
  rewrite node_front by assumption. destruct (is_object v) eqn:Eo.
  2:{ now rewrite read_value_written. }
  replace (value_loaded v) with v by (destruct (is_object_type v Eo) as [-> | ->]; reflexivity).
  assert (G : forall cs, n = Some cs -> List.Forall reads_back cs).
  { intros cs ->. specialize (IH cs eq_refl). destruct Hn as [_ Hn]. clear Hf.
    induction IH as [|c cs Hc _ IHcs]; [constructor|]. cbn in Hn, Hks. destruct Hn as [Hc' Hn].
    apply List.Forall_app in Hks as [K1 K2]. constructor; [now apply Hc|now apply IHcs]. }
  assert (Z0 : forall rest, process_children f dm 0 rest = Some (read_ok [] rest)).
  { rewrite !length_app in Hf. cbn in Hf. destruct f; [lia|reflexivity]. }
  destruct n as [cs|]; cbn [app].
  - destruct Hn as [Hl _]. unfold le32 at 1. rewrite wrapU_id by (unfold fits; lia).
    rewrite <- app_assoc, (wire_law (Wire := wire_uint 4 bad_value)) by (cbn; lia).
    destruct cs as [|c cs]; [cbn; now rewrite Z0|].
    destruct (Z.ltb_spec 0 (Z.of_nat (length (c :: cs)))) as [_|C]; [|cbn [length] in C; lia].
    rewrite children_read; [cbn [mbind option_bind read_map]|now apply G|].
    + destruct (Z.eqb_spec (Z.of_nat (length (c :: cs))) 0) as [C|_]; [cbn [length] in C; lia|reflexivity].
    + unfold le32 in Hf. rewrite !length_app, !length_le_digits in Hf. rewrite wrapU_id in Hf by (unfold fits; lia).
      destruct (Z.ltb_spec 0 (Z.of_nat (length (c :: cs)))) as [_|C]; [cbn [length] in Hf; lia|cbn [length] in C; lia].
  - unfold le32 at 1. rewrite wrapU_id by (unfold fits; lia). rewrite (wire_law (Wire := wire_uint 4 bad_value)) by (cbn; lia). now rewrite Z0.
Qed.
End Reader.

(** Every entry of the table is a key of the schema, so it is short enough when the schema is storable. *)
Lemma add_name_entries st k e : In e (fst (add_name st k)) -> In e (fst st) \/ fst e = k.
Proof.
  destruct st as [m i]. unfold add_name. destruct k as [|c k]; [now left|]. destruct (table_find m (c :: k)); [now left|].
  cbn. intros [I|[<-|[]]]%in_app_iff; auto.
Qed.

Lemma table_entries s : forall st e, In e (fst (generate_naming_table s st)) -> In e (fst st) \/ In (fst e) (keys_of s).
Proof.
  induction s as [k v n b IH] using schema_ind_nested. intros st e. cbn [generate_naming_table keys_of].
  destruct n as [cs|].
  - specialize (IH cs eq_refl). intros I.
    assert (G : In e (fst (add_name st k)) \/ In (fst e) (concat (map keys_of cs))).
    { revert I. generalize (add_name st k). induction IH as [|c cs Hc _ IHcs]; intros st' I; [now left|].
      cbn in I |- *. rewrite in_app_iff. destruct (IHcs _ I) as [I'|]; [|tauto]. apply Hc in I'. tauto. }
    destruct G as [G|G]; [apply add_name_entries in G as [G| ->]; [now left|right; now left]|right; now right].
  - intros [I| ->]%add_name_entries; [now left|right; now left].
Qed.

Lemma storable_keys s : storable s -> List.Forall (fun k => Z.of_nat (length k) < 2 ^ 16) (keys_of s).
Proof.
  induction s as [k v n b IH] using schema_ind_nested. cbn [storable keys_of]. intros (Hk & _ & Hn). constructor; [exact Hk|].
  destruct n as [cs|]; [|constructor]. specialize (IH cs eq_refl). destruct Hn as [_ Hn].
  induction IH as [|c cs Hc _ IHcs]; [constructor|]. cbn in Hn |- *. apply List.Forall_app. tauto.
Qed.

(** The tree of the witnesses: two levels, every kind of stored value and a key used twice. *)
Definition sample_schema : schema :=
  mk_schema [] V_object (Some [
    mk_schema (chars "id") (V_integer (-5)) None false;
    mk_schema (chars "name") (V_string (chars "vitex")) None false;
    mk_schema (chars "list") V_array (Some [
      mk_schema [] (V_boolean true) None true;
      mk_schema (chars "id") (V_binary [0; 255]) None true;
      mk_schema [] (V_decimal (decimal_of_text (chars "-12.5"))) None true]) false;
    mk_schema (chars "void") V_null (Some []) true]) true.

Lemma table_start : table_ok ([], 0).
Proof. constructor; cbn; [constructor|constructor|intros ? []|reflexivity]. Qed.

Lemma keys_coded s entries : Permutation entries (get_names s) -> Z.of_nat (length entries) < 2 ^ 32 - 1 ->
  List.Forall (key_coded (get_names s) (swapped entries)) (keys_of s).
Proof.
  intros Hp Hl. destruct (naming_table_ok s _ table_start) as (T & _ & K). apply List.Forall_forall. intros k I Hk.
  destruct (K k I Hk) as [i Ei]. exists i. unfold get_names in *. destruct T as [_ T2 T3 T4].
  split; [exact Ei|]. apply table_find_in in Ei. split.
  - apply T3 in Ei as [_ Ei]. cbn [snd] in Ei. rewrite (Permutation_length Hp) in Hl. lia.
  - apply name_find_swapped; [now rewrite Hp|]. now rewrite Hp.
Qed.

Lemma entries_storable s entries : storable s -> Permutation entries (get_names s) ->
  Z.of_nat (length entries) < 2 ^ 32 - 1 -> List.Forall entry_storable entries.
Proof.
  intros Hs Hp Hl. destruct (naming_table_ok s _ table_start) as (T & _ & _). unfold get_names in Hp.
  apply List.Forall_forall. intros e I. rewrite Hp in I. destruct T as [_ _ T3 T4]. rewrite (Permutation_length Hp) in Hl.
  split; [|split].
  - now apply T3.
  - apply table_entries in I as [[]|I]. apply storable_keys in Hs. rewrite List.Forall_forall in Hs. now apply Hs.
  - apply T3 in I as [_ I]. lia.
Qed.

Lemma encoded_names_length entries : (6 * length entries <= length (concat (map jsonb_entry entries)))%nat.
Proof.
  induction entries as [|e es IH]; [cbn; lia|]. cbn [map concat]. rewrite length_app.
  unfold jsonb_entry at 1, le32, le16. rewrite !length_app, !length_le_digits. cbn [length]. lia.
Qed.

(** (C35) JSONB: a schema that is storable (keys and decimals under 64 KiB, strings and child lists under 4 GiB)
    is read back from its binary form, whatever the order in which the dictionary is written, with the whole
    input consumed; pointers, the nodes of values that are no containers, the marks of change and the trailing
    zeros of decimals are what the format drops. *)
Theorem jsonb_roundtrip (s : schema) (entries : naming_table) :
  storable s -> Permutation entries (get_names s) -> Z.of_nat (length entries) < 2 ^ 32 - 1 ->
  from_jsonb (to_jsonb entries s) = Some (read_ok (loaded s) []).
Proof.
  intros Hs Hp Hl. unfold from_jsonb, to_jsonb, le64, le32. set (names := concat (map jsonb_entry entries)).
  set (body := process_convertion_to_jsonb (get_names s) s).
  rewrite !wrapU_id by (unfold fits, JSONB_VERSION; lia).
  rewrite (wire_law (Wire := wire_uint 8 bad_version)) by (cbn; unfold JSONB_VERSION; lia).
  rewrite Z.eqb_refl. cbn [negb]. rewrite (wire_law (Wire := wire_uint 4 bad_dictionary)) by (cbn; lia).
  pose proof (encoded_names_length entries) as Ln. fold names in Ln.
  set (fuel := jsonb_fuel _). assert (Hf : (length names + length body < fuel)%nat).
  { subst fuel. unfold jsonb_fuel. rewrite !length_app. lia. }
  clearbody fuel. unfold names at 1. rewrite read_names_written; [cbn [mbind option_bind app]| | |lia].
  - rewrite <- (app_nil_r body). apply node_reads_back; [exact Hs|now apply keys_coded|fold body; lia].
  - now apply (entries_storable s).
  - cbn [map app]. rewrite Hp. apply (naming_table_ok s _ table_start).
Qed.

Lemma jsonb_roundtrip_witness : exists entries, from_jsonb (to_jsonb entries sample_schema) = Some (read_ok (loaded sample_schema) []).
Proof.
  exists (rev (get_names sample_schema)). apply (jsonb_roundtrip sample_schema).
  - cbn [storable sample_schema fold_right value_storable].
    repeat match goal with |- _ /\ _ => split | |- True => exact I end; try (vm_compute; reflexivity); try (vm_compute; discriminate).
    left. apply canonical_check. vm_compute. reflexivity.
  - symmetry. apply Permutation_rev.
  - reflexivity.
Defined.

(** ** The reader on arbitrary input *)

Definition consumed {A} (n : nat) (binary : list Z) (r : reading A) : Prop :=
  match r with read_ok _ rest => (length rest + n <= length binary)%nat | read_error _ => True end.

Lemma consumed_bytes n e binary : 0 <= n -> consumed (Z.to_nat n) binary (read_bytes n e binary).
Proof.
  intros Hn. unfold read_bytes. destruct (Z.leb_spec n (Z.of_nat (length binary))); [|exact I].
  cbn. rewrite length_skipn. lia.
Qed.
Lemma consumed_uint n e binary : consumed n binary (read_uint n e binary).
Proof.
  pose proof (consumed_bytes (Z.of_nat n) e binary ltac:(lia)) as H. unfold read_uint.
  destruct (read_bytes _ e binary); [|exact I]. cbn in *. lia.
Qed.
Lemma consumed_map {A B} n binary (f : A -> B) r : consumed n binary r -> consumed n binary (read_map f r).
Proof. now destruct r. Qed.
Lemma consumed_weaken {A} n m binary (r : reading A) : (m <= n)%nat -> consumed n binary r -> consumed m binary r.
Proof. destruct r; cbn; [lia|auto]. Qed.
Lemma consumed_block n binary : consumed n binary (read_block n binary).
Proof.
  pose proof (consumed_uint n bad_value binary) as H. unfold read_block. destruct (read_uint n bad_value binary) as [size rest|]; [|exact I].
  unfold read_bytes. destruct (Z.leb_spec size (Z.of_nat (length rest))); [|exact I]. cbn in *. rewrite length_skipn. lia.
Qed.
Lemma consumed_value t binary : consumed 0 binary (read_value t binary).
Proof.
  destruct t; cbn [read_value]; try (cbn; lia); apply consumed_map;
    eapply consumed_weaken; try apply consumed_block; try apply consumed_uint; lia.
Qed.

Lemma read_names_total fuel : forall set m binary, (length binary < fuel)%nat ->
  exists r, read_names fuel set m binary = Some r /\ consumed 0 binary r.
Proof.
  induction fuel as [|f IH]; [lia|]. intros set m binary Hf. cbn [read_names].
  destruct (set <=? 0); [eexists; split; [reflexivity|cbn; lia]|].
  pose proof (consumed_uint 4 bad_name_index binary) as H1. destruct (read_uint 4 _ binary) as [i r1|]; [|now eexists].
  pose proof (consumed_uint 2 bad_name r1) as H2. destruct (read_uint 2 _ r1) as [size r2|]; [|now eexists].
  cbn in H1, H2. destruct (Z.leb_spec size 0) as [_|Hs].
  - destruct (IH (set - 1) m r2) as (r & E & S); [lia|]. exists r. split; [exact E|]. destruct r; cbn in *; [lia|exact I].
  - pose proof (consumed_bytes size bad_name r2 ltac:(lia)) as H3. destruct (read_bytes size _ r2) as [name r3|]; [|now eexists].
    cbn in H3. destruct (IH (set - 1) (match name_find m i with Some _ => m | None => m ++ [(i, name)] end) r3) as (r & E & S); [lia|].
    exists r. split; [exact E|]. destruct r; cbn in *; [lia|exact I].
Qed.

Lemma nodes_total m fuel :
  (forall binary, (length binary < fuel)%nat ->
     exists r, process_convertion_from_jsonb fuel m binary = Some r /\ consumed 5 binary r) /\
  (forall count binary, (length binary + 1 < fuel)%nat ->
     exists r, process_children fuel m count binary = Some r /\ consumed 0 binary r).
Proof.
  induction fuel as [|f [IHp IHc]]; [split; intros; lia|]. split.
  - intros binary Hf. cbn [process_convertion_from_jsonb].
    pose proof (consumed_uint 4 bad_key_name binary) as H1. destruct (read_uint 4 _ binary) as [i r1|]; [|now eexists].
    pose proof (consumed_uint 1 bad_key_type r1) as H2. destruct (read_uint 1 _ r1) as [code r2|]; [|now eexists].
    cbn in H1, H2. destruct (_ || _).
    + pose proof (consumed_uint 4 bad_value r2) as H3. destruct (read_uint 4 _ r2) as [count r3|]; [|now eexists].
      cbn in H3. destruct (IHc count r3) as (r & -> & S); [lia|]. cbn [mbind option_bind]. eexists. split; [reflexivity|].
      destruct r; cbn in *; [lia|exact I].
    + eexists. split; [reflexivity|]. apply consumed_map. pose proof (consumed_value (type_of_code code) r2) as H3.
      destruct (read_value _ r2); cbn in *; [lia|exact I].
  - intros count binary Hf. cbn [process_children]. destruct (count <=? 0); [eexists; split; [reflexivity|cbn; lia]|].
    destruct (IHp binary) as (r & -> & S); [lia|]. cbn [mbind option_bind]. destruct r as [c r1|e]; [|now eexists].
    cbn in S. destruct (IHc (count - 1) r1) as (r & -> & S'); [lia|]. cbn [mbind option_bind]. eexists. split; [reflexivity|].
    destruct r; cbn in *; [lia|exact I].
Qed.

(** JSONB input: reading ends with a schema or an error on every input, even one whose counts promise more
    than it holds, and a schema costs at least the 17 bytes of an empty document. *)
Theorem jsonb_total (binary : list Z) :
  exists r, from_jsonb binary = Some r /\ consumed 17 binary r.
Proof.
  unfold from_jsonb. pose proof (consumed_uint 8 bad_version binary) as H1. destruct (read_uint 8 _ binary) as [v r1|]; [|now eexists].
  destruct (negb _); [now eexists|].
  pose proof (consumed_uint 4 bad_dictionary r1) as H2. destruct (read_uint 4 _ r1) as [set r2|]; [|now eexists]. cbn in H1, H2.
  set (fuel := jsonb_fuel _). assert (Hf : (length binary < fuel)%nat) by (subst fuel; unfold jsonb_fuel; lia).
  destruct (read_names_total fuel set [] r2) as (r & -> & S); [lia|]. cbn [mbind option_bind].
  destruct r as [m r3|]; [|now eexists]. cbn in S. destruct (proj1 (nodes_total m fuel) r3) as (r & -> & S'); [lia|].
  eexists. split; [reflexivity|]. destruct r; cbn in *; [lia|exact I].
Qed.
