(* ===== verification/SchemaObject.v ===== *)
(** * Schemas: an object is a map

    The children of an object schema, looked up, set, popped and renamed by key (Schema.v), refine the
    operations of a finite map from keys to values. *)
From S2P Require Import Prelude Text TextEdit Codec Decimal Variant Schema.
From stdpp Require Import list gmap.
Open Scope Z_scope.

Fixpoint bindings (cs : list schema) : list (list Z * variant) :=
  match cs with [] => [] | c :: cs' => (schema_key c, schema_value c) :: bindings cs' end.
(** The map an object stands for; of two children of one key the first counts. *)
Definition view (s : schema) : gmap (list Z) variant := list_to_map (bindings (children s)).

(** The invariant of an object: no key twice. *)
Record object_ok (s : schema) : Prop := {
  object_type : get_type (schema_value s) = type_object;
  object_keys : NoDup (map schema_key (children s)) }.

Lemma bindings_keys cs : (bindings cs).*1 = map schema_key cs.
Proof. induction cs as [|c cs IH]; [reflexivity|]. cbn. now f_equal. Qed.
Lemma bindings_app cs cs' : bindings (cs ++ cs') = bindings cs ++ bindings cs'.
Proof. induction cs as [|c cs IH]; [reflexivity|]. cbn. now f_equal. Qed.

Lemma schema_get_view s k : schema_value <$> schema_get s k = view s !! k.
Proof.
  unfold schema_get, view. induction (children s) as [|c cs IH]; [reflexivity|]. cbn.
  destruct (decide (schema_key c = k)) as [->|N].
  - now rewrite bool_decide_eq_true_2, lookup_insert_eq.
  - now rewrite bool_decide_eq_false_2, lookup_insert_ne, <- IH.
Qed.

Lemma overwrite_spec cs k v : match overwrite cs k v with
  | Some cs' => map schema_key cs' = map schema_key cs /\
      (list_to_map (bindings cs') : gmap (list Z) variant) = <[k := v]> (list_to_map (bindings cs))
  | None => k ∉ map schema_key cs
  end.
Proof.
  induction cs as [|c cs IH]; cbn [overwrite]; [cbn; now intros ?%elem_of_nil|]. case_bool_decide as E.
  - subst k. cbn. split; [reflexivity|]. now rewrite insert_insert_eq.
  - destruct (overwrite cs k v) as [cs'|]; cbn in *.
    + destruct IH as [-> ->]. split; [reflexivity|]. now rewrite insert_insert_ne.
    + apply not_elem_of_cons. split; [congruence|assumption].
Qed.

Lemma remove_first_spec cs k : NoDup (map schema_key cs) -> match remove_first cs k with
  | Some cs' => sublist (map schema_key cs') (map schema_key cs) /\
      (list_to_map (bindings cs') : gmap (list Z) variant) = delete k (list_to_map (bindings cs))
  | None => k ∉ map schema_key cs
  end.
Proof.
  induction cs as [|c cs IH]; cbn [remove_first]; [intros _; cbn; now intros ?%elem_of_nil|]. cbn [map]. intros [N D]%NoDup_cons. case_bool_decide as E.
  - subst k. split; [now constructor|]. cbn. rewrite delete_insert_id; [reflexivity|].
    apply not_elem_of_list_to_map_1. now rewrite bindings_keys.
  - specialize (IH D). destruct (remove_first cs k) as [cs'|]; cbn in *.
    + destruct IH as [S ->]. split; [now constructor|]. now rewrite delete_insert_ne.
    + apply not_elem_of_cons. split; [congruence|assumption].
Qed.

Lemma view_absent s k : k ∉ map schema_key (children s) -> view s !! k = None.
Proof. intros N. apply not_elem_of_list_to_map_1. now rewrite bindings_keys. Qed.

Lemma schema_set_view s k v : object_ok s -> object_ok (schema_set s k v) /\ view (schema_set s k v) = <[k := v]> (view s).
Proof.
  intros [T D]. unfold schema_set. rewrite bool_decide_eq_true_2 by exact T.
  pose proof (overwrite_spec (children s) k v) as H. destruct (overwrite (children s) k v) as [cs|].
  - destruct H as [E V]. split; [|exact V]. constructor; [exact T|]. cbn. now rewrite E.
  - split.
    + constructor; [exact T|]. cbn. rewrite map_app. apply NoDup_app. split; [exact D|].
      cbn. split; [|apply NoDup_singleton]. intros x I ->%list_elem_of_singleton. contradiction.
    + unfold view. cbn [append_child children schema_nodes]. rewrite bindings_app. cbn [bindings schema_key schema_value].
      rewrite list_to_map_snoc; [reflexivity|now rewrite bindings_keys].
Qed.

Lemma schema_pop_view s k : object_ok s -> object_ok (schema_pop s k) /\ view (schema_pop s k) = delete k (view s).
Proof.
  intros [T D]. unfold schema_pop. pose proof (remove_first_spec (children s) k D) as H.
  destruct (remove_first (children s) k) as [cs|].
  - destruct H as [S V]. split; [|exact V]. constructor; [exact T|]. cbn. eapply sublist_NoDup; eassumption.
  - split; [now constructor|]. symmetry. apply delete_id. now apply view_absent.
Qed.

Lemma rename_first_spec cs k k' : NoDup (map schema_key cs) -> k' ∉ map schema_key cs -> match rename_first cs k k' with
  | Some cs' => NoDup (map schema_key cs') /\ (forall x, x ∈ map schema_key cs' -> x = k' \/ x ∈ map schema_key cs) /\
      exists v, (list_to_map (bindings cs) : gmap (list Z) variant) !! k = Some v /\
        (list_to_map (bindings cs') : gmap (list Z) variant) = <[k' := v]> (delete k (list_to_map (bindings cs)))
  | None => k ∉ map schema_key cs
  end.
Proof.
  induction cs as [|[k0 v0 n0 b0] cs IH]; cbn [rename_first]; [intros _ _; cbn; now intros ?%elem_of_nil|].
  cbn [map schema_key bindings schema_value list_to_map]. intros [N D]%NoDup_cons [N1 N2]%not_elem_of_cons. case_bool_decide as E.
  - subst k0. cbn [map schema_key bindings schema_value list_to_map foldr fst snd]. split; [now apply NoDup_cons|]. split.
    + intros x [->|I]%elem_of_cons; [now left|right; now apply list_elem_of_further].
    + exists v0. cbn. rewrite lookup_insert_eq, delete_insert_id; [now split|].
      apply not_elem_of_list_to_map_1. now rewrite bindings_keys.
  - specialize (IH D N2). destruct (rename_first cs k k') as [cs'|]; cbn [mbind option_bind map schema_key bindings schema_value].
    + destruct IH as (D' & I & v & L & V). split; [|split].
      * apply NoDup_cons. split; [|exact D']. intros [->|?]%I; contradiction.
      * intros x [->|Hx]%elem_of_cons; [right; apply list_elem_of_here|]. destruct (I x Hx) as [->|]; [now left|right; now apply list_elem_of_further].
      * exists v. cbn. rewrite lookup_insert_ne, V by congruence. split; [exact L|].
        rewrite delete_insert_ne by congruence. rewrite insert_insert_ne by congruence. reflexivity.
    + apply not_elem_of_cons. split; [congruence|assumption].
Qed.

Lemma rename_child_view s k k' : object_ok s -> k' ∉ map schema_key (children s) ->
  match view s !! k with
  | Some v => snd (rename_child s k k') = true /\ object_ok (fst (rename_child s k k')) /\
              view (fst (rename_child s k k')) = <[k' := v]> (delete k (view s))
  | None => rename_child s k k' = (s, false)
  end.
Proof.
  intros [T D] N. unfold rename_child. pose proof (rename_first_spec (children s) k k' D N) as H.
  destruct (rename_first (children s) k k') as [cs|].
  - destruct H as (D' & _ & v & L & V). unfold view at 1. rewrite L. split; [reflexivity|]. split; [|exact V]. now constructor.
  - now rewrite (view_absent s k H).
Qed.

(** (C36) Objects.  On an object whose children have distinct keys, [get] is the lookup of a finite map and
    [set], [pop] and [rename] to a new key are its insertion, its deletion and both; each keeps the keys
    distinct, and [pop] and [rename] of a missing key change nothing. *)
Theorem object_refines_map (s : schema) (k : list Z) (v : variant) :
  object_ok s ->
  schema_value <$> schema_get s k = view s !! k /\
  (object_ok (schema_set s k v) /\ view (schema_set s k v) = <[k := v]> (view s)) /\
  (object_ok (schema_pop s k) /\ view (schema_pop s k) = delete k (view s)) /\
  (view s !! k = None -> children (schema_pop s k) = children s) /\
  forall k', schema_get s k' = None ->
    match view s !! k with
    | Some x => snd (rename_child s k k') = true /\ object_ok (fst (rename_child s k k')) /\
                view (fst (rename_child s k k')) = <[k' := x]> (delete k (view s))
    | None => rename_child s k k' = (s, false)
    end.
Proof.
  intros H. split; [apply schema_get_view|]. split; [now apply schema_set_view|]. split; [now apply schema_pop_view|]. split.
  - intros N. unfold schema_pop. pose proof (remove_first_spec (children s) k (object_keys s H)) as R.
    destruct (remove_first (children s) k) as [cs|] eqn:E; [|reflexivity]. exfalso. clear R H.
    revert cs E N. unfold view. induction (children s) as [|c cs0 IH]; [discriminate|]. cbn. intros cs. case_bool_decide as E.
    + subst k. intros _ N. now rewrite lookup_insert_eq in N.
    + destruct (remove_first cs0 k) as [r|]; [|discriminate]. intros _ N. rewrite lookup_insert_ne in N by congruence. now apply (IH r).
  - intros k' G. apply rename_child_view; [exact H|].
    intros I. pose proof (schema_get_view s k') as L. rewrite G in L. cbn in L. symmetry in L.
    apply not_elem_of_list_to_map_2 in L. rewrite bindings_keys in L. contradiction.
Qed.

(** Two children under one key after a rename onto a key in use. *)
Lemma rename_may_duplicate : exists s k k',
  object_ok s /\ map schema_key (children (fst (rename_child s k k'))) = [k'; k'].
Proof.
  exists (mk_schema [] V_object (Some [mk_schema [97] V_null None true; mk_schema [98] V_null None true]) true), [97], [98].
  split; [|reflexivity]. constructor; [reflexivity|]. cbn. apply NoDup_cons. split; [|apply NoDup_singleton].
  now intros [=]%list_elem_of_singleton.
Qed.

Definition sample_object : schema :=
  mk_schema [] V_object (Some [mk_schema (chars "a") (V_integer 1) None true; mk_schema (chars "b") V_null None true]) true.

Lemma sample_object_ok : object_ok sample_object.
Proof.
  constructor; [reflexivity|]. cbn. apply NoDup_cons. split; [|apply NoDup_singleton].
  now intros [=]%list_elem_of_singleton.
Qed.

Lemma object_refines_map_witness :
  object_ok sample_object /\ view (schema_set sample_object (chars "a") V_array) = <[chars "a" := V_array]> (view sample_object).
Proof.
  split; [exact sample_object_ok|].
  exact (proj2 (proj1 (proj2 (object_refines_map sample_object (chars "a") V_array sample_object_ok)))).
Defined.

(** ** The recursive operations *)

(** A deep copy is the same tree. *)
Lemma schema_copy_same s : schema_copy s = s.
Proof.
  induction s as [k v n b IH] using schema_ind_nested. cbn [schema_copy]. destruct n as [cs|]; [|reflexivity].
  do 2 f_equal. specialize (IH cs eq_refl). induction IH as [|c cs Hc _ IHcs]; [reflexivity|]. cbn. now rewrite Hc, IHcs.
Qed.

Lemma transform_compose f g s : transform f (transform g s) = transform (fun k => f (g k)) s.
Proof.
  induction s as [k v n b IH] using schema_ind_nested. cbn [transform]. destruct n as [cs|]; [|reflexivity].
  do 2 f_equal. specialize (IH cs eq_refl). induction IH as [|c cs Hc _ IHcs]; [reflexivity|]. cbn. now rewrite Hc, IHcs.
Qed.

(** No change is left to save: the schema, its children and, through the containers, the trees below. *)
Fixpoint clean (s : schema) : Prop :=
  let 'mk_schema _ _ n b := s in
  b = true /\
  match n with
  | Some cs => fold_right (fun c P => schema_saved c = true /\ (if is_object (schema_value c) then clean c else True) /\ P) True cs
  | None => True
  end.

Lemma save_root s : schema_saved (save s) = true /\ schema_value (save s) = schema_value s.
Proof. now destruct s. Qed.

Lemma save_clean s : clean (save s).
Proof.
  induction s as [k v n b IH] using schema_ind_nested. cbn [save clean]. split; [reflexivity|].
  destruct n as [cs|]; [|exact I]. specialize (IH cs eq_refl).
  induction IH as [|c cs Hc _ IHcs]; [exact I|]. cbn [map fold_right]. destruct (is_object (schema_value c)) eqn:E.
  - destruct (save_root c) as [-> ->]. rewrite E. auto.
  - cbn [schema_saved schema_value]. rewrite E. auto.
Qed.

(** Saving touches nothing but the marks: it commutes with looking children up. *)
Lemma save_view s : view (save s) = view s.
Proof.
  destruct s as [k v [cs|] b]; [|reflexivity]. unfold view. cbn [save children schema_nodes]. f_equal.
  induction cs as [|[k' v' n' b'] cs IH]; [reflexivity|]. cbn [map bindings]. rewrite IH.
  now destruct (is_object _).
Qed.
