(* ===== verification/Regex.v ===== *)
(** * Regular expressions (src/src/vitex/compute.cpp: [regex_source], [regex])

    The matcher walks the source text of the expression; the compiled form is the list of its brackets and
    of its branches.  A pointer into the expression or into the matched buffer is an index: the expression
    may be read up to its terminating zero, the buffer only inside, and any other read is [rx_fault].
    [rx_fuel] is an exhausted fuel: the loop has not ended. *)
From S2P Require Import Prelude Text TextEdit Codec.

Inductive rx (A : Type) := rx_ok (a : A) | rx_fault | rx_fuel.
Arguments rx_ok {A} a.
Arguments rx_fault {A}.
Arguments rx_fuel {A}.

Definition rx_bind {A B} (x : rx A) (k : A -> rx B) : rx B :=
  match x with rx_ok a => k a | rx_fault => rx_fault | rx_fuel => rx_fuel end.
Declare Scope rx_scope.
Delimit Scope rx_scope with rx.
Notation "'let*' x := e 'in' k" := (rx_bind e (fun x => k))
  (at level 10, x pattern, e at level 200, k at level 200) : rx_scope.
#[local] Open Scope rx_scope.

(** [regex_state]. *)
Definition state_preprocessed : Z := 0.
Definition state_match_found : Z := -1.
Definition state_no_match : Z := -2.
Definition state_unexpected_quantifier : Z := -3.
Definition state_unbalanced_brackets : Z := -4.
Definition state_internal_error : Z := -5.
Definition state_invalid_character_set : Z := -6.
Definition state_invalid_metacharacter : Z := -7.

Record regex_bracket := mk_bracket {
  bracket_pointer : Z; bracket_length : Z; bracket_branches : Z; branches_count : Z }.
Record regex_branch := mk_branch { bracket_index : Z; branch_pointer : Z }.
(** [start] and [end] of a match are set from its pointer at the end. *)
Record regex_match := mk_match { match_pointer : Z; match_length : Z; match_steps : Z }.
Record regex_source := mk_source {
  expression : list Z; brackets : list regex_bracket; branches : list regex_branch;
  source_state : Z; ignore_case : bool }.

(** ** Reading the expression *)

(** [value[p]]: the characters of the expression and the zero behind them. *)
Definition value_char (e : list Z) (p : Z) : rx Z :=
  if (0 <=? p) && (p <=? Z.of_nat (length e)) then rx_ok (nth (Z.to_nat p) e 0) else rx_fault.
(** [buffer[q]]. *)
Definition buffer_at (t : list Z) (q : Z) : rx Z :=
  if (0 <=? q) && (q <? Z.of_nat (length t)) then rx_ok (nth (Z.to_nat q) t 0) else rx_fault.

Definition meta (c : Z) : bool := strchr (chars "^$().[]*+?|\Ssdbfnrtv") c.
Definition op_length (e : list Z) (p : Z) : rx Z :=
  let* c := value_char e p in
  if c =? 92 then let* d := value_char e (p + 1) in rx_ok (if d =? 120 then 4 else 2) else rx_ok 1.
Fixpoint set_length_loop (fuel : nat) (e : list Z) (p value_length len : Z) : rx Z :=
  match fuel with
  | O => rx_fuel
  | S f =>
      if len <? value_length then
        let* c := value_char e (p + len) in
        if c =? 93 then rx_ok len
        else let* n := op_length e (p + len) in set_length_loop f e p value_length (len + n)
      else rx_ok len
  end.
Definition set_length (e : list Z) (p value_length : Z) : rx Z :=
  let* len := set_length_loop (S (Z.to_nat value_length)) e p value_length 0 in
  rx_ok (if len <=? value_length then len + 1 else -1).
Definition get_op_length (e : list Z) (p value_length : Z) : rx Z :=
  let* c := value_char e p in
  if c =? 91 then let* n := set_length e (p + 1) (value_length - 1) in rx_ok (n + 1) else op_length e p.
Definition quantifier (c : Z) : bool := (c =? 42) || (c =? 43) || (c =? 63).
Definition to_int (x : Z) : Z := if isdigit x then x - 48 else x - 87.
(** [to_int(..) << 4 | to_int(..)], taken as a byte where it is compared. *)
Definition hex_to_int (a b : Z) : Z := Z.lor (Z.shiftl (to_int (tolower a)) 4) (to_int (tolower b)).

(** ** [compile] *)

Definition set_bracket_length (bs : list regex_bracket) (idx : nat) (n : Z) : list regex_bracket :=
  match nth_error bs idx with
  | Some b => firstn idx bs ++ mk_bracket (bracket_pointer b) n (bracket_branches b) (branches_count b) :: skipn (S idx) bs
  | None => bs
  end.
Definition back_open (bs : list regex_bracket) : bool :=
  match last bs with Some b => bracket_length b =? -1 | None => false end.

(** The loop over the expression; [inl] is the state of a failure. *)
Fixpoint compile_loop (fuel : nat) (e : list Z) (i depth : Z) (bs : list regex_bracket) (rs : list regex_branch) :
    rx (list regex_bracket * list regex_branch * (Z + Z)) :=
  match fuel with
  | O => rx_fuel
  | S f =>
      let size := Z.of_nat (length e) in
      if i <? size then
        let* step := get_op_length e i (size - i) in
        let* c := value_char e i in
        let next d bs rs := compile_loop f e (i + step) d bs rs in
        let fail s bs := rx_ok (bs, rs, inl s) in
        if c =? 124 then
          let index := if back_open bs then Z.of_nat (length bs) - 1 else depth in
          next depth bs (rs ++ [mk_branch index i])
        else if c =? 92 then
          if size - 1 <=? i then fail state_invalid_metacharacter bs
          else
            let* d := value_char e (i + 1) in
            if d =? 120 then
              if size - 3 <=? i then fail state_invalid_metacharacter bs
              else
                let* h := value_char e (i + 2) in
                let* l := value_char e (i + 3) in
                if negb (isxdigit h && isxdigit l) then fail state_invalid_metacharacter bs else next depth bs rs
            else if negb (meta d) then fail state_invalid_metacharacter bs
            else next depth bs rs
        else if c =? 40 then next (depth + 1) (bs ++ [mk_bracket (i + 1) (-1) 0 0]) rs
        else if c =? 41 then
          let idx := if back_open bs then Z.of_nat (length bs) - 1 else depth in
          match nth_error bs (Z.to_nat idx) with
          | None => rx_fault
          | Some b =>
              let bs := set_bracket_length bs (Z.to_nat idx) (i - bracket_pointer b) in
              let depth := depth - 1 in
              if depth <? 0 then fail state_unbalanced_brackets bs
              else
                let* before := if 0 <? i then value_char e (i - 1) else rx_ok 0 in
                if (0 <? i) && (before =? 40) then fail state_no_match bs
                else next depth bs rs
          end
        else next depth bs rs
      else rx_ok (bs, rs, inr depth)
  end.

(** The exchange sort of the branches by their bracket. *)
Fixpoint sort_inner (x : regex_branch) (rest : list regex_branch) : regex_branch * list regex_branch :=
  match rest with
  | [] => (x, [])
  | y :: rest' =>
      if bracket_index y <? bracket_index x
      then let '(z, r) := sort_inner y rest' in (z, x :: r)
      else let '(z, r) := sort_inner x rest' in (z, y :: r)
  end.
Fixpoint sort_branches (n : nat) (rs : list regex_branch) : list regex_branch :=
  match n, rs with
  | S n', x :: rest => let '(z, r) := sort_inner x rest in z :: sort_branches n' r
  | _, _ => rs
  end.

(** The run of branches of bracket [i] at the front, and the rest. *)
Fixpoint count_branches (i : Z) (rs : list regex_branch) : Z * list regex_branch :=
  match rs with
  | r :: rs' => if bracket_index r =? i then let '(n, rest) := count_branches i rs' in (n + 1, rest) else (0, rs)
  | [] => (0, [])
  end.
Fixpoint assign_branches (i j : Z) (bs : list regex_bracket) (rs : list regex_branch) : list regex_bracket :=
  match bs with
  | [] => []
  | b :: bs' =>
      let '(n, rest) := count_branches i rs in
      mk_bracket (bracket_pointer b) (bracket_length b) j n :: assign_branches (i + 1) (j + n) bs' rest
  end.

Definition compile (fuel : nat) (e : list Z) (icase : bool) : rx regex_source :=
  let* r := compile_loop fuel e 0 0 [mk_bracket 0 (Z.of_nat (length e)) 0 0] [] in
  let '(bs, rs, depth) := r in
  match depth with
  | inl s => rx_ok (mk_source e bs rs s icase)
  | inr depth =>
      if negb (depth =? 0) then rx_ok (mk_source e bs rs state_unbalanced_brackets icase)
      else
        let rs := sort_branches (length rs) rs in
        rx_ok (mk_source e (assign_branches 0 0 bs rs) rs state_preprocessed icase)
  end.

(** ** Matching *)

Record match_info := mk_info { info_matches : list regex_match; info_steps : Z }.

Section Source.
Context (src : regex_source) (t : list Z).
Let e := expression src.

(** [REGEX_FAIL(b, no_match)], else one character matched. *)
Definition matched (b : bool) : rx Z := rx_ok (if b then 1 else state_no_match).
Definition match_op (p q : Z) : rx Z :=
  let* c := value_char e p in
  if c =? 92 then
    let* d := value_char e (p + 1) in
    if d =? 83 then let* b := buffer_at t q in matched (negb (isspace b))
    else if d =? 115 then let* b := buffer_at t q in matched (isspace b)
    else if d =? 100 then let* b := buffer_at t q in matched (isdigit b)
    else if d =? 98 then let* b := buffer_at t q in matched (b =? 8)
    else if d =? 102 then let* b := buffer_at t q in matched (b =? 12)
    else if d =? 110 then let* b := buffer_at t q in matched (b =? 10)
    else if d =? 114 then let* b := buffer_at t q in matched (b =? 13)
    else if d =? 116 then let* b := buffer_at t q in matched (b =? 9)
    else if d =? 118 then let* b := buffer_at t q in matched (b =? 11)
    else if d =? 120 then
      let* h := value_char e (p + 2) in
      let* l := value_char e (p + 3) in
      let* b := buffer_at t q in matched (u8 (hex_to_int h l) =? b)
    else let* b := buffer_at t q in matched (d =? b)
  else if c =? 124 then rx_ok state_internal_error
  else if c =? 36 then rx_ok state_no_match
  else if c =? 46 then rx_ok 1
  else
    let* b := buffer_at t q in
    matched (if ignore_case src then tolower c =? tolower b else c =? b).

(** The characters of a set are [char]s, which are signed. *)
Definition in_range (b lo hi : Z) : bool :=
  if ignore_case src
  then (tolower (i8 lo) <=? tolower (i8 b)) && (tolower (i8 b) <=? tolower (i8 hi))
  else (i8 lo <=? i8 b) && (i8 b <=? i8 hi).
Fixpoint match_set_loop (fuel : nat) (p value_length q len result : Z) : rx Z :=
  match fuel with
  | O => rx_fuel
  | S f =>
      if len <=? value_length then
        let* c := value_char e (p + len) in
        if negb (c =? 93) && (result <=? 0) then
          let* range :=
            (if c =? 45 then rx_ok false
             else let* d := value_char e (p + len + 1) in
                  if negb (d =? 45) then rx_ok false
                  else let* h := value_char e (p + len + 2) in rx_ok (negb (h =? 93) && negb (h =? 0))) in
          if range : bool then
            let* h := value_char e (p + len + 2) in
            let* b := buffer_at t q in
            match_set_loop f p value_length q (len + 3) (b2z (in_range b c h))
          else
            let* r := match_op (p + len) q in
            let* n := op_length e (p + len) in
            match_set_loop f p value_length q (len + n) r
        else rx_ok result
      else rx_ok result
  end.
Definition match_set (p value_length q : Z) : rx Z :=
  let* c := value_char e p in
  let invert := c =? 94 in
  let p := if invert then p + 1 else p in
  let value_length := if invert then value_length - 1 else value_length in
  let* result := match_set_loop (S (S (Z.to_nat value_length))) p value_length q 0 (-1) in
  rx_ok (if negb invert && (0 <? result) || invert && (result <=? 0) then 1 else -1).

Definition bracket (condition : Z) : rx regex_bracket :=
  if condition <? 0 then rx_fault
  else match nth_error (brackets src) (Z.to_nat condition) with Some b => rx_ok b | None => rx_fault end.
Definition branch (i : Z) : rx regex_branch :=
  if i <? 0 then rx_fault
  else match nth_error (branches src) (Z.to_nat i) with Some b => rx_ok b | None => rx_fault end.

Definition step_info (m : match_info) : match_info := mk_info (info_matches m) (info_steps m + 1).
(** The match of a bracket: the entry of its number, or a new one at the end. *)
Definition record_match (condition pointer len : Z) (m : match_info) : match_info :=
  let ms := info_matches m in
  let k := Z.to_nat (condition - 1) in
  mk_info
    (if (length ms <=? k)%nat then ms ++ [mk_match pointer len 1]
     else match nth_error ms k with
          | Some old => firstn k ms ++ mk_match pointer len (match_steps old + 1) :: skipn (S k) ms
          | None => ms
          end)
    (info_steps m).

(** [parse_inner] is [inner_loop] from the start of the expression; the value of [*] and [+] and of a
    bracket are loops of their own. *)
Fixpoint inner_loop (fuel : nat) (vp vl bp bl condition i j : Z) (m : match_info) : rx (Z * match_info) :=
  match fuel with
  | O => rx_fuel
  | S f =>
      if (i <? vl) && (j <=? bl) then
        let* c := value_char e (vp + i) in
        let* step :=
          (if c =? 40 then let* b := bracket (condition + 1) in rx_ok (bracket_length b + 2)
           else get_op_length e (vp + i) (vl - i)) in
        if quantifier c then rx_ok (state_unexpected_quantifier, m)
        else if step <=? 0 then rx_ok (state_invalid_character_set, m)
        else
          let m := step_info m in
          let* q := if i + step <? vl then value_char e (vp + i + step) else rx_ok 0 in
          if q =? 63 then
            let* (r, m) := inner_loop f (vp + i) step (bp + j) (bl - j) condition 0 0 m in
            inner_loop f vp vl bp bl condition (i + 1 + step) (if 0 <? r then j + r else j) m
          else if (q =? 42) || (q =? 43) then
            let ni := i + step + 1 in
            let* lazy := if ni <? vl then let* c := value_char e (vp + ni) in rx_ok (c =? 63) else rx_ok false in
            let ni := if lazy : bool then ni + 1 else ni in
            let* (nj, n1, n2, m) := star_loop f vp vl bp bl condition i step ni (q =? 43) lazy j j j (-1) m in
            let* (nj, n2, m) :=
              (if (n1 <? 0) && (n2 <? 0) && (q =? 42) then
                 let* (n2, m) := inner_loop f (vp + ni) (vl - ni) (bp + j) (bl - j) condition 0 0 m in
                 rx_ok (if 0 <? n2 then j + n2 else nj, n2, m)
               else rx_ok (nj, n2, m)) in
            if (q =? 43) && (nj =? j) then rx_ok (state_no_match, m)
            else if (nj =? j) && (ni <? vl) && (n2 <? 0) then rx_ok (state_no_match, m)
            else rx_ok (nj, m)
          else if c =? 91 then
            let* n := match_set (vp + i + 1) (vl - (i + 2)) (bp + j) in
            if n <=? 0 then rx_ok (state_no_match, m)
            else inner_loop f vp vl bp bl condition (i + step) (j + n) m
          else if c =? 40 then
            let condition := condition + 1 in
            if Z.of_nat (length (brackets src)) <=? condition then rx_ok (state_internal_error, m)
            else
              let* (n, m) :=
                (if 0 <? vl - (i + step)
                 then group_loop f (vp + i + step) (vl - (i + step)) (bp + j) (bl - j) condition 0 state_no_match m
                 else parse_doh f (bp + j) (bl - j) condition 0 m) in
              if n <? 0 then rx_ok (n, m)
              else
                let m := if 0 <? n then record_match condition (bp + j) n m else m in
                inner_loop f vp vl bp bl condition (i + step) (j + n) m
          else if c =? 94 then
            if negb (j =? 0) then rx_ok (state_no_match, m)
            else inner_loop f vp vl bp bl condition (i + step) j m
          else if c =? 36 then
            if negb (j =? bl) then rx_ok (state_no_match, m)
            else inner_loop f vp vl bp bl condition (i + step) j m
          else if bl <=? j then rx_ok (state_no_match, m)
          else
            let* n := match_op (vp + i) (bp + j) in
            if n <=? 0 then rx_ok (n, m)
            else inner_loop f vp vl bp bl condition (i + step) (j + n) m
      else rx_ok (j, m)
  end
(** The [do] loop of [*] and [+]: [nj], [n1] and [n2] when it ends. *)
with star_loop (fuel : nat) (vp vl bp bl condition i step ni : Z) (plus lazy : bool) (j j2 nj n2 : Z) (m : match_info) :
    rx (Z * Z * Z * match_info) :=
  match fuel with
  | O => rx_fuel
  | S f =>
      let* (n1, m) := inner_loop f (vp + i) step (bp + j2) (bl - j2) condition 0 0 m in
      let j2 := if 0 <? n1 then j2 + n1 else j2 in
      if plus && (n1 <? 0) then rx_ok (nj, n1, n2, m)
      else
        let* (nj, n2, m) :=
          (if vl <=? ni then rx_ok (j2, n2, m)
           else let* (n2, m) := inner_loop f (vp + ni) (vl - ni) (bp + j2) (bl - j2) condition 0 0 m in
                rx_ok (if 0 <=? n2 then j2 + n2 else nj, n2, m)) in
        if (j <? nj) && lazy then rx_ok (nj, n1, n2, m)
        else if 0 <? n1 then star_loop f vp vl bp bl condition i step ni plus lazy j j2 nj n2 m
        else rx_ok (nj, n1, n2, m)
  end
(** The loop of a bracket that is not the end of the expression: the text behind it is tried on what the
    bracket leaves, the bracket on ever less of the buffer. *)
with group_loop (fuel : nat) (vp vl bp bl condition j2 n : Z) (m : match_info) : rx (Z * match_info) :=
  match fuel with
  | O => rx_fuel
  | S f =>
      if j2 <=? bl then
        let* (n, m) := parse_doh f bp (bl - j2) condition 0 m in
        if 0 <=? n then
          let* (r, m) := inner_loop f vp vl (bp + n) (bl - n) condition 0 0 m in
          if 0 <=? r then rx_ok (n, m) else group_loop f vp vl bp bl condition (j2 + 1) n m
        else group_loop f vp vl bp bl condition (j2 + 1) n m
      else rx_ok (n, m)
  end
(** [parse_doh] from its alternative [i]. *)
with parse_doh (fuel : nat) (bp bl condition i : Z) (m : match_info) : rx (Z * match_info) :=
  match fuel with
  | O => rx_fuel
  | S f =>
      let* bk := bracket condition in
      let* ptr :=
        (if i =? 0 then rx_ok (bracket_pointer bk)
         else let* r := branch (bracket_branches bk + i - 1) in rx_ok (branch_pointer r + 1)) in
      let* len :=
        (if branches_count bk =? 0 then rx_ok (bracket_length bk)
         else if i =? branches_count bk then rx_ok (bracket_pointer bk + bracket_length bk - ptr)
         else let* r := branch (bracket_branches bk + i) in rx_ok (branch_pointer r - ptr)) in
      let* (result, m) := inner_loop f ptr len bp bl condition 0 0 m in
      if (result <=? 0) && (i <? branches_count bk) then parse_doh f bp bl condition (i + 1) m
      else rx_ok (result, m)
  end.

(** [parse]: from every start, or from the first one only. *)
Fixpoint parse_loop (fuel : nat) (anchored : bool) (i : Z) (m : match_info) : rx (Z * match_info) :=
  match fuel with
  | O => rx_fuel
  | S f =>
      let* (result, m) := parse_doh f i (Z.of_nat (length t) - i) 0 0 m in
      if 0 <=? result then rx_ok (result + i, m)
      else if anchored then rx_ok (result, m)
      else if i + 1 <=? Z.of_nat (length t) then parse_loop f anchored (i + 1) m
      else rx_ok (result, m)
  end.
Definition regex_parse (fuel : nat) (m : match_info) : rx (Z * match_info) :=
  let* b := bracket 0 in
  let* c := value_char e (bracket_pointer b) in
  parse_loop fuel (c =? 94) 0 m.

Record regex_result := mk_result { result_matches : list regex_match; result_state : Z; result_steps : Z }.
(** [match]: whether the code is positive; the steps of earlier matches are kept. *)
Definition regex_match_source (fuel : nat) (steps : Z) : rx (bool * regex_result) :=
  let* (code, m) := regex_parse fuel (mk_info [] steps) in
  if code <=? 0 then rx_ok (false, mk_result [] code (info_steps m))
  else rx_ok (true, mk_result (info_matches m) state_match_found (info_steps m)).
Definition match_start (r : regex_match) : Z := match_pointer r.
Definition match_end (r : regex_match) : Z := match_pointer r + match_length r.
Definition match_content (r : regex_match) : list Z :=
  firstn (Z.to_nat (match_length r)) (skipn (Z.to_nat (match_pointer r)) t).
End Source.

(** ** Replacing *)

(** [$1], [$2], ... in the replacement: the entries of the matches from number 1 on. *)
Fixpoint emplace_groups (t emplace : list Z) (i : Z) (items : list regex_match) : rx (list Z) :=
  match items with
  | [] => rx_ok emplace
  | item :: items' =>
      match replace emplace (36 :: size_to_string i) (match_content t item) 0 with
      | Some emplace => emplace_groups t emplace (i + 1) items'
      | None => rx_fuel
      end
  end.

(** [replace]: the buffer and how many matches were met.  [match_fuel] is the fuel of each match. *)
Fixpoint regex_replace (fuel match_fuel : nat) (src : regex_source) (to buffer : list Z) (start : nat) (steps : Z) (matches : nat) :
    rx (list Z * nat) :=
  match fuel with
  | O => rx_fuel
  | S f =>
      let t := skipn start buffer in
      let* (found, result) := regex_match_source src t match_fuel steps in
      if found : bool then
        match result_matches result with
        | [] => regex_replace f match_fuel src to buffer start (result_steps result) (S matches)
        | where_ :: groups =>
            let* emplace := (if one_of to 36 then emplace_groups t to 1 groups else rx_ok to) in
            let buffer := replace_part buffer (Z.to_nat (match_start where_) + start) (Z.to_nat (match_end where_) + start) emplace in
            let start := (start + (Z.to_nat (match_start where_) + length emplace - (if bool_decide (emplace = []) then 0 else 1)))%nat in
            regex_replace f match_fuel src to buffer start (result_steps result) (S matches)
        end
      else rx_ok (buffer, matches)
  end.
