(* ===== verification/RegexFacts.v ===== *)
(** * Regular expressions: what the matcher finds

    For the expressions built from characters, escapes and the dot with their quantifiers, optionally anchored
    at either end, the matcher of Regex.v is compared with the language of the expression: it returns on every
    text, what it reports is a match that starts leftmost, and - unless an item is optional, which the code
    never takes back - it reports a match whenever there is one. *)
From S2P Require Import Prelude Text TextEdit Codec Regex.
#[local] Open Scope rx_scope.

(** ** The expressions *)

Inductive atom := atom_char (c : Z) | atom_any | atom_escape (c : Z) | atom_hex (h l : Z).
Inductive quant := q_one | q_opt | q_many (plus lazy : bool).
Definition item : Type := atom * quant.

Definition print_atom (a : atom) : list Z :=
  match a with
  | atom_char c => [c] | atom_any => chars "." | atom_escape c => [92; c] | atom_hex h l => [92; 120; h; l]
  end.
Definition print_quant (q : quant) : list Z :=
  match q with
  | q_one => [] | q_opt => chars "?"
  | q_many plus lazy => (if plus then chars "+" else chars "*") ++ (if lazy then chars "?" else [])
  end.
Definition print_item (i : item) : list Z := print_atom (fst i) ++ print_quant (snd i).
Definition print_items (r : list item) : list Z := concat (map print_item r).
Definition dollar (d : bool) : list Z := if d then [36] else [].
Definition body (r : list item) (d : bool) : list Z := print_items r ++ dollar d.

(** The characters [^$().[*+?|] and the backslash. *)
Definition special : list Z := [94; 36; 40; 41; 46; 91; 42; 43; 63; 124; 92].
Definition atom_ok (a : atom) : Prop :=
  match a with
  | atom_char c => existsb (Z.eqb c) special = false
  | atom_any => True
  | atom_escape c => meta c = true /\ c <> 120
  | atom_hex h l => isxdigit h = true /\ isxdigit l = true
  end.
Definition items_ok (r : list item) : Prop := List.Forall (fun i => atom_ok (fst i)) r.
(** No item is optional. *)
Definition exhaustive (r : list item) : bool := forallb (fun i => match snd i with q_opt => false | _ => true end) r.

(** ** Their language *)

Definition atom_matches (icase : bool) (a : atom) (b : Z) : bool :=
  match a with
  | atom_char c => if icase then tolower c =? tolower b else c =? b
  | atom_any => true
  | atom_escape d =>
      if d =? 83 then negb (isspace b) else if d =? 115 then isspace b else if d =? 100 then isdigit b
      else if d =? 98 then b =? 8 else if d =? 102 then b =? 12 else if d =? 110 then b =? 10
      else if d =? 114 then b =? 13 else if d =? 116 then b =? 9 else if d =? 118 then b =? 11 else d =? b
  | atom_hex h l => u8 (hex_to_int h l) =? b
  end.

Section Language.
Context (icase : bool).
(** [accepts r d u rest]: the items match [u]; [rest] stands behind it. *)
Inductive accepts : list item -> bool -> list Z -> list Z -> Prop :=
| acc_end d rest : (d = true -> rest = []) -> accepts [] d [] rest
| acc_one a r d b u rest : atom_matches icase a b = true -> accepts r d u rest -> accepts ((a, q_one) :: r) d (b :: u) rest
| acc_skip a r d u rest : accepts r d u rest -> accepts ((a, q_opt) :: r) d u rest
| acc_take a r d b u rest : atom_matches icase a b = true -> accepts r d u rest -> accepts ((a, q_opt) :: r) d (b :: u) rest
| acc_many a p z r d v u rest : List.Forall (fun b => atom_matches icase a b = true) v -> (p = true -> v <> []) ->
    accepts r d u rest -> accepts ((a, q_many p z) :: r) d (v ++ u) rest.
End Language.

(** ** Reading printed text *)
Lemma value_char_app pre s p k : p = Z.of_nat (length pre) + Z.of_nat k -> (k <= length s)%nat -> value_char (pre ++ s) p = rx_ok (nth k s 0).
Proof.
  intros -> Hk. unfold value_char. rewrite length_app.
  destruct (Z.leb_spec 0 (Z.of_nat (length pre) + Z.of_nat k)); [|lia].
  destruct (Z.leb_spec (Z.of_nat (length pre) + Z.of_nat k) (Z.of_nat (length pre + length s))); [|lia]. cbn [andb].
  rewrite app_nth2 by lia. do 2 f_equal. lia.
Qed.

Lemma buffer_at_app pre b s q : q = Z.of_nat (length pre) -> buffer_at (pre ++ b :: s) q = rx_ok b.
Proof.
  intros ->. unfold buffer_at. rewrite length_app. cbn [length].
  destruct (Z.leb_spec 0 (Z.of_nat (length pre))); [|lia].
  destruct (Z.ltb_spec (Z.of_nat (length pre)) (Z.of_nat (length pre + S (length s)))); [|lia]. cbn [andb].
  rewrite app_nth2 by lia. replace (Z.to_nat (Z.of_nat (length pre)) - length pre)%nat with 0%nat by lia. reflexivity.
Qed.

Definition first_char (s : list Z) : Z := nth 0 s 0.

(** The first character of an atom is none of those with a meaning of their own. *)
Lemma atom_front a : atom_ok a -> let c := first_char (print_atom a) in
  c <> 40 /\ c <> 41 /\ quantifier c = false /\ c <> 91 /\ c <> 94 /\ c <> 36 /\ c <> 124.
Proof.
  destruct a as [c| |c|h l]; cbn [atom_ok print_atom first_char nth]; intros H; cbn zeta; try (cbn; repeat split; discriminate).
  unfold special in H. cbn in H. unfold quantifier. lia.
Qed.

Lemma atom_length a : (1 <= length (print_atom a))%nat.
Proof. destruct a; cbn; lia. Qed.

Lemma op_length_atom a pre post p : atom_ok a -> p = Z.of_nat (length pre) ->
  op_length (pre ++ print_atom a ++ post) p = rx_ok (Z.of_nat (length (print_atom a))).
Proof.
  intros Ha Hp. unfold op_length. rewrite (value_char_app _ _ _ 0) by lia. cbn [rx_bind].
  destruct a as [c| |c|h l]; cbn [print_atom app nth].
  - destruct (Z.eqb_spec c 92) as [->|]; [discriminate Ha|]. reflexivity.
  - reflexivity.
  - change (92 =? 92) with true. cbv iota. rewrite (value_char_app _ _ _ 1) by (cbn; lia). cbn [rx_bind nth].
    destruct (Z.eqb_spec c 120); [now destruct Ha|]. reflexivity.
  - change (92 =? 92) with true. cbv iota. rewrite (value_char_app _ _ _ 1) by (cbn; lia). reflexivity.
Qed.

Lemma get_op_length_atom a pre post p n : atom_ok a -> p = Z.of_nat (length pre) ->
  get_op_length (pre ++ print_atom a ++ post) p n = rx_ok (Z.of_nat (length (print_atom a))).
Proof.
  intros Ha Hp. unfold get_op_length. rewrite (value_char_app _ _ _ 0) by lia. cbn [rx_bind].
  destruct (atom_front a Ha) as (_ & _ & _ & N & _). replace (nth 0 (print_atom a ++ post) 0) with (first_char (print_atom a)).
  - rewrite (proj2 (Z.eqb_neq _ _) N). now apply op_length_atom.
  - unfold first_char. rewrite app_nth1 by apply atom_length. reflexivity.
Qed.

Section Matcher.
Context (src : regex_source) (t : list Z).
Abbreviation e := (expression src).
Abbreviation icase := (ignore_case src).

Lemma match_op_atom a pre post p tpre b u q : atom_ok a -> e = pre ++ print_atom a ++ post -> p = Z.of_nat (length pre) ->
  t = tpre ++ b :: u -> q = Z.of_nat (length tpre) -> match_op src t p q = matched (atom_matches icase a b).
Proof.
  intros Ha He Hp Ht Hq. unfold match_op. rewrite He.
  assert (B : buffer_at t q = rx_ok b) by (rewrite Ht; now apply buffer_at_app).
  assert (V : forall k z, z = p + Z.of_nat k -> (k <= length (print_atom a ++ post))%nat ->
    value_char (pre ++ print_atom a ++ post) z = rx_ok (nth k (print_atom a ++ post) 0))
    by (intros k z Hz Hk; apply value_char_app; lia).
  rewrite (V 0%nat) by lia. cbn [rx_bind].
  destruct a as [c| |d|h l]; cbn [print_atom app nth atom_ok atom_matches] in *.
  - unfold special in Ha. cbn in Ha.
    destruct (Z.eqb_spec c 92); [lia|]. destruct (Z.eqb_spec c 124); [lia|]. destruct (Z.eqb_spec c 36); [lia|].
    destruct (Z.eqb_spec c 46); [lia|]. now rewrite B.
  - reflexivity.
  - change (92 =? 92) with true. cbv iota. rewrite (V 1%nat) by (cbn [length]; lia). cbn [rx_bind nth].
    destruct (Z.eqb_spec d 120); [now destruct Ha|]. rewrite B. cbn [rx_bind].
    repeat match goal with |- context [d =? ?k] => destruct (d =? k); [reflexivity|] end. reflexivity.
  - change (92 =? 92) with true. cbv iota. rewrite (V 1%nat) by (cbn [length]; lia). cbn [rx_bind nth].
    cbn [Z.eqb Pos.eqb]. rewrite (V 2%nat), (V 3%nat) by (cbn [length]; lia). cbn [rx_bind nth]. now rewrite B.
Qed.

(** ** One atom *)

(** The value of a run: a match at the front of [u], or a negative number. *)
Definition outcome_at (r : list item) (d : bool) (u : list Z) (j res : Z) : Prop :=
  (exists u1 u2, u = u1 ++ u2 /\ accepts icase r d u1 u2 /\ res = j + Z.of_nat (length u1)) \/
  (res < 0 /\ (exhaustive r = true -> forall u1 u2, u = u1 ++ u2 -> ~ accepts icase r d u1 u2)).

(** The front of a round of the loop at an atom: up to the look at the character behind it. *)
Lemma round_at_atom a pre post vp vl bp bl cond i j m f : atom_ok a ->
  e = pre ++ print_atom a ++ post -> vp + i = Z.of_nat (length pre) -> i < vl -> j <= bl ->
  let step := Z.of_nat (length (print_atom a)) in
  inner_loop src t (S f) vp vl bp bl cond i j m =
  rx_bind (if i + step <? vl then value_char e (vp + i + step) else rx_ok 0) (fun q =>
    let m := step_info m in
    if q =? 63 then
      let* (r, m) := inner_loop src t f (vp + i) step (bp + j) (bl - j) cond 0 0 m in
      inner_loop src t f vp vl bp bl cond (i + 1 + step) (if 0 <? r then j + r else j) m
    else if (q =? 42) || (q =? 43) then
      let ni := i + step + 1 in
      let* lazy := if ni <? vl then let* c := value_char e (vp + ni) in rx_ok (c =? 63) else rx_ok false in
      let ni := if lazy : bool then ni + 1 else ni in
      let* (nj, n1, n2, m) := star_loop src t f vp vl bp bl cond i step ni (q =? 43) lazy j j j (-1) m in
      let* (nj, n2, m) :=
        (if (n1 <? 0) && (n2 <? 0) && (q =? 42) then
           let* (n2, m) := inner_loop src t f (vp + ni) (vl - ni) (bp + j) (bl - j) cond 0 0 m in
           rx_ok (if 0 <? n2 then j + n2 else nj, n2, m)
         else rx_ok (nj, n2, m)) in
      if (q =? 43) && (nj =? j) then rx_ok (state_no_match, m)
      else if (nj =? j) && (ni <? vl) && (n2 <? 0) then rx_ok (state_no_match, m)
      else rx_ok (nj, m)
    else if bl <=? j then rx_ok (state_no_match, m)
    else
      let* n := match_op src t (vp + i) (bp + j) in
      if n <=? 0 then rx_ok (n, m)
      else inner_loop src t f vp vl bp bl cond (i + step) (j + n) m).
Proof.
  intros Ha He Hp Hi Hj step. cbn [inner_loop]. rewrite (proj2 (Z.ltb_lt i vl) Hi), (proj2 (Z.leb_le j bl) Hj). cbn [andb].
  assert (C : value_char e (vp + i) = rx_ok (first_char (print_atom a))).
  { rewrite He, (value_char_app _ _ _ 0) by (cbn; lia). unfold first_char. now rewrite app_nth1 by apply atom_length. }
  rewrite C. cbn [rx_bind]. destruct (atom_front a Ha) as (N1 & _ & Q & N2 & N3 & N4 & _).
  rewrite (proj2 (Z.eqb_neq _ _) N1), (proj2 (Z.eqb_neq _ _) N2), (proj2 (Z.eqb_neq _ _) N3), (proj2 (Z.eqb_neq _ _) N4).
  rewrite He at 1. rewrite (get_op_length_atom a pre post) by assumption. cbn [rx_bind]. rewrite Q. fold step.
  destruct (Z.leb_spec step 0) as [X|_]; [pose proof (atom_length a); lia|]. reflexivity.
Qed.

Lemma inner_end vp vl bp bl cond i j m f : vl <= i -> inner_loop src t (S f) vp vl bp bl cond i j m = rx_ok (j, m).
Proof. intros H. cbn [inner_loop]. rewrite (proj2 (Z.ltb_ge i vl) H). reflexivity. Qed.

(** An atom alone: one character or a failure. *)
Lemma atom_run a pre post tpre u vp bp bl cond m f : atom_ok a ->
  e = pre ++ print_atom a ++ post -> vp = Z.of_nat (length pre) ->
  t = tpre ++ u -> bp = Z.of_nat (length tpre) -> bl = Z.of_nat (length u) ->
  exists res m', inner_loop src t (S (S f)) vp (Z.of_nat (length (print_atom a))) bp bl cond 0 0 m = rx_ok (res, m') /\
    match u with b :: _ => if atom_matches icase a b then res = 1 else res < 0 | [] => res < 0 end.
Proof.
  intros Ha He Hv Ht Hb Hl. pose proof (atom_length a) as La.
  rewrite (round_at_atom a pre post) by (assumption || lia). cbn zeta.
  destruct (Z.ltb_spec (0 + Z.of_nat (length (print_atom a))) (Z.of_nat (length (print_atom a)))) as [|_]; [lia|]. cbn [rx_bind].
  change (0 =? 63) with false. change ((0 =? 42) || (0 =? 43)) with false. cbv iota.
  destruct u as [|b u].
  - destruct (Z.leb_spec bl 0) as [_|X]; [|cbn in Hl; lia]. now do 2 eexists.
  - destruct (Z.leb_spec bl 0) as [X|_]; [cbn in Hl; lia|].
    rewrite (match_op_atom a pre post _ tpre b u) by (assumption || lia). unfold matched. cbn [rx_bind].
    destruct (atom_matches icase a b).
    + change (1 <=? 0) with false. cbv iota. rewrite inner_end by lia. now do 2 eexists.
    + now do 2 eexists.
Qed.

(** ** Repetition *)

(** What the items behind the repetition do, at any place of the text. *)
Definition rest_runs (r : list item) (d : bool) (vp vl cond : Z) (need : nat) : Prop :=
  forall tpre u m f, t = tpre ++ u -> (need <= f)%nat ->
  exists res m', inner_loop src t f vp vl (Z.of_nat (length tpre)) (Z.of_nat (length u)) cond 0 0 m = rx_ok (res, m') /\
    outcome_at r d u 0 res.

Section Many.
Context (a : atom) (p z : bool) (r : list item) (d : bool) (pre post tpre u : list Z) (vp vl bp bl cond i j ni : Z) (need : nat).
Context (Ha : atom_ok a) (He : e = pre ++ print_atom a ++ post) (Hp : vp + i = Z.of_nat (length pre)).
Context (Ht : t = tpre ++ u) (Hb : bp + j = Z.of_nat (length tpre)) (Hl : bl - j = Z.of_nat (length u)).
Context (Hend : if vl <=? ni then r = [] /\ d = false else rest_runs r d (vp + ni) (vl - ni) cond need).
Abbreviation step := (Z.of_nat (length (print_atom a))).
Abbreviation ok := (fun b => atom_matches icase a b = true).

(** A match that ends at [x]. *)
Definition ends_at (x : Z) : Prop := exists w1 w2, u = w1 ++ w2 /\ accepts icase ((a, q_many p z) :: r) d w1 w2 /\ x = j + Z.of_nat (length w1).
Definition refused (v : list Z) : Prop :=
  exhaustive r = true -> forall v1 v2 x y, v = v1 ++ v2 -> v1 <> [] -> u = v1 ++ x ++ y -> ~ accepts icase r d x y.
Record star_inv (v : list Z) (nj n2 : Z) : Prop := {
  inv_low : j <= nj; inv_sound : nj = j \/ ends_at nj; inv_last : 0 <= n2 -> ends_at nj; inv_refused : nj = j -> refused v }.
Record star_post (nj n1 n2 : Z) : Prop := {
  post_low : j <= nj; post_sound : nj = j \/ ends_at nj; post_last : 0 <= n2 -> ends_at nj;
  post_refused : nj = j -> n1 < 0 /\ (exhaustive r = true -> forall v x y, List.Forall ok v -> v <> [] -> u = v ++ x ++ y ->
    ~ accepts icase r d x y) }.

Lemma ends_after v x y : List.Forall ok v -> (p = true -> v <> []) -> u = v ++ x ++ y -> accepts icase r d x y ->
  ends_at (j + Z.of_nat (length v) + Z.of_nat (length x)).
Proof.
  intros Hv Hn Hu Hx. exists (v ++ x), y. split; [now rewrite Hu, app_assoc|]. split; [now constructor|]. rewrite length_app. lia.
Qed.

(** The attempt of the rest behind [v]. *)
Lemma try_rest v u2 nj n2 m f : u = v ++ u2 -> List.Forall ok v -> (p = true -> v <> []) -> star_inv (removelast v) nj n2 -> (need <= f)%nat ->
  exists nj' n2' m',
    (if vl <=? ni then rx_ok (j + Z.of_nat (length v), n2, m)
     else let* (n2, m) := inner_loop src t f (vp + ni) (vl - ni) (bp + (j + Z.of_nat (length v))) (bl - (j + Z.of_nat (length v))) cond 0 0 m in
          rx_ok (if 0 <=? n2 then j + Z.of_nat (length v) + n2 else nj, n2, m)) = rx_ok (nj', n2', m') /\
    star_inv v nj' n2'.
Proof.
  intros Hu Hv Hn [I1 I2 I3 I4] Hf.
  assert (Step : nj = j -> (exhaustive r = true -> forall x y, u2 = x ++ y -> ~ accepts icase r d x y) -> refused v).
  { intros Hj Hx E v1 v2 x y Ev Nv Eu. destruct v2 as [|b v2] using rev_ind.
    - rewrite app_nil_r in Ev. subst v1. apply Hx; [exact E|]. rewrite Hu in Eu. now apply app_inv_head in Eu.
    - apply (I4 Hj E v1 v2 x y); [|exact Nv|exact Eu]. rewrite Ev, app_assoc. now rewrite removelast_last. }
  destruct (vl <=? ni) eqn:En.
  - destruct Hend as [Hr0 Hd0]. do 3 eexists. split; [reflexivity|].
    assert (G : ends_at (j + Z.of_nat (length v))).
    { replace (j + Z.of_nat (length v)) with (j + Z.of_nat (length v) + Z.of_nat (length (@nil Z))) by (cbn; lia).
      apply (ends_after v [] u2); [assumption..|]. rewrite Hr0, Hd0. now constructor. }
    constructor; [lia|now right|now intros _|].
    intros Hj. destruct v; [|cbn in Hj; lia]. intros _ v1 v2 x y Ev Nv. destruct v1; [congruence|discriminate].
  - destruct (Hend (tpre ++ v) u2 m f) as (res & m' & R & O); [now rewrite Ht, Hu, app_assoc|exact Hf|].
    replace (bp + (j + Z.of_nat (length v))) with (Z.of_nat (length (tpre ++ v))) by (rewrite length_app; lia).
    replace (bl - (j + Z.of_nat (length v))) with (Z.of_nat (length u2)) by (pose proof (f_equal (@length Z) Hu) as L; rewrite length_app in L; lia).
    rewrite R. cbn [rx_bind]. do 3 eexists. split; [reflexivity|]. destruct O as [(x & y & Ex & Ax & ->)|[Hr Hx]].
    + destruct (Z.leb_spec 0 (0 + Z.of_nat (length x))) as [_|]; [|lia].
      assert (G : ends_at (j + Z.of_nat (length v) + (0 + Z.of_nat (length x)))).
      { rewrite Z.add_0_l. apply (ends_after v x y); [assumption..| |exact Ax]. now rewrite Hu, Ex. }
      constructor; [lia|now right|now intros _|]. intros Hj. destruct v; [|cbn [length] in Hj; lia].
      intros _ v1 v2 x' y' Ev Nv. destruct v1; [congruence|discriminate].
    + destruct (Z.leb_spec 0 res); [lia|]. constructor; [exact I1|exact I2|lia|]. intros Hj. now apply Step.
Qed.

Lemma refused_all v u2 : u = v ++ u2 -> refused v -> (match u2 with b :: _ => atom_matches icase a b = false | [] => True end) ->
  exhaustive r = true -> forall v1 x y, List.Forall ok v1 -> v1 <> [] -> u = v1 ++ x ++ y -> ~ accepts icase r d x y.
Proof.
  intros Hu Hr H2 E v1 x y Hv Nv Eu. rewrite Hu in Eu. destruct (app_eq_app _ _ _ _ Eu) as (k & [[Ev Ex]|[Ev Ex]]).
  - apply (Hr E v1 k x y Ev Nv). now rewrite Hu, Eu.
  - destruct k as [|b k].
    + rewrite app_nil_r in Ev. subst v1. apply (Hr E v [] x y); [now rewrite app_nil_r|exact Nv|now rewrite Hu, Eu].
    + subst u2. cbn in H2. rewrite Ev in Hv. apply List.Forall_app in Hv as [_ Hv]. apply Forall_inv in Hv. congruence.
Qed.

Lemma inv_weaken v nj n2 : star_inv v nj n2 -> star_inv (removelast v) nj n2.
Proof.
  intros [I1 I2 I3 I4]. constructor; try assumption. intros Hj E v1 v2 x y Ev. destruct v as [|b v] using rev_ind.
  - now apply (I4 Hj E v1 v2).
  - rewrite removelast_last in Ev. apply (I4 Hj E v1 (v2 ++ [b])). now rewrite Ev, app_assoc.
Qed.

(** The last round, where the atom fails. *)
Lemma star_stops v u2 nj n1 n2 m f : u = v ++ u2 -> List.Forall ok v -> star_inv v nj n2 -> (need <= f)%nat ->
  n1 < 0 -> match u2 with b :: _ => atom_matches icase a b = false | [] => True end ->
  exists nj' n1' n2' m',
    (let j2 := if 0 <? n1 then j + Z.of_nat (length v) + n1 else j + Z.of_nat (length v) in
     if p && (n1 <? 0) then rx_ok (nj, n1, n2, m)
     else
       let* (nj, n2, m) :=
         (if vl <=? ni then rx_ok (j2, n2, m)
          else let* (n2, m) := inner_loop src t f (vp + ni) (vl - ni) (bp + j2) (bl - j2) cond 0 0 m in
               rx_ok (if 0 <=? n2 then j2 + n2 else nj, n2, m)) in
       if (j <? nj) && z then rx_ok (nj, n1, n2, m)
       else if 0 <? n1 then star_loop src t f vp vl bp bl cond i step ni p z j j2 nj n2 m
       else rx_ok (nj, n1, n2, m)) = rx_ok (nj', n1', n2', m') /\
    star_post nj' n1' n2'.
Proof.
  intros Hu Hv I Hf Hn H2. cbv zeta. destruct (Z.ltb_spec 0 n1) as [|_]; [lia|]. destruct (Z.ltb_spec n1 0) as [_|]; [|lia].
  assert (Post : forall nj' n2', star_inv v nj' n2' -> star_post nj' n1 n2').
  { intros nj' n2' [J1 J2 J3 J4]. constructor; try assumption. intros Hj. split; [exact Hn|]. now apply (refused_all v u2 Hu (J4 Hj)). }
  destruct p eqn:Ep; cbn [andb]; [do 4 eexists; split; [reflexivity|now apply Post]|].
  destruct (try_rest v u2 nj n2 m f Hu Hv) as (nj' & n2' & m' & R & I'); [intros ?; congruence|now apply inv_weaken|exact Hf|].
  rewrite R. cbn [rx_bind]. destruct (_ && _); do 4 eexists; (split; [reflexivity|now apply Post]).
Qed.

Lemma star_round f j2 nj n2 m : star_loop src t (S f) vp vl bp bl cond i step ni p z j j2 nj n2 m =
  let* (n1, m) := inner_loop src t f (vp + i) step (bp + j2) (bl - j2) cond 0 0 m in
  let j2 := if 0 <? n1 then j2 + n1 else j2 in
  if p && (n1 <? 0) then rx_ok (nj, n1, n2, m)
  else
    let* (nj, n2, m) :=
      (if vl <=? ni then rx_ok (j2, n2, m)
       else let* (n2, m) := inner_loop src t f (vp + ni) (vl - ni) (bp + j2) (bl - j2) cond 0 0 m in
            rx_ok (if 0 <=? n2 then j2 + n2 else nj, n2, m)) in
    if (j <? nj) && z then rx_ok (nj, n1, n2, m)
    else if 0 <? n1 then star_loop src t f vp vl bp bl cond i step ni p z j j2 nj n2 m
    else rx_ok (nj, n1, n2, m).
Proof. reflexivity. Qed.

Lemma star_run u2 : forall v nj n2 m f, u = v ++ u2 -> List.Forall ok v -> star_inv v nj n2 -> (need + 3 + length u2 <= f)%nat ->
  exists nj' n1' n2' m', star_loop src t f vp vl bp bl cond i step ni p z j (j + Z.of_nat (length v)) nj n2 m = rx_ok (nj', n1', n2', m') /\
    star_post nj' n1' n2'.
Proof.
  induction u2 as [|b u2 IH]; intros v nj n2 m f Hu Hv I Hf; (destruct f as [|f1]; [lia|]);
    assert (Ef : exists f, f1 = S (S f)) by (destruct f1 as [|[|f]]; [lia|lia|now exists f]); destruct Ef as [f Ef]; rewrite star_round.
  all: destruct (atom_run a pre post (tpre ++ v) _ (vp + i) (bp + (j + Z.of_nat (length v))) (bl - (j + Z.of_nat (length v)))
    cond m f Ha He Hp ltac:(rewrite Ht, Hu, app_assoc; reflexivity) ltac:(rewrite length_app; lia)
    ltac:(pose proof (f_equal (@length Z) Hu) as L; rewrite length_app in L; cbn [length] in *; lia)) as (n1 & m1 & R & On); rewrite <- Ef in R; rewrite R; cbn [rx_bind].
  - apply star_stops with (u2 := []); try assumption; [lia|exact Logic.I].
  - destruct (atom_matches icase a b) eqn:Eb.
    2:{ apply star_stops with (u2 := b :: u2); try assumption; lia. }
    subst n1. change (0 <? 1) with true. change (1 <? 0) with false. rewrite andb_false_r. cbv iota.
    assert (Hu' : u = (v ++ [b]) ++ u2) by now rewrite <- app_assoc.
    assert (Hv' : List.Forall ok (v ++ [b])) by (apply List.Forall_app; auto).
    assert (Lv : j + Z.of_nat (length v) + 1 = j + Z.of_nat (length (v ++ [b]))) by (rewrite length_app; cbn; lia).
    destruct (try_rest (v ++ [b]) u2 nj n2 m1 f1 Hu' Hv') as (nj' & n2' & m' & R' & I'); [now destruct v|now rewrite removelast_last|lia|].
    cbv zeta. rewrite Lv, R'. cbn [rx_bind]. destruct ((j <? nj') && z) eqn:Ez.
    + do 4 eexists. split; [reflexivity|]. destruct I' as [J1 J2 J3 J4]. constructor; try assumption. intros ->. lia.
    + apply IH; [exact Hu'|exact Hv'|exact I'|]. cbn [length] in Hf. lia.
Qed.
End Many.

(** ** The items of an expression *)
Lemma body_cons a q r d : body ((a, q) :: r) d = print_atom a ++ print_quant q ++ body r d.
Proof. unfold body, print_items, print_item. cbn [map concat fst snd]. now rewrite <- !app_assoc. Qed.

Lemma body_front r d : items_ok r -> r = [] /\ d = false \/ exists c s, body r d = c :: s /\ quantifier c = false.
Proof.
  intros H. destruct r as [|[a q] r].
  - destruct d; [right; exists 36, []; auto|now left].
  - right. apply Forall_inv in H. cbn in H. destruct (atom_front a H) as (_ & _ & Q & _). rewrite body_cons.
    pose proof (atom_length a) as L. destruct (print_atom a) as [|c s]; [cbn in L; lia|]. now exists c, (s ++ print_quant q ++ body r d).
Qed.

Lemma not_quantifier c : quantifier c = false -> (c =? 63) = false /\ ((c =? 42) || (c =? 43)) = false.
Proof. unfold quantifier. destruct (c =? 42), (c =? 43), (c =? 63); cbn; auto. Qed.

Definition codes (r : list item) : nat := 2 + length r * (length t + 4).

(** A piece of the expression that prints [r] is run as its language says. *)
Definition runs (r : list item) (d : bool) : Prop :=
  forall pre post tpre u vp vl bp bl cond i j m f,
  e = pre ++ body r d ++ post -> vp + i = Z.of_nat (length pre) -> vl - i = Z.of_nat (length (body r d)) ->
  t = tpre ++ u -> bp + j = Z.of_nat (length tpre) -> bl - j = Z.of_nat (length u) -> 0 <= j -> (codes r <= f)%nat ->
  exists res m', inner_loop src t f vp vl bp bl cond i j m = rx_ok (res, m') /\ outcome_at r d u j res.

Lemma runs_end d : runs [] d.
Proof.
  intros pre post tpre u vp vl bp bl cond i j m f He Hp Hv Ht Hb Hl Hj Hf. unfold codes in Hf. cbn [length Nat.mul Nat.add] in Hf.
  assert (Done : (d = true -> u = []) -> outcome_at [] d u j j).
  { intros Hd. left. exists [], u. split; [reflexivity|]. split; [now constructor|cbn; lia]. }
  destruct f as [|[|f]]; [lia..|]. destruct d; cbn in Hv.
  - cbn [inner_loop]. rewrite (proj2 (Z.ltb_lt i vl)), (proj2 (Z.leb_le j bl)) by lia. cbn [andb].
    change (body [] true) with [36] in He. rewrite He. rewrite (value_char_app _ _ _ 0) by lia. cbn [rx_bind app nth].
    unfold get_op_length, op_length. rewrite (value_char_app _ _ _ 0) by lia. cbn [rx_bind nth].
    cbn [Z.eqb Pos.eqb rx_bind quantifier orb Z.leb Z.compare]. rewrite (proj2 (Z.ltb_ge (i + 1) vl)) by lia. cbn [rx_bind Z.eqb orb].
    destruct (Z.eqb_spec j bl) as [Ej|Nj]; cbn [negb].
    + destruct (Z.ltb_spec (i + 1) vl); [lia|]. cbn [andb]. do 2 eexists. split; [reflexivity|]. apply Done. intros _.
      destruct u; [reflexivity|cbn in Hl; lia].
    + do 2 eexists. split; [reflexivity|]. right. split; [reflexivity|]. intros _ u1 u2 -> Hx. inversion Hx as [? ? Hd| | | |]; subst.
      rewrite Hd in Hl by reflexivity. cbn in Hl. lia.
  - rewrite inner_end by lia. do 2 eexists. split; [reflexivity|]. now apply Done.
Qed.

(** What stands behind an atom: nothing, or no quantifier. *)
Lemma look_behind r d pre post vp vl k : items_ok r -> e = pre ++ body r d ++ post -> vp + k = Z.of_nat (length pre) ->
  vl - k = Z.of_nat (length (body r d)) ->
  exists c, (if k <? vl then value_char e (vp + k) else rx_ok 0) = rx_ok c /\ quantifier c = false.
Proof.
  intros Hr He Hp Hv. destruct (body_front r d Hr) as [[-> ->]|(c & s & E & Q)].
  - cbn in Hv. rewrite (proj2 (Z.ltb_ge k vl)) by lia. now exists 0.
  - rewrite E in *. cbn [length] in Hv. rewrite (proj2 (Z.ltb_lt k vl)) by lia. exists c. split; [|exact Q].
    now rewrite He, (value_char_app _ _ _ 0) by lia.
Qed.

Lemma outcome_one a r d b u j res : atom_matches icase a b = true -> outcome_at r d u (j + 1) res ->
  outcome_at ((a, q_one) :: r) d (b :: u) j res.
Proof.
  intros Hb [(u1 & u2 & -> & A & ->)|[Hr H]].
  - left. exists (b :: u1), u2. split; [reflexivity|]. split; [now constructor|cbn [length]; lia].
  - right. split; [exact Hr|]. intros E u1 u2 Eu Hx. inversion Hx; subst; cbn in Eu. injection Eu as -> Eu. now apply (H E u0 u2).
Qed.

Lemma runs_one a r d : atom_ok a -> items_ok r -> runs r d -> runs ((a, q_one) :: r) d.
Proof.
  intros Ha Hr K pre post tpre u vp vl bp bl cond i j m f He Hp Hv Ht Hb Hl Hj Hf.
  rewrite body_cons in He, Hv. cbn [print_quant app] in He, Hv. rewrite length_app in Hv. pose proof (atom_length a) as La.
  unfold codes in Hf. cbn [length] in Hf. destruct f as [|f]; [lia|]. rewrite <- app_assoc in He.
  rewrite (round_at_atom a pre (body r d ++ post)) by (assumption || lia). cbn zeta.
  assert (He' : e = (pre ++ print_atom a) ++ body r d ++ post) by now rewrite <- app_assoc.
  destruct (look_behind r d (pre ++ print_atom a) post vp vl (i + Z.of_nat (length (print_atom a))) Hr He') as (c & E & Q);
    [rewrite length_app; lia|lia|].
  rewrite Z.add_assoc in E. rewrite E. cbn [rx_bind]. destruct (not_quantifier c Q) as [-> ->].
  destruct (Z.leb_spec bl j) as [Lj|Lj].
  - do 2 eexists. split; [reflexivity|]. right. split; [reflexivity|]. intros _ u1 u2 -> Hx. inversion Hx; subst. cbn in Hl. lia.
  - destruct u as [|b u]; [cbn in Hl; lia|]. cbn [length] in Hl.
    rewrite (match_op_atom a pre (body r d ++ post) _ tpre b u) by (assumption || lia). unfold matched. cbn [rx_bind].
    destruct (atom_matches icase a b) eqn:Eb.
    + change (1 <=? 0) with false. cbv iota.
      destruct (K (pre ++ print_atom a) post (tpre ++ [b]) u vp vl bp bl cond (i + Z.of_nat (length (print_atom a))) (j + 1) (step_info m) f)
        as (res & m' & R & O); [exact He'|rewrite length_app; lia|lia|now rewrite Ht, <- app_assoc|rewrite length_app; cbn; lia|lia|lia|
          unfold codes; nia|].
      rewrite R. do 2 eexists. split; [reflexivity|]. now apply outcome_one.
    + do 2 eexists. split; [reflexivity|]. right. split; [reflexivity|]. intros _ u1 u2 Eu Hx. inversion Hx; subst; cbn in Eu.
      injection Eu as -> Eu. congruence.
Qed.

Lemma runs_opt a r d : atom_ok a -> items_ok r -> runs r d -> runs ((a, q_opt) :: r) d.
Proof.
  intros Ha Hr K pre post tpre u vp vl bp bl cond i j m f He Hp Hv Ht Hb Hl Hj Hf.
  rewrite body_cons in He, Hv. cbn [print_quant] in He, Hv. change (chars "?") with [63] in He, Hv.
  rewrite !length_app in Hv. cbn [length] in Hv. pose proof (atom_length a) as La.
  unfold codes in Hf. cbn [length] in Hf. destruct f as [|f]; [lia|]. rewrite <- !app_assoc in He.
  rewrite (round_at_atom a pre ([63] ++ body r d ++ post)) by (assumption || lia). cbn zeta.
  rewrite (proj2 (Z.ltb_lt (i + Z.of_nat (length (print_atom a))) vl)) by lia.
  assert (V : value_char e (vp + i + Z.of_nat (length (print_atom a))) = rx_ok 63).
  { rewrite He, app_assoc, (value_char_app _ _ _ 0) by (rewrite ?length_app; lia). reflexivity. }
  rewrite V. cbn [rx_bind]. change (63 =? 63) with true. cbv iota.
  assert (Ef : exists f', f = S (S f')) by (destruct f as [|[|f]]; [lia|lia|now exists f]). destruct Ef as [f' Ef].
  destruct (atom_run a pre ([63] ++ body r d ++ post) tpre u (vp + i) (bp + j) (bl - j) cond (step_info m) f' Ha He Hp Ht Hb Hl)
    as (n & m1 & R & On). rewrite <- Ef in R. rewrite R. cbn [rx_bind].
  assert (He' : e = ((pre ++ print_atom a) ++ [63]) ++ body r d ++ post) by now rewrite <- !app_assoc.
  assert (Go : forall x tpre' u', t = tpre' ++ u' -> bp + x = Z.of_nat (length tpre') -> bl - x = Z.of_nat (length u') -> 0 <= x ->
    exists res m', inner_loop src t f vp vl bp bl cond (i + 1 + Z.of_nat (length (print_atom a))) x m1 = rx_ok (res, m') /\
      outcome_at r d u' x res).
  { intros x tpre' u' Ht' Hb' Hl' Hx. apply (K _ post tpre' u' _ _ _ _ _ _ _ _ _ He'); rewrite ?length_app; cbn [length]; (assumption || lia || (unfold codes; nia)). }
  assert (Skip : forall res, outcome_at r d u j res -> (exists u1 u2, u = u1 ++ u2 /\ accepts icase ((a, q_opt) :: r) d u1 u2 /\ res = j + Z.of_nat (length u1)) \/ res < 0).
  { intros res [(u1 & u2 & E & A & Er)|[Hn _]]; [left; exists u1, u2; split; [exact E|]; split; [now apply acc_skip|exact Er]|now right]. }
  assert (Out : forall res, (exists u1 u2, u = u1 ++ u2 /\ accepts icase ((a, q_opt) :: r) d u1 u2 /\ res = j + Z.of_nat (length u1)) \/ res < 0 ->
    outcome_at ((a, q_opt) :: r) d u j res).
  { intros res [H|H]; [now left|right; split; [exact H|discriminate]]. }
  assert (Stay : n < 0 -> exists res m', inner_loop src t f vp vl bp bl cond (i + 1 + Z.of_nat (length (print_atom a))) (if 0 <? n then j + n else j) m1
      = rx_ok (res, m') /\ outcome_at ((a, q_opt) :: r) d u j res).
  { intros Hn. destruct (Z.ltb_spec 0 n); [lia|]. destruct (Go j tpre u Ht Hb Hl Hj) as (res & m' & R' & O). do 2 eexists. split; [exact R'|].
    now apply Out, Skip. }
  destruct u as [|b u]; [now apply Stay|]. destruct (atom_matches icase a b) eqn:Eb; [|now apply Stay].
  subst n. change (0 <? 1) with true. cbv iota. cbn [length] in Hl.
  destruct (Go (j + 1) (tpre ++ [b]) u) as (res & m' & R' & O); [now rewrite Ht, <- app_assoc|rewrite length_app; cbn; lia|lia|lia|].
  do 2 eexists. split; [exact R'|]. apply Out. destruct O as [(u1 & u2 & -> & A & ->)|[Hn _]]; [left|now right].
  exists (b :: u1), u2. split; [reflexivity|]. split; [now apply acc_take|cbn [length]; lia].
Qed.

(** The marks of a repetition. *)
Definition many_mark (p : bool) : Z := if p then 43 else 42.
Lemma print_many p z : print_quant (q_many p z) = many_mark p :: (if z then [63] else []).
Proof. now destruct p, z. Qed.

Lemma lazy_mark (z : bool) r d pre post vp vl ni : items_ok r ->
  e = pre ++ (if z then [63] else []) ++ body r d ++ post -> vp + ni = Z.of_nat (length pre) ->
  vl - ni = Z.of_nat (length (if z then [63] else []) + length (body r d)) ->
  (if ni <? vl then let* c := value_char e (vp + ni) in rx_ok (c =? 63) else rx_ok false) = rx_ok z.
Proof.
  intros Hr He Hp Hv. destruct z; cbn [length app] in *.
  - rewrite (proj2 (Z.ltb_lt ni vl)) by lia. now rewrite He, (value_char_app _ _ _ 0) by lia.
  - destruct (look_behind r d pre post vp vl ni Hr He Hp ltac:(lia)) as (c & E & Q). destruct (ni <? vl); [|reflexivity].
    rewrite E. cbn [rx_bind]. now destruct (not_quantifier c Q) as [-> _].
Qed.

Lemma body_empty r d : items_ok r -> length (body r d) = 0%nat -> r = [] /\ d = false.
Proof. intros Hr H. destruct (body_front r d Hr) as [?|(c & s & E & _)]; [assumption|now rewrite E in H]. Qed.

Lemma rest_from r d pre post vp vl ni cond : runs r d -> e = pre ++ body r d ++ post -> vp + ni = Z.of_nat (length pre) ->
  vl - ni = Z.of_nat (length (body r d)) -> rest_runs r d (vp + ni) (vl - ni) cond (codes r).
Proof.
  intros K He Hp Hl tpre u m f Ht Hf. apply (K pre post tpre u); (assumption || lia).
Qed.

(** The end of a repetition: the rest is tried once more where nothing is repeated. *)
Lemma many_end a p z r d tpre u vp vl bp bl cond j ni nj n1 n2 m f : items_ok r ->
  t = tpre ++ u -> bp + j = Z.of_nat (length tpre) -> bl - j = Z.of_nat (length u) -> 0 <= j ->
  vl - ni = Z.of_nat (length (body r d)) -> rest_runs r d (vp + ni) (vl - ni) cond (codes r) -> (codes r <= f)%nat ->
  star_post a p z r d u j nj n1 n2 ->
  exists res m',
    (let* (nj, n2, m) :=
       (if (n1 <? 0) && (n2 <? 0) && negb p then
          let* (n2, m) := inner_loop src t f (vp + ni) (vl - ni) (bp + j) (bl - j) cond 0 0 m in
          rx_ok (if 0 <? n2 then j + n2 else nj, n2, m)
        else rx_ok (nj, n2, m)) in
     if p && (nj =? j) then rx_ok (state_no_match, m)
     else if (nj =? j) && (ni <? vl) && (n2 <? 0) then rx_ok (state_no_match, m)
     else rx_ok (nj, m)) = rx_ok (res, m') /\
    outcome_at ((a, q_many p z) :: r) d u j res.
Proof.
  intros Hr Ht Hb Hl Hj Hv Rest Hf [P1 P2 P3 P4].
  assert (Good : forall x, ends_at a p z r d u j x -> outcome_at ((a, q_many p z) :: r) d u j x) by (intros x H; now left).
  assert (Found : nj <> j -> outcome_at ((a, q_many p z) :: r) d u j nj) by (intros H; destruct P2; [contradiction|now apply Good]).
  assert (Lost : nj = j -> (p = false -> exhaustive r = true -> forall x y, u = x ++ y -> ~ accepts icase r d x y) ->
    outcome_at ((a, q_many p z) :: r) d u j state_no_match).
  { intros Hn H. right. split; [reflexivity|]. cbn [exhaustive forallb snd andb]. fold (exhaustive r). intros E u1 u2 Eu Hx.
    inversion Hx as [| | | |? ? ? ? ? v x ? Fv Np Ax]; subst. rewrite <- app_assoc in *. destruct v as [|b v].
    - destruct p; [now apply Np|]. now apply (H eq_refl E x u2).
    - destruct (P4 eq_refl) as [_ Q]. now apply (Q E (b :: v) x u2). }
  destruct p; cbn [negb andb].
  - rewrite andb_false_r. cbn [rx_bind]. destruct (Z.eqb_spec nj j) as [En|Nn]; cbn [andb]; do 2 eexists; (split; [reflexivity|]).
    + now apply Lost.
    + now apply Found.
  - rewrite andb_true_r. destruct (Z.ltb_spec n1 0) as [H1|H1], (Z.ltb_spec n2 0) as [H2|H2]; cbn [andb].
    2-4: cbn [rx_bind]; destruct (Z.eqb_spec nj j) as [En|Nn]; cbn [andb];
      try (destruct (P4 En); lia); try (rewrite (proj2 (Z.ltb_ge n2 0) H2), andb_false_r);
      do 2 eexists; (split; [reflexivity|]); first [now apply Found|now apply Good, P3].
    destruct (Rest tpre u m f Ht Hf) as (res & m' & R & O). rewrite Hb, Hl, R. cbn [rx_bind].
    destruct O as [(x & y & Ex & Ax & Er)|[Hn Hx]].
    + assert (G : ends_at a false z r d u j (j + Z.of_nat (length x))).
      { exists x, y. split; [exact Ex|]. split; [|reflexivity]. now apply (acc_many icase a false z r d [] x y). }
      rewrite Z.add_0_l in Er. destruct (Z.ltb_spec 0 res).
      * destruct (Z.eqb_spec (j + res) j); [lia|]. cbn [andb]. do 2 eexists. split; [reflexivity|]. apply Good. now rewrite Er.
      * destruct (Z.ltb_spec res 0); [lia|]. rewrite andb_false_r. do 2 eexists. split; [reflexivity|].
        destruct (Z.eq_dec nj j) as [->|Nn]; [apply Good; now replace j with (j + Z.of_nat (length x)) at 2 by lia|now apply Found].
    + destruct (Z.ltb_spec 0 res); [lia|]. destruct (Z.ltb_spec res 0); [|lia]. rewrite andb_true_r.
      destruct (Z.eqb_spec nj j) as [En|Nn]; cbn [andb]; [|do 2 eexists; split; [reflexivity|now apply Found]].
      destruct (Z.ltb_spec ni vl).
      * do 2 eexists. split; [reflexivity|]. now apply Lost.
      * destruct (body_empty r d Hr) as [-> ->]; [lia|]. exfalso. apply (Hx eq_refl [] u eq_refl). now constructor.
Qed.

Lemma runs_many a p z r d : atom_ok a -> items_ok r -> runs r d -> runs ((a, q_many p z) :: r) d.
Proof.
  intros Ha Hr K pre post tpre u vp vl bp bl cond i j m f He Hp Hv Ht Hb Hl Hj Hf.
  rewrite body_cons, print_many in He, Hv. set (zs := if z then [63] else []) in *. cbn [app] in He, Hv.
  rewrite length_app in Hv. cbn [length] in Hv. rewrite length_app in Hv. pose proof (atom_length a) as La.
  unfold codes in Hf. cbn [length] in Hf. destruct f as [|f]; [lia|]. rewrite <- !app_assoc in He. cbn [app] in He. rewrite <- app_assoc in He.
  rewrite (round_at_atom a pre (many_mark p :: zs ++ body r d ++ post)) by (assumption || lia). cbn zeta.
  set (step := Z.of_nat (length (print_atom a))) in *.
  rewrite (proj2 (Z.ltb_lt (i + step) vl)) by lia.
  assert (V : value_char e (vp + i + step) = rx_ok (many_mark p)).
  { rewrite He, app_assoc, (value_char_app _ _ _ 0) by (rewrite ?length_app; lia). reflexivity. }
  rewrite V. cbn [rx_bind].
  assert (M : (many_mark p =? 63) = false /\ ((many_mark p =? 42) || (many_mark p =? 43)) = true /\ (many_mark p =? 43) = p /\ (many_mark p =? 42) = negb p)
    by now destruct p. destruct M as (-> & -> & -> & ->).
  assert (He1 : e = (pre ++ print_atom a ++ [many_mark p]) ++ zs ++ body r d ++ post) by now rewrite <- !app_assoc.
  rewrite (lazy_mark z r d (pre ++ print_atom a ++ [many_mark p]) post vp vl (i + step + 1) Hr He1)
    by (rewrite ?length_app; fold zs; cbn [length]; lia). cbn [rx_bind].
  set (ni := if z then i + step + 1 + 1 else i + step + 1).
  assert (He2 : e = (pre ++ print_atom a ++ many_mark p :: zs) ++ body r d ++ post) by now rewrite <- !app_assoc.
  assert (Hni : vp + ni = Z.of_nat (length (pre ++ print_atom a ++ many_mark p :: zs)) /\ vl - ni = Z.of_nat (length (body r d))).
  { rewrite !length_app. cbn [length]. subst ni zs. destruct z; cbn [length] in *; lia. } destruct Hni as [Hni Hvn].
  pose proof (rest_from r d _ post vp vl ni cond K He2 Hni Hvn) as Rest.
  assert (Hend : if vl <=? ni then r = [] /\ d = false else rest_runs r d (vp + ni) (vl - ni) cond (codes r)).
  { destruct (Z.leb_spec vl ni); [apply body_empty; [exact Hr|lia]|exact Rest]. }
  assert (Lu : (length u <= length t)%nat) by (rewrite Ht, length_app; lia).
  destruct (star_run a p z r d pre (many_mark p :: zs ++ body r d ++ post) tpre u vp vl bp bl cond i j ni (codes r) Ha He Hp Ht Hb Hl Hend u [] j (-1)
    (step_info m) f) as (nj & n1 & n2 & m1 & R & [P1 P2 P3 P4]).
  { reflexivity. } { constructor. }
  { constructor; [lia|now left|lia|]. intros _ _ v1 v2 x y Ev Nv. now destruct v1. }
  { unfold codes. lia. }
  cbn [length] in R. rewrite Z.add_0_r in R. fold step in R. rewrite R. cbn [rx_bind].
  apply (many_end a p z r d tpre u vp vl bp bl cond j ni nj n1 n2 m1 f); try assumption; [unfold codes; lia|now constructor].
Qed.

Theorem items_run r d : items_ok r -> runs r d.
Proof.
  induction r as [|[a q] r IH]; intros H; [apply runs_end|]. inversion_clear H as [|? ? Ha Hr].
  destruct q; [now apply runs_one, IH|now apply runs_opt, IH|]. apply runs_many; [assumption..|now apply IH].
Qed.
End Matcher.

(** ** Whole expressions *)

Definition pattern (c : bool) (r : list item) (d : bool) : list Z := (if c then [94] else []) ++ body r d.

(** A match of [n] characters at index [i] of the text. *)
Definition matches_at (icase c : bool) (r : list item) (d : bool) (t : list Z) (i n : Z) : Prop :=
  (c = true -> i = 0) /\
  exists s u rest, t = s ++ u ++ rest /\ i = Z.of_nat (length s) /\ n = Z.of_nat (length u) /\ accepts icase r d u rest.

(** *** [compile] *)
Lemma compile_plain e pre x s depth bs rs f i : e = pre ++ x :: s -> i = Z.of_nat (length pre) ->
  x <> 124 -> x <> 92 -> x <> 40 -> x <> 41 -> x <> 91 ->
  compile_loop (S f) e i depth bs rs = compile_loop f e (i + 1) depth bs rs.
Proof.
  intros He Hi N1 N2 N3 N4 N5. cbn [compile_loop]. rewrite (proj2 (Z.ltb_lt i (Z.of_nat (length e)))) by (rewrite He, length_app; cbn [length]; lia).
  assert (V : value_char e i = rx_ok x) by (rewrite He, (value_char_app _ _ _ 0) by lia; reflexivity).
  unfold get_op_length, op_length. rewrite V. cbn [rx_bind].
  now rewrite (proj2 (Z.eqb_neq x 91) N5), (proj2 (Z.eqb_neq x 92) N2), (proj2 (Z.eqb_neq x 124) N1), (proj2 (Z.eqb_neq x 40) N3), (proj2 (Z.eqb_neq x 41) N4).
Qed.

Lemma compile_atom e pre a s depth bs rs f i : atom_ok a -> e = pre ++ print_atom a ++ s -> i = Z.of_nat (length pre) ->
  compile_loop (S f) e i depth bs rs = compile_loop f e (i + Z.of_nat (length (print_atom a))) depth bs rs.
Proof.
  intros Ha He Hi. destruct (atom_front a Ha) as (N1 & N2 & _ & N3 & _ & _ & N4).
  destruct a as [c| |c|h l]; cbn [print_atom first_char nth] in *.
  1: { destruct (Z.eq_dec c 92) as [->|]; [discriminate Ha|]. now apply (compile_plain e pre c s). }
  1: now apply (compile_plain e pre 46 s).
  all: pose proof (f_equal (@length Z) He) as Le; rewrite !length_app in Le; cbn [length] in Le.
  all: cbn [compile_loop]; rewrite (proj2 (Z.ltb_lt i (Z.of_nat (length e)))) by lia.
  - assert (G : get_op_length e i (Z.of_nat (length e) - i) = rx_ok 2)
      by (rewrite He at 1; now rewrite (get_op_length_atom (atom_escape c) pre s)).
    rewrite G. assert (V0 : value_char e i = rx_ok 92) by (rewrite He, (value_char_app _ _ _ 0) by lia; reflexivity).
    assert (V1 : value_char e (i + 1) = rx_ok c) by (rewrite He, (value_char_app _ _ _ 1) by (cbn [app length]; lia); reflexivity).
    rewrite V0. cbn [rx_bind Z.eqb Pos.eqb]. rewrite (proj2 (Z.leb_gt _ _)) by lia. rewrite V1. cbn [rx_bind].
    destruct Ha as [M Nx]. rewrite (proj2 (Z.eqb_neq c 120) Nx), M. reflexivity.
  - assert (G : get_op_length e i (Z.of_nat (length e) - i) = rx_ok 4)
      by (rewrite He at 1; now rewrite (get_op_length_atom (atom_hex h l) pre s)).
    rewrite G. assert (V0 : value_char e i = rx_ok 92) by (rewrite He, (value_char_app _ _ _ 0) by lia; reflexivity).
    assert (V1 : value_char e (i + 1) = rx_ok 120) by (rewrite He, (value_char_app _ _ _ 1) by (cbn [app length]; lia); reflexivity).
    assert (V2 : value_char e (i + 2) = rx_ok h) by (rewrite He, (value_char_app _ _ _ 2) by (cbn [app length]; lia); reflexivity).
    assert (V3 : value_char e (i + 3) = rx_ok l) by (rewrite He, (value_char_app _ _ _ 3) by (cbn [app length]; lia); reflexivity).
    rewrite V0. cbn [rx_bind Z.eqb Pos.eqb]. rewrite (proj2 (Z.leb_gt _ _)) by lia. rewrite V1. cbn [rx_bind Z.eqb Pos.eqb].
    rewrite (proj2 (Z.leb_gt _ _)) by lia. rewrite V2, V3. cbn [rx_bind]. destruct Ha as [-> ->]. reflexivity.
Qed.

Lemma compile_marks e marks : forall pre s depth bs rs f i, e = pre ++ marks ++ s -> i = Z.of_nat (length pre) ->
  List.Forall (fun x => In x [36; 42; 43; 63; 94]) marks ->
  compile_loop (length marks + f) e i depth bs rs = compile_loop f e (i + Z.of_nat (length marks)) depth bs rs.
Proof.
  induction marks as [|x marks IH]; intros pre s depth bs rs f i He Hi Hm; [cbn; f_equal; lia|].
  inversion_clear Hm as [|? ? Hx Hm']. cbn [length Nat.add].
  rewrite (compile_plain e pre x (marks ++ s)) by (assumption || (cbn in Hx; lia)).
  rewrite (IH (pre ++ [x]) s) by (assumption || (rewrite length_app; cbn; lia) || (rewrite He, <- app_assoc; reflexivity)).
  f_equal. cbn [length]. lia.
Qed.

Ltac all_marks := vm_compute; repeat (apply List.Forall_cons; [tauto|]); apply List.Forall_nil.

Lemma quant_marks q : List.Forall (fun x => In x [36; 42; 43; 63; 94]) (print_quant q).
Proof. destruct q as [| |[] []]; all_marks. Qed.

Lemma compile_body e r d : forall pre depth bs rs f i, items_ok r -> e = pre ++ body r d -> i = Z.of_nat (length pre) ->
  (length (body r d) < f)%nat -> compile_loop f e i depth bs rs = rx_ok (bs, rs, inr depth).
Proof.
  assert (Stop : forall f i depth bs rs, Z.of_nat (length e) <= i -> compile_loop (S f) e i depth bs rs = rx_ok (bs, rs, inr depth)).
  { intros f i depth bs rs H. cbn [compile_loop]. now rewrite (proj2 (Z.ltb_ge _ _) H). }
  induction r as [|[a q] r IH]; intros pre depth bs rs f i Hr He Hi Hf.
  - replace f with (length (body [] d) + S (f - length (body [] d) - 1))%nat by lia.
    rewrite (compile_marks e (body [] d) pre []) by (rewrite ?app_nil_r; (assumption || (destruct d; all_marks))).
    apply Stop. rewrite He, length_app. lia.
  - inversion_clear Hr as [|? ? Ha Hr']. cbn [fst] in Ha. rewrite body_cons in He, Hf. rewrite !length_app in Hf.
    pose proof (atom_length a). destruct f as [|f]; [lia|].
    rewrite (compile_atom e pre a (print_quant q ++ body r d)) by assumption.
    replace f with (length (print_quant q) + (f - length (print_quant q)))%nat by lia.
    rewrite (compile_marks e (print_quant q) (pre ++ print_atom a) (body r d))
      by ((rewrite <- app_assoc; assumption) || (rewrite length_app; lia) || apply quant_marks).
    apply (IH (pre ++ print_atom a ++ print_quant q)); [exact Hr'|now rewrite <- !app_assoc|rewrite !length_app; lia|lia].
Qed.

Definition plain_source (e : list Z) (icase : bool) : regex_source :=
  mk_source e [mk_bracket 0 (Z.of_nat (length e)) 0 0] [] state_preprocessed icase.

Lemma compile_pattern icase c r d : items_ok r ->
  compile (S (length (pattern c r d))) (pattern c r d) icase = rx_ok (plain_source (pattern c r d) icase).
Proof.
  intros Hr. unfold compile. set (e := pattern c r d).
  assert (L : compile_loop (S (length e)) e 0 0 [mk_bracket 0 (Z.of_nat (length e)) 0 0] [] =
    rx_ok ([mk_bracket 0 (Z.of_nat (length e)) 0 0], [], inr 0)).
  { unfold e at 2 3. destruct c; unfold pattern; cbn [app length].
    - rewrite (compile_plain _ [] 94 (body r d)) by (reflexivity || discriminate).
      apply (compile_body _ r d [94]); [exact Hr|reflexivity|reflexivity|]. subst e. unfold pattern. cbn. lia.
    - apply (compile_body _ r d []); [exact Hr|reflexivity|reflexivity|]. subst e. unfold pattern. cbn. lia. }
  rewrite L. reflexivity.
Qed.

(** *** [parse] *)
Lemma caret_round icase r d t bp bl m f : items_ok r -> 0 <= bl ->
  let e := 94 :: body r d in
  inner_loop (plain_source e icase) t (S f) 0 (Z.of_nat (length e)) bp bl 0 0 0 m =
  inner_loop (plain_source e icase) t f 0 (Z.of_nat (length e)) bp bl 0 1 0 (step_info m).
Proof.
  intros Hr Hl e. cbn [inner_loop]. rewrite (proj2 (Z.ltb_lt 0 (Z.of_nat (length e)))) by (cbn [e length]; lia).
  rewrite (proj2 (Z.leb_le 0 bl) Hl). cbn [andb].
  destruct (look_behind (plain_source e icase) r d [94] [] 0 (Z.of_nat (length e)) 1 Hr) as (x & E & Q);
    [cbn [expression plain_source app]; now rewrite app_nil_r|reflexivity|cbn [e length]; lia|].
  unfold get_op_length, op_length. change (0 + 0) with 0.
  assert (V : value_char (expression (plain_source e icase)) 0 = rx_ok 94) by (cbn [expression plain_source]; apply (value_char_app [] e 0 0); [reflexivity|cbn; lia]).
  rewrite V. cbn [rx_bind Z.eqb Pos.eqb quantifier orb Z.leb Z.compare]. change (0 + 1) with 1 in *. rewrite E. cbn [rx_bind].
  destruct (not_quantifier x Q) as [-> ->]. reflexivity.
Qed.

Section Whole.
Context (icase c : bool) (r : list item) (d : bool) (t : list Z) (Hr : items_ok r).
Abbreviation src := (plain_source (pattern c r d) icase).

Definition regex_fuel : nat := codes t r + length t + 4.

Lemma start_run tpre u m f : t = tpre ++ u -> (codes t r + 2 <= f)%nat ->
  exists res m', parse_doh src t f (Z.of_nat (length tpre)) (Z.of_nat (length u)) 0 0 m = rx_ok (res, m') /\
    outcome_at src r d u 0 res.
Proof.
  intros Ht Hf. destruct f as [|[|f]]; [lia..|].
  assert (G : exists res m', inner_loop src t (S f) 0 (Z.of_nat (length (pattern c r d))) (Z.of_nat (length tpre)) (Z.of_nat (length u)) 0 0 0 m = rx_ok (res, m') /\
    outcome_at src r d u 0 res).
  { destruct c; unfold pattern; cbn [app].
    - rewrite caret_round by (assumption || lia).
      apply (items_run (plain_source (94 :: body r d) icase) t r d Hr [94] [] tpre u); cbn [expression plain_source app length] in *;
        rewrite ?app_nil_r; (reflexivity || assumption || lia).
    - apply (items_run (plain_source (body r d) icase) t r d Hr [] [] tpre u); cbn [expression plain_source app length] in *;
        rewrite ?app_nil_r; (reflexivity || assumption || lia). }
  destruct G as (res & m' & R & O). exists res, m'. split; [|exact O].
  transitivity (let* (result, m) := inner_loop src t (S f) 0 (Z.of_nat (length (pattern c r d))) (Z.of_nat (length tpre)) (Z.of_nat (length u)) 0 0 0 m in
    if (result <=? 0) && (0 <? 0) then parse_doh src t (S f) (Z.of_nat (length tpre)) (Z.of_nat (length u)) 0 1 m else rx_ok (result, m)); [reflexivity|].
  rewrite R. cbn [rx_bind]. now rewrite andb_false_r.
Qed.

Definition found_at (code : Z) : Prop :=
  (exists i n, code = i + n /\ matches_at icase c r d t i n /\
     (exhaustive r = true -> forall i' n', i' < i -> ~ matches_at icase c r d t i' n')) \/
  (code < 0 /\ (exhaustive r = true -> forall i n, ~ matches_at icase c r d t i n)).

Lemma skipn_behind tpre u : t = tpre ++ u -> skipn (length tpre) t = u.
Proof. intros ->. apply drop_app_length. Qed.

Definition none_before (k : Z) : Prop := exhaustive r = true -> forall i n, i < k -> ~ matches_at icase c r d t i n.

Lemma none_here tpre u res : t = tpre ++ u -> none_before (Z.of_nat (length tpre)) ->
  (exhaustive r = true -> forall u1 u2, u = u1 ++ u2 -> ~ accepts (ignore_case src) r d u1 u2) -> res < 0 ->
  none_before (Z.of_nat (length tpre) + 1).
Proof.
  intros Ht Hn Hx _ E i n Hi [Hc (s & v & w & Et & -> & -> & A)]. destruct (Z.ltb_spec (Z.of_nat (length s)) (Z.of_nat (length tpre))) as [L|L].
  - apply (Hn E (Z.of_nat (length s)) (Z.of_nat (length v)) L). split; [exact Hc|]. now exists s, v, w.
  - rewrite Ht in Et. apply app_inj_1 in Et as [<- ->]; [|lia]. now apply (Hx E v w).
Qed.

Lemma parse_run u : forall tpre m f, t = tpre ++ u -> (c = true -> tpre = []) -> none_before (Z.of_nat (length tpre)) ->
  (codes t r + length u + 3 <= f)%nat ->
  exists code m', parse_loop src t f c (Z.of_nat (length tpre)) m = rx_ok (code, m') /\ found_at code.
Proof.
  induction u as [|b u IH]; intros tpre m f Ht Hc Hn Hf; (destruct f as [|f]; [lia|]).
  all: destruct (start_run tpre _ m f Ht ltac:(cbn [length] in Hf; lia)) as (res & m' & R & O); cbn [parse_loop].
  all: replace (Z.of_nat (length t) - Z.of_nat (length tpre)) with (Z.of_nat (length (skipn (length tpre) t)))
    by (rewrite length_skipn, Ht, length_app; lia).
  all: rewrite (skipn_behind tpre _ Ht), R; cbn [rx_bind].
  all: destruct O as [(u1 & u2 & Eu & A & ->)|[Hres Hx]].
  1, 3: destruct (Z.leb_spec 0 (0 + Z.of_nat (length u1))); [|lia]; do 2 eexists; (split; [reflexivity|]);
    left; exists (Z.of_nat (length tpre)), (Z.of_nat (length u1)); (split; [lia|]); (split; [|exact Hn]);
    (split; [intros E; now rewrite (Hc E)|]); exists tpre, u1, u2; rewrite <- Eu; auto.
  all: destruct (Z.leb_spec 0 res); [lia|]; pose proof (none_here tpre _ res Ht Hn Hx Hres) as N.
  all: assert (Lost : (forall i n, matches_at icase c r d t i n -> i < Z.of_nat (length tpre) + 1) -> found_at res)
    by (intros Hi; right; split; [exact Hres|]; intros E i n M; exact (N E i n (Hi i n M) M)).
  - destruct c eqn:Ec; [do 2 eexists; split; [reflexivity|]|].
    + apply Lost. intros i n [H0 _]. rewrite H0 by reflexivity. lia.
    + destruct (Z.leb_spec (Z.of_nat (length tpre) + 1) (Z.of_nat (length t))); [rewrite Ht, length_app in *; cbn [length] in *; lia|].
      do 2 eexists. split; [reflexivity|]. apply Lost. intros i n [_ (s & v & w & Et & -> & _)]. rewrite Et, length_app in *. lia.
  - destruct c eqn:Ec; [do 2 eexists; split; [reflexivity|]|].
    + apply Lost. intros i n [H0 _]. rewrite H0 by reflexivity. lia.
    + destruct (Z.leb_spec (Z.of_nat (length tpre) + 1) (Z.of_nat (length t))); [|rewrite Ht, length_app in *; cbn [length] in *; lia].
      replace (Z.of_nat (length tpre) + 1) with (Z.of_nat (length (tpre ++ [b]))) in * by (rewrite length_app; cbn; lia).
      apply IH; [now rewrite Ht, <- app_assoc|discriminate|exact N|cbn [length] in Hf; lia].
Qed.
End Whole.

(** (C37) Regular expressions.  For every expression of characters, the dot and escapes, each with an optional
    quantifier, anchored or not, and every text: the expression compiles, and with the stated fuel the search
    returns; a code that is not negative is the end of a match of the expression's language, and when no item is
    optional it is one that starts leftmost and a negative code means that there is no match anywhere; [match]
    answers whether the code is positive. *)
Theorem regex_finds (icase c : bool) (r : list item) (d : bool) (t : list Z) : items_ok r ->
  exists src, compile (S (length (pattern c r d))) (pattern c r d) icase = rx_ok src /\ source_state src = state_preprocessed /\
  forall f steps, (regex_fuel r t <= f)%nat ->
  exists code m, regex_parse src t f (mk_info [] steps) = rx_ok (code, m) /\ found_at icase c r d t code /\
    exists res, regex_match_source src t f steps = rx_ok (0 <? code, res) /\
      result_state res = (if 0 <? code then state_match_found else code).
Proof.
  intros Hr. exists (plain_source (pattern c r d) icase). split; [now apply compile_pattern|]. split; [reflexivity|].
  intros f steps Hf. unfold regex_fuel in Hf.
  destruct (parse_run icase c r d t Hr t [] (mk_info [] steps) f) as (code & m & R & F);
    [reflexivity|reflexivity|intros _ i n Hi (_ & s & _ & _ & _ & -> & _); cbn in Hi; lia|lia|].
  assert (P : regex_parse (plain_source (pattern c r d) icase) t f (mk_info [] steps) = rx_ok (code, m)).
  { transitivity (let* x := value_char (pattern c r d) 0 in parse_loop (plain_source (pattern c r d) icase) t f (x =? 94) 0 (mk_info [] steps)); [reflexivity|].
    assert (V : value_char (pattern c r d) 0 = rx_ok (nth 0 (pattern c r d) 0)) by (apply (value_char_app [] _ 0 0); [reflexivity|lia]).
    rewrite V. cbn [rx_bind].
    assert (A : (nth 0 (pattern c r d) 0 =? 94) = c); [|rewrite A; exact R].
    destruct c; [reflexivity|]. unfold pattern. cbn [app]. destruct r as [|[a q] r']; [now destruct d|].
    apply Forall_inv in Hr. cbn in Hr. destruct (atom_front a Hr) as (_ & _ & _ & _ & N & _). rewrite body_cons.
    rewrite app_nth1 by apply atom_length. now apply Z.eqb_neq. }
  exists code, m. split; [exact P|]. split; [exact F|]. unfold regex_match_source. rewrite P. cbn [rx_bind].
  destruct (Z.leb_spec code 0), (Z.ltb_spec 0 code); try lia; eexists; split; reflexivity.
Qed.

Definition sample_items : list item := [(atom_char 97, q_many true false); (atom_any, q_one); (atom_escape 100, q_many false true)].

Lemma regex_finds_witness :
  pattern true sample_items true = chars "^a+.\d*?$" /\
  exists src, compile 10 (chars "^a+.\d*?$") false = rx_ok src /\
    exists code m, regex_parse src (chars "aab12") 200 (mk_info [] 0) = rx_ok (code, m) /\ found_at false true sample_items true (chars "aab12") code.
Proof.
  split; [reflexivity|].
  destruct (regex_finds false true sample_items true (chars "aab12")) as (src & C & _ & H).
  - repeat constructor; discriminate.
  - exists src. split; [exact C|]. destruct (H 200%nat 0) as (code & m & P & F & _); [vm_compute; lia|]. now exists code, m.
Defined.

(** ** What goes wrong outside of the fragment *)

Definition compiled (e : list Z) : regex_source :=
  match compile (S (length e)) e false with rx_ok s => s | _ => plain_source e false end.

(** Without a bracket there is no match to replace, and the loop goes on with the same buffer. *)
Lemma replace_without_bracket f : forall steps n, regex_replace f 50 (compiled (chars "a")) (chars "b") (chars "a") 0 steps n = rx_fuel.
Proof.
  assert (M : forall steps, exists steps', regex_match_source (compiled (chars "a")) (chars "a") 50 steps =
    rx_ok (true, mk_result [] state_match_found steps')) by (intros steps; eexists; vm_compute; reflexivity).
  induction f as [|f IH]; intros steps n; [reflexivity|]. cbn [regex_replace]. rewrite skipn_O. destruct (M steps) as [s' ->].
  cbn [rx_bind result_matches]. apply IH.
Qed.

(** The text put in the place of a match is searched again from its last character. *)
Lemma replace_by_itself f : forall steps n, regex_replace f 50 (compiled (chars "(a)")) (chars "a") (chars "a") 0 steps n = rx_fuel.
Proof.
  assert (M : forall steps, exists steps', regex_match_source (compiled (chars "(a)")) (chars "a") 50 steps =
    rx_ok (true, mk_result [mk_match 0 1 1] state_match_found steps')) by (intros steps; eexists; vm_compute; reflexivity).
  induction f as [|f IH]; intros steps n; [reflexivity|]. cbn [regex_replace]. rewrite skipn_O. destruct (M steps) as [s' ->].
  cbn [rx_bind result_matches]. exact (IH s' (S n)).
Qed.

(** An unclosed set whose last escape is cut off has no length, and the compiler stands still before it. *)
Lemma compile_stands_still f : forall bs, compile_loop f [91; 92] 0 0 bs [] = rx_fuel.
Proof.
  induction f as [|f IH]; intros bs; [reflexivity|]. exact (IH bs).
Qed.

(** Defects of the regular expressions: an unclosed set that ends in a backslash is compiled for ever; a
    set at the end of the text reads the character behind it; an optional item is never given back; a caret
    behind a repetition matches inside the text; a bracket closed behind a nested one gets the wrong extent; and
    replacing does not end when the expression has no bracket or the replacement ends in a match. *)
Theorem regex_defects :
  (forall fuel icase, compile fuel [91; 92] icase = rx_fuel) /\
  regex_parse (compiled (chars "a[^b]")) (chars "a") 50 (mk_info [] 0) = rx_fault /\
  fst <$> (match regex_parse (compiled (chars "a?ab")) (chars "ab") 50 (mk_info [] 0) with rx_ok x => Some x | _ => None end) = Some state_no_match /\
  fst <$> (match regex_parse (compiled (chars "a*^b")) (chars "aab") 50 (mk_info [] 0) with rx_ok x => Some x | _ => None end) = Some 3 /\
  fst <$> (match regex_parse (compiled (chars "(a)(b(c)d)")) (chars "abcd") 50 (mk_info [] 0) with rx_ok x => Some x | _ => None end) = Some state_no_match /\
  (forall fuel steps n, regex_replace fuel 50 (compiled (chars "a")) (chars "b") (chars "a") 0 steps n = rx_fuel) /\
  (forall fuel steps n, regex_replace fuel 50 (compiled (chars "(a)")) (chars "a") (chars "a") 0 steps n = rx_fuel).
Proof.
  split; [intros fuel icase; unfold compile; now rewrite compile_stands_still|].
  do 4 (split; [vm_compute; reflexivity|]). split; [apply replace_without_bracket|apply replace_by_itself].
Qed.
