(* ===== verification/Arena.v ===== *)
(** * Arena allocators (src/src/vitex/core.cpp: [linear_allocator], [stack_allocator])

    Both carve blocks from the front of regions.  The list of regions stands for the doubly linked one, the
    region at [bottom] first and the one at [top] last.  The address of a new region is what the process
    allocator returns: an argument of the operations that ask for one, used at most once a call. *)
From S2P Require Import Prelude.

(** Bytes of the [region] structure in front of its data. *)
Definition sizeof_region : Z := 40.
Definition sizeof_size_t : Z := 8.

(** [region_bytes]: what the process allocator was asked for. *)
Record region := mk_region { free_address : Z; base_address : Z; region_size : Z; region_bytes : Z }.

Definition set_free (r : region) (a : Z) : region := mk_region a (base_address r) (region_size r) (region_bytes r).
(** [next_region]: the new region is the bottom; [address] is that of the structure.  The size of the request wraps. *)
Definition next_region (regions : list region) (size address : Z) : list region :=
  mk_region (address + sizeof_region) (address + sizeof_region) size (u64 (sizeof_region + size)) :: regions.
Definition leftovers (r : region) : Z := u64 (base_address r + region_size r - free_address r).
Definition get_leftovers (regions : list region) : Z := match regions with [] => 0 | bottom :: _ => leftovers bottom end.
Definition is_valid (regions : list region) (target : Z) : bool :=
  existsb (fun r => (base_address r <=? target) && (target <=? base_address r + region_size r)) regions.
Definition total_size (regions : list region) : Z := fold_left (fun n r => u64 (n + region_size r)) regions 0.
Definition rewind (regions : list region) : list region := map (fun r => set_free r (base_address r)) regions.

(** [retry]: carve from the bottom region, or from a new one. *)
Fixpoint carve (fuel : nat) (regions : list region) (size address : Z) : option (list region * Z) :=
  match fuel with
  | O => None
  | S f =>
      match regions with
      | [] => None
      | bottom :: upper =>
          if leftovers bottom <? size then carve f (next_region regions size address) size address
          else Some (set_free bottom (free_address bottom + size) :: upper, free_address bottom)
      end
  end.
Definition allocate_from (regions : list region) (size address : Z) : option (list region * Z) :=
  carve 2 (match regions with [] => next_region [] size address | _ => regions end) size address.

(** ** [linear_allocator] *)

Record linear := mk_linear { linear_regions : list region; latest_size : Z; linear_sizing : Z }.

Definition linear_new (size address : Z) : linear :=
  mk_linear (if 0 <? size then next_region [] size address else []) 0 size.
Definition linear_allocate (a : linear) (size address : Z) : option (linear * Z) :=
  r ← allocate_from (linear_regions a) size address;
  Some (mk_linear (fst r) size (linear_sizing a), snd r).
(** [None]: there is no region to look into. *)
Definition linear_free (a : linear) (address : Z) : option linear :=
  match linear_regions a with
  | [] => None
  | bottom :: upper =>
      let origin := free_address bottom - latest_size a in
      Some (if origin =? address then mk_linear (set_free bottom origin :: upper) 0 (linear_sizing a) else a)
  end.
Definition linear_reset (a : linear) (address : Z) : linear :=
  let total := total_size (linear_regions a) in
  if linear_sizing a <? total then mk_linear (next_region [] total address) (latest_size a) total
  else mk_linear (rewind (linear_regions a)) (latest_size a) (linear_sizing a).

(** ** [stack_allocator]

    The size of a block stands in the eight bytes in front of it. *)
Definition memory := Z -> Z.
Definition write64 (h : memory) (a v : Z) : memory :=
  fun x => if (a <=? x) && (x <? a + 8) then nth (Z.to_nat (x - a)) (le_digits 8 256 v) 0 else h x.
Definition read64 (h : memory) (a : Z) : Z := le_val 256 (map (fun k => h (a + Z.of_nat k)) (seq 0 8)).

Record stack := mk_stack { stack_regions : list region; stack_sizing : Z }.

Definition stack_new (size address : Z) : stack := mk_stack (if 0 <? size then next_region [] size address else []) size.
Definition stack_allocate (s : stack) (h : memory) (size address : Z) : option (stack * memory * Z) :=
  let size := u64 (size + sizeof_size_t) in
  r ← allocate_from (stack_regions s) size address;
  Some (mk_stack (fst r) (stack_sizing s), write64 h (snd r) size, snd r + sizeof_size_t).
Definition stack_free (s : stack) (h : memory) (address : Z) : option stack :=
  match stack_regions s with
  | [] => None
  | bottom :: upper =>
      let offset := address - sizeof_size_t in
      let origin := free_address bottom - read64 h offset in
      Some (if origin =? offset then mk_stack (set_free bottom origin :: upper) (stack_sizing s) else s)
  end.
Definition stack_reset (s : stack) (address : Z) : stack :=
  let total := total_size (stack_regions s) in
  if stack_sizing s <? total then mk_stack (next_region [] total address) total
  else mk_stack (rewind (stack_regions s)) (stack_sizing s).

(** ** Regions in memory *)

(** The addresses from [a] on, [n] of them. *)
Definition apart (x y : Z * Z) : Prop := fst x + snd x <= fst y \/ fst y + snd y <= fst x.
Fixpoint pairwise_apart (l : list (Z * Z)) : Prop :=
  match l with [] => True | x :: l' => List.Forall (apart x) l' /\ pairwise_apart l' end.

(** The memory of a region, its structure in front. *)
Definition extent (r : region) : Z * Z := (base_address r - sizeof_region, region_bytes r).
Definition region_ok (r : region) : Prop :=
  0 <= region_size r /\ base_address r <= free_address r <= base_address r + region_size r /\ region_bytes r = 40 + region_size r /\ 40 + region_size r < 2 ^ 64.
Definition regions_ok (rs : list region) : Prop := List.Forall region_ok rs /\ pairwise_apart (map extent rs).
(** What the process allocator promises of a region of [size] bytes at [address]. *)
Definition fresh (rs : list region) (size address : Z) : Prop :=
  List.Forall (apart (address, u64 (sizeof_region + size))) (map extent rs).
(** A block below the free address of one of the regions. *)
Definition placed (rs : list region) (b : Z * Z) : Prop :=
  exists r, In r rs /\ base_address r <= fst b /\ fst b + snd b <= free_address r.

Lemma leftovers_new size address n : 0 <= size < 2 ^ 64 -> leftovers (mk_region (address + sizeof_region) (address + sizeof_region) size n) = size.
Proof. intros H. unfold leftovers, wrapU. cbn. rewrite Z.mod_small; lia. Qed.
Lemma leftovers_ok r : region_ok r -> leftovers r = base_address r + region_size r - free_address r.
Proof. intros (H1 & H2 & H3). unfold leftovers, wrapU. rewrite Z.mod_small; lia. Qed.

(** The block carved: it is the front of the free part of the bottom region, the old one or a new one. *)
Lemma allocate_from_spec rs size address : 0 <= size < 2 ^ 64 - 40 -> regions_ok rs -> fresh rs size address ->
  exists bottom upper, allocate_from rs size address = Some (set_free bottom (free_address bottom + size) :: upper, free_address bottom) /\
    regions_ok (bottom :: upper) /\ size <= leftovers bottom /\
    (bottom :: upper = rs \/ bottom :: upper = next_region rs size address).
Proof.
  intros Hs Hr Hf. unfold allocate_from.
  assert (New : regions_ok (next_region rs size address)).
  { destruct Hr as [F P]. split; [constructor; [unfold region_ok, sizeof_region, wrapU; cbn [region_size base_address free_address region_bytes]; rewrite Z.mod_small; lia|exact F]|]. cbn [next_region map pairwise_apart]. split; [|exact P].
    unfold fresh, extent in *. cbn. now replace (address + sizeof_region - sizeof_region) with address by lia. }
  destruct rs as [|b u].
  - unfold next_region at 1. cbn [carve]. rewrite leftovers_new, (proj2 (Z.ltb_ge size size)) by lia.
    do 2 eexists. split; [reflexivity|]. split; [exact New|]. rewrite leftovers_new by lia. split; [lia|now right].
  - cbn [carve]. destruct (Z.ltb_spec (leftovers b) size).
    + unfold next_region. cbn [carve]. rewrite leftovers_new, (proj2 (Z.ltb_ge size size)) by lia.
      do 2 eexists. split; [reflexivity|]. split; [exact New|]. rewrite leftovers_new by lia. split; [lia|now right].
    + do 2 eexists. split; [reflexivity|]. split; [exact Hr|]. split; [lia|now left].
Qed.

Lemma regions_ok_set b u a : regions_ok (b :: u) -> base_address b <= a <= base_address b + region_size b -> regions_ok (set_free b a :: u).
Proof.
  intros [F P] Ha. inversion_clear F as [|? ? Hb Hu]. split; [|exact P]. constructor; [|exact Hu]. unfold region_ok in *. cbn [set_free free_address base_address region_size region_bytes]. lia.
Qed.

Lemma rewind_ok rs : regions_ok rs -> regions_ok (rewind rs).
Proof.
  intros [F P]. unfold rewind. split.
  - apply List.Forall_map. eapply Forall_impl; [|exact F]. intros r H. unfold region_ok in *. cbn [set_free free_address base_address region_size region_bytes]. lia.
  - replace (map extent (map (fun r => set_free r (base_address r)) rs)) with (map extent rs); [exact P|].
    rewrite map_map. reflexivity.
Qed.

(** Blocks stay placed when the bottom region's free address grows or a region is added. *)
Lemma placed_grow b u n x : 0 <= n -> placed (b :: u) x -> placed (set_free b (free_address b + n) :: u) x.
Proof.
  intros Hn (r & [<-|I] & H1 & H2); [|exists r; split; [now right|auto]].
  exists (set_free b (free_address b + n)). split; [now left|]. cbn. lia.
Qed.
Lemma placed_more rs size address x : placed rs x -> placed (next_region rs size address) x.
Proof. intros (r & I & H). exists r. split; [now right|exact H]. Qed.

Lemma placed_apart b u x : regions_ok (b :: u) -> placed (b :: u) x -> 0 <= snd x -> forall n, n <= leftovers b -> apart (free_address b, n) x.
Proof.
  intros [F P] (r & I & H1 & H2) Hx n Hn. unfold apart. cbn [fst snd]. inversion_clear F as [|? ? Hb Hu]. rewrite leftovers_ok in Hn by exact Hb. destruct I as [<-|I]; [right; lia|].
  cbn [map pairwise_apart] in P. destruct P as [P _]. rewrite List.Forall_forall in P. specialize (P (extent r) (in_map extent u r I)).
  rewrite List.Forall_forall in Hu. specialize (Hu r I). unfold region_ok, apart, extent, sizeof_region in *. cbn [fst snd] in P.
  destruct P; [left|right]; lia.
Qed.

(** Two blocks of placed regions whose addresses meet are of one region. *)
Lemma same_region rs r1 r2 a : regions_ok rs -> In r1 rs -> In r2 rs ->
  base_address r1 <= a <= base_address r1 + region_size r1 -> base_address r2 <= a <= base_address r2 + region_size r2 ->
  extent r1 = extent r2.
Proof.
  intros [F P] I1 I2 H1 H2. induction rs as [|r rs IH]; [contradiction|]. inversion_clear F as [|? ? Hr Hrs].
  destruct P as [Pr Prs]. rewrite List.Forall_forall in Pr.
  assert (X : forall q, In q rs -> base_address q <= a <= base_address q + region_size q -> base_address r <= a <= base_address r + region_size r -> False).
  { intros q Iq Hq Ha. specialize (Pr (extent q) (in_map extent rs q Iq)). rewrite List.Forall_forall in Hrs. specialize (Hrs q Iq). unfold region_ok, apart, extent, sizeof_region in *. cbn [fst snd] in Pr. lia. }
  destruct I1 as [<-|I1], I2 as [<-|I2]; [reflexivity| | |now apply IH]; exfalso; eapply X; eassumption.
Qed.
