(* ===== verification/ArenaFacts.v ===== *)
(** * Arena allocators: the blocks in use

    Any sequence of calls a client may make keeps the blocks it holds apart from each other and inside of the
    regions (Arena.v): a step relation over the allocator and the blocks in use, with its invariant. *)
From S2P Require Import Prelude Arena.

(** ** Blocks *)

Abbreviation block := (Z * Z)%type.

Lemma apart_sym x y : apart x y -> apart y x.
Proof. unfold apart. tauto. Qed.

Lemma pairwise_remove l1 x l2 : pairwise_apart (l1 ++ x :: l2) -> pairwise_apart (l1 ++ l2) /\ List.Forall (apart x) (l1 ++ l2).
Proof.
  induction l1 as [|y l1 IH]; cbn; [tauto|]. intros [F P]. destruct (IH P) as [P' F']. apply List.Forall_app in F as [F1 F2].
  inversion_clear F2 as [|? ? Fx F3]. split; [split; [now apply List.Forall_app|exact P']|]. constructor; [now apply apart_sym|exact F'].
Qed.

Lemma Forall_remove {A} (P : A -> Prop) l1 x l2 : List.Forall P (l1 ++ x :: l2) -> P x /\ List.Forall P (l1 ++ l2).
Proof. rewrite !List.Forall_app, List.Forall_cons_iff. tauto. Qed.

(** What carving a block of [size] bytes does to blocks that are in place. *)
Lemma carved rs size address l : 0 <= size < 2 ^ 64 - 40 -> regions_ok rs -> fresh rs size address ->
  List.Forall (placed rs) l -> List.Forall (fun b => 0 <= snd b) l ->
  exists b u, allocate_from rs size address = Some (set_free b (free_address b + size) :: u, free_address b) /\
    regions_ok (set_free b (free_address b + size) :: u) /\
    List.Forall (placed (set_free b (free_address b + size) :: u)) ((free_address b, size) :: l) /\
    List.Forall (apart (free_address b, size)) l.
Proof.
  intros Hs Hr Hf Hl Hn. destruct (allocate_from_spec rs size address Hs Hr Hf) as (b & u & E & R & L & O).
  exists b, u. split; [exact E|]. assert (Hb : region_ok b) by (destruct R as [F _]; now inversion F). pose proof L as L0. rewrite leftovers_ok in L by exact Hb. destruct Hb as [Hb1 Hb2].
  assert (Hl' : List.Forall (placed (b :: u)) l).
  { destruct O as [-> | ->]; [exact Hl|]. eapply Forall_impl; [|exact Hl]. intros x. apply placed_more. }
  split; [apply regions_ok_set; [exact R|lia]|]. split.
  - constructor.
    + exists (set_free b (free_address b + size)). split; [now left|]. cbn. lia.
    + eapply Forall_impl; [|exact Hl']. intros x. now apply placed_grow.
  - apply List.Forall_forall. intros x I. rewrite List.Forall_forall in Hl', Hn. apply (placed_apart b u); auto.
Qed.

(** ** The linear allocator *)

Abbreviation linear_state := (linear * list block)%type.

Fixpoint sum_sizes (rs : list region) : Z := match rs with [] => 0 | r :: rs => region_size r + sum_sizes rs end.

(** A client allocates at least one byte and fewer than 2^64 - 40, frees a block it holds, or resets, where a region as large as all regions exists, and gives all blocks up. *)
Inductive linear_step : linear_state -> linear_state -> Prop :=
| linear_step_allocate a live size address a' p : 0 < size < 2 ^ 64 - 40 -> fresh (linear_regions a) size address ->
    linear_allocate a size address = Some (a', p) -> linear_step (a, live) (a', (p, size) :: live)
| linear_step_free a live1 p n live2 a' : linear_free a p = Some a' ->
    linear_step (a, live1 ++ (p, n) :: live2) (a', live1 ++ live2)
| linear_step_reset a live address : sum_sizes (linear_regions a) < 2 ^ 64 - 40 -> linear_step (a, live) (linear_reset a address, []).
Inductive linear_reachable : linear_state -> Prop :=
| linear_start size address : 0 <= size < 2 ^ 64 - 40 -> linear_reachable (linear_new size address, [])
| linear_next s s' : linear_reachable s -> linear_step s s' -> linear_reachable s'.

(** The last block ends where the free part of the bottom region starts. *)
Definition latest_ok (a : linear) (live : list block) : Prop :=
  live = [] \/ latest_size a = 0 \/
  match linear_regions a with
  | [] => False
  | b :: _ => 0 < latest_size a /\ base_address b <= free_address b - latest_size a /\
      forall x, In x live -> base_address b <= fst x -> fst x + snd x <= free_address b ->
        fst x + snd x <= free_address b - latest_size a \/ x = (free_address b - latest_size a, latest_size a)
  end.
Record linear_inv (s : linear_state) : Prop := {
  linv_regions : regions_ok (linear_regions (fst s));
  linv_placed : List.Forall (placed (linear_regions (fst s))) (snd s);
  linv_positive : List.Forall (fun b => 0 < snd b) (snd s);
  linv_apart : pairwise_apart (snd s);
  linv_latest : latest_ok (fst s) (snd s) }.

Lemma regions_ok_one size address : 0 <= size < 2 ^ 64 - 40 -> regions_ok (next_region [] size address).
Proof.
  intros H. split; [constructor; [|constructor]|cbn; auto]. unfold region_ok, sizeof_region, wrapU. cbn [region_size base_address free_address region_bytes]. rewrite Z.mod_small; lia.
Qed.

Lemma total_size_sum rs : List.Forall region_ok rs -> 0 <= total_size rs <= sum_sizes rs.
Proof.
  intros F. unfold total_size. enough (G : forall n, 0 <= n -> 0 <= fold_left (fun n r => u64 (n + region_size r)) rs n <= n + sum_sizes rs) by (specialize (G 0); lia).
  induction F as [|r rs [Hr _] F IH]; intros n Hn; cbn [fold_left sum_sizes]; [lia|]. specialize (IH (u64 (n + region_size r))). unfold wrapU in *. pose proof (Z.mod_le (n + region_size r) (2 ^ 64)). lia.
Qed.

Lemma linear_inv_allocate a live size address : 0 < size < 2 ^ 64 - 40 -> fresh (linear_regions a) size address -> linear_inv (a, live) ->
  exists a' p, linear_allocate a size address = Some (a', p) /\ linear_inv (a', (p, size) :: live).
Proof.
  intros Hs Hf [R P N A L]. cbn [fst snd] in *.
  destruct (carved (linear_regions a) size address live) as (b & u & E & R' & P' & A'); [lia|assumption..|eapply Forall_impl; [|exact N]; cbn; lia|].
  unfold linear_allocate. rewrite E. cbn [mbind option_bind fst snd]. do 2 eexists. split; [reflexivity|].
  constructor; cbn [fst snd linear_regions latest_size]; [exact R'|exact P'|now constructor|split; assumption|].
  right. right. cbn [linear_regions latest_size set_free base_address free_address].
  assert (Hb : region_ok (set_free b (free_address b + size))) by (destruct R' as [F _]; now inversion F).
  inversion_clear P' as [|? ? _ Pl].
  split; [lia|]. split.
  { destruct (allocate_from_spec (linear_regions a) size address ltac:(lia) R Hf) as (b0 & u0 & E0 & [F0 _] & _). rewrite E in E0.
    injection E0 as E1 E2 E3 E4 E5 E6. inversion_clear F0 as [|? ? Hb0 _]. destruct Hb0 as [_ Hb0]. lia. }
  intros x [<-|I] Hx1 Hx2; [right; f_equal; lia|left].
  rewrite List.Forall_forall in A'. specialize (A' x I). unfold apart in A'. cbn [fst snd] in A'.
  rewrite List.Forall_forall in N. specialize (N x I). cbn in N. lia.
Qed.

Lemma linear_inv_free a live1 p n live2 : linear_inv (a, live1 ++ (p, n) :: live2) ->
  exists a', linear_free a p = Some a' /\ linear_inv (a', live1 ++ live2).
Proof.
  intros [R P N A L]. cbn [fst snd] in *. destruct (pairwise_remove _ _ _ A) as [A' Ax]. destruct (Forall_remove _ _ _ _ P) as [Px P'].
  destruct (Forall_remove _ _ _ _ N) as [Nx N']. unfold linear_free.
  destruct (linear_regions a) as [|b u] eqn:Er; [destruct Px as (r & [] & _)|].
  assert (Hb : region_ok b) by (destruct R as [F _]; now inversion F). destruct Hb as [Hb1 Hb2].
  assert (L' : latest_ok a (live1 ++ live2)).
  { destruct L as [C|[L|L]]; [now destruct live1|right; now left|right; right]. rewrite Er in *. destruct L as (L0 & L1 & L2).
    split; [exact L0|]. split; [exact L1|]. intros x I. apply L2. apply in_app_iff in I. apply in_app_iff. cbn. tauto. }
  destruct (Z.eqb_spec (free_address b - latest_size a) p) as [Eo|No].
  2:{ eexists. split; [reflexivity|]. constructor; cbn [fst snd]; rewrite ?Er; assumption. }
  eexists. split; [reflexivity|].
  assert (Bound : base_address b <= free_address b - latest_size a <= base_address b + region_size b).
  { destruct L as [C|[L|L]]; [now destruct live1|lia|]. rewrite Er in L. lia. }
  constructor; cbn [fst snd linear_regions latest_size]; [now apply regions_ok_set| |exact N'|exact A'|right; now left].
  apply List.Forall_forall. intros x I. rewrite List.Forall_forall in P', N', Ax. specialize (Ax x I). specialize (N' x I).
  destruct (P' x I) as (r & [<-|Ir] & H1 & H2); [|exists r; split; [now right|auto]].
  exists (set_free b (free_address b - latest_size a)). split; [now left|]. cbn [set_free base_address free_address]. split; [exact H1|].
  destruct L as [C|[L|L]]; [now destruct live1|lia|]. rewrite Er in L. destruct L as (L0 & L1 & L2).
  destruct (L2 x) as [E|E]; [|assumption..| |]; [|lia|].
  - apply in_app_iff in I. apply in_app_iff. cbn. tauto.
  - subst x. unfold apart in Ax. cbn [fst snd] in *. lia.
Qed.

Lemma linear_inv_empty a : regions_ok (linear_regions a) -> linear_inv (a, []).
Proof. intros H. constructor; cbn [fst snd]; [exact H|constructor|constructor|exact Logic.I|now left]. Qed.

Lemma linear_inv_reset a live address : sum_sizes (linear_regions a) < 2 ^ 64 - 40 -> linear_inv (a, live) -> linear_inv (linear_reset a address, []).
Proof.
  intros Sm [R _ _ _ _]. cbn [fst] in R. apply linear_inv_empty. unfold linear_reset. destruct (_ <? _); cbn [linear_regions].
  - apply regions_ok_one. destruct R as [F _]. pose proof (total_size_sum _ F). lia.
  - now apply rewind_ok.
Qed.

Lemma regions_ok_nil : regions_ok [].
Proof. split; [constructor|exact Logic.I]. Qed.

Lemma linear_inv_reachable s : linear_reachable s -> linear_inv s.
Proof.
  induction 1 as [size address Hs|s s' _ IH Hstep].
  - apply linear_inv_empty. unfold linear_new. destruct (0 <? size); cbn [linear_regions]; [now apply regions_ok_one|apply regions_ok_nil].
  - destruct Hstep as [a live size address a' p Hs Hf E|a live1 p n live2 a' E|a live address Sm].
    + destruct (linear_inv_allocate a live size address Hs Hf IH) as (a2 & p2 & E2 & I2). rewrite E in E2. now injection E2 as -> ->.
    + destruct (linear_inv_free a live1 p n live2 IH) as (a2 & E2 & I2). rewrite E in E2. now injection E2 as ->.
    + exact (linear_inv_reset a live address Sm IH).
Qed.

(** (C38) The linear allocator.  Whatever a client does - allocate at least one byte and less than 2^64 - 40, free any
    block it holds, in any order, reset where a region as large as all regions fits - the blocks in use do not overlap and
    lie in the part of the regions that is handed out; and for such sizes the next allocation succeeds, given that the process
    allocator, where it is asked, gives memory that is not in use.  ([empty_block_defect] and [region_wraps_defect] are what happens else.) *)
Theorem linear_blocks_apart (s : linear_state) : linear_reachable s ->
  pairwise_apart (snd s) /\ List.Forall (placed (linear_regions (fst s))) (snd s) /\
  (forall size address, 0 < size < 2 ^ 64 - 40 -> fresh (linear_regions (fst s)) size address ->
     exists a p, linear_allocate (fst s) size address = Some (a, p) /\ pairwise_apart ((p, size) :: snd s)).
Proof.
  intros H. apply linear_inv_reachable in H. split; [apply H|]. split; [apply H|]. intros size address Hs Hf.
  destruct s as [a live]. destruct (linear_inv_allocate a live size address Hs Hf H) as (a' & p & E & I). exists a', p.
  split; [exact E|apply I].
Qed.

Lemma linear_blocks_apart_witness :
  exists a p q, linear_reachable (a, [(q, 8); (p, 16)]) /\ pairwise_apart [(q, 8); (p, 16)] /\ p <> q.
Proof.
  assert (S0 : linear_reachable (linear_new 20 1000, [])) by (apply linear_start; lia).
  destruct (linear_allocate (linear_new 20 1000) 16 5000) as [[a1 p1]|] eqn:E1; [|discriminate E1].
  assert (S1 : linear_reachable (a1, [(p1, 16)])).
  { eapply linear_next; [exact S0|]. apply (linear_step_allocate _ _ _ 5000); [lia| |exact E1].
    constructor; [|constructor]. vm_compute. right. discriminate. }
  injection E1 as <- <-. set (a1 := mk_linear _ _ _) in *.
  destruct (linear_allocate a1 8 5000) as [[a2 p2]|] eqn:E2; [|discriminate E2].
  assert (S2 : linear_reachable (a2, [(p2, 8); (1040, 16)])).
  { eapply linear_next; [exact S1|]. apply (linear_step_allocate _ _ _ 5000); [lia| |exact E2].
    constructor; [|constructor]. vm_compute. right. discriminate. }
  injection E2 as <- <-. do 3 eexists. split; [exact S2|]. split; [exact (proj1 (linear_blocks_apart _ S2))|discriminate].
Defined.

(** A block of no bytes shares its address with the next one, and freeing it gives the other one back. *)
Lemma empty_block_defect : exists a1 p a2 q a3 a4 r,
  linear_allocate (linear_new 64 1000) 0 5000 = Some (a1, p) /\ linear_allocate a1 8 5000 = Some (a2, q) /\
  linear_free a2 p = Some a3 /\ linear_allocate a3 8 5000 = Some (a4, r) /\ q = r.
Proof. do 7 eexists. repeat (split; [vm_compute; reflexivity|]). reflexivity. Qed.

(** A request near the largest size makes a region of a few bytes, and the block is handed out all the same. *)
Theorem region_wraps_defect : exists a p, linear_allocate (linear_new 0 0) (2 ^ 64 - 32) 5000 = Some (a, p) /\
  map region_bytes (linear_regions a) = [8] /\ map region_size (linear_regions a) = [2 ^ 64 - 32].
Proof. do 2 eexists. split; [vm_compute; reflexivity|]. split; vm_compute; reflexivity. Qed.

(** ** The stack allocator *)
Lemma read64_ext h h' a : (forall x, a <= x < a + 8 -> h x = h' x) -> read64 h a = read64 h' a.
Proof.
  intros H. unfold read64. f_equal. apply map_ext_in. intros k I. apply in_seq in I. apply H. lia.
Qed.

Lemma read64_write64 h a v : 0 <= v < 2 ^ 64 -> read64 (write64 h a v) a = v.
Proof.
  intros Hv. transitivity (le_val 256 (le_digits 8 256 v)); [|rewrite le_val_le_digits by lia; now apply Z.mod_small].
  unfold read64. f_equal. transitivity (map (fun k => nth k (le_digits 8 256 v) 0) (seq 0 8)); [|reflexivity].
  apply map_ext_in. intros k I. apply in_seq in I. unfold write64.
  destruct (Z.leb_spec a (a + Z.of_nat k)); [|lia]. destruct (Z.ltb_spec (a + Z.of_nat k) (a + 8)); [|lia]. cbn [andb]. f_equal. lia.
Qed.

Lemma read64_apart h a b v : a + 8 <= b \/ b + 8 <= a -> read64 (write64 h b v) a = read64 h a.
Proof.
  intros H. apply read64_ext. intros x Hx. unfold write64. destruct (Z.leb_spec b x), (Z.ltb_spec x (b + 8)); cbn [andb]; [lia|reflexivity..].
Qed.

Record stack_state := mk_stack_state { st_stack : stack; st_memory : memory; st_live : list block }.

(** A client block with its header. *)
Definition with_header (b : block) : block := (fst b - sizeof_size_t, snd b + sizeof_size_t).

(** A client allocates, frees a block it holds, stores a byte in a block it holds, or resets. *)
Inductive stack_step : stack_state -> stack_state -> Prop :=
| stack_step_allocate s h live size address s' h' p : 0 <= size < 2 ^ 64 - 48 -> fresh (stack_regions s) (size + 8) address ->
    stack_allocate s h size address = Some (s', h', p) ->
    stack_step (mk_stack_state s h live) (mk_stack_state s' h' ((p, size) :: live))
| stack_step_free s h live1 p n live2 s' : stack_free s h p = Some s' ->
    stack_step (mk_stack_state s h (live1 ++ (p, n) :: live2)) (mk_stack_state s' h (live1 ++ live2))
| stack_step_store s h live p n x v : In (p, n) live -> p <= x < p + n ->
    stack_step (mk_stack_state s h live) (mk_stack_state s (fun y => if y =? x then v else h y) live)
| stack_step_reset s h live address : sum_sizes (stack_regions s) < 2 ^ 64 - 40 -> stack_step (mk_stack_state s h live) (mk_stack_state (stack_reset s address) h []).
Inductive stack_reachable : stack_state -> Prop :=
| stack_start size address h : 0 <= size < 2 ^ 64 - 40 -> stack_reachable (mk_stack_state (stack_new size address) h [])
| stack_next s s' : stack_reachable s -> stack_step s s' -> stack_reachable s'.

Definition header_ok (h : memory) (b : block) : Prop := 0 <= snd b /\ read64 h (fst b - 8) = snd b + 8.
Record stack_inv (s : stack_state) : Prop := {
  sinv_regions : regions_ok (stack_regions (st_stack s));
  sinv_placed : List.Forall (placed (stack_regions (st_stack s))) (map with_header (st_live s));
  sinv_apart : pairwise_apart (map with_header (st_live s));
  sinv_headers : List.Forall (header_ok (st_memory s)) (st_live s) }.

Lemma stack_inv_empty s h : regions_ok (stack_regions s) -> stack_inv (mk_stack_state s h []).
Proof. intros H. constructor; cbn [st_stack st_live st_memory map]; [exact H|constructor|exact Logic.I|constructor]. Qed.

Lemma with_header_nonneg h l : List.Forall (header_ok h) l -> List.Forall (fun b => 0 <= snd b) (map with_header l).
Proof. intros H. apply List.Forall_map. eapply Forall_impl; [|exact H]. intros b [Hb _]. unfold with_header, sizeof_size_t. cbn. lia. Qed.

Lemma stack_inv_allocate s h live size address : 0 <= size < 2 ^ 64 - 48 -> fresh (stack_regions s) (size + 8) address ->
  stack_inv (mk_stack_state s h live) ->
  exists s' h' p, stack_allocate s h size address = Some (s', h', p) /\ stack_inv (mk_stack_state s' h' ((p, size) :: live)).
Proof.
  intros Hs Hf [R P A H]. cbn [st_stack st_live st_memory] in *. unfold stack_allocate.
  rewrite wrapU_id by (unfold fits, sizeof_size_t; lia). unfold sizeof_size_t.
  destruct (carved (stack_regions s) (size + 8) address (map with_header live)) as (b & u & E & R' & P' & A');
    [lia|assumption..|now apply (with_header_nonneg h)|].
  rewrite E. cbn [mbind option_bind fst snd]. do 3 eexists. split; [reflexivity|].
  assert (W : with_header (free_address b + 8, size) = (free_address b, size + 8)) by (unfold with_header, sizeof_size_t; cbn; f_equal; lia).
  constructor; cbn [st_stack st_live st_memory map stack_regions]; rewrite ?W; [exact R'|exact P'|split; assumption|].
  constructor.
  - unfold header_ok. cbn [fst snd]. split; [lia|]. replace (free_address b + 8 - 8) with (free_address b) by lia.
    apply read64_write64. lia.
  - apply List.Forall_forall. intros x I. rewrite List.Forall_forall in H. destruct (H x I) as [H1 H2]. split; [exact H1|].
    rewrite read64_apart; [exact H2|]. rewrite List.Forall_forall in A'. specialize (A' _ (in_map with_header live x I)).
    unfold apart, with_header, sizeof_size_t in A'. cbn [fst snd] in A'. lia.
Qed.

Lemma stack_inv_free s h live1 p n live2 : stack_inv (mk_stack_state s h (live1 ++ (p, n) :: live2)) ->
  exists s', stack_free s h p = Some s' /\ stack_inv (mk_stack_state s' h (live1 ++ live2)).
Proof.
  intros [R P A H]. cbn [st_stack st_live st_memory] in *. rewrite map_app in P, A. cbn [map] in P, A.
  destruct (pairwise_remove _ _ _ A) as [A' Ax]. destruct (Forall_remove _ _ _ _ P) as [Px P'].
  destruct (Forall_remove _ _ _ _ H) as [[Hn Hh] H']. cbn [fst snd] in Hn, Hh. unfold stack_free.
  destruct (stack_regions s) as [|b u] eqn:Er; [destruct Px as (r & [] & _)|]. unfold sizeof_size_t. rewrite Hh.
  assert (F : List.Forall region_ok (b :: u)) by apply R. rewrite List.Forall_forall in F. pose proof (F b (or_introl eq_refl)) as [Hb1 Hb2].
  destruct (Z.eqb_spec (free_address b - (n + 8)) (p - 8)) as [Eo|No].
  2:{ eexists. split; [reflexivity|]. constructor; cbn [st_stack st_live st_memory]; rewrite ?Er, ?map_app; assumption. }
  eexists. split; [reflexivity|].
  assert (Hp : base_address b <= p - 8).
  { destruct Px as (r & Ir & H1 & H2). unfold with_header, sizeof_size_t in H1, H2. cbn [fst snd] in H1, H2. pose proof (F r Ir) as [Hr1 Hr2].
    assert (Ee : extent r = extent b) by (apply (same_region (b :: u) r b (p + n) R Ir (or_introl eq_refl)); lia).
    unfold extent in Ee. injection Ee as Ee _. lia. }
  constructor; cbn [st_stack st_live st_memory stack_regions]; rewrite ?map_app; [apply regions_ok_set; [exact R|lia]| |exact A'|exact H'].
  apply List.Forall_forall. intros x I. rewrite List.Forall_forall in P', Ax. specialize (Ax x I).
  destruct (P' x I) as (r & [<-|Ir] & H1 & H2); [|exists r; split; [now right|auto]].
  exists (set_free b (free_address b - (n + 8))). split; [now left|]. cbn [set_free base_address free_address]. split; [exact H1|].
  assert (Nx : 8 <= snd x).
  { rewrite <- map_app in I. apply in_map_iff in I as (y & <- & Iy). rewrite List.Forall_forall in H'. destruct (H' y Iy) as [Hy _].
    unfold with_header, sizeof_size_t. cbn. lia. }
  unfold apart, with_header, sizeof_size_t in Ax. cbn [fst snd] in Ax. lia.
Qed.

Lemma stack_inv_store s h live p n x v : In (p, n) live -> p <= x < p + n -> stack_inv (mk_stack_state s h live) ->
  stack_inv (mk_stack_state s (fun y => if y =? x then v else h y) live).
Proof.
  intros I Hx [R P A H]. constructor; cbn [st_stack st_live st_memory] in *; try assumption.
  apply List.Forall_forall. intros b Ib. rewrite List.Forall_forall in H. destruct (H b Ib) as [H1 H2]. split; [exact H1|].
  rewrite <- H2. apply read64_ext. intros y Hy. destruct (Z.eqb_spec y x) as [->|]; [|reflexivity]. exfalso.
  apply in_split in I as (l1 & l2 & ->). destruct (H (p, n)) as [Hn _]; [apply in_app_iff; cbn; auto|]. cbn in Hn.
  apply in_app_iff in Ib. cbn [In] in Ib.
  assert (C : (p, n) = b \/ In b (l1 ++ l2)) by (rewrite in_app_iff; tauto). destruct C as [<-|C]; [cbn in Hy; lia|].
  rewrite map_app in A. cbn [map] in A. destruct (pairwise_remove _ _ _ A) as [_ Ax]. rewrite List.Forall_forall in Ax.
  rewrite <- map_app in Ax. specialize (Ax (with_header b) (in_map with_header _ b C)). unfold apart, with_header, sizeof_size_t in Ax. cbn [fst snd] in Ax. lia.
Qed.

Lemma stack_inv_reachable s : stack_reachable s -> stack_inv s.
Proof.
  induction 1 as [size address h Hs|s s' _ IH Hstep].
  - apply stack_inv_empty. unfold stack_new. destruct (0 <? size); cbn [stack_regions]; [now apply regions_ok_one|apply regions_ok_nil].
  - destruct Hstep as [s h live size address s' h' p Hs Hf E|s h live1 p n live2 s' E|s h live p n x v I Hx|s h live address Sm].
    + destruct (stack_inv_allocate s h live size address Hs Hf IH) as (s2 & h2 & p2 & E2 & I2). rewrite E in E2. now injection E2 as -> -> ->.
    + destruct (stack_inv_free s h live1 p n live2 IH) as (s2 & E2 & I2). rewrite E in E2. now injection E2 as ->.
    + now apply (stack_inv_store s h live p n).
    + apply stack_inv_empty. destruct IH as [R _ _ _]. cbn [st_stack] in R. unfold stack_reset.
      destruct (_ <? _); cbn [stack_regions]; [apply regions_ok_one; pose proof (total_size_sum _ (proj1 R)); lia|now apply rewind_ok].
Qed.

(** The stack allocator.  Whatever a client does - allocate, free any block it holds, store bytes in its
    blocks, reset - the blocks in use, each with the header in front of it, do not overlap and lie in the regions,
    the headers hold the sizes, and freeing the block on top makes the allocator as large as it was before. *)
Theorem stack_blocks_apart (s : stack_state) : stack_reachable s ->
  pairwise_apart (map with_header (st_live s)) /\
  List.Forall (placed (stack_regions (st_stack s))) (map with_header (st_live s)) /\
  List.Forall (header_ok (st_memory s)) (st_live s) /\
  (forall size address, 0 <= size < 2 ^ 64 - 48 -> fresh (stack_regions (st_stack s)) (size + 8) address ->
     size + 8 <= get_leftovers (stack_regions (st_stack s)) ->
     exists s' h' p s2, stack_allocate (st_stack s) (st_memory s) size address = Some (s', h', p) /\
       stack_free s' h' p = Some s2 /\ s2 = st_stack s).
Proof.
  intros H. apply stack_inv_reachable in H. split; [apply H|]. split; [apply H|]. split; [apply H|].
  intros size address Hs Hf Hl. destruct s as [s h live]. cbn [st_stack st_memory st_live] in *.
  unfold stack_allocate. rewrite wrapU_id by (unfold fits, sizeof_size_t; lia). unfold sizeof_size_t, allocate_from in *.
  destruct (stack_regions s) as [|b u] eqn:Er; [cbn in Hl; lia|]. cbn [carve get_leftovers] in *.
  destruct (Z.ltb_spec (leftovers b) (size + 8)); [lia|]. cbn [mbind option_bind fst snd]. do 4 eexists. split; [reflexivity|].
  unfold stack_free. cbn [stack_regions set_free free_address]. unfold sizeof_size_t.
  replace (free_address b + 8 - 8) with (free_address b) by lia. rewrite read64_write64 by lia.
  replace (free_address b + (size + 8) - (size + 8)) with (free_address b) by lia. rewrite Z.eqb_refl. split; [reflexivity|].
  destruct s as [rs z]. cbn in *. subst rs. now destruct b.
Qed.

Lemma stack_blocks_apart_witness :
  exists s p, stack_reachable s /\ st_live s = [(p, 16)] /\ List.Forall (header_ok (st_memory s)) (st_live s).
Proof.
  set (h := fun _ : Z => 0).
  assert (S0 : stack_reachable (mk_stack_state (stack_new 64 1000) h [])) by (apply stack_start; lia).
  destruct (stack_allocate (stack_new 64 1000) h 16 5000) as [[[s1 h1] p1]|] eqn:E1; [|discriminate E1].
  assert (S1 : stack_reachable (mk_stack_state s1 h1 [(p1, 16)])).
  { eapply stack_next; [exact S0|]. apply (stack_step_allocate _ _ _ 16 5000); [lia| |exact E1].
    constructor; [|constructor]. vm_compute. right. discriminate. }
  do 2 eexists. split; [exact S1|]. split; [reflexivity|]. exact (proj1 (proj2 (proj2 (stack_blocks_apart _ S1)))).
Defined.

(** A request near the largest size wraps around and gets a block shorter than its own header. *)
Lemma stack_overflow_defect : exists s h p, stack_allocate (stack_new 64 1000) (fun _ => 0) (2 ^ 64 - 4) 5000 = Some (s, h, p) /\
  get_leftovers (stack_regions s) = 60.
Proof. do 3 eexists. split; [vm_compute; reflexivity|reflexivity]. Qed.
