(* ===== verification/Multiplexer.v ===== *)
(** * The multiplexer of socket events (network.cpp 233-435, 933-1068, 1953-2256, 2701-2756, 3719-3910)

    [multiplexer] keeps, for the sockets that wait, a callback for reading and one for writing, the time at
    which the wait expires and the registration with the poller of the platform.  Sockets live in a heap here:
    a pointer is a [positive], a callback is a name (a [positive] too, the null function is [None]), and the
    tasks given to the scheduler by [core::cospawn] are kept in the order they were spawned, each with the
    calls it makes.  An operation is [None] when it follows a pointer to no socket.  Every function below runs
    under the mutexes of the socket and of the multiplexer and is one step of this model; the order in which
    the functions take the mutexes is modelled at the end of the file. *)
From S2P Require Import Prelude.
From stdpp Require Import gmap.
Open Scope Z_scope.

Declare Scope mux_scope.
Delimit Scope mux_scope with mux.

(** [enum class socket_poll] and [packet]. *)
Inductive socket_poll := poll_next | poll_reset | poll_timeout | poll_cancel | poll_finish | poll_finish_sync.
#[export] Instance socket_poll_eq_dec : EqDecision socket_poll.
Proof. solve_decision. Defined.

Definition is_data (e : socket_poll) : bool := match e with poll_next => true | _ => false end.
Definition is_skip (e : socket_poll) : bool := match e with poll_cancel => true | _ => false end.
Definition is_done (e : socket_poll) : bool := match e with poll_finish | poll_finish_sync => true | _ => false end.
Definition is_timeout (e : socket_poll) : bool := match e with poll_timeout => true | _ => false end.
Definition is_error (e : socket_poll) : bool := match e with poll_reset | poll_timeout => true | _ => false end.
Definition is_error_or_skip (e : socket_poll) : bool := is_error e || is_skip e.

(** [std::errc] values the network code returns; [error_other] is any other condition of the system. *)
Inductive errc :=
  | errc_none | operation_in_progress | connection_reset | timed_out | operation_canceled
  | operation_would_block | bad_file_descriptor | not_connected | connection_refused | not_supported
  | error_other (code : Z).
#[export] Instance errc_eq_dec : EqDecision errc.
Proof. solve_decision. Defined.
Definition to_condition (e : socket_poll) : errc :=
  match e with
  | poll_next => operation_in_progress | poll_reset => connection_reset | poll_timeout => timed_out
  | poll_cancel => operation_canceled | poll_finish | poll_finish_sync => errc_none
  end.

(** ** Pollers

    [epoll_interface] is written once for each platform; the multiplexer is written against what they share.
    [data] is the pointer the poller hands back with an event. *)
Definition callback : Type := positive.
Definition pointer : Type := positive.
Definition INVALID_SOCKET : Z := -1.

Class Poller (H : Type) := {
  poller_add : H -> Z -> bool -> bool -> pointer -> H * bool;
  poller_update : H -> Z -> bool -> bool -> pointer -> H * bool;
  poller_remove : H -> Z -> pointer -> H * bool;
  (** the events the poller watches a descriptor for, and the pointer it returns *)
  interest : H -> Z -> option (bool * bool * pointer) }.

(** What a poller without the distinction of adding and updating promises. *)
Class UpsertPoller (H : Type) `{Poller H} := {
  add_interest h fd r w p : interest (fst (poller_add h fd r w p)) fd = Some (r, w, p);
  update_interest h fd r w p : interest (fst (poller_update h fd r w p)) fd = Some (r, w, p);
  remove_interest h fd p : interest (fst (poller_remove h fd p)) fd = Some (false, false, p);
  add_elsewhere h fd fd' r w p : fd' <> fd -> interest (fst (poller_add h fd r w p)) fd' = interest h fd';
  update_elsewhere h fd fd' r w p : fd' <> fd -> interest (fst (poller_update h fd r w p)) fd' = interest h fd';
  remove_elsewhere h fd fd' p : fd' <> fd -> interest (fst (poller_remove h fd p)) fd' = interest h fd' }.

(** *** [epoll_queue] for poll (NET_POLL)

    The flags are those of <poll.h>; without POLLRDHUP an entry starts with no events. *)
Definition POLLIN : Z := 1.
Definition POLLOUT : Z := 4.
Record pollfd := mk_pollfd { pfd : Z; pevents : Z; revents : Z }.
Record epoll_descriptor := mk_descriptor { descriptor_fd : pollfd; descriptor_data : option pointer }.
Record epoll_queue := mk_queue {
  fds : gmap Z epoll_descriptor; events_of : list pollfd; iteration : Z; incoming : Z; dirty : bool }.

(** One flag of [upsert], with whether it changed. *)
Definition set_flag (flag : Z) (on : bool) (e : Z) : Z * bool :=
  if on then if Z.land e flag =? 0 then (Z.lor e flag, true) else (e, false)
  else if Z.land e flag =? 0 then (e, false) else (Z.ldiff e flag, true).
Definition upsert (q : epoll_queue) (fd : Z) (readable writeable : bool) (data : option pointer)
  : epoll_queue * bool :=
  let (target, added) :=
    match fds q !! fd with
    | Some d => (d, false)
    | None => (mk_descriptor (mk_pollfd fd 0 0) None, true)
    end in
  let (e1, changed1) := set_flag POLLIN readable (pevents (descriptor_fd target)) in
  let (e2, changed2) := set_flag POLLOUT writeable e1 in
  let changed3 := negb (bool_decide (descriptor_data target = data)) in
  let is_dirty := dirty q || added || changed1 || changed2 || changed3 in
  (mk_queue (<[fd := mk_descriptor (mk_pollfd (pfd (descriptor_fd target)) e2 0) data]> (fds q)) (events_of q)
     (if is_dirty then u8 (iteration q + 1) else iteration q) (incoming q) is_dirty, true).

(** [compile] drops the entries without events; the order of an [unordered_map] is not specified. *)
Definition watched (q : epoll_queue) : gmap Z epoll_descriptor :=
  filter (fun kv => 0 < pevents (descriptor_fd (snd kv))) (fds q).
Definition compile_queue (q : epoll_queue) : epoll_queue * list pollfd :=
  if dirty q then
    let kept := watched q in
    let listed := map (fun kv => descriptor_fd (snd kv)) (map_to_list kept) in
    (mk_queue kept listed (iteration q) (incoming q) false, listed)
  else (q, events_of q).
Definition unwrap_event (q : epoll_queue) (event : pollfd) : option pointer :=
  if (pevents event =? 0) || (revents event =? 0) then None
  else if pfd event =? incoming q then None
  else match fds q !! pfd event with
       | Some d => if pevents (descriptor_fd d) =? 0 then None else descriptor_data d
       | None => None
       end.

Definition poll_poller : Poller epoll_queue := {|
  poller_add q fd r w p := upsert q fd r w (Some p);
  poller_update q fd r w p := upsert q fd r w (Some p);
  poller_remove q fd p := (fst (upsert q fd false false (Some p)), true);
  interest q fd :=
    match fds q !! fd with
    | Some d => match descriptor_data d with
                | Some p => Some (negb (Z.land (pevents (descriptor_fd d)) POLLIN =? 0),
                                  negb (Z.land (pevents (descriptor_fd d)) POLLOUT =? 0), p)
                | None => None
                end
    | None => None
    end |}.
#[export] Existing Instance poll_poller.

(** *** epoll (NET_EPOLL)

    The kernel's table is a parameter: [epoll_ctl] with its three operations. *)
Inductive epoll_op := EPOLL_CTL_ADD | EPOLL_CTL_MOD | EPOLL_CTL_DEL.
Definition EPOLLIN : Z := 1.
Definition EPOLLOUT : Z := 4.
Definition EPOLLRDHUP : Z := 8192.
Definition epoll_mask (readable writeable : bool) : Z :=
  let e := EPOLLRDHUP in
  let e := if readable then Z.lor e EPOLLIN else e in
  if writeable then Z.lor e EPOLLOUT else e.
Class Kernel (K : Type) := {
  epoll_ctl : K -> epoll_op -> Z -> Z -> pointer -> K * Z;
  kernel_events : K -> Z -> option (Z * pointer) }.
(** epoll_ctl(2): EEXIST when the descriptor to add is there, ENOENT when the one to modify or delete is not. *)
Class KernelLaws (K : Type) `{Kernel K} := {
  ctl_add k fd e p : kernel_events k fd = None ->
    kernel_events (fst (epoll_ctl k EPOLL_CTL_ADD fd e p)) fd = Some (e, p) /\
    snd (epoll_ctl k EPOLL_CTL_ADD fd e p) = 0;
  ctl_add_exists k fd e p : kernel_events k fd <> None ->
    kernel_events (fst (epoll_ctl k EPOLL_CTL_ADD fd e p)) fd = kernel_events k fd /\
    snd (epoll_ctl k EPOLL_CTL_ADD fd e p) = -1;
  ctl_mod k fd e p : kernel_events k fd <> None ->
    kernel_events (fst (epoll_ctl k EPOLL_CTL_MOD fd e p)) fd = Some (e, p) /\
    snd (epoll_ctl k EPOLL_CTL_MOD fd e p) = 0 }.

Definition epoll_poller {K} `{Kernel K} : Poller K := {|
  poller_add k fd r w p := let (k', status) := epoll_ctl k EPOLL_CTL_ADD fd (epoll_mask r w) p in (k', status =? 0);
  poller_update k fd r w p := let (k', status) := epoll_ctl k EPOLL_CTL_MOD fd (epoll_mask r w) p in (k', status =? 0);
  poller_remove k fd p :=
    let (k', status) := epoll_ctl k EPOLL_CTL_DEL fd (epoll_mask true true) p in (k', status =? 0);
  interest k fd :=
    '(e, p) ← kernel_events k fd; Some (negb (Z.land e EPOLLIN =? 0), negb (Z.land e EPOLLOUT =? 0), p) |}.

(** ** Sockets *)

Record ievents := mk_ievents {
  read_callback : option callback; write_callback : option callback; expiration : Z; timeout : Z }.
Record socket := mk_socket { events : ievents; fd : Z }.

Definition set_callbacks (r w : option callback) (s : socket) : socket :=
  mk_socket (mk_ievents r w (expiration (events s)) (timeout (events s))) (fd s).
Definition set_expiration (e : Z) (s : socket) : socket :=
  mk_socket (mk_ievents (read_callback (events s)) (write_callback (events s)) e (timeout (events s))) (fd s).
Definition set_io_timeout (timeout_ms : Z) (s : socket) : socket :=
  mk_socket (mk_ievents (read_callback (events s)) (write_callback (events s)) (expiration (events s)) timeout_ms) (fd s).
Definition set_fd (new_fd : Z) (s : socket) : socket := mk_socket (events s) new_fd.
Definition new_socket (from_fd : Z) : socket := mk_socket (mk_ievents None None 0 0) from_fd.
Definition fd_is_valid (s : socket) : bool := negb (fd s =? INVALID_SOCKET).
Definition is_some {A} (o : option A) : bool := match o with Some _ => true | None => false end.
Definition is_awaiting_readable (s : socket) : bool := is_some (read_callback (events s)).
Definition is_awaiting_writeable (s : socket) : bool := is_some (write_callback (events s)).
Definition is_awaiting_events (s : socket) : bool := is_awaiting_readable s || is_awaiting_writeable s.

(** A task of the scheduler: the callbacks it calls and the event it gives them. *)
Definition task : Type := list (callback * socket_poll).
Definition calls (event : socket_poll) (cs : list (option callback)) : task :=
  omap (fun c => match c with Some c => Some (c, event) | None => None end) cs.

(** ** The multiplexer *)
Section Multiplexer.
Context {H : Type} `{Poller H}.

Record multiplexer := mk_mux {
  heap : gmap pointer socket; timers : gmap Z pointer; trackers : gset pointer; handle : H;
  activations : Z; default_timeout : Z; spawned : list task }.

Definition set_heap (h : gmap pointer socket) (m : multiplexer) : multiplexer :=
  mk_mux h (timers m) (trackers m) (handle m) (activations m) (default_timeout m) (spawned m).
Definition set_timers (t : gmap Z pointer) (m : multiplexer) : multiplexer :=
  mk_mux (heap m) t (trackers m) (handle m) (activations m) (default_timeout m) (spawned m).
Definition set_trackers (t : gset pointer) (m : multiplexer) : multiplexer :=
  mk_mux (heap m) (timers m) t (handle m) (activations m) (default_timeout m) (spawned m).
Definition set_handle (h : H) (m : multiplexer) : multiplexer :=
  mk_mux (heap m) (timers m) (trackers m) h (activations m) (default_timeout m) (spawned m).
Definition set_activations (n : Z) (m : multiplexer) : multiplexer :=
  mk_mux (heap m) (timers m) (trackers m) (handle m) n (default_timeout m) (spawned m).
Definition cospawn (t : task) (m : multiplexer) : multiplexer :=
  mk_mux (heap m) (timers m) (trackers m) (handle m) (activations m) (default_timeout m) (spawned m ++ [t]).
Definition put (p : pointer) (s : socket) (m : multiplexer) : multiplexer := set_heap (<[p := s]> (heap m)) m.

Definition new_multiplexer (h : H) (dispatch_timeout : Z) : multiplexer :=
  mk_mux ∅ ∅ ∅ h 0 dispatch_timeout [].
Definition rescale (dispatch_timeout : Z) (h : H) (m : multiplexer) : multiplexer :=
  mk_mux (heap m) (timers m) (trackers m) h (activations m) dispatch_timeout (spawned m).

(** *** Timeouts *)

(** [while (timers.find(expiration) != timers.end()) ++expiration], on a count of 64 bits. *)
Fixpoint free_expiration (fuel : nat) (t : gmap Z pointer) (e : Z) : Z :=
  match fuel with
  | O => e
  | S f => match t !! e with Some _ => free_expiration f t (i64 (e + 1)) | None => e end
  end.
(** [time + std::chrono::milliseconds(timeout)]: the unsigned milliseconds become signed ones, then microseconds; a product or a sum that does not fit
    wraps, as two's complement does. *)
Definition deadline (time timeout_ms : Z) : Z := i64 (time + i64 (i64 timeout_ms * 1000)).
Definition add_timeout (p : pointer) (time : Z) (m : multiplexer) : option multiplexer :=
  s ← heap m !! p;
  if 0 <? timeout (events s) then
    let e := free_expiration (S (size (timers m))) (timers m) (deadline time (timeout (events s))) in
    Some (put p (set_expiration e s) (set_timers (<[e := p]> (timers m)) m))
  else Some (put p (set_expiration (-1) s) (set_trackers ({[p]} ∪ trackers m) m)).
Definition remove_timeout (p : pointer) (m : multiplexer) : option multiplexer :=
  s ← heap m !! p;
  let e := expiration (events s) in
  if 0 <? e then Some (put p (set_expiration 0 s) (set_timers (delete e (timers m)) m))
  else if e <? 0 then Some (put p (set_expiration 0 s) (set_trackers (trackers m ∖ {[p]}) m))
  else Some m.
Definition update_timeout (p : pointer) (time : Z) (m : multiplexer) : option multiplexer :=
  m ← remove_timeout p m; add_timeout p time m.

(** *** Waiting and cancelling *)

Definition handle_add (p : pointer) (s : socket) (r w : bool) (m : multiplexer) : multiplexer * bool :=
  let (h, ok) := poller_add (handle m) (fd s) r w p in (set_handle h m, ok).
Definition handle_update (p : pointer) (s : socket) (r w : bool) (m : multiplexer) : multiplexer * bool :=
  let (h, ok) := poller_update (handle m) (fd s) r w p in (set_handle h m, ok).
Definition handle_remove (p : pointer) (s : socket) (m : multiplexer) : multiplexer * bool :=
  let (h, ok) := poller_remove (handle m) (fd s) p in (set_handle h m, ok).

Definition when_readable (p : pointer) (when_ready : callback) (now : Z) (m : multiplexer)
  : option (multiplexer * bool) :=
  s ← heap m !! p;
  let was_listening_read := is_awaiting_readable s in
  let still_listening_write := is_awaiting_writeable s in
  let previous := read_callback (events s) in
  let m := put p (set_callbacks (Some when_ready) (write_callback (events s)) s) m in
  let (m, listening) :=
    if is_some previous then handle_update p s true still_listening_write m
    else handle_add p s true still_listening_write m in
  m ← (if negb was_listening_read && negb still_listening_write then add_timeout p now m else Some m);
  Some (match previous with Some c => cospawn [(c, poll_cancel)] m | None => m end, listening).

Definition when_writeable (p : pointer) (when_ready : callback) (now : Z) (m : multiplexer)
  : option (multiplexer * bool) :=
  s ← heap m !! p;
  let still_listening_read := is_awaiting_readable s in
  let was_listening_write := is_awaiting_writeable s in
  let previous := write_callback (events s) in
  let m := put p (set_callbacks (read_callback (events s)) (Some when_ready) s) m in
  let (m, listening) :=
    if is_some previous then handle_update p s still_listening_read true m
    else handle_add p s still_listening_read true m in
  m ← (if negb was_listening_write && negb still_listening_read then add_timeout p now m else Some m);
  Some (match previous with Some c => cospawn [(c, poll_cancel)] m | None => m end, listening).

Definition cancel_events (p : pointer) (event : socket_poll) (m : multiplexer) : option (multiplexer * bool) :=
  s ← heap m !! p;
  let r := read_callback (events s) in
  let w := write_callback (events s) in
  let m := put p (set_callbacks None None s) m in
  let was_listening := is_some r || is_some w in
  let (m, not_listening) := if was_listening && fd_is_valid s then handle_remove p s m else (m, true) in
  m ← (if was_listening then remove_timeout p m else Some m);
  if is_done event || negb was_listening then Some (m, not_listening)
  else Some (cospawn (calls event [w; r]) m, not_listening).
Definition mux_clear_events (p : pointer) (m : multiplexer) : option (multiplexer * bool) :=
  cancel_events p poll_finish m.

(** *** Dispatching *)

Record epoll_fd := mk_epoll_fd { base : pointer; readable : bool; writeable : bool; closeable : bool }.

Definition dispatch_events (e : epoll_fd) (time : Z) (m : multiplexer) : option (multiplexer * bool) :=
  if closeable e then
    '(m, _) ← cancel_events (base e) poll_reset m; Some (m, false)
  else if negb (readable e) && negb (writeable e) then Some (m, true)
  else
    s ← heap m !! base e;
    let was_read := is_awaiting_readable s in
    let was_write := is_awaiting_writeable s in
    let still_read := negb (readable e) && was_read in
    let still_write := negb (writeable e) && was_write in
    m ← (if still_read || still_write then
           let m := if negb (Bool.eqb was_read still_read) || negb (Bool.eqb was_write still_write)
                    then fst (handle_update (base e) s still_read still_write m) else m in
           update_timeout (base e) time m
         else if was_read || was_write then remove_timeout (base e) (fst (handle_remove (base e) s m))
         else Some m);
    s ← heap m !! base e;
    let r := read_callback (events s) in
    let w := write_callback (events s) in
    let m :=
      if readable e && writeable e then
        cospawn (calls poll_finish [w; r]) (put (base e) (set_callbacks None None s) m)
      else if readable e && was_read then
        cospawn (calls poll_finish [r]) (put (base e) (set_callbacks None w s) m)
      else if writeable e && was_write then
        cospawn (calls poll_finish [w]) (put (base e) (set_callbacks r None s) m)
      else m in
    Some (m, still_read || still_write).

(** [timers.begin()] of the ordered map. *)
Definition timers_begin (t : gmap Z pointer) : option (Z * pointer) :=
  map_fold (fun k p acc => match acc with Some (k', _) => if k <? k' then Some (k, p) else acc | None => Some (k, p) end)
    None t.
Definition expire (p : pointer) (m : multiplexer) : option multiplexer :=
  s ← heap m !! p;
  let m := put p (set_expiration 0 s) m in
  if 0 <? timeout (events s) then '(m, _) ← cancel_events p poll_timeout m; Some m else Some m.
Fixpoint timers_loop (fuel : nat) (time : Z) (m : multiplexer) : option multiplexer :=
  match fuel with
  | O => Some m
  | S f =>
      match timers_begin (timers m) with
      | None => Some m
      | Some (e, p) =>
          if time <? e then Some m
          else m ← expire p m; timers_loop f time (set_timers (delete e (timers m)) m)
      end
  end.
Definition dispatch_timers (time : Z) (m : multiplexer) : option multiplexer :=
  timers_loop (size (timers m)) time m.

Fixpoint dispatch_all (es : list epoll_fd) (time : Z) (m : multiplexer) : option multiplexer :=
  match es with
  | [] => Some m
  | e :: es => '(m, _) ← dispatch_events e time m; dispatch_all es time m
  end.
(** [es] is what [handle.wait] put into [fds]. *)
Definition dispatch (es : list epoll_fd) (time : Z) (m : multiplexer) : option multiplexer :=
  m ← dispatch_all es time m; dispatch_timers time m.

(** *** [shutdown] *)

Fixpoint drain (fuel : nat) (t : gmap Z pointer) : list pointer :=
  match fuel with
  | O => []
  | S f => match timers_begin t with None => [] | Some (e, p) => p :: drain f (delete e t) end
  end.
Fixpoint visit (f : pointer -> multiplexer -> option multiplexer) (ps : list pointer) (m : multiplexer)
  : option multiplexer :=
  match ps with [] => Some m | p :: ps => m ← f p m; visit f ps m end.
Definition reset_tracker (p : pointer) (m : multiplexer) : option multiplexer :=
  s ← heap m !! p;
  '(m, _) ← cancel_events p poll_reset (put p (set_expiration 0 s) m); Some m.
Definition mux_shutdown (now : Z) (m : multiplexer) : option multiplexer :=
  m ← dispatch_timers now m;
  let dirty_timers := timers m in
  let dirty_trackers := trackers m in
  m ← visit reset_tracker (elements dirty_trackers) (set_trackers ∅ (set_timers ∅ m));
  visit expire (drain (size dirty_timers) dirty_timers) m.

(** *** Activation: the boolean says that [set_task] queued a [try_dispatch]. *)
Definition try_enqueue (m : multiplexer) : bool := negb (activations m =? 0).
Definition try_listen (m : multiplexer) : multiplexer * bool :=
  let m' := set_activations (u64 (activations m + 1)) m in
  (m', if activations m =? 0 then try_enqueue m' else false).
Definition try_unlisten (m : multiplexer) : multiplexer := set_activations (u64 (activations m - 1)) m.
Definition is_listening (m : multiplexer) : bool := 0 <? activations m.
Definition try_dispatch (es : list epoll_fd) (time : Z) (m : multiplexer) : option (multiplexer * bool) :=
  m ← dispatch es time m; Some (m, try_enqueue m).

(** ** Socket operations that go through the multiplexer *)

Definition clear_events (p : pointer) (gracefully : bool) (m : multiplexer) : option (multiplexer * errc) :=
  cleared ← (if gracefully then cancel_events p poll_reset m else mux_clear_events p m);
  Some (fst cleared, if (snd cleared : bool) then errc_none else not_connected).
Definition migrate_to (p : pointer) (new_fd : Z) (gracefully : bool) (m : multiplexer) : option (multiplexer * errc) :=
  if gracefully then
    '(m, status) ← clear_events p false m;
    s ← heap m !! p; Some (put p (set_fd new_fd s) m, status)
  else s ← heap m !! p; Some (put p (set_fd new_fd s) m, errc_none).
(** [socket::shutdown]: the descriptor is closed after its events are cleared. *)
Definition socket_shutdown (p : pointer) (gracefully : bool) (m : multiplexer) : option (multiplexer * errc) :=
  '(m, _) ← clear_events p gracefully m;
  s ← heap m !! p;
  if fd_is_valid s then Some (put p (set_fd INVALID_SOCKET s) m, errc_none) else Some (m, bad_file_descriptor).

(** The constructor that moves [from] to the new socket [to], which leaves the callbacks where they were, too; and the assignment to [to], which closes it first. *)
Definition moved_from (r w : option callback) : socket := mk_socket (mk_ievents r w 0 0) INVALID_SOCKET.
Definition move_socket (from to : pointer) (m : multiplexer) : option multiplexer :=
  s ← heap m !! from;
  Some (put from (moved_from (read_callback (events s)) (write_callback (events s))) (put to s m)).
Definition assign_socket (to from : pointer) (m : multiplexer) : option multiplexer :=
  if decide (to = from) then Some m
  else
    '(m, _) ← socket_shutdown to false m;
    s ← heap m !! from;
    Some (put from (moved_from None None) (put to s m)).

End Multiplexer.
Arguments multiplexer H : clear implicits.

(** ** The order of the mutexes

    [cancel_events] holds the mutex of the socket when [remove_timeout] takes the one of the multiplexer;
    [dispatch_timers] holds the one of the multiplexer when it calls [cancel_events].  Threads are the
    sequences of these actions; [if_timed] is the test of [remove_timeout] on the expiration it reads before
    it locks, [stop_timer] the reset of the expiration. *)
Inductive mutex := exclusive | events_mutex (p : pointer).
#[export] Instance mutex_eq_dec : EqDecision mutex.
Proof. solve_decision. Defined.

Inductive action := acquire (l : mutex) | release (l : mutex) | stop_timer (p : pointer)
  | if_timed (p : pointer) (body : list action).
Definition remove_timeout_code (p : pointer) : list action :=
  [if_timed p [acquire exclusive; stop_timer p; release exclusive]].
Definition cancel_events_code (p : pointer) : list action :=
  [acquire (events_mutex p)] ++ remove_timeout_code p ++ [release (events_mutex p)].
Definition dispatch_timers_code (p : pointer) : list action :=
  [acquire exclusive; stop_timer p] ++ cancel_events_code p ++ [release exclusive].

Record threads := mk_threads { code : list (list action); owner : list (mutex * nat); timed : gset pointer }.
Definition owner_of (l : mutex) (t : threads) : option nat :=
  snd <$> find (fun o => bool_decide (fst o = l)) (owner t).
(** The next action of thread [i]; a mutex is not recursive. *)
Definition thread_step (i : nat) (t : threads) : option threads :=
  match code t !! i with
  | Some (acquire l :: rest) =>
      match owner_of l t with
      | None => Some (mk_threads (<[i := rest]> (code t)) ((l, i) :: owner t) (timed t))
      | Some _ => None
      end
  | Some (release l :: rest) =>
      Some (mk_threads (<[i := rest]> (code t)) (List.filter (fun o => negb (bool_decide (fst o = l))) (owner t)) (timed t))
  | Some (stop_timer p :: rest) => Some (mk_threads (<[i := rest]> (code t)) (owner t) (timed t ∖ {[p]}))
  | Some (if_timed p body :: rest) =>
      Some (mk_threads (<[i := if bool_decide (p ∈ timed t) then body ++ rest else rest]> (code t)) (owner t) (timed t))
  | _ => None
  end.
Fixpoint run_threads (order : list nat) (t : threads) : option threads :=
  match order with [] => Some t | i :: order => t ← thread_step i t; run_threads order t end.
(** Nobody can move and somebody has not finished. *)
Definition deadlocked (t : threads) : Prop :=
  (forall i, thread_step i t = None) /\ exists i c, code t !! i = Some c /\ c <> [].
