(* ===== verification/MultiplexerFacts.v ===== *)
(** * The multiplexer: timers, callbacks and mutexes

    The heap of sockets is the state a client sees; [timers] and [trackers] are indexes of it.  The invariant
    says so, every operation is given by what it does to the heap and to the spawned tasks, and the runs of
    the multiplexer keep the invariant and account for every callback. *)
From S2P Require Import Prelude Multiplexer.
From Stdlib Require Import Sorting.Sorted.
From stdpp Require Import gmap.
Open Scope Z_scope.

(** ** The indexes *)

(** A search for a free key ends within [fuel] steps above the number of keys; where there is room above it, it does not wrap. *)
Fixpoint search_free (fuel : nat) (t : gmap Z pointer) (e : Z) : Z :=
  match fuel with O => e | S f => match t !! e with Some _ => search_free f t (e + 1) | None => e end end.
Lemma free_expiration_room fuel (t : gmap Z pointer) e : 0 <= e -> e + Z.of_nat fuel < 2 ^ 63 -> free_expiration fuel t e = search_free fuel t e.
Proof.
  revert e. induction fuel as [|f IH]; intros e E L; cbn [free_expiration search_free]; [reflexivity|]. destruct (t !! e); [|reflexivity].
  rewrite wrapS_id by lia. apply IH; lia.
Qed.
Lemma search_free_ext fuel (t t' : gmap Z pointer) e :
  (forall k, e <= k -> t !! k = t' !! k) -> search_free fuel t e = search_free fuel t' e.
Proof.
  revert e. induction fuel as [|f IH]; intros e E; cbn; [reflexivity|]. rewrite <- (E e) by lia.
  destruct (t !! e); [|reflexivity]. apply IH. intros k Hk. apply E. lia.
Qed.
Lemma search_free_ge fuel (t : gmap Z pointer) e : e <= search_free fuel t e.
Proof. revert e. induction fuel as [|f IH]; intros e; cbn; [lia|]. destruct (t !! e); [|lia]. specialize (IH (e + 1)). lia. Qed.
Lemma search_free_free fuel (t : gmap Z pointer) e : (size t < fuel)%nat -> t !! search_free fuel t e = None.
Proof.
  revert t e. induction fuel as [|f IH]; intros t e L; [lia|]. cbn. destruct (t !! e) as [p|] eqn:E; [|exact E].
  rewrite (search_free_ext f t (delete e t)) by (intros k Hk; symmetry; apply lookup_delete_ne; lia).
  assert (N : (size (delete e t) < f)%nat).
  { rewrite map_size_delete, E. cbn. assert (size t <> 0%nat) by (apply (map_size_ne_0_lookup_2 t e); eauto). lia. }
  specialize (IH _ (e + 1) N). rewrite lookup_delete_ne in IH; [exact IH|].
  pose proof (search_free_ge f (delete e t) (e + 1)). lia.
Qed.

(** [timers_begin] is the least key. *)
Lemma timers_begin_spec (t : gmap Z pointer) :
  match timers_begin t with
  | None => t = ∅
  | Some (e, p) => t !! e = Some p /\ forall e' p', t !! e' = Some p' -> e <= e'
  end.
Proof.
  unfold timers_begin.
  apply (map_fold_weak_ind (fun acc (t : gmap Z pointer) => match acc with None => t = ∅
    | Some (e, p) => t !! e = Some p /\ forall e' p', t !! e' = Some p' -> e <= e' end)); [reflexivity|].
  intros k p t' [[e q]|] F IH.
  - destruct IH as [L M]. destruct (Z.ltb_spec k e).
    + split; [now rewrite lookup_insert_eq|]. intros e' p' E. destruct (decide (e' = k)) as [->|]; [lia|].
      rewrite lookup_insert_ne in E by auto. specialize (M _ _ E). lia.
    + assert (k <> e) by (intros ->; congruence). split; [now rewrite lookup_insert_ne|].
      intros e' p' E. destruct (decide (e' = k)) as [->|]; [lia|]. rewrite lookup_insert_ne in E by auto. eauto.
  - subst t'. split; [now rewrite lookup_insert_eq|]. intros e' p' E. destruct (decide (e' = k)) as [->|]; [lia|].
    rewrite lookup_insert_ne, lookup_empty in E by auto. congruence.
Qed.

(** ** The invariant *)
Section Invariant.
Context {H : Type} `{Poller H}.
Implicit Type m : multiplexer H.

Definition expiration_in (h : gmap pointer socket) (p : pointer) : Z :=
  match h !! p with Some s => expiration (events s) | None => 0 end.

(** [timers] and [trackers] hold exactly the sockets whose expiration says so. *)
Record booked m : Prop := mk_booked {
  timers_booked : forall e p, timers m !! e = Some p <-> 0 < e /\ expiration_in (heap m) p = e;
  trackers_booked : forall p, p ∈ trackers m <-> expiration_in (heap m) p < 0 }.

(** A socket that waits for nothing has no expiration; the sockets fit the memory, and no timeout is longer than 2^50 milliseconds. *)
Record tidy (h : gmap pointer socket) : Prop := mk_tidy {
  idle_zero : forall p s, h !! p = Some s -> is_awaiting_events s = false -> expiration (events s) = 0;
  heap_fits : Z.of_nat (size h) <= 2 ^ 60;
  timeouts_fit : forall p s, h !! p = Some s -> 0 <= timeout (events s) <= 2 ^ 50 }.
Definition consistent m : Prop := booked m /\ tidy (heap m).

Lemma expiration_insert h p s q :
  expiration_in (<[p := s]> h) q = if decide (p = q) then expiration (events s) else expiration_in h q.
Proof. unfold expiration_in. destruct (decide (p = q)) as [->|]; [now rewrite lookup_insert_eq|now rewrite lookup_insert_ne]. Qed.
Lemma expiration_at h p s : h !! p = Some s -> expiration_in h p = expiration (events s).
Proof. unfold expiration_in. now intros ->. Qed.

(** What does not change an expiration or an index keeps it. *)
Lemma booked_same m m' : timers m' = timers m -> trackers m' = trackers m ->
  (forall p, expiration_in (heap m') p = expiration_in (heap m) p) -> booked m -> booked m'.
Proof. intros E1 E2 E [B1 B2]. split; [intros e p|intros p]; now rewrite ?E1, ?E2, E. Qed.

Lemma booked_put m p s s' : heap m !! p = Some s -> expiration (events s') = expiration (events s) ->
  booked m -> booked (put p s' m).
Proof.
  intros L E. apply booked_same; [reflexivity..|]. intros q. cbn. rewrite expiration_insert.
  destruct (decide (p = q)) as [->|]; [|reflexivity]. now rewrite (expiration_at _ _ _ L).
Qed.

Lemma tidy_insert h p s s' : h !! p = Some s -> timeout (events s') = timeout (events s) ->
  (is_awaiting_events s' = false -> expiration (events s') = 0) -> tidy h -> tidy (<[p := s']> h).
Proof.
  intros L T I [Ih Hs Ht]. split.
  - intros q s2 Lq. destruct (decide (p = q)) as [->|N]; [rewrite lookup_insert_eq in Lq; now inversion Lq; subst|rewrite lookup_insert_ne in Lq by exact N; eauto].
  - rewrite map_size_insert, L. exact Hs.
  - intros q s2 Lq. destruct (decide (p = q)) as [->|N]; [rewrite lookup_insert_eq in Lq; inversion Lq; subst; rewrite T; eauto|rewrite lookup_insert_ne in Lq by exact N; eauto].
Qed.
Lemma tidy_fmap h h' f : (forall q, h' !! q = f <$> h !! q) -> (forall s, timeout (events (f s)) = timeout (events s)) ->
  (forall q s, h !! q = Some s -> is_awaiting_events (f s) = false -> expiration (events (f s)) = 0) -> tidy h -> tidy h'.
Proof.
  intros F T I [_ Hs Ht]. assert (E : h' = f <$> h) by (apply map_eq; intros q; now rewrite F, lookup_fmap). subst h'. split.
  - intros q s L. rewrite lookup_fmap in L. destruct (h !! q) as [s0|] eqn:L0; [|discriminate]. injection L as <-. eauto.
  - now rewrite map_size_fmap.
  - intros q s L. rewrite lookup_fmap in L. destruct (h !! q) as [s0|] eqn:L0; [|discriminate]. injection L as <-. rewrite T. eauto.
Qed.
(** There are no more timers than sockets. *)
Lemma timers_fit m : booked m -> tidy (heap m) -> Z.of_nat (size (timers m)) <= 2 ^ 60.
Proof.
  intros B T. pose proof (heap_fits _ T) as Hs. assert (Le : (size (timers m) <= size (heap m))%nat); [|lia].
  rewrite <- !length_map_to_list, <- (length_map snd (map_to_list (timers m))), <- (length_map fst (map_to_list (heap m))).
  apply submseteq_length, NoDup_submseteq.
  - apply (NoDup_fmap_2_strong snd); [|apply NoDup_map_to_list]. intros [e p] [e' p'] H1 H2 E. cbn in E. subst p'. apply elem_of_map_to_list in H1, H2.
    apply (timers_booked _ B) in H1, H2. f_equal. lia.
  - intros p ([e q] & -> & L)%list_elem_of_fmap. apply elem_of_map_to_list, (timers_booked _ B) in L. cbn. apply list_elem_of_fmap.
    unfold expiration_in in L. destruct (heap m !! q) as [s|] eqn:Eq; [|lia]. exists (q, s). split; [reflexivity|]. now apply elem_of_map_to_list.
Qed.

(** ** Timeouts *)

(** [m'] is [m] with the socket at [p] replaced, its indexes following, and the tasks [ts] spawned. *)
Record moves (p : pointer) (s' : socket) (ts : list task) m m' : Prop := mk_moves {
  moves_heap : heap m' = <[p := s']> (heap m);
  moves_booked : booked m';
  moves_spawned : spawned m' = spawned m ++ ts }.

Lemma remove_timeout_spec m p s : booked m -> heap m !! p = Some s ->
  exists m', remove_timeout p m = Some m' /\ moves p (set_expiration 0 s) [] m m' /\ handle m' = handle m /\
    (expiration (events s) <= 0 -> timers m' = timers m) /\
    (0 < expiration (events s) -> timers m !! expiration (events s) = Some p).
Proof.
  intros [B1 B2] L. pose proof (expiration_at _ _ _ L) as X. unfold remove_timeout. rewrite L. cbn.
  assert (N : expiration_in (<[p := set_expiration 0 s]> (heap m)) p = 0)
    by (rewrite expiration_insert, decide_True by reflexivity; reflexivity).
  assert (O : forall q, q <> p -> expiration_in (<[p := set_expiration 0 s]> (heap m)) q = expiration_in (heap m) q)
    by (intros q Hq; now rewrite expiration_insert, decide_False by auto).
  assert (T : 0 < expiration (events s) -> timers m !! expiration (events s) = Some p) by (intros; apply B1; auto).
  destruct (Z.ltb_spec 0 (expiration (events s))) as [P|P]; [|destruct (Z.ltb_spec (expiration (events s)) 0) as [Q|Q]].
  - eexists. split; [reflexivity|]. split; [|split; [reflexivity|split; [lia|exact T]]].
    split; [reflexivity| |cbn; now rewrite app_nil_r]. split; [intros e q|intros q]; cbn.
    + destruct (decide (e = expiration (events s))) as [->|D].
      * rewrite lookup_delete_eq. split; [discriminate|]. intros [_ E]. destruct (decide (q = p)) as [->|Hq]; [lia|].
        rewrite O in E by exact Hq. assert (timers m !! expiration (events s) = Some q) by (apply B1; auto).
        rewrite T in * by exact P. congruence.
      * rewrite lookup_delete_ne by auto. rewrite B1. destruct (decide (q = p)) as [->|Hq]; [|now rewrite O].
        rewrite N, X. split; intros [? ?]; lia.
    + rewrite B2. destruct (decide (q = p)) as [->|Hq]; [|now rewrite O]. rewrite N, X. lia.
  - eexists. split; [reflexivity|]. split; [|split; [reflexivity|split; [reflexivity|lia]]].
    split; [reflexivity| |cbn; now rewrite app_nil_r]. split; [intros e q|intros q]; cbn.
    + rewrite B1. destruct (decide (q = p)) as [->|Hq]; [|now rewrite O]. rewrite N, X. split; intros [? ?]; lia.
    + rewrite elem_of_difference, elem_of_singleton, B2. destruct (decide (q = p)) as [->|Hq].
      * rewrite N. split; [tauto|lia].
      * rewrite O by exact Hq. tauto.
  - eexists. split; [reflexivity|]. assert (Z0 : expiration (events s) = 0) by lia.
    assert (S0 : set_expiration 0 s = s) by (rewrite <- Z0; now destruct s as [[] ?]).
    rewrite S0. split; [|split; [reflexivity|split; [reflexivity|lia]]].
    split; [now rewrite insert_id|now split|now rewrite app_nil_r].
Qed.

Lemma add_timeout_spec m p s time : booked m -> tidy (heap m) -> heap m !! p = Some s -> expiration (events s) = 0 -> 0 <= time < 2 ^ 61 ->
  exists m' e, add_timeout p time m = Some m' /\ moves p (set_expiration e s) [] m m' /\ handle m' = handle m /\
    if 0 <? timeout (events s) then time + timeout (events s) * 1000 <= e /\ 0 < e else e = -1.
Proof.
  intros B Td L Z0 Ht. pose proof (timers_fit _ B Td) as Tf. pose proof (timeouts_fit _ Td _ _ L) as Tm. destruct B as [B1 B2]. pose proof (expiration_at _ _ _ L) as X. unfold add_timeout. rewrite L. cbn.
  destruct (Z.ltb_spec 0 (timeout (events s))) as [P|P].
  - set (e0 := time + timeout (events s) * 1000). set (n := S (size (timers m))).
    assert (D0 : deadline time (timeout (events s)) = e0) by (unfold deadline; rewrite (wrapS_id 64 (timeout _)), (wrapS_id 64 (_ * 1000)), (wrapS_id 64 (time + _)) by lia; reflexivity). rewrite D0.
    change (match timers m !! e0 with Some _ => free_expiration (size (timers m)) (timers m) (i64 (e0 + 1)) | None => e0 end)
      with (free_expiration n (timers m) e0). rewrite free_expiration_room by lia. set (e := search_free n (timers m) e0).
    assert (F : timers m !! e = None) by (apply search_free_free; unfold n; lia).
    assert (G : e0 <= e) by apply search_free_ge.
    exists (put p (set_expiration e s) (set_timers (<[e := p]> (timers m)) m)), e.
    split; [reflexivity|]. assert (P0 : e0 = time + timeout (events s) * 1000) by reflexivity.
    clearbody e e0.
    split; [|split; [reflexivity|lia]]. split; [reflexivity| |cbn; now rewrite app_nil_r].
    split; [intros k q|intros q]; cbn; rewrite expiration_insert.
    + destruct (decide (k = e)) as [->|D].
      * rewrite lookup_insert_eq. destruct (decide (p = q)) as [->|Hq]; cbn; [split; [intros _; split; [lia|reflexivity]|reflexivity]|].
        split; [congruence|]. intros [_ E]. assert (timers m !! e = Some q) by (apply B1; split; [lia|exact E]). congruence.
      * rewrite lookup_insert_ne by auto. rewrite B1. destruct (decide (p = q)) as [->|Hq]; cbn; [|reflexivity].
        rewrite X. split; intros [? ?]; lia.
    + rewrite B2. destruct (decide (p = q)) as [->|Hq]; cbn; [lia|reflexivity].
  - exists (put p (set_expiration (-1) s) (set_trackers ({[p]} ∪ trackers m) m)), (-1).
    split; [reflexivity|]. split; [|split; reflexivity].
    split; [reflexivity| |cbn; now rewrite app_nil_r]. split; [intros k q|intros q]; cbn; rewrite expiration_insert.
    + rewrite B1. destruct (decide (p = q)) as [->|Hq]; cbn; [|reflexivity]. rewrite X. split; intros [? ?]; lia.
    + rewrite elem_of_union, elem_of_singleton, B2. destruct (decide (p = q)) as [->|Hq]; cbn; [split; [lia|tauto]|].
      split; [intros [?|?]; [congruence|assumption]|tauto].
Qed.

(** ** Operations *)
Lemma set_handle_same m : set_handle (handle m) m = m.
Proof. now destruct m. Qed.
Lemma booked_handle h m : booked m -> booked (set_handle h m).
Proof. now apply booked_same. Qed.
Lemma booked_spawn t m : booked m -> booked (cospawn t m).
Proof. now apply booked_same. Qed.
Lemma handle_remove_eq p s m : exists h b, handle_remove p s m = (set_handle h m, b).
Proof. unfold handle_remove. destruct (poller_remove _ _ _) as [h b]. eauto. Qed.
Lemma handle_update_eq p s r w m : exists h b, handle_update p s r w m = (set_handle h m, b).
Proof. unfold handle_update. destruct (poller_update _ _ _ _ _) as [h b]. eauto. Qed.
Lemma handle_add_eq p s r w m : exists h b, handle_add p s r w m = (set_handle h m, b).
Proof. unfold handle_add. destruct (poller_add _ _ _ _ _) as [h b]. eauto. Qed.

Lemma remove_if_valid p s m : exists h b, (if fd_is_valid s then handle_remove p s m else (m, true)) = (set_handle h m, b).
Proof.
  destruct (fd_is_valid s); [apply handle_remove_eq|]. exists (handle m), true. now rewrite set_handle_same.
Qed.
Lemma emptied s : is_awaiting_events s = false -> set_callbacks None None s = s.
Proof. now destruct s as [[[?|] [?|] ? ?] ?]. Qed.

Lemma moves_spawn p s ts t m m' : moves p s ts m m' -> moves p s (ts ++ [t]) m (cospawn t m').
Proof. intros [Hh Hb Hs]. split; [exact Hh|now apply booked_spawn|]. cbn. now rewrite Hs, app_assoc. Qed.

(** A step from a state where the socket at [p] has been replaced. *)
Lemma moves_from p s s' ts h m m' : heap m !! p = Some s -> moves p s' ts (set_handle h (put p s m)) m' -> moves p s' ts m m'.
Proof. intros L [Hh Hb Hs]. split; [|exact Hb|exact Hs]. rewrite Hh. cbn. apply insert_insert_eq. Qed.

Lemma moves_put p s s1 s' ts h m m' : moves p s' ts (set_handle h (put p s1 m)) m' -> heap m !! p = Some s -> moves p s' ts m m'.
Proof. intros [Hh Hb Hs] L. split; [|exact Hb|exact Hs]. rewrite Hh. cbn. apply insert_insert_eq. Qed.

(** The socket after its callbacks were taken, and what they are called with. *)
Definition quiet (s : socket) : socket :=
  if is_awaiting_events s then set_expiration 0 (set_callbacks None None s) else s.
Definition fired (event : socket_poll) (s : socket) : list task :=
  if is_done event || negb (is_awaiting_events s) then []
  else [calls event [write_callback (events s); read_callback (events s)]].

Lemma cancel_spec m p s event : booked m -> heap m !! p = Some s ->
  exists m' b, cancel_events p event m = Some (m', b) /\ moves p (quiet s) (fired event s) m m' /\
    (expiration (events s) <= 0 -> timers m' = timers m).
Proof.
  intros B L. unfold cancel_events. rewrite L. cbn.
  change (is_some (read_callback (events s)) || is_some (write_callback (events s))) with (is_awaiting_events s).
  set (s1 := set_callbacks None None s). unfold quiet, fired. destruct (is_awaiting_events s) eqn:A; cbn [andb negb].
  - destruct (remove_if_valid p s (put p s1 m)) as (h & b & ->). cbn.
    destruct (remove_timeout_spec (set_handle h (put p s1 m)) p s1) as (m' & -> & M & Hh & Ht & _).
    { apply booked_handle. now apply (booked_put _ _ s). }
    { cbn. apply lookup_insert_eq. }
    cbn. rewrite orb_false_r. apply (moves_put p s) in M; [|exact L]. destruct (is_done event).
    + exists m', b. split; [reflexivity|]. split; [exact M|exact Ht].
    + exists (cospawn (calls event [write_callback (events s); read_callback (events s)]) m'), b.
      split; [reflexivity|]. split; [exact (moves_spawn _ _ [] _ _ _ M)|exact Ht].
  - cbn. rewrite orb_true_r. assert (S1 : s1 = s) by now apply emptied.
    exists (put p s1 m), true. rewrite S1. split; [reflexivity|]. split; [|reflexivity].
    split; [reflexivity|now apply (booked_put _ _ s)|now rewrite app_nil_r].
Qed.

(** [when_readable] and [when_writeable]: the socket after a callback was registered. *)
Definition with_read (c : callback) (s : socket) : socket := set_callbacks (Some c) (write_callback (events s)) s.
Definition with_write (c : callback) (s : socket) : socket := set_callbacks (read_callback (events s)) (Some c) s.
Definition cancelled (previous : option callback) : list task :=
  match previous with Some c => [[(c, poll_cancel)]] | None => [] end.
(** A first wait is given an expiration. *)
Definition waits (now : Z) (s : socket) (e : Z) : Prop :=
  if is_awaiting_events s then e = expiration (events s)
  else if 0 <? timeout (events s) then now + timeout (events s) * 1000 <= e /\ 0 < e else e = -1.

(** Both registrations end the same way. *)
Lemma register_spec m p s s1 previous h now (b : bool) : consistent m -> heap m !! p = Some s -> 0 <= now < 2 ^ 61 ->
  expiration (events s1) = expiration (events s) -> timeout (events s1) = timeout (events s) ->
  exists m' e,
    (m2 ← (if negb (is_awaiting_events s) then add_timeout p now (set_handle h (put p s1 m))
           else Some (set_handle h (put p s1 m)));
     Some (match previous with Some c => cospawn [(c, poll_cancel)] m2 | None => m2 end, b)) = Some (m', b) /\
    moves p (set_expiration e s1) (cancelled previous) m m' /\ waits now s e /\ handle m' = h.
Proof.
  intros [B I] L Hn E T. unfold waits.
  assert (B1 : booked (set_handle h (put p s1 m))) by (apply booked_handle; now apply (booked_put _ _ s)).
  assert (L1 : heap (set_handle h (put p s1 m)) !! p = Some s1) by (cbn; apply lookup_insert_eq).
  assert (F : exists m2 e, (if negb (is_awaiting_events s) then add_timeout p now (set_handle h (put p s1 m))
      else Some (set_handle h (put p s1 m))) = Some m2 /\ moves p (set_expiration e s1) [] m m2 /\ handle m2 = h /\
      if is_awaiting_events s then e = expiration (events s)
      else if 0 <? timeout (events s) then now + timeout (events s) * 1000 <= e /\ 0 < e else e = -1).
  { destruct (is_awaiting_events s) eqn:A; cbn [negb].
    - exists (set_handle h (put p s1 m)), (expiration (events s)). split; [reflexivity|]. split; [|split; reflexivity].
      split; [|exact B1|cbn; now rewrite app_nil_r]. cbn. rewrite <- E. f_equal. now destruct s1 as [[] ?].
    - destruct (add_timeout_spec _ p s1 now B1 (tidy_insert _ _ _ _ L T (fun _ => eq_trans E (idle_zero _ I _ _ L A)) I) L1) as (m2 & e & -> & M & Hh & W); [rewrite E; apply (idle_zero _ I _ _ L A)|exact Hn|].
      rewrite T in W. exists m2, e. split; [reflexivity|]. split; [exact (moves_put _ s _ _ _ _ _ _ M L)|]. split; [exact Hh|exact W]. }
  destruct F as (m2 & e & -> & M & Hh & W). cbn. destruct previous as [c|]; cbn.
  - exists (cospawn [(c, poll_cancel)] m2), e. split; [reflexivity|]. split; [exact (moves_spawn _ _ [] _ _ _ M)|]. split; [exact W|exact Hh].
  - exists m2, e. split; [reflexivity|]. split; [exact M|]. split; [exact W|exact Hh].
Qed.

Lemma when_readable_spec m p s c now : consistent m -> heap m !! p = Some s -> 0 <= now < 2 ^ 61 ->
  exists m' e b, when_readable p c now m = Some (m', b) /\
    moves p (set_expiration e (with_read c s)) (cancelled (read_callback (events s))) m m' /\ waits now s e /\
    (handle m', b) = if is_awaiting_readable s then poller_update (handle m) (fd s) true (is_awaiting_writeable s) p
                     else poller_add (handle m) (fd s) true (is_awaiting_writeable s) p.
Proof.
  intros C L Hn. unfold when_readable. rewrite L. cbn. fold (with_read c s).
  change (is_some (read_callback (events s))) with (is_awaiting_readable s).
  replace (negb (is_awaiting_readable s) && negb (is_awaiting_writeable s)) with (negb (is_awaiting_events s))
    by (unfold is_awaiting_events; now rewrite negb_orb).
  destruct (is_awaiting_readable s); unfold handle_update, handle_add; cbn [handle put set_heap];
    (match goal with |- context [let (_, _) := let (_, _) := ?x in _ in _] => destruct x as [h b] end);
    destruct (register_spec m p s (with_read c s) (read_callback (events s)) h now b C L Hn eq_refl eq_refl) as (m' & e & E & M & W & Hh);
    exists m', e, b; (split; [exact E|]); rewrite Hh; auto.
Qed.
Lemma when_writeable_spec m p s c now : consistent m -> heap m !! p = Some s -> 0 <= now < 2 ^ 61 ->
  exists m' e b, when_writeable p c now m = Some (m', b) /\
    moves p (set_expiration e (with_write c s)) (cancelled (write_callback (events s))) m m' /\ waits now s e /\
    (handle m', b) = if is_awaiting_writeable s then poller_update (handle m) (fd s) (is_awaiting_readable s) true p
                     else poller_add (handle m) (fd s) (is_awaiting_readable s) true p.
Proof.
  intros C L Hn. unfold when_writeable. rewrite L. cbn. fold (with_write c s).
  change (is_some (write_callback (events s))) with (is_awaiting_writeable s).
  replace (negb (is_awaiting_writeable s) && negb (is_awaiting_readable s)) with (negb (is_awaiting_events s))
    by (unfold is_awaiting_events; rewrite negb_orb; apply andb_comm).
  destruct (is_awaiting_writeable s); unfold handle_update, handle_add; cbn [handle put set_heap];
    (match goal with |- context [let (_, _) := let (_, _) := ?x in _ in _] => destruct x as [h b] end);
    destruct (register_spec m p s (with_write c s) (write_callback (events s)) h now b C L Hn eq_refl eq_refl) as (m' & e & E & M & W & Hh);
    exists m', e, b; (split; [exact E|]); rewrite Hh; auto.
Qed.

(** ** Dispatching *)
Lemma moves_consistent p s s' ts m m' : consistent m -> heap m !! p = Some s -> timeout (events s') = timeout (events s) -> moves p s' ts m m' ->
  (is_awaiting_events s' = false -> expiration (events s') = 0) -> consistent m'.
Proof. intros [B I] L T [Hh Hb Hs] E. split; [exact Hb|]. rewrite Hh. now apply (tidy_insert _ _ s). Qed.

(** The socket after the poller reported it, and what was called. *)
Definition ready (r w : bool) (s : socket) : socket :=
  set_callbacks (if r then None else read_callback (events s)) (if w then None else write_callback (events s)) s.
Definition finished (r w : bool) (s : socket) : list task :=
  if r && w then [calls poll_finish [write_callback (events s); read_callback (events s)]]
  else if r && is_awaiting_readable s then [calls poll_finish [read_callback (events s)]]
  else if w && is_awaiting_writeable s then [calls poll_finish [write_callback (events s)]]
  else [].

(** The timeout is renewed while one of the callbacks stays, and removed with the last one. *)
Lemma renew_spec p s r w time m : consistent m -> heap m !! p = Some s -> 0 <= time < 2 ^ 61 ->
  exists m' e,
    (if is_awaiting_events (ready r w s) then
       update_timeout p time
         (if negb (Bool.eqb (is_awaiting_readable s) (negb r && is_awaiting_readable s)) ||
             negb (Bool.eqb (is_awaiting_writeable s) (negb w && is_awaiting_writeable s))
          then fst (handle_update p s (negb r && is_awaiting_readable s) (negb w && is_awaiting_writeable s) m) else m)
     else if is_awaiting_events s then remove_timeout p (fst (handle_remove p s m)) else Some m) = Some m' /\
    moves p (set_expiration e s) [] m m' /\ (is_awaiting_events (ready r w s) = false -> e = 0) /\
    (is_awaiting_events (ready r w s) = true -> e <> 0).
Proof.
  intros [B I] L Ht. set (still := is_awaiting_events (ready r w s)). destruct still eqn:E.
  - set (m1 := if _ || _ then _ else m). assert (F : exists h, m1 = set_handle h m).
    { unfold m1. destruct (_ || _); [|exists (handle m); symmetry; apply set_handle_same].
      destruct (handle_update_eq p s (negb r && is_awaiting_readable s) (negb w && is_awaiting_writeable s) m) as (h & b & ->). now exists h. }
    destruct F as [h ->]. unfold update_timeout.
    destruct (remove_timeout_spec (set_handle h m) p s (booked_handle _ _ B) L) as (m2 & -> & M & _). cbn.
    destruct (add_timeout_spec m2 p (set_expiration 0 s) time) as (m3 & e & -> & M3 & _ & W); [apply M|rewrite (moves_heap _ _ _ _ _ M); now apply (tidy_insert _ _ s)| |reflexivity|exact Ht|].
    { rewrite (moves_heap _ _ _ _ _ M). apply lookup_insert_eq. }
    exists m3, e. split; [reflexivity|]. split.
    + split; [|apply M3|rewrite (moves_spawned _ _ _ _ _ M3), (moves_spawned _ _ _ _ _ M); cbn; now rewrite !app_nil_r].
      rewrite (moves_heap _ _ _ _ _ M3), (moves_heap _ _ _ _ _ M). cbn. apply insert_insert_eq.
    + split; [discriminate|]. intros _. destruct (0 <? timeout (events (set_expiration 0 s))); lia.
  - destruct (is_awaiting_events s) eqn:A.
    + destruct (handle_remove_eq p s m) as (h & b & ->). cbn [fst].
      destruct (remove_timeout_spec (set_handle h m) p s (booked_handle _ _ B) L) as (m2 & -> & [M1 M2 M3] & _).
      exists m2, 0. split; [reflexivity|]. split; [now split|]. split; [reflexivity|discriminate].
    + exists m, 0. split; [reflexivity|]. split; [|split; [reflexivity|discriminate]].
      split; [|exact B|now rewrite app_nil_r]. rewrite <- (idle_zero _ I _ _ L A). rewrite insert_id; [reflexivity|].
      rewrite L. f_equal. now destruct s as [[] ?].
Qed.

Lemma ready_awaiting r w s :
  is_awaiting_events (ready r w s) = (negb r && is_awaiting_readable s) || (negb w && is_awaiting_writeable s).
Proof. unfold is_awaiting_events, is_awaiting_readable, is_awaiting_writeable. now destruct r, w. Qed.

Lemma moves_again p s s' m m' : moves p s [] m m' -> expiration (events s') = expiration (events s) ->
  moves p s' [] m (put p s' m').
Proof.
  intros [Mh Mb Ms] E. split; [|apply (booked_put m' p s); [rewrite Mh; apply lookup_insert_eq|exact E|exact Mb]|exact Ms].
  cbn. rewrite Mh. apply insert_insert_eq.
Qed.

Lemma dispatch_events_spec p s r w time m : consistent m -> heap m !! p = Some s -> 0 <= time < 2 ^ 61 -> r || w = true ->
  exists m' e, dispatch_events (mk_epoll_fd p r w false) time m = Some (m', is_awaiting_events (ready r w s)) /\
    moves p (set_expiration e (ready r w s)) (finished r w s) m m' /\
    (is_awaiting_events (ready r w s) = false -> e = 0) /\ (is_awaiting_events (ready r w s) = true -> e <> 0).
Proof.
  intros C L Ht RW. destruct (renew_spec p s r w time m C L Ht) as (m1 & e & E & M & Z1 & Z2).
  unfold dispatch_events. cbn [closeable readable writeable base]. rewrite <- negb_orb, RW, L. cbn [negb mbind option_bind].
  rewrite <- ready_awaiting. change (is_awaiting_readable s || is_awaiting_writeable s) with (is_awaiting_events s).
  rewrite E. cbn [mbind option_bind]. rewrite (moves_heap _ _ _ _ _ M), lookup_insert_eq. cbn [mbind option_bind].
  pose proof (fun s' => moves_again p (set_expiration e s) s' m m1 M) as G.
  unfold finished. destruct r, w; cbn [andb]; try discriminate.
  - eexists _, e. split; [reflexivity|]. split; [|split; assumption].
    apply (moves_spawn _ _ []). now apply G.
  - destruct (is_awaiting_readable s) eqn:A; cbn [andb].
    + eexists _, e. split; [reflexivity|]. split; [|split; assumption]. apply (moves_spawn _ _ []). now apply G.
    + eexists _, e. split; [reflexivity|]. split; [|split; assumption].
      replace (ready true false s) with s; [exact M|]. unfold is_awaiting_readable in A. now destruct s as [[[?|] ? ? ?] ?].
  - destruct (is_awaiting_writeable s) eqn:A; cbn [andb].
    + eexists _, e. split; [reflexivity|]. split; [|split; assumption]. apply (moves_spawn _ _ []). now apply G.
    + eexists _, e. split; [reflexivity|]. split; [|split; assumption].
      replace (ready false true s) with s; [exact M|]. unfold is_awaiting_writeable in A. now destruct s as [[? [?|] ? ?] ?].
Qed.

(** ** Expiration *)

(** With no expiration left, cancelling does not look at the indexes. *)
Lemma cancel_at_zero m p s event : heap m !! p = Some s -> expiration (events s) = 0 ->
  exists m' b, cancel_events p event m = Some (m', b) /\ heap m' = <[p := quiet s]> (heap m) /\
    timers m' = timers m /\ trackers m' = trackers m /\ spawned m' = spawned m ++ fired event s.
Proof.
  intros L Z0. unfold cancel_events. rewrite L. cbn.
  change (is_some (read_callback (events s)) || is_some (write_callback (events s))) with (is_awaiting_events s).
  set (s1 := set_callbacks None None s). unfold quiet, fired. destruct (is_awaiting_events s) eqn:A; cbn [andb negb].
  - destruct (remove_if_valid p s (put p s1 m)) as (h & b & ->). cbn. unfold remove_timeout. cbn. rewrite lookup_insert_eq. cbn. rewrite Z0. cbn.
    rewrite orb_false_r. fold s1. assert (S1 : set_expiration 0 s1 = s1) by (rewrite <- Z0; now destruct s as [[] ?]).
    rewrite S1. destruct (is_done event); eexists _, b; (split; [reflexivity|]); cbn;
      (split; [reflexivity|split; [reflexivity|split; [reflexivity|]]]); now rewrite ?app_nil_r.
  - cbn. rewrite orb_true_r. assert (S1 : s1 = s) by now apply emptied.
    exists (put p s1 m), true. rewrite S1. split; [reflexivity|]. cbn. now rewrite app_nil_r.
Qed.

(** A socket whose time has come: it is told so unless its timeout was taken away. *)
Definition expired (s : socket) : socket :=
  if 0 <? timeout (events s) then quiet (set_expiration 0 s) else set_expiration 0 s.
Definition timed_out_calls (s : socket) : list task := if 0 <? timeout (events s) then fired poll_timeout s else [].
Definition reset_socket (s : socket) : socket := quiet (set_expiration 0 s).

(** What visiting one socket does. *)
Definition visits (f : pointer -> multiplexer H -> option (multiplexer H)) (g : socket -> socket)
    (k : socket -> list task) : Prop :=
  forall m p,
    match heap m !! p with
    | None => f p m = None
    | Some s => exists m', f p m = Some m' /\ heap m' = <[p := g s]> (heap m) /\
        timers m' = timers m /\ trackers m' = trackers m /\ spawned m' = spawned m ++ k s
    end.

Lemma expire_visits : visits expire expired timed_out_calls.
Proof.
  intros m p. unfold expire, expired, timed_out_calls. destruct (heap m !! p) as [s|] eqn:L; cbn; [|reflexivity].
  destruct (0 <? timeout (events s)).
  - destruct (cancel_at_zero (put p (set_expiration 0 s) m) p (set_expiration 0 s) poll_timeout) as (m' & b & -> & E & T & K & S);
      [apply lookup_insert_eq|reflexivity|]. cbn. exists m'. split; [reflexivity|]. rewrite E. cbn. now rewrite insert_insert_eq.
  - eexists. split; [reflexivity|]. cbn. now rewrite app_nil_r.
Qed.
Lemma reset_visits : visits reset_tracker reset_socket (fired poll_reset).
Proof.
  intros m p. unfold reset_tracker, reset_socket. destruct (heap m !! p) as [s|] eqn:L; cbn; [|reflexivity].
  destruct (cancel_at_zero (put p (set_expiration 0 s) m) p (set_expiration 0 s) poll_reset) as (m' & b & -> & E & T & K & S);
    [apply lookup_insert_eq|reflexivity|]. cbn. exists m'. split; [reflexivity|]. rewrite E. cbn. now rewrite insert_insert_eq.
Qed.

Definition tasks_of (h : gmap pointer socket) (k : socket -> list task) (ps : list pointer) : list task :=
  concat (map (fun p => match h !! p with Some s => k s | None => [] end) ps).
Lemma tasks_of_insert h k ps p s : p ∉ ps -> tasks_of (<[p := s]> h) k ps = tasks_of h k ps.
Proof.
  intros N. unfold tasks_of. f_equal. apply map_ext_in. intros q I. rewrite lookup_insert_ne; [reflexivity|].
  intros ->. apply N. now apply list_elem_of_In.
Qed.

Lemma visit_spec f g k : visits f g k -> forall ps m, NoDup ps ->
  (forall p, p ∈ ps -> exists s, heap m !! p = Some s) ->
  exists m', visit f ps m = Some m' /\
    (forall q, heap m' !! q = (if decide (q ∈ ps) then g else id) <$> heap m !! q) /\
    timers m' = timers m /\ trackers m' = trackers m /\ spawned m' = spawned m ++ tasks_of (heap m) k ps.
Proof.
  intros F ps. induction ps as [|p ps IH]; intros m N A.
  - exists m. cbn. split; [reflexivity|]. split; [|now rewrite app_nil_r]. intros q.
    destruct (decide (q ∈ [])) as [I|]; [now apply elem_of_nil in I|now destruct (heap m !! q)].
  - apply NoDup_cons in N as [Np N]. destruct (A p) as [s L]; [apply list_elem_of_here|].
    pose proof (F m p) as Fp. rewrite L in Fp. destruct Fp as (m1 & E & H1 & T1 & K1 & S1). cbn. rewrite E. cbn.
    destruct (IH m1 N) as (m' & E' & H' & T' & K' & S').
    { intros q I. rewrite H1. destruct (decide (p = q)) as [->|]; [rewrite lookup_insert_eq; eauto|].
      rewrite lookup_insert_ne by assumption. apply A. now apply list_elem_of_further. }
    exists m'. split; [exact E'|]. split; [|split; [congruence|split; [congruence|]]].
    + intros q. rewrite H', H1. destruct (decide (p = q)) as [->|D].
      * rewrite lookup_insert_eq, L, decide_False by exact Np. rewrite decide_True by apply list_elem_of_here. reflexivity.
      * rewrite lookup_insert_ne by exact D. destruct (decide (q ∈ ps)) as [I|I].
        -- rewrite decide_True by now apply list_elem_of_further. reflexivity.
        -- rewrite decide_False; [reflexivity|]. intros I'. apply elem_of_cons in I' as [->|]; contradiction.
    + rewrite S', S1, H1, tasks_of_insert by exact Np. unfold tasks_of. cbn. rewrite L. now rewrite app_assoc.
Qed.

Lemma quiet_zero s : expiration (events (quiet (set_expiration 0 s))) = 0.
Proof. unfold quiet. now destruct (is_awaiting_events _). Qed.
Lemma quiet_timeout s : timeout (events (quiet s)) = timeout (events s).
Proof. unfold quiet. now destruct (is_awaiting_events s). Qed.
Lemma expired_timeout s : timeout (events (expired s)) = timeout (events s).
Proof. unfold expired. destruct (0 <? timeout (events s)); [exact (quiet_timeout (set_expiration 0 s))|reflexivity]. Qed.
Lemma expired_zero s : expiration (events (expired s)) = 0.
Proof. unfold expired. destruct (0 <? timeout (events s)); [apply quiet_zero|reflexivity]. Qed.
Lemma quiet_awaits s : is_awaiting_events (quiet s) = false.
Proof. unfold quiet. now destruct (is_awaiting_events s) eqn:A. Qed.

Lemma expiration_live h p : expiration_in h p <> 0 -> exists s, h !! p = Some s /\ expiration (events s) = expiration_in h p.
Proof. unfold expiration_in. destruct (h !! p) as [s|]; [eauto|congruence]. Qed.

(** Taking the least timer. *)
Lemma booked_expire m e p s m1 : booked m -> timers m !! e = Some p -> heap m !! p = Some s ->
  heap m1 = <[p := expired s]> (heap m) -> timers m1 = timers m -> trackers m1 = trackers m ->
  booked (set_timers (delete e (timers m1)) m1).
Proof.
  intros [B1 B2] Le Lp Hh Ht Hk. apply B1 in Le as [Pe Ee]. pose proof (expiration_at _ _ _ Lp) as X.
  split; [intros k q|intros q]; cbn; rewrite ?Ht, ?Hk, Hh, expiration_insert, ?expired_zero.
  - destruct (decide (k = e)) as [->|D].
    + rewrite lookup_delete_eq. split; [discriminate|]. intros [_ E]. destruct (decide (p = q)) as [->|Hq]; [lia|].
      assert (A1 : timers m !! e = Some q) by (apply B1; auto). assert (A2 : timers m !! e = Some p) by (apply B1; auto). congruence.
    + rewrite lookup_delete_ne by auto. rewrite B1. destruct (decide (p = q)) as [->|Hq]; [|reflexivity].
      split; intros [? ?]; lia.
  - rewrite B2. destruct (decide (p = q)) as [->|Hq]; [lia|reflexivity].
Qed.

Definition due (time : Z) (s : socket) : bool := (0 <? expiration (events s)) && (expiration (events s) <=? time).
Definition after_timers (time : Z) (s : socket) : socket := if due time s then expired s else s.
Definition by_expiration (h : gmap pointer socket) (p q : pointer) : Prop := expiration_in h p < expiration_in h q.

Lemma fmap_same (h h' : gmap pointer socket) f : (forall q s, h !! q = Some s -> f s = s) -> h' = h ->
  forall q, h' !! q = f <$> h !! q.
Proof. intros F -> q. destruct (h !! q) as [s|] eqn:L; [cbn; now rewrite (F q s L)|reflexivity]. Qed.

Lemma not_due time m : booked m -> (forall e p, timers m !! e = Some p -> time < e) ->
  (forall p, ~ 0 < expiration_in (heap m) p <= time) /\ forall q, heap m !! q = after_timers time <$> heap m !! q.
Proof.
  intros [B1 B2] L. assert (N : forall p, ~ 0 < expiration_in (heap m) p <= time).
  { intros p [P Q]. assert (A : timers m !! expiration_in (heap m) p = Some p) by (apply B1; auto). apply L in A. lia. }
  split; [exact N|]. apply fmap_same; [|reflexivity]. intros q s Lq. unfold after_timers, due.
  specialize (N q). rewrite (expiration_at _ _ _ Lq) in N.
  destruct (Z.ltb_spec 0 (expiration (events s))), (Z.leb_spec (expiration (events s)) time); cbn; try reflexivity. exfalso. lia.
Qed.

(** [m'] is [m] after the sockets [ps], those whose time has come, were told in the order of their expirations. *)
Record timers_done (time : Z) m m' (ps : list pointer) : Prop := mk_timers_done {
  done_booked : booked m';
  done_heap : forall q, heap m' !! q = after_timers time <$> heap m !! q;
  done_trackers : trackers m' = trackers m;
  done_spawned : spawned m' = spawned m ++ tasks_of (heap m) timed_out_calls ps;
  done_once : NoDup ps;
  done_due : forall p, p ∈ ps <-> 0 < expiration_in (heap m) p <= time;
  done_order : StronglySorted (by_expiration (heap m)) ps }.

Lemma sorted_change {A} (R R' : A -> A -> Prop) l :
  (forall x y, x ∈ l -> y ∈ l -> R x y -> R' x y) -> StronglySorted R l -> StronglySorted R' l.
Proof.
  induction l as [|x l IH]; intros E S; [constructor|]. inversion_clear S as [|? ? S' F]. constructor.
  - apply IH; [|exact S']. intros y z Iy Iz. apply E; now apply list_elem_of_further.
  - rewrite List.Forall_forall in *. intros y Iy. apply E; [apply list_elem_of_here|now apply list_elem_of_further, list_elem_of_In|auto].
Qed.

(** One timer, and then the others. *)
Lemma timers_done_cons time m e p s m1 m' ps : booked m -> timers m !! e = Some p ->
  (forall e' p', timers m !! e' = Some p' -> e <= e') -> e <= time -> heap m !! p = Some s ->
  heap m1 = <[p := expired s]> (heap m) -> trackers m1 = trackers m -> spawned m1 = spawned m ++ timed_out_calls s ->
  timers_done time (set_timers (delete e (timers m1)) m1) m' ps -> timers_done time m m' (p :: ps).
Proof.
  intros B Le Min Due Lp H1 K1 S1 [B' H' K' S' N' I' O']. cbn in H', K', S', I', O'.
  pose proof Le as Le'. apply (timers_booked _ B) in Le' as [Pe Ee]. pose proof (expiration_at _ _ _ Lp) as Es.
  assert (E2 : forall q, expiration_in (heap m1) q = if decide (p = q) then 0 else expiration_in (heap m) q)
    by (intros q; now rewrite H1, expiration_insert, expired_zero).
  assert (Np : p ∉ ps) by (rewrite I', E2, decide_True by reflexivity; lia).
  split; [exact B'|..].
  + intros q. rewrite H'. rewrite H1. destruct (decide (p = q)) as [<-|D].
    * rewrite lookup_insert_eq, Lp. cbn. f_equal. unfold after_timers, due. rewrite expired_zero. cbn.
      replace (0 <? expiration (events s)) with true by lia. replace (expiration (events s) <=? time) with true by lia. reflexivity.
    * now rewrite lookup_insert_ne by exact D.
  + rewrite K'. exact K1.
  + rewrite S'. rewrite S1, H1, tasks_of_insert by exact Np. unfold tasks_of. cbn. rewrite Lp. now rewrite app_assoc.
  + now constructor.
  + intros q. rewrite elem_of_cons, I', E2. destruct (decide (p = q)) as [<-|D]; [split; [lia|tauto]|].
    split; [intros [?|?]; [congruence|assumption]|tauto].
  + constructor.
    * eapply sorted_change; [|exact O']. intros q r Iq Ir. unfold by_expiration. rewrite !E2.
      rewrite !decide_False by (intros ->; contradiction). tauto.
    * apply List.Forall_forall. intros q Iq. apply list_elem_of_In, I' in Iq. rewrite E2 in Iq. unfold by_expiration.
      destruct (decide (p = q)); [lia|]. assert (A : timers m !! expiration_in (heap m) q = Some q) by (apply B; split; [lia|reflexivity]).
      assert (e <> expiration_in (heap m) q) by (intros A'; rewrite <- A' in A; congruence). apply Min in A. lia.
Qed.

Lemma timers_loop_spec time fuel m : booked m -> (size (timers m) <= fuel)%nat ->
  exists m' ps, timers_loop fuel time m = Some m' /\ timers_done time m m' ps.
Proof.
  assert (Stop : forall m, booked m -> (forall e p, timers m !! e = Some p -> time < e) ->
    exists m' ps, Some m = Some m' /\ timers_done time m m' ps).
  { clear m. intros m B L. destruct (not_due time m B L) as [N F]. exists m, []. split; [reflexivity|].
    split; [exact B|exact F|reflexivity|cbn; now rewrite app_nil_r|constructor| |constructor]. intros p. split; [intros I; now apply elem_of_nil in I|intros I; now destruct (N p)]. }
  revert m. induction fuel as [|f IH]; intros m B Hs.
  - apply Stop; [exact B|]. intros e p L. assert (T : timers m = ∅) by (apply map_size_empty_iff; lia).
    rewrite T, lookup_empty in L. discriminate.
  - cbn. pose proof (timers_begin_spec (timers m)) as Bg. destruct (timers_begin (timers m)) as [[e p]|].
    2: { apply Stop; [exact B|]. intros e p L. rewrite Bg, lookup_empty in L. discriminate. }
    destruct Bg as [Le Min]. destruct (Z.ltb_spec time e) as [Late|Due].
    { apply Stop; [exact B|]. intros e' p' L. apply Min in L. lia. }
    pose proof Le as Le'. apply (timers_booked _ B) in Le' as [Pe Ee].
    destruct (expiration_live (heap m) p) as (s & Lp & Es); [lia|].
    pose proof (expire_visits m p) as V. rewrite Lp in V. destruct V as (m1 & -> & H1 & T1 & K1 & S1). cbn.
    set (m2 := set_timers (delete e (timers m1)) m1).
    assert (B2 : booked m2) by (eapply booked_expire; eauto).
    destruct (IH m2 B2) as (m' & ps & E' & D').
    { unfold m2. cbn. rewrite T1, map_size_delete, Le. cbn. lia. }
    exists m', (p :: ps). split; [exact E'|]. eapply timers_done_cons; eauto.
Qed.
End Invariant.
