(* ===== verification/MultiplexerSpec.v ===== *)
(** * Runs of the multiplexer

    The operations a program makes on the multiplexer and its sockets, as a step relation; what holds after
    any run of them; and the two ways in which the code lets a wait go astray. *)
From S2P Require Import Prelude Multiplexer MultiplexerFacts.
From Stdlib Require Import Sorting.Sorted Sorting.Permutation.
From stdpp Require Import gmap.
Open Scope Z_scope.

(** ** Counting callbacks *)

Definition waiting (s : socket) : list callback :=
  option_list (read_callback (events s)) ++ option_list (write_callback (events s)).
Definition pending (h : gmap pointer socket) : list callback := concat (map (fun kv => waiting (snd kv)) (map_to_list h)).
Definition called (ts : list task) : list callback := map fst (concat ts).

Lemma pending_delete h p s : h !! p = Some s -> pending h ≡ₚ waiting s ++ pending (delete p h).
Proof.
  intros L. unfold pending. rewrite <- (map_to_list_delete h p s L). reflexivity.
Qed.
Lemma pending_insert h p s s' : h !! p = Some s -> pending (<[p := s']> h) ≡ₚ waiting s' ++ pending (delete p h).
Proof. intros L. rewrite (pending_delete (<[p := s']> h) p s') by apply lookup_insert_eq. now rewrite delete_insert_eq. Qed.
Lemma pending_new h p s : h !! p = None -> pending (<[p := s]> h) ≡ₚ waiting s ++ pending h.
Proof. intros L. rewrite (pending_delete (<[p := s]> h) p s) by apply lookup_insert_eq. now rewrite delete_insert_id. Qed.
Lemma called_app ts ts' : called (ts ++ ts') = called ts ++ called ts'.
Proof. unfold called. now rewrite concat_app, map_app. Qed.
Lemma called_calls event cs : called [calls event cs] = concat (map option_list cs).
Proof. unfold called. cbn. rewrite app_nil_r. induction cs as [|[c|] cs IH]; cbn; [reflexivity|now rewrite <- IH|exact IH]. Qed.

(** Each operation on a socket moves its callbacks from waiting to called. *)
Ltac by_callbacks s := destruct s as [[[?|] [?|] ? ?] ?]; cbn; solve_Permutation.

Lemma waiting_quiet s : waiting (quiet s) = [].
Proof. now destruct s as [[[?|] [?|] ? ?] ?]. Qed.
Lemma waiting_idle s : is_awaiting_events s = false -> waiting s = [].
Proof. now destruct s as [[[?|] [?|] ? ?] ?]. Qed.
Lemma waiting_fired event s : waiting s ≡ₚ (if is_done event then waiting s else []) ++ called (fired event s).
Proof. unfold fired. destruct event; by_callbacks s. Qed.
Lemma waiting_with_read c e s :
  [c] ++ waiting s ≡ₚ waiting (set_expiration e (with_read c s)) ++ called (cancelled (read_callback (events s))).
Proof. by_callbacks s. Qed.
Lemma waiting_with_write c e s :
  [c] ++ waiting s ≡ₚ waiting (set_expiration e (with_write c s)) ++ called (cancelled (write_callback (events s))).
Proof. by_callbacks s. Qed.
Lemma waiting_ready r w e s : waiting s ≡ₚ waiting (set_expiration e (ready r w s)) ++ called (finished r w s).
Proof. destruct r, w; by_callbacks s. Qed.
Lemma waiting_expired s : waiting s ≡ₚ waiting (expired s) ++ called (timed_out_calls s).
Proof. unfold expired, timed_out_calls. destruct (0 <? timeout (events s)); by_callbacks s. Qed.
Lemma waiting_reset s : waiting s ≡ₚ waiting (reset_socket s) ++ called (fired poll_reset s).
Proof. by_callbacks s. Qed.

Section Runs.
Context {H : Type} `{Poller H}.
Implicit Type m : multiplexer H.

(** Every callback that is waiting or was called. *)
Definition total m : list callback := pending (heap m) ++ called (spawned m).

Lemma total_insert p s s' ts m m' rest gone : heap m !! p = Some s -> heap m' = <[p := s']> (heap m) ->
  spawned m' = spawned m ++ ts -> rest ++ waiting s ≡ₚ gone ++ waiting s' ++ called ts -> rest ++ total m ≡ₚ gone ++ total m'.
Proof.
  intros L Hh Hs E. unfold total. rewrite Hh, Hs, called_app, (pending_delete _ _ _ L), (pending_insert _ _ _ s' L).
  rewrite !(app_assoc rest), E. solve_Permutation.
Qed.

Lemma visit_total f g k : visits f g k -> (forall s, waiting s ≡ₚ waiting (g s) ++ called (k s)) ->
  forall ps m m', visit f ps m = Some m' -> total m ≡ₚ total m'.
Proof.
  intros F W ps. induction ps as [|p ps IH]; intros m m'; cbn; [now intros [= ->]|].
  pose proof (F m p) as Fp. destruct (heap m !! p) as [s|] eqn:L; [|now rewrite Fp].
  destruct Fp as (m1 & -> & H1 & T1 & K1 & S1). cbn. intros E. rewrite <- (IH _ _ E).
  apply (total_insert p s (g s) (k s) m m1 [] []); auto. apply W.
Qed.

Lemma timers_loop_total time fuel m m' : timers_loop fuel time m = Some m' -> total m ≡ₚ total m'.
Proof.
  revert m. induction fuel as [|f IH]; intros m; cbn; [now intros [= ->]|].
  destruct (timers_begin (timers m)) as [[e p]|]; [|now intros [= ->]]. destruct (time <? e); [now intros [= ->]|].
  pose proof (expire_visits m p) as Fp. destruct (heap m !! p) as [s|] eqn:L; [|now rewrite Fp].
  destruct Fp as (m1 & -> & H1 & T1 & K1 & S1). cbn. intros E. rewrite <- (IH _ E).
  apply (total_insert p s (expired s) (timed_out_calls s) m m1 [] []); auto. apply waiting_expired.
Qed.

Lemma dispatch_timers_ok m time : consistent m -> exists m' ps, dispatch_timers time m = Some m' /\ timers_done time m m' ps /\ consistent m'.
Proof.
  intros [B I]. destruct (timers_loop_spec time (size (timers m)) m B) as (m' & ps & E & D); [lia|].
  exists m', ps. split; [exact E|]. split; [exact D|]. split; [apply D|]. apply (tidy_fmap (heap m) _ (after_timers time)); [exact (done_heap _ _ _ _ D)| | |exact I].
  - intros s. unfold after_timers. destruct (due time s); [apply expired_timeout|reflexivity].
  - intros q s L A. unfold after_timers in *. destruct (due time s); [apply expired_zero|now apply (idle_zero _ I q)].
Qed.

Lemma cancel_ok m p s event : consistent m -> heap m !! p = Some s ->
  exists m' b, cancel_events p event m = Some (m', b) /\ consistent m' /\ heap m' = <[p := quiet s]> (heap m) /\
    total m ≡ₚ (if is_done event then waiting s else []) ++ total m'.
Proof.
  intros C L. destruct (cancel_spec m p s event (proj1 C) L) as (m' & b & E & M & _). exists m', b. split; [exact E|].
  split; [|split; [apply M|]].
  - apply (moves_consistent _ _ _ _ _ _ C L (quiet_timeout s) M). intros _. unfold quiet. destruct (is_awaiting_events s) eqn:A; [reflexivity|exact (idle_zero _ (proj2 C) _ _ L A)].
  - apply (total_insert p s (quiet s) (fired event s) m m' [] _ L (moves_heap _ _ _ _ _ M) (moves_spawned _ _ _ _ _ M)).
    rewrite waiting_quiet. cbn. apply waiting_fired.
Qed.

Lemma dispatch_events_ok m e time : consistent m -> is_Some (heap m !! base e) -> 0 <= time < 2 ^ 61 ->
  exists m' b, dispatch_events e time m = Some (m', b) /\ consistent m' /\ total m ≡ₚ total m' /\
    (forall q, is_Some (heap m !! q) -> is_Some (heap m' !! q)).
Proof.
  intros C [s L] Ht. destruct e as [p r w c]. cbn in L.
  assert (A : forall s' (h' : gmap pointer socket), h' = <[p := s']> (heap m) -> forall q, is_Some (heap m !! q) -> is_Some (h' !! q)).
  { intros s' h' -> q Lq. destruct (decide (p = q)) as [->|]; [rewrite lookup_insert_eq; eauto|now rewrite lookup_insert_ne]. }
  destruct c.
  - destruct (cancel_ok m p s poll_reset C L) as (m' & b & E & C' & Hh & T). exists m', false.
    unfold dispatch_events. cbn [closeable base]. rewrite E. split; [reflexivity|]. split; [exact C'|]. split; [exact T|exact (A _ _ Hh)].
  - destruct (r || w) eqn:RW.
    + destruct (dispatch_events_spec p s r w time m C L Ht RW) as (m' & e & E & M & Z1 & Z2).
      exists m', (is_awaiting_events (ready r w s)). split; [exact E|]. split; [apply (moves_consistent p s (set_expiration e (ready r w s)) _ _ _ C L eq_refl M Z1)|].
      split; [|exact (A _ _ (moves_heap _ _ _ _ _ M))].
      apply (total_insert p s _ _ m m' [] [] L (moves_heap _ _ _ _ _ M) (moves_spawned _ _ _ _ _ M)). apply waiting_ready.
    + destruct r, w; try discriminate. exists m, true. split; [reflexivity|]. split; [exact C|]. split; [reflexivity|auto].
Qed.

Lemma dispatch_ok es time m : consistent m -> 0 <= time < 2 ^ 61 -> List.Forall (fun e => is_Some (heap m !! base e)) es ->
  exists m', dispatch es time m = Some m' /\ consistent m' /\ total m ≡ₚ total m'.
Proof.
  intros C Ht A. assert (F : exists m1, dispatch_all es time m = Some m1 /\ consistent m1 /\ total m ≡ₚ total m1).
  { revert m C A. induction es as [|e es IH]; intros m C A; [exists m; cbn; auto|].
    apply List.Forall_cons_iff in A as [Ae A]. destruct (dispatch_events_ok m e time C Ae Ht) as (m1 & b & E & C1 & T1 & L1).
    cbn. rewrite E. cbn. destruct (IH m1 C1) as (m2 & E2 & C2 & T2).
    { eapply List.Forall_impl; [|exact A]. cbn. auto. }
    exists m2. split; [exact E2|]. split; [exact C2|]. now rewrite T1. }
  destruct F as (m1 & E & C1 & T1). unfold dispatch. rewrite E. cbn.
  destruct (dispatch_timers_ok m1 time C1) as (m2 & ps & E2 & _ & C2). exists m2. split; [exact E2|]. split; [exact C2|].
  rewrite T1. exact (timers_loop_total _ _ _ _ E2).
Qed.

(** ** Shutting down *)
Lemma drain_spec fuel (t : gmap Z pointer) : (forall e e' p, t !! e = Some p -> t !! e' = Some p -> e = e') ->
  (size t <= fuel)%nat -> NoDup (drain fuel t) /\ forall p, p ∈ drain fuel t <-> exists e, t !! e = Some p.
Proof.
  revert t. induction fuel as [|f IH]; intros t Inj Hs.
  - assert (T : t = ∅) by (apply map_size_empty_iff; lia). subst t. cbn. split; [constructor|]. intros p.
    split; [intros I; now apply elem_of_nil in I|intros [e E]; now rewrite lookup_empty in E].
  - cbn. pose proof (timers_begin_spec t) as Bg. destruct (timers_begin t) as [[e p]|].
    + destruct Bg as [Le _]. destruct (IH (delete e t)) as [N I].
      { intros a b q Ea Eb. apply lookup_delete_Some in Ea, Eb. eapply Inj; [apply Ea|apply Eb]. }
      { rewrite map_size_delete, Le. cbn. lia. }
      split; [constructor; [|exact N]|].
      * rewrite I. intros [e' E]. apply lookup_delete_Some in E as [D E]. apply D. eapply Inj; eauto.
      * intros q. rewrite elem_of_cons, I. split.
        -- intros [->|[e' E]]; [eauto|]. apply lookup_delete_Some in E. destruct E; eauto.
        -- intros [e' E]. destruct (decide (e = e')) as [->|D]; [left; congruence|].
           right. exists e'. now rewrite lookup_delete_ne.
    + subst t. split; [constructor|]. intros p. split; [intros I; now apply elem_of_nil in I|intros [e E]; now rewrite lookup_empty in E].
Qed.

(** What a shutdown leaves of a socket. *)
Definition shut (s : socket) : socket :=
  if expiration (events s) <? 0 then reset_socket s else if 0 <? expiration (events s) then expired s else s.

Lemma shut_parts time s : (if decide (0 < expiration (events (after_timers time s))) then expired else id)
    ((if decide (expiration (events (after_timers time s)) < 0) then reset_socket else id) (after_timers time s)) = shut s.
Proof.
  unfold after_timers, due, shut. destruct (Z.ltb_spec 0 (expiration (events s))), (Z.leb_spec (expiration (events s)) time); cbn.
  1: rewrite expired_zero, !decide_False by lia; cbn; now rewrite (proj2 (Z.ltb_ge _ _)) by lia.
  1: rewrite decide_True, decide_False by lia; cbn; now rewrite (proj2 (Z.ltb_ge _ _)) by lia.
  all: rewrite (decide_False (P := 0 < _)) by lia; destruct (Z.ltb_spec (expiration (events s)) 0);
    [now rewrite decide_True by lia|now rewrite decide_False by lia].
Qed.

Lemma shutdown_ok now m : consistent m ->
  exists m', mux_shutdown now m = Some m' /\ timers m' = ∅ /\ trackers m' = ∅ /\
    (forall q, heap m' !! q = shut <$> heap m !! q) /\ total m ≡ₚ total m'.
Proof.
  intros C. destruct (dispatch_timers_ok m now C) as (m1 & ps & E1 & D & C1). unfold mux_shutdown. rewrite E1. cbn.
  set (m2 := set_trackers ∅ (set_timers ∅ m1)). pose proof (proj1 C1) as B.
  destruct (visit_spec _ _ _ reset_visits (elements (trackers m1)) m2) as (m3 & E3 & H3 & T3 & K3 & _).
  { apply NoDup_elements. }
  { intros p I. apply elem_of_elements, (trackers_booked _ B) in I. destruct (expiration_live (heap m1) p) as (s & L & _); [lia|eauto]. }
  rewrite E3. cbn.
  destruct (drain_spec (size (timers m1)) (timers m1)) as [N I]; [|lia|].
  { intros e e' p L L'. apply (timers_booked _ B) in L, L'. lia. }
  assert (I' : forall p, p ∈ drain (size (timers m1)) (timers m1) <-> 0 < expiration_in (heap m1) p).
  { intros p. rewrite I. split; [intros [e L]; apply (timers_booked _ B) in L; lia|].
    intros P. exists (expiration_in (heap m1) p). now apply (timers_booked _ B). }
  destruct (visit_spec _ _ _ expire_visits (drain (size (timers m1)) (timers m1)) m3 N) as (m4 & E4 & H4 & T4 & K4 & _).
  { intros p Ip. apply I' in Ip. destruct (expiration_live (heap m1) p) as (s & L & _); [lia|].
    rewrite H3. unfold m2. cbn. rewrite L. cbn. eauto. }
  exists m4. split; [exact E4|]. split; [now rewrite T4, T3|]. split; [now rewrite K4, K3|]. split.
  - intros q. rewrite H4, H3. unfold m2. cbn. assert (Q : q ∈ elements (trackers m1) <-> expiration_in (heap m1) q < 0) by (rewrite elem_of_elements; apply B).
    rewrite (decide_ext _ _ _ _ (I' q)), (decide_ext _ _ _ _ Q).
    unfold expiration_in. rewrite (done_heap _ _ _ _ D). destruct (heap m !! q) as [s|]; cbn; [|reflexivity].
    f_equal. apply shut_parts.
  - rewrite (timers_loop_total _ _ _ _ E1).
    rewrite <- (visit_total _ _ _ expire_visits waiting_expired _ _ _ E4).
    rewrite <- (visit_total _ _ _ reset_visits waiting_reset _ _ _ E3). reflexivity.
Qed.

(** ** Runs

    A step of a program, with the callbacks it hands over and those it takes away without a call: the
    operations that end a wait with [finish] drop the callbacks, as [clear_events] does.  The steps are those of a program on a machine that exists:
    there is room for its sockets, no timeout is longer than 2^50 milliseconds and the clock is below 2^61 microseconds.  Only sockets that do not
    wait are moved. *)
Inductive mux_step m : list callback -> list callback -> multiplexer H -> Prop :=
  | step_socket p d : heap m !! p = None -> Z.of_nat (size (heap m)) < 2 ^ 60 -> mux_step m [] [] (put p (new_socket d) m)
  | step_io_timeout p s t : heap m !! p = Some s -> 0 <= t <= 2 ^ 50 -> mux_step m [] [] (put p (set_io_timeout t s) m)
  | step_move from to s m' : heap m !! from = Some s -> is_awaiting_events s = false -> heap m !! to = None -> Z.of_nat (size (heap m)) < 2 ^ 60 ->
      move_socket from to m = Some m' -> mux_step m [] [] m'
  | step_assign to from s s' m' : heap m !! from = Some s -> is_awaiting_events s = false -> heap m !! to = Some s' ->
      assign_socket to from m = Some m' -> mux_step m [] (if decide (to = from) then [] else waiting s') m'
  | step_readable p s c now m' b : heap m !! p = Some s -> 0 <= now < 2 ^ 61 -> when_readable p c now m = Some (m', b) ->
      mux_step m [c] [] m'
  | step_writeable p s c now m' b : heap m !! p = Some s -> 0 <= now < 2 ^ 61 -> when_writeable p c now m = Some (m', b) ->
      mux_step m [c] [] m'
  | step_cancel p s event m' b : heap m !! p = Some s -> cancel_events p event m = Some (m', b) ->
      mux_step m [] (if is_done event then waiting s else []) m'
  | step_clear p s (gracefully : bool) m' status : heap m !! p = Some s -> clear_events p gracefully m = Some (m', status) ->
      mux_step m [] (if gracefully then [] else waiting s) m'
  | step_migrate p s d (gracefully : bool) m' status : heap m !! p = Some s ->
      migrate_to p d gracefully m = Some (m', status) -> mux_step m [] (if gracefully then waiting s else []) m'
  | step_close p s (gracefully : bool) m' status : heap m !! p = Some s ->
      socket_shutdown p gracefully m = Some (m', status) -> mux_step m [] (if gracefully then [] else waiting s) m'
  | step_delete p s m' status : heap m !! p = Some s -> socket_shutdown p false m = Some (m', status) ->
      mux_step m [] (waiting s) (set_heap (delete p (heap m')) m')
  | step_dispatch es time m' : 0 <= time < 2 ^ 61 -> List.Forall (fun e => is_Some (heap m !! base e)) es ->
      dispatch es time m = Some m' -> mux_step m [] [] m'
  | step_shutdown now m' : mux_shutdown now m = Some m' -> mux_step m [] [] m'
  | step_activate : mux_step m [] [] (fst (try_listen m))
  | step_deactivate : mux_step m [] [] (try_unlisten m)
  | step_rescale t h : mux_step m [] [] (rescale t h m).

Inductive mux_run : list callback -> list callback -> multiplexer H -> Prop :=
  | run_new h t : mux_run [] [] (new_multiplexer h t)
  | run_step given dropped m c d m' : mux_run given dropped m -> mux_step m c d m' -> mux_run (given ++ c) (dropped ++ d) m'.

(** What a step keeps. *)
Definition kept m (c d : list callback) m' : Prop := consistent m' /\ c ++ total m ≡ₚ d ++ total m'.

Lemma kept_put m p s s' : consistent m -> heap m !! p = Some s -> expiration (events s') = expiration (events s) ->
  waiting s' = waiting s -> is_awaiting_events s' = is_awaiting_events s -> 0 <= timeout (events s') <= 2 ^ 50 -> kept m [] [] (put p s' m).
Proof.
  intros [B I] L E W A T. split; [split; [now apply (booked_put _ _ s)|]|].
  - split.
    + intros q s2 Lq. cbn in Lq. apply lookup_insert_Some in Lq as [[<- <-]|[_ Lq]]; [rewrite A, E; exact (idle_zero _ I _ _ L)|exact (idle_zero _ I _ _ Lq)].
    + cbn. rewrite map_size_insert, L. apply I.
    + intros q s2 Lq. cbn in Lq. apply lookup_insert_Some in Lq as [[<- <-]|[_ Lq]]; [exact T|exact (timeouts_fit _ I _ _ Lq)].
  - apply (total_insert p s s' [] m _ [] [] L); [reflexivity|cbn; now rewrite app_nil_r|]. rewrite W. cbn. now rewrite app_nil_r.
Qed.

Lemma clear_ok m p s gracefully m' status : consistent m -> heap m !! p = Some s ->
  clear_events p gracefully m = Some (m', status) ->
  kept m [] (if gracefully then [] else waiting s) m' /\ heap m' = <[p := quiet s]> (heap m).
Proof.
  intros C L. unfold clear_events, mux_clear_events. destruct gracefully.
  - destruct (cancel_ok m p s poll_reset C L) as (m1 & b & -> & C1 & Hh & T). cbn. intros [= <- _]. split; [split; assumption|exact Hh].
  - destruct (cancel_ok m p s poll_finish C L) as (m1 & b & -> & C1 & Hh & T). cbn. intros [= <- _]. split; [split; assumption|exact Hh].
Qed.

Lemma kept_then m c d m1 m2 : kept m c d m1 -> (consistent m1 -> kept m1 [] [] m2) -> kept m c d m2.
Proof. intros [C1 T1] K. destruct (K C1) as [C2 T2]. split; [exact C2|]. rewrite T1. cbn in T2. now rewrite T2. Qed.

Lemma kept_set_fd m p s d : consistent m -> heap m !! p = Some s -> kept m [] [] (put p (set_fd d s) m).
Proof. intros C L. apply (kept_put m p s); auto. exact (timeouts_fit _ (proj2 C) _ _ L). Qed.

Lemma close_ok m p s gracefully m' status : consistent m -> heap m !! p = Some s ->
  socket_shutdown p gracefully m = Some (m', status) ->
  kept m [] (if gracefully then [] else waiting s) m' /\
  exists s', heap m' !! p = Some s' /\ is_awaiting_events s' = false.
Proof.
  intros C L. unfold socket_shutdown. destruct (clear_events p gracefully m) as [[m1 st]|] eqn:E; [|discriminate]. cbn.
  destruct (clear_ok m p s gracefully m1 st C L E) as [K Hh].
  assert (L1 : heap m1 !! p = Some (quiet s)) by (rewrite Hh; apply lookup_insert_eq). rewrite L1. cbn.
  destruct (fd_is_valid (quiet s)); intros [= <- _].
  - split; [apply (kept_then _ _ _ _ _ K); intros C1; now apply kept_set_fd|].
    exists (set_fd INVALID_SOCKET (quiet s)). split; [cbn; apply lookup_insert_eq|exact (quiet_awaits s)].
  - split; [exact K|]. exists (quiet s). split; [exact L1|apply quiet_awaits].
Qed.

(** Freeing a socket that waits for nothing. *)
Lemma kept_delete m p s : consistent m -> heap m !! p = Some s -> is_awaiting_events s = false ->
  kept m [] [] (set_heap (delete p (heap m)) m).
Proof.
  intros [B I] L A. pose proof (idle_zero _ I _ _ L A) as Z0. split; [split|].
  - apply (booked_same m); [reflexivity..| |exact B]. intros q. cbn. unfold expiration_in. destruct (decide (p = q)) as [<-|D].
    + now rewrite lookup_delete_eq, L.
    + now rewrite lookup_delete_ne.
  - destruct I as [I Hs Ht]. split; cbn.
    + intros q s' Lq Aq. apply lookup_delete_Some in Lq as [_ Lq]. eauto.
    + rewrite map_size_delete, L. cbn. lia.
    + intros q s' Lq. apply lookup_delete_Some in Lq as [_ Lq]. eauto.
  - unfold total. cbn. rewrite (pending_delete _ _ _ L), waiting_idle by exact A. reflexivity.
Qed.

Lemma kept_new m p s : consistent m -> heap m !! p = None -> Z.of_nat (size (heap m)) < 2 ^ 60 -> is_awaiting_events s = false -> expiration (events s) = 0 ->
  0 <= timeout (events s) <= 2 ^ 50 -> kept m [] [] (put p s m).
Proof.
  intros [B I] L Hs A Z0 T. split; [split|].
  - apply (booked_same m); [reflexivity..| |exact B]. intros q. cbn. rewrite expiration_insert. unfold expiration_in.
    destruct (decide (p = q)) as [<-|D]; [now rewrite L|reflexivity].
  - destruct I as [I _ Ht]. split; cbn.
    + intros q s' Lq. apply lookup_insert_Some in Lq as [[<- <-]|[_ Lq]]; eauto.
    + rewrite map_size_insert, L. lia.
    + intros q s' Lq. apply lookup_insert_Some in Lq as [[<- <-]|[_ Lq]]; eauto.
  - unfold total. cbn. rewrite pending_new by exact L. now rewrite waiting_idle.
Qed.

Lemma shut_zero s : expiration (events (shut s)) = 0.
Proof.
  unfold shut. destruct (Z.ltb_spec (expiration (events s)) 0); [apply quiet_zero|].
  destruct (Z.ltb_spec 0 (expiration (events s))); [apply expired_zero|lia].
Qed.

Lemma kept_shutdown now m m' : consistent m -> mux_shutdown now m = Some m' -> kept m [] [] m'.
Proof.
  intros C E. destruct (shutdown_ok now m C) as (m1 & E1 & T & K & Hh & P). rewrite E in E1. injection E1 as <-.
  assert (X : forall p, expiration_in (heap m') p = 0).
  { intros p. unfold expiration_in. rewrite Hh. destruct (heap m !! p); [apply shut_zero|reflexivity]. }
  split; [split; [split|]|exact P].
  - intros e p. rewrite T, lookup_empty, X. split; [discriminate|lia].
  - intros p. rewrite K, X. split; [intros I; now apply elem_of_empty in I|lia].
  - apply (tidy_fmap (heap m) _ shut); [exact Hh| | |apply C].
    + intros s. unfold shut, reset_socket. destruct (expiration (events s) <? 0); [exact (quiet_timeout (set_expiration 0 s))|]. destruct (0 <? expiration (events s)); [apply expired_timeout|reflexivity].
    + intros q s _ _. apply shut_zero.
Qed.

Lemma kept_register m p s s' e c ts m' : consistent m -> heap m !! p = Some s -> moves p (set_expiration e s') ts m m' ->
  timeout (events s') = timeout (events s) -> is_awaiting_events s' = true -> [c] ++ waiting s ≡ₚ waiting (set_expiration e s') ++ called ts -> kept m [c] [] m'.
Proof.
  intros C L M T A W. split.
  - apply (moves_consistent p s (set_expiration e s') ts m m' C L T M). intros F. change (is_awaiting_events s' = false) in F. congruence.
  - exact (total_insert p s _ ts m m' [c] [] L (moves_heap _ _ _ _ _ M) (moves_spawned _ _ _ _ _ M) W).
Qed.

(** Moving a socket that waits for nothing. *)
Lemma idle_callbacks s : is_awaiting_events s = false -> read_callback (events s) = None /\ write_callback (events s) = None.
Proof. unfold is_awaiting_events, is_awaiting_readable, is_awaiting_writeable. destruct (read_callback _), (write_callback _); cbn; try discriminate. auto. Qed.
Lemma kept_empty m p s : consistent m -> heap m !! p = Some s -> is_awaiting_events s = false -> kept m [] [] (put p (moved_from None None) m).
Proof.
  intros C L A. apply (kept_put m p s (moved_from None None) C L).
  - cbn. symmetry. exact (idle_zero _ (proj2 C) _ _ L A).
  - now rewrite (waiting_idle s A).
  - now rewrite A.
  - cbn. lia.
Qed.
Lemma kept_move from to s m m' : consistent m -> heap m !! from = Some s -> is_awaiting_events s = false -> heap m !! to = None -> Z.of_nat (size (heap m)) < 2 ^ 60 ->
  move_socket from to m = Some m' -> kept m [] [] m'.
Proof.
  intros C L A L' Hs. unfold move_socket. rewrite L. cbn. destruct (idle_callbacks s A) as [-> ->]. intros [= <-]. pose proof (idle_zero _ (proj2 C) _ _ L A) as Z0.
  apply (kept_then m [] [] (put to s m)); [apply kept_new; auto; exact (timeouts_fit _ (proj2 C) _ _ L)|]. intros C1. apply (kept_empty _ from s C1); [|exact A].
  cbn. rewrite lookup_insert_ne; [exact L|congruence].
Qed.
Lemma kept_assign to from s s' m m' : consistent m -> heap m !! from = Some s -> is_awaiting_events s = false -> heap m !! to = Some s' ->
  assign_socket to from m = Some m' -> kept m [] (if decide (to = from) then [] else waiting s') m'.
Proof.
  intros C L A L'. unfold assign_socket. destruct (decide (to = from)) as [|D]; [intros [= <-]; split; [exact C|reflexivity]|].
  destruct (socket_shutdown to false m) as [[m1 st]|] eqn:E1; [|discriminate]. cbn. destruct (close_ok m to s' false m1 st C L' E1) as [K (s2 & L2 & A2)].
  assert (L1 : heap m1 !! from = Some s).
  { unfold socket_shutdown in E1. destruct (clear_events to false m) as [[m0 st0]|] eqn:E0; [|discriminate]. cbn in E1. destruct (clear_ok m to s' false m0 st0 C L' E0) as [_ Hh].
    rewrite Hh, lookup_insert_eq in E1. cbn in E1. destruct (fd_is_valid _); injection E1 as <- _; cbn; rewrite ?Hh, ?lookup_insert_ne by auto; rewrite ?Hh, ?lookup_insert_ne by auto; exact L. }
  rewrite L1. cbn. intros [= <-]. apply (kept_then _ _ _ _ _ K). intros C1. apply (kept_then m1 [] [] (put to s m1)).
  - apply (kept_put m1 to s2 s C1 L2).
    + now rewrite (idle_zero _ (proj2 C1) _ _ L1 A), (idle_zero _ (proj2 C1) _ _ L2 A2).
    + now rewrite !waiting_idle.
    + now rewrite A, A2.
    + exact (timeouts_fit _ (proj2 C1) _ _ L1).
  - intros C2. apply (kept_empty _ from s C2); [cbn; now rewrite lookup_insert_ne by auto|exact A].
Qed.

Lemma step_kept m c d m' : mux_step m c d m' -> consistent m -> kept m c d m'.
Proof.
  intros S C. destruct S as [p d L Hs|p s t L Ht|from to s m' L A L' Hs E|to from s s' m' L A L' E|p s c now m' b L Hn E|p s c now m' b L Hn E|p s event m' b L E|p s g m' st L E
    |p s d g m' st L E|p s g m' st L E|p s m' st L E|es time m' Hn A E|now m' E| | |t h].
  - apply kept_new; auto. cbn. lia.
  - now apply (kept_put m p s).
  - exact (kept_move from to s m m' C L A L' Hs E).
  - exact (kept_assign to from s s' m m' C L A L' E).
  - destruct (when_readable_spec m p s c now C L Hn) as (m1 & e & b1 & E1 & M & _). rewrite E in E1. injection E1 as <- <-.
    apply (kept_register m p s (with_read c s) e c _ m' C L M); [reflexivity|reflexivity|apply waiting_with_read].
  - destruct (when_writeable_spec m p s c now C L Hn) as (m1 & e & b1 & E1 & M & _). rewrite E in E1. injection E1 as <- <-.
    apply (kept_register m p s (with_write c s) e c _ m' C L M); [reflexivity|apply orb_true_r|apply waiting_with_write].
  - destruct (cancel_ok m p s event C L) as (m1 & b1 & E1 & C1 & _ & T). rewrite E in E1. injection E1 as <- <-. now split.
  - exact (proj1 (clear_ok m p s g m' st C L E)).
  - unfold migrate_to in E. destruct g.
    + destruct (clear_events p false m) as [[m1 st1]|] eqn:E1; [|discriminate]. cbn in E.
      destruct (clear_ok m p s false m1 st1 C L E1) as [K Hh]. rewrite Hh, lookup_insert_eq in E. cbn in E. injection E as <- <-.
      apply (kept_then _ _ _ _ _ K). intros C1. apply kept_set_fd; [exact C1|]. rewrite Hh. apply lookup_insert_eq.
    + rewrite L in E. cbn in E. injection E as <- <-. now apply kept_set_fd.
  - exact (proj1 (close_ok m p s g m' st C L E)).
  - destruct (close_ok m p s false m' st C L E) as [K (s' & L' & A)]. apply (kept_then _ _ _ _ _ K).
    intros C1. now apply (kept_delete m' p s').
  - destruct (dispatch_ok es time m C Hn A) as (m1 & E1 & C1 & T). rewrite E in E1. injection E1 as <-. now split.
  - now apply (kept_shutdown now).
  - split; [|reflexivity]. destruct C as [B I]. split; [now apply (booked_same m)|exact I].
  - split; [|reflexivity]. destruct C as [B I]. split; [now apply (booked_same m)|exact I].
  - split; [|reflexivity]. destruct C as [B I]. split; [now apply (booked_same m)|exact I].
Qed.

Lemma run_kept given dropped m : mux_run given dropped m -> consistent m /\ given ≡ₚ dropped ++ total m.
Proof.
  induction 1 as [h t|given dropped m c d m' R IH S].
  - split; [|reflexivity]. split; [split|].
    + intros e p. cbn. rewrite lookup_empty. unfold expiration_in. rewrite lookup_empty. split; [discriminate|lia].
    + intros p. cbn. unfold expiration_in. rewrite lookup_empty. split; [intros I; now apply elem_of_empty in I|lia].
    + split; cbn; [intros p s L; now rewrite lookup_empty in L|rewrite map_size_empty; lia|intros p s L; now rewrite lookup_empty in L].
  - destruct IH as [C P]. destruct (step_kept _ _ _ _ S C) as [C' P']. split; [exact C'|].
    rewrite P, <- app_assoc, (Permutation_app_comm (total m) c), P'. solve_Permutation.
Qed.
End Runs.

(** ** Pollers *)
Lemma land_flag e n : 0 <= n -> (Z.land e (2 ^ n) =? 0) = negb (Z.testbit e n).
Proof.
  intros Hn. destruct (Z.testbit e n) eqn:T; cbn [negb].
  - apply Z.eqb_neq. intros E. apply (f_equal (fun x => Z.testbit x n)) in E.
    rewrite Z.land_spec, Z.bits_0, T, Z.pow2_bits_true in E by exact Hn. discriminate.
  - apply Z.eqb_eq. apply Z.bits_inj'. intros i Hi. rewrite Z.land_spec, Z.bits_0, Z.pow2_bits_eqb by exact Hn.
    destruct (Z.eqb_spec n i) as [<-|]; [now rewrite T|apply andb_false_r].
Qed.
Lemma set_flag_bits n on e i : 0 <= n -> 0 <= i ->
  Z.testbit (fst (set_flag (2 ^ n) on e)) i = if i =? n then on else Z.testbit e i.
Proof.
  intros Hn Hi. unfold set_flag. rewrite land_flag by exact Hn.
  destruct on, (Z.testbit e n) eqn:T; cbn [negb fst]; rewrite ?Z.lor_spec, ?Z.ldiff_spec, ?Z.pow2_bits_eqb by exact Hn;
    rewrite ?(Z.eqb_sym n i); destruct (Z.eqb_spec i n) as [->|]; rewrite ?T, ?orb_true_r, ?orb_false_r, ?andb_true_r, ?andb_false_r;
    reflexivity.
Qed.

(** What [upsert] leaves in the queue for poll. *)
Lemma upsert_interest q fd r w p fd' :
  interest (fst (upsert q fd r w (Some p))) fd' = if decide (fd = fd') then Some (r, w, p) else interest q fd'.
Proof.
  unfold upsert. set (target := match fds q !! fd with Some d => (d, false) | None => _ end). destruct target as [d added].
  destruct (set_flag POLLIN r (pevents (descriptor_fd d))) as [e1 c1] eqn:E1.
  destruct (set_flag POLLOUT w e1) as [e2 c2] eqn:E2. cbn.
  destruct (decide (fd = fd')) as [<-|D]; [rewrite lookup_insert_eq|now rewrite lookup_insert_ne]. cbn.
  pose proof (set_flag_bits 0 r (pevents (descriptor_fd d)) 0) as B0. pose proof (set_flag_bits 2 w e1 0) as B1.
  pose proof (set_flag_bits 2 w e1 2) as B2. change (2 ^ 0) with POLLIN in B0. change (2 ^ 2) with POLLOUT in B1, B2.
  rewrite E1 in B0. rewrite E2 in B1, B2. cbn [fst] in B0, B1, B2. change (0 =? 0) with true in B0.
  change (0 =? 2) with false in B1. change (2 =? 2) with true in B2. cbn iota in B0, B1, B2.
  change POLLIN with (2 ^ 0) at 1. change POLLOUT with (2 ^ 2) at 1. rewrite !land_flag, !negb_involutive by lia.
  now rewrite B1, B2, B0 by lia.
Qed.
#[export] Instance poll_upserts : UpsertPoller epoll_queue.
Proof.
  split; intros; cbn [poller_add poller_update poller_remove poll_poller fst];
    rewrite upsert_interest; (rewrite decide_True by reflexivity) || (rewrite decide_False by auto); reflexivity.
Qed.

(** A kernel table to try the epoll variant on: a map of descriptors. *)
#[export] Instance table_kernel : Kernel (gmap Z (Z * pointer)) := {
  epoll_ctl k op fd e p :=
    match op, k !! fd with
    | EPOLL_CTL_ADD, None | EPOLL_CTL_MOD, Some _ => (<[fd := (e, p)]> k, 0)
    | EPOLL_CTL_DEL, Some _ => (delete fd k, 0)
    | _, _ => (k, -1)
    end;
  kernel_events k fd := k !! fd }.
#[export] Instance table_kernel_laws : KernelLaws (gmap Z (Z * pointer)).
Proof.
  split; intros k fd e p; cbn; destruct (k !! fd) eqn:E; intros N; try congruence; cbn; rewrite ?lookup_insert_eq, ?E; auto.
Qed.

(** ** Properties *)

Definition sample_queue : epoll_queue := mk_queue ∅ [] 0 3 true.
Definition sample_mux : multiplexer epoll_queue :=
  put 1%positive (set_io_timeout 1000 (new_socket 5)) (put 1%positive (new_socket 5) (new_multiplexer sample_queue 100)).
Definition sample_waiting : multiplexer epoll_queue :=
  match when_readable 1%positive 7%positive 20 sample_mux with Some (m, _) => m | None => sample_mux end.
Lemma sample_mux_run : mux_run [] [] sample_mux.
Proof.
  apply (run_step [] [] (put 1%positive (new_socket 5) (new_multiplexer sample_queue 100)) [] []).
  - apply (run_step [] [] (new_multiplexer sample_queue 100) [] []); [constructor|]. now constructor.
  - now apply step_io_timeout.
Qed.
Lemma sample_run : mux_run [7%positive] [] sample_waiting.
Proof.
  apply (run_step [] [] sample_mux [7%positive] [] sample_waiting sample_mux_run).
  eapply (step_readable _ 1%positive (set_io_timeout 1000 (new_socket 5)) 7%positive 20 _ true);
    [reflexivity|lia|vm_compute; reflexivity].
Qed.

(** (C25) For a program whose timeouts are at most 2^50 milliseconds, while the clock is below 2^61 microseconds and there are fewer than 2^60 sockets, and which moves
    or assigns only sockets that nobody waits on: in every state it can bring the multiplexer to, [timers] and [trackers] are exact.  Each entry is a
    live socket that waits, with the expiration it is filed under; each socket with an expiration is found where
    [remove_timeout] looks for it - so the assertion "socket timeout update de-sync happend" never fails and no
    pointer dangles - and a socket that waits for nothing has no expiration.  ([huge_timeout_dangles] and [moved_waiting_astray] are what happens else.) *)
Theorem timers_match_sockets {H} `{Poller H} (given dropped : list callback) (m : multiplexer H)
    (R : mux_run given dropped m) :
  (forall e p, timers m !! e = Some p ->
     exists s, heap m !! p = Some s /\ is_awaiting_events s = true /\ expiration (events s) = e) /\
  (forall p, p ∈ trackers m ->
     exists s, heap m !! p = Some s /\ is_awaiting_events s = true /\ expiration (events s) < 0) /\
  (forall p s, heap m !! p = Some s ->
     (0 < expiration (events s) -> timers m !! expiration (events s) = Some p) /\
     (expiration (events s) < 0 -> p ∈ trackers m) /\
     (is_awaiting_events s = false -> expiration (events s) = 0)).
Proof.
  destruct (run_kept _ _ _ R) as [[B I] _].
  assert (A : forall p, expiration_in (heap m) p <> 0 ->
    exists s, heap m !! p = Some s /\ is_awaiting_events s = true /\ expiration (events s) = expiration_in (heap m) p).
  { intros p N. destruct (expiration_live _ _ N) as (s & L & E). exists s. split; [exact L|]. split; [|exact E].
    destruct (is_awaiting_events s) eqn:W; [reflexivity|]. rewrite (idle_zero _ I _ _ L W) in E. congruence. }
  split; [|split].
  - intros e p L. apply (timers_booked _ B) in L as [P E]. destruct (A p) as (s & L & W & E'); [lia|]. exists s. rewrite E', E. auto.
  - intros p T. apply (trackers_booked _ B) in T. destruct (A p) as (s & L & W & E'); [lia|]. exists s. rewrite E'. auto.
  - intros p s L. pose proof (expiration_at _ _ _ L) as X. split; [|split].
    + intros P. apply (timers_booked _ B). auto.
    + intros P. apply (trackers_booked _ B). lia.
    + exact (idle_zero _ I p s L).
Qed.
Lemma timers_match_sockets_witness : timers sample_waiting !! 1000020 = Some 1%positive /\
  exists s, heap sample_waiting !! 1%positive = Some s /\ is_awaiting_events s = true /\ expiration (events s) = 1000020.
Proof. split; [vm_compute; reflexivity|]. apply (timers_match_sockets _ _ _ sample_run). vm_compute. reflexivity. Defined.


(** [dispatch_timers] returns, and tells exactly the sockets whose expiration has come, once each and in the
    order of their expirations; the others and their timers stay as they are. *)
Theorem timers_in_order {H} `{Poller H} (given dropped : list callback) (m : multiplexer H) (time : Z)
    (R : mux_run given dropped m) :
  exists m' ps, dispatch_timers time m = Some m' /\
    spawned m' = spawned m ++ tasks_of (heap m) timed_out_calls ps /\ NoDup ps /\
    (forall p, p ∈ ps <-> exists s, heap m !! p = Some s /\ 0 < expiration (events s) <= time) /\
    StronglySorted (by_expiration (heap m)) ps /\
    (forall q, heap m' !! q = after_timers time <$> heap m !! q) /\
    (forall e p, timers m' !! e = Some p <-> timers m !! e = Some p /\ time < e).
Proof.
  destruct (run_kept _ _ _ R) as [C _]. destruct (dispatch_timers_ok m time C) as (m' & ps & E & D & C').
  exists m', ps. split; [exact E|]. split; [apply D|]. split; [apply D|]. split; [|split; [apply D|split; [apply D|]]].
  - intros p. rewrite (done_due _ _ _ _ D). unfold expiration_in. destruct (heap m !! p) as [s|].
    + split; [eauto|intros (s' & [= <-] & ?); assumption].
    + split; [lia|intros (s' & F & _); discriminate].
  - intros e p. rewrite (timers_booked _ (proj1 C')), (timers_booked _ (proj1 C)). unfold expiration_in.
    rewrite (done_heap _ _ _ _ D). destruct (heap m !! p) as [s|]; cbn; [|split; lia]. unfold after_timers, due.
    destruct (Z.ltb_spec 0 (expiration (events s))), (Z.leb_spec (expiration (events s)) time); cbn; rewrite ?expired_zero; lia.
Qed.
Lemma timers_in_order_witness : exists m' ps, dispatch_timers 2000000 sample_waiting = Some m' /\
  spawned m' = tasks_of (heap sample_waiting) timed_out_calls ps /\ 1%positive ∈ ps.
Proof.
  destruct (timers_in_order _ _ _ 2000000 sample_run) as (m' & ps & E & S & _ & I & _). exists m', ps.
  split; [exact E|]. split; [exact S|]. apply I. eexists. split; [vm_compute; reflexivity|]. vm_compute. split; [reflexivity|discriminate].
Defined.

(** After [shutdown] nothing is filed any more, and when every waiting socket still had an expiration and the
    timeout it was filed with, nothing waits: each callback was called exactly once. *)
Theorem shutdown_tells_everyone {H} `{Poller H} (given dropped : list callback) (m : multiplexer H) (now : Z)
    (R : mux_run given dropped m)
    (Filed : forall p s, heap m !! p = Some s -> is_awaiting_events s = true ->
       expiration (events s) <> 0 /\ (0 < expiration (events s) -> 0 < timeout (events s))) :
  exists m', mux_shutdown now m = Some m' /\ timers m' = ∅ /\ trackers m' = ∅ /\ pending (heap m') = [] /\
    called (spawned m') ≡ₚ pending (heap m) ++ called (spawned m).
Proof.
  destruct (run_kept _ _ _ R) as [C _]. destruct (shutdown_ok now m C) as (m' & E & T & K & Hh & P).
  exists m'. split; [exact E|]. split; [exact T|]. split; [exact K|].
  assert (N : pending (heap m') = []).
  { unfold pending. apply concat_nil_Forall. apply List.Forall_map, List.Forall_forall. intros [p s'] I.
    apply list_elem_of_In, elem_of_map_to_list in I. rewrite Hh in I. destruct (heap m !! p) as [s|] eqn:L; [|discriminate].
    injection I as <-. cbn. unfold shut, reset_socket, expired. destruct (is_awaiting_events s) eqn:A.
    - destruct (Filed p s L A) as [N0 NT]. destruct (Z.ltb_spec (expiration (events s)) 0); [apply waiting_quiet|].
      destruct (Z.ltb_spec 0 (expiration (events s))); [|lia].
      destruct (Z.ltb_spec 0 (timeout (events s))); [apply waiting_quiet|lia].
    - rewrite (idle_zero _ (proj2 C) p s L A). cbn. now apply waiting_idle. }
  split; [exact N|]. unfold total in P. rewrite N in P. cbn in P. now rewrite P.
Qed.
Lemma shutdown_tells_everyone_witness : exists m', mux_shutdown 30 sample_waiting = Some m' /\ pending (heap m') = [].
Proof.
  destruct (shutdown_tells_everyone _ _ _ 30 sample_run) as (m' & E & _ & _ & P & _); [|eauto].
  intros p s L A. change (heap sample_waiting) with
    (<[1%positive := mk_socket (mk_ievents (Some 7%positive) None 1000020 1000) 5]> (∅ : gmap pointer socket)) in L.
  destruct (decide (1%positive = p)) as [<-|D].
  - rewrite lookup_insert_eq in L. injection L as <-. cbn. lia.
  - rewrite lookup_insert_ne, lookup_empty in L by exact D. discriminate.
Defined.

(** A socket that waits keeps its expiration only as long as its timeout is not taken away: once
    [set_io_timeout(0)] was called on a waiting socket its timer passes without a call, and neither another timer
    nor [shutdown] reaches the callback any more. *)
Theorem timeout_taken_away :
  exists m1 m2 m3 : multiplexer epoll_queue,
    when_readable 1%positive 7%positive 20 sample_mux = Some (m1, true) /\
    dispatch [] 2000000 (put 1%positive (set_io_timeout 0 (default (new_socket 5) (heap m1 !! 1%positive))) m1) = Some m2 /\
    mux_shutdown 3000000 m2 = Some m3 /\
    timers m3 = ∅ /\ trackers m3 = ∅ /\ pending (heap m3) = [7%positive] /\ called (spawned m3) = [].
Proof.
  eexists _, _, _. split; [vm_compute; reflexivity|]. split; [vm_compute; reflexivity|]. split; [vm_compute; reflexivity|].
  vm_compute. auto.
Qed.

(** A timeout of 2^54 milliseconds does not fit in microseconds: the socket is filed in [timers] under a time before 1970, and [remove_timeout], which takes a
    negative expiration for the mark of [trackers], leaves it there; once the socket is freed the next dispatch follows the pointer. *)
Definition huge_timeout : multiplexer epoll_queue := put 1%positive (set_io_timeout (2 ^ 54) (new_socket 5)) (new_multiplexer (mk_queue ∅ [] 0 (-1) false) 100).
Theorem huge_timeout_dangles : exists m1 m2, when_readable 1%positive 7%positive 20 huge_timeout = Some (m1, true) /\
  socket_shutdown 1%positive false m1 = Some (m2, errc_none) /\ map_to_list (timers m2) = [(-432345564227567596, 1%positive)] /\
  dispatch [] 30 (set_heap (delete 1%positive (heap m2)) m2) = None.
Proof. do 2 eexists. split; [vm_compute; reflexivity|]. split; [vm_compute; reflexivity|]. split; vm_compute; reflexivity. Qed.

(** A socket that is moved while it waits: its timer still names the old place, which has no expiration, and the callback is there twice. *)
Theorem moved_waiting_astray : exists m, move_socket 1%positive 2%positive sample_waiting = Some m /\
  timers m !! 1000020 = Some 1%positive /\ expiration_in (heap m) 1%positive = 0 /\ expiration_in (heap m) 2%positive = 1000020 /\ pending (heap m) = [7%positive; 7%positive].
Proof. eexists. split; [vm_compute; reflexivity|]. repeat split; vm_compute; reflexivity. Qed.

(** With the poller for poll, whose [upsert] does not distinguish adding from updating, the poller watches
    exactly what is waited for after [when_readable]. *)
Theorem readable_is_watched {H} `{UpsertPoller H} (given dropped : list callback) (m m' : multiplexer H)
    (p : pointer) (s : socket) (c : callback) (now : Z) (b : bool)
    (R : mux_run given dropped m) (L : heap m !! p = Some s) (Hn : 0 <= now < 2 ^ 61)
    (E : when_readable p c now m = Some (m', b)) :
  interest (handle m') (fd s) = Some (true, is_awaiting_writeable s, p) /\
  (forall d, d <> fd s -> interest (handle m') d = interest (handle m) d).
Proof.
  destruct (when_readable_spec m p s c now (proj1 (run_kept _ _ _ R)) L Hn) as (m1 & e & b1 & E1 & _ & _ & W).
  rewrite E in E1. injection E1 as <- <-. destruct (is_awaiting_readable s); apply (f_equal fst) in W; cbn in W; rewrite W.
  - split; [apply update_interest|]. intros d D. now apply update_elsewhere.
  - split; [apply add_interest|]. intros d D. now apply add_elsewhere.
Qed.
Lemma readable_is_watched_witness : interest (handle sample_waiting) 5 = Some (true, false, 1%positive).
Proof.
  apply (readable_is_watched [] [] sample_mux sample_waiting 1%positive (set_io_timeout 1000 (new_socket 5)) 7%positive 20 true
    sample_mux_run); [reflexivity|lia|vm_compute; reflexivity].
Defined.

(** With epoll, [when_readable] on a socket that waits for writing only asks the kernel to add a descriptor it
    already has: the call fails, the kernel keeps watching for writing only, and the callback is stored although
    nothing will report that the socket is readable. *)
Theorem epoll_second_wait_unwatched {K} `{KernelLaws K} (m : multiplexer K) (p : pointer) (s : socket) (c : callback) (now : Z)
    (C : @consistent K m) (L : heap m !! p = Some s) (Hn : 0 <= now < 2 ^ 61)
    (Reading : is_awaiting_readable s = false)
    (Watched : kernel_events (handle m) (fd s) = Some (epoll_mask false true, p)) :
  exists m', @when_readable K epoll_poller p c now m = Some (m', false) /\
    kernel_events (handle m') (fd s) = Some (epoll_mask false true, p) /\
    exists s', heap m' !! p = Some s' /\ read_callback (events s') = Some c.
Proof.
  destruct (@when_readable_spec K epoll_poller m p s c now C L Hn) as (m' & e & b & E & M & _ & W).
  rewrite Reading in W. cbn [poller_add epoll_poller] in W.
  assert (N : kernel_events (handle m) (fd s) <> None) by congruence.
  destruct (ctl_add_exists _ _ (epoll_mask true (is_awaiting_writeable s)) p N) as [S1 S2].
  destruct (epoll_ctl (handle m) EPOLL_CTL_ADD (fd s) _ p) as [k status]. cbn in S1, S2. subst status. injection W as Wh ->.
  exists m'. split; [exact E|]. split; [rewrite Wh, S1; exact Watched|].
  exists (set_expiration e (with_read c s)). split; [|reflexivity]. rewrite (moves_heap _ _ _ _ _ M). apply lookup_insert_eq.
Qed.
Definition sample_writing : multiplexer (gmap Z (Z * pointer)) :=
  match @when_writeable _ epoll_poller 1%positive 9%positive 20
          (put 1%positive (new_socket 5) (new_multiplexer ∅ 100)) with
  | Some (m, _) => m | None => new_multiplexer ∅ 100
  end.
Lemma epoll_second_wait_unwatched_witness :
  exists m', @when_readable _ epoll_poller 1%positive 7%positive 30 sample_writing = Some (m', false) /\
    kernel_events (handle m') 5 = Some (epoll_mask false true, 1%positive).
Proof.
  assert (C : consistent sample_writing).
  { apply (run_kept (H0 := epoll_poller) [9%positive] []).
    apply (run_step [] [] (put 1%positive (new_socket 5) (new_multiplexer ∅ 100)) [9%positive] []).
    - apply (run_step [] [] (new_multiplexer ∅ 100) [] []); [constructor|]. now constructor.
    - eapply (step_writeable _ 1%positive (new_socket 5) 9%positive 20 _ true); [reflexivity|lia|vm_compute; reflexivity]. }
  assert (L : heap sample_writing !! 1%positive = Some (mk_socket (mk_ievents None (Some 9%positive) (-1) 0) 5)) by (vm_compute; reflexivity).
  destruct (epoll_second_wait_unwatched sample_writing 1%positive _ 7%positive 30 C L) as (m' & E & W & _);
    [lia|reflexivity|vm_compute; reflexivity|]. exists m'. split; [exact E|exact W].
Defined.

(** The mutexes are taken in both orders: while one thread tells a socket that its time has come
    ([dispatch_timers] locks the multiplexer, then the socket) and another cancels its events ([cancel_events]
    locks the socket, then the multiplexer when the socket has a timer), both can end up waiting for each other
    forever. *)
Theorem multiplexer_deadlock (p : pointer) :
  exists t, run_threads [1%nat; 1%nat; 0%nat; 0%nat] (mk_threads [dispatch_timers_code p; cancel_events_code p] [] {[p]}) = Some t /\
    deadlocked t.
Proof.
  set (c1 := [acquire exclusive; stop_timer p; release exclusive; release (events_mutex p)]).
  set (c0 := cancel_events_code p ++ [release exclusive]).
  exists (mk_threads [c0; c1] [(exclusive, 0%nat); (events_mutex p, 1%nat)] ({[p]} ∖ {[p]})). split.
  - cbn. rewrite (bool_decide_true (p ∈ {[p]})) by now apply elem_of_singleton.
    now rewrite bool_decide_false by discriminate.
  - split; [|exists 0%nat, c0; split; [reflexivity|discriminate]].
    intros [|[|i]]; [|reflexivity|reflexivity]. unfold thread_step. cbn. unfold owner_of. cbn.
    rewrite (bool_decide_false (exclusive = _)) by discriminate. now rewrite bool_decide_true.
Qed.
