(* ===== verification/SocketIo.v ===== *)
(** * Reading and writing through a socket (network.cpp 3031-3600)

    [read_queued], [read_until_queued], [read_until_chunked_queued], [write_queued], [write_file_queued] and their
    synchronous and deferred forms: loops over [recv] and [send] that hand what they get to a callback and, when
    the socket would block, register themselves with the multiplexer and go on from its event.

    What the peer and the poller do is a script: the next bytes of the stream, a socket that would block
    together with the event that ends the wait, or an error.  A script that ends stands for a wait nobody ends.
    The callback is any function on a state of the client; one activation of a loop is one function below, and
    [drive] runs the activations one after the other. *)
From S2P Require Import Prelude Multiplexer.
Open Scope Z_scope.

Definition BLOB_SIZE : Z := 8192.
Definition MAX_READ_UNTIL : nat := 512.

(** ** [socket::read] *)

Inductive rx_event := rx_data (bytes : list Z) | rx_block (wait : socket_poll) | rx_fail (e : errc).
Record link := mk_link { rx : list rx_event; income : Z; connected : bool }.
Inductive read_result := read_bytes (bytes : list Z) | read_error (e : errc) (wait : option socket_poll).

Definition socket_read (l : link) (n : nat) : link * read_result :=
  if negb (connected l) then (l, read_error bad_file_descriptor None)
  else match rx l with
       | [] => (l, read_error operation_would_block None)
       | rx_block wait :: more => (mk_link more (income l) true, read_error operation_would_block (Some wait))
       | rx_fail e :: more => (mk_link more (income l) true, read_error e None)
       | rx_data [] :: more => (mk_link more (income l) true, read_error connection_reset None)
       | rx_data bytes :: more =>
           let got := firstn n bytes in
           let rest := skipn n bytes in
           (mk_link (match rest with [] => more | _ => rx_data rest :: more end)
              (income l + Z.of_nat (length got)) true, read_bytes got)
       end.

(** ** Results

    A loop returns the bytes it counted or an error; or it is suspended with the arguments its continuation
    will pass and the event that will resume it. *)
Inductive io_outcome (K : Type) := returned (r : Z + errc) | suspended (k : K) (wait : option socket_poll).
Arguments returned {K} r.
Arguments suspended {K} k wait.

(** A suspended loop is resumed by the event of its wait; any other end of the wait goes to [abandon]. *)
Fixpoint drive {K C L : Type} (activation : K -> C -> L -> option (C * L * io_outcome K))
    (abandon : K -> socket_poll -> C -> L -> C * L) (fuel : nat) (k : K) (c : C) (l : L) : option (C * L * io_outcome K) :=
  match fuel with
  | O => None
  | S f =>
      '(c, l, o) ← activation k c l;
      match o with
      | suspended k (Some wait) =>
          if is_done wait then drive activation abandon f k c l
          else let (c, l) := abandon k wait c l in Some (c, l, returned (inr operation_would_block))
      | _ => Some (c, l, o)
      end
  end.

Section Reading.
(** [socket_read_callback]: the event and the buffer, null or not. *)
Context {C : Type} (callback : C -> socket_poll -> option (list Z) -> C * bool).

Definition done_event (resumed : bool) : socket_poll := if resumed then poll_finish else poll_finish_sync.
Definition tell (c : C) (event : socket_poll) (buffer : option (list Z)) : C := fst (callback c event buffer).

(** A wait that did not end with the socket being ready is told to the callback. *)
Definition abandon_read {K : Type} (_ : K) (wait : socket_poll) (c : C) (l : link) : C * link := (tell c wait None, l).

(** *** [read_queued] *)

Fixpoint read_loop (fuel : nat) (size offset temp_buffer : Z) (c : C) (l : link) : option (C * link * io_outcome (Z * Z)) :=
  match fuel with
  | O => None
  | S f =>
      if size <=? 0 then Some (tell c (done_event (negb (temp_buffer =? 0))) None, l, returned (inl offset))
      else
        match socket_read l (Z.to_nat (if BLOB_SIZE <? size then BLOB_SIZE else size)) with
        | (l, read_error e wait) =>
            if decide (e = operation_would_block) then Some (c, l, suspended (size, temp_buffer + 1) wait)
            else Some (tell c poll_reset None, l, returned (inr e))
        | (l, read_bytes bytes) =>
            let received := Z.of_nat (length bytes) in
            let (c, go) := callback c poll_next (Some bytes) in
            if go then read_loop f (size - received) (offset + received) temp_buffer c l
            else Some (c, l, returned (inl offset))
        end
  end.
Definition read_queued (fuel : nat) (size temp_buffer : Z) (c : C) (l : link) : option (C * link * io_outcome (Z * Z)) :=
  if negb (connected l) then Some (tell c poll_reset None, l, returned (inr bad_file_descriptor))
  else read_loop fuel size 0 temp_buffer c l.

Definition read_queued_all (fuel : nat) (size : Z) (c : C) (l : link) : option (C * link * io_outcome (Z * Z)) :=
  drive (fun k => read_queued fuel (fst k) (snd k)) abandon_read fuel (size, 0) c l.

(** *** [read_until] and its variants

    The locals of the loops; [buffer] has MAX_READ_UNTIL bytes, of which [cache] were not handed on yet. *)
Record until := mk_until { buffer : list Z; cache : nat; receiving : Z; index : nat }.
Definition empty_buffer : list Z := repeat 0 MAX_READ_UNTIL.
Definition start_until (temp_index : nat) : until := mk_until empty_buffer 0 0 temp_index.
Definition store_at (b : list Z) (at_ : nat) (bytes : list Z) : list Z := firstn at_ b ++ bytes ++ skipn (at_ + length bytes) b.
Definition with_cache (n : nat) (u : until) : until := mk_until (buffer u) n (receiving u) (index u).
Definition with_index (n : nat) (u : until) : until := mk_until (buffer u) (cache u) (receiving u) n.
Definition received_at (bytes : list Z) (u : until) : until :=
  mk_until (store_at (buffer u) (cache u) bytes) (cache u) (receiving u) (index u).

Definition notify_incoming (c : C) (u : until) : C * until * bool :=
  if (cache u =? 0)%nat then (c, u, true)
  else let (c', go) := callback c poll_next (Some (firstn (cache u) (buffer u))) in
       (c', mk_until (buffer u) 0 (receiving u + Z.of_nat (cache u)) (index u), go).

(** [match[index] == buffer[offset]] compares a [char] with a [uint8_t]. *)
Definition same_byte (mark : list Z) (i : nat) (byte : Z) : bool :=
  match nth_error mark i with Some c => i8 c =? byte | None => false end.

(** [read_until_queued] reads byte by byte; [resumed] is [temp_buffer]. *)
Fixpoint until_loop (fuel : nat) (mark : list Z) (resumed : bool) (u : until) (c : C) (l : link)
  : option (C * link * io_outcome (nat * bool)) :=
  match fuel with
  | O => None
  | S f =>
      if (length mark <=? index u)%nat then Some (c, l, returned (inl (receiving u)))
      else
        match socket_read l 1 with
        | (l, read_error e wait) =>
            if decide (e = operation_would_block) then Some (c, l, suspended (index u, true) wait)
            else let '(c, u, go) := notify_incoming c u in
                 Some (if go then tell c poll_reset None else c, l, returned (inr e))
        | (l, read_bytes bytes) =>
            let u := received_at bytes u in
            let offset := cache u in
            let u := with_cache (S (cache u)) u in
            let '(c, u, go) := if (MAX_READ_UNTIL <=? cache u)%nat then notify_incoming c u else (c, u, true) in
            if negb go then Some (c, l, returned (inl (receiving u)))
            else if same_byte mark (index u) (nth offset (buffer u) 0) then
              let u := with_index (S (index u)) u in
              if (length mark <=? index u)%nat then
                let '(c, u, go) := notify_incoming c u in
                Some (if go then tell c (done_event resumed) None else c, l, returned (inl (receiving u)))
              else until_loop f mark resumed u c l
            else until_loop f mark resumed (with_index 0 u) c l
        end
  end.
Definition read_until_queued (fuel : nat) (mark : list Z) (temp_index : nat) (temp_buffer : bool) (c : C) (l : link)
  : option (C * link * io_outcome (nat * bool)) :=
  if negb (connected l) then Some (tell c poll_reset None, l, returned (inr bad_file_descriptor))
  else until_loop fuel mark temp_buffer (start_until temp_index) c l.
Definition read_until_all (fuel : nat) (mark : list Z) (c : C) (l : link) : option (C * link * io_outcome (nat * bool)) :=
  drive (fun k => read_until_queued fuel mark (fst k) (snd k)) abandon_read fuel (0%nat, false) c l.

(** [read_until], the synchronous form: every error ends it. *)
Fixpoint until_sync_loop (fuel : nat) (mark : list Z) (u : until) (c : C) (l : link) : option (C * link * (Z + errc)) :=
  match fuel with
  | O => None
  | S f =>
      if (length mark <=? index u)%nat then Some (c, l, inl (receiving u))
      else
        match socket_read l 1 with
        | (l, read_error e _) =>
            let '(c, u, go) := notify_incoming c u in Some (if go then tell c poll_reset None else c, l, inr e)
        | (l, read_bytes bytes) =>
            let u := received_at bytes u in
            let offset := cache u in
            let u := with_cache (S (cache u)) u in
            let '(c, u, go) := if (MAX_READ_UNTIL <=? cache u)%nat then notify_incoming c u else (c, u, true) in
            if negb go then Some (c, l, inl (receiving u))
            else if same_byte mark (index u) (nth offset (buffer u) 0) then
              let u := with_index (S (index u)) u in
              if (length mark <=? index u)%nat then
                let '(c, u, go) := notify_incoming c u in
                Some (if go then tell c poll_finish_sync None else c, l, inl (receiving u))
              else until_sync_loop f mark u c l
            else until_sync_loop f mark (with_index 0 u) c l
        end
  end.
Definition read_until (fuel : nat) (mark : list Z) (c : C) (l : link) : option (C * link * (Z + errc)) :=
  if negb (connected l) then Some (tell c poll_reset None, l, inr bad_file_descriptor)
  else until_sync_loop fuel mark (start_until 0) c l.

(** [read_until_chunked_queued] reads what is there and scans it; the bytes behind the mark go to the last call.
    [keep_rest] is false in the synchronous form, which drops them. *)
Inductive scan_end := scan_more | scan_stopped | scan_matched.
Fixpoint scan_chunk (keep_rest : bool) (mark : list Z) (final : socket_poll) (remaining length_ : nat) (u : until) (c : C)
  : C * until * scan_end :=
  match remaining with
  | O => (c, u, scan_more)
  | S remaining =>
      let offset := cache u in
      let u := with_cache (S (cache u)) u in
      let '(c, u, go) := if (length_ <=? cache u)%nat then notify_incoming c u else (c, u, true) in
      if negb go then (c, u, scan_stopped)
      else if same_byte mark (index u) (nth offset (buffer u) 0) then
        let u := with_index (S (index u)) u in
        if (length mark <=? index u)%nat then
          let '(c, u, go) := notify_incoming c u in
          if negb go then (c, u, scan_stopped)
          else if keep_rest then
            let u := with_cache (S offset) u in
            (tell c final (if (0 <? remaining)%nat then Some (firstn remaining (skipn (cache u) (buffer u))) else None),
             u, scan_matched)
          else (tell c final None, u, scan_matched)
        else scan_chunk keep_rest mark final remaining length_ u c
      else scan_chunk keep_rest mark final remaining length_ (with_index 0 u) c
  end.

Fixpoint chunked_loop (fuel : nat) (mark : list Z) (resumed : bool) (u : until) (c : C) (l : link)
  : option (C * link * io_outcome (nat * bool)) :=
  match fuel with
  | O => None
  | S f =>
      if (length mark <=? index u)%nat then Some (c, l, returned (inl (receiving u)))
      else
        match socket_read l (MAX_READ_UNTIL - cache u) with
        | (l, read_error e wait) =>
            if decide (e = operation_would_block) then Some (c, l, suspended (index u, true) wait)
            else let '(c, u, go) := notify_incoming c u in
                 Some (if go then tell c poll_reset None else c, l, returned (inr e))
        | (l, read_bytes bytes) =>
            match scan_chunk true mark (done_event resumed) (length bytes) (length bytes) (received_at bytes u) c with
            | (c, u, scan_more) => chunked_loop f mark resumed u c l
            | (c, u, _) => Some (c, l, returned (inl (receiving u)))
            end
        end
  end.
Definition read_until_chunked_queued (fuel : nat) (mark : list Z) (temp_index : nat) (temp_buffer : bool) (c : C) (l : link)
  : option (C * link * io_outcome (nat * bool)) :=
  if negb (connected l) then Some (tell c poll_reset None, l, returned (inr bad_file_descriptor))
  else chunked_loop fuel mark temp_buffer (start_until temp_index) c l.
Definition read_until_chunked_all (fuel : nat) (mark : list Z) (c : C) (l : link) : option (C * link * io_outcome (nat * bool)) :=
  drive (fun k => read_until_chunked_queued fuel mark (fst k) (snd k)) abandon_read fuel (0%nat, false) c l.

Fixpoint chunked_sync_loop (fuel : nat) (mark : list Z) (u : until) (c : C) (l : link) : option (C * link * (Z + errc)) :=
  match fuel with
  | O => None
  | S f =>
      if (length mark <=? index u)%nat then Some (c, l, inl (receiving u))
      else
        match socket_read l (MAX_READ_UNTIL - cache u) with
        | (l, read_error e _) =>
            let '(c, u, go) := notify_incoming c u in Some (if go then tell c poll_reset None else c, l, inr e)
        | (l, read_bytes bytes) =>
            match scan_chunk false mark poll_finish_sync (length bytes) (length bytes) (received_at bytes u) c with
            | (c, u, scan_more) => chunked_sync_loop f mark u c l
            | (c, u, _) => Some (c, l, inl (receiving u))
            end
        end
  end.
Definition read_until_chunked (fuel : nat) (mark : list Z) (c : C) (l : link) : option (C * link * (Z + errc)) :=
  if negb (connected l) then Some (tell c poll_reset None, l, inr bad_file_descriptor)
  else chunked_sync_loop fuel mark (start_until 0) c l.
End Reading.

(** ** The deferred forms: a promise and the string it is to be set to

    [None] is a promise nobody has set; setting one twice is an error of the promise, kept as [twice]. *)
Record deferred := mk_deferred { merged : list Z; max_left : Z; promise : option (list Z + errc); twice : bool }.
Definition settle (v : list Z + errc) (d : deferred) : deferred :=
  match promise d with
  | None => mk_deferred (merged d) (max_left d) (Some v) (twice d)
  | Some _ => mk_deferred (merged d) (max_left d) (promise d) true
  end.
(** The callback of [read_deferred]. *)
Definition merge_all (d : deferred) (event : socket_poll) (b : option (list Z)) : deferred * bool :=
  if is_done event then (settle (inl (merged d)) d, true)
  else if negb (is_data event) then (settle (inr (to_condition event)) d, true)
  else match b with
       | Some ((_ :: _) as bytes) => (mk_deferred (merged d ++ bytes) (max_left d) (promise d) (twice d), true)
       | _ => (d, true)
       end.
(** The callback of [read_until_deferred] and [read_until_chunked_deferred]. *)
Definition merge_limited (d : deferred) (event : socket_poll) (b : option (list Z)) : deferred * bool :=
  if is_done event then (settle (inl (merged d)) d, true)
  else if negb (is_data event) then (settle (inr (to_condition event)) d, true)
  else match b with
       | Some ((_ :: _) as bytes) =>
           let size := Z.min (max_left d) (Z.of_nat (length bytes)) in
           (mk_deferred (merged d ++ firstn (Z.to_nat size) bytes) (max_left d - size) (promise d) (twice d),
            0 <? max_left d - size)
       | _ => (d, true)
       end.
Definition new_deferred (max_size : Z) : deferred := mk_deferred [] max_size None false.
Definition read_deferred (fuel : nat) (size : Z) (l : link) : option (deferred * link * io_outcome (Z * Z)) :=
  read_queued_all merge_all fuel size (new_deferred 0) l.
Definition read_until_deferred (fuel : nat) (mark : list Z) (max_size : Z) (l : link) : option (deferred * link * io_outcome (nat * bool)) :=
  read_until_all merge_limited fuel mark (new_deferred max_size) l.
Definition read_until_chunked_deferred (fuel : nat) (mark : list Z) (max_size : Z) (l : link)
  : option (deferred * link * io_outcome (nat * bool)) :=
  read_until_chunked_all merge_limited fuel mark (new_deferred max_size) l.

(** ** Writing

    [sent] is what the peer was given; [blocks] counts the copies that are allocated.  A size goes through an
    [int] on its way to [send]. *)
Inductive tx_event := tx_take (n : nat) | tx_block (wait : socket_poll) | tx_fail (e : errc).
Record pipe := mk_pipe { tx : list tx_event; sent : list Z; blocks : Z; pipe_connected : bool }.
Inductive write_result := wrote (n : nat) | write_error (e : errc) (wait : option socket_poll).

Definition socket_write (w : pipe) (bytes : list Z) : pipe * write_result :=
  if negb (pipe_connected w) then (w, write_error bad_file_descriptor None)
  else match tx w with
       | [] => (w, write_error operation_would_block None)
       | tx_block wait :: more => (mk_pipe more (sent w) (blocks w) true, write_error operation_would_block (Some wait))
       | tx_fail e :: more => (mk_pipe more (sent w) (blocks w) true, write_error e None)
       | tx_take n :: more =>
           let taken := firstn (S n) bytes in
           (mk_pipe more (sent w ++ taken) (blocks w) true, wrote (length taken))
       end.
Definition add_blocks (n : Z) (w : pipe) : pipe := mk_pipe (tx w) (sent w) (blocks w + n) (pipe_connected w).

Section Writing.
(** [socket_written_callback]. *)
Context {C : Type} (callback : C -> socket_poll -> C).

(** The arguments of [write_queued] after the socket: the buffer, the bytes left, the copy if there is one, and
    how far into the buffer they begin. *)
Record write_args := mk_write_args { wbuffer : list Z; wsize : nat; wtemp : option (list Z); woffset : nat }.
Definition deallocate_temp (copy : bool) (temp : option (list Z)) (w : pipe) : pipe :=
  if copy && is_some temp then add_blocks (-1) w else w.
Definition slice (b : list Z) (offset size : nat) : list Z := firstn size (skipn offset b).

Fixpoint write_loop (fuel : nat) (copy : bool) (payload : nat) (written : Z) (a : write_args) (c : C) (w : pipe)
  : option (C * pipe * io_outcome write_args) :=
  match fuel with
  | O => None
  | S f =>
      if (wsize a =? 0)%nat then
        let w := deallocate_temp copy (wtemp a) w in
        Some (callback c (if is_some (wtemp a) then poll_finish else poll_finish_sync), w, returned (inl written))
      else
        match socket_write w (slice (wbuffer a) (woffset a) (Z.to_nat (i32 (Z.of_nat (wsize a))))) with
        | (w, write_error e wait) =>
            if decide (e = operation_would_block) then
              let '(temp, w) :=
                match wtemp a with
                | Some t => (t, w)
                | None => if copy then (firstn payload (wbuffer a), add_blocks 1 w) else (wbuffer a, w)
                end in
              Some (c, w, suspended (mk_write_args temp (wsize a) (Some temp) (woffset a)) wait)
            else Some (callback c poll_reset, deallocate_temp copy (wtemp a) w, returned (inr e))
        | (w, wrote n) =>
            write_loop f copy payload (written + Z.of_nat n)
              (mk_write_args (wbuffer a) (wsize a - n) (wtemp a) (woffset a + n)) c w
        end
  end.
Definition write_queued (fuel : nat) (copy : bool) (a : write_args) (c : C) (w : pipe) : option (C * pipe * io_outcome write_args) :=
  if negb (pipe_connected w) then Some (callback c poll_reset, deallocate_temp copy (wtemp a) w, returned (inr bad_file_descriptor))
  else write_loop fuel copy (wsize a) 0 a c w.
Definition abandon_write (copy : bool) (a : write_args) (wait : socket_poll) (c : C) (w : pipe) : C * pipe :=
  (callback c wait, deallocate_temp copy (wtemp a) w).
Definition write_queued_all (fuel : nat) (copy : bool) (data : list Z) (c : C) (w : pipe) : option (C * pipe * io_outcome write_args) :=
  drive (write_queued fuel copy) (abandon_write copy) fuel (mk_write_args data (length data) None 0) c w.

(** [write_file_queued]: the bytes come from a file; a platform that cannot send a file says so without a call. *)
Record file_args := mk_file_args { foffset : nat; fsize : nat; ftemp : Z }.
Fixpoint write_file_loop (fuel : nat) (file : list Z) (written : Z) (a : file_args) (c : C) (w : pipe)
  : option (C * pipe * io_outcome file_args) :=
  match fuel with
  | O => None
  | S f =>
      if (fsize a =? 0)%nat then
        Some (callback c (if ftemp a =? 0 then poll_finish_sync else poll_finish), w, returned (inl written))
      else
        match socket_write w (slice file (foffset a) (fsize a)) with
        | (w, write_error e wait) =>
            if decide (e = operation_would_block) then
              Some (c, w, suspended (mk_file_args (foffset a) (fsize a) (ftemp a + 1)) wait)
            else Some (if decide (e = not_supported) then c else callback c poll_reset, w, returned (inr e))
        | (w, wrote n) =>
            write_file_loop f file (written + Z.of_nat n) (mk_file_args (foffset a + n) (fsize a - n) (ftemp a)) c w
        end
  end.
Definition write_file_queued (fuel : nat) (file : list Z) (a : file_args) (c : C) (w : pipe) : option (C * pipe * io_outcome file_args) :=
  if negb (pipe_connected w) then Some (callback c poll_reset, w, returned (inr bad_file_descriptor))
  else write_file_loop fuel file 0 a c w.
Definition write_file_all (fuel : nat) (file : list Z) (offset size : nat) (c : C) (w : pipe) : option (C * pipe * io_outcome file_args) :=
  drive (write_file_queued fuel file) (fun _ wait c w => (callback c wait, w)) fuel (mk_file_args offset size 0) c w.
End Writing.

(** The callbacks of [write_deferred] and [write_file_deferred] set a promise. *)
Definition settle_size (size : Z) (p : option (Z + errc)) (event : socket_poll) : option (Z + errc) :=
  match p with Some _ => p | None => Some (if is_done event then inl size else inr (to_condition event)) end.
Definition write_deferred (fuel : nat) (copy : bool) (data : list Z) (w : pipe) : option (option (Z + errc) * pipe * io_outcome write_args) :=
  write_queued_all (settle_size (Z.of_nat (length data))) fuel copy data None w.
Definition write_file_deferred (fuel : nat) (file : list Z) (offset size : nat) (w : pipe)
  : option (option (Z + errc) * pipe * io_outcome file_args) :=
  write_file_all (settle_size (Z.of_nat size)) fuel file offset size None w.
