(* ===== verification/SocketFacts.v ===== *)
(** * Reading and writing through a socket: what arrives

    For every script of the peer (SocketIo.v): a read of [n] bytes hands over exactly the next [n] bytes, a read
    up to a mark hands over the bytes up to it and the rest apart, a write sends its buffer in order, calls back
    once and frees its copy - and the ways in which bytes or calls are lost. *)
From S2P Require Import Prelude Multiplexer SocketIo.
Open Scope Z_scope.

(** ** Scripts *)

(** The peer sends, and every wait ends with the socket being ready. *)
Definition good_event (e : rx_event) : bool :=
  match e with rx_data (_ :: _) => true | rx_block wait => is_done wait | _ => false end.
Definition good (es : list rx_event) : Prop := forallb good_event es = true.
Definition event_bytes (e : rx_event) : list Z := match e with rx_data bs => bs | _ => [] end.
Definition stream (es : list rx_event) : list Z := concat (map event_bytes es).

(** One [recv] on a good script. *)
Lemma socket_read_good es inc n : good es -> (0 < n)%nat ->
  match es with
  | [] => True
  | rx_block wait :: more => good more /\ is_done wait = true /\ stream es = stream more /\
      socket_read (mk_link es inc true) n = (mk_link more inc true, read_error operation_would_block (Some wait))
  | _ => exists got es', got <> [] /\ (length got <= n)%nat /\ stream es = got ++ stream es' /\ good es' /\
      (length es' <= length es)%nat /\
      socket_read (mk_link es inc true) n = (mk_link es' (inc + Z.of_nat (length got)) true, read_bytes got)
  end.
Proof.
  intros G Hn. destruct es as [|[bs|wait|e] more]; [exact I| | |discriminate].
  - unfold good in G. cbn in G. destruct bs as [|b bs]; [discriminate|]. apply andb_prop in G as [_ G].
    exists (firstn n (b :: bs)), (match skipn n (b :: bs) with [] => more | r => rx_data r :: more end).
    split; [destruct n; [lia|discriminate]|]. split; [rewrite length_firstn; lia|].
    pose proof (firstn_skipn n (b :: bs)) as F. unfold socket_read. cbn [connected rx negb income].
    destruct (skipn n (b :: bs)) as [|r rs] eqn:K; (split; [|split; [|split]]).
    + rewrite app_nil_r in F. unfold stream. cbn [map concat event_bytes]. rewrite F. reflexivity.
    + exact G.
    + cbn. lia.
    + reflexivity.
    + unfold stream. cbn [map concat event_bytes]. now rewrite app_assoc, F.
    + unfold good. cbn. exact G.
    + cbn. lia.
    + reflexivity.
  - unfold good in G. cbn in G. apply andb_prop in G as [W G]. split; [exact G|]. split; [exact W|]. split; reflexivity.
Qed.

(** ** Reading a number of bytes *)
Section Reading.
Context {C : Type} (callback : C -> socket_poll -> option (list Z) -> C * bool).
(** [Agrees c n]: the client wants to go on for the next [n] bytes. *)
Context (Agrees : C -> nat -> Prop).
Context (Agree : forall c n b, Agrees c n -> (length b <= n)%nat ->
  snd (callback c poll_next (Some b)) = true /\ Agrees (fst (callback c poll_next (Some b))) (n - length b)).

(** The client after it was given some pieces. *)
Definition given (c : C) (pieces : list (list Z)) : C := fold_left (fun c b => tell callback c poll_next (Some b)) pieces c.
Lemma given_app c p q : given c (p ++ q) = given (given c p) q.
Proof. apply fold_left_app. Qed.

Lemma agree_next c n b : Agrees c n -> (length b <= n)%nat ->
  callback c poll_next (Some b) = (given c [b], true) /\ Agrees (given c [b]) (n - length b).
Proof.
  intros A L. destruct (Agree c n b A L) as [G A']. unfold given, tell in *. cbn.
  destruct (callback c poll_next (Some b)) as [c' go]. cbn in *. subst go. auto.
Qed.

(** One activation: everything was read, or it waits for the rest. *)
Definition read_progress (size tb : Z) (c : C) (es : list rx_event) (r : C * link * io_outcome (Z * Z)) : Prop :=
  let '(c', l', o) := r in
  exists pieces es' inc', l' = mk_link es' inc' true /\ good es' /\ stream es = concat pieces ++ stream es' /\
    match o with
    | returned (inl _) => Z.of_nat (length (concat pieces)) = size /\
        c' = tell callback (given c pieces) (done_event (negb (tb =? 0))) None
    | suspended k (Some wait) => is_done wait = true /\ (length es' < length es)%nat /\
        fst k = size - Z.of_nat (length (concat pieces)) /\ snd k = tb + 1 /\ 0 < fst k /\ c' = given c pieces /\
        Agrees c' (Z.to_nat (fst k))
    | _ => False
    end.

Lemma read_progress_more size tb c es b es' r : stream es = b ++ stream es' -> (length es' <= length es)%nat ->
  read_progress (size - Z.of_nat (length b)) tb (given c [b]) es' r -> read_progress size tb c es r.
Proof.
  intros S L. destruct r as [[c' l'] o]. intros (pieces & es2 & inc & El & G & S2 & O). exists (b :: pieces), es2, inc.
  split; [exact El|]. split; [exact G|]. split; [cbn; now rewrite S, S2, app_assoc|].
  cbn [concat]. rewrite length_app, Nat2Z.inj_add.
  destruct o as [[off|e]|k [wait|]]; [destruct O as [O1 O2]; split; [lia|exact O2]|exact O| |exact O].
  destruct O as (W & Le & K & T & P & E & A). split; [exact W|]. split; [lia|]. split; [lia|]. auto.
Qed.

Lemma read_loop_spec fuel size offset tb c es inc : good es -> 0 <= size -> size <= Z.of_nat (length (stream es)) ->
  Agrees c (Z.to_nat size) -> (Z.to_nat size < fuel)%nat ->
  exists r, read_loop callback fuel size offset tb c (mk_link es inc true) = Some r /\ read_progress size tb c es r.
Proof.
  revert size offset c es inc. induction fuel as [|f IH]; intros size offset c es inc G P L A F; [lia|]. cbn [read_loop].
  destruct (Z.leb_spec size 0) as [Z0|Z0].
  - eexists. split; [reflexivity|]. exists [], es, inc. repeat split; auto. cbn. lia.
  - set (n := Z.to_nat (if BLOB_SIZE <? size then BLOB_SIZE else size)).
    assert (Hn : (0 < n)%nat /\ Z.of_nat n <= size) by (unfold n, BLOB_SIZE; destruct (Z.ltb_spec 8192 size); lia).
    pose proof (socket_read_good es inc n G (proj1 Hn)) as R. destruct es as [|e more]; [cbn in L; lia|].
    destruct e as [bs|wait|e].
    + destruct R as (got & es' & N & Ln & S & G' & Le & ->). rewrite S, length_app in L.
      assert (Lg : (0 < length got)%nat) by (destruct got; [congruence|cbn; lia]).
      destruct (agree_next c (Z.to_nat size) got A) as [-> A']; [lia|].
      destruct (IH (size - Z.of_nat (length got)) (offset + Z.of_nat (length got)) (given c [got]) es' (inc + Z.of_nat (length got)))
        as (r & E & Pr); [exact G'|lia|lia| |lia|].
      { now replace (Z.to_nat (size - Z.of_nat (length got))) with (Z.to_nat size - length got)%nat by lia. }
      exists r. split; [exact E|]. now apply (read_progress_more size tb c _ got es').
    + destruct R as (G' & W & S & ->). rewrite decide_True by reflexivity. eexists. split; [reflexivity|].
      exists [], more, inc. cbn. repeat split; auto; lia.
    + unfold good in G. discriminate.
Qed.

(** A read of [size] bytes that the peer sends. *)
Lemma read_queued_all_spec fuel1 fuel size tb c es inc : good es -> 0 <= size <= Z.of_nat (length (stream es)) ->
  Agrees c (Z.to_nat size) -> (Z.to_nat size < fuel1)%nat -> (length es < fuel)%nat ->
  exists pieces es' inc' off tb',
    drive (fun k => read_queued callback fuel1 (fst k) (snd k)) (abandon_read callback) fuel (size, tb) c (mk_link es inc true) =
      Some (tell callback (given c pieces) (done_event (negb (tb' =? 0))) None, mk_link es' inc' true, returned (inl off)) /\
    concat pieces = firstn (Z.to_nat size) (stream es) /\ stream es' = skipn (Z.to_nat size) (stream es).
Proof.
  revert size tb c es inc. induction fuel as [|f IH]; intros size tb c es inc G [P L] A F1 F; [lia|]. cbn [drive fst snd].
  change (read_queued callback fuel1 size tb c (mk_link es inc true)) with
    (read_loop callback fuel1 size 0 tb c (mk_link es inc true)).
  destruct (read_loop_spec fuel1 size 0 tb c es inc G P L A F1) as ([[c' l'] o] & -> & pieces & es' & inc' & -> & G' & S & O).
  cbn [mbind option_bind]. destruct o as [[off|e]|k [wait|]]; [|contradiction| |contradiction].
  - destruct O as [O1 ->]. exists pieces, es', inc', off, tb. split; [reflexivity|].
    replace (Z.to_nat size) with (length (concat pieces)) by lia. rewrite S, firstn_app, skipn_app, firstn_all, skipn_all, Nat.sub_diag.
    cbn. now rewrite app_nil_r.
  - destruct O as (-> & Le & K & T & Pk & -> & A'). destruct k as [size' tb']. cbn [fst snd] in *. subst size' tb'.
    rewrite S, length_app in L.
    destruct (IH (size - Z.of_nat (length (concat pieces))) (tb + 1) (given c pieces) es' inc') as (ps & es2 & inc2 & off & tb2 & E & E1 & E2);
      [exact G'|lia|exact A'|lia|lia|].
    exists (pieces ++ ps), es2, inc2, off, tb2. rewrite given_app. split; [exact E|].
    rewrite S, concat_app, E1, E2, firstn_app, skipn_app.
    replace (Z.to_nat (size - Z.of_nat (length (concat pieces)))) with (Z.to_nat size - length (concat pieces))%nat by lia.
    rewrite (firstn_all2 (concat pieces)), (skipn_all2 (concat pieces)) by lia. split; reflexivity.
Qed.
End Reading.

(** ** Looking for a mark *)

(** What the loops look for: the comparison of [match] with the next byte, from an index of the mark; a byte that
    does not fit starts the mark again behind it. *)
Definition advance (mark : list Z) (i : nat) (byte : Z) : nat := if same_byte mark i byte then S i else 0%nat.
Fixpoint until_mark (mark : list Z) (i : nat) (bytes : list Z) : option (list Z * list Z) :=
  match bytes with
  | [] => None
  | b :: bytes =>
      if (length mark <=? advance mark i b)%nat then Some ([b], bytes)
      else '(before, rest) ← until_mark mark (advance mark i b) bytes; Some (b :: before, rest)
  end.
Definition index_after (mark : list Z) (i : nat) (bytes : list Z) : nat := fold_left (advance mark) bytes i.

Lemma until_mark_app mark i a b :
  until_mark mark i (a ++ b) =
  match until_mark mark i a with
  | Some (before, rest) => Some (before, rest ++ b)
  | None => '(before, rest) ← until_mark mark (index_after mark i a) b; Some (a ++ before, rest)
  end.
Proof.
  revert i. induction a as [|x a IH]; intros i; cbn; [now destruct (until_mark mark i b) as [[? ?]|]|].
  destruct (length mark <=? advance mark i x)%nat; [reflexivity|]. rewrite IH.
  destruct (until_mark mark (advance mark i x) a) as [[? ?]|]; cbn; [reflexivity|]. unfold index_after.
  now destruct (until_mark mark _ b) as [[? ?]|].
Qed.
Lemma until_mark_split mark i bytes before rest : until_mark mark i bytes = Some (before, rest) -> bytes = before ++ rest /\ before <> [].
Proof.
  revert i before. induction bytes as [|b bytes IH]; intros i before; cbn; [discriminate|].
  destruct (length mark <=? advance mark i b)%nat; [intros [= <- <-]; split; [reflexivity|discriminate]|].
  destruct (until_mark mark (advance mark i b) bytes) as [[p r]|] eqn:E; cbn; [|discriminate]. intros [= <- <-].
  destruct (IH _ _ E) as [-> _]. split; [reflexivity|discriminate].
Qed.
Lemma index_after_small mark i bytes : (i < length mark)%nat -> until_mark mark i bytes = None ->
  (index_after mark i bytes < length mark)%nat.
Proof.
  revert i. induction bytes as [|b bytes IH]; intros i Hi; cbn; [intros _; exact Hi|].
  destruct (Nat.leb_spec (length mark) (advance mark i b)); [discriminate|]. intros E. apply IH; [assumption|].
  now destruct (until_mark mark (advance mark i b) bytes) as [[? ?]|].
Qed.

(** What was found ends with the mark. *)
Definition ascii_mark (mark : list Z) : Prop := List.Forall (fun c => 0 <= c < 128) mark.
Lemma i8_ascii c : 0 <= c < 128 -> i8 c = c.
Proof. intros. unfold wrapS. change (2 ^ (8 - 1)) with 128. change (2 ^ 8) with 256. rewrite Z.mod_small; lia. Qed.
Lemma same_byte_ascii mark i b : ascii_mark mark -> same_byte mark i b = true <-> nth_error mark i = Some b.
Proof.
  intros A. unfold same_byte. destruct (nth_error mark i) as [c|] eqn:E; [|split; discriminate].
  apply nth_error_In in E. unfold ascii_mark in A. rewrite List.Forall_forall in A. rewrite i8_ascii by now apply A.
  rewrite Z.eqb_eq. split; congruence.
Qed.
Lemma firstn_S_nth {A} (l : list A) i x : nth_error l i = Some x -> firstn (S i) l = firstn i l ++ [x].
Proof. revert i. induction l as [|y l IH]; intros [|i]; cbn; try discriminate; [now intros [= ->]|]. intros E. now rewrite (IH _ E). Qed.

Lemma until_mark_sound mark i bytes before rest : ascii_mark mark -> (i < length mark)%nat ->
  until_mark mark i bytes = Some (before, rest) -> exists x, firstn i mark ++ before = x ++ mark.
Proof.
  intros A. revert i before. induction bytes as [|b bytes IH]; intros i before Hi; cbn; [discriminate|].
  unfold advance. destruct (same_byte mark i b) eqn:S.
  - apply same_byte_ascii in S; [|exact A]. destruct (Nat.leb_spec (length mark) (Datatypes.S i)) as [L|L].
    + intros [= <- <-]. exists []. cbn. rewrite <- (firstn_S_nth _ _ _ S). apply firstn_all2. lia.
    + destruct (until_mark mark (Datatypes.S i) bytes) as [[p r]|] eqn:E; cbn; [|discriminate]. intros [= <- <-].
      destruct (IH _ _ L E) as [x X]. exists x. rewrite (firstn_S_nth _ _ _ S), <- app_assoc in X. exact X.
  - destruct (Nat.leb_spec (length mark) 0); [lia|].
    destruct (until_mark mark 0 bytes) as [[p r]|] eqn:E; cbn; [|discriminate]. intros [= <- <-].
    destruct (IH 0%nat p) as [x X]; [lia|exact E|]. change (p = x ++ mark) in X. exists (firstn i mark ++ b :: x). rewrite <- app_assoc. cbn. now rewrite X.
Qed.

(** A mark is found behind bytes that do not begin it. *)
Lemma until_mark_plain mark x y : ascii_mark mark -> mark <> [] -> ~ In (hd 0 mark) x ->
  until_mark mark 0 (x ++ mark ++ y) = Some (x ++ mark, y).
Proof.
  intros A N H. induction x as [|b x IH].
  - cbn [app]. assert (G : forall i, (i < length mark)%nat -> until_mark mark i (skipn i mark ++ y) = Some (skipn i mark, y)).
    { intros i. remember (length mark - i)%nat as k eqn:K. revert i K. induction k as [|k IHk]; intros i K Hi; [lia|].
      destruct (skipn i mark) as [|c r] eqn:E; [apply (f_equal (@length _)) in E; rewrite length_skipn in E; cbn in E; lia|].
      assert (Ec : nth_error mark i = Some c) by (rewrite <- (Nat.add_0_r i), <- nth_error_skipn, E; reflexivity).
      assert (Er : skipn (S i) mark = r) by (change (S i) with (1 + i)%nat; rewrite <- skipn_skipn, E; reflexivity).
      cbn. unfold advance. rewrite (proj2 (same_byte_ascii _ _ _ A) Ec). destruct (Nat.leb_spec (length mark) (S i)) as [L|L].
      - rewrite skipn_all2 in Er by lia. now subst r.
      - rewrite <- Er. now rewrite (IHk (S i)) by lia. }
    apply (G 0%nat). destruct mark; [congruence|cbn; lia].
  - cbn. unfold advance. destruct (same_byte mark 0 b) eqn:S.
    + apply same_byte_ascii in S; [|exact A]. exfalso. apply H. destruct mark; [congruence|]. cbn in *. left. congruence.
    + destruct (Nat.leb_spec (length mark) 0) as [L|L]; [destruct mark; [congruence|cbn in L; lia]|].
      rewrite IH by (intros I; apply H; now right). reflexivity.
Qed.

(** ** Reading up to a mark in pieces *)
Section Chunks.
Context {C : Type} (callback : C -> socket_poll -> option (list Z) -> C * bool).

(** The buffer pointer of the last call is null when nothing is left. *)
Definition rest_buffer (rest : list Z) : option (list Z) := match rest with [] => None | _ => Some rest end.

(** What scanning a piece comes to: one call with the bytes up to the mark, or with all of them. *)
Definition scanned (mark : list Z) (final : socket_poll) (i : nat) (seen chunk : list Z) (c : C)
    (r : C * until * scan_end) : Prop :=
  match until_mark mark i chunk with
  | Some (before, rest) =>
      let (c', go) := callback c poll_next (Some (seen ++ before)) in
      exists u, r = if go : bool then (tell callback c' final (rest_buffer rest), u, scan_matched) else (c', u, scan_stopped)
  | None =>
      let (c', go) := callback c poll_next (Some (seen ++ chunk)) in
      exists u, r = (c', u, if go : bool then scan_more else scan_stopped) /\
        (go = true -> cache u = 0%nat /\ index u = index_after mark i chunk)
  end.

Lemma skipn_cons_nth (l : list Z) k : (k < length l)%nat -> skipn k l = nth k l 0 :: skipn (S k) l.
Proof. revert k. induction l as [|x l IH]; intros [|k] H; cbn in *; try lia; [reflexivity|]. apply IH. lia. Qed.
Lemma firstn_snoc_nth (l : list Z) k : (k < length l)%nat -> firstn (S k) l = firstn k l ++ [nth k l 0].
Proof. revert k. induction l as [|x l IH]; intros [|k] H; cbn in *; try lia; [reflexivity|]. f_equal. apply IH. lia. Qed.

Lemma buffer_front (b chunk tl : list Z) k : b = chunk ++ tl -> (k < length chunk)%nat ->
  nth k b 0 = nth k chunk 0 /\ firstn (S k) b = firstn k chunk ++ [nth k chunk 0].
Proof.
  intros -> H. rewrite app_nth1 by exact H. split; [reflexivity|]. rewrite <- firstn_snoc_nth by exact H. rewrite firstn_app.
  replace (S k - length chunk)%nat with 0%nat by lia. cbn [firstn]. apply app_nil_r.
Qed.

(** One byte of the piece, by what it does to the index. *)
Lemma scan_chunk_step mark final len r b k rc i c :
  scan_chunk callback true mark final (S r) len (mk_until b k rc i) c =
  let '(c, u, go) := if (len <=? S k)%nat then notify_incoming callback c (mk_until b (S k) rc i) else (c, mk_until b (S k) rc i, true) in
  if negb go then (c, u, scan_stopped)
  else if same_byte mark (index u) (nth k (buffer u) 0) then
    if (length mark <=? S (index u))%nat then
      let '(c, u, go) := notify_incoming callback c (with_index (S (index u)) u) in
      if negb go then (c, u, scan_stopped)
      else (tell callback c final (if (0 <? r)%nat then Some (firstn r (skipn (S k) (buffer u))) else None),
            with_cache (S k) u, scan_matched)
    else scan_chunk callback true mark final r len (with_index (S (index u)) u) c
  else scan_chunk callback true mark final r len (with_index 0 u) c.
Proof. reflexivity. Qed.

Lemma notify_some c b k rc i : notify_incoming callback c (mk_until b (S k) rc i) =
  let (c', go) := callback c poll_next (Some (firstn (S k) b)) in
  (c', mk_until b 0 (rc + Z.of_nat (S k)) i, go).
Proof. reflexivity. Qed.
Lemma notify_none c b rc i : notify_incoming callback c (mk_until b 0 rc i) = (c, mk_until b 0 rc i, true).
Proof. reflexivity. Qed.

Lemma scan_chunk_spec mark final chunk tl remaining b k rc i c : b = chunk ++ tl ->
  (k + S remaining = length chunk)%nat -> (i < length mark)%nat ->
  scanned mark final i (firstn k chunk) (skipn k chunk) c
    (scan_chunk callback true mark final (S remaining) (length chunk) (mk_until b k rc i) c).
Proof.
  intros Hb. revert k rc i c. induction remaining as [|r IH]; intros k rc i c Hk Hi; destruct (buffer_front b chunk tl k Hb) as [Nb F]; try lia.
  - rewrite scan_chunk_step, (proj2 (Nat.leb_le (length chunk) (S k))), notify_some, F by lia.
    unfold scanned. rewrite (skipn_cons_nth chunk k), (skipn_all2 chunk) by lia. cbn [until_mark].
    unfold advance, index_after. cbn [fold_left advance]. unfold advance.
    destruct (callback c poll_next (Some (firstn k chunk ++ [nth k chunk 0]))) as [c' go] eqn:E. cbn [index buffer]. rewrite Nb.
    destruct (same_byte mark i (nth k chunk 0)) eqn:Sb.
    + destruct (Nat.leb_spec (length mark) (S i)) as [L|L].
      * rewrite E. destruct go; cbn [negb]; [|eauto]. unfold with_index. cbn [buffer cache receiving index]. rewrite notify_none. cbn. eauto.
      * cbn [mbind option_bind]. destruct go; cbn; eexists; split; try reflexivity; [auto|discriminate].
    + destruct (Nat.leb_spec (length mark) 0) as [L|L]; [lia|]. cbn [mbind option_bind].
      destruct go; cbn; eexists; split; try reflexivity; [auto|discriminate].
  - rewrite scan_chunk_step, (proj2 (Nat.leb_gt (length chunk) (S k))) by lia. cbn [negb index buffer]. rewrite Nb.
    pose proof (firstn_snoc_nth chunk k) as Fs.
    unfold scanned. rewrite (skipn_cons_nth chunk k) by lia. cbn [until_mark]. unfold advance.
    assert (Next : forall i', (i' < length mark)%nat -> i' = advance mark i (nth k chunk 0) ->
      scanned mark final i (firstn k chunk) (nth k chunk 0 :: skipn (S k) chunk) c
        (scan_chunk callback true mark final (S r) (length chunk) (mk_until b (S k) rc i') c)).
    { intros i' Hi' Ei. pose proof (IH (S k) rc i' c ltac:(lia) Hi') as S1. unfold scanned in *. cbn [until_mark].
      rewrite <- Ei, (proj2 (Nat.leb_gt (length mark) i')) by exact Hi'. rewrite Fs in S1 by lia.
      destruct (until_mark mark i' (skipn (S k) chunk)) as [[p q]|]; cbn [mbind option_bind]; rewrite <- app_assoc in S1; [exact S1|].
      unfold index_after in *. cbn [fold_left]. rewrite <- Ei. exact S1. }
    unfold scanned in Next. cbn [until_mark] in Next. unfold advance in Next. unfold advance in *.
    destruct (same_byte mark i (nth k chunk 0)) eqn:Sb.
    + destruct (Nat.leb_spec (length mark) (S i)) as [L|L].
      * unfold with_index. cbn [buffer cache receiving index]. rewrite notify_some, F.
        destruct (callback c poll_next (Some (firstn k chunk ++ [nth k chunk 0]))) as [c' go]. destruct go; cbn [negb]; [|eauto].
        cbn [buffer]. eexists. f_equal. f_equal. unfold rest_buffer. f_equal.
        assert (K : firstn (S r) (skipn (S k) b) = skipn (S k) chunk).
        { rewrite Hb, skipn_app, firstn_app. rewrite (firstn_all2 (skipn (S k) chunk)) by (rewrite length_skipn; lia).
          rewrite length_skipn. replace (S r - (length chunk - S k))%nat with 0%nat by lia. cbn [firstn]. apply app_nil_r. }
        rewrite K, (skipn_cons_nth chunk (S k)) by lia. reflexivity.
      * exact (Next (S i) L eq_refl).
    + destruct (Nat.leb_spec (length mark) 0) as [L|L]; [lia|]. exact (Next 0%nat L eq_refl).
Qed.

Context (Agrees : C -> nat -> Prop).
Context (Agree : forall c n b, Agrees c n -> (length b <= n)%nat ->
  snd (callback c poll_next (Some b)) = true /\ Agrees (fst (callback c poll_next (Some b))) (n - length b)).

Lemma scan_all mark final chunk tl rc i c : chunk <> [] -> (i < length mark)%nat ->
  scanned mark final i [] chunk c (scan_chunk callback true mark final (length chunk) (length chunk) (mk_until (chunk ++ tl) 0 rc i) c).
Proof.
  intros N Hi. destruct chunk as [|x l]; [congruence|].
  apply (scan_chunk_spec mark final (x :: l) tl (length l) ((x :: l) ++ tl) 0 rc i c); [reflexivity|reflexivity|exact Hi].
Qed.

(** One activation: the mark was found, or the loop waits with its index. *)
Definition until_progress (mark : list Z) (resumed : bool) (c : C) (es : list rx_event) (before rest : list Z)
    (r : C * link * io_outcome (nat * bool)) : Prop :=
  let '(c', l', o) := r in
  exists pieces es' inc', l' = mk_link es' inc' true /\ good es' /\
    match o with
    | returned (inl _) => exists left, concat pieces = before /\ left ++ stream es' = rest /\
        c' = tell callback (given callback c pieces) (done_event resumed) (rest_buffer left)
    | suspended k (Some wait) => exists before', is_done wait = true /\ (length es' < length es)%nat /\
        before = concat pieces ++ before' /\ until_mark mark (fst k) (stream es') = Some (before', rest) /\
        snd k = true /\ (fst k < length mark)%nat /\ c' = given callback c pieces /\ Agrees c' (length before')
    | _ => False
    end.

Lemma until_progress_more mark resumed c es b es' before rest r : (length es' <= length es)%nat ->
  until_progress mark resumed (given callback c [b]) es' before rest r -> until_progress mark resumed c es (b ++ before) rest r.
Proof.
  intros L. destruct r as [[c' l'] o]. intros (pieces & es2 & inc & El & G & O). exists (b :: pieces), es2, inc.
  split; [exact El|]. split; [exact G|]. cbn [concat].
  destruct o as [[off|e]|k [wait|]]; [|exact O| |exact O].
  - destruct O as (left & E1 & E2 & E3). exists left. rewrite E1. auto.
  - destruct O as (before' & W & Le & E & U & K & Lk & Ec & A). exists before'. rewrite E, app_assoc. repeat split; auto. lia.
Qed.

Lemma chunked_loop_spec fuel mark resumed u c es inc before rest : good es -> cache u = 0%nat -> (index u < length mark)%nat ->
  until_mark mark (index u) (stream es) = Some (before, rest) -> Agrees c (length before) -> (length (stream es) < fuel)%nat ->
  exists r, chunked_loop callback fuel mark resumed u c (mk_link es inc true) = Some r /\ until_progress mark resumed c es before rest r.
Proof.
  revert u c es inc before. induction fuel as [|f IH]; intros u c es inc before G Hc Hi U A F; [lia|]. cbn [chunked_loop].
  rewrite (proj2 (Nat.leb_gt _ _) Hi). rewrite Hc, Nat.sub_0_r.
  pose proof (socket_read_good es inc MAX_READ_UNTIL G ltac:(unfold MAX_READ_UNTIL; lia)) as R.
  destruct es as [|e more]; [discriminate U|].
  destruct e as [bs|wait|e].
  - destruct R as (got & es' & N & Ln & S & G' & Le & ->). destruct u as [b k rc i]. cbn [cache index] in Hc, Hi, U. subst k.
    unfold received_at. cbn [buffer cache receiving index]. change (store_at b 0 got) with (got ++ skipn (0 + length got) b).
    pose proof (scan_all mark (done_event resumed) got (skipn (0 + length got) b) rc i c N Hi) as Sc. unfold scanned in Sc.
    rewrite S, until_mark_app in U. destruct (until_mark mark i got) as [[p q]|] eqn:Ug.
    + injection U as <- <-. cbn [app] in Sc. destruct (agree_next callback Agrees Agree c (length p) p A) as [E _]; [lia|].
      rewrite E in Sc. destruct Sc as [u' Eu]. rewrite Eu. eexists. split; [reflexivity|].
      exists [p], es', (inc + Z.of_nat (length got)). split; [reflexivity|]. split; [exact G'|]. exists q.
      split; [apply app_nil_r|]. split; reflexivity.
    + destruct (until_mark mark (index_after mark i got) (stream es')) as [[p q]|] eqn:U'; [|discriminate U].
      injection U as <- <-. cbn [app] in Sc. rewrite length_app in A.
      destruct (agree_next callback Agrees Agree c (length got + length p) got A) as [E A']; [lia|].
      rewrite E in Sc. destruct Sc as (u' & Eu & Hu). destruct (Hu eq_refl) as [Hc' Hi']. rewrite Eu.
      replace (length got + length p - length got)%nat with (length p) in A' by lia.
      destruct (IH u' (given callback c [got]) es' (inc + Z.of_nat (length got)) p) as (r & Er & P); auto.
      * rewrite Hi'. now apply index_after_small.
      * now rewrite Hi'.
      * rewrite S, length_app in F. destruct got; [congruence|cbn in F; lia].
      * exists r. split; [exact Er|]. now apply (until_progress_more _ _ _ _ _ es').
  - destruct R as (G' & W & S & ->). rewrite decide_True by reflexivity. eexists. split; [reflexivity|].
    exists [], more, inc. split; [reflexivity|]. split; [exact G'|]. exists before. rewrite S in U. cbn. repeat split; auto.
  - discriminate.
Qed.

Lemma chunked_drive_spec fuel1 fuel mark i resumed c es inc before rest : good es -> (i < length mark)%nat ->
  until_mark mark i (stream es) = Some (before, rest) -> Agrees c (length before) ->
  (length (stream es) < fuel1)%nat -> (length es < fuel)%nat ->
  exists pieces es' inc' left off last,
    drive (fun k => read_until_chunked_queued callback fuel1 mark (fst k) (snd k)) (abandon_read callback) fuel (i, resumed) c
      (mk_link es inc true) =
      Some (tell callback (given callback c pieces) (done_event last) (rest_buffer left), mk_link es' inc' true, returned (inl off)) /\
    concat pieces = before /\ left ++ stream es' = rest.
Proof.
  revert i resumed c es inc before. induction fuel as [|f IH]; intros i resumed c es inc before G Hi U A F1 F; [lia|].
  cbn [drive fst snd].
  change (read_until_chunked_queued callback fuel1 mark i resumed c (mk_link es inc true)) with
    (chunked_loop callback fuel1 mark resumed (start_until i) c (mk_link es inc true)).
  destruct (chunked_loop_spec fuel1 mark resumed (start_until i) c es inc before rest G eq_refl Hi U A F1)
    as ([[c' l'] o] & -> & pieces & es' & inc' & -> & G' & O).
  cbn [mbind option_bind]. destruct o as [[off|e]|k [wait|]]; [|contradiction| |contradiction].
  - destruct O as (left & E1 & E2 & ->). exists pieces, es', inc', left, off, resumed. auto.
  - destruct O as (before' & -> & Le & -> & U' & K & Lk & -> & A'). destruct k as [i' tb]. cbn [fst snd] in *. subst tb.
    destruct (IH i' true (given callback c pieces) es' inc' before' G' Lk U' A') as (ps & es2 & inc2 & left & off & last & E & E1 & E2).
    + pose proof (until_mark_split _ _ _ _ _ U) as [S1 _]. pose proof (until_mark_split _ _ _ _ _ U') as [S2 _].
      rewrite S1 in F1. rewrite S2. rewrite !length_app in *. lia.
    + lia.
    + exists (pieces ++ ps), es2, inc2, left, off, last. rewrite given_app. split; [exact E|]. rewrite concat_app, E1. auto.
Qed.
End Chunks.
