(* ===== verification/SocketSpec.v ===== *)
(** * Reading and writing through a socket: the properties

    What the operations of SocketIo.v promise on every script of the peer, from the lemmas of SocketFacts.v; the
    outcome of a write on any script; and where bytes or the end of an operation are lost. *)
From S2P Require Import Prelude Multiplexer SocketIo SocketFacts.
Open Scope Z_scope.

(** ** Clients *)

(** A client that never stops. *)
Definition patient {C} (callback : C -> socket_poll -> option (list Z) -> C * bool) : Prop :=
  forall c b, snd (callback c poll_next (Some b)) = true.
Lemma patient_agree {C} (callback : C -> socket_poll -> option (list Z) -> C * bool) : patient callback ->
  forall c n b, True -> (length b <= n)%nat -> snd (callback c poll_next (Some b)) = true /\ True.
Proof. intros P c n b _ _. split; [apply P|exact I]. Qed.

(** The clients of the deferred forms. *)
Lemma merge_all_patient : patient merge_all.
Proof. now intros d [|x b]. Qed.
Lemma merge_all_given d pieces : given merge_all d pieces = mk_deferred (merged d ++ concat pieces) (max_left d) (promise d) (twice d).
Proof.
  revert d. induction pieces as [|b pieces IH]; intros d; cbn [concat]; [cbn; rewrite app_nil_r; now destruct d|].
  change (given merge_all d (b :: pieces)) with (given merge_all (fst (merge_all d poll_next (Some b))) pieces).
  rewrite IH. destruct b as [|x b]; cbn; [reflexivity|]. now rewrite <- app_assoc.
Qed.

(** [merge_limited] goes on as long as more is allowed than will come. *)
Definition allows (d : deferred) (n : nat) : Prop := Z.of_nat n < max_left d.
Lemma merge_limited_next d b : Z.of_nat (length b) < max_left d ->
  merge_limited d poll_next (Some b) = (mk_deferred (merged d ++ b) (max_left d - Z.of_nat (length b)) (promise d) (twice d), true).
Proof.
  intros L. destruct b as [|x b].
  - cbn. rewrite app_nil_r, Z.sub_0_r. now destruct d.
  - unfold merge_limited. cbn [is_done is_data negb]. rewrite Z.min_r by lia. rewrite Nat2Z.id, firstn_all.
    f_equal. now apply Z.ltb_lt; lia.
Qed.
Lemma merge_limited_agree d n b : allows d n -> (length b <= n)%nat ->
  snd (merge_limited d poll_next (Some b)) = true /\ allows (fst (merge_limited d poll_next (Some b))) (n - length b).
Proof. unfold allows. intros A L. rewrite merge_limited_next by lia. cbn. split; [reflexivity|lia]. Qed.
Lemma merge_limited_given d pieces : Z.of_nat (length (concat pieces)) < max_left d ->
  given merge_limited d pieces =
  mk_deferred (merged d ++ concat pieces) (max_left d - Z.of_nat (length (concat pieces))) (promise d) (twice d).
Proof.
  revert d. induction pieces as [|b pieces IH]; intros d; cbn [concat].
  - cbn. rewrite app_nil_r, Z.sub_0_r. now destruct d.
  - rewrite length_app, Nat2Z.inj_add. intros L. change (given merge_limited d (b :: pieces)) with
      (given merge_limited (fst (merge_limited d poll_next (Some b))) pieces).
    rewrite merge_limited_next by lia. cbn [fst]. rewrite IH by (cbn; lia). cbn. rewrite <- app_assoc. f_equal. lia.
Qed.

(** ** Writing on any script *)
Section Writing.
Context {C : Type} (callback : C -> socket_poll -> C).

(** What has to hold between the activations: [k] bytes of [data] were sent. *)
Definition write_inv (copy : bool) (data : list Z) (b0 : Z) (k : nat) (a : write_args) (w : pipe) : Prop :=
  wbuffer a = data /\ woffset a = k /\ wsize a = (length data - k)%nat /\ (k <= length data)%nat /\
  (wtemp a = None \/ wtemp a = Some data) /\ blocks w = b0 + (if copy && is_some (wtemp a) then 1 else 0).

(** How a write ends, [sent0] being what was sent before. *)
Definition write_result_ok (copy : bool) (data sent0 : list Z) (b0 : Z) (c : C) (r : C * pipe * io_outcome write_args) : Prop :=
  let '(c', w', o) := r in
  exists k, (k <= length data)%nat /\ sent w' = sent0 ++ firstn k data /\
    match o with
    | returned (inl _) => k = length data /\ blocks w' = b0 /\ (c' = callback c poll_finish \/ c' = callback c poll_finish_sync)
    | returned (inr _) => blocks w' = b0 /\ exists e, is_done e = false /\ c' = callback c e
    | suspended a wait => c' = c /\ write_inv copy data b0 k a w' /\ wtemp a = Some data
    end.

Lemma freed copy temp w b0 : blocks w = b0 + (if copy && is_some temp then 1 else 0) -> blocks (deallocate_temp copy temp w) = b0.
Proof. intros E. unfold deallocate_temp. destruct (copy && is_some temp); cbn; lia. Qed.
Lemma freed_sent copy temp w : sent (deallocate_temp copy temp w) = sent w.
Proof. unfold deallocate_temp. now destruct (copy && is_some temp). Qed.

Lemma size_through_int n : Z.of_nat n < 2 ^ 31 -> Z.to_nat (i32 (Z.of_nat n)) = n.
Proof. intros L. unfold wrapS. change (2 ^ (32 - 1)) with (2 ^ 31). rewrite Z.mod_small; lia. Qed.
Lemma slice_rest data k : (k <= length data)%nat -> slice data k (length data - k) = skipn k data.
Proof. intros L. unfold slice. apply firstn_all2. rewrite length_skipn. lia. Qed.
Lemma firstn_more {A} (l : list A) k n : firstn k l ++ firstn n (skipn k l) = firstn (k + n) l.
Proof. revert l. induction k as [|k IH]; intros [|x l]; cbn; rewrite ?firstn_nil; auto. f_equal. apply IH. Qed.

Lemma socket_write_spec w bs : bs <> [] ->
  match socket_write w bs with
  | (w', wrote n) => (0 < n <= length bs)%nat /\ sent w' = sent w ++ firstn n bs /\ blocks w' = blocks w /\ (length (tx w') < length (tx w))%nat
  | (w', write_error e wait) => sent w' = sent w /\ blocks w' = blocks w /\
      (e = operation_would_block -> is_some wait = true -> (length (tx w') < length (tx w))%nat)
  end.
Proof.
  intros N. unfold socket_write. destruct (pipe_connected w); cbn [negb]; [|split; [reflexivity|split; [reflexivity|discriminate]]].
  destruct (tx w) as [|[n|wait|e] more]; cbn.
  - split; [reflexivity|split; [reflexivity|discriminate]].
  - split; [destruct bs; [congruence|cbn; rewrite length_firstn; lia]|]. split; [|split; [reflexivity|lia]].
    destruct bs as [|b bs]; [congruence|]. f_equal. cbn. f_equal. now rewrite length_firstn, <- firstn_firstn, firstn_all.
  - split; [reflexivity|split; [reflexivity|lia]].
  - split; [reflexivity|split; [reflexivity|discriminate]].
Qed.

Lemma write_loop_spec fuel copy data payload sent0 b0 c written k a w : Z.of_nat (length data) < 2 ^ 31 ->
  write_inv copy data b0 k a w -> (wtemp a = None -> payload = length data) ->
  sent w = sent0 ++ firstn k data -> (length data - k < fuel)%nat ->
  exists r, write_loop callback fuel copy payload written a c w = Some r /\ write_result_ok copy data sent0 b0 c r /\
    match r with (_, w', suspended _ (Some _)) => (length (tx w') < length (tx w))%nat | _ => True end.
Proof.
  intros Hd. revert written k a w. induction fuel as [|f IH]; intros written k a w V Hp S F; [lia|].
  destruct V as (Vb & Vo & Vs & Vk & Vt & Vm). cbn [write_loop]. destruct (Nat.eqb_spec (wsize a) 0) as [Z0|Z0].
  - eexists. split; [reflexivity|]. split; [|exact I]. exists k. rewrite freed_sent. split; [exact Vk|]. split; [exact S|].
    split; [lia|]. split; [now apply freed|]. destruct (is_some (wtemp a)); auto.
  - rewrite size_through_int by lia. rewrite Vb, Vo, Vs, slice_rest by exact Vk.
    assert (N : skipn k data <> []) by (intros E; apply (f_equal (@length _)) in E; rewrite length_skipn in E; cbn in E; lia).
    pose proof (socket_write_spec w (skipn k data) N) as R. destruct (socket_write w (skipn k data)) as [w' [n|e wait]].
    + destruct R as (Hn & S' & B' & T'). rewrite length_skipn in Hn.
      destruct (IH (written + Z.of_nat n) (k + n)%nat (mk_write_args data (length data - k - n) (wtemp a) (k + n)) w') as (r & E & O & T).
      * repeat split; cbn; try lia. exact Vt.
      * exact Hp.
      * rewrite S', S, <- app_assoc. f_equal. apply firstn_more.
      * lia.
      * exists r. split; [exact E|]. split; [exact O|]. destruct r as [[? ?] [?|? [?|]]]; auto. lia.
    + destruct R as (S' & B' & T'). destruct (decide (e = operation_would_block)) as [->|Ne].
      * destruct Vt as [Vt|Vt]; rewrite Vt in *; [rewrite (Hp eq_refl); destruct copy|]; cbn [andb is_some] in Vm;
          (eexists; split; [reflexivity|]; split; [|destruct wait; [now apply T'|exact I]]; exists k; cbn; rewrite ?firstn_all;
           split; [exact Vk|]; split; [now rewrite S'|]; split; [reflexivity|]; split; [|reflexivity]; repeat split; cbn; auto; lia).
      * eexists. split; [reflexivity|]. split; [|exact I]. exists k. rewrite freed_sent. split; [exact Vk|]. split; [now rewrite S'|].
        split; [apply freed; now rewrite B'|]. exists poll_reset. auto.
Qed.

Lemma write_drive_spec fuel1 fuel copy data sent0 b0 c k a w : Z.of_nat (length data) < 2 ^ 31 ->
  write_inv copy data b0 k a w -> (wtemp a = None -> k = 0%nat) -> sent w = sent0 ++ firstn k data ->
  (length data < fuel1)%nat -> (length (tx w) < fuel)%nat ->
  exists r, drive (write_queued callback fuel1 copy) (abandon_write callback copy) fuel a c w = Some r /\ write_result_ok copy data sent0 b0 c r.
Proof.
  intros Hd. revert k a w. induction fuel as [|f IH]; intros k a w V Hk S F1 F; [lia|]. cbn [drive].
  pose proof V as (Vb & Vo & Vs & Vk & Vt & Vm).
  assert (One : exists r, write_queued callback fuel1 copy a c w = Some r /\ write_result_ok copy data sent0 b0 c r /\
    match r with (_, w', suspended _ (Some _)) => (length (tx w') < length (tx w))%nat | _ => True end).
  { unfold write_queued. destruct (pipe_connected w); cbn [negb].
    - apply (write_loop_spec fuel1 copy data (wsize a) sent0 b0 c 0 k a w Hd V); [|exact S|lia]. intros T. rewrite Vs, (Hk T). lia.
    - eexists. split; [reflexivity|]. split; [|exact I]. exists k. rewrite freed_sent. split; [exact Vk|]. split; [exact S|].
      split; [now apply freed|]. exists poll_reset. auto. }
  destruct One as ([[c' w'] o] & -> & O & T). cbn [mbind option_bind].
  destruct o as [r|a' [wait|]]; [now exists (c', w', returned r)| |now exists (c', w', suspended a' None)].
  destruct O as (k' & Hk' & S' & -> & V' & T'). destruct (is_done wait) eqn:W.
  - apply (IH k' a' w' V'); [congruence|exact S'|exact F1|lia].
  - cbn [abandon_write]. unfold abandon_write. eexists. split; [reflexivity|]. exists k'. rewrite freed_sent.
    split; [exact Hk'|]. split; [exact S'|]. destruct V' as (_ & _ & _ & _ & _ & Vm').
    split; [now apply freed|]. exists wait. auto.
Qed.
End Writing.

(** An activation that reads one piece. *)
Lemma chunked_one {C} (callback : C -> socket_poll -> option (list Z) -> C * bool) f mark resumed i c bytes inc :
  (i < length mark)%nat -> bytes <> [] -> (length bytes <= MAX_READ_UNTIL)%nat ->
  chunked_loop callback (S f) mark resumed (start_until i) c (mk_link [rx_data bytes] inc true) =
  match scan_chunk callback true mark (done_event resumed) (length bytes) (length bytes)
          (mk_until (bytes ++ skipn (length bytes) empty_buffer) 0 0 i) c with
  | (c, u, scan_more) => chunked_loop callback f mark resumed u c (mk_link [] (inc + Z.of_nat (length bytes)) true)
  | (c, u, _) => Some (c, mk_link [] (inc + Z.of_nat (length bytes)) true, returned (inl (receiving u)))
  end.
Proof.
  intros Hi N L. cbn [chunked_loop start_until index]. rewrite (proj2 (Nat.leb_gt _ _) Hi).
  change (cache (start_until i)) with 0%nat. rewrite Nat.sub_0_r. unfold socket_read. cbn [connected negb rx income].
  destruct bytes as [|b bytes]; [congruence|]. rewrite firstn_all2, skipn_all2 by exact L. reflexivity.
Qed.

(** ** Properties *)

(** (C27) A read of [size] bytes ends when the peer sends them, however the stream is cut and however often the socket
    would block: the client is given exactly the next [size] bytes in order, then one [finish], and the rest stays
    in the socket. *)
Theorem read_queued_delivers {C} (callback : C -> socket_poll -> option (list Z) -> C * bool) (c : C)
    (es : list rx_event) (inc size : Z) (fuel : nat)
    (Patient : patient callback) (Sends : good es) (Size : 0 <= size <= Z.of_nat (length (stream es)))
    (Fuel : (Z.to_nat size < fuel)%nat) (Waits : (length es < fuel)%nat) :
  exists pieces es' inc' off resumed,
    read_queued_all callback fuel size c (mk_link es inc true) =
      Some (tell callback (given callback c pieces) (done_event resumed) None, mk_link es' inc' true, returned (inl off)) /\
    concat pieces = firstn (Z.to_nat size) (stream es) /\ stream es' = skipn (Z.to_nat size) (stream es).
Proof.
  destruct (read_queued_all_spec callback (fun _ _ => True) (patient_agree callback Patient) fuel fuel size 0 c es inc
    Sends Size I Fuel Waits) as (pieces & es' & inc' & off & tb & E & E1 & E2).
  exists pieces, es', inc', off, (negb (tb =? 0)). auto.
Qed.
Definition sample_stream : list rx_event :=
  [rx_data (chars "GET /"); rx_block poll_finish; rx_data (chars " HTTP"); rx_data (chars "/1.1")].
Lemma read_queued_delivers_witness : exists pieces es' inc' off resumed,
  read_queued_all merge_all 20 7 (new_deferred 0) (mk_link sample_stream 0 true) =
    Some (tell merge_all (given merge_all (new_deferred 0) pieces) (done_event resumed) None, mk_link es' inc' true, returned (inl off)) /\
  concat pieces = chars "GET / H".
Proof.
  destruct (read_queued_delivers merge_all (new_deferred 0) sample_stream 0 7 20 merge_all_patient)
    as (pieces & es' & inc' & off & resumed & E & E1 & _); [reflexivity|vm_compute; split; discriminate|lia|cbn; lia|].
  exists pieces, es', inc', off, resumed. split; [exact E|]. rewrite E1. reflexivity.
Defined.

(** [read_until_chunked_queued] ends when the bytes it looks for arrive, however they are cut: the client is
    given the bytes up to the mark in order, and with the [finish] the bytes behind it that were already read;
    nothing is lost and nothing else is taken from the socket. *)
Theorem chunked_until_delivers {C} (callback : C -> socket_poll -> option (list Z) -> C * bool) (c : C) (mark : list Z)
    (es : list rx_event) (inc : Z) (fuel : nat) (before rest : list Z)
    (Patient : patient callback) (Mark : mark <> []) (Sends : good es)
    (Found : until_mark mark 0 (stream es) = Some (before, rest))
    (Fuel : (length (stream es) < fuel)%nat) (Waits : (length es < fuel)%nat) :
  exists pieces es' inc' left off resumed,
    read_until_chunked_all callback fuel mark c (mk_link es inc true) =
      Some (tell callback (given callback c pieces) (done_event resumed) (rest_buffer left), mk_link es' inc' true, returned (inl off)) /\
    concat pieces = before /\ left ++ stream es' = rest.
Proof.
  assert (L : (0 < length mark)%nat) by (destruct mark; [congruence|cbn; lia]).
  exact (chunked_drive_spec callback (fun _ _ => True) (patient_agree callback Patient) fuel fuel mark 0 false c es inc before rest
    Sends L Found I Fuel Waits).
Qed.
Definition line_mark : list Z := [13; 10].
Definition sample_lines : list rx_event := [rx_data (chars "EH" ++ [13]); rx_block poll_finish; rx_data (10 :: chars "MAIL")].
Lemma chunked_until_delivers_witness : exists pieces es' inc' left off resumed,
  read_until_chunked_all merge_all 20 line_mark (new_deferred 0) (mk_link sample_lines 0 true) =
    Some (tell merge_all (given merge_all (new_deferred 0) pieces) (done_event resumed) (rest_buffer left), mk_link es' inc' true, returned (inl off)) /\
  concat pieces = chars "EH" ++ line_mark /\ left ++ stream es' = chars "MAIL".
Proof.
  apply (chunked_until_delivers merge_all (new_deferred 0) line_mark sample_lines 0 20 (chars "EH" ++ line_mark) (chars "MAIL"));
    [exact merge_all_patient|discriminate|reflexivity|vm_compute; reflexivity|cbn; lia|cbn; lia].
Defined.

(** What these loops find ends with the mark, and a mark behind bytes that do not contain its first byte is found
    where it stands; but a partial match is not looked at again, and an empty line behind a carriage return is
    missed. *)
Theorem mark_search (mark : list Z) (Ascii : ascii_mark mark) (Mark : mark <> []) :
  (forall bytes before rest, until_mark mark 0 bytes = Some (before, rest) ->
     bytes = before ++ rest /\ exists x, before = x ++ mark) /\
  (forall x y, ~ In (hd 0 mark) x -> until_mark mark 0 (x ++ mark ++ y) = Some (x ++ mark, y)) /\
  until_mark (line_mark ++ line_mark) 0 ([13] ++ line_mark ++ line_mark) = None.
Proof.
  assert (L : (0 < length mark)%nat) by (destruct mark; [congruence|cbn; lia]).
  split; [|split; [|reflexivity]].
  - intros bytes before rest E. split; [now apply (until_mark_split _ _ _ _ _ E)|].
    destruct (until_mark_sound mark 0 bytes before rest Ascii L E) as [x X]. exists x. exact X.
  - intros x y N. now apply until_mark_plain.
Qed.
Lemma mark_search_witness : until_mark line_mark 0 (chars "a" ++ line_mark ++ chars "b") = Some (chars "a" ++ line_mark, chars "b").
Proof.
  apply (mark_search line_mark); [|discriminate|].
  - unfold ascii_mark, line_mark. repeat (constructor; [lia|]). constructor.
  - cbn. intros [F|F]; [discriminate|exact F].
Defined.

(** [read_until_chunked_deferred] sets its promise once, to the bytes up to the mark, when [max_size] is larger
    than their number; when it is not, the client stops the loop, and the promise is never set: whoever awaits it
    waits forever. *)
Theorem until_deferred_settles (mark : list Z) (es : list rx_event) (inc max_size : Z) (fuel : nat) (before rest : list Z)
    (Mark : mark <> []) (Sends : good es) (Found : until_mark mark 0 (stream es) = Some (before, rest))
    (Fuel : (length (stream es) < fuel)%nat) (Waits : (length es < fuel)%nat) :
  (Z.of_nat (length before) < max_size ->
   exists d l off, read_until_chunked_deferred fuel mark max_size (mk_link es inc true) = Some (d, l, returned (inl off)) /\
     promise d = Some (inl before) /\ twice d = false) /\
  (forall bytes, es = [rx_data bytes] -> (length bytes <= MAX_READ_UNTIL)%nat -> 0 < max_size <= Z.of_nat (length before) ->
   exists d l off, read_until_chunked_deferred fuel mark max_size (mk_link es inc true) = Some (d, l, returned (inl off)) /\
     promise d = None).
Proof.
  assert (L : (0 < length mark)%nat) by (destruct mark; [congruence|cbn; lia]). split.
  - intros M. destruct (chunked_drive_spec merge_limited allows merge_limited_agree fuel fuel mark 0 false (new_deferred max_size) es inc
      before rest Sends L Found M Fuel Waits) as (pieces & es' & inc' & left & off & last & E & E1 & _).
    eexists _, _, off. split; [exact E|]. rewrite merge_limited_given by (rewrite E1; exact M).
    destruct last; cbn; rewrite E1; auto.
  - intros bytes -> Lb M. unfold stream in Found. cbn [map concat event_bytes] in Found. rewrite app_nil_r in Found.
    assert (N : bytes <> []) by (intros ->; discriminate Found).
    pose proof (scan_all merge_limited mark poll_finish_sync bytes (skipn (length bytes) empty_buffer) 0 0 (new_deferred max_size) N L) as Sc.
    unfold scanned in Sc. rewrite Found in Sc. cbn [app] in Sc.
    destruct (until_mark_split _ _ _ _ _ Found) as [_ Nb]. destruct before as [|x before]; [congruence|].
    unfold merge_limited in Sc at 1. cbn [is_done is_data negb max_left new_deferred] in Sc. rewrite Z.min_l, Z.sub_diag in Sc by lia.
    cbn [Z.ltb Z.compare] in Sc. destruct Sc as [u Su].
    destruct fuel as [|f]; [lia|]. unfold read_until_chunked_deferred, read_until_chunked_all. cbn [drive fst snd].
    change (read_until_chunked_queued merge_limited (S f) mark 0 false (new_deferred max_size) (mk_link [rx_data bytes] inc true))
      with (chunked_loop merge_limited (S f) mark false (start_until 0) (new_deferred max_size) (mk_link [rx_data bytes] inc true)).
    rewrite (chunked_one merge_limited f mark false 0 (new_deferred max_size) bytes inc L N Lb).
    change (done_event false) with poll_finish_sync. rewrite Su. cbn. eauto.
Qed.
Lemma until_deferred_settles_witness :
  (exists d l off, read_until_chunked_deferred 20 line_mark 5 (mk_link sample_lines 0 true) = Some (d, l, returned (inl off)) /\
     promise d = Some (inl (chars "EH" ++ line_mark)) /\ twice d = false) /\
  (exists d l off, read_until_chunked_deferred 20 line_mark 4 (mk_link [rx_data (chars "EH" ++ line_mark)] 0 true) = Some (d, l, returned (inl off)) /\
     promise d = None).
Proof.
  split.
  - apply (until_deferred_settles line_mark sample_lines 0 5 20 (chars "EH" ++ line_mark) (chars "MAIL"));
      [discriminate|reflexivity|vm_compute; reflexivity|cbn; lia|cbn; lia|cbn; lia].
  - apply (until_deferred_settles line_mark [rx_data (chars "EH" ++ line_mark)] 0 4 20 (chars "EH" ++ line_mark) []) with (bytes := chars "EH" ++ line_mark);
      [discriminate|reflexivity|vm_compute; reflexivity|cbn; lia|cbn; lia|reflexivity|unfold MAX_READ_UNTIL; cbn; lia|cbn; lia].
Defined.

(** The bytes of a piece that does not hold the mark, read one by one. *)
Lemma store_nth b k byte : (k <= length b)%nat -> nth k (store_at b k [byte]) 0 = byte.
Proof.
  intros L. unfold store_at. assert (F : length (firstn k b) = k) by (rewrite length_firstn; lia).
  rewrite app_nth2 by lia. now rewrite F, Nat.sub_diag.
Qed.
Lemma store_length b k byte : (k < length b)%nat -> length (store_at b k [byte]) = length b.
Proof. intros L. unfold store_at. rewrite !length_app, length_firstn, length_skipn. cbn. lia. Qed.

Lemma until_loop_bytes {C} (callback : C -> socket_poll -> option (list Z) -> C * bool) mark resumed bytes : forall f u c es inc,
  bytes <> [] -> length (buffer u) = MAX_READ_UNTIL -> (cache u + length bytes < MAX_READ_UNTIL)%nat -> (index u < length mark)%nat ->
  until_mark mark (index u) bytes = None ->
  exists u', until_loop callback (length bytes + f) mark resumed u c (mk_link (rx_data bytes :: es) inc true) =
      until_loop callback f mark resumed u' c (mk_link es (inc + Z.of_nat (length bytes)) true) /\
    index u' = index_after mark (index u) bytes.
Proof.
  induction bytes as [|x bytes IH]; intros f [b k rc i] c es inc N Lb Lk Hi U; [congruence|]. cbn [buffer cache index] in *.
  cbn [until_mark] in U. destruct (Nat.leb_spec (length mark) (advance mark i x)) as [G|G]; [discriminate|].
  assert (U' : until_mark mark (advance mark i x) bytes = None) by now destruct (until_mark mark (advance mark i x) bytes) as [[? ?]|].
  set (u1 := mk_until (store_at b k [x]) (S k) rc (advance mark i x)).
  assert (E : forall es', socket_read (mk_link (rx_data (x :: bytes) :: es) inc true) 1 = (mk_link es' (inc + 1) true, read_bytes [x]) ->
    until_loop callback (S (length bytes + f)) mark resumed (mk_until b k rc i) c (mk_link (rx_data (x :: bytes) :: es) inc true) =
    until_loop callback (length bytes + f) mark resumed u1 c (mk_link es' (inc + 1) true)).
  { intros es' R. cbn [until_loop index]. rewrite (proj2 (Nat.leb_gt _ _) Hi), R.
    unfold received_at, with_cache, with_index. cbn [buffer cache receiving index].
    cbn [length] in Lk. rewrite (proj2 (Nat.leb_gt MAX_READ_UNTIL (S k))) by lia. cbn [negb buffer index].
    rewrite store_nth by lia. unfold u1, advance in *. destruct (same_byte mark i x); [|reflexivity].
    now rewrite (proj2 (Nat.leb_gt _ _) G). }
  cbn [length Nat.add]. destruct bytes as [|y bytes].
  - exists u1. rewrite (E es eq_refl). cbn. split; [reflexivity|reflexivity].
  - rewrite (E (rx_data (y :: bytes) :: es) eq_refl). cbn [length] in Lk.
    destruct (IH f u1 c es (inc + 1)) as (u' & E' & I'); [discriminate|unfold u1; cbn; rewrite store_length; lia|cbn; lia|exact G|exact U'|].
    exists u'. rewrite E'. split; [|exact I']. do 2 f_equal. cbn [length]. lia.
Qed.

(** [read_until_queued] forgets the bytes it has read when the socket would block before the mark: it goes on
    from the event of the wait with the index it had reached, but the client is never given those bytes. *)
Theorem until_queued_loses_bytes {C} (callback : C -> socket_poll -> option (list Z) -> C * bool) (c : C) (mark bytes : list Z)
    (wait : socket_poll) (es : list rx_event) (inc : Z) (fuel f : nat)
    (Some_bytes : bytes <> []) (Few : (length bytes < MAX_READ_UNTIL)%nat) (Mark : mark <> [])
    (Unfinished : until_mark mark 0 bytes = None) (Done : is_done wait = true) (Fuel : (length bytes < fuel)%nat) :
  let activation := fun k => read_until_queued callback fuel mark (fst k) (snd k) in
  drive activation (abandon_read callback) (S f) (0%nat, false) c (mk_link (rx_data bytes :: rx_block wait :: es) inc true) =
  drive activation (abandon_read callback) f (index_after mark 0 bytes, true) c (mk_link es (inc + Z.of_nat (length bytes)) true).
Proof.
  intros activation. assert (L : (0 < length mark)%nat) by (destruct mark; [congruence|cbn; lia]).
  assert (A : activation (0%nat, false) c (mk_link (rx_data bytes :: rx_block wait :: es) inc true) =
    Some (c, mk_link es (inc + Z.of_nat (length bytes)) true, suspended (index_after mark 0 bytes, true) (Some wait))).
  { change (until_loop callback fuel mark false (start_until 0) c (mk_link (rx_data bytes :: rx_block wait :: es) inc true) =
      Some (c, mk_link es (inc + Z.of_nat (length bytes)) true, suspended (index_after mark 0 bytes, true) (Some wait))).
    replace fuel with (length bytes + S (fuel - length bytes - 1))%nat by lia.
    destruct (until_loop_bytes callback mark false bytes (S (fuel - length bytes - 1)) (start_until 0) c (rx_block wait :: es) inc)
      as (u & -> & I); [exact Some_bytes|apply repeat_length|exact Few|exact L|exact Unfinished|].
    cbn [until_loop]. rewrite I. pose proof (index_after_small mark 0 bytes L Unfinished) as G. cbn [start_until index].
    rewrite (proj2 (Nat.leb_gt _ _) G). reflexivity. }
  cbn [drive]. rewrite A. cbn [mbind option_bind]. now rewrite Done.
Qed.
Lemma until_queued_loses_bytes_witness :
  match read_until_deferred 20 line_mark 100 (mk_link [rx_data (chars "250 "); rx_block poll_finish; rx_data (chars "OK" ++ line_mark)] 0 true) with
  | Some (d, _, _) => promise d = Some (inl (chars "OK" ++ line_mark))
  | None => False
  end.
Proof.
  unfold read_until_deferred, read_until_all.
  rewrite (until_queued_loses_bytes merge_limited (new_deferred 100) line_mark (chars "250 ") poll_finish [rx_data (chars "OK" ++ line_mark)] 0 20 19);
    [vm_compute; reflexivity|discriminate|unfold MAX_READ_UNTIL; cbn; lia|discriminate|reflexivity|reflexivity|cbn; lia].
Defined.

(** (C28) However the socket takes the bytes - in parts, after waits, or not at all - [write_queued] sends a prefix of
    the buffer in order and nothing else; it calls back exactly once when it ends, with [finish] only when everything
    was sent, and the copy it made for a wait is freed then; a write that still waits has not called back. *)
Theorem write_queued_outcomes {C} (callback : C -> socket_poll -> C) (copy : bool) (data : list Z) (c : C) (w : pipe) (fuel : nat)
    (Size : Z.of_nat (length data) < 2 ^ 31) (Fuel : (length data < fuel)%nat) (Script : (length (tx w) < fuel)%nat) :
  exists c' w' o, write_queued_all callback fuel copy data c w = Some (c', w', o) /\
  exists k, (k <= length data)%nat /\ sent w' = sent w ++ firstn k data /\
    match o with
    | returned (inl _) => k = length data /\ blocks w' = blocks w /\ (c' = callback c poll_finish \/ c' = callback c poll_finish_sync)
    | returned (inr _) => blocks w' = blocks w /\ exists e, is_done e = false /\ c' = callback c e
    | suspended _ _ => c' = c /\ blocks w' = blocks w + (if copy then 1 else 0)
    end.
Proof.
  destruct (write_drive_spec callback fuel fuel copy data (sent w) (blocks w) c 0 (mk_write_args data (length data) None 0) w Size)
    as ([[c' w'] o] & E & k & Hk & S & O).
  - repeat split; cbn; try lia; auto. rewrite andb_false_r. lia.
  - reflexivity.
  - cbn. now rewrite app_nil_r.
  - exact Fuel.
  - exact Script.
  - exists c', w', o. split; [exact E|]. exists k. split; [exact Hk|]. split; [exact S|].
    destruct o as [[r|r]|a wait]; [exact O|exact O|]. destruct O as (Ec & (_ & _ & _ & _ & _ & B) & T).
    rewrite T in B. cbn in B. rewrite andb_true_r in B. auto.
Qed.
Lemma write_queued_outcomes_witness : exists c' w' o,
  write_queued_all (fun n _ => S n) 20 true (chars "hello") 0%nat (mk_pipe [tx_take 1; tx_block poll_finish; tx_take 9] [] 0 true) =
    Some (c', w', o) /\ c' = 1%nat /\ sent w' = chars "hello" /\ blocks w' = 0.
Proof.
  destruct (write_queued_outcomes (fun n _ => S n) true (chars "hello") 0%nat
    (mk_pipe [tx_take 1; tx_block poll_finish; tx_take 9] [] 0 true) 20) as (c' & w' & o & E & _); [cbn; lia..|].
  exists c', w', o. split; [exact E|]. vm_compute in E. injection E as <- <- <-. auto.
Defined.

(** [write_file_deferred] never sets its promise on a platform or connection that cannot send files: the loop
    returns [not_supported] without a call. *)
Theorem write_file_unsupported (file : list Z) (offset size : nat) (more : list tx_event) (sent0 : list Z) (b : Z) (fuel : nat)
    (Size : (0 < size)%nat) :
  write_file_deferred (S fuel) file offset size (mk_pipe (tx_fail not_supported :: more) sent0 b true) =
  Some (None, mk_pipe more sent0 b true, returned (inr not_supported)).
Proof. destruct size as [|n]; [lia|]. reflexivity. Qed.
Lemma write_file_unsupported_witness :
  write_file_deferred 1 (chars "abc") 0 3 (mk_pipe [tx_fail not_supported] [] 0 true) = Some (None, mk_pipe [] [] 0 true, returned (inr not_supported)).
Proof. apply write_file_unsupported. lia. Defined.
