(* ===== verification/Location.v ===== *)
(** * Locations: the URL parser (network.cpp 468-638, network.h 96-113)

    The constructor of [location] walks a C string with [strchr].  A pointer into it is the rest of the string
    from there on, so that a pointer is behind another when it is shorter; [core::string(first, last)] of pointers
    in the wrong order throws from a [noexcept] constructor and is [None] here, as is the read of the first of no
    pieces.  The service database of the system is a parameter. *)
From S2P Require Import Prelude Codec Text TextEdit.
From stdpp Require Import gmap.
Open Scope Z_scope.

Record location := mk_location {
  query : gmap (list Z) (list Z); protocol : list Z; username : list Z; password : list Z; hostname : list Z;
  fragment : list Z; path : list Z; body_text : list Z; port : Z }.

Definition set_host (h : list Z) (l : location) : location :=
  mk_location (query l) (protocol l) (username l) (password l) h (fragment l) (path l) (body_text l) (port l).
Definition set_login (u p : list Z) (l : location) : location :=
  mk_location (query l) (protocol l) u p (hostname l) (fragment l) (path l) (body_text l) (port l).
Definition set_port (n : Z) (l : location) : location :=
  mk_location (query l) (protocol l) (username l) (password l) (hostname l) (fragment l) (path l) (body_text l) n.
Definition set_path (p f : list Z) (l : location) : location :=
  mk_location (query l) (protocol l) (username l) (password l) (hostname l) f p (body_text l) (port l).
Definition set_protocol (p : list Z) (l : location) : location :=
  mk_location (query l) p (username l) (password l) (hostname l) (fragment l) (path l) (body_text l) (port l).
Definition set_query (q : gmap (list Z) (list Z)) (l : location) : location :=
  mk_location q (protocol l) (username l) (password l) (hostname l) (fragment l) (path l) (body_text l) (port l).

(** ** Pointers *)

Fixpoint strchr_ptr (p : list Z) (c : Z) : option (list Z) :=
  match p with [] => None | b :: rest => if b =? c then Some p else strchr_ptr rest c end.
(** [a < b] on pointers into one string. *)
Definition before_ptr (a b : list Z) : bool := (length b <? length a)%nat.
Definition string_of_ptrs (first last : list Z) : option (list Z) :=
  if (length last <=? length first)%nat then Some (firstn (length first - length last) first) else None.
Definition advance_ptr (n : nat) (p : list Z) : list Z := skipn n p.

(** [sscanf(p, ":%hd", &port)]: white space and a sign may stand before the digits; the value is that of [strtol],
    cut to 16 bits. *)
Definition scan_port (p : list Z) : option Z :=
  match p with
  | 58 :: rest =>
      let rest := drop_spaces rest in
      let '(negative, digits) := match rest with 45 :: r => (true, r) | 43 :: r => (false, r) | _ => (false, rest) end in
      match digits with
      | b :: _ => if isdigit b then
            let v := digits_value digits 0 in
            Some (u16 (if negative then Z.max (- 2 ^ 63) (- v) else Z.min (2 ^ 63 - 1) v))
          else None
      | [] => None
      end
  | _ => None
  end.

(** [protocol == "..."]. *)
Definition protocol_is (protocol : list Z) (s : string) : bool := bool_decide (protocol = chars s).
Arguments protocol_is _ _%_string_scope.

(** ** The end of the constructor *)
Section Location.
Context (getservbyname : list Z -> option Z).

Definition default_port (protocol : list Z) : Z :=
  if protocol_is protocol "http" || protocol_is protocol "ws" then 80
  else if protocol_is protocol "https" || protocol_is protocol "wss" then 443
  else if protocol_is protocol "ftp" then 21
  else if protocol_is protocol "gopher" then 70
  else if protocol_is protocol "imap" then 143
  else if protocol_is protocol "idap" then 389
  else if protocol_is protocol "nfs" then 2049
  else if protocol_is protocol "nntp" then 119
  else if protocol_is protocol "pop" then 110
  else if protocol_is protocol "smtp" then 25
  else if protocol_is protocol "telnet" then 23
  else 0.

Definition finalize_url (l : location) : location :=
  let l := if (length (protocol l) <? 2)%nat
           then set_protocol (chars "file") (set_path (protocol l ++ chars ":" ++ path l) (fragment l) l) else l in
  let l := set_path (match path l with [] => chars "/" | p => url_decode p end) (fragment l) l in
  if 0 <? port l then l
  else
    let l := match default_port (protocol l) with 0 => l | n => set_port n l end in
    if (0 <? port l) || bool_decide (protocol l = chars "file") then l
    else match getservbyname (protocol l) with Some s_port => set_port (u16 s_port) l | None => l end.

(** *** Path, query and fragment *)

Definition add_item (q : gmap (list Z) (list Z)) (item : list Z) : option (gmap (list Z) (list Z)) :=
  key_value ← TextEdit.split item 61 0;
  match key_value with
  | [] => None
  | [key] => Some (<[url_decode key := []]> q)
  | key :: value :: _ => Some (<[url_decode key := url_decode value]> q)
  end.
Fixpoint add_items (q : gmap (list Z) (list Z)) (items : list (list Z)) : option (gmap (list Z) (list Z)) :=
  match items with [] => Some q | item :: items => q ← add_item q item; add_items q items end.

Definition inline_url (l : location) (path_begin : list Z) : option location :=
  match strchr_ptr path_begin 63 with
  | Some question =>
      let parameters_begin := advance_ptr 1 question in
      let parameters_end := strchr_ptr parameters_begin 35 in
      parameters ← (match parameters_end with Some e => string_of_ptrs parameters_begin e | None => Some parameters_begin end);
      p ← string_of_ptrs path_begin question;
      let l :=
        match parameters_end with
        | Some e => set_path p (advance_ptr 1 e) l
        | None =>
            match strchr_ptr p 35 with
            | Some e => if before_ptr p e then set_path (firstn (length p - length e) p) (advance_ptr 1 e) l
                        else set_path p (fragment l) l
            | None => set_path p (fragment l) l
            end
        end in
      items ← TextEdit.split parameters 38 0;
      q ← add_items (query l) items;
      Some (finalize_url (set_query q l))
  | None =>
      match strchr_ptr path_begin 35 with
      | Some e => p ← string_of_ptrs path_begin e; Some (finalize_url (set_path p (advance_ptr 1 e) l))
      | None => Some (finalize_url (set_path path_begin (fragment l) l))
      end
  end.

(** *** Login, host and port *)

Definition login_of (l : location) (login_password : list Z) : location :=
  match strchr_ptr (cstr login_password) 58 with
  | Some password_ptr =>
      set_login (url_decode (firstn (length login_password - length password_ptr) login_password))
        (url_decode (advance_ptr 1 password_ptr)) l
  | None => set_login (url_decode login_password) (password l) l
  end.

Definition host_url (l : location) (host_begin : list Z) : option location :=
  let path_begin := strchr_ptr host_begin 47 in
  '(l, host_begin, path_begin) ←
    match strchr_ptr host_begin 64 with
    | Some at_symbol =>
        if match path_begin with None => true | Some p => before_ptr at_symbol p end then
          login_password ← string_of_ptrs host_begin at_symbol;
          let host_begin := advance_ptr 1 at_symbol in
          Some (login_of l login_password, host_begin, strchr_ptr host_begin 47)
        else Some (l, host_begin, path_begin)
    | None => Some (l, host_begin, path_begin)
    end;
  let ip_v6_end := strchr_ptr host_begin 93 in
  let host_start := match ip_v6_end with Some _ => advance_ptr 1 host_begin | None => host_begin end in
  let port_begin := strchr_ptr (match ip_v6_end with Some e => e | None => host_begin end) 58 in
  match port_begin with
  | Some pb =>
      if match path_begin with None => true | Some p => before_ptr pb p end then
        match scan_port pb with
        | None => Some (finalize_url l)
        | Some n =>
            h ← string_of_ptrs host_start (match ip_v6_end with Some e => e | None => pb end);
            let l := set_host h (set_port n l) in
            match path_begin with
            | Some p => inline_url l p
            | None =>
                match strchr_ptr host_begin 63 with
                | Some p => inline_url l p
                | None => match strchr_ptr host_begin 35 with Some p => inline_url l p | None => Some (finalize_url l) end
                end
            end
        end
      else
        match path_begin with
        | None => Some (finalize_url (set_host host_begin l))
        | Some p => h ← string_of_ptrs host_start (match ip_v6_end with Some e => e | None => p end); inline_url (set_host h l) p
        end
  | None =>
      match path_begin with
      | None => Some (finalize_url (set_host host_begin l))
      | Some p => h ← string_of_ptrs host_start (match ip_v6_end with Some e => e | None => p end); inline_url (set_host h l) p
      end
  end.

(** [location::location]. *)
Definition new_location (from : list Z) : option location :=
  let body := replace_char from 92 47 0 in
  let s := cstr body in
  let l := mk_location ∅ [] [] [] [] [] [] body 0 in
  match strchr_ptr s 58 with
  | Some colon =>
      protocol ← string_of_ptrs s colon;
      let l := set_protocol protocol l in
      if bool_decide (firstn 3 colon = chars "://") then host_url l (advance_ptr 3 colon)
      else inline_url l (advance_ptr 1 colon)
  | None => inline_url l s
  end.
End Location.
