(* ===== verification/Uplinks.v ===== *)
(** * Uplinks: pools of idle connections (network.cpp 2258-2445, network.h 439-469, and their user 4716-4793)

    [uplinks] keeps, under the identification of an address (Address.get_address_identification), the idle streams of that address, the clients waiting
    for one and the count of further connections a client may open.  An idle stream has a listener, a read callback
    in the multiplexer, that finds out when the peer closes it.  Here a client's callback is a name; [told] records the
    calls with the stream each was given.  Of the multiplexer the pools see two things: the read callback a stream waits
    with, and the calls it has spawned, which run later - [waiting] and [tasks].  [refs] are the reference counts. *)
From S2P Require Import Prelude Multiplexer.
From stdpp Require Import gmap.
Open Scope Z_scope.

Record connection_queue := mk_connection_queue { requests : list callback; streams : gset pointer; duplicates : Z }.
Definition set_requests (q : list callback) (c : connection_queue) : connection_queue := mk_connection_queue q (streams c) (duplicates c).
Definition set_streams (s : gset pointer) (c : connection_queue) : connection_queue := mk_connection_queue (requests c) s (duplicates c).
Definition set_duplicates (n : Z) (c : connection_queue) : connection_queue := mk_connection_queue (requests c) (streams c) n.

Record listener := mk_listener { listener_id : list Z; listener_stream : pointer }.
#[export] Instance listener_eq_dec : EqDecision listener.
Proof. solve_decision. Defined.

Record uplinks := mk_uplinks {
  connections : gmap (list Z) connection_queue; max_duplicates : Z; refs : gmap pointer Z;
  listening : gmap pointer (list Z); tasks : list (listener * socket_poll); told : list (callback * option pointer) }.

Definition set_connections (c : gmap (list Z) connection_queue) (u : uplinks) : uplinks :=
  mk_uplinks c (max_duplicates u) (refs u) (listening u) (tasks u) (told u).
Definition set_max (n : Z) (u : uplinks) : uplinks := mk_uplinks (connections u) n (refs u) (listening u) (tasks u) (told u).
Definition set_refs (r : gmap pointer Z) (u : uplinks) : uplinks :=
  mk_uplinks (connections u) (max_duplicates u) r (listening u) (tasks u) (told u).
Definition set_listening (l : gmap pointer (list Z)) (u : uplinks) : uplinks :=
  mk_uplinks (connections u) (max_duplicates u) (refs u) l (tasks u) (told u).
Definition set_tasks (t : list (listener * socket_poll)) (u : uplinks) : uplinks :=
  mk_uplinks (connections u) (max_duplicates u) (refs u) (listening u) t (told u).
Definition set_told (t : list (callback * option pointer)) (u : uplinks) : uplinks :=
  mk_uplinks (connections u) (max_duplicates u) (refs u) (listening u) (tasks u) t.

(** ** Reference counts and the multiplexer *)

Definition ref_count (p : pointer) (u : uplinks) : Z := default 0 (refs u !! p).
Definition add_ref (p : pointer) (u : uplinks) : uplinks := set_refs (<[p := ref_count p u + 1]> (refs u)) u.
Definition release (p : pointer) (u : uplinks) : uplinks := set_refs (<[p := ref_count p u - 1]> (refs u)) u.

(** A new task of the scheduler. *)
Definition spawn (l : listener) (event : socket_poll) (u : uplinks) : uplinks := set_tasks (tasks u ++ [(l, event)]) u.
(** [multiplexer::cancel_events] on a stream of the pools, which nothing waits to write to. *)
Definition cancel_stream (p : pointer) (event : socket_poll) (u : uplinks) : uplinks :=
  match listening u !! p with
  | Some id => spawn (mk_listener id p) event (set_listening (delete p (listening u)) u)
  | None => u
  end.
(** [multiplexer::when_readable]: a callback that waited already is cancelled. *)
Definition wait_stream (id : list Z) (p : pointer) (u : uplinks) : uplinks :=
  let u := cancel_stream p poll_cancel u in set_listening (<[p := id]> (listening u)) u.

Definition tell_one (c : callback) (p : option pointer) (u : uplinks) : uplinks := set_told (told u ++ [(c, p)]) u.
Definition tell_all (cs : list callback) (u : uplinks) : uplinks := set_told (told u ++ map (fun c => (c, None)) cs) u.

(** ** The pools *)

Definition new_uplinks : uplinks := mk_uplinks ∅ 1 ∅ ∅ [] [].
Definition set_max_duplicates (max : Z) (u : uplinks) : uplinks := set_max (u64 (max + 1)) u.

Definition listen_connection (id : list Z) (p : pointer) (u : uplinks) : uplinks := wait_stream id p (add_ref p u).

(** The label [expire] of the listener. *)
Definition expire_stream (id : list Z) (p : pointer) (u : uplinks) : uplinks :=
  match connections u !! id with
  | None => u
  | Some it =>
      let queue := requests it in
      let u := cancel_stream p poll_cancel u in
      let it := set_streams (streams it ∖ {[p]}) (set_requests [] it) in
      let u := set_connections (if bool_decide (streams it = ∅) && bool_decide (requests it = [])
                                then delete id (connections u) else <[id := it]> (connections u)) u in
      release p (tell_all queue u)
  end.
(** What [stream->read] yields until it fails: the bytes, which are dropped, then the error. *)
Definition run_listener (l : listener) (event : socket_poll) (failure : errc) (u : uplinks) : uplinks :=
  let p := listener_stream l in
  let u :=
    if is_error event then expire_stream (listener_id l) p u
    else if negb (is_skip event) then
      if decide (failure = operation_would_block) then listen_connection (listener_id l) p u
      else expire_stream (listener_id l) p u
    else u in
  release p u.

Definition store_stream (name : list Z) (p : pointer) (it : connection_queue) (u : uplinks) : uplinks :=
  listen_connection name p (set_connections (<[name := set_streams ({[p]} ∪ streams it) it]> (connections u)) u).
Definition push_connection (name : list Z) (stream : option pointer) (u : uplinks) : uplinks * bool :=
  if max_duplicates u =? 0 then (u, false)
  else
    match connections u !! name with
    | None => match stream with None => (u, false) | Some p => (store_stream name p (mk_connection_queue [] ∅ 0) u, true) end
    | Some it =>
        match requests it with
        | c :: cs =>
            (tell_one c stream (set_connections (<[name := set_requests cs it]> (connections u)) u), match stream with Some _ => true | None => false end)
        | [] =>
            match stream with
            | None => (if bool_decide (streams it = ∅) then set_connections (delete name (connections u)) u else u, false)
            | Some p => if max_duplicates u <=? Z.of_nat (size (streams it)) then (u, false) else (store_stream name p it u, true)
            end
        end
    end.

Section Pop.
(** [*streams.begin()] of the unordered set. *)
Context (begin_ : gset pointer -> option pointer).

Definition pop_connection_queued (name : list Z) (c : callback) (u : uplinks) : uplinks * bool :=
  if max_duplicates u =? 0 then (tell_one c None u, false)
  else
    match connections u !! name with
    | None =>
        (tell_one c None (set_connections (<[name := mk_connection_queue [] ∅ (u64 (max_duplicates u - 1))]> (connections u)) u), false)
    | Some it =>
        match begin_ (streams it) with
        | None =>
            if 0 <? duplicates it
            then (tell_one c None (set_connections (<[name := set_duplicates (duplicates it - 1) it]> (connections u)) u), false)
            else (set_connections (<[name := set_requests (requests it ++ [c]) it]> (connections u)) u, true)
        | Some p =>
            let u := set_connections (<[name := set_streams (streams it ∖ {[p]}) it]> (connections u)) u in
            (tell_one c (Some p) (cancel_stream p poll_cancel u), true)
        end
    end.
End Pop.

(** [~uplinks]. *)
Definition close_pool (it : connection_queue) (u : uplinks) : uplinks :=
  fold_left (fun u p => release p (cancel_stream p poll_cancel u)) (elements (streams it)) u.
Definition destroy_uplinks (u : uplinks) : uplinks :=
  let pools := map snd (map_to_list (connections u)) in
  let u := fold_left (fun u it => close_pool it u) pools u in
  tell_all (flat_map requests pools) (set_connections ∅ (set_max 0 u)).

Definition get_max_duplicates (u : uplinks) : Z := max_duplicates u.
Definition get_size (u : uplinks) : Z := Z.of_nat (size (connections u)).

(** ** The client of the pools: [socket_client] and its stream

    [instance] is [uplinks::has_instance]; [new_] is the address [create_stream] gets for a new socket. *)
Record socket_client := mk_client { cache : Z; stream : option pointer }.

Definition create_stream (new_ : pointer) (c : socket_client) (u : uplinks) : socket_client * uplinks :=
  match stream c with
  | Some _ => (c, u)
  | None => (mk_client (cache c) (Some new_), set_refs (<[new_ := 1]> (refs u)) u)
  end.
Definition destroy_stream (c : socket_client) (u : uplinks) : socket_client * uplinks :=
  match stream c with Some p => (mk_client (cache c) None, release p u) | None => (c, u) end.
Definition apply_reusability (keep_alive : bool) (c : socket_client) : socket_client :=
  mk_client (if keep_alive then 0 else 1) (stream c).
Definition enable_reusability (c : socket_client) : socket_client := if cache c <? 0 then mk_client 1 (stream c) else c.
Definition disable_reusability (c : socket_client) : socket_client := if cache c <? 0 then mk_client 0 (stream c) else c.

Definition try_store_stream (instance : bool) (address : list Z) (c : socket_client) (u : uplinks) : socket_client * uplinks * bool :=
  match stream c with
  | Some p =>
      if instance then
        let (u, stored) := push_connection address (if 0 <? cache c then Some p else None) u in
        if stored then (mk_client (-1) None, u, true) else (mk_client (-1) (Some p), u, false)
      else (mk_client (-1) (Some p), u, false)
  | None => (mk_client (-1) None, u, false)
  end.
(** The end of the client. *)
Definition drop_client (instance : bool) (address : list Z) (c : socket_client) (u : uplinks) : socket_client * uplinks :=
  let '(c, u, stored) := try_store_stream instance address c u in if stored then (c, u) else destroy_stream c u.

(** The callback of [try_reuse_stream]: whether the connection is there already. *)
Definition acquire (new_ : pointer) (reusing : option pointer) (c : socket_client) (u : uplinks) : socket_client * uplinks * bool :=
  let c := mk_client (cache c) reusing in
  match reusing with
  | Some _ => (c, u, true)
  | None => let (c, u) := create_stream new_ c u in (c, u, false)
  end.
(** What was told the client [self] during an operation reaches its callback. *)
Definition answer (self : callback) (before : nat) (u : uplinks) : option (option pointer) :=
  match filter (fun t => fst t = self) (skipn before (told u)) with [] => None | t :: _ => Some (snd t) end.
Definition try_reuse_stream (begin_ : gset pointer -> option pointer) (instance : bool) (address : list Z) (self : callback)
  (new_ : pointer) (c : socket_client) (u : uplinks) : socket_client * uplinks * option bool :=
  if instance then
    let (c, u) := destroy_stream c u in
    let (u', _) := pop_connection_queued begin_ address self u in
    match answer self (length (told u)) u' with
    | Some reusing => let '(c, u, reused) := acquire new_ reusing c u' in (c, u, Some reused)
    | None => (c, u', None)
    end
  else let (c, u) := create_stream new_ c u in (c, u, Some false).
