(* ===== verification/UplinksFacts.v ===== *)
(** * Uplinks: what the pools keep

    [pool_world] adds to the pools what their clients do: the callbacks they have handed over, how many of them owe the pools a
    connection, and the streams they own.  The first half is about every order in which the calls of the multiplexer
    can run; the second about the order of a program without a scheduler, where [cospawn] calls at once. *)
From S2P Require Import Prelude Multiplexer Uplinks.
From stdpp Require Import gmap.
Open Scope Z_scope.

Record pool_world := mk_pool_world { net : uplinks; asked : list callback; lent : gmap (list Z) nat; owned : gset pointer }.
Definition lent_at (w : pool_world) (name : list Z) : nat := default 0%nat (lent w !! name).
Definition news (u u' : uplinks) : list (callback * option pointer) := skipn (length (told u)) (told u').
Definition handed (ts : list (callback * option pointer)) : gset pointer := list_to_set (omap snd ts).
(** The clients that were told something about [name] open a connection of their own or have one now, and owe one push each. *)
Definition lend (name : list Z) (back : nat) (u' : uplinks) (w : pool_world) : gmap (list Z) nat :=
  <[name := (lent_at w name - back + length (news (net w) u'))%nat]> (lent w).
Definition one_stream (o : option pointer) : gset pointer := match o with Some p => {[p]} | None => ∅ end.

Section World.
Context (begin_ : gset pointer -> option pointer).

Inductive pool_step (prompt : bool) : pool_world -> pool_world -> Prop :=
  | step_pop w name c u' b :
      pop_connection_queued begin_ name c (net w) = (u', b) ->
      pool_step prompt w (mk_pool_world u' (asked w ++ [c]) (lend name 0 u' w) (owned w ∪ handed (news (net w) u')))
  | step_push w name o u' b :
      (0 < lent_at w name)%nat -> (forall p, o = Some p -> p ∈ owned w) ->
      push_connection name o (net w) = (u', b) ->
      pool_step prompt w (mk_pool_world u' (asked w) (lend name 1 u' w)
        ((if b then owned w ∖ one_stream o else owned w) ∪ handed (news (net w) u')))
  | step_open w p :
      ref_count p (net w) = 0 ->
      pool_step prompt w (mk_pool_world (set_refs (<[p := 1]> (refs (net w))) (net w)) (asked w) (lent w) ({[p]} ∪ owned w))
  | step_close w p :
      p ∈ owned w -> pool_step prompt w (mk_pool_world (release p (net w)) (asked w) (lent w) (owned w ∖ {[p]}))
  | step_event w p id event failure :
      listening (net w) !! p = Some id -> is_skip event = false ->
      let u' := run_listener (mk_listener id p) event failure (set_listening (delete p (listening (net w))) (net w)) in
      pool_step prompt w (mk_pool_world u' (asked w) (lend id 0 u' w) (owned w))
  | step_spawn w p event :
      prompt = false -> is_skip event = false ->
      pool_step prompt w (mk_pool_world (cancel_stream p event (net w)) (asked w) (lent w) (owned w))
  | step_task w a l event b failure :
      tasks (net w) = a ++ (l, event) :: b -> (prompt = true -> is_skip event = true) ->
      let u' := run_listener l event failure (set_tasks (a ++ b) (net w)) in
      pool_step prompt w (mk_pool_world u' (asked w) (lend (listener_id l) 0 u' w) (owned w)).

Inductive pool_run (prompt : bool) (max : Z) : pool_world -> Prop :=
  | run_new : pool_run prompt max (mk_pool_world (set_max_duplicates max new_uplinks) [] ∅ ∅)
  | run_step w w' : pool_run prompt max w -> pool_step prompt w w' -> pool_run prompt max w'.

(** ** What an operation does to one pool *)

Record effect (u u' : uplinks) (name : list Z) (o' : option connection_queue) (ts : list (callback * option pointer)) : Prop := mk_effect {
  effect_connections : connections u' = partial_alter (fun _ => o') name (connections u);
  effect_told : told u' = told u ++ ts;
  effect_max : max_duplicates u' = max_duplicates u }.

Lemma cancel_stream_eq p e u : cancel_stream p e u =
  mk_uplinks (connections u) (max_duplicates u) (refs u) (delete p (listening u))
    (tasks u ++ match listening u !! p with Some id => [(mk_listener id p, e)] | None => [] end) (told u).
Proof.
  unfold cancel_stream. destruct (listening u !! p) as [id|] eqn:E; [reflexivity|].
  rewrite app_nil_r, delete_id by exact E. now destruct u.
Qed.
Lemma listen_connection_eq id p u : listen_connection id p u =
  mk_uplinks (connections u) (max_duplicates u) (<[p := ref_count p u + 1]> (refs u)) (<[p := id]> (listening u))
    (tasks u ++ match listening u !! p with Some id' => [(mk_listener id' p, poll_cancel)] | None => [] end) (told u).
Proof.
  unfold listen_connection, wait_stream. rewrite cancel_stream_eq. unfold set_listening, add_ref, set_refs. cbn.
  now rewrite insert_delete_eq.
Qed.

Lemma effect_none u name : effect u u name (connections u !! name) [].
Proof. split; [|now rewrite app_nil_r|reflexivity]. symmetry. now apply partial_alter_self. Qed.

Lemma expire_effect id p u : exists o' ts, effect u (expire_stream id p u) id o' ts /\
  ((connections u !! id = None /\ o' = None /\ ts = []) \/
   exists it, connections u !! id = Some it /\ ts = map (fun c => (c, None)) (requests it) /\
     ((streams it ∖ {[p]} = ∅ /\ o' = None) \/
      (streams it ∖ {[p]} <> ∅ /\ o' = Some (mk_connection_queue [] (streams it ∖ {[p]}) (duplicates it))))).
Proof.
  unfold expire_stream. destruct (connections u !! id) as [it|] eqn:E.
  - set (o := if bool_decide (streams it ∖ {[p]} = ∅) then None else Some (mk_connection_queue [] (streams it ∖ {[p]}) (duplicates it))).
    exists o, (map (fun c => (c, None)) (requests it)). rewrite cancel_stream_eq. split.
    + split; [|reflexivity|reflexivity]. cbn. rewrite andb_true_r. subst o. now destruct (bool_decide _).
    + right. exists it. split; [reflexivity|]. split; [reflexivity|]. subst o.
      destruct (decide (streams it ∖ {[p]} = ∅)) as [D|D].
      * left. now rewrite bool_decide_eq_true_2.
      * right. now rewrite bool_decide_eq_false_2.
  - exists None, []. split; [|now left]. rewrite <- E. apply effect_none.
Qed.

(** The streams a read callback can find in its pool: the effect of a listener. *)
Lemma listener_effect l e failure u : exists o' ts, effect u (run_listener l e failure u) (listener_id l) o' ts /\
  ((o' = connections u !! listener_id l /\ ts = []) \/
   exists it, connections u !! listener_id l = Some it /\ ts = map (fun c => (c, None)) (requests it) /\
     ((streams it ∖ {[listener_stream l]} = ∅ /\ o' = None) \/
      (streams it ∖ {[listener_stream l]} <> ∅ /\ o' = Some (mk_connection_queue [] (streams it ∖ {[listener_stream l]}) (duplicates it))))).
Proof.
  assert (Stays : forall u', connections u' = connections u -> told u' = told u -> max_duplicates u' = max_duplicates u ->
    effect u u' (listener_id l) (connections u !! listener_id l) []).
  { intros u' C T M. split; [rewrite C; symmetry; now apply partial_alter_self|now rewrite T, app_nil_r|exact M]. }
  assert (Expired : exists o' ts, effect u (release (listener_stream l) (expire_stream (listener_id l) (listener_stream l) u)) (listener_id l) o' ts /\
    ((o' = connections u !! listener_id l /\ ts = []) \/
     exists it, connections u !! listener_id l = Some it /\ ts = map (fun c => (c, None)) (requests it) /\
       ((streams it ∖ {[listener_stream l]} = ∅ /\ o' = None) \/
        (streams it ∖ {[listener_stream l]} <> ∅ /\ o' = Some (mk_connection_queue [] (streams it ∖ {[listener_stream l]}) (duplicates it)))))).
  { destruct (expire_effect (listener_id l) (listener_stream l) u) as (o' & ts & [C T M] & D). exists o', ts. split; [now split|].
    destruct D as [(E & -> & ->)|D]; [left; now rewrite E|right; exact D]. }
  unfold run_listener. destruct (is_error e); [exact Expired|]. destruct (is_skip e); cbn [negb].
  - do 2 eexists. split; [now apply Stays|now left].
  - destruct (decide (failure = operation_would_block)); [|exact Expired].
    do 2 eexists. split; [apply Stays; rewrite listen_connection_eq; reflexivity|now left].
Qed.

Lemma push_effect name o u u' b : push_connection name o u = (u', b) -> 0 < max_duplicates u ->
  exists o' ts, effect u u' name o' ts /\
  ((o' = connections u !! name /\ ts = [] /\ forall it, o' = Some it -> requests it = [] /\ streams it <> ∅) \/
   (o' = None /\ ts = [] /\ o = None /\ exists it, connections u !! name = Some it /\ requests it = []) \/
   (exists p it, o = Some p /\ default (mk_connection_queue [] ∅ 0) (connections u !! name) = it /\ ts = [] /\ requests it = [] /\
      Z.of_nat (size (streams it)) < max_duplicates u /\ o' = Some (set_streams ({[p]} ∪ streams it) it)) \/
   (exists it c cs, connections u !! name = Some it /\ requests it = c :: cs /\ ts = [(c, o)] /\ o' = Some (set_requests cs it))).
Proof.
  intros E Max. unfold push_connection in E. rewrite (proj2 (Z.eqb_neq _ _)) in E by lia.
  destruct (connections u !! name) as [it|] eqn:L.
  - destruct (requests it) as [|c cs] eqn:Q.
    + destruct o as [p|].
      * destruct (Z.leb_spec (max_duplicates u) (Z.of_nat (size (streams it)))) as [S|S]; injection E as <- <-.
        -- do 2 eexists. split; [apply effect_none|]. left. split; [exact L|]. split; [reflexivity|]. intros it'. rewrite L. intros [= <-]. split; [exact Q|].
           intros Em. rewrite Em, size_empty in S. lia.
        -- do 2 eexists. split.
           ++ unfold store_stream. rewrite listen_connection_eq. split; [reflexivity|now rewrite app_nil_r|reflexivity].
           ++ right. right. left. exists p, it. auto 10.
      * injection E as <- <-. destruct (decide (streams it = ∅)) as [Em|Em].
        -- rewrite bool_decide_eq_true_2 by exact Em. do 2 eexists. split; [split; [reflexivity|now rewrite app_nil_r|reflexivity]|].
           right. left. eauto 10.
        -- rewrite bool_decide_eq_false_2 by exact Em. do 2 eexists. split; [apply effect_none|]. left.
           split; [exact L|]. split; [reflexivity|]. intros it'. rewrite L. intros [= <-]. now split.
    + injection E as <- <-. do 2 eexists. split; [split; reflexivity|]. do 3 right. exists it, c, cs. auto.
  - destruct o as [p|]; injection E as <- <-.
    + do 2 eexists. split.
      * unfold store_stream. rewrite listen_connection_eq. split; [reflexivity|now rewrite app_nil_r|reflexivity].
      * right. right. left. exists p. eexists. repeat split. exact Max.
    + do 2 eexists. split; [apply effect_none|]. left. split; [exact L|]. split; [reflexivity|]. intros it'. now rewrite L.
Qed.

Context (begin_spec : forall s : gset pointer, match begin_ s with Some p => p ∈ s | None => s = ∅ end).

Lemma pop_effect name c u u' b : pop_connection_queued begin_ name c u = (u', b) -> 0 < max_duplicates u < 2 ^ 64 ->
  exists o' ts, effect u u' name o' ts /\
  ((connections u !! name = None /\ ts = [(c, None)] /\ o' = Some (mk_connection_queue [] ∅ (max_duplicates u - 1))) \/
   exists it, connections u !! name = Some it /\
     ((streams it = ∅ /\ 0 < duplicates it /\ ts = [(c, None)] /\ o' = Some (set_duplicates (duplicates it - 1) it)) \/
      (streams it = ∅ /\ duplicates it <= 0 /\ ts = [] /\ o' = Some (set_requests (requests it ++ [c]) it)) \/
      (exists p, p ∈ streams it /\ ts = [(c, Some p)] /\ o' = Some (set_streams (streams it ∖ {[p]}) it)))).
Proof.
  intros E Max. unfold pop_connection_queued in E. rewrite (proj2 (Z.eqb_neq _ _)) in E by lia.
  destruct (connections u !! name) as [it|] eqn:L.
  - pose proof (begin_spec (streams it)) as B. destruct (begin_ (streams it)) as [p|].
    + injection E as <- <-. do 2 eexists. split; [rewrite cancel_stream_eq; split; reflexivity|]. right. exists it. split; [reflexivity|].
      right. right. exists p. auto 10.
    + destruct (Z.ltb_spec 0 (duplicates it)) as [D|D]; injection E as <- <-.
      * do 2 eexists. split; [split; reflexivity|]. right. exists it. auto 10.
      * do 2 eexists. split; [split; [reflexivity|now rewrite app_nil_r|reflexivity]|]. right. exists it. auto 10.
  - injection E as <- <-. do 2 eexists. split; [split; reflexivity|]. left. do 2 (split; [reflexivity|]).
    do 2 f_equal. apply wrapU_id. unfold fits. lia.
Qed.

(** ** Any order of the calls *)
Lemma size_remove (p : pointer) (s : gset pointer) : (size (s ∖ {[p]}) <= size s)%nat.
Proof. apply subseteq_size. set_solver. Qed.
Lemma size_add (p : pointer) (s : gset pointer) : (size ({[p]} ∪ s) <= S (size s))%nat.
Proof. rewrite size_union_alt, size_singleton. pose proof (size_remove p s). lia. Qed.

Definition queued (c : gmap (list Z) connection_queue) : list callback := flat_map (fun kv => requests (snd kv)) (map_to_list c).
Definition asked_for (o : option connection_queue) : list callback := match o with Some it => requests it | None => [] end.

Lemma queued_insert c name it : c !! name = None -> queued (<[name := it]> c) ≡ₚ requests it ++ queued c.
Proof. intros N. unfold queued. rewrite (map_to_list_insert c name it N). reflexivity. Qed.
Lemma queued_split c name : queued c ≡ₚ asked_for (c !! name) ++ queued (delete name c).
Proof.
  destruct (c !! name) as [it|] eqn:E; cbn [asked_for].
  - rewrite <- (insert_id c name it E) at 1. rewrite <- insert_delete_eq. apply queued_insert, lookup_delete_eq.
  - now rewrite delete_id.
Qed.
Lemma queued_alter c name o' : queued (partial_alter (fun _ => o') name c) ≡ₚ asked_for o' ++ queued (delete name c).
Proof.
  rewrite (queued_split _ name), lookup_partial_alter_eq. f_equiv. apply reflexive_eq. f_equal.
  apply map_eq. intros k. destruct (decide (name = k)) as [<-|N]; [now rewrite !lookup_delete_eq|].
  now rewrite !lookup_delete_ne, lookup_partial_alter_ne.
Qed.

Record pool_good (max : Z) (lent : nat) (it : connection_queue) : Prop := mk_pool_good {
  good_one : requests it = [] \/ streams it = ∅;
  good_size : Z.of_nat (size (streams it)) <= max;
  good_duplicates : 0 <= duplicates it < max;
  good_lent : streams it <> ∅ \/ (0 < lent)%nat }.
Record world_good (max : Z) (w : pool_world) : Prop := mk_world_good {
  good_max : max_duplicates (net w) = max;
  good_pools : forall name it, connections (net w) !! name = Some it -> pool_good max (lent_at w name) it;
  good_asked : asked w ≡ₚ map fst (told (net w)) ++ queued (connections (net w)) }.

Lemma news_effect u u' name o' ts : effect u u' name o' ts -> news u u' = ts.
Proof. intros [_ T _]. unfold news. now rewrite T, skipn_app, skipn_all, Nat.sub_diag. Qed.
Lemma effect_good max w u' name o' ts cs l owned' : world_good max w -> effect (net w) u' name o' ts ->
  (forall it', o' = Some it' -> pool_good max l it') ->
  asked_for (connections (net w) !! name) ++ cs ≡ₚ map fst ts ++ asked_for o' ->
  world_good max (mk_pool_world u' (asked w ++ cs) (<[name := l]> (lent w)) owned').
Proof.
  intros [M G A] [C T M'] G' B. split; cbn [net asked lent].
  - congruence.
  - intros n it. rewrite C. unfold lent_at. cbn [lent]. destruct (decide (n = name)) as [->|N].
    + rewrite lookup_partial_alter_eq, lookup_insert_eq. apply G'.
    + rewrite lookup_partial_alter_ne, lookup_insert_ne by congruence. apply G.
  - transitivity (map fst (told (net w)) ++ (asked_for (connections (net w) !! name) ++ cs) ++ queued (delete name (connections (net w)))).
    + rewrite A, (queued_split _ name), <- !app_assoc. do 2 f_equiv. apply Permutation_app_comm.
    + rewrite B, T, C, queued_alter, map_app, <- !app_assoc. reflexivity.
Qed.

(** Steps that leave the pools alone. *)
Lemma same_good max w u' owned' : world_good max w -> connections u' = connections (net w) -> told u' = told (net w) ->
  max_duplicates u' = max_duplicates (net w) -> world_good max (mk_pool_world u' (asked w) (lent w) owned').
Proof. intros [M G A] C T M'. split; cbn [net asked]; rewrite ?C, ?T; [congruence|exact G|exact A]. Qed.

Lemma listener_good max w u' l event failure owned' : world_good max w ->
  connections u' = connections (net w) -> told u' = told (net w) -> max_duplicates u' = max_duplicates (net w) ->
  let u2 := run_listener l event failure u' in
  world_good max (mk_pool_world u2 (asked w) (lend (listener_id l) 0 u2 w) owned').
Proof.
  intros W C T M u2. destruct (listener_effect l event failure u') as (o' & ts & E & D). fold u2 in E.
  assert (E' : effect (net w) u2 (listener_id l) o' ts) by (destruct E; split; congruence). clear E.
  unfold lend. rewrite (news_effect _ _ _ _ _ E'). rewrite C in D. rewrite <- (app_nil_r (asked w)).
  eapply effect_good; [exact W|exact E'| |]; destruct D as [[-> ->]|(it & L & -> & [[S ->]|[S ->]])]; try discriminate.
  - intros it L. cbn [length]. rewrite Nat.sub_0_r, Nat.add_0_r. now apply (good_pools _ _ W).
  - intros it' [= <-]. destruct (good_pools _ _ W _ _ L) as [G1 G2 G3 G4].
    split; [now left| |exact G3|now left]. cbn [streams]. pose proof (size_remove (listener_stream l) (streams it)). lia.
  - now rewrite app_nil_r.
  - rewrite L, map_map. cbn. now rewrite map_id, !app_nil_r.
  - rewrite L, map_map. cbn. now rewrite map_id, !app_nil_r.
Qed.

Lemma pop_good max w name c u' b owned' : 0 < max < 2 ^ 64 -> world_good max w -> pop_connection_queued begin_ name c (net w) = (u', b) ->
  world_good max (mk_pool_world u' (asked w ++ [c]) (lend name 0 u' w) owned').
Proof.
  intros Hmax W E. pose proof (good_max _ _ W) as Max.
  destruct (pop_effect _ _ _ _ _ E ltac:(lia)) as (o' & ts & Ef & D). unfold lend. rewrite (news_effect _ _ _ _ _ Ef).
  eapply effect_good; [exact W|exact Ef| |].
  - intros it' Eo. destruct D as [(L & -> & ->)|(it & L & [(S & P & -> & ->)|[(S & P & -> & ->)|(p & P & -> & ->)]])];
      injection Eo as <-; [|destruct (good_pools _ _ W _ _ L) as [G1 G2 G3 G4]..].
    + split; cbn; [now left|rewrite size_empty; lia|lia|right; lia].
    + split; cbn; [exact G1|exact G2|lia|right; lia].
    + split; cbn; [now right|exact G2|exact G3|]. destruct G4 as [G4|G4]; [congruence|right; lia].
    + split; cbn; [| |exact G3|right; lia].
      * destruct G1 as [G1|G1]; [now left|]. rewrite G1 in P. now apply not_elem_of_empty in P.
      * pose proof (size_remove p (streams it)). lia.
  - destruct D as [(L & -> & ->)|(it & L & [(S & P & -> & ->)|[(S & P & -> & ->)|(p & P & -> & ->)]])]; rewrite L; cbn; try reflexivity;
      apply Permutation_app_comm.
Qed.
Lemma push_good max w name o u' b owned' : 0 < max < 2 ^ 64 -> world_good max w -> (0 < lent_at w name)%nat ->
  push_connection name o (net w) = (u', b) -> world_good max (mk_pool_world u' (asked w) (lend name 1 u' w) owned').
Proof.
  intros Hmax W Lent E. pose proof (good_max _ _ W) as Max.
  destruct (push_effect _ _ _ _ _ E ltac:(lia)) as (o' & ts & Ef & D). unfold lend. rewrite (news_effect _ _ _ _ _ Ef).
  rewrite <- (app_nil_r (asked w)). eapply effect_good; [exact W|exact Ef| |].
  - intros it' Eo. destruct D as [(-> & -> & N)|[(-> & -> & _ & _)|[(p & it & -> & L & -> & Q & S & ->)|(it & c & cs & L & Q & -> & ->)]]]; [|discriminate| |].
    + destruct (N _ Eo) as [Q S]. destruct (good_pools _ _ W _ _ Eo) as [G1 G2 G3 G4]. split; [now left|exact G2|exact G3|now left].
    + injection Eo as <-. assert (G : pool_good max 1 it).
      { destruct (connections (net w) !! name) as [i|] eqn:Li; cbn in L; subst it.
        - destruct (good_pools _ _ W _ _ Li) as [G1 G2 G3 G4]. split; [exact G1|exact G2|exact G3|right; lia].
        - split; cbn; [now left|rewrite size_empty; lia|lia|right; lia]. }
      destruct G as [G1 G2 G3 _]. split; cbn; [now left| |exact G3|left; set_solver]. pose proof (size_add p (streams it)). lia.
    + injection Eo as <-. destruct (good_pools _ _ W _ _ L) as [G1 G2 G3 G4]. split; cbn; [right|exact G2|exact G3|right; lia].
      destruct G1 as [G1|G1]; [congruence|exact G1].
  - destruct D as [(-> & -> & N)|[(-> & -> & _ & it & L & Q)|[(p & it & -> & L & -> & Q & S & ->)|(it & c & cs & L & Q & -> & ->)]]].
    + now rewrite app_nil_r.
    + rewrite L. cbn. now rewrite Q.
    + destruct (connections (net w) !! name); cbn in *; subst; now rewrite ?app_nil_r.
    + rewrite L. cbn. rewrite Q. now rewrite app_nil_r.
Qed.
Lemma step_good prompt max w w' : 0 < max < 2 ^ 64 -> world_good max w -> pool_step prompt w w' -> world_good max w'.
Proof.
  intros Hmax W S. destruct S as [w name c u' b E|w name o u' b Lent Own E|w p F|w p O|w p id event failure L K|w p event _ K|w a l event b failure Ts K].
  - now apply (pop_good max w name c u' b).
  - now apply (push_good max w name o u' b).
  - now apply same_good.
  - now apply same_good.
  - now apply (listener_good max w _ (mk_listener id p)).
  - rewrite cancel_stream_eq. now apply same_good.
  - now apply listener_good.
Qed.
Lemma run_good prompt max w : 0 <= max < 2 ^ 64 - 1 -> pool_run prompt max w -> world_good (max + 1) w.
Proof.
  intros Hmax R. induction R as [|w w' R IH S].
  - split; [|now intros name it|reflexivity]. apply wrapU_id. unfold fits. lia.
  - eapply step_good; [|exact IH|exact S]. lia.
Qed.
End World.
