(* ===== verification/UplinksSpec.v ===== *)
(** * Uplinks: theorems

    Every client is told exactly once and none waits in vain; the reference counts are exact in a program whose calls are not
    put off by a scheduler, and in one with a scheduler a stream can be freed in the hands of its client; a client that
    connects again after a failure waits for itself. *)
From S2P Require Import Prelude Multiplexer Uplinks UplinksFacts.
From stdpp Require Import gmap.
Open Scope Z_scope.

Definition count_tasks (p : pointer) (ts : list (listener * socket_poll)) : Z :=
  Z.of_nat (length (filter (fun t => listener_stream (fst t) = p) ts)).
Definition streams_at (c : gmap (list Z) connection_queue) (id : list Z) : gset pointer := default ∅ (streams <$> c !! id).
Definition one_if (P : Prop) `{Decision P} : Z := if decide P then 1 else 0.
(** A stream is held by its owner, by its pool and the listener the pool waits with, or by listeners about to end. *)
Record refs_exact (u : uplinks) (owned : gset pointer) : Prop := mk_refs_exact {
  exact_count : forall p, ref_count p u = one_if (p ∈ owned) + 2 * one_if (is_Some (listening u !! p)) + count_tasks p (tasks u);
  exact_pools : forall p id, listening u !! p = Some id <-> p ∈ streams_at (connections u) id;
  exact_owned : forall p, p ∈ owned -> listening u !! p = None;
  exact_tasks : List.Forall (fun t => is_skip (snd t) = true) (tasks u) }.

Lemma one_if_true (P : Prop) `{Decision P} : P -> one_if P = 1.
Proof. intros. unfold one_if. now rewrite decide_True. Qed.
Lemma one_if_false (P : Prop) `{Decision P} : ~ P -> one_if P = 0.
Proof. intros. unfold one_if. now rewrite decide_False. Qed.
Lemma one_if_iff (P Q : Prop) `{Decision P, Decision Q} : (P <-> Q) -> one_if P = one_if Q.
Proof. intros E. unfold one_if. now apply decide_ext. Qed.
Lemma count_tasks_app p a b : count_tasks p (a ++ b) = count_tasks p a + count_tasks p b.
Proof. unfold count_tasks. rewrite filter_app, length_app. lia. Qed.
Lemma count_tasks_one p l e : count_tasks p [(l, e)] = one_if (p = listener_stream l).
Proof.
  unfold count_tasks, one_if. rewrite filter_cons, filter_nil. cbn [fst].
  destruct (decide (listener_stream l = p)), (decide (p = listener_stream l)); congruence || reflexivity.
Qed.
Lemma count_tasks_nonneg p ts : 0 <= count_tasks p ts.
Proof. unfold count_tasks. lia. Qed.
Lemma ref_count_insert p q n u r : refs u = <[q := n]> r -> ref_count p u = if decide (p = q) then n else default 0 (r !! p).
Proof. intros E. unfold ref_count. rewrite E. destruct (decide (p = q)) as [->|N]; [now rewrite lookup_insert_eq|now rewrite lookup_insert_ne]. Qed.
Lemma streams_at_insert c id it k : streams_at (<[id := it]> c) k = if decide (k = id) then streams it else streams_at c k.
Proof. unfold streams_at. destruct (decide (k = id)) as [->|N]; [now rewrite lookup_insert_eq|now rewrite lookup_insert_ne]. Qed.
Lemma streams_at_delete c id k : streams_at (delete id c) k = if decide (k = id) then ∅ else streams_at c k.
Proof. unfold streams_at. destruct (decide (k = id)) as [->|N]; [now rewrite lookup_delete_eq|now rewrite lookup_delete_ne]. Qed.
Lemma streams_at_some c id it : c !! id = Some it -> streams_at c id = streams it.
Proof. intros E. unfold streams_at. now rewrite E. Qed.

(** ** The counts stay exact *)

(** A pool that changes in what does not hold streams. *)
Lemma refs_pool u owned c ts : refs_exact u owned -> (forall id, streams_at c id = streams_at (connections u) id) ->
  refs_exact (mk_uplinks c (max_duplicates u) (refs u) (listening u) (tasks u) ts) owned.
Proof. intros [A B C D] E. split; [exact A| |exact C|exact D]. intros p id. cbn. rewrite E. apply B. Qed.
Lemma streams_at_same c id it it' : c !! id = Some it -> streams it' = streams it -> forall k, streams_at (<[id := it']> c) k = streams_at c k.
Proof. intros E S k. rewrite streams_at_insert. destruct (decide (k = id)) as [->|N]; [|reflexivity]. now rewrite (streams_at_some _ _ _ E). Qed.

Lemma store_exact u owned name p it : refs_exact u owned -> p ∈ owned -> streams it = streams_at (connections u) name ->
  refs_exact (store_stream name p it u) (owned ∖ {[p]}).
Proof.
  intros [A B C D] O S. pose proof (C p O) as L. unfold store_stream. rewrite listen_connection_eq. cbn. rewrite L, app_nil_r. split; cbn.
  - intros q. erewrite ref_count_insert by reflexivity. cbn. destruct (decide (q = p)) as [->|N].
    + change (ref_count p (set_connections _ u)) with (ref_count p u). rewrite A, L, lookup_insert_eq.
      rewrite (one_if_true (p ∈ owned)) by exact O. rewrite (one_if_false (is_Some (@None (list Z)))) by (intros [? [=]]).
      rewrite (one_if_false (p ∈ owned ∖ {[p]})) by set_solver. rewrite (one_if_true (is_Some (Some name))) by eauto. lia.
    + rewrite lookup_insert_ne by congruence. change (default 0 (refs u !! q)) with (ref_count q u). rewrite A.
      f_equal. f_equal. apply one_if_iff. set_solver.
  - intros q id. rewrite streams_at_insert. destruct (decide (q = p)) as [->|N].
    + rewrite lookup_insert_eq. destruct (decide (id = name)) as [->|N]; cbn; [set_solver|]. split; [congruence|].
      intros I. apply B in I. congruence.
    + rewrite lookup_insert_ne by congruence. rewrite B. destruct (decide (id = name)) as [->|N']; cbn; [rewrite S; set_solver|reflexivity].
  - intros q I. rewrite lookup_insert_ne by set_solver. apply C. set_solver.
  - exact D.
Qed.

Lemma push_exact u owned name o u' b : refs_exact u owned -> (forall p, o = Some p -> p ∈ owned) ->
  push_connection name o u = (u', b) ->
  refs_exact u' ((if b then owned ∖ one_stream o else owned) ∪ handed (news u u')).
Proof.
  intros R O E. unfold push_connection in E.
  assert (Idle : forall v, told v = told u -> handed (news u v) = ∅) by (intros v T; unfold news; now rewrite T, skipn_all).
  destruct (max_duplicates u =? 0); [injection E as <- <-; rewrite Idle, union_empty_r_L by reflexivity; exact R|].
  destruct (connections u !! name) as [it|] eqn:L.
  - destruct (requests it) as [|c cs] eqn:Q.
    + destruct o as [p|].
      * destruct (max_duplicates u <=? _); injection E as <- <-; [rewrite Idle, union_empty_r_L by reflexivity; exact R|].
        rewrite Idle, union_empty_r_L by (unfold store_stream; now rewrite listen_connection_eq).
        apply store_exact; [exact R|now apply O|]. now rewrite (streams_at_some _ _ _ L).
      * destruct (bool_decide (streams it = ∅)) eqn:Em; injection E as <- <-; rewrite Idle, union_empty_r_L by reflexivity; [|exact R].
        apply bool_decide_eq_true in Em. apply refs_pool; [exact R|]. intros id. rewrite streams_at_delete.
        destruct (decide (id = name)) as [->|N]; [|reflexivity]. now rewrite (streams_at_some _ _ _ L).
    + injection E as <- <-. unfold news, tell_one. cbn. rewrite skipn_app, skipn_all, Nat.sub_diag. cbn.
      assert (H : (match o with Some _ => owned ∖ one_stream o | None => owned end) ∪ handed [(c, o)] = owned).
      { unfold handed. destruct o as [p|]; cbn; [|set_solver]. pose proof (O p eq_refl). apply set_eq. intros q.
        destruct (decide (q = p)) as [->|]; set_solver. }
      destruct o; cbn in H |- *; rewrite H; apply (refs_pool u owned (<[name := set_requests cs it]> (connections u)) _ R);
        now apply streams_at_same with it.
  - destruct o as [p|]; injection E as <- <-; [|rewrite Idle, union_empty_r_L by reflexivity; exact R].
    rewrite Idle, union_empty_r_L by (unfold store_stream; now rewrite listen_connection_eq).
    apply store_exact; [exact R|now apply O|]. unfold streams_at. now rewrite L.
Qed.

Lemma release_exact u owned p : refs_exact u owned -> p ∈ owned -> refs_exact (release p u) (owned ∖ {[p]}).
Proof.
  intros [A B C D] O. pose proof (C p O) as L. split; cbn; [| exact B | set_solver | exact D].
  intros q. erewrite ref_count_insert by reflexivity. destruct (decide (q = p)) as [->|N].
  - rewrite A, (one_if_true (p ∈ owned)), (one_if_false (p ∈ owned ∖ {[p]})) by set_solver. lia.
  - change (default 0 (refs u !! q)) with (ref_count q u). rewrite A. f_equal. f_equal. apply one_if_iff. set_solver.
Qed.
Lemma open_exact u owned p : refs_exact u owned -> ref_count p u = 0 -> refs_exact (set_refs (<[p := 1]> (refs u)) u) ({[p]} ∪ owned).
Proof.
  intros [A B C D] F. pose proof (A p) as Ap. rewrite F in Ap. pose proof (count_tasks_nonneg p (tasks u)) as T.
  assert (Np : p ∉ owned) by (intros I; rewrite (one_if_true (p ∈ owned)) in Ap by exact I; unfold one_if in Ap; destruct (decide _); lia).
  assert (L : listening u !! p = None).
  { destruct (listening u !! p) eqn:E; [|reflexivity]. rewrite (one_if_true (is_Some _)) in Ap by eauto. unfold one_if in Ap. destruct (decide _); lia. }
  split; cbn; [|exact B| |exact D].
  - intros q. erewrite ref_count_insert by reflexivity. destruct (decide (q = p)) as [->|N].
    + rewrite L in *. rewrite (one_if_false (p ∈ owned)) in Ap by exact Np.
      rewrite (one_if_false (is_Some (@None (list Z)))) in * by (intros [? [=]]). rewrite one_if_true by set_solver. lia.
    + change (default 0 (refs u !! q)) with (ref_count q u). rewrite A. f_equal. f_equal. apply one_if_iff. set_solver.
  - intros q I. apply elem_of_union in I as [I%elem_of_singleton|I]; [now subst|now apply C].
Qed.

(** A listener that is cancelled ends with its reference. *)
Lemma task_exact u owned a l event b failure : refs_exact u owned -> tasks u = a ++ (l, event) :: b ->
  refs_exact (run_listener l event failure (set_tasks (a ++ b) u)) owned.
Proof.
  intros [A B C D] E. rewrite E in D. apply List.Forall_app in D as [Da Db]. inversion_clear Db as [|? ? Sk Db']. cbn in Sk.
  unfold run_listener. destruct event; try discriminate. cbn [is_error is_skip negb]. split; cbn; [|exact B|exact C|now apply List.Forall_app].
  intros q. erewrite ref_count_insert by reflexivity. cbn.
  assert (Q : ref_count q u = one_if (q ∈ owned) + 2 * one_if (is_Some (listening u !! q)) + count_tasks q (a ++ b) + one_if (q = listener_stream l)).
  { rewrite A, E. change ((l, poll_cancel) :: b) with ([(l, poll_cancel)] ++ b). rewrite !count_tasks_app, count_tasks_one. lia. }
  destruct (decide (q = listener_stream l)) as [->|N].
  - change (ref_count (listener_stream l) (set_tasks (a ++ b) u)) with (ref_count (listener_stream l) u).
    rewrite Q, (one_if_true (listener_stream l = listener_stream l)) by reflexivity. lia.
  - change (default 0 (refs u !! q)) with (ref_count q u). rewrite Q, (one_if_false (q = listener_stream l)) by exact N. lia.
Qed.

(** A listener that is called as its event comes: the stream is still in its pool. *)
Lemma event_exact u owned p id event failure : refs_exact u owned -> listening u !! p = Some id -> is_skip event = false ->
  refs_exact (run_listener (mk_listener id p) event failure (set_listening (delete p (listening u)) u)) owned.
Proof.
  intros [A B C D] L K. set (u1 := set_listening _ u). assert (I : p ∈ streams_at (connections u) id) by now apply B.
  assert (No : p ∉ owned) by (intros O; apply C in O; congruence).
  assert (Expired : refs_exact (release p (expire_stream id p u1)) owned).
  { unfold streams_at in I. destruct (connections u !! id) as [it|] eqn:Ei; [|now apply not_elem_of_empty in I]. cbn in I.
    unfold expire_stream. change (connections u1) with (connections u). rewrite Ei, cancel_stream_eq. cbn.
    rewrite lookup_delete_eq, app_nil_r, delete_delete_eq. 
    match goal with |- context [if ?b then delete id ?x else ?y] => set (c' := if b then delete id x else y) end.
    assert (S' : forall k, streams_at c' k = if decide (k = id) then streams it ∖ {[p]} else streams_at (connections u) k).
    { intros k. subst c'. rewrite andb_true_r. destruct (bool_decide (streams it ∖ {[p]} = ∅)) eqn:Em.
      - apply bool_decide_eq_true in Em. rewrite streams_at_delete. destruct (decide (k = id)); [now rewrite Em|reflexivity].
      - now rewrite streams_at_insert. }
    split; cbn; [| | |exact D].
    - intros q. erewrite ref_count_insert by reflexivity. cbn. destruct (decide (q = p)) as [->|N].
      + erewrite ref_count_insert by reflexivity. rewrite decide_True by reflexivity.
        match goal with |- context [ref_count p ?v] => change (ref_count p v) with (ref_count p u) end.
        rewrite A, L, lookup_delete_eq, (one_if_true (is_Some (Some id))) by eauto. rewrite (one_if_false (is_Some (@None (list Z)))) by (intros [? [=]]). lia.
      + rewrite !lookup_insert_ne, lookup_delete_ne by congruence. change (default 0 (refs u !! q)) with (ref_count q u). apply A.
    - intros q k. rewrite S'. destruct (decide (q = p)) as [->|N].
      + rewrite lookup_delete_eq. destruct (decide (k = id)) as [->|N]; [set_solver|]. split; [discriminate|]. intros J. apply B in J. congruence.
      + rewrite lookup_delete_ne by congruence. rewrite B. destruct (decide (k = id)) as [->|N']; [|reflexivity].
        rewrite (streams_at_some _ _ _ Ei). set_solver.
    - intros q O. rewrite lookup_delete_None. right. now apply C. }
  unfold run_listener. cbn [listener_stream listener_id]. rewrite K. cbn [negb]. destruct (is_error event); [exact Expired|].
  destruct (decide (failure = operation_would_block)); [|exact Expired].
  rewrite listen_connection_eq. cbn. rewrite lookup_delete_eq, app_nil_r, insert_delete_eq, (insert_id (listening u)) by exact L.
  split; cbn; [|exact B|exact C|exact D]. intros q. erewrite ref_count_insert by reflexivity. cbn. destruct (decide (q = p)) as [->|N].
  - erewrite ref_count_insert by reflexivity. rewrite decide_True by reflexivity. change (ref_count p u1) with (ref_count p u). rewrite A. lia.
  - rewrite lookup_insert_ne by congruence. apply A.
Qed.

Section Theorems.
Context (begin_ : gset pointer -> option pointer).
Context (begin_spec : forall s : gset pointer, match begin_ s with Some p => p ∈ s | None => s = ∅ end).

Lemma pop_exact u owned name c u' b : refs_exact u owned -> pop_connection_queued begin_ name c u = (u', b) ->
  refs_exact u' (owned ∪ handed (news u u')).
Proof.
  intros R E. unfold pop_connection_queued in E.
  assert (Alone : forall cs, (forall id, streams_at cs id = streams_at (connections u) id) ->
    refs_exact (tell_one c None (set_connections cs u)) (owned ∪ handed (news u (tell_one c None (set_connections cs u))))).
  { intros cs H. unfold news, tell_one. cbn. rewrite skipn_app, skipn_all, Nat.sub_diag. unfold handed. cbn. rewrite union_empty_r_L.
    now apply (refs_pool u owned cs _ R). }
  destruct (max_duplicates u =? 0).
  - injection E as <- <-. now apply (Alone (connections u)).
  - destruct (connections u !! name) as [it|] eqn:L.
    + pose proof (begin_spec (streams it)) as Bs. destruct (begin_ (streams it)) as [p|].
      * injection E as <- <-. unfold news, tell_one. rewrite cancel_stream_eq. cbn. rewrite skipn_app, skipn_all, Nat.sub_diag. unfold handed. cbn.
        rewrite union_empty_r_L. destruct R as [A B C D].
        assert (Lp : listening u !! p = Some name) by (apply B; now rewrite (streams_at_some _ _ _ L)). rewrite Lp.
        assert (No : p ∉ owned) by (intros O; apply C in O; congruence). split; cbn.
        -- intros q. change (ref_count q _) with (ref_count q u). rewrite A, count_tasks_app, count_tasks_one. cbn. destruct (decide (q = p)) as [->|N].
           ++ rewrite Lp, lookup_delete_eq, (one_if_false (p ∈ owned)) by exact No. rewrite (one_if_true (is_Some _)) by eauto.
              rewrite (one_if_false (is_Some (@None (list Z)))) by (intros [? [=]]). rewrite (one_if_true (p ∈ _)) by set_solver.
              rewrite (one_if_true (p = p)) by reflexivity. lia.
           ++ rewrite lookup_delete_ne by congruence. rewrite (one_if_false (q = p)) by exact N.
              rewrite (one_if_iff (q ∈ owned ∪ {[p]}) (q ∈ owned)) by set_solver. lia.
        -- intros q k. rewrite streams_at_insert. destruct (decide (q = p)) as [->|N].
           ++ rewrite lookup_delete_eq. destruct (decide (k = name)) as [->|N]; cbn; [set_solver|]. split; [discriminate|].
              intros J. apply B in J. congruence.
           ++ rewrite lookup_delete_ne by congruence. rewrite B. destruct (decide (k = name)) as [->|N']; cbn; [|reflexivity].
              rewrite (streams_at_some _ _ _ L). set_solver.
        -- intros q O. apply lookup_delete_None. apply elem_of_union in O as [O|O%elem_of_singleton]; [right; now apply C|now left].
        -- apply List.Forall_app. split; [exact D|]. now constructor.
      * destruct (0 <? duplicates it); injection E as <- <-.
        -- apply Alone. now apply streams_at_same with it.
        -- unfold news. cbn. rewrite skipn_all. unfold handed. cbn. rewrite union_empty_r_L.
           apply (refs_pool u owned _ _ R). now apply streams_at_same with it.
    + injection E as <- <-. apply Alone. intros k. rewrite streams_at_insert. unfold streams_at.
      destruct (decide (k = name)) as [->|N]; [now rewrite L|reflexivity].
Qed.

Lemma step_exact w w' : refs_exact (net w) (owned w) -> pool_step begin_ true w w' -> refs_exact (net w') (owned w').
Proof.
  intros R S. destruct S as [w name c u' b E|w name o u' b Lent Own E|w p F|w p O|w p id event failure L K|w p event K _|w a l event b failure Ts K].
  - now apply (pop_exact _ _ name c u' b).
  - now apply (push_exact _ _ name o u' b).
  - now apply open_exact.
  - now apply release_exact.
  - now apply event_exact.
  - discriminate.
  - now apply (task_exact _ _ _ _ event).
Qed.

(** (C29) Whatever the order of the calls: every callback handed over was told once or is waiting; a pool has idle
    streams or waiting clients, never both, and at most one stream more than its bound; and where a client waits, a push to
    the pool is owed - perhaps by a waiting client itself, as in [reconnect_waits] - and a push tells the first of the line. *)
Theorem uplinks_requests (prompt : bool) (max : Z) (w : pool_world) (Bound : 0 <= max < 2 ^ 64 - 1) (R : pool_run begin_ prompt max w) :
  asked w ≡ₚ map fst (told (net w)) ++ queued (connections (net w)) /\
  forall name it, connections (net w) !! name = Some it ->
    (requests it = [] \/ streams it = ∅) /\ Z.of_nat (size (streams it)) <= max + 1 /\
    forall c cs, requests it = c :: cs ->
      (0 < lent_at w name)%nat /\ forall o, told (fst (push_connection name o (net w))) = told (net w) ++ [(c, o)].
Proof.
  destruct (run_good begin_ begin_spec prompt max w Bound R) as [M G A]. split; [exact A|]. intros name it L.
  destruct (G _ _ L) as [G1 G2 G3 G4]. split; [exact G1|]. split; [exact G2|]. intros c cs Q.
  split; [destruct G1 as [G1|G1]; [congruence|]; destruct G4 as [G4|G4]; [congruence|exact G4]|].
  intros o. unfold push_connection. rewrite L, Q. rewrite (proj2 (Z.eqb_neq _ _)) by lia. reflexivity.
Qed.

(** (C30) In a program whose calls are made at once the reference counts are exact: a stream has one reference of the client that owns it, or
    one of its pool and one of the listener there, and one of each cancelled listener that has not ended.  So a stream in a pool
    or in use is not freed, it is in one pool at most and not in use then, and it is listened to as long as it is in the pool. *)
Theorem uplinks_references (max : Z) (w : pool_world) (R : pool_run begin_ true max w) :
  (forall p, ref_count p (net w) = one_if (p ∈ owned w) + 2 * one_if (is_Some (listening (net w) !! p)) + count_tasks p (tasks (net w))) /\
  (forall p name it, connections (net w) !! name = Some it -> p ∈ streams it ->
     listening (net w) !! p = Some name /\ 0 < ref_count p (net w) /\ p ∉ owned w) /\
  (forall p, p ∈ owned w -> 0 < ref_count p (net w)).
Proof.
  assert (E : refs_exact (net w) (owned w)).
  { induction R as [|w w' R IH S]; [|now apply step_exact with w]. split; [reflexivity| |intros p O; now apply not_elem_of_empty in O|constructor].
    intros p id. unfold streams_at. cbn. rewrite !lookup_empty. split; [discriminate|]. intros I. now apply not_elem_of_empty in I. }
  destruct E as [A B C D]. split; [exact A|]. split.
  - intros p name it L I. assert (Lp : listening (net w) !! p = Some name) by (apply B; now rewrite (streams_at_some _ _ _ L)).
    split; [exact Lp|]. split; [|intros O; apply C in O; congruence]. rewrite A, Lp, (one_if_true (is_Some (Some name))) by eauto.
    pose proof (count_tasks_nonneg p (tasks (net w))). unfold one_if. destruct (decide _); lia.
  - intros p O. rewrite A, (one_if_true (p ∈ owned w)) by exact O. pose proof (count_tasks_nonneg p (tasks (net w))).
    unfold one_if. destruct (decide _); lia.
Qed.
End Theorems.

(** ** Witnesses, and the orders and uses that go wrong *)

Definition first_stream (s : gset pointer) : option pointer := hd_error (elements s).
Lemma first_stream_spec (s : gset pointer) : match first_stream s with Some p => p ∈ s | None => s = ∅ end.
Proof.
  unfold first_stream. destruct (elements s) as [|p l] eqn:E; cbn; [now apply elements_empty_inv in E; apply leibniz_equiv|].
  apply elem_of_elements. rewrite E. now left.
Qed.

Definition popped (name : list Z) (c : callback) (w : pool_world) : pool_world :=
  let u' := fst (pop_connection_queued first_stream name c (net w)) in
  mk_pool_world u' (asked w ++ [c]) (lend name 0 u' w) (owned w ∪ handed (news (net w) u')).
Definition opened (p : pointer) (w : pool_world) : pool_world :=
  mk_pool_world (set_refs (<[p := 1]> (refs (net w))) (net w)) (asked w) (lent w) ({[p]} ∪ owned w).
Definition pushed (name : list Z) (o : option pointer) (w : pool_world) : pool_world :=
  let r := push_connection name o (net w) in
  mk_pool_world (fst r) (asked w) (lend name 1 (fst r) w) ((if snd r then owned w ∖ one_stream o else owned w) ∪ handed (news (net w) (fst r))).
Lemma popped_step prompt name c w : pool_step first_stream prompt w (popped name c w).
Proof. eapply step_pop. apply surjective_pairing. Qed.
Lemma pushed_step prompt name p w : (0 < lent_at w name)%nat -> p ∈ owned w -> pool_step first_stream prompt w (pushed name (Some p) w).
Proof. intros L O. unfold pushed. eapply step_push; [exact L|now intros q [= <-]|apply surjective_pairing]. Qed.

(** A client opens a stream and stores it. *)
Definition stored_world : pool_world :=
  pushed (chars "h") (Some 7%positive) (opened 7%positive (popped (chars "h") 1%positive (mk_pool_world (set_max_duplicates 0 new_uplinks) [] ∅ ∅))).
Lemma stored_run prompt : pool_run first_stream prompt 0 stored_world.
Proof.
  eapply run_step; [|apply pushed_step; [vm_compute; lia|]].
  - eapply run_step; [|apply step_open; vm_compute; reflexivity]. eapply run_step; [apply run_new|apply popped_step].
  - cbn. set_solver.
Qed.
Lemma uplinks_references_witness : ref_count 7%positive (net stored_world) = 2 /\ (7%positive ∈ owned stored_world -> 0 < ref_count 7%positive (net stored_world)).
Proof. destruct (uplinks_references first_stream first_stream_spec 0 stored_world (stored_run true)) as (A & _ & B). split; [rewrite A; vm_compute; reflexivity|apply B]. Defined.
Lemma uplinks_requests_witness : asked stored_world ≡ₚ [1%positive].
Proof.
  destruct (uplinks_requests first_stream first_stream_spec true 0 stored_world ltac:(lia) (stored_run true)) as [A _].
  etransitivity; [exact A|]. vm_compute. reflexivity.
Defined.

Lemma spawned_run event : is_skip event = false ->
  pool_run first_stream false 0 (popped (chars "h") 2%positive (mk_pool_world (cancel_stream 7%positive event (net stored_world)) (asked stored_world) (lent stored_world) (owned stored_world))).
Proof. intros K. eapply run_step; [eapply run_step; [apply (stored_run false)|exact (step_spawn _ false stored_world 7%positive event eq_refl K)]|apply popped_step]. Qed.

(** With a scheduler the call of a listener can come after its stream was given to a client: a reset that was on its way
    releases the stream in the hands of the client - the last reference -, and any other event makes the pool read from the
    client's stream and listen to it again. *)
Theorem uplinks_race :
  (exists w, pool_run first_stream false 0 w /\ 7%positive ∈ owned w /\ ref_count 7%positive (net w) = 0) /\
  (exists w, pool_run first_stream false 0 w /\ 7%positive ∈ owned w /\ listening (net w) !! 7%positive = Some (chars "h")).
Proof.
  split; eexists.
  - split; [eapply run_step; [apply (spawned_run poll_reset eq_refl)|
      apply (step_task _ _ _ [] (mk_listener (chars "h") 7%positive) poll_reset [] operation_would_block); [vm_compute; reflexivity|discriminate]]|].
    split; [cbn; set_solver|vm_compute; reflexivity].
  - split; [eapply run_step; [apply (spawned_run poll_finish eq_refl)|
      apply (step_task _ _ _ [] (mk_listener (chars "h") 7%positive) poll_finish [] operation_would_block); [vm_compute; reflexivity|discriminate]]|].
    split; [cbn; set_solver|vm_compute; reflexivity].
Qed.

(** Connecting again and again without a disconnection in between. *)
Section Reconnect.
Context (begin_ : gset pointer -> option pointer) (begin_spec : forall s : gset pointer, match begin_ s with Some p => p ∈ s | None => s = ∅ end).
Context (address : list Z) (self : callback).

Fixpoint connects (addresses : list pointer) (c : socket_client) (u : uplinks) : socket_client * uplinks * list (option bool) :=
  match addresses with
  | [] => (c, u, [])
  | p :: addresses =>
      let '(c, u, r) := try_reuse_stream begin_ true address self p c u in
      let '(c, u, rs) := connects addresses c u in (c, u, r :: rs)
  end.

Lemma destroy_same c u : stream (fst (destroy_stream c u)) = None /\ connections (snd (destroy_stream c u)) = connections u /\
  told (snd (destroy_stream c u)) = told u /\ max_duplicates (snd (destroy_stream c u)) = max_duplicates u.
Proof. unfold destroy_stream. destruct (stream c) eqn:E; cbn; auto. Qed.
Lemma answer_told c o u : answer c (length (told u)) (tell_one c o u) = Some o.
Proof.
  unfold answer. change (told (tell_one c o u)) with (told u ++ [(c, o)]). rewrite skipn_app, skipn_all, Nat.sub_diag.
  change ([] ++ skipn 0 [(c, o)]) with [(c, o)]. rewrite filter_cons, decide_True; reflexivity.
Qed.
Lemma answer_none c u u' : told u' = told u -> answer c (length (told u)) u' = None.
Proof. intros T. unfold answer. now rewrite T, skipn_all. Qed.
Lemma begin_empty : begin_ ∅ = None.
Proof. pose proof (begin_spec ∅) as B. destruct (begin_ ∅) as [p|]; [|reflexivity]. now apply not_elem_of_empty in B. Qed.

Lemma connects_spec addresses last : forall d c u, 0 < max_duplicates u -> d = Z.of_nat (length addresses) ->
  connections u !! address = Some (mk_connection_queue [] ∅ d) ->
  exists c' u', connects (addresses ++ [last]) c u = (c', u', replicate (length addresses) (Some false) ++ [None]) /\
    stream c' = None /\ connections u' !! address = Some (mk_connection_queue [self] ∅ 0).
Proof.
  induction addresses as [|p addresses IH]; intros d c u Max -> L; cbn [app connects]; unfold try_reuse_stream;
    destruct (destroy_same c u) as (Ds & Dc & Dt & Dm); destruct (destroy_stream c u) as [c1 u1]; cbn [fst snd] in *;
    unfold pop_connection_queued; rewrite Dm, (proj2 (Z.eqb_neq _ _)), Dc, L by lia; cbn [streams duplicates]; rewrite begin_empty.
  - change (0 <? Z.of_nat (length (@nil pointer))) with false. cbn iota. cbn [requests app]. rewrite answer_none by reflexivity. do 2 eexists. split; [reflexivity|].
    split; [exact Ds|]. cbn. now rewrite lookup_insert_eq.
  - rewrite (proj2 (Z.ltb_lt _ _)) by (cbn; lia). match goal with |- context [tell_one self None ?v] => set (u2 := v) end.
    change (told u1) with (told u2). rewrite answer_told. cbn [acquire create_stream stream cache].
    match goal with |- context [connects _ ?c2 ?u3] => destruct (IH (Z.of_nat (length addresses)) c2 u3) as (c' & u' & E & S & C) end.
    + cbn. lia.
    + reflexivity.
    + cbn. rewrite lookup_insert_eq. unfold set_duplicates. cbn. do 2 f_equal. lia.
    + rewrite E. do 2 eexists. split; [reflexivity|]. now split.
Qed.

(** A client whose connection fails and that connects again without [disconnect] gives nothing back: when it has used up the further
    connections of its pool it is put in line behind itself, has no stream, and is never told. *)
Theorem reconnect_waits (c : socket_client) (u : uplinks) (first last : pointer) (addresses : list pointer)
  (Max : max_duplicates u = 1 + Z.of_nat (length addresses)) (Fits : max_duplicates u < 2 ^ 64) (Fresh : connections u !! address = None) :
  exists c' u', connects (first :: addresses ++ [last]) c u = (c', u', replicate (S (length addresses)) (Some false) ++ [None]) /\
    stream c' = None /\ connections u' !! address = Some (mk_connection_queue [self] ∅ 0).
Proof.
  cbn [connects]. unfold try_reuse_stream.
  destruct (destroy_same c u) as (Ds & Dc & Dt & Dm); destruct (destroy_stream c u) as [c1 u1]; cbn [fst snd] in *.
  unfold pop_connection_queued. rewrite Dm, (proj2 (Z.eqb_neq _ _)), Dc, Fresh by lia.
  match goal with |- context [tell_one self None ?v] => set (u2 := v) end.
  change (told u1) with (told u2). rewrite answer_told. cbn [acquire create_stream stream cache].
  match goal with |- context [connects _ ?c2 ?u3] => destruct (connects_spec addresses last (Z.of_nat (length addresses)) c2 u3) as (c' & u' & E & S & C) end.
  - cbn. lia.
  - reflexivity.
  - cbn. rewrite lookup_insert_eq. do 2 f_equal. rewrite wrapU_id by (unfold fits; lia). lia.
  - rewrite E. do 2 eexists. split; [reflexivity|]. now split.
Qed.
End Reconnect.
Lemma reconnect_waits_witness : exists c' u',
  connects first_stream (chars "h") 1%positive ([3%positive] ++ [4%positive]) (mk_client (-1) None) new_uplinks = (c', u', [Some false; None]) /\
  stream c' = None /\ connections u' !! chars "h" = Some (mk_connection_queue [1%positive] ∅ 0).
Proof. apply (reconnect_waits first_stream first_stream_spec (chars "h") 1%positive (mk_client (-1) None) new_uplinks 3%positive 4%positive []); [reflexivity|reflexivity|reflexivity]. Defined.
