(* ===== verification/Address.v ===== *)
(** * Addresses and address masks (network.cpp 115-131, 695-918, 1444-1523; network.h 176-238; core.h 2520-2536, 5268-5302)

    A socket address is a host text, a port and what [address_buffer] holds.  [inet_pton] and [getnameinfo] are
    parameters.  [parse_address_mask] shifts a 32-bit integer by 32 minus the length of the mask, which C++ does not
    define for a mask of length 0: [cidr_undefined]. *)
From S2P Require Import Prelude UInt128 Text TextEdit.
Open Scope Z_scope.

(** ** Integers in text and in memory *)

(** [std::from_chars] with a base: the digits at the front, an error when there are none or the value does not fit. *)
Definition base_digit (base b : Z) : option Z :=
  let v := if isdigit b then b - 48 else if islower b then b - 87 else if isupper b then b - 55 else base in
  if v <? base then Some v else None.
Fixpoint base_value (base : Z) (s : list Z) (acc : Z) : Z :=
  match s with
  | [] => acc
  | b :: s => match base_digit base b with Some d => base_value base s (acc * base + d) | None => acc end
  end.
Definition from_string_uint (width base : Z) (s : list Z) : option Z :=
  match s with
  | [] => None
  | b :: _ =>
      match base_digit base b with
      | Some _ => if base_value base s 0 <? 2 ^ width then Some (base_value base s 0) else None
      | None => None
      end
  end.

(** [swap_endianness] of an integer of [n] bytes; the machine is little endian, so [to_endianness(big)] swaps. *)
Definition swap_bytes (n : nat) (value : Z) : Z := le_val 256 (rev (le_digits n 256 value)).
(** [memcpy] of values of [n] bytes one behind the other into an integer. *)
Definition memory_of (n : nat) (values : list Z) : Z := le_val 256 (flat_map (le_digits n 256) values).

(** ** Socket addresses *)

Inductive ip_bytes := in_none | in_4 (sin_addr : list Z) (sin_port : Z) | in_6 (sin6_addr : list Z) (sin6_port : Z) | in_other (family : Z).
Record socket_address := mk_address { hostname_text : list Z; info_port : Z; address_buffer : ip_bytes }.

Definition empty_address : socket_address := mk_address [] 0 in_none.
Section System.
(** The four and the sixteen bytes of a text; the text of the bytes. *)
Context (inet_pton4 inet_pton6 : list Z -> option (list Z)) (getnameinfo : ip_bytes -> option (list Z)).

(** The constructor of an IP text and a port. *)
Definition address_of_ip (ip_address : list Z) (port : Z) : socket_address :=
  match inet_pton4 (cstr ip_address) with
  | Some bytes => mk_address ip_address port (in_4 bytes (u16 port))
  | None =>
      match inet_pton6 (cstr ip_address) with
      | Some bytes => mk_address ip_address port (in_6 bytes (u16 port))
      | None => empty_address
      end
  end.

Definition get_ip_address (a : socket_address) : option (list Z) := getnameinfo (address_buffer a).
(** [rfind(':')] on a [std::string]. *)
Definition rfind_colon (s : list Z) : option nat :=
  match first_from (Z.eqb 58) (rev s) 0 with Some i => Some (length s - 1 - i)%nat | None => None end.
Definition get_hostname (a : socket_address) : option (list Z) :=
  match hostname_text a with
  | [] => get_ip_address a
  | h =>
      match rfind_colon h with
      | None | Some O => Some h
      | Some offset => match substr h 0 offset with [] => get_ip_address a | source_name => Some source_name end
      end
  end.
Definition get_ip_port (a : socket_address) : option Z :=
  if 0 <? info_port a then Some (info_port a)
  else match address_buffer a with in_4 _ port | in_6 _ port => Some port | _ => None end.
Definition get_ip_value (a : socket_address) : option uint128 :=
  match address_buffer a with
  | in_4 bytes _ => Some (uint128_of_int (swap_bytes 4 (le_val 256 bytes)))
  | in_6 bytes _ => Some (uint128_of_halves (swap_bytes 8 (le_val 256 (firstn 8 bytes))) (swap_bytes 8 (le_val 256 (skipn 8 bytes))))
  | _ => None
  end.

Definition get_address_identification (a : socket_address) : list Z :=
  match get_hostname a with Some h => h | None => [] end ++
  match get_ip_port a with Some port => 58 :: size_to_string port | None => [] end.
Definition get_ip_address_identification (a : socket_address) : list Z :=
  match get_ip_address a with Some h => h | None => [] end ++
  match get_ip_port a with Some port => 58 :: size_to_string port | None => [] end.
End System.

(** ** Masks *)

Record socket_cidr := mk_cidr { min_value : uint128; max_value : uint128; cidr_value : uint128; mask : Z }.
Definition is_matching (c : socket_cidr) (target_value : uint128) : bool :=
  uint128_eq target_value (cidr_value c) || (uint128_ge target_value (min_value c) && uint128_le target_value (max_value c)).

Inductive cidr_result := cidr_none | cidr_undefined | cidr_some (c : socket_cidr).

(** [blocks.size() < i + 1 ? 0 : from_string(blocks[i], base).or_else(0)]. *)
Definition block_number (width base : Z) (blocks : list (list Z)) (i : nat) : Z :=
  if (length blocks <? i + 1)%nat then 0
  else match from_string_uint width base (nth i blocks []) with Some v => v | None => 0 end.
Definition cidr6 (base_value : uint128) (range : Z) : socket_cidr :=
  let range_value := uint128_not (uint128_shl_int uint128_max (128 - range)) in
  let min_value := uint128_and base_value (uint128_shl_int uint128_max (128 - range)) in
  mk_cidr min_value (uint128_add min_value range_value) base_value range.
Definition cidr4 (base_value range : Z) : socket_cidr :=
  let high := u32 (Z.shiftl (2 ^ 32 - 1) (32 - range)) in
  let range_value := u32 (Z.lnot high) in
  let min_value := Z.land base_value high in
  let max_value := u32 (min_value + range_value) in
  mk_cidr (uint128_of_int min_value) (uint128_of_int max_value) (uint128_of_int base_value) range.
Definition parse_address_mask (mask_ : list Z) : cidr_result :=
  let is_ip_v4 := find_char mask_ 46 0 in
  let is_ip_v6 := find_char mask_ 58 0 in
  let is_mask := find_char mask_ 47 0 in
  if (match mask_ with [] => true | _ => false end) || negb (found is_mask) || (negb (found is_ip_v4) && negb (found is_ip_v6))
     || (found is_ip_v4 && found is_ip_v6) then cidr_none
  else
    match from_string_uint 8 10 (skipn (settle_end is_mask) mask_) with
    | None => cidr_none
    | Some range =>
        if (found is_ip_v4 && (32 <? range)) || (found is_ip_v6 && (128 <? range)) then cidr_none
        else
          let address := substr mask_ 0 (settle_start is_mask) in
          if found is_ip_v6 then
            match TextEdit.split address 58 0 with
            | None => cidr_none
            | Some blocks =>
                if (8 <? length blocks)%nat then cidr_none
                else
                  let part i := swap_bytes 2 (block_number 16 16 blocks i) in
                  let base_value_h := swap_bytes 8 (memory_of 2 (map part [0; 1; 2; 3]%nat)) in
                  let base_value_l := swap_bytes 8 (memory_of 2 (map part [4; 5; 6; 7]%nat)) in
                  cidr_some (cidr6 (uint128_of_halves base_value_h base_value_l) range)
            end
          else
            match TextEdit.split address 46 0 with
            | None => cidr_none
            | Some blocks =>
                if (4 <? length blocks)%nat then cidr_none
                else
                  let base_value := swap_bytes 4 (memory_of 1 (map (block_number 8 10 blocks) [0; 1; 2; 3]%nat)) in
                  if range =? 0 then cidr_undefined else cidr_some (cidr4 base_value range)
            end
    end.
