(* ===== verification/AddressFacts.v ===== *)
(** * Addresses and masks: what a mask matches, and which addresses share a pool *)
From S2P Require Import Prelude UInt128 Text TextEdit LocationFacts Multiplexer Uplinks UplinksSpec Address.
From stdpp Require Import gmap.
Open Scope Z_scope.

(** ** Texts of numbers *)

Definition base_numeral (base : Z) (s : list Z) : Prop := s <> [] /\ List.Forall (fun b => is_Some (base_digit base b)) s.
Lemma base_numeral_value base s rest : base_numeral base s -> match rest with b :: _ => base_digit base b = None | [] => True end ->
  forall acc, base_value base (s ++ rest) acc = base_value base s acc.
Proof.
  intros [_ F] R. induction F as [|b s [d Hd] _ IH]; intros acc; cbn.
  - destruct rest as [|b rest]; [reflexivity|]. cbn. now rewrite R.
  - rewrite Hd. apply IH.
Qed.
Lemma from_string_numeral width base s : base_numeral base s -> base_value base s 0 < 2 ^ width ->
  from_string_uint width base s = Some (base_value base s 0).
Proof.
  intros [N F] L. unfold from_string_uint. destruct s as [|b s]; [congruence|]. inversion_clear F as [|? ? [d Hd] _]. rewrite Hd.
  now rewrite (proj2 (Z.ltb_lt _ _)).
Qed.
Lemma base_digit_nonneg base b d : base_digit base b = Some d -> 0 <= base -> 0 <= d < base.
Proof.
  unfold base_digit, isdigit, islower, isupper. intros E Hb.
  destruct ((48 <=? b) && (b <=? 57)) eqn:E1; [|destruct ((97 <=? b) && (b <=? 122)) eqn:E2; [|destruct ((65 <=? b) && (b <=? 90)) eqn:E3]];
    (destruct (_ <? base) eqn:L in E; [|discriminate]); injection E as <-; bools; lia.
Qed.
Lemma base_value_nonneg base s : 0 <= base -> forall acc, 0 <= acc -> 0 <= base_value base s acc.
Proof.
  intros Hb. induction s as [|b s IH]; intros acc Ha; cbn; [exact Ha|]. destruct (base_digit base b) as [d|] eqn:E; [|exact Ha].
  apply IH. pose proof (base_digit_nonneg _ _ _ E Hb). nia.
Qed.
Lemma numeral_lacks base c s : base_numeral base s -> base_digit base c = None -> lacks c s.
Proof. intros [_ F] N. eapply List.Forall_impl; [|exact F]. cbn. intros b [d Hd] ->. congruence. Qed.

Lemma find_char_none s c : lacks c s -> found (find_char s c 0) = false.
Proof.
  intros L. unfold find_char. rewrite drop_0. enough (E : forall o, first_from (Z.eqb c) s o = None) by now rewrite E.
  induction L as [|b s N _ IH]; intros o; cbn; [reflexivity|]. rewrite (proj2 (Z.eqb_neq c b)) by congruence. apply IH.
Qed.
Lemma find_char_first s c rest : lacks c s -> find_char (s ++ c :: rest) c 0 = mk_settle (length s) (length s + 1) true.
Proof.
  intros L. unfold find_char. rewrite drop_0.
  assert (F : List.Forall (fun x => Z.eqb c x = false) s) by (eapply List.Forall_impl; [|exact L]; cbn; intros b Hb; apply Z.eqb_neq; congruence).
  now rewrite (HttpRoundtrip.first_from_app (Z.eqb c) s c rest 0 F (Z.eqb_refl c)).
Qed.

(** ** Bytes *)
Lemma swap_bytes_be n bytes : length bytes = n -> digits 256 bytes -> swap_bytes n (le_val 256 bytes) = be_val 256 bytes.
Proof. intros <- D. unfold swap_bytes. rewrite le_digits_le_val by (lia || exact D). now rewrite be_val_rev. Qed.
Lemma swap_bytes_digits n v : 0 <= v < 256 ^ Z.of_nat n -> le_digits n 256 (swap_bytes n v) = rev (le_digits n 256 v).
Proof.
  intros Hv. unfold swap_bytes. rewrite <- (length_le_digits n 256 v) at 1. rewrite <- length_rev.
  apply le_digits_le_val; [lia|]. apply digits_rev, digits_le_digits. lia.
Qed.
Lemma group_bytes g : 0 <= g < 2 ^ 16 -> be_val 256 (rev (le_digits 2 256 g)) = g.
Proof. intros Hg. rewrite be_val_rev, rev_involutive, le_val_le_digits by lia. apply Z.mod_small. exact Hg. Qed.
Lemma groups_be gs : List.Forall (fun g => 0 <= g < 2 ^ 16) gs ->
  be_val 256 (flat_map (fun g => rev (le_digits 2 256 g)) gs) = be_val (2 ^ 16) gs /\
  length (flat_map (fun g => rev (le_digits 2 256 g)) gs) = (2 * length gs)%nat.
Proof.
  induction 1 as [|g gs Hg _ [IH IL]]; [split; reflexivity|]. cbn [flat_map length]. split.
  - rewrite be_val_app, be_val_cons, IH, group_bytes, IL by exact Hg. f_equal. f_equal. rewrite Nat2Z.inj_mul, Z.pow_mul_r by lia. reflexivity.
  - rewrite length_app, IL, length_rev, length_le_digits. lia.
Qed.
Lemma groups_memory gs : List.Forall (fun g => 0 <= g < 2 ^ 16) gs -> length gs = 4%nat ->
  swap_bytes 8 (memory_of 2 (map (swap_bytes 2) gs)) = be_val (2 ^ 16) gs.
Proof.
  intros F L. destruct (groups_be gs F) as [E El]. rewrite <- E. unfold memory_of.
  assert (M : flat_map (le_digits 2 256) (map (swap_bytes 2) gs) = flat_map (fun g => rev (le_digits 2 256 g)) gs).
  { clear - F. induction F as [|g gs Hg _ IH]; [reflexivity|]. cbn [map flat_map]. now rewrite IH, swap_bytes_digits. }
  rewrite M. apply swap_bytes_be; [lia|]. clear. induction gs as [|g gs IH]; [constructor|].
  cbn [flat_map]. apply digits_app. split; [|exact IH]. apply digits_rev, digits_le_digits. lia.
Qed.
Lemma bytes_memory bs : digits 256 bs -> memory_of 1 bs = le_val 256 bs.
Proof.
  unfold memory_of. induction 1 as [|b bs Hb _ IH]; [reflexivity|]. cbn [flat_map]. rewrite le_val_app, IH. cbn [le_digits le_val length].
  rewrite Z.mod_small by exact Hb. change (256 ^ Z.of_nat 1) with 256. lia.
Qed.
(** ** Ranges *)

(** The values whose first bits are those of [base]. *)
Lemma prefix_range base v k : 0 <= k -> (base / 2 ^ k * 2 ^ k <= v <= base / 2 ^ k * 2 ^ k + (2 ^ k - 1) <-> v / 2 ^ k = base / 2 ^ k).
Proof.
  intros Hk. assert (P : 0 < 2 ^ k) by (apply Z.pow_pos_nonneg; lia). set (q := base / 2 ^ k). split.
  - intros H. symmetry. apply (Z.div_unique_pos _ _ _ (v - q * 2 ^ k)); lia.
  - intros <-. pose proof (Z.div_mod v (2 ^ k)). pose proof (Z.mod_pos_bound v (2 ^ k)). lia.
Qed.
Lemma high_bits w k : 0 <= k <= w -> ((2 ^ w - 1) * 2 ^ k) mod 2 ^ w = 2 ^ w - 2 ^ k.
Proof.
  intros Hk. assert (P : 0 < 2 ^ k) by (apply Z.pow_pos_nonneg; lia). assert (Q : 2 ^ k <= 2 ^ w) by (apply Z.pow_le_mono_r; lia).
  replace ((2 ^ w - 1) * 2 ^ k) with (2 ^ w - 2 ^ k + (2 ^ k - 1) * 2 ^ w) by ring. rewrite Z.mod_add by lia. apply Z.mod_small. lia.
Qed.
Lemma land_high w k base : 0 <= k <= w -> 0 <= base < 2 ^ w -> Z.land base (2 ^ w - 2 ^ k) = base / 2 ^ k * 2 ^ k.
Proof.
  intros Hk Hb. replace (2 ^ w - 2 ^ k) with (Z.shiftl (Z.ones (w - k)) k).
  - rewrite <- Z.shiftr_div_pow2, <- Z.shiftl_mul_pow2 by lia. apply Z.bits_inj'. intros i Hi. rewrite Z.land_spec, !Z.shiftl_spec by exact Hi.
    destruct (Z.ltb_spec i k) as [L|L].
    + rewrite !(Z.testbit_neg_r _ (i - k)) by lia. apply andb_false_r.
    + rewrite Z.shiftr_spec by lia. replace (i - k + k) with i by lia. destruct (Z.ltb_spec i w) as [L'|L'].
      * rewrite Z.ones_spec_low by lia. apply andb_true_r.
      * rewrite <- (Z.mod_small base (2 ^ w)) by exact Hb. rewrite Z.mod_pow2_bits_high by lia. reflexivity.
  - rewrite Z.shiftl_mul_pow2, Z.ones_equiv, <- Z.sub_1_r, Z.mul_sub_distr_r, Z.mul_1_l, <- Z.pow_add_r by lia. do 2 f_equal. lia.
Qed.

Lemma uint128_max_val : wf128 uint128_max /\ val128 uint128_max = 2 ^ 128 - 1.
Proof. split; [split; unfold fits; split; vm_compute; congruence|reflexivity]. Qed.
Lemma matching_val c v : wf128 v -> wf128 (cidr_value c) -> wf128 (min_value c) -> wf128 (max_value c) ->
  is_matching c v = (val128 v =? val128 (cidr_value c)) || ((val128 (min_value c) <=? val128 v) && (val128 v <=? val128 (max_value c))).
Proof. intros V B L H. unfold is_matching. now rewrite uint128_eq_val, uint128_ge_val, uint128_le_val. Qed.

(** A range that covers the values of one prefix. *)
Definition covers (c : socket_cidr) (base k : Z) : Prop :=
  wf128 (cidr_value c) /\ wf128 (min_value c) /\ wf128 (max_value c) /\ val128 (cidr_value c) = base /\
  val128 (min_value c) = base / 2 ^ k * 2 ^ k /\ val128 (max_value c) = base / 2 ^ k * 2 ^ k + (2 ^ k - 1).
Lemma covers_matching c base k v : covers c base k -> 0 <= k -> wf128 v -> (is_matching c v = true <-> val128 v / 2 ^ k = base / 2 ^ k).
Proof.
  intros (Wb & Wl & Wh & Eb & El & Eh) Hk V. rewrite matching_val by assumption. rewrite Eb, El, Eh.
  rewrite orb_true_iff, andb_true_iff, Z.eqb_eq, !Z.leb_le, (prefix_range base _ k Hk). split; [intros [->|H]; [reflexivity|exact H]|now right].
Qed.

Lemma cidr6_covers base range : wf128 base -> 0 <= range <= 128 -> covers (cidr6 base range) (val128 base) (128 - range).
Proof.
  intros W Hr. pose proof (val128_range base W) as Rb. destruct uint128_max_val as [Wm Vm].
  unfold cidr6, covers, uint128_shl_int. cbn [cidr_value min_value max_value].
  destruct (uint128_shl_spec uint128_max (uint128_of_int (128 - range)) Wm (uint128_of_int_wf _)) as [Wh Vh].
  rewrite Vm, uint128_of_nat_val, high_bits in Vh by lia.
  destruct (uint128_bitwise_spec base _ W Wh) as [[Wa Va] _]. rewrite Vh, land_high in Va by lia.
  destruct (uint128_not_spec _ Wh) as [Wn Vn]. destruct (uint128_add_spec _ _ Wa Wn) as [Ws Vs].
  rewrite Va, Vn, Vh in Vs. do 3 (split; [assumption|]). split; [reflexivity|]. split; [exact Va|]. rewrite Vs.
  assert (P : 0 < 2 ^ (128 - range)) by (apply Z.pow_pos_nonneg; lia).
  assert (Q : val128 base / 2 ^ (128 - range) * 2 ^ (128 - range) <= 2 ^ 128 - 2 ^ (128 - range)).
  { replace (2 ^ 128) with (2 ^ range * 2 ^ (128 - range)) in * by (rewrite <- Z.pow_add_r by lia; f_equal; lia).
    assert (val128 base / 2 ^ (128 - range) < 2 ^ range) by (apply Z.div_lt_upper_bound; lia). nia. }
  pose proof (Z.div_pos (val128 base) (2 ^ (128 - range))). rewrite Z.mod_small; nia.
Qed.
Lemma cidr4_covers base range : 0 <= base < 2 ^ 32 -> 0 < range <= 32 -> covers (cidr4 base range) base (32 - range).
Proof.
  intros Hb Hr. unfold cidr4, covers. cbn [cidr_value min_value max_value].
  assert (P : 0 < 2 ^ (32 - range)) by (apply Z.pow_pos_nonneg; lia).
  assert (Q : 2 ^ (32 - range) <= 2 ^ 32) by (apply Z.pow_le_mono_r; lia).
  assert (H : u32 (Z.shiftl (2 ^ 32 - 1) (32 - range)) = 2 ^ 32 - 2 ^ (32 - range)).
  { unfold wrapU. rewrite Z.shiftl_mul_pow2 by lia. apply high_bits. lia. }
  rewrite H, land_high by lia.
  assert (N : u32 (Z.lnot (2 ^ 32 - 2 ^ (32 - range))) = 2 ^ (32 - range) - 1).
  { unfold wrapU, Z.lnot. symmetry. apply (Z.mod_unique_pos _ _ (-1)); lia. }
  rewrite N. set (q := base / 2 ^ (32 - range)).
  assert (S : 0 <= q * 2 ^ (32 - range) <= 2 ^ 32 - 2 ^ (32 - range)).
  { subst q. pose proof (Z.div_pos base (2 ^ (32 - range))).
    replace (2 ^ 32) with (2 ^ range * 2 ^ (32 - range)) in * by (rewrite <- Z.pow_add_r by lia; f_equal; lia).
    assert (base / 2 ^ (32 - range) < 2 ^ range) by (apply Z.div_lt_upper_bound; lia). nia. }
  rewrite (wrapU_id 32) by (unfold fits; lia). do 3 (split; [apply uint128_of_int_wf|]).
  rewrite !uint128_of_nat_val by lia. now split.
Qed.

(** ** Masks in text *)

Definition value_of (base : Z) (s : list Z) : Z := base_value base s 0.
Definition mask_text (separator : Z) (blocks : list (list Z)) (range : list Z) : list Z := TextEdit.join separator blocks ++ 47 :: range.

Lemma block_value width base blocks i t : nth_error blocks i = Some t -> base_numeral base t -> value_of base t < 2 ^ width ->
  block_number width base blocks i = value_of base t.
Proof.
  intros N T L. unfold block_number. assert (I : (i < length blocks)%nat) by (apply nth_error_Some; congruence).
  rewrite (proj2 (Nat.ltb_ge _ _)) by lia. rewrite (nth_error_nth _ _ [] N). now rewrite from_string_numeral.
Qed.
Lemma blocks_map width base blocks : List.Forall (fun t => base_numeral base t /\ value_of base t < 2 ^ width) blocks ->
  map (block_number width base blocks) (seq 0 (length blocks)) = map (value_of base) blocks.
Proof.
  intros F. apply nth_error_ext. intros i. rewrite !nth_error_map.
  destruct (Nat.ltb_spec i (length blocks)) as [L|L].
  - rewrite nth_error_seq, (proj2 (Nat.ltb_lt _ _) L). cbn. destruct (nth_error blocks i) as [t|] eqn:E; [|apply nth_error_None in E; lia].
    cbn. f_equal. rewrite List.Forall_forall in F. destruct (F t (nth_error_In _ _ E)). now apply block_value.
  - rewrite nth_error_seq, (proj2 (Nat.ltb_ge _ _) L). apply nth_error_None in L. now rewrite L.
Qed.

Lemma mask_found separator blocks range base : List.Forall (base_numeral base) blocks -> (2 <= length blocks)%nat ->
  base_digit base 47 = None -> base_digit base 46 = None -> base_digit base 58 = None ->
  base_numeral 10 range -> separator = 46 \/ separator = 58 ->
  let s := mask_text separator blocks range in
  s <> [] /\ found (find_char s 46 0) = (separator =? 46) /\ found (find_char s 58 0) = (separator =? 58) /\
  find_char s 47 0 = mk_settle (length (TextEdit.join separator blocks)) (length (TextEdit.join separator blocks) + 1) true /\
  TextEdit.split (TextEdit.join separator blocks) separator 0 = Some blocks.
Proof.
  intros F L N47 N46 N58 R Sep s.
  assert (Lk : forall c, base_digit base c = None -> separator <> c -> lacks c (TextEdit.join separator blocks)).
  { intros c N Ns. apply lacks_join; [congruence|]. eapply List.Forall_impl; [|exact F]. cbn. intros t T. now apply numeral_lacks with base. }
  assert (Rk : forall c, base_digit 10 c = None -> c <> 47 -> lacks c (47 :: range)) by (intros c N Nc; apply lacks_cons; [congruence|now apply numeral_lacks with 10]).
  destruct blocks as [|t [|t' blocks]]; [cbn in L; lia..|]. inversion_clear F as [|? ? T F'].
  assert (First : base_digit base separator = None -> found (find_char s separator 0) = true).
  { intros N. unfold s, mask_text. change (TextEdit.join separator (t :: t' :: blocks)) with (t ++ separator :: TextEdit.join separator (t' :: blocks)).
    rewrite <- app_assoc. cbn [app]. now rewrite find_char_first by (now apply numeral_lacks with base). }
  split; [unfold s, mask_text; now destruct (TextEdit.join _ _)|].
  assert (Other : forall c, c = 46 \/ c = 58 -> separator <> c -> found (find_char s c 0) = false).
  { intros c Hc Ns. apply find_char_none. unfold s, mask_text.
    destruct Hc as [-> | ->]; (apply lacks_app; [now apply Lk|apply Rk; [reflexivity|discriminate]]). }
  split; [destruct Sep as [-> | ->]; [now apply First|apply Other; [now left|discriminate]]|].
  split; [destruct Sep as [-> | ->]; [apply Other; [now right|discriminate]|now apply First]|].
  split; [unfold s, mask_text; apply find_char_first, Lk; [exact N47|destruct Sep as [-> | ->]; discriminate]|].
  apply split_join; [|discriminate|].
  - constructor; [|eapply List.Forall_impl; [|exact F']; cbn; intros u U]; (eapply numeral_lacks; [eassumption|]; destruct Sep as [-> | ->]; assumption).
  - clear - F'. assert (N : (t' :: blocks) <> []) by discriminate. revert N F'. generalize (t' :: blocks). intros l N F'.
    destruct (exists_last N) as (l' & x & ->). change (t :: l' ++ [x]) with ((t :: l') ++ [x]). rewrite last_last.
    apply List.Forall_app in F' as [_ F']. now inversion_clear F' as [|? ? [X _] _].
Qed.

Lemma nonempty_mask (s : list Z) : s <> [] -> (match s with [] => true | _ => false end) = false.
Proof. now destruct s. Qed.

Lemma parse_mask4 blocks range : List.Forall (fun t => base_numeral 10 t /\ value_of 10 t < 2 ^ 8) blocks -> length blocks = 4%nat ->
  base_numeral 10 range -> 0 < value_of 10 range <= 32 ->
  parse_address_mask (mask_text 46 blocks range) = cidr_some (cidr4 (be_val 256 (map (value_of 10) blocks)) (value_of 10 range)).
Proof.
  intros F L R Hr. assert (F' : List.Forall (base_numeral 10) blocks) by (eapply List.Forall_impl; [|exact F]; now intros t []).
  destruct (mask_found 46 blocks range 10 F' ltac:(lia) eq_refl eq_refl eq_refl R (or_introl eq_refl)) as (Ne & F46 & F58 & F47 & Sp).
  unfold parse_address_mask. rewrite F46, F58, F47. cbn [found settle_start settle_end negb andb orb Z.eqb Pos.eqb].
  rewrite (nonempty_mask _ Ne). cbn [orb].
  replace (skipn (length (TextEdit.join 46 blocks) + 1) (mask_text 46 blocks range)) with range
    by (unfold mask_text; rewrite skipn_app, skipn_all2 by lia; now replace (_ + 1 - _)%nat with 1%nat by lia).
  rewrite from_string_numeral by (try assumption; unfold value_of in Hr; lia). fold (value_of 10 range).
  rewrite (proj2 (Z.ltb_ge 32 _)) by lia. cbn [orb].
  replace (substr (mask_text 46 blocks range) 0 (length (TextEdit.join 46 blocks))) with (TextEdit.join 46 blocks)
    by (unfold mask_text, substr; rewrite drop_0, ?Nat.sub_0_r, take_app_length; reflexivity).
  rewrite Sp, L. cbn [Nat.ltb Nat.leb]. rewrite (proj2 (Z.eqb_neq _ 0)) by lia.
  assert (M : map (block_number 8 10 blocks) [0; 1; 2; 3]%nat = map (value_of 10) blocks) by (change [0; 1; 2; 3]%nat with (seq 0 4); rewrite <- L; now apply blocks_map).
  rewrite M.
  assert (D : digits 256 (map (value_of 10) blocks)).
  { apply List.Forall_map. eapply List.Forall_impl; [|exact F]. cbn. intros t [_ T]. split; [now apply base_value_nonneg|exact T]. }
  rewrite bytes_memory by exact D. now rewrite swap_bytes_be by (rewrite ?length_map; assumption).
Qed.
Lemma parse_mask6 blocks range : List.Forall (fun t => base_numeral 16 t /\ value_of 16 t < 2 ^ 16) blocks -> length blocks = 8%nat ->
  base_numeral 10 range -> 0 <= value_of 10 range <= 128 ->
  exists base, wf128 base /\ val128 base = be_val (2 ^ 16) (map (value_of 16) blocks) /\
    parse_address_mask (mask_text 58 blocks range) = cidr_some (cidr6 base (value_of 10 range)).
Proof.
  intros F L R Hr. assert (F' : List.Forall (base_numeral 16) blocks) by (eapply List.Forall_impl; [|exact F]; now intros t []).
  destruct (mask_found 58 blocks range 16 F' ltac:(lia) eq_refl eq_refl eq_refl R (or_intror eq_refl)) as (Ne & F46 & F58 & F47 & Sp).
  set (gs := map (value_of 16) blocks).
  assert (D : List.Forall (fun g => 0 <= g < 2 ^ 16) gs).
  { apply List.Forall_map. eapply List.Forall_impl; [|exact F]. cbn. intros t [_ T]. split; [now apply base_value_nonneg|exact T]. }
  assert (Lg : length gs = 8%nat) by (unfold gs; now rewrite length_map).
  assert (Dh : List.Forall (fun g => 0 <= g < 2 ^ 16) (firstn 4 gs)) by now apply Forall_take.
  assert (Dl : List.Forall (fun g => 0 <= g < 2 ^ 16) (skipn 4 gs)) by now apply Forall_drop.
  pose proof (be_val_bound (2 ^ 16) (firstn 4 gs) ltac:(lia) Dh) as Bh. pose proof (be_val_bound (2 ^ 16) (skipn 4 gs) ltac:(lia) Dl) as Bl.
  rewrite length_firstn, Lg in Bh. rewrite length_skipn, Lg in Bl. change ((2 ^ 16) ^ Z.of_nat _) with (2 ^ 64) in Bh, Bl.
  exists (uint128_of_halves (be_val (2 ^ 16) (firstn 4 gs)) (be_val (2 ^ 16) (skipn 4 gs))). unfold uint128_of_halves.
  rewrite !wrapU_id by assumption. split; [now apply wf128_mk|]. split.
  - unfold val128. cbn [upper128 lower128]. rewrite <- (firstn_skipn 4 gs) at 3. rewrite be_val_app, length_skipn, Lg. reflexivity.
  - unfold parse_address_mask. rewrite F46, F58, F47. cbn [found settle_start settle_end negb andb orb Z.eqb Pos.eqb].
    rewrite (nonempty_mask _ Ne). cbn [orb].
    replace (skipn (length (TextEdit.join 58 blocks) + 1) (mask_text 58 blocks range)) with range
      by (unfold mask_text; rewrite skipn_app, skipn_all2 by lia; now replace (_ + 1 - _)%nat with 1%nat by lia).
    rewrite from_string_numeral by (try assumption; unfold value_of in Hr; lia). fold (value_of 10 range).
    rewrite (proj2 (Z.ltb_ge 128 _)) by lia.
    replace (substr (mask_text 58 blocks range) 0 (length (TextEdit.join 58 blocks))) with (TextEdit.join 58 blocks)
      by (unfold mask_text, substr; rewrite drop_0, ?Nat.sub_0_r, take_app_length; reflexivity).
    rewrite Sp, L. cbn [Nat.ltb Nat.leb].
    assert (M : map (block_number 16 16 blocks) (seq 0 8) = gs) by (rewrite <- L; now apply blocks_map).
    assert (Mh : map (fun i => swap_bytes 2 (block_number 16 16 blocks i)) [0; 1; 2; 3]%nat = map (swap_bytes 2) (firstn 4 gs)) by (rewrite <- M; reflexivity).
    assert (Ml : map (fun i => swap_bytes 2 (block_number 16 16 blocks i)) [4; 5; 6; 7]%nat = map (swap_bytes 2) (skipn 4 gs)) by (rewrite <- M; reflexivity).
    rewrite Mh, Ml, !groups_memory by (try assumption; rewrite ?length_firstn, ?length_skipn, Lg; reflexivity).
    unfold uint128_of_halves. now rewrite !wrapU_id by assumption.
Qed.

(** ** Theorems *)
Lemma value4 bytes h p port : length bytes = 4%nat -> digits 256 bytes ->
  exists v, get_ip_value (mk_address h p (in_4 bytes port)) = Some v /\ wf128 v /\ val128 v = be_val 256 bytes.
Proof.
  intros L D. pose proof (be_val_bound 256 bytes ltac:(lia) D) as B. rewrite L in B. eexists. split; [reflexivity|].
  split; [apply uint128_of_int_wf|]. rewrite swap_bytes_be by assumption. apply uint128_of_nat_val. change (256 ^ Z.of_nat 4) with (2 ^ 32) in B. lia.
Qed.
Lemma value6 bytes h p port : length bytes = 16%nat -> digits 256 bytes ->
  exists v, get_ip_value (mk_address h p (in_6 bytes port)) = Some v /\ wf128 v /\ val128 v = be_val 256 bytes.
Proof.
  intros L D. assert (Dh : digits 256 (firstn 8 bytes)) by now apply Forall_take. assert (Dl : digits 256 (skipn 8 bytes)) by now apply Forall_drop.
  assert (Lh : length (firstn 8 bytes) = 8%nat) by (rewrite length_firstn, L; reflexivity).
  assert (Ll : length (skipn 8 bytes) = 8%nat) by (rewrite length_skipn, L; reflexivity).
  pose proof (be_val_bound 256 _ ltac:(lia) Dh) as Bh. pose proof (be_val_bound 256 _ ltac:(lia) Dl) as Bl. rewrite Lh in Bh. rewrite Ll in Bl.
  eexists. split; [reflexivity|]. rewrite !swap_bytes_be by assumption. unfold uint128_of_halves. rewrite !wrapU_id by assumption.
  split; [now apply wf128_mk|]. unfold val128. cbn [upper128 lower128]. rewrite <- (firstn_skipn 8 bytes) at 3. rewrite be_val_app, Ll. reflexivity.
Qed.

(** (C31) A mask matches the addresses whose first bits are those of its address: four decimal numbers below 256 or eight hexadecimal ones
    below 65536, a slash and the length of the prefix are parsed - for IPv4 from length 1 on -, and an address of the same family matches
    exactly when it agrees with the one of the mask up to that length. *)
Theorem cidr_matches (blocks : list (list Z)) (range bytes : list Z) (host : list Z) (p port : Z) :
  base_numeral 10 range -> digits 256 bytes ->
  (List.Forall (fun t => base_numeral 10 t /\ value_of 10 t < 2 ^ 8) blocks -> length blocks = 4%nat -> length bytes = 4%nat ->
   0 < value_of 10 range <= 32 ->
   exists c v, parse_address_mask (mask_text 46 blocks range) = cidr_some c /\ get_ip_value (mk_address host p (in_4 bytes port)) = Some v /\
     (is_matching c v = true <->
      be_val 256 bytes / 2 ^ (32 - value_of 10 range) = be_val 256 (map (value_of 10) blocks) / 2 ^ (32 - value_of 10 range))) /\
  (List.Forall (fun t => base_numeral 16 t /\ value_of 16 t < 2 ^ 16) blocks -> length blocks = 8%nat -> length bytes = 16%nat ->
   0 <= value_of 10 range <= 128 ->
   exists c v, parse_address_mask (mask_text 58 blocks range) = cidr_some c /\ get_ip_value (mk_address host p (in_6 bytes port)) = Some v /\
     (is_matching c v = true <->
      be_val 256 bytes / 2 ^ (128 - value_of 10 range) = be_val (2 ^ 16) (map (value_of 16) blocks) / 2 ^ (128 - value_of 10 range))).
Proof.
  intros R D. split; intros F L Lb Hr.
  - destruct (value4 bytes host p port Lb D) as (v & Ev & Wv & Vv). do 2 eexists. split; [now apply parse_mask4|]. split; [exact Ev|].
    rewrite <- Vv. apply covers_matching; [apply cidr4_covers; [|exact Hr]|lia|exact Wv].
    assert (Db : digits 256 (map (value_of 10) blocks)).
    { apply List.Forall_map. eapply List.Forall_impl; [|exact F]. cbn. intros t [_ T]. split; [now apply base_value_nonneg|exact T]. }
    pose proof (be_val_bound 256 _ ltac:(lia) Db) as B. rewrite length_map, L in B. exact B.
  - destruct (value6 bytes host p port Lb D) as (v & Ev & Wv & Vv). destruct (parse_mask6 blocks range F L R Hr) as (base & Wb & Vb & E).
    do 2 eexists. split; [exact E|]. split; [exact Ev|]. rewrite <- Vv, <- Vb. apply covers_matching; [now apply cidr6_covers|lia|exact Wv].
Qed.
Lemma cidr_matches_witness : exists c v, parse_address_mask (mask_text 46 [chars "192"; chars "168"; chars "1"; chars "0"] (chars "24")) = cidr_some c /\
  get_ip_value (mk_address [] 0 (in_4 [192; 168; 1; 77] 0)) = Some v /\ (is_matching c v = true <-> 12625921 = 12625921).
Proof.
  apply (proj1 (cidr_matches [chars "192"; chars "168"; chars "1"; chars "0"] (chars "24") [192; 168; 1; 77] [] 0 0
    ltac:(split; [discriminate|repeat (constructor; [eexists; reflexivity|]); constructor]) ltac:(repeat constructor; lia))).
  - repeat (constructor; [split; [split; [discriminate|repeat (constructor; [eexists; reflexivity|]); constructor]|reflexivity]|]). constructor.
  - reflexivity.
  - reflexivity.
  - vm_compute. split; [reflexivity|discriminate].
Defined.

(** The hosts of IPv6 addresses lose what stands behind their last colon, so two addresses that differ there are one to the pools: a
    connection that is stored for one of them is given to a client of the other. *)
Theorem ipv6_pools_shared (getnameinfo : ip_bytes -> option (list Z)) (begin_ : gset pointer -> option pointer)
  (begin_spec : forall s : gset pointer, match begin_ s with Some p => p ∈ s | None => s = ∅ end)
  (prefix x y : list Z) (port : Z) (bx by_ : ip_bytes) (u : uplinks) (p : pointer) (c : callback)
  (Prefix : prefix <> []) (Lx : lacks 58 x) (Ly : lacks 58 y)
  (Port : 0 < port) (Max : 0 < max_duplicates u)
  (Fresh : connections u !! get_address_identification getnameinfo (mk_address (prefix ++ 58 :: x) port bx) = None) :
  let a := get_address_identification getnameinfo (mk_address (prefix ++ 58 :: x) port bx) in
  let b := get_address_identification getnameinfo (mk_address (prefix ++ 58 :: y) port by_) in
  a = b /\ told (fst (pop_connection_queued begin_ b c (fst (push_connection a (Some p) u)))) = told u ++ [(c, Some p)].
Proof.
  intros a b.
  assert (I : forall z bz, lacks 58 z -> get_address_identification getnameinfo (mk_address (prefix ++ 58 :: z) port bz) = prefix ++ 58 :: size_to_string port).
  { intros z bz L. unfold get_address_identification, get_hostname, get_ip_port. cbn [hostname_text info_port address_buffer].
    rewrite (proj2 (Z.ltb_lt _ _)) by exact Port. f_equal.
    assert (Rf : rfind_colon (prefix ++ 58 :: z) = Some (length prefix)).
    { unfold rfind_colon. rewrite rev_app_distr. cbn [rev]. rewrite <- app_assoc.
      change ([58] ++ rev prefix) with (58 :: rev prefix). rewrite (HttpRoundtrip.first_from_app (Z.eqb 58) (rev z) 58 (rev prefix) 0); [|apply List.Forall_rev; eapply List.Forall_impl; [|exact L]; cbv beta; intros q Hq; apply Z.eqb_neq; congruence|reflexivity].
      rewrite length_rev, length_app. cbn [length]. f_equal. lia. }
    destruct (prefix ++ 58 :: z) as [|q h] eqn:E; [now destruct prefix|]. rewrite <- E in *. clear E q h. rewrite Rf.
    destruct (length prefix) as [|n] eqn:Ln; [now destruct prefix|]. rewrite <- Ln.
    unfold substr. rewrite drop_0, ?Nat.sub_0_r, take_app_length. now destruct prefix. }
  assert (E : a = b) by (unfold a, b; now rewrite !I). split; [exact E|]. rewrite <- E. unfold push_connection. fold a in Fresh.
  rewrite (proj2 (Z.eqb_neq _ _)), Fresh by lia. cbn [fst]. unfold store_stream. rewrite UplinksFacts.listen_connection_eq.
  unfold pop_connection_queued. cbn [max_duplicates connections set_connections]. rewrite (proj2 (Z.eqb_neq _ _)) by lia.
  rewrite lookup_insert_eq. cbn [streams set_streams]. pose proof (begin_spec ({[p]} ∪ ∅)) as B. destruct (begin_ ({[p]} ∪ ∅)) as [q|]; [|set_solver].
  assert (q = p) as -> by set_solver. cbn [fst]. unfold tell_one. rewrite UplinksFacts.cancel_stream_eq. reflexivity.
Qed.
Lemma ipv6_pools_shared_witness :
  let a := get_address_identification (fun _ => None) (mk_address (chars "2001:db8::1") 80 (in_6 [] 80)) in
  let b := get_address_identification (fun _ => None) (mk_address (chars "2001:db8::2") 80 (in_6 [] 80)) in
  a = b /\ told (fst (pop_connection_queued first_stream b 1%positive (fst (push_connection a (Some 7%positive) new_uplinks)))) = [(1%positive, Some 7%positive)].
Proof.
  apply (ipv6_pools_shared (fun _ => None) first_stream first_stream_spec (chars "2001:db8:") (chars "1") (chars "2") 80 (in_6 [] 80) (in_6 [] 80) new_uplinks 7%positive 1%positive);
    [discriminate|repeat constructor; discriminate|repeat constructor; discriminate|reflexivity|reflexivity|reflexivity].
Defined.

(** A mask of length 0 shifts a 32-bit integer by 32; a double colon is not spread, so the range of ::1 does not hold the address; an
    IPv4 address in IPv6 notation is no mask. *)
Theorem cidr_defects :
  parse_address_mask (chars "10.0.0.0/0") = cidr_undefined /\
  (exists c, parse_address_mask (chars "::1/128") = cidr_some c /\ is_matching c (uint128_of_int 1) = false /\
     is_matching c (uint128_of_halves (2 ^ 16) 0) = true) /\
  parse_address_mask (chars "::ffff:1.2.3.4/96") = cidr_none.
Proof. split; [reflexivity|]. split; [|reflexivity]. eexists. split; [vm_compute; reflexivity|]. split; vm_compute; reflexivity. Qed.
