(* ===== verification/Multipart.v ===== *)
(** * Multipart bodies (network/http.cpp 2634-2857, 4480-4602; http.h 192-210, 654-721; core.cpp 9990-10000)

    [parser::multipart_parse] walks a piece of the body with a state machine and keeps its state for the next piece: the
    boundary, the bytes that may begin it ([look_behind]), the part at hand and the file its content goes to.  The files
    are in the state: the one that is open and the ones that were closed.  Random names, opening and writing are parameters. *)
From S2P Require Import Prelude Text TextEdit HttpMessage.
From stdpp Require Import list.
Open Scope Z_scope.

Inductive multipart_status :=
  | mp_uninitialized | mp_start | mp_start_boundary | mp_header_field_start | mp_header_field | mp_header_field_waiting
  | mp_header_value_start | mp_header_value | mp_header_value_waiting | mp_resource_start | mp_resource
  | mp_resource_boundary_waiting | mp_resource_boundary | mp_resource_waiting | mp_resource_end | mp_resource_hyphen | mp_end.
#[export] Instance multipart_status_eq_dec : EqDecision multipart_status.
Proof. solve_decision. Defined.

Record resource := mk_resource {
  resource_headers : kimv_unordered_map; resource_path : list Z; resource_type : list Z; resource_name : list Z;
  resource_key : list Z; resource_length : Z; is_in_memory : bool }.
Definition new_resource : resource := mk_resource [] [] [] [] [] 0 false.

Record multipart := mk_multipart {
  data : resource; has_callback : bool; temporary_directory : option (list Z); mp_stream : option (list Z);
  look_behind : list Z; boundary : option (list Z); mp_index : nat; max_resources : nat; skip : bool; finish : bool;
  mp_status : multipart_status;
  header : list Z; resources : option (list resource); announced : list resource; files : list (list Z * list Z); begun : nat }.

Definition with_data (d : resource) (m : multipart) : multipart :=
  mk_multipart d (has_callback m) (temporary_directory m) (mp_stream m) (look_behind m) (boundary m) (mp_index m) (max_resources m)
    (skip m) (finish m) (mp_status m) (header m) (resources m) (announced m) (files m) (begun m).
Definition with_stream (s : option (list Z)) (m : multipart) : multipart :=
  mk_multipart (data m) (has_callback m) (temporary_directory m) s (look_behind m) (boundary m) (mp_index m) (max_resources m)
    (skip m) (finish m) (mp_status m) (header m) (resources m) (announced m) (files m) (begun m).
Definition with_behind (b : list Z) (m : multipart) : multipart :=
  mk_multipart (data m) (has_callback m) (temporary_directory m) (mp_stream m) b (boundary m) (mp_index m) (max_resources m)
    (skip m) (finish m) (mp_status m) (header m) (resources m) (announced m) (files m) (begun m).
Definition with_boundary (b : option (list Z)) (m : multipart) : multipart :=
  mk_multipart (data m) (has_callback m) (temporary_directory m) (mp_stream m) (look_behind m) b (mp_index m) (max_resources m)
    (skip m) (finish m) (mp_status m) (header m) (resources m) (announced m) (files m) (begun m).
Definition with_mp_index (i : nat) (m : multipart) : multipart :=
  mk_multipart (data m) (has_callback m) (temporary_directory m) (mp_stream m) (look_behind m) (boundary m) i (max_resources m)
    (skip m) (finish m) (mp_status m) (header m) (resources m) (announced m) (files m) (begun m).
Definition with_finish (b : bool) (m : multipart) : multipart :=
  mk_multipart (data m) (has_callback m) (temporary_directory m) (mp_stream m) (look_behind m) (boundary m) (mp_index m) (max_resources m)
    (skip m) b (mp_status m) (header m) (resources m) (announced m) (files m) (begun m).
Definition with_status (s : multipart_status) (m : multipart) : multipart :=
  mk_multipart (data m) (has_callback m) (temporary_directory m) (mp_stream m) (look_behind m) (boundary m) (mp_index m) (max_resources m)
    (skip m) (finish m) s (header m) (resources m) (announced m) (files m) (begun m).
Definition with_message_header (h : list Z) (m : multipart) : multipart :=
  mk_multipart (data m) (has_callback m) (temporary_directory m) (mp_stream m) (look_behind m) (boundary m) (mp_index m) (max_resources m)
    (skip m) (finish m) (mp_status m) h (resources m) (announced m) (files m) (begun m).
Definition with_resources (r : list resource) (a : list resource) (m : multipart) : multipart :=
  mk_multipart (data m) (has_callback m) (temporary_directory m) (mp_stream m) (look_behind m) (boundary m) (mp_index m) (max_resources m)
    (skip m) (finish m) (mp_status m) (header m) (Some r) a (files m) (begun m).
Definition with_files (f : list (list Z * list Z)) (m : multipart) : multipart :=
  mk_multipart (data m) (has_callback m) (temporary_directory m) (mp_stream m) (look_behind m) (boundary m) (mp_index m) (max_resources m)
    (skip m) (finish m) (mp_status m) (header m) (resources m) (announced m) f (begun m).
Definition with_begun (n : nat) (m : multipart) : multipart :=
  mk_multipart (data m) (has_callback m) (temporary_directory m) (mp_stream m) (look_behind m) (boundary m) (mp_index m) (max_resources m)
    (skip m) (finish m) (mp_status m) (header m) (resources m) (announced m) (files m) n.

(** [prepare_for_multipart_parsing]. *)
Definition prepare_for_multipart_parsing (content : list resource) (temporary : option (list Z)) (max : nat) (skip_ : bool) (callback : bool)
  : multipart :=
  mk_multipart new_resource callback temporary None [] None 0 max skip_ false mp_start [] (Some content) [] [] 0.

Definition get_filename (path : list Z) : list Z :=
  match last_below (fun i => (nth i path 0 =? 47) || (nth i path 0 =? 92)) (length path) with
  | Some i => skipn (i + 1) path
  | None => path
  end.

(** ** What the parts are made of *)

(** The name of a resource and the text between the quotes behind it.  [find] of a text runs over the end of the view;
    a hit there is behind [value] and its closing quote is not found. *)
Definition quoted (value needle : list Z) : option (list Z) :=
  let start := find_text value needle 0 in
  if found start then
    let end_ := find_char value 34 (settle_end start) in
    if found end_ then Some (substr value (settle_end start) (settle_end end_ - settle_end start - 1)) else None
  else None.

Section Multipart.
(** The hash of sixteen random bytes for the n-th part, whether a file can be opened and whether what is written to it arrives. *)
Context (random_hash : nat -> option (list Z)) (can_open : list Z -> bool) (can_write : list Z -> list Z -> bool).

Definition parse_multipart_header_field (name : list Z) (m : multipart) : multipart * bool :=
  (match name with [] => m | _ => with_message_header name m end, true).
Definition set_key (k : list Z) (d : resource) : resource :=
  mk_resource (resource_headers d) (resource_path d) (resource_type d) (resource_name d) k (resource_length d) (is_in_memory d).
Definition set_name (n : list Z) (d : resource) : resource :=
  mk_resource (resource_headers d) (resource_path d) (resource_type d) n (resource_key d) (resource_length d) (is_in_memory d).
Definition set_type (t : list Z) (d : resource) : resource :=
  mk_resource (resource_headers d) (resource_path d) t (resource_name d) (resource_key d) (resource_length d) (is_in_memory d).
Definition set_headers (h : kimv_unordered_map) (d : resource) : resource :=
  mk_resource h (resource_path d) (resource_type d) (resource_name d) (resource_key d) (resource_length d) (is_in_memory d).
Definition set_resource_length (n : Z) (d : resource) : resource :=
  mk_resource (resource_headers d) (resource_path d) (resource_type d) (resource_name d) (resource_key d) n (is_in_memory d).
Definition value_into (header value : list Z) (d : resource) : resource :=
  let d :=
    if bool_decide (header = chars "Content-Disposition") then
      let d := match quoted value (chars "name=" ++ [34]) with Some k => set_key k d | None => d end in
      match quoted value (chars "filename=" ++ [34]) with Some name => set_name (get_filename name) d | None => d end
    else if bool_decide (header = chars "Content-Type") then set_type value d
    else d in
  set_headers (set_header (resource_headers d) (cstr header) value) d.
Definition parse_multipart_header_value (value : list Z) (m : multipart) : multipart * bool :=
  match value, header m with
  | [], _ | _, [] => (m, true)
  | _, h => if skip m then (m, true) else (with_message_header [] (with_data (value_into h value (data m)) m), true)
  end.
Definition parse_multipart_content_data (bytes : list Z) (m : multipart) : multipart * bool :=
  match bytes with
  | [] => (m, true)
  | _ =>
      match mp_stream m with
      | Some written =>
          if skip m then (m, false)
          else if can_write written bytes then
            (with_data (set_resource_length (u64 (resource_length (data m) + Z.of_nat (length bytes))) (data m)) (with_stream (Some (written ++ bytes)) m), true)
          else (m, false)
      | None => (m, false)
      end
  end.
Definition close_stream (m : multipart) : multipart :=
  match mp_stream m with
  | Some written => with_stream None (with_files (files m ++ [(resource_path (data m), written)]) m)
  | None => m
  end.
(** The path of a new part: it grows by the separator and the hash only where there is a temporary directory. *)
Definition new_path (n : nat) (directory : option (list Z)) (path : list Z) : list Z :=
  match directory with
  | None => path
  | Some d =>
      (if (List.last d 0 =? 47) || (List.last d 0 =? 92) then d else d ++ [47]) ++ match random_hash n with Some h => h | None => [] end
  end.
Definition parse_multipart_resource_begin (m : multipart) : multipart * bool :=
  match resources m with
  | None => (m, true)
  | Some rs =>
      if skip m then (m, true)
      else match mp_stream m with
      | Some _ => (close_stream m, false)
      | None =>
          if (max_resources m <=? length rs)%nat then (with_finish true m, false)
          else
            let path := new_path (begun m) (temporary_directory m) (resource_path (data m)) in
            let m := with_begun (S (begun m))
              (with_data (mk_resource [] path (chars "application/octet-stream") [] (resource_key (data m)) 0 false) (with_message_header [] m)) in
            if can_open path then (with_stream (Some []) m, true) else (m, false)
      end
  end.
Definition parse_multipart_resource_end (m : multipart) : multipart * bool :=
  match mp_stream m, resources m with
  | Some _, Some rs =>
      if skip m then (m, true)
      else
        let m := close_stream m in
        (with_resources (rs ++ [data m]) (if has_callback m then announced m ++ [data m] else announced m) m, true)
  | _, _ => (m, true)
  end.

(** ** The state machine *)

(** One pass of the loop over the byte at [i]: the next position and mark, what is returned, or an access outside of the boundary. *)
Inductive mp_outcome := mp_next (m : multipart) (i mark : nat) | mp_return (m : multipart) (i : Z) | mp_outside (m : multipart).
Definition then_next (r : multipart * bool) (s : multipart_status) (i mark : nat) : mp_outcome :=
  if snd r then mp_next (with_status s (fst r)) (S i) mark else mp_return (fst r) (Z.of_nat i).
(** [if (last && !parse(...)) return i; break;]. *)
Definition at_last (last : bool) (r : multipart * bool) (m : multipart) (i mark : nat) : mp_outcome :=
  if last then (if snd r then mp_next (fst r) (S i) mark else mp_return (fst r) (Z.of_nat i)) else mp_next m (S i) mark.
Definition mp_slice (buffer : list Z) (mark i : nat) : list Z := firstn (i - mark) (skipn mark buffer).

Definition start_boundary_case (m : multipart) (value : Z) (i mark : nat) : mp_outcome :=
  match boundary m with
  | None => mp_outside m
  | Some b =>
      if (mp_index m =? length b)%nat then
        if value =? 13 then mp_next (with_mp_index (S (mp_index m)) m) (S i) mark else mp_return m (Z.of_nat i)
      else if (mp_index m =? length b + 1)%nat then
        if value =? 10 then then_next (parse_multipart_resource_begin (with_mp_index 0 m)) mp_header_field_start i mark
        else mp_return m (Z.of_nat i)
      else
        match nth_error (b ++ [0]) (mp_index m) with
        | None => mp_outside m
        | Some c => if c =? value then mp_next (with_mp_index (S (mp_index m)) m) (S i) mark else mp_return m (Z.of_nat i)
        end
  end.
Definition header_field_case (m : multipart) (buffer : list Z) (value : Z) (last : bool) (i mark : nat) : mp_outcome :=
  if value =? 13 then mp_next (with_status mp_header_field_waiting m) (S i) mark
  else if value =? 58 then then_next (parse_multipart_header_field (mp_slice buffer mark i) m) mp_header_value_start i mark
  else
    let lower := tolower value in
    if negb (value =? 45) && ((lower <? 97) || (122 <? lower)) then mp_return m (Z.of_nat i)
    else at_last last (parse_multipart_header_field (mp_slice buffer mark (S i)) m) m i mark.
Definition header_value_case (m : multipart) (buffer : list Z) (value : Z) (last : bool) (i mark : nat) : mp_outcome :=
  if value =? 13 then then_next (parse_multipart_header_value (mp_slice buffer mark i) m) mp_header_value_waiting i mark
  else at_last last (parse_multipart_header_value (mp_slice buffer mark (S i)) m) m i mark.
Definition resource_case (m : multipart) (buffer : list Z) (value : Z) (last : bool) (i mark : nat) : mp_outcome :=
  if value =? 13 then
    let r := parse_multipart_content_data (mp_slice buffer mark i) m in
    if snd r then mp_next (with_behind (<[0%nat := 13]> (look_behind (fst r))) (with_status mp_resource_boundary_waiting (fst r))) (S i) i
    else mp_return (fst r) (Z.of_nat i)
  else at_last last (parse_multipart_content_data (mp_slice buffer mark (S i)) m) m i mark.
(** [mark = i--] and [++i] stay at the byte. *)
Definition again (r : multipart * bool) (i : nat) : mp_outcome :=
  if snd r then mp_next (with_status mp_resource (fst r)) i i else mp_return (fst r) (Z.of_nat i).
Definition boundary_waiting_case (m : multipart) (value : Z) (i mark : nat) : mp_outcome :=
  if value =? 10 then
    mp_next (with_mp_index 0 (with_behind (<[1%nat := 10]> (look_behind m)) (with_status mp_resource_boundary m))) (S i) mark
  else again (parse_multipart_content_data (firstn 1 (look_behind m)) m) i.
Definition boundary_case (m : multipart) (value : Z) (i mark : nat) : mp_outcome :=
  match boundary m with
  | None => mp_outside m
  | Some b =>
      match nth_error (b ++ [0]) (mp_index m) with
      | None => mp_outside m
      | Some c =>
          if c =? value then
            let m := with_mp_index (S (mp_index m)) (with_behind (<[(2 + mp_index m)%nat := u8 value]> (look_behind m)) m) in
            if (mp_index m =? length b)%nat then then_next (parse_multipart_resource_end m) mp_resource_waiting i mark
            else mp_next m (S i) mark
          else again (parse_multipart_content_data (firstn (2 + mp_index m) (look_behind m)) m) i
      end
  end.

Definition multipart_step (m : multipart) (buffer : list Z) (i mark : nat) : mp_outcome :=
  let value := i8 (nth i buffer 0) in
  let last := (i =? length buffer - 1)%nat in
  match mp_status m with
  | mp_start => start_boundary_case (with_status mp_start_boundary (with_mp_index 0 m)) value i mark
  | mp_start_boundary => start_boundary_case m value i mark
  | mp_header_field_start => header_field_case (with_status mp_header_field m) buffer value last i i
  | mp_header_field => header_field_case m buffer value last i mark
  | mp_header_field_waiting =>
      if value =? 10 then mp_next (with_status mp_resource_start m) (S i) mark else mp_return m (Z.of_nat i)
  | mp_header_value_start =>
      if value =? 32 then mp_next m (S i) mark else header_value_case (with_status mp_header_value m) buffer value last i i
  | mp_header_value => header_value_case m buffer value last i mark
  | mp_header_value_waiting =>
      if value =? 10 then mp_next (with_status mp_header_field_start m) (S i) mark else mp_return m (Z.of_nat i)
  | mp_resource_start => resource_case (with_status mp_resource m) buffer value last i i
  | mp_resource => resource_case m buffer value last i mark
  | mp_resource_boundary_waiting => boundary_waiting_case m value i mark
  | mp_resource_boundary => boundary_case m value i mark
  | mp_resource_waiting =>
      if value =? 45 then mp_next (with_status mp_resource_hyphen m) (S i) mark
      else if value =? 13 then mp_next (with_status mp_resource_end m) (S i) mark
      else mp_return m (Z.of_nat i)
  | mp_resource_hyphen => if value =? 45 then mp_next (with_status mp_end m) (S i) mark else mp_return m (Z.of_nat i)
  | mp_resource_end =>
      if value =? 10 then then_next (parse_multipart_resource_begin (with_status mp_header_field_start m)) mp_header_field_start i mark
      else mp_return m (Z.of_nat i)
  | mp_end => mp_next m (S i) mark
  | mp_uninitialized => mp_return m (-1)
  end.

Inductive mp_result := mp_done (m : multipart) (r : Z) | mp_overrun | mp_no_fuel.
Fixpoint multipart_loop (fuel : nat) (m : multipart) (buffer : list Z) (i mark : nat) : mp_result :=
  if (length buffer <=? i)%nat then mp_done m (Z.of_nat (length buffer))
  else
    match fuel with
    | O => mp_no_fuel
    | S f =>
        match multipart_step m buffer i mark with
        | mp_next m i mark => multipart_loop f m buffer i mark
        | mp_return m r => mp_done m r
        | mp_outside _ => mp_overrun
        end
    end.
(** The memory behind the boundary and its zero is [look_behind]: as many bytes as the boundary has, and eight. *)
Definition begin_boundary (b : list Z) (m : multipart) : multipart :=
  match boundary m with
  | Some _ => m
  | None => with_mp_index 0 (with_status mp_start (with_behind (repeat 0 (length b + 8)) (with_boundary (Some b) m)))
  end.
Definition multipart_parse (b : list Z) (buffer : list Z) (m : multipart) : mp_result :=
  multipart_loop (2 * length buffer) (begin_boundary b m) buffer 0 0.
End Multipart.
