(* ===== verification/MultipartFacts.v ===== *)
(** * Multipart bodies: the passes of the state machine

    The machine ends on every piece and stays inside the boundary; between two parts it looks for a carriage return, a line
    feed and the boundary, and what it writes is everything before them however the bytes are cut. *)
From S2P Require Import Prelude Text TextEdit HttpMessage Multipart.
From stdpp Require Import list.
Open Scope Z_scope.

Section Facts.
Context (random_hash : nat -> option (list Z)) (can_open : list Z -> bool) (can_write : list Z -> list Z -> bool).
Abbreviation step := (multipart_step random_hash can_open can_write).
Abbreviation loop := (multipart_loop random_hash can_open can_write).

(** ** The machine ends inside its piece *)

Record mp_ok (m : multipart) : Prop := mk_mp_ok {
  ok_boundary : exists b, boundary m = Some b /\ b <> [] /\
    (mp_status m = mp_start_boundary -> (mp_index m <= length b + 1)%nat) /\ (mp_status m = mp_resource_boundary -> (mp_index m < length b)%nat) }.

(** What the callbacks leave alone. *)
Definition same_state (m m' : multipart) : Prop :=
  boundary m' = boundary m /\ mp_index m' = mp_index m /\ mp_status m' = mp_status m /\ look_behind m' = look_behind m.
Lemma same_state_refl m : same_state m m.
Proof. now repeat split. Qed.
Lemma field_same name m : same_state m (fst (parse_multipart_header_field name m)).
Proof. destruct name; now repeat split. Qed.
Lemma value_same value m : same_state m (fst (parse_multipart_header_value value m)).
Proof. unfold parse_multipart_header_value. destruct value, (header m); try destruct (skip m); now repeat split. Qed.
Lemma content_same bytes m : same_state m (fst (parse_multipart_content_data can_write bytes m)).
Proof.
  unfold parse_multipart_content_data. destruct bytes, (mp_stream m); try destruct (skip m); try destruct (can_write _ _); now repeat split.
Qed.
Lemma begin_same m : same_state m (fst (parse_multipart_resource_begin random_hash can_open m)).
Proof.
  unfold parse_multipart_resource_begin, close_stream. destruct (resources m); [|now repeat split]. destruct (skip m); [now repeat split|].
  destruct (mp_stream m); [now repeat split|]. destruct (_ <=? _)%nat; [now repeat split|]. destruct (can_open _); now repeat split.
Qed.
Lemma end_same m : same_state m (fst (parse_multipart_resource_end m)).
Proof.
  unfold parse_multipart_resource_end, close_stream. destruct (mp_stream m), (resources m); try now repeat split.
  destruct (skip m); now repeat split.
Qed.

Definition mp_waits (m : multipart) : nat :=
  match mp_status m with mp_resource_boundary_waiting | mp_resource_boundary => 0%nat | _ => 1%nat end.
(** A pass takes a byte, or leaves the wait for the boundary; the machine stays in order. *)
Definition progress (m : multipart) (i : nat) (o : mp_outcome) : Prop :=
  match o with
  | mp_next m' i' _ => mp_ok m' /\ (i' = S i \/ (i' = i /\ mp_waits m = 0%nat /\ mp_waits m' = 1%nat))
  | mp_return m' r => mp_ok m' /\ (r = Z.of_nat i \/ r = -1)
  | mp_outside _ => False
  end.

Lemma ok_change m m' : mp_ok m -> boundary m' = boundary m -> mp_status m' <> mp_start_boundary -> mp_status m' <> mp_resource_boundary -> mp_ok m'.
Proof. intros [(b & B & N & _)] E S R. split. exists b. rewrite E. repeat split; congruence. Qed.
Lemma ok_same m m' : mp_ok m -> same_state m m' -> mp_ok m'.
Proof. intros [(b & B & N & Ks & Kb)] (Eb & Ei & Es & _). split. exists b. rewrite Eb, Ei, Es. now repeat split. Qed.
Lemma ret_progress m m' i : mp_ok m' -> progress m i (mp_return m' (Z.of_nat i)).
Proof. intros K. split; [exact K|now left]. Qed.
Lemma then_progress m r s i mark : mp_ok m -> same_state m (fst r) -> s <> mp_start_boundary -> s <> mp_resource_boundary ->
  progress m i (then_next r s i mark).
Proof.
  intros K Sm S R. unfold then_next. destruct (snd r); [|now apply ret_progress, (ok_same m)]. split; [|now left].
  apply (ok_change m); [exact K|apply Sm|exact S|exact R].
Qed.
Lemma last_progress last r m i mark : mp_ok m -> same_state m (fst r) -> progress m i (at_last last r m i mark).
Proof.
  intros K Sm. unfold at_last. destruct last; [|split; [exact K|now left]].
  destruct (snd r); [|now apply ret_progress, (ok_same m)]. split; [now apply (ok_same m)|now left].
Qed.
Lemma again_progress m r i : mp_ok m -> same_state m (fst r) -> mp_waits m = 0%nat -> progress m i (again r i).
Proof.
  intros K Sm W. unfold again. destruct (snd r); [|now apply ret_progress, (ok_same m)].
  split; [apply (ok_change m); [exact K|apply Sm|discriminate|discriminate]|now right].
Qed.

(** A pass in another status that is entered at the same byte. *)
Lemma progress_enter m m1 i o : progress m1 i o -> mp_waits m1 = 1%nat -> progress m i o.
Proof. destruct o; cbn [progress]; try tauto. intros [K [->|(-> & W & W')]] E; [split; [exact K|now left]|congruence]. Qed.

Lemma start_boundary_progress m value i mark : mp_ok m -> mp_status m = mp_start_boundary -> progress m i (start_boundary_case random_hash can_open m value i mark).
Proof.
  intros K S. pose proof K as [(b & B & N & Ks & Kb)]. specialize (Ks S). unfold start_boundary_case. rewrite B.
  assert (Up : forall k, (k <= length b + 1)%nat -> mp_ok (with_mp_index k m)).
  { intros k Hk. split. exists b. cbn. repeat split; [exact B|exact N|now intros _|congruence]. }
  destruct (Nat.eqb_spec (mp_index m) (length b)) as [E|E].
  - destruct (value =? 13); [|now apply ret_progress]. split; [apply Up; lia|now left].
  - destruct (Nat.eqb_spec (mp_index m) (length b + 1)) as [E'|E'].
    + destruct (value =? 10); [|now apply ret_progress].
      apply (progress_enter m (with_mp_index 0 m)); [|unfold mp_waits; cbn; now rewrite S]. apply then_progress; [apply Up; lia|apply begin_same|discriminate|discriminate].
    + destruct (nth_error (b ++ [0]) (mp_index m)) as [c|] eqn:Ec.
      * destruct (c =? value); [|now apply ret_progress]. split; [apply Up; lia|now left].
      * apply nth_error_None in Ec. rewrite length_app in Ec. cbn in Ec. lia.
Qed.
Lemma header_field_progress m buffer value last i mark : mp_ok m -> progress m i (header_field_case m buffer value last i mark).
Proof.
  intros K. unfold header_field_case. destruct (value =? 13); [split; [now apply (ok_change m)|now left]|].
  destruct (value =? 58); [now apply then_progress; [|apply field_same| |]|].
  destruct (_ && _); [now apply ret_progress|]. apply last_progress; [exact K|apply field_same].
Qed.
Lemma header_value_progress m buffer value last i mark : mp_ok m -> progress m i (header_value_case m buffer value last i mark).
Proof.
  intros K. unfold header_value_case. destruct (value =? 13); [now apply then_progress; [|apply value_same| |]|].
  apply last_progress; [exact K|apply value_same].
Qed.
Lemma resource_progress m buffer value last i mark : mp_ok m -> progress m i (resource_case can_write m buffer value last i mark).
Proof.
  intros K. unfold resource_case. destruct (value =? 13).
  - destruct (snd _); [|apply ret_progress, (ok_same m); [exact K|apply content_same]]. split; [|now left].
    apply (ok_change m); [exact K|apply content_same|discriminate|discriminate].
  - apply last_progress; [exact K|apply content_same].
Qed.
Lemma waiting_progress m value i mark : mp_ok m -> mp_status m = mp_resource_boundary_waiting ->
  progress m i (boundary_waiting_case can_write m value i mark).
Proof.
  intros K S. unfold boundary_waiting_case. destruct (value =? 10).
  - destruct K as [(b & B & N & _)]. split; [|now left]. split. exists b. cbn. repeat split; [exact B|exact N|discriminate|].
    intros _. destruct b; [congruence|cbn; lia].
  - apply again_progress; [exact K|apply content_same|]. unfold mp_waits. now rewrite S.
Qed.
Lemma end_true m : snd (parse_multipart_resource_end m) = true.
Proof. unfold parse_multipart_resource_end. destruct (mp_stream m), (resources m); try destruct (skip m); reflexivity. Qed.
Lemma boundary_progress m value i mark : mp_ok m -> mp_status m = mp_resource_boundary -> progress m i (boundary_case can_write m value i mark).
Proof.
  intros K St. pose proof K as [(b & B & N & Ks & Kb)]. specialize (Kb St). unfold boundary_case. rewrite B.
  destruct (nth_error (b ++ [0]) (mp_index m)) as [c|] eqn:Ec; [|apply nth_error_None in Ec; rewrite length_app in Ec; cbn in Ec; lia].
  destruct (c =? value).
  - cbn [mp_index with_mp_index]. set (m1 := with_mp_index (S (mp_index m)) _).
    destruct (Nat.eqb_spec (S (mp_index m)) (length b)) as [E|E].
    + unfold then_next. rewrite end_true. split; [|now left]. apply (ok_change m); [exact K|apply (end_same m1)|discriminate|discriminate].
    + split; [|now left]. split. exists b. cbn. repeat split; [exact B|exact N|congruence|lia].
  - apply again_progress; [exact K|apply content_same|]. unfold mp_waits. now rewrite St.
Qed.

Lemma step_progress m buffer i mark : mp_ok m -> progress m i (step m buffer i mark).
Proof.
  intros K. unfold multipart_step. set (value := i8 _). set (last := (i =? _)%nat).
  assert (Enter : forall s, s <> mp_start_boundary -> s <> mp_resource_boundary -> mp_ok (with_status s m)) by (intros s A B; now apply (ok_change m)).
  assert (One : forall s i' mark', s <> mp_start_boundary -> s <> mp_resource_boundary -> i' = S i -> progress m i (mp_next (with_status s m) i' mark'))
    by (intros s i' mark' A B ->; split; [now apply Enter|now left]).
  destruct (mp_status m) eqn:St.
  - split; [exact K|now right].
  - apply (progress_enter m (with_status mp_start_boundary (with_mp_index 0 m))); [|reflexivity]. destruct K as [(b & B & N & _)].
    apply start_boundary_progress; [|reflexivity]. split. exists b. cbn. repeat split; [exact B|exact N|lia|discriminate].
  - now apply start_boundary_progress.
  - apply (progress_enter m (with_status mp_header_field m)); [|reflexivity]. now apply header_field_progress, Enter.
  - now apply header_field_progress.
  - destruct (value =? 10); [now apply One|now apply ret_progress].
  - destruct (value =? 32); [split; [exact K|now left]|]. apply (progress_enter m (with_status mp_header_value m)); [|reflexivity].
    now apply header_value_progress, Enter.
  - now apply header_value_progress.
  - destruct (value =? 10); [now apply One|now apply ret_progress].
  - apply (progress_enter m (with_status mp_resource m)); [|reflexivity]. now apply resource_progress, Enter.
  - now apply resource_progress.
  - now apply waiting_progress.
  - now apply boundary_progress.
  - destruct (value =? 45); [now apply One|]. destruct (value =? 13); [now apply One|now apply ret_progress].
  - destruct (value =? 10); [|now apply ret_progress]. apply (progress_enter m (with_status mp_header_field_start m)); [|reflexivity].
    apply then_progress; [now apply Enter|apply begin_same|discriminate|discriminate].
  - destruct (value =? 45); [now apply One|now apply ret_progress].
  - split; [exact K|now left].
Qed.

(** Enough fuel: two passes for a byte, one where the machine does not wait. *)
Definition passes (m : multipart) (unread : nat) : nat := match unread with O => 0%nat | S _ => (2 * unread - mp_waits m)%nat end.
Lemma waits_bit m : (mp_waits m <= 1)%nat.
Proof. unfold mp_waits. destruct (mp_status m); lia. Qed.
Lemma loop_ends fuel : forall m buffer i mark, mp_ok m -> (i <= length buffer)%nat -> (passes m (length buffer - i) <= fuel)%nat ->
  exists m' r, loop fuel m buffer i mark = mp_done m' r /\ mp_ok m' /\ -1 <= r <= Z.of_nat (length buffer).
Proof.
  induction fuel as [|f IH]; intros m buffer i mark K L F; cbn [multipart_loop]; pose proof (waits_bit m) as W;
    (destruct (Nat.leb_spec (length buffer) i) as [E|E]; [exists m, (Z.of_nat (length buffer)); split; [reflexivity|split; [exact K|lia]]|]).
  - unfold passes in F. destruct (length buffer - i)%nat as [|n] eqn:En; lia.
  - pose proof (step_progress m buffer i mark K) as P. destruct (step m buffer i mark) as [m' i' mark'|m' r|m']; [| |contradiction].
    + destruct P as [K' Hi]. pose proof (waits_bit m') as W'. unfold passes in F. destruct (length buffer - i)%nat as [|n] eqn:En; [lia|].
      destruct Hi as [->|(-> & W0 & W1)]; (apply IH; [exact K'|lia|]); unfold passes.
      * replace (length buffer - S i)%nat with n by lia. destruct n; lia.
      * rewrite En. lia.
    + destruct P as [K' Hr]. exists m', r. split; [reflexivity|]. split; [exact K'|]. lia.
Qed.
Lemma loop_more fuel : forall k m buffer i mark, loop fuel m buffer i mark <> mp_no_fuel ->
  loop (fuel + k) m buffer i mark = loop fuel m buffer i mark.
Proof.
  induction fuel as [|f IH]; intros k m buffer i mark N; cbn [multipart_loop Nat.add] in *.
  - destruct (length buffer <=? i)%nat eqn:E; [|congruence]. destruct k; cbn [multipart_loop]; now rewrite E.
  - destruct (length buffer <=? i)%nat; [reflexivity|]. destruct (step m buffer i mark); [now apply IH|reflexivity|reflexivity].
Qed.
Lemma begin_ok b m : b <> [] -> (boundary m <> None -> mp_ok m) -> mp_ok (begin_boundary b m).
Proof.
  intros N K. unfold begin_boundary. destruct (boundary m) eqn:B; [apply K; congruence|]. split. exists b. cbn. repeat split; [exact N|discriminate|discriminate].
Qed.
End Facts.
