(* ===== verification/MultipartContent.v ===== *)
(** * Multipart bodies: the content of a part

    [delimiter_scan] is the byte-at-a-time search for the delimiter, a line end and the boundary: what comes out and how much of the
    delimiter is matched, or the bytes behind it.  The loop of the machine does what [delimiter_scan] does, whatever it has in hand, and
    [delimiter_scan] finds the first delimiter, since the boundary has no carriage return. *)
From S2P Require Import Prelude Text TextEdit HttpMessage Multipart MultipartFacts.
From stdpp Require Import list.
Open Scope Z_scope.

Definition delimiter (b : list Z) : list Z := 13 :: 10 :: b.
Fixpoint delimiter_scan (b : list Z) (k : nat) (t : list Z) : list Z * (nat + list Z) :=
  match t with
  | [] => ([], inl k)
  | v :: t =>
      if bool_decide (nth_error (delimiter b) k = Some v) then
        if (S k =? length (delimiter b))%nat then ([], inr t) else delimiter_scan b (S k) t
      else
        let '(out, r) := delimiter_scan b (if v =? 13 then 1 else 0) t in
        (firstn k (delimiter b) ++ (if v =? 13 then [] else [v]) ++ out, r)
  end.
(** A boundary of visible characters. *)
Definition boundary_ok (b : list Z) : Prop := b <> [] /\ List.Forall (fun c => 0 <= c < 128 /\ c <> 13) b.

(** ** What [delimiter_scan] finds *)
Lemma scan_again b k v t : nth_error (delimiter b) k <> Some v -> delimiter_scan b k (v :: t) =
  let '(out, r) := delimiter_scan b 0 (v :: t) in (firstn k (delimiter b) ++ out, r).
Proof.
  intros N. cbn [delimiter_scan]. rewrite bool_decide_eq_false_2 by exact N. cbn [nth_error delimiter].
  destruct (Z.eqb_spec v 13) as [->|V].
  - rewrite bool_decide_eq_true_2 by reflexivity. cbn [length Nat.eqb]. destruct (delimiter_scan b 1 t) as [out r]. reflexivity.
  - rewrite bool_decide_eq_false_2 by congruence. destruct (delimiter_scan b 0 t) as [out r]. reflexivity.
Qed.
Lemma delimiter_tail b k : boundary_ok b -> nth_error (delimiter b) (S k) <> Some 13.
Proof.
  intros [_ F] E. cbn in E. destruct k as [|k]; [discriminate|]. cbn in E. apply nth_error_In in E. rewrite List.Forall_forall in F. now destruct (F _ E).
Qed.
Lemma firstn_next {A} (l : list A) k v : nth_error l k = Some v -> firstn (S k) l = firstn k l ++ [v].
Proof.
  revert l. induction k as [|k IH]; intros [|a l] E; try discriminate; cbn in *; [now injection E as ->|]. f_equal. now apply IH.
Qed.

(** Where the delimiter begins in a text that was matched up to [k], [delimiter_scan] stops there or before. *)
Lemma scan_finds b t : boundary_ok b -> forall k p s, (k < length (delimiter b))%nat -> firstn k (delimiter b) ++ t = p ++ delimiter b ++ s ->
  exists out rest, delimiter_scan b k t = (out, inr rest) /\ firstn k (delimiter b) ++ t = out ++ delimiter b ++ rest /\ (length out <= length p)%nat.
Proof.
  intros Ok. induction t as [|v t IH]; intros k p s K E.
  - apply (f_equal (@length Z)) in E. rewrite app_nil_r, !length_app, length_firstn in E. lia.
  - cbn [delimiter_scan]. destruct (decide (nth_error (delimiter b) k = Some v)) as [M|M].
    + rewrite bool_decide_eq_true_2 by exact M. pose proof (firstn_next _ _ _ M) as F.
      assert (E' : firstn k (delimiter b) ++ v :: t = firstn (S k) (delimiter b) ++ t) by (rewrite F, <- app_assoc; reflexivity).
      destruct (Nat.eqb_spec (S k) (length (delimiter b))) as [L|L].
      * exists [], t. split; [reflexivity|]. split; [|cbn; lia]. rewrite E', L, firstn_all. reflexivity.
      * rewrite E' in E |- *. apply (IH (S k) p s); [lia|exact E].
    + rewrite bool_decide_eq_false_2 by exact M. set (k' := if v =? 13 then 1%nat else 0%nat).
      assert (Lk : (length p >= k)%nat).
      { destruct (Nat.ltb_spec (length p) k) as [L|L]; [|lia]. exfalso. destruct p as [|a p].
        - cbn [app] in E. apply M. assert (N : nth_error (firstn k (delimiter b) ++ v :: t) k = Some v).
          { rewrite nth_error_app2 by (rewrite length_firstn; lia). rewrite length_firstn, Nat.min_l, Nat.sub_diag by lia. reflexivity. }
          rewrite E in N. rewrite nth_error_app1 in N by lia. exact N.
        - assert (N : nth_error (firstn k (delimiter b) ++ v :: t) (length (a :: p)) = Some 13).
          { rewrite E, nth_error_app2, Nat.sub_diag by lia. reflexivity. }
          rewrite nth_error_app1 in N by (rewrite length_firstn; lia). rewrite nth_error_firstn in N. destruct (_ <? _)%nat eqn:Lt in N; [|discriminate].
          exact (delimiter_tail b (length p) Ok N). }
      assert (P : exists p', p = firstn k (delimiter b) ++ p' /\ v :: t = p' ++ delimiter b ++ s).
      { exists (skipn k p). assert (Fk : firstn k p = firstn k (delimiter b)).
        { apply (f_equal (firstn k)) in E. rewrite !firstn_app, length_firstn, Nat.min_l, Nat.sub_diag in E by lia. cbn [firstn] in E.
          rewrite app_nil_r, firstn_firstn, Nat.min_id in E. replace (k - length p)%nat with 0%nat in E by lia. cbn [firstn] in E. now rewrite app_nil_r in E. }
        assert (Ep : p = firstn k (delimiter b) ++ skipn k p) by (rewrite <- Fk; symmetry; apply firstn_skipn).
        split; [exact Ep|]. rewrite Ep, <- app_assoc in E. now apply app_inv_head in E. }
      destruct P as (p' & -> & E2). clear E Lk.
      assert (Q : exists p2, firstn k' (delimiter b) ++ t = p2 ++ delimiter b ++ s /\ p' = (if v =? 13 then [] else [v]) ++ p2).
      { subst k'. destruct (Z.eqb_spec v 13) as [->|V].
        - exists p'. split; [exact E2|reflexivity].
        - destruct p' as [|a p']; [cbn in E2; congruence|]. cbn in E2. injection E2 as -> E2. exists p'. split; [exact E2|reflexivity]. }
      destruct Q as (p2 & E3 & Ep). destruct (IH k' p2 s) as (out & rest & Es & Et & Lo); [subst k'; destruct (v =? 13); cbn; lia|exact E3|].
      fold k'. rewrite Es. do 2 eexists. split; [reflexivity|]. split.
      * subst k'. destruct (Z.eqb_spec v 13) as [->|V]; cbn [app] in Et |- *; rewrite <- !app_assoc; f_equal.
        -- exact Et.
        -- cbn [app]. f_equal. exact Et.
      * rewrite !length_app. subst p'. rewrite !length_app. lia.
Qed.

(** Content that the delimiter does not begin in is taken as it is. *)
Lemma scan_content b content rest : boundary_ok b ->
  (forall p s, content ++ delimiter b = p ++ delimiter b ++ s -> s = []) ->
  delimiter_scan b 0 (content ++ delimiter b ++ rest) = (content, inr rest).
Proof.
  intros Ok Only. destruct (scan_finds b (content ++ delimiter b ++ rest) Ok 0 content rest) as (out & rest' & E & Et & L); [cbn; lia|reflexivity|].
  change (firstn 0 (delimiter b) ++ content ++ delimiter b ++ rest) with (content ++ delimiter b ++ rest) in Et.
  rewrite E. enough (Eo : out = content) by (subst out; apply app_inv_head, app_inv_head in Et; now subst).
  destruct (Nat.eq_dec (length out) (length content)) as [El|El].
  - apply (f_equal (firstn (length out))) in Et. rewrite El in Et at 1. rewrite !firstn_app, !firstn_all, Nat.sub_diag, El, Nat.sub_diag in Et.
    cbn [firstn] in Et. now rewrite !app_nil_r in Et.
  - exfalso. set (n := length (out ++ delimiter b)).
    assert (F : firstn n (content ++ delimiter b) = out ++ delimiter b).
    { transitivity (firstn n ((content ++ delimiter b) ++ rest)).
      - rewrite (firstn_app n (content ++ delimiter b)). replace (n - length (content ++ delimiter b))%nat with 0%nat by (unfold n; rewrite !length_app; lia).
        change (firstn 0 rest) with (@nil Z). now rewrite app_nil_r.
      - rewrite <- app_assoc, Et, app_assoc. unfold n. rewrite firstn_app, firstn_all, Nat.sub_diag. apply app_nil_r. }
    assert (Es : content ++ delimiter b = out ++ delimiter b ++ skipn n (content ++ delimiter b)) by (rewrite app_assoc, <- F; symmetry; apply firstn_skipn).
    apply Only, (f_equal (@length Z)) in Es. unfold n in Es. rewrite length_skipn, !length_app in Es. cbn in Es. lia.
Qed.

(** ** Bytes of a piece *)
Lemma byte_signed c v : 0 <= c < 128 -> 0 <= v < 256 -> (c =? i8 v) = (c =? v).
Proof.
  intros Hc Hv. destruct (Z.ltb_spec v 128) as [L|L].
  - rewrite wrapS_id by (change (2 ^ (8 - 1)) with 128; lia). reflexivity.
  - assert (E : i8 v = v - 256) 
      by (unfold wrapS; change (2 ^ (8 - 1)) with 128; change (2 ^ 8) with 256; rewrite <- (Z.mod_unique_pos (v + 128) 256 1 (v - 128)); lia).
    rewrite E. rewrite !(proj2 (Z.eqb_neq _ _)) by lia. reflexivity.
Qed.
Lemma u8_signed v : 0 <= v < 256 -> u8 (i8 v) = v.
Proof.
  intros Hv. unfold wrapU, wrapS. change (2 ^ (8 - 1)) with 128. change (2 ^ 8) with 256. rewrite Zminus_mod_idemp_l, Z.add_simpl_r. apply Z.mod_small. exact Hv.
Qed.
Lemma firstn_stored (lb : list Z) n x : (n < length lb)%nat -> firstn (S n) (<[n := x]> lb) = firstn n lb ++ [x].
Proof. revert n. induction lb as [|c lb IH]; intros [|n] L; cbn in *; try lia; [reflexivity|]. f_equal. apply IH. lia. Qed.
Lemma slice_next buffer mark i v t : (mark <= i)%nat -> skipn i buffer = v :: t ->
  mp_slice buffer mark (S i) = mp_slice buffer mark i ++ [v].
Proof.
  intros L E. unfold mp_slice. replace (S i - mark)%nat with (S (i - mark)) by lia. apply firstn_next.
  assert (N : nth_error (skipn i buffer) 0 = Some v) by (rewrite E; reflexivity). rewrite nth_error_skipn in N |- *. rewrite <- N. f_equal. lia.
Qed.
Lemma skipn_cons_at buffer i v t : skipn i buffer = v :: t -> (i < length buffer)%nat /\ nth i buffer 0 = v /\ skipn (S i) buffer = t /\
  (i =? length buffer - 1)%nat = match t with [] => true | _ => false end.
Proof.
  intros E. assert (L : length (skipn i buffer) = S (length t)) by (rewrite E; reflexivity). rewrite length_skipn in L.
  split; [lia|]. assert (N : nth_error (skipn i buffer) 0 = Some v) by (rewrite E; reflexivity). rewrite nth_error_skipn, Nat.add_0_r in N.
  split; [now apply nth_error_nth|]. split.
  - replace (S i) with (1 + i)%nat by lia. rewrite <- skipn_skipn, E. reflexivity.
  - destruct t as [|u t]; cbn in L; [apply Nat.eqb_eq|apply Nat.eqb_neq]; lia.
Qed.

(** ** The loop does what [delimiter_scan] does *)
Section Loop.
Context (random_hash : nat -> option (list Z)) (can_open : list Z -> bool) (can_write : list Z -> list Z -> bool).
Context (Writes : forall w d, can_write w d = true).
Abbreviation step := (multipart_step random_hash can_open can_write).
Abbreviation loop := (multipart_loop random_hash can_open can_write).

Definition steps (buffer : list Z) (m : multipart) (i mark : nat) (m' : multipart) (i' mark' : nat) : Prop :=
  exists n, forall f, loop (n + f) m buffer i mark = loop f m' buffer i' mark'.
Lemma steps_refl buffer m i mark : steps buffer m i mark m i mark.
Proof. now exists 0%nat. Qed.
Lemma steps_trans buffer m i mark m1 i1 mark1 m2 i2 mark2 :
  steps buffer m i mark m1 i1 mark1 -> steps buffer m1 i1 mark1 m2 i2 mark2 -> steps buffer m i mark m2 i2 mark2.
Proof. intros [n A] [n' B]. exists (n + n')%nat. intros f. now rewrite <- Nat.add_assoc, A, B. Qed.
Lemma steps_one buffer m i mark m1 i1 mark1 : (i < length buffer)%nat -> step m buffer i mark = mp_next m1 i1 mark1 -> steps buffer m i mark m1 i1 mark1.
Proof.
  intros L E. exists 1%nat. intros f. cbn [Nat.add multipart_loop]. rewrite (proj2 (Nat.leb_gt _ _)) by exact L. now rewrite E.
Qed.

(** All of the state but the content that is written and the place in the delimiter. *)
Definition part_of (m : multipart) :=
  (has_callback m, temporary_directory m, boundary m, max_resources m, skip m, finish m, header m, resources m, announced m, files m, begun m,
   set_resource_length 0 (data m)).
Record content_state (b : list Z) (m : multipart) (k : nat) (w : list Z) : Prop := mk_content_state {
  at_boundary : boundary m = Some b;
  at_stream : mp_stream m = Some w;
  at_skip : skip m = false;
  at_length : resource_length (data m) = u64 (Z.of_nat (length w));
  at_room : length (look_behind m) = (length b + 8)%nat;
  at_place : match k with
             | 0 => mp_status m = mp_resource
             | 1 => mp_status m = mp_resource_boundary_waiting /\ firstn 1 (look_behind m) = [13%Z]
             | S (S j) => mp_status m = mp_resource_boundary /\ mp_index m = j /\ (j < length b)%nat /\
                          firstn k (look_behind m) = firstn k (delimiter b)
             end%nat }.

Lemma write_content b m k w bytes : content_state b m k w ->
  exists m', parse_multipart_content_data can_write bytes m = (m', true) /\ part_of m' = part_of m /\ same_state m m' /\
    boundary m' = Some b /\ mp_stream m' = Some (w ++ bytes) /\ skip m' = false /\ resource_length (data m') = u64 (Z.of_nat (length (w ++ bytes))).
Proof.
  intros [B S K L R _]. unfold parse_multipart_content_data. destruct bytes as [|c bytes].
  - exists m. rewrite app_nil_r. repeat split; assumption.
  - rewrite S, K, Writes. eexists. split; [reflexivity|]. cbn. split; [unfold part_of; cbn; rewrite K; reflexivity|]. split; [now repeat split|].
    split; [exact B|]. split; [reflexivity|]. split; [exact K|]. rewrite L, length_app. unfold wrapU. rewrite Zplus_mod_idemp_l. f_equal. cbn [length]. lia.
Qed.

(** What the search has reached in a piece. *)
Definition reached (b buffer : list Z) (m : multipart) (i mark : nat) (w out : list Z) (r : nat + list Z) : Prop :=
  match r with
  | inl k => exists m' mark', steps buffer m i mark m' (length buffer) mark' /\ content_state b m' k (w ++ out) /\ part_of m' = part_of m
  | inr rest => exists m1 i' mark', steps buffer m i mark (with_status mp_resource_waiting (fst (parse_multipart_resource_end m1))) i' mark' /\
      skipn i' buffer = rest /\ (i' <= length buffer)%nat /\ part_of m1 = part_of m /\ boundary m1 = Some b /\ mp_stream m1 = Some (w ++ out) /\
      resource_length (data m1) = u64 (Z.of_nat (length (w ++ out))) /\ length (look_behind m1) = (length b + 8)%nat
  end.
Lemma reached_more b buffer m i mark m1 i1 mark1 w w1 out out1 r : steps buffer m i mark m1 i1 mark1 -> part_of m1 = part_of m ->
  w1 ++ out1 = w ++ out -> reached b buffer m1 i1 mark1 w1 out1 r -> reached b buffer m i mark w out r.
Proof.
  intros S P E R. destruct r as [k|rest]; cbn in *.
  - destruct R as (m' & mark' & S' & C & P'). exists m', mark'. rewrite <- E. repeat split; [exact (steps_trans _ _ _ _ _ _ _ _ _ _ S S')| apply C..|congruence].
  - destruct R as (m2 & i' & mark' & S' & Sk & L & P' & B & St & Ln & Rm). exists m2, i', mark'. rewrite <- E.
    repeat split; [exact (steps_trans _ _ _ _ _ _ _ _ _ _ S S')|exact Sk|exact L|congruence|exact B|exact St|exact Ln|exact Rm].
Qed.


Definition content_goal (b : list Z) (k : nat) (t : list Z) : Prop :=
  forall m w pending buffer i mark, skipn i buffer = t -> (i <= length buffer)%nat -> content_state b m k w ->
    (k = 0%nat -> (mark <= i)%nat /\ mp_slice buffer mark i = pending) -> (k <> 0%nat -> pending = []) -> (t = [] -> pending = []) ->
    let '(out, r) := delimiter_scan b k t in reached b buffer m i mark w (pending ++ out) r.

Lemma content_end b k : content_goal b k [].
Proof.
  intros m w pending buffer i mark E L C _ _ Np. cbn [delimiter_scan]. rewrite Np by reflexivity. assert (Ei : i = length buffer).
  { apply (f_equal (@length Z)) in E. rewrite length_skipn in E. cbn in E. lia. }
  subst i. exists m, mark. rewrite app_nil_r. repeat split; [apply steps_refl|apply C..].
Qed.

Lemma plain_content_byte b v t : boundary_ok b -> 0 <= v < 256 -> (forall k, (k < length (delimiter b))%nat -> content_goal b k t) -> content_goal b 0 (v :: t).
Proof.
  intros Ok Hv IH m w pending buffer i mark E L C Hm _ _. destruct (Hm eq_refl) as [Lm Ep]. clear Hm.
  destruct (skipn_cons_at _ _ _ _ E) as (Li & Nv & E' & La). pose proof (at_place _ _ _ _ C) as St. cbn in St.
  assert (Val : (i8 v =? 13) = (v =? 13)) by (rewrite (Z.eqb_sym _ 13), byte_signed by lia; apply Z.eqb_sym).
  assert (Step : step m buffer i mark = resource_case can_write m buffer (i8 v) (match t with [] => true | _ => false end) i mark)
    by (unfold multipart_step; now rewrite St, Nv, La).
  cbn [delimiter_scan nth_error delimiter firstn app]. unfold resource_case in Step. rewrite Val in Step. destruct (Z.eqb_spec v 13) as [->|V].
  - rewrite bool_decide_eq_true_2 by reflexivity. cbn [length Nat.eqb].
    destruct (write_content b m 0 w (mp_slice buffer mark i) C) as (m1 & Ew & P1 & (Sb & Si & Ss & Sl) & B1 & S1 & K1 & L1). rewrite Ew in Step. cbn [fst snd] in Step.
    set (m2 := with_behind _ _) in Step.
    assert (C2 : content_state b m2 1 (w ++ pending)).
    { split; cbn; [exact B1|now rewrite S1, Ep|exact K1|now rewrite L1, Ep|rewrite length_insert, Sl; apply C|]. split; [reflexivity|].
      pose proof (at_room _ _ _ _ C) as R. rewrite Sl. destruct (look_behind m); [cbn in R; lia|reflexivity]. }
    specialize (IH 1%nat ltac:(cbn; lia) m2 (w ++ pending) [] buffer (S i) i E' ltac:(lia) C2 ltac:(discriminate) ltac:(reflexivity) ltac:(reflexivity)).
    destruct (delimiter_scan b 1 t) as [out r]. cbn [app] in IH |- *. eapply reached_more; [apply (steps_one _ _ _ _ _ _ _ Li Step)|exact P1|symmetry; apply app_assoc|exact IH].
  - rewrite bool_decide_eq_false_2 by congruence. assert (Es : mp_slice buffer mark (S i) = pending ++ [v]) by (rewrite (slice_next buffer mark i v t Lm E), Ep; reflexivity).
    destruct t as [|v' t]; cbn [at_last] in Step.
    + destruct (write_content b m 0 w (mp_slice buffer mark (S i)) C) as (m1 & Ew & P1 & (Sb & Si & Ss & Sl) & B1 & S1 & K1 & L1). rewrite Ew in Step. cbn [fst snd] in Step.
      rewrite Es in S1, L1. assert (C1 : content_state b m1 0 (w ++ pending ++ [v])) by (split; [exact B1|exact S1|exact K1|exact L1|rewrite Sl; apply C|cbn; congruence]).
      assert (Ei : S i = length buffer) by (apply (f_equal (@length Z)) in E'; rewrite length_skipn in E'; cbn in E'; lia).
      cbn [delimiter_scan app]. exists m1, mark. rewrite <- Ei. repeat split; [exact (steps_one _ _ _ _ _ _ _ Li Step)|apply C1..|exact P1].
    + specialize (IH 0%nat ltac:(cbn; lia) m w (pending ++ [v]) buffer (S i) mark E' ltac:(lia) C ltac:(intros _; split; [lia|exact Es]) ltac:(congruence) ltac:(discriminate)).
      destruct (delimiter_scan b 0 (v' :: t)) as [out r]. eapply reached_more; [apply (steps_one _ _ _ _ _ _ _ Li Step)|reflexivity| |exact IH].
      cbn [app]. now rewrite <- app_assoc.
Qed.

(** In the wait for the boundary a byte is one more of the delimiter, or what was held back is written and the byte is met again. *)
Lemma resumed b k v t m m1 w buffer i mark : boundary_ok b -> 0 <= v < 256 -> (forall j, (j < length (delimiter b))%nat -> content_goal b j t) ->
  nth_error (delimiter b) k <> Some v -> content_state b m k w -> skipn i buffer = v :: t -> (i <= length buffer)%nat ->
  parse_multipart_content_data can_write (firstn k (look_behind m)) m = (m1, true) -> firstn k (look_behind m) = firstn k (delimiter b) ->
  step m buffer i mark = again (m1, true) i ->
  let '(out, r) := delimiter_scan b k (v :: t) in reached b buffer m i mark w out r.
Proof.
  intros Ok Hv IH M C E L W Fk Step. destruct (skipn_cons_at _ _ _ _ E) as (Li & _ & _ & _).
  destruct (write_content b m k w (firstn k (look_behind m)) C) as (m' & W' & P1 & (Sb & Si & Ss & Sl) & B1 & S1 & K1 & L1).
  rewrite W in W'. injection W' as <-. rewrite Fk in S1, L1.
  assert (C1 : content_state b (with_status mp_resource m1) 0 (w ++ firstn k (delimiter b)))
    by (split; cbn; [exact B1|exact S1|exact K1|exact L1|rewrite Sl; apply C|reflexivity]).
  pose proof (plain_content_byte b v t Ok Hv IH _ _ [] buffer i i E L C1) as R. rewrite (scan_again b k v t M). destruct (delimiter_scan b 0 (v :: t)) as [out r].
  eapply reached_more; [apply (steps_one _ _ _ _ _ _ _ Li Step)|exact P1|symmetry; apply app_assoc|apply R; [|congruence|reflexivity]].
  intros _. split; [lia|]. unfold mp_slice. now rewrite Nat.sub_diag.
Qed.

Lemma waiting_byte b v t : boundary_ok b -> 0 <= v < 256 -> (forall k, (k < length (delimiter b))%nat -> content_goal b k t) -> content_goal b 1 (v :: t).
Proof.
  intros Ok Hv IH m w pending buffer i mark E L C _ Np _. rewrite Np by discriminate. clear Np. assert (Lb : (0 < length b)%nat) by (destruct Ok as [N _]; destruct b; [congruence|cbn; lia]).
  destruct (skipn_cons_at _ _ _ _ E) as (Li & Nv & E' & La). destruct (at_place _ _ _ _ C) as [St F1].
  assert (Val : (i8 v =? 10) = (v =? 10)) by (rewrite (Z.eqb_sym _ 10), byte_signed by lia; apply Z.eqb_sym).
  assert (Step : step m buffer i mark = boundary_waiting_case can_write m (i8 v) i mark) by (unfold multipart_step; now rewrite St, Nv).
  unfold boundary_waiting_case in Step. rewrite Val in Step. destruct (Z.eqb_spec v 10) as [->|V].
  - set (m2 := with_mp_index 0 _) in Step.
    assert (C2 : content_state b m2 2 w).
    { pose proof (at_room _ _ _ _ C) as R. split; cbn; [apply C..|rewrite length_insert; apply C|]. do 2 (split; [reflexivity|]). split; [exact Lb|].
      destruct (look_behind m) as [|c0 [|c1 lb]]; [cbn in R; lia..|]. cbn in F1. injection F1 as ->. reflexivity. }
    cbn [delimiter_scan]. rewrite bool_decide_eq_true_2 by reflexivity. rewrite (proj2 (Nat.eqb_neq 2 _)) by (cbn; lia).
    specialize (IH 2%nat ltac:(cbn; lia) m2 w [] buffer (S i) mark E' ltac:(lia) C2 ltac:(discriminate) ltac:(reflexivity) ltac:(reflexivity)).
    destruct (delimiter_scan b 2 t) as [out r]. eapply reached_more; [apply (steps_one _ _ _ _ _ _ _ Li Step)|reflexivity|reflexivity|exact IH].
  - destruct (write_content b m 1 w (firstn 1 (look_behind m)) C) as (m1 & Ew & _). rewrite Ew in Step.
    pose proof (resumed b 1 v t m m1 w buffer i mark) as R. destruct (delimiter_scan b 1 (v :: t)) as [out r]. cbn [app]. apply R; try assumption. cbn. congruence.
Qed.

Lemma matching_byte b j v t : boundary_ok b -> 0 <= v < 256 -> (forall k, (k < length (delimiter b))%nat -> content_goal b k t) -> content_goal b (S (S j)) (v :: t).
Proof.
  intros Ok Hv IH m w pending buffer i mark E L C _ Np _. rewrite Np by discriminate. clear Np.
  destruct (skipn_cons_at _ _ _ _ E) as (Li & Nv & E' & La). destruct (at_place _ _ _ _ C) as (St & Ij & Lj & F).
  destruct (nth_error b j) as [c|] eqn:Ec; [|apply nth_error_None in Ec; lia].
  assert (Hc : 0 <= c < 128) by (destruct Ok as [_ G]; rewrite List.Forall_forall in G; apply nth_error_In in Ec; now destruct (G _ Ec)).
  assert (Step : step m buffer i mark = boundary_case can_write m (i8 v) i mark) by (unfold multipart_step; now rewrite St, Nv).
  unfold boundary_case in Step. rewrite (at_boundary _ _ _ _ C), Ij in Step. rewrite nth_error_app1 in Step by exact Lj.
  rewrite Ec, byte_signed in Step by assumption. destruct (Z.eqb_spec c v) as [->|V].
  - cbn [mp_index with_mp_index] in Step. set (m2 := with_mp_index (S j) _) in Step. cbn [delimiter_scan].
    rewrite bool_decide_eq_true_2 by exact Ec. change (S (S (S j)) =? length (delimiter b))%nat with (S j =? length b)%nat.
    destruct (Nat.eqb_spec (S j) (length b)) as [El|El].
    + unfold then_next in Step. rewrite end_true in Step. exists m2, (S i), mark. rewrite !app_nil_r.
      repeat split; [exact (steps_one _ _ _ _ _ _ _ Li Step)|exact E'|lia|apply C..|cbn; rewrite length_insert; apply C].
    + assert (C2 : content_state b m2 (S (S (S j))) w).
      { split; cbn -[firstn]; [apply C..|rewrite length_insert; apply C|]. split; [exact St|]. split; [reflexivity|]. split; [lia|].
        cbn [plus]. rewrite firstn_stored, u8_signed, F by (try exact Hv; rewrite (at_room _ _ _ _ C); lia). symmetry. apply firstn_next. exact Ec. }
      specialize (IH (S (S (S j))) ltac:(cbn; lia) m2 w [] buffer (S i) mark E' ltac:(lia) C2 ltac:(discriminate) ltac:(reflexivity) ltac:(reflexivity)).
      destruct (delimiter_scan b (S (S (S j))) t) as [out r]. eapply reached_more; [apply (steps_one _ _ _ _ _ _ _ Li Step)|reflexivity|reflexivity|exact IH].
  - destruct (write_content b m (S (S j)) w (firstn (S (S j)) (look_behind m)) C) as (m1 & Ew & _). change (2 + j)%nat with (S (S j)) in Step. rewrite Ew in Step.
    pose proof (resumed b (S (S j)) v t m m1 w buffer i mark) as R. destruct (delimiter_scan b (S (S j)) (v :: t)) as [out r]. apply R; try assumption. cbn. congruence.
Qed.

(** The content of a part in one piece of the body, from whatever was reached before. *)
Lemma content_loop b t : boundary_ok b -> List.Forall (fun v => 0 <= v < 256) t -> forall k, (k < length (delimiter b))%nat -> content_goal b k t.
Proof.
  intros Ok. induction 1 as [|v t Hv _ IH]; intros k K; [apply content_end|].
  destruct k as [|[|j]]; [now apply plain_content_byte|now apply waiting_byte|now apply matching_byte].
Qed.
End Loop.
