(* ===== verification/MultipartSpec.v ===== *)
(** * Multipart bodies: theorems

    A body printed from its parts is parsed to resources with the headers and files of those parts, the content of a part does not
    depend on how the reads cut it, and the machine ends on every piece; and the inputs it takes wrongly. *)
From S2P Require Import Prelude Text TextEdit HttpMessage Multipart MultipartFacts MultipartContent.
From stdpp Require Import list.
Open Scope Z_scope.

(** ** A body and its parts *)

Record part := mk_part { part_headers : list (list Z * list Z); part_content : list Z }.
Definition mp_line_end : list Z := [13; 10].
Definition print_header_line (h : list Z * list Z) : list Z := fst h ++ 58 :: 32 :: snd h ++ mp_line_end.
Definition print_part (b : list Z) (p : part) : list Z := flat_map print_header_line (part_headers p) ++ mp_line_end ++ part_content p ++ mp_line_end ++ b.
Fixpoint print_parts (b : list Z) (ps : list part) : list Z :=
  match ps with
  | [] => []
  | [p] => print_part b p ++ [45; 45] ++ mp_line_end
  | p :: ps => print_part b p ++ mp_line_end ++ print_parts b ps
  end.
Definition print_multipart (b : list Z) (ps : list part) : list Z := b ++ mp_line_end ++ print_parts b ps.

Definition is_byte (v : Z) : Prop := 0 <= v < 256.
Definition field_byte (c : Z) : bool := (c =? 45) || isalpha c.
Record mp_header_ok (h : list Z * list Z) : Prop := mk_header_ok {
  name_ok : fst h <> [] /\ List.Forall (fun c => field_byte c = true) (fst h);
  value_ok_ : snd h <> [] /\ hd 0 (snd h) <> 32 /\ List.Forall (fun c => is_byte c /\ c <> 13) (snd h) }.
Record part_ok (b : list Z) (p : part) : Prop := mk_part_ok {
  headers_ok : List.Forall mp_header_ok (part_headers p);
  content_bytes : List.Forall is_byte (part_content p);
  content_plain : forall l r, part_content p ++ delimiter b = l ++ delimiter b ++ r -> r = [] }.

Section Roundtrip.
Context (random_hash : nat -> option (list Z)) (can_open : list Z -> bool) (can_write : list Z -> list Z -> bool).
Context (Opens : forall p, can_open p = true) (Writes : forall w d, can_write w d = true).
Abbreviation step := (multipart_step random_hash can_open can_write).
Abbreviation loop := (multipart_loop random_hash can_open can_write).
Abbreviation steps := (steps random_hash can_open can_write).

(** What stays the same while a part is read. *)
Record in_body (b d : list Z) (cb : bool) (max : nat) (m : multipart) (rs ann : list resource) (fs : list (list Z * list Z)) (n : nat) : Prop := mk_in_body {
  in_boundary : boundary m = Some b; in_room : length (look_behind m) = (length b + 8)%nat; in_skip : skip m = false;
  in_directory : temporary_directory m = Some d; in_callback : has_callback m = cb; in_max : max_resources m = max;
  in_resources : resources m = Some rs; in_announced : announced m = ann; in_files : files m = fs; in_begun : begun m = n }.

Lemma signed_small c v : 0 <= c < 128 -> 0 <= v < 256 -> (i8 v =? c) = (v =? c).
Proof. intros Hc Hv. rewrite Z.eqb_sym, byte_signed by assumption. apply Z.eqb_sym. Qed.
Lemma field_byte_spec c : field_byte c = true -> 0 <= c < 128 /\ (c =? 13) = false /\ (c =? 58) = false /\
  negb (c =? 45) && ((tolower c <? 97) || (122 <? tolower c)) = false.
Proof.
  intros F. unfold field_byte, isalpha, isupper, islower in F. assert (R : 45 <= c < 128) by lia. split; [lia|]. split; [lia|]. split; [lia|].
  unfold tolower, isupper. destruct (Z.eqb_spec c 45); [reflexivity|]. cbn [negb andb]. destruct ((65 <=? c) && (c <=? 90)) eqn:U; lia.
Qed.

(** ** Header lines *)
Lemma field_loop b cs : List.Forall (fun c => field_byte c = true) cs -> forall m buffer i mark rest, boundary m = Some b ->
  mp_status m = mp_header_field -> (mark <= i)%nat -> skipn i buffer = cs ++ 58 :: rest ->
  mp_slice buffer mark i ++ cs <> [] ->
  steps buffer m i mark (with_status mp_header_value_start (with_message_header (mp_slice buffer mark i ++ cs) m)) (i + length cs + 1) mark /\
  skipn (i + length cs + 1) buffer = rest.
Proof.
  induction 1 as [|c cs Hc _ IH]; intros m buffer i mark rest B St Lm E Ne.
  - cbn [app length] in *. rewrite app_nil_r in *. destruct (skipn_cons_at _ _ _ _ E) as (Li & Nv & E' & La).
    replace (i + 0 + 1)%nat with (S i) by lia. split; [|exact E']. apply steps_one; [exact Li|].
    unfold multipart_step, header_field_case. rewrite St, Nv. change (i8 58) with 58. cbn [Z.eqb Pos.eqb].
    unfold then_next, parse_multipart_header_field. destruct (mp_slice buffer mark i); [congruence|reflexivity].
  - cbn [app] in E. destruct (skipn_cons_at _ _ _ _ E) as (Li & Nv & E' & La). destruct (field_byte_spec c Hc) as (R & N13 & N58 & Lo).
    assert (Es : mp_slice buffer mark (S i) = mp_slice buffer mark i ++ [c]) by exact (slice_next buffer mark i c _ Lm E).
    destruct (IH m buffer (S i) mark rest B St ltac:(lia) E') as [S1 E1].
    { rewrite Es. destruct (mp_slice buffer mark i); discriminate. }
    replace (i + length (c :: cs) + 1)%nat with (S i + length cs + 1)%nat by (cbn; lia). split; [|exact E1].
    rewrite Es, <- app_assoc in S1. eapply steps_trans; [|exact S1]. apply steps_one; [exact Li|].
    unfold multipart_step, header_field_case. rewrite St, Nv, La. rewrite wrapS_id by (change (2 ^ (8 - 1)) with 128; lia). rewrite N13, N58, Lo.
    destruct (cs ++ 58 :: rest) eqn:En; [now destruct cs|reflexivity].
Qed.
Lemma value_loop b vs : List.Forall (fun c => is_byte c /\ c <> 13) vs -> forall m buffer i mark rest, boundary m = Some b ->
  mp_status m = mp_header_value -> (mark <= i)%nat -> skipn i buffer = vs ++ 13 :: rest ->
  steps buffer m i mark (with_status mp_header_value_waiting (fst (parse_multipart_header_value (mp_slice buffer mark i ++ vs) m))) (i + length vs + 1) mark /\
  skipn (i + length vs + 1) buffer = rest.
Proof.
  induction 1 as [|c vs [Hc Nc] _ IH]; intros m buffer i mark rest B St Lm E.
  - cbn [app length] in *. rewrite app_nil_r in *. destruct (skipn_cons_at _ _ _ _ E) as (Li & Nv & E' & La).
    replace (i + 0 + 1)%nat with (S i) by lia. split; [|exact E']. apply steps_one; [exact Li|].
    unfold multipart_step, header_value_case. rewrite St, Nv. change (i8 13) with 13. cbn [Z.eqb Pos.eqb].
    unfold then_next. assert (T : snd (parse_multipart_header_value (mp_slice buffer mark i) m) = true)
      by (unfold parse_multipart_header_value; destruct (mp_slice buffer mark i), (header m); try destruct (skip m); reflexivity). now rewrite T.
  - cbn [app] in E. destruct (skipn_cons_at _ _ _ _ E) as (Li & Nv & E' & La).
    assert (Es : mp_slice buffer mark (S i) = mp_slice buffer mark i ++ [c]) by exact (slice_next buffer mark i c _ Lm E).
    destruct (IH m buffer (S i) mark rest B St ltac:(lia) E') as [S1 E1].
    replace (i + length (c :: vs) + 1)%nat with (S i + length vs + 1)%nat by (cbn; lia). split; [|exact E1].
    rewrite Es, <- app_assoc in S1. eapply steps_trans; [|exact S1]. apply steps_one; [exact Li|].
    unfold multipart_step, header_value_case. rewrite St, Nv, La. rewrite signed_small by (exact Hc || lia). rewrite (proj2 (Z.eqb_neq _ _)) by exact Nc.
    destruct (vs ++ 13 :: rest) eqn:En; [now destruct vs|reflexivity].
Qed.
(** A pass that is the one of another status and mark. *)
Lemma steps_enter buffer m i mark m1 mark1 m' i' mark' : (i < length buffer)%nat -> step m buffer i mark = step m1 buffer i mark1 ->
  steps buffer m1 i mark1 m' i' mark' -> steps buffer m i mark m' i' mark'.
Proof.
  intros L E [n S]. exists n. intros f. rewrite <- S. assert (Leb : (length buffer <=? i)%nat = false) by now apply Nat.leb_gt.
  destruct (n + f)%nat; cbn [multipart_loop]; rewrite Leb; [reflexivity|]. now rewrite E.
Qed.

Lemma in_body_change b d cb max m m' rs ann fs n : in_body b d cb max m rs ann fs n ->
  (boundary m', look_behind m', skip m', temporary_directory m', has_callback m', max_resources m', resources m', announced m', files m', begun m') =
  (boundary m, look_behind m, skip m, temporary_directory m, has_callback m, max_resources m, resources m, announced m, files m, begun m) ->
  in_body b d cb max m' rs ann fs n.
Proof. intros [] E. injection E as ? ? ? ? ? ? ? ? ? ?. split; congruence. Qed.

(** A line of the head of a part. *)
Lemma header_line_run b d cb max m rs ann fs n buffer i mark h rest : mp_header_ok h -> in_body b d cb max m rs ann fs n ->
  mp_status m = mp_header_field_start -> header m = [] -> skipn i buffer = print_header_line h ++ rest ->
  exists m' i' mark', steps buffer m i mark m' i' mark' /\ skipn i' buffer = rest /\ in_body b d cb max m' rs ann fs n /\
    mp_status m' = mp_header_field_start /\ header m' = [] /\ mp_stream m' = mp_stream m /\ data m' = value_into (fst h) (snd h) (data m).
Proof.
  intros [[Nn Fn] (Nv & Sp & Fv)] I St H0 E. destruct h as [name value]. cbn [fst snd] in *. unfold print_header_line in E. cbn [fst snd] in E.
  destruct name as [|c cs]; [congruence|]. destruct value as [|v vs]; [congruence|]. cbn [hd] in Sp.
  pose proof (in_boundary _ _ _ _ _ _ _ _ _ I) as B. set (m1 := with_status mp_header_field m).
  destruct (skipn_cons_at _ _ _ _ E) as (Li & Ni & _ & _).
  assert (E1 : skipn i buffer = (c :: cs) ++ 58 :: (32 :: (v :: vs) ++ 13 :: 10 :: rest)).
  { rewrite E. unfold mp_line_end. cbn [app]. f_equal. rewrite <- !app_assoc. cbn [app]. do 3 f_equal. rewrite <- app_assoc. reflexivity. }
  assert (S0 : mp_slice buffer i i = []) by (unfold mp_slice; now rewrite Nat.sub_diag).
  destruct (field_loop b (c :: cs) Fn m1 buffer i i _ B eq_refl (le_n i) E1) as [R1 E2]; [rewrite S0; discriminate|]. rewrite S0 in R1. cbn [app] in R1, E2.
  set (i1 := (i + length (c :: cs) + 1)%nat) in *. set (m2 := with_status mp_header_value_start (with_message_header (c :: cs) m1)) in *.
  destruct (skipn_cons_at _ _ _ _ E2) as (Li1 & Ni1 & E3 & _). destruct (skipn_cons_at _ _ _ _ E3) as (Li2 & Ni2 & _ & _).
  inversion_clear Fv as [|? ? [Hv Nv13] Fv']. set (m3 := with_status mp_header_value m2).
  destruct (value_loop b (v :: vs) ltac:(now constructor) m3 buffer (S i1) (S i1) _ B eq_refl (le_n _) E3) as [R2 E4].
  assert (S1 : mp_slice buffer (S i1) (S i1) = []) by (unfold mp_slice; now rewrite Nat.sub_diag). rewrite S1 in R2. cbn [app] in R2. set (i2 := (S i1 + length (v :: vs) + 1)%nat) in *.
  assert (P : fst (parse_multipart_header_value (v :: vs) m3) = with_message_header [] (with_data (value_into (c :: cs) (v :: vs) (data m)) m3)).
  { unfold parse_multipart_header_value. change (header m3) with (c :: cs). change (skip m3) with (skip m). now rewrite (in_skip _ _ _ _ _ _ _ _ _ I). }
  rewrite P in R2. destruct (skipn_cons_at _ _ _ _ E4) as (Li3 & Ni3 & E5 & _).
  do 3 eexists. split; [|split; [exact E5|]].
  - eapply steps_enter; [exact Li| |eapply steps_trans; [exact R1|]].
    + unfold multipart_step. rewrite St. reflexivity.
    + eapply steps_trans; [apply steps_one; [exact Li1|unfold multipart_step; cbn [mp_status with_status m2]; rewrite Ni1; change (i8 32) with 32; reflexivity]|].
      eapply steps_enter; [exact Li2| |eapply steps_trans; [exact R2|apply steps_one; [exact Li3|unfold multipart_step; cbn [mp_status with_status]; rewrite Ni3; reflexivity]]].
      unfold multipart_step. cbn [mp_status with_status m2 m3]. rewrite Ni2, signed_small by (exact Hv || lia). rewrite (proj2 (Z.eqb_neq _ _)) by exact Sp. reflexivity.
  - split; [apply (in_body_change _ _ _ _ m); [exact I|reflexivity]|]. repeat split.
Qed.
Lemma headers_run b d cb max hs : List.Forall mp_header_ok hs -> forall m rs ann fs n buffer i mark rest, in_body b d cb max m rs ann fs n ->
  mp_status m = mp_header_field_start -> header m = [] -> skipn i buffer = flat_map print_header_line hs ++ rest ->
  exists m' i' mark', steps buffer m i mark m' i' mark' /\ skipn i' buffer = rest /\ in_body b d cb max m' rs ann fs n /\
    mp_status m' = mp_header_field_start /\ header m' = [] /\ mp_stream m' = mp_stream m /\
    data m' = fold_left (fun r h => value_into (fst h) (snd h) r) hs (data m).
Proof.
  induction 1 as [|h hs Hh _ IH]; intros m rs ann fs n buffer i mark rest I St H0 E; cbn [flat_map fold_left] in *.
  - exists m, i, mark. repeat split; try assumption; [apply steps_refl|apply I..].
  - rewrite <- app_assoc in E. destruct (header_line_run b d cb max m rs ann fs n buffer i mark h _ Hh I St H0 E) as (m1 & i1 & mark1 & R1 & E1 & I1 & St1 & H1 & S1 & D1).
    destruct (IH m1 rs ann fs n buffer i1 mark1 rest I1 St1 H1 E1) as (m2 & i2 & mark2 & R2 & E2 & I2 & St2 & H2 & S2 & D2).
    exists m2, i2, mark2. split; [exact (steps_trans _ _ _ _ _ _ _ _ _ _ _ _ _ R1 R2)|]. repeat split; try assumption; [apply I2..|congruence|congruence].
Qed.

(** The resource of a part that was begun with [r]. *)
Definition part_resource (r : resource) (p : part) : resource :=
  set_resource_length (u64 (Z.of_nat (length (part_content p)))) (fold_left (fun r h => value_into (fst h) (snd h) r) (part_headers p) r).
Lemma value_into_path h v r : resource_path (value_into h v r) = resource_path r.
Proof. unfold value_into. repeat destruct (bool_decide _); repeat destruct (quoted _ _); reflexivity. Qed.
Lemma part_resource_path r p : resource_path (part_resource r p) = resource_path r.
Proof.
  unfold part_resource. cbn. generalize (part_headers p). intros hs. revert r. induction hs as [|h hs IH]; intros r; [reflexivity|].
  cbn [fold_left]. now rewrite IH, value_into_path.
Qed.
Lemma set_length_twice n d d' : set_resource_length 0 d = set_resource_length 0 d' -> resource_length d = n -> d = set_resource_length n d'.
Proof. destruct d, d'. unfold set_resource_length. cbn. intros E <-. injection E as -> -> -> -> -> ->. reflexivity. Qed.

Lemma begin_part_fields b d cb max m rs ann fs n : in_body b d cb max m rs ann fs n -> mp_stream m = None -> (length rs < max)%nat ->
  exists m', parse_multipart_resource_begin random_hash can_open m = (m', true) /\ in_body b d cb max m' rs ann fs (S n) /\
    mp_stream m' = Some [] /\ header m' = [] /\ data m' = mk_resource [] (new_path random_hash n (Some d) []) (chars "application/octet-stream") [] (resource_key (data m)) 0 false.
Proof.
  intros I S L. unfold parse_multipart_resource_begin. rewrite (in_resources _ _ _ _ _ _ _ _ _ I), (in_skip _ _ _ _ _ _ _ _ _ I), S, (in_max _ _ _ _ _ _ _ _ _ I).
  rewrite (proj2 (Nat.leb_gt _ _)) by exact L. rewrite Opens. eexists. split; [reflexivity|]. split; [destruct I; split; cbn; congruence|].
  repeat split. cbn. now rewrite (in_directory _ _ _ _ _ _ _ _ _ I), (in_begun _ _ _ _ _ _ _ _ _ I).
Qed.

Lemma part_run b d cb max m rs ann fs n buffer i mark p rest : boundary_ok b -> part_ok b p -> in_body b d cb max m rs ann fs n ->
  mp_status m = mp_header_field_start -> header m = [] -> mp_stream m = Some [] -> resource_length (data m) = 0 ->
  List.Forall is_byte buffer -> skipn i buffer = print_part b p ++ rest ->
  let r := part_resource (data m) p in
  exists m' i' mark', steps buffer m i mark m' i' mark' /\ skipn i' buffer = rest /\
    in_body b d cb max m' (rs ++ [r]) (if cb then ann ++ [r] else ann) (fs ++ [(resource_path r, part_content p)]) n /\
    mp_status m' = mp_resource_waiting /\ mp_stream m' = None /\ data m' = r.
Proof.
  intros Bk Pk I St H0 S0 L0 Fb E r. unfold print_part, mp_line_end in E. rewrite <- !app_assoc in E. cbn [app] in E.
  destruct (headers_run b d cb max _ (headers_ok _ _ Pk) m rs ann fs n buffer i mark _ I St H0 E) as (m1 & i1 & mark1 & R1 & E1 & I1 & St1 & H1 & S1 & D1).
  destruct (skipn_cons_at _ _ _ _ E1) as (Li1 & N1 & E2 & _). destruct (skipn_cons_at _ _ _ _ E2) as (Li2 & N2 & E3 & _).
  set (m2 := with_status mp_header_field_waiting m1). set (m3 := with_status mp_resource_start m2). set (m4 := with_status mp_resource m3).
  assert (Lr : resource_length (data m1) = 0).
  { rewrite D1. clear - L0. revert L0. generalize (data m). generalize (part_headers p). induction l as [|h hs IH]; intros r0 L0; [exact L0|].
    cbn [fold_left]. apply IH. unfold value_into. repeat destruct (bool_decide _); repeat destruct (quoted _ _); exact L0. }
  assert (C4 : content_state b m4 0 []).
  { split; cbn; [apply I1|now rewrite S1, S0|apply I1|now rewrite Lr|apply I1|reflexivity]. }
  assert (E3' : skipn (S (S i1)) buffer = part_content p ++ delimiter b ++ rest) by exact E3.
  assert (Ft : List.Forall is_byte (part_content p ++ delimiter b ++ rest)) by (rewrite <- E3'; now apply Forall_drop).
  pose proof (content_loop random_hash can_open can_write Writes b _ Bk Ft 0 ltac:(cbn; lia) m4 [] [] buffer (S (S i1)) (S (S i1)) E3') as G.
  rewrite (scan_content b (part_content p) rest Bk (content_plain _ _ Pk)) in G.
  specialize (G ltac:(lia) C4 ltac:(intros _; split; [lia|unfold mp_slice; now rewrite Nat.sub_diag]) ltac:(congruence) ltac:(reflexivity)). cbn [app] in G.
  destruct G as (m5 & i5 & mark5 & R5 & E5 & L5 & P5 & B5 & S5 & Ln5 & Rm5).
  assert (Li3 : (S (S i1) < length buffer)%nat).
  { apply (f_equal (@length Z)) in E3'. rewrite length_skipn, !length_app in E3'. cbn in E3'. lia. }
  unfold part_of in P5. injection P5 as Pc Pt Pb Pm Pk5 Pf Ph Pr Pa Pfi Pn Pd.
  assert (D5 : data m5 = r). { unfold r, part_resource. rewrite <- D1. apply set_length_twice; [unfold set_resource_length; congruence|exact Ln5]. }
  exists (with_status mp_resource_waiting (fst (parse_multipart_resource_end m5))), i5, mark5. split; [|split; [exact E5|]].
  - eapply steps_trans; [exact R1|]. eapply steps_trans; [apply steps_one; [exact Li1|unfold multipart_step; rewrite St1, N1; reflexivity]|].
    eapply steps_trans; [apply steps_one; [exact Li2|unfold multipart_step; cbn [mp_status with_status]; rewrite N2; reflexivity]|].
    eapply steps_enter; [exact Li3| |exact R5]. reflexivity.
  - unfold parse_multipart_resource_end, close_stream. cbn in Pr, Pk5. rewrite S5, Pr, (in_resources _ _ _ _ _ _ _ _ _ I1), Pk5, (in_skip _ _ _ _ _ _ _ _ _ I1).
    destruct I1. cbn in *. split; [split; cbn; try congruence|split; [reflexivity|split; [reflexivity|exact D5]]].
    rewrite Pc, in_callback0, Pa, in_announced0, D5. reflexivity.
Qed.

(** ** Whole bodies *)

(** The resources of the parts from the n-th on; a part without a name keeps the name of the one before it. *)
Definition begun_resource (d : list Z) (n : nat) (key : list Z) : resource :=
  mk_resource [] (new_path random_hash n (Some d) []) (chars "application/octet-stream") [] key 0 false.
Fixpoint expected (d : list Z) (n : nat) (key : list Z) (ps : list part) : list resource :=
  match ps with
  | [] => []
  | p :: ps => let r := part_resource (begun_resource d n key) p in r :: expected d (S n) (resource_key r) ps
  end.
Definition expected_files (d : list Z) (n : nat) (ps : list part) : list (list Z * list Z) :=
  imap (fun k p => (new_path random_hash (n + k) (Some d) [], part_content p)) ps.

Lemma end_run m buffer i mark rest : mp_status m = mp_end -> skipn i buffer = rest -> (i <= length buffer)%nat ->
  steps buffer m i mark m (length buffer) mark.
Proof.
  revert i. induction rest as [|v rest IH]; intros i St E L.
  - apply (f_equal (@length Z)) in E. rewrite length_skipn in E. cbn in E. replace i with (length buffer) by lia. apply steps_refl.
  - destruct (skipn_cons_at _ _ _ _ E) as (Li & _ & E' & _). eapply steps_trans; [|apply (IH (S i) St E'); lia].
    apply steps_one; [exact Li|]. unfold multipart_step. now rewrite St.
Qed.

Lemma parts_run b d cb max ps : boundary_ok b -> List.Forall (part_ok b) ps -> ps <> [] -> forall m rs ann fs n key buffer i mark,
  in_body b d cb max m rs ann fs (S n) -> (length rs + length ps <= max)%nat ->
  mp_status m = mp_header_field_start -> header m = [] -> mp_stream m = Some [] -> data m = begun_resource d n key ->
  List.Forall is_byte buffer -> skipn i buffer = print_parts b ps ->
  exists m' mark', steps buffer m i mark m' (length buffer) mark' /\ mp_status m' = mp_end /\ mp_stream m' = None /\
    resources m' = Some (rs ++ expected d n key ps) /\ announced m' = (if cb then ann ++ expected d n key ps else ann) /\
    files m' = fs ++ expected_files d n ps.
Proof.
  intros Bk Fp. induction Fp as [|p ps Hp Fp IH]; intros Ne m rs ann fs n key buffer i mark I Lm St H0 S0 D0 Fb E; [congruence|].
  assert (L0 : resource_length (data m) = 0) by now rewrite D0.
  assert (Efi : expected_files d n (p :: ps) = (resource_path (part_resource (data m) p), part_content p) :: expected_files d (S n) ps).
  { unfold expected_files. rewrite imap_cons, Nat.add_0_r, part_resource_path, D0. f_equal. apply imap_ext. intros k q _. cbn. now rewrite Nat.add_succ_r. }
  cbn [expected]. rewrite <- D0. set (r := part_resource (data m) p) in *. destruct ps as [|p2 ps].
  - cbn [print_parts] in E. unfold mp_line_end in E. cbn [app] in E.
    destruct (part_run b d cb max m rs ann fs (S n) buffer i mark p _ Bk Hp I St H0 S0 L0 Fb E) as (m1 & i1 & mark1 & R1 & E1 & I1 & St1 & S1 & D1).
    destruct (skipn_cons_at _ _ _ _ E1) as (Li1 & N1 & E2 & _). destruct (skipn_cons_at _ _ _ _ E2) as (Li2 & N2 & E3 & _).
    set (m3 := with_status mp_end (with_status mp_resource_hyphen m1)). exists m3, mark1. split.
    + eapply steps_trans; [exact R1|]. eapply steps_trans; [apply steps_one; [exact Li1|unfold multipart_step; rewrite St1, N1; reflexivity]|].
      eapply steps_trans; [apply steps_one; [exact Li2|unfold multipart_step; cbn [mp_status with_status]; rewrite N2; reflexivity]|].
      apply (end_run m3 buffer (S (S i1)) mark1 _ eq_refl E3). lia.
    + split; [reflexivity|]. split; [exact S1|]. destruct I1. cbn [expected resources announced files m3 with_status]. rewrite Efi.
      split; [assumption|]. split; [destruct cb; assumption|]. unfold expected_files. cbn [imap]. assumption.
  - change (print_parts b (p :: p2 :: ps)) with (print_part b p ++ mp_line_end ++ print_parts b (p2 :: ps)) in E. unfold mp_line_end in E. cbn [app] in E.
    destruct (part_run b d cb max m rs ann fs (S n) buffer i mark p _ Bk Hp I St H0 S0 L0 Fb E) as (m1 & i1 & mark1 & R1 & E1 & I1 & St1 & S1 & D1).
    destruct (skipn_cons_at _ _ _ _ E1) as (Li1 & N1 & E2 & _). destruct (skipn_cons_at _ _ _ _ E2) as (Li2 & N2 & E3 & _).
    set (m2 := with_status mp_header_field_start (with_status mp_resource_end m1)).
    assert (I2 : in_body b d cb max m2 (rs ++ [r]) (if cb then ann ++ [r] else ann) (fs ++ [(resource_path r, part_content p)]) (S n)) by (apply (in_body_change _ _ _ _ m1); [exact I1|reflexivity]).
    destruct (begin_part_fields b d cb max m2 _ _ _ _ I2 S1) as (m3 & Eb & I3 & S3 & H3 & D3); [rewrite length_app; cbn in *; lia|].
    assert (D3' : data m3 = begun_resource d (S n) (resource_key r)) by (rewrite D3; change (data m2) with (data m1); rewrite D1; reflexivity).
    set (m4 := with_status mp_header_field_start m3).
    destruct (IH ltac:(discriminate) m4 _ _ _ (S n) (resource_key r) buffer (S (S i1)) mark1 (in_body_change _ _ _ _ m3 m4 _ _ _ _ I3 eq_refl)
      ltac:(rewrite length_app; cbn in *; lia) eq_refl H3 S3 D3' Fb E3) as (m' & mark' & R4 & St4 & S4 & Rs4 & An4 & Fi4).
    exists m', mark'. split.
    + eapply steps_trans; [exact R1|]. eapply steps_trans; [apply steps_one; [exact Li1|unfold multipart_step; rewrite St1, N1; reflexivity]|].
      eapply steps_trans; [|exact R4]. apply steps_one; [exact Li2|]. unfold multipart_step. cbn [mp_status with_status]. rewrite N2.
      change (i8 10 =? 10) with true. cbv iota. change (with_status mp_header_field_start (with_status mp_resource_end m1)) with m2. rewrite Eb. reflexivity.
    + split; [exact St4|]. split; [exact S4|]. rewrite Rs4, An4, Fi4, Efi, <- !app_assoc. split; [reflexivity|]. split; [destruct cb; [rewrite <- app_assoc|]; reflexivity|reflexivity].
Qed.

Lemma boundary_run b cs : List.Forall (fun c => 0 <= c < 128) cs -> forall done m buffer i mark rest, b = done ++ cs -> boundary m = Some b ->
  mp_status m = mp_start_boundary -> mp_index m = length done -> skipn i buffer = cs ++ rest ->
  steps buffer m i mark (with_mp_index (length b) m) (i + length cs) mark /\ skipn (i + length cs) buffer = rest.
Proof.
  induction 1 as [|c cs Hc _ IH]; intros done m buffer i mark rest Eb B St Ix E.
  - rewrite app_nil_r in Eb. subst done. cbn [length app] in *. rewrite Nat.add_0_r. split; [|exact E].
    replace (with_mp_index (length b) m) with m by (destruct m; cbn in *; now subst). apply steps_refl.
  - cbn [app] in E. destruct (skipn_cons_at _ _ _ _ E) as (Li & Nv & E' & _).
    set (m1 := with_mp_index (S (length done)) m).
    destruct (IH (done ++ [c]) m1 buffer (S i) mark rest) as [R1 E1];
      [rewrite <- app_assoc; exact Eb|exact B|exact St|cbn; rewrite length_app; cbn; lia|exact E'|].
    replace (i + length (c :: cs))%nat with (S i + length cs)%nat by (cbn; lia). split; [|exact E1].
    eapply steps_trans; [apply steps_one; [exact Li|]|exact R1]. unfold multipart_step, start_boundary_case. rewrite St, Nv, B, Ix.
    assert (Lb : length b = (length done + S (length cs))%nat) by (rewrite Eb, length_app; reflexivity).
    rewrite (proj2 (Nat.eqb_neq _ _)), (proj2 (Nat.eqb_neq _ _)) by lia.
    rewrite Eb, <- app_assoc, nth_error_app2, Nat.sub_diag by lia. cbn [nth_error app].
    rewrite wrapS_id by (change (2 ^ (8 - 1)) with 128; lia). now rewrite Z.eqb_refl.
Qed.

Lemma steps_parse b m buffer m' mark' : mp_ok (begin_boundary b m) -> steps buffer (begin_boundary b m) 0 0 m' (length buffer) mark' ->
  multipart_parse random_hash can_open can_write b buffer m = mp_done m' (Z.of_nat (length buffer)).
Proof.
  intros K [n S]. unfold multipart_parse. specialize (S (2 * length buffer)%nat).
  destruct (loop_ends random_hash can_open can_write (2 * length buffer) (begin_boundary b m) buffer 0 0 K) as (m1 & r & E & _); [lia|unfold passes; rewrite Nat.sub_0_r; destruct (length buffer); lia|].
  rewrite Nat.add_comm, loop_more, E in S by (rewrite E; discriminate). rewrite E, S.
  destruct (2 * length buffer)%nat; cbn [multipart_loop]; now rewrite Nat.leb_refl.
Qed.

Lemma print_bytes b ps : boundary_ok b -> List.Forall (part_ok b) ps -> List.Forall is_byte (print_multipart b ps).
Proof.
  intros Bk Fp. assert (Fc : List.Forall is_byte b) by (destruct Bk as [_ F]; eapply List.Forall_impl; [|exact F]; unfold is_byte; cbn; lia).
  assert (Fl : List.Forall is_byte mp_line_end) by (repeat constructor; unfold is_byte; lia).
  assert (Fpart : forall p, part_ok b p -> List.Forall is_byte (print_part b p)).
  { intros p [Hh Hc _]. unfold print_part. apply List.Forall_app. split;
      [|apply List.Forall_app; split; [exact Fl|apply List.Forall_app; split; [exact Hc|apply List.Forall_app; now split]]]. clear - Hh Fl.
    induction Hh as [|h hs [[_ N] (_ & _ & V)] _ IH]; [constructor|]. cbn [flat_map]. apply List.Forall_app. split; [|exact IH].
    unfold print_header_line. apply List.Forall_app. split; [eapply List.Forall_impl; [|exact N]; cbn; intros c Hc; destruct (field_byte_spec c Hc); unfold is_byte; lia|].
    do 2 (constructor; [unfold is_byte; lia|]). apply List.Forall_app. split; [eapply List.Forall_impl; [|exact V]; intros v [Hv _]; exact Hv|exact Fl]. }
  unfold print_multipart. apply List.Forall_app. split; [exact Fc|]. apply List.Forall_app. split; [exact Fl|].
  clear - Fp Fpart Fl. induction Fp as [|p ps Hp Fp IH]; [constructor|]. destruct ps as [|p2 ps].
  - cbn [print_parts]. apply List.Forall_app. split; [now apply Fpart|]. repeat constructor; unfold is_byte; lia.
  - change (print_parts b (p :: p2 :: ps)) with (print_part b p ++ mp_line_end ++ print_parts b (p2 :: ps)).
    apply List.Forall_app. split; [now apply Fpart|]. apply List.Forall_app. split; [exact Fl|exact IH].
Qed.
(** The boundary that opens the body, and the first part. *)
Lemma first_boundary_run b d cb max rs buffer rest : boundary_ok b -> (length rs < max)%nat -> buffer = b ++ mp_line_end ++ rest ->
  exists m', steps buffer (begin_boundary b (prepare_for_multipart_parsing rs (Some d) max false cb)) 0 0 m' (S (S (length b))) 0 /\
    skipn (S (S (length b))) buffer = rest /\ in_body b d cb max m' rs [] [] 1 /\ mp_status m' = mp_header_field_start /\ header m' = [] /\
    mp_stream m' = Some [] /\ data m' = begun_resource d 0 [].
Proof.
  intros Bk L Eb. set (m1 := begin_boundary b _). set (m2 := with_status mp_start_boundary (with_mp_index 0 m1)).
  assert (E : skipn 0 buffer = b ++ mp_line_end ++ rest) by exact Eb. clear Eb.
  destruct (boundary_run b b) with (done := @nil Z) (m := m2) (buffer := buffer) (i := 0%nat) (mark := 0%nat) (rest := mp_line_end ++ rest) as [R2 E2];
    [destruct Bk as [_ F]; eapply List.Forall_impl; [|exact F]; cbn; lia|reflexivity|reflexivity|reflexivity|reflexivity|exact E|].
  cbn [Nat.add] in R2, E2. destruct (skipn_cons_at _ _ _ _ E2) as (Li1 & N1 & E3 & _). destruct (skipn_cons_at _ _ _ _ E3) as (Li2 & N2 & E4 & _).
  set (m3 := with_mp_index (S (length b)) (with_mp_index (length b) m2)). set (m4 := with_mp_index 0 m3).
  assert (I4 : in_body b d cb max m4 rs [] [] 0) by (split; cbn; rewrite ?repeat_length; reflexivity).
  destruct (begin_part_fields b d cb max m4 rs [] [] 0 I4 eq_refl L) as (m5 & E5 & I5 & S5 & H5 & D5).
  exists (with_status mp_header_field_start m5). split; [|split; [exact E4|split; [exact (in_body_change _ _ _ _ m5 (with_status mp_header_field_start m5) _ _ _ _ I5 eq_refl)|now repeat split]]].
  assert (Li0 : (0 < length buffer)%nat) by lia. eapply steps_enter; [exact Li0| |eapply steps_trans; [exact R2|]]; [reflexivity|].
  eapply steps_trans; [apply steps_one; [exact Li1|]|].
  - unfold multipart_step, start_boundary_case. rewrite N1. change (boundary (with_mp_index (length b) m2)) with (Some b).
    cbn [mp_status mp_index with_mp_index with_status m2]. rewrite Nat.eqb_refl. reflexivity.
  - fold m3. apply steps_one; [exact Li2|]. unfold multipart_step, start_boundary_case. rewrite N2.
    change (boundary m3) with (Some b). change (mp_status m3) with mp_start_boundary. change (mp_index m3) with (S (length b)). cbv iota.
    rewrite (proj2 (Nat.eqb_neq _ _)) by lia. rewrite Nat.add_1_r, Nat.eqb_refl. change (i8 10 =? 10) with true. cbv iota. fold m4. rewrite E5. reflexivity.
Qed.

(** (C23) The parser is the inverse of the printer: a body of parts is taken whole, and for each part there is a resource with its headers, its name,
    file name and type as the header values give them, its length and a file with exactly its content, in the order of the parts and told
    to the callback; the content may be any bytes in which the boundary does not begin a line. *)
Theorem multipart_roundtrip (b d : list Z) (cb : bool) (max : nat) (ps : list part) (rs : list resource) :
  boundary_ok b -> List.Forall (part_ok b) ps -> ps <> [] -> (length rs + length ps <= max)%nat ->
  exists m', multipart_parse random_hash can_open can_write b (print_multipart b ps) (prepare_for_multipart_parsing rs (Some d) max false cb) =
      mp_done m' (Z.of_nat (length (print_multipart b ps))) /\
    mp_status m' = mp_end /\ mp_stream m' = None /\ resources m' = Some (rs ++ expected d 0 [] ps) /\
    announced m' = (if cb then expected d 0 [] ps else []) /\ files m' = expected_files d 0 ps.
Proof.
  intros Bk Fp Ne L. set (buffer := print_multipart b ps).
  destruct (first_boundary_run b d cb max rs buffer (print_parts b ps) Bk) as (m1 & R1 & E1 & I1 & St1 & H1 & S1 & D1); [destruct ps; [congruence|cbn in L; lia]|reflexivity|].
  destruct (parts_run b d cb max ps Bk Fp Ne m1 rs [] [] 0 [] buffer (S (S (length b))) 0 I1 L St1 H1 S1 D1 (print_bytes b ps Bk Fp) E1)
    as (m' & mark' & R2 & St2 & S2 & Rs2 & An2 & Fi2).
  exists m'. split; [|repeat split; assumption].
  apply (steps_parse b _ buffer m' mark'); [apply begin_ok; [destruct Bk; assumption|intros X; now destruct (X eq_refl)]|].
  exact (steps_trans _ _ _ _ _ _ _ _ _ _ _ _ _ R1 R2).
Qed.

(** ** Bodies in pieces *)

(** [connection::store] feeds the pieces as they are read until one returns -1 or the room for resources is used up. *)
Fixpoint multipart_pieces (b : list Z) (pieces : list (list Z)) (m : multipart) : option multipart :=
  match pieces with
  | [] => Some m
  | p :: pieces =>
      match multipart_parse random_hash can_open can_write b p m with
      | mp_done m r => if negb (r =? -1) && negb (finish m) then multipart_pieces b pieces m else Some m
      | _ => None
      end
  end.
Lemma pieces_go_on b p pieces m m' n : multipart_parse random_hash can_open can_write b p m = mp_done m' (Z.of_nat n) -> finish m' = false ->
  multipart_pieces b (p :: pieces) m = multipart_pieces b pieces m'.
Proof. intros E F. cbn [multipart_pieces]. rewrite E, F, (proj2 (Z.eqb_neq _ _)) by lia. reflexivity. Qed.

Lemma scan_app b t1 : forall k t2, delimiter_scan b k (t1 ++ t2) =
  match delimiter_scan b k t1 with
  | (out, inl k') => let '(out2, r) := delimiter_scan b k' t2 in (out ++ out2, r)
  | (out, inr rest) => (out, inr (rest ++ t2))
  end.
Proof.
  induction t1 as [|v t1 IH]; intros k t2; cbn [app delimiter_scan].
  - now destruct (delimiter_scan b k t2).
  - destruct (bool_decide _).
    + destruct (_ =? _)%nat; [reflexivity|apply IH].
    + rewrite IH. destruct (delimiter_scan b (if v =? 13 then 1%nat else 0%nat) t1) as [out [k'|rest]]; [|reflexivity].
      destruct (delimiter_scan b k' t2) as [out2 r]. now rewrite <- !app_assoc.
Qed.
Lemma content_place b m k w : boundary_ok b -> content_state b m k w -> (k < length (delimiter b))%nat.
Proof. intros [N _] C. pose proof (at_place _ _ _ _ C) as P. destruct b; [congruence|]. destruct k as [|[|j]]; cbn in *; lia. Qed.
Lemma content_mp_ok b m k w : boundary_ok b -> content_state b m k w -> mp_ok m.
Proof.
  intros [N _] C. split. exists b. pose proof (at_place _ _ _ _ C) as P. repeat split; [apply C|exact N| |]; intros St; destruct k as [|[|j]]; intuition congruence || lia.
Qed.
Lemma content_parse b m k w t : boundary_ok b -> content_state b m k w -> List.Forall is_byte t ->
  let '(out, r) := delimiter_scan b k t in
  match r with
  | inl k' => exists m', multipart_parse random_hash can_open can_write b t m = mp_done m' (Z.of_nat (length t)) /\ content_state b m' k' (w ++ out) /\ part_of m' = part_of m
  | inr rest => rest = [] -> exists m1, multipart_parse random_hash can_open can_write b t m =
      mp_done (with_status mp_resource_waiting (fst (parse_multipart_resource_end m1))) (Z.of_nat (length t)) /\ part_of m1 = part_of m /\ mp_stream m1 = Some (w ++ out)
  end.
Proof.
  intros Bk C F. assert (Eb : begin_boundary b m = m) by (unfold begin_boundary; now rewrite (at_boundary _ _ _ _ C)).
  pose proof (content_loop random_hash can_open can_write Writes b t Bk F k (content_place _ _ _ _ Bk C) m w [] t 0%nat 0%nat eq_refl ltac:(lia) C) as G.
  specialize (G ltac:(intros _; split; [lia|reflexivity]) ltac:(reflexivity) ltac:(reflexivity)).
  assert (K : mp_ok (begin_boundary b m)) by (rewrite Eb; exact (content_mp_ok _ _ _ _ Bk C)).
  destruct (delimiter_scan b k t) as [out [k'|rest]]; cbn [app] in G; destruct G as (m1 & G).
  - destruct G as (mark' & R & C' & P). exists m1. split; [|now split]. apply (steps_parse b m t m1 mark' K). rewrite Eb. exact R.
  - intros ->. destruct G as (i' & mark' & R & E & L & P & _ & S & _). exists m1. split; [|now split].
    assert (Ei : i' = length t) by (apply (f_equal (@length Z)) in E; rewrite length_skipn in E; cbn in E; lia). subst i'.
    apply (steps_parse b m t _ mark' K). rewrite Eb. exact R.
Qed.

(** (C24) The content of a part does not depend on how it is cut: from the first byte of the content on, whatever pieces the content and the delimiter
    behind it arrive in, the file gets exactly the content and the part ends there. *)
Theorem multipart_cut (b w : list Z) (m : multipart) (content : list Z) (pieces : list (list Z)) (rs : list resource) :
  boundary_ok b -> content_state b m 0 w -> resources m = Some rs -> finish m = false -> List.Forall is_byte content ->
  (forall l r, content ++ delimiter b = l ++ delimiter b ++ r -> r = []) ->
  List.Forall (fun p => p <> []) pieces -> concat pieces = content ++ delimiter b ->
  exists m', multipart_pieces b pieces m = Some m' /\ mp_status m' = mp_resource_waiting /\ mp_stream m' = None /\
    files m' = files m ++ [(resource_path (data m), w ++ content)].
Proof.
  intros Bk C Rs Nf F Only Np E.
  assert (Sc : delimiter_scan b 0 (concat pieces) = (content, inr [])) by (rewrite E, <- (app_nil_r (delimiter b)); now apply scan_content).
  assert (Fb : List.Forall is_byte (concat pieces)).
  { rewrite E. apply List.Forall_app. split; [exact F|]. destruct Bk as [_ G]. do 2 (constructor; [unfold is_byte; lia|]).
    eapply List.Forall_impl; [|exact G]. unfold is_byte. cbn. lia. }
  clear E F Only. revert Sc C Rs Nf. generalize 0%nat at 1 2. revert w m content. induction pieces as [|p pieces IH]; intros w m content k Sc C Rs Nf; [discriminate|].
  cbn [concat] in Sc, Fb. apply List.Forall_app in Fb as [Fp Fb]. inversion_clear Np as [|? ? Np1 Np2].
  pose proof (content_parse b m k w p Bk C Fp) as G. rewrite scan_app in Sc. destruct (delimiter_scan b k p) as [out [k'|rest]].
  - destruct G as (m1 & Ep & C1 & P1). destruct (delimiter_scan b k' (concat pieces)) as [out2 r] eqn:S2. injection Sc as <- ->.
    injection P1 as Pc Pt Pb Pm Pk5 Pf Ph Pr Pa Pfi Pn Pd.
    destruct (IH Np2 Fb (w ++ out) m1 out2 k' S2 C1 ltac:(congruence) ltac:(congruence)) as (m' & E' & St & S & Fi). exists m'. rewrite (pieces_go_on _ _ _ _ _ _ Ep) by congruence.
    split; [exact E'|]. split; [exact St|]. split; [exact S|]. rewrite Fi, Pfi, app_assoc. do 3 f_equal. assumption.
  - injection Sc as <- Er. apply app_eq_nil in Er as [-> Ec]. destruct (G eq_refl) as (m1 & Ep & P1 & S1). injection P1 as Pc Pt Pb Pm Pk5 Pf Ph Pr Pa Pfi Pn Pd.
    destruct pieces as [|q pieces]; [|inversion_clear Np2; destruct q; [congruence|discriminate]]. eexists.
    rewrite (pieces_go_on _ _ _ _ _ _ Ep) by (unfold parse_multipart_resource_end; rewrite S1, Pr, Rs, Pk5, (at_skip _ _ _ _ C); unfold close_stream; rewrite S1; cbn; congruence).
    split; [reflexivity|]. unfold parse_multipart_resource_end, close_stream. rewrite S1, Pr, Rs, Pk5, (at_skip _ _ _ _ C). cbn. split; [reflexivity|]. split; [reflexivity|].
    rewrite Pfi. do 3 f_equal. assumption.
Qed.

(** The machine returns on every piece, in whatever order the pieces come, with a position in the piece or -1; and it never reads behind the boundary. *)
Theorem multipart_total (b : list Z) (pieces : list (list Z)) (m : multipart) : b <> [] -> (boundary m <> None -> mp_ok m) ->
  exists m', multipart_pieces b pieces m = Some m' /\
  forall piece, exists m'' r, multipart_parse random_hash can_open can_write b piece m' = mp_done m'' r /\ -1 <= r <= Z.of_nat (length piece).
Proof.
  intros Nb. assert (One : forall m piece, (boundary m <> None -> mp_ok m) ->
    exists m'' r, multipart_parse random_hash can_open can_write b piece m = mp_done m'' r /\ mp_ok m'' /\ -1 <= r <= Z.of_nat (length piece)).
  { intros m0 piece K. apply loop_ends; [now apply begin_ok|lia|]. unfold passes. rewrite Nat.sub_0_r. destruct (length piece); lia. }
  revert m. induction pieces as [|p pieces IH]; intros m K; cbn [multipart_pieces].
  - exists m. split; [reflexivity|]. intros piece. destruct (One m piece K) as (m'' & r & E & _ & Hr). eauto.
  - destruct (One m p K) as (m1 & r & E & K1 & _). rewrite E. destruct (negb (r =? -1) && negb (finish m1)); [apply IH; now intros _|].
    exists m1. split; [reflexivity|]. intros piece. destruct (One m1 piece ltac:(now intros _)) as (m'' & r' & E' & _ & Hr). eauto.
Qed.
End Roundtrip.

(** ** Examples *)

Definition hash_of (n : nat) : option (list Z) := Some (chars "h" ++ [48 + Z.of_nat n]).
Definition always_opens (_ : list Z) : bool := true.
Definition always_writes (_ _ : list Z) : bool := true.
Definition form_boundary : list Z := chars "--XX".
(** A field of three bytes that look like a delimiter, and an empty file. *)
Definition form_parts : list part :=
  [mk_part [(chars "Content-Disposition", chars "form-data; name=" ++ [34] ++ chars "k" ++ [34])] [13; 10; 45];
   mk_part [(chars "Content-Disposition", chars "form-data; name=" ++ [34] ++ chars "f" ++ [34] ++ chars "; filename=" ++ [34] ++ chars "a/b.txt" ++ [34]);
            (chars "Content-Type", chars "text/plain")] []].
Definition parse_pieces := multipart_pieces hash_of always_opens always_writes form_boundary.
Definition fresh_state : multipart := prepare_for_multipart_parsing [] (Some (chars "/t")) 8 false true.

Lemma form_boundary_ok : boundary_ok form_boundary.
Proof. split; [discriminate|]. change form_boundary with [45; 45; 88; 88]. repeat constructor; lia. Qed.
(** No second delimiter starts in a text, by trying every place. *)
Fixpoint delimiter_free (dl t : list Z) : bool :=
  match t with
  | [] => true
  | _ :: t' => negb (bool_decide (firstn (length dl) t = dl) && negb (length t =? length dl)%nat) && delimiter_free dl t'
  end.
Lemma delimiter_free_spec dl t l r : dl <> [] -> delimiter_free dl t = true -> t = l ++ dl ++ r -> r = [].
Proof.
  intros Nd. revert t. induction l as [|c l IH]; intros t F E.
  - subst t. cbn [app] in F. destruct dl as [|c dl]; [congruence|]. set (d := c :: dl) in *. destruct (d ++ r) eqn:Ed; [discriminate|].
    cbn [delimiter_free] in F. apply andb_true_iff in F as [F _]. rewrite <- Ed, firstn_app, Nat.sub_diag, firstn_all in F. cbn [firstn] in F.
    rewrite app_nil_r, bool_decide_eq_true_2, length_app in F by reflexivity. destruct r; [reflexivity|]. cbn [length andb] in F.
    rewrite (proj2 (Nat.eqb_neq _ _)) in F by lia. discriminate.
  - subst t. cbn [app delimiter_free] in F. apply andb_true_iff in F as [_ F]. exact (IH _ F eq_refl).
Qed.
Definition header_okb (h : list Z * list Z) : bool :=
  negb (bool_decide (fst h = [])) && forallb field_byte (fst h) && negb (bool_decide (snd h = [])) && negb (hd 0 (snd h) =? 32) &&
  forallb (fun c => (0 <=? c) && (c <? 256) && negb (c =? 13)) (snd h).
Lemma header_okb_ok h : header_okb h = true -> mp_header_ok h.
Proof.
  unfold header_okb. rewrite !andb_true_iff, !negb_true_iff, !bool_decide_eq_false, !forallb_forall. intros ((((A & B) & C) & D) & E).
  split; (split; [assumption|]); [now apply List.Forall_forall|split; [lia|]]. apply List.Forall_forall. intros c Hc. specialize (E c Hc). unfold is_byte. lia.
Qed.
Definition part_okb (b : list Z) (p : part) : bool :=
  forallb header_okb (part_headers p) && forallb (fun c => (0 <=? c) && (c <? 256)) (part_content p) && delimiter_free (delimiter b) (part_content p ++ delimiter b).
Lemma part_okb_ok b ps : forallb (part_okb b) ps = true -> List.Forall (part_ok b) ps.
Proof.
  rewrite forallb_forall. intros H. apply List.Forall_forall. intros p Hp. specialize (H p Hp). unfold part_okb in H. rewrite !andb_true_iff, !forallb_forall in H.
  destruct H as ((A & B) & C). split; [apply List.Forall_forall; auto using header_okb_ok| |intros l r; now apply delimiter_free_spec].
  apply List.Forall_forall. intros c Hc. specialize (B c Hc). unfold is_byte. lia.
Qed.

Lemma multipart_roundtrip_witness : exists m',
  multipart_parse hash_of always_opens always_writes form_boundary (print_multipart form_boundary form_parts) fresh_state =
    mp_done m' (Z.of_nat (length (print_multipart form_boundary form_parts))) /\
  mp_status m' = mp_end /\ mp_stream m' = None /\ resources m' = Some (expected hash_of (chars "/t") 0 [] form_parts) /\
  announced m' = expected hash_of (chars "/t") 0 [] form_parts /\ files m' = [(chars "/t/h0", [13; 10; 45]); (chars "/t/h1", [])].
Proof.
  exact (multipart_roundtrip hash_of always_opens always_writes (fun _ => eq_refl) (fun _ _ => eq_refl) form_boundary (chars "/t") true 8 form_parts []
    form_boundary_ok (part_okb_ok form_boundary form_parts eq_refl) ltac:(discriminate) ltac:(cbn; lia)).
Defined.

Definition in_content : multipart := match multipart_parse hash_of always_opens always_writes form_boundary (form_boundary ++ mp_line_end ++ mp_line_end ++ [97]) fresh_state with
  | mp_done m _ => m | _ => fresh_state end.
Lemma multipart_cut_witness : exists m', parse_pieces [[98; 13]; [10; 45]; [45; 98; 13; 10; 45]; [45; 88]; [88]] in_content = Some m' /\
  mp_status m' = mp_resource_waiting /\ mp_stream m' = None /\ files m' = [(chars "/t/h0", [97; 98; 13; 10; 45; 45; 98])].
Proof.
  apply (multipart_cut hash_of always_opens always_writes (fun _ _ => eq_refl) form_boundary [97] in_content [98; 13; 10; 45; 45; 98]
    [[98; 13]; [10; 45]; [45; 98; 13; 10; 45]; [45; 88]; [88]] []).
  - exact form_boundary_ok.
  - split; reflexivity.
  - reflexivity.
  - reflexivity.
  - repeat constructor; lia.
  - intros l r. apply delimiter_free_spec; [discriminate|reflexivity].
  - repeat constructor; discriminate.
  - reflexivity.
Defined.
Lemma multipart_total_witness : exists m', parse_pieces [[1; 2]; []; [45; 45]] fresh_state = Some m' /\
  forall piece, exists m'' r, multipart_parse hash_of always_opens always_writes form_boundary piece m' = mp_done m'' r /\ -1 <= r <= Z.of_nat (length piece).
Proof. apply multipart_total; [discriminate|intros H; now destruct H]. Defined.

(** What is taken wrongly.  Text that is no multipart body at all stops the machine at its first byte with the result 0, and the caller ends
    the request only on -1.  A header value that a read cuts is kept only up to the cut.  A part without a name gets the name of the part
    before it.  A file name ahead of the name is taken for both. *)
Theorem multipart_defects :
  (exists m, multipart_parse hash_of always_opens always_writes form_boundary (chars "no body") fresh_state = mp_done m 0 /\ resources m = Some []) /\
  (let h := form_boundary ++ mp_line_end ++ chars "Content-Type: text/plain" in
   let t := mp_line_end ++ mp_line_end ++ mp_line_end ++ form_boundary in
   option_map (fun m => map resource_type (default [] (resources m))) (parse_pieces [h ++ t] fresh_state) = Some [chars "text/plain"] /\
   option_map (fun m => map resource_type (default [] (resources m))) (parse_pieces [firstn 24 h; skipn 24 h ++ t] fresh_state) = Some [chars "text"]) /\
  (let named := mk_part [(chars "Content-Disposition", chars "form-data; name=" ++ [34] ++ chars "k" ++ [34])] [1] in
   option_map (fun m => map resource_key (default [] (resources m))) (parse_pieces [print_multipart form_boundary [named; mk_part [] [2]]] fresh_state) =
   Some [chars "k"; chars "k"]) /\
  (let p := mk_part [(chars "Content-Disposition", chars "form-data; filename=" ++ [34] ++ chars "x" ++ [34] ++ chars "; name=" ++ [34] ++ chars "k" ++ [34])] [1] in
   option_map (fun m => map (fun r => (resource_key r, resource_name r)) (default [] (resources m))) (parse_pieces [print_multipart form_boundary [p]] fresh_state) =
   Some [(chars "x", chars "x")]).
Proof.
  split; [eexists; split; [vm_compute; reflexivity|reflexivity]|]. split; [split; vm_compute; reflexivity|]. split; vm_compute; reflexivity.
Qed.
