(* ===== verification/WebSocket.v ===== *)
(** * WebSocket connections (network/http.cpp 175-531; http.h 342-409)

    [web_socket_frame] sends messages one after the other on a stream, queues what is sent meanwhile, and moves between waiting for
    bytes, processing frames and closing.  The world of a frame has the stream's side - the bytes that left, the write that waits for
    the socket, what the next writes and reads yield, whether the multiplexer watches for bytes, the updates the scheduler was given -
    and what can be observed: the messages handed to [send] in their order, those whose header was begun, the callbacks given and
    called, the frames handed to [receive] and what [lifetime.close] was told.  A callback of the user is its name and the calls it
    makes.  The scheduler is there, so [next] puts [update] in its queue. *)
From S2P Require Import Prelude Codec WebCodec.
From stdpp Require Import list.
Open Scope Z_scope.

Inductive web_socket_state := ws_open | ws_receive | ws_process | ws_close.
#[export] Instance web_socket_state_eq_dec : EqDecision web_socket_state.
Proof. solve_decision. Defined.
Inductive tunnel := tunnel_healthy | tunnel_closing | tunnel_gone.
#[export] Instance tunnel_eq_dec : EqDecision tunnel.
Proof. solve_decision. Defined.

Inductive web_callback :=
  | no_callback
  | call_next
  | call_user (id : nat) (does : list web_action)
with web_action :=
  | act_send (mask : Z) (buffer : list Z) (op : web_socket_op) (callback : web_callback)
  | act_close (callback : web_callback)
  | act_next.
Record message := mk_message { msg_mask : Z; msg_buffer : list Z; msg_opcode : web_socket_op; msg_callback : web_callback }.
(** What [receive] does with a frame, and whether it goes on by itself. *)
Definition receiver : Type := web_socket_op -> list Z -> list web_action * bool.

(** What is left to do when a write is over. *)
Inductive write_step := after_header (copy : list Z) (callback : web_callback) | after_payload (callback : web_callback).
(** The socket takes all the bytes, some of them or fails; and it yields bytes, none yet or fails. *)
Inductive ws_write := write_all | write_some (n : nat) | write_fails (n : nat).
Inductive ws_read := read_bytes (bytes : list Z) | read_waits | read_fails.
Inductive ws_event := event_done | event_error | event_skip.

Record web_socket_frame := mk_frame {
  messages : list message; ws_codec : web_codec; ws_state : web_socket_state; tunneling : tunnel; active : bool; deadly : bool; busy : bool; connect : web_callback; before_disconnect : web_callback; disconnect : web_callback; receive : option receiver }.
Record web_world := mk_web_world {
  frame : web_socket_frame; wire : list Z; awaiting : option (list Z * write_step); outcomes : list ws_write; incoming : list ws_read; awaits_read : bool; updates : nat; accepted : list message; begun_messages : list message; asked : list web_callback; told_callbacks : list web_callback; delivered : list (web_socket_op * list Z); closes : list bool }.
Definition ww_frame (x : web_socket_frame) (w : web_world) : web_world :=
  mk_web_world x (wire w) (awaiting w) (outcomes w) (incoming w) (awaits_read w) (updates w) (accepted w) (begun_messages w) (asked w) (told_callbacks w) (delivered w) (closes w).
Definition ww_wire (x : list Z) (w : web_world) : web_world :=
  mk_web_world (frame w) x (awaiting w) (outcomes w) (incoming w) (awaits_read w) (updates w) (accepted w) (begun_messages w) (asked w) (told_callbacks w) (delivered w) (closes w).
Definition ww_awaiting (x : option (list Z * write_step)) (w : web_world) : web_world :=
  mk_web_world (frame w) (wire w) x (outcomes w) (incoming w) (awaits_read w) (updates w) (accepted w) (begun_messages w) (asked w) (told_callbacks w) (delivered w) (closes w).
Definition ww_outcomes (x : list ws_write) (w : web_world) : web_world :=
  mk_web_world (frame w) (wire w) (awaiting w) x (incoming w) (awaits_read w) (updates w) (accepted w) (begun_messages w) (asked w) (told_callbacks w) (delivered w) (closes w).
Definition ww_incoming (x : list ws_read) (w : web_world) : web_world :=
  mk_web_world (frame w) (wire w) (awaiting w) (outcomes w) x (awaits_read w) (updates w) (accepted w) (begun_messages w) (asked w) (told_callbacks w) (delivered w) (closes w).
Definition ww_awaits_read (x : bool) (w : web_world) : web_world :=
  mk_web_world (frame w) (wire w) (awaiting w) (outcomes w) (incoming w) x (updates w) (accepted w) (begun_messages w) (asked w) (told_callbacks w) (delivered w) (closes w).
Definition ww_updates (x : nat) (w : web_world) : web_world :=
  mk_web_world (frame w) (wire w) (awaiting w) (outcomes w) (incoming w) (awaits_read w) x (accepted w) (begun_messages w) (asked w) (told_callbacks w) (delivered w) (closes w).
Definition ww_accepted (x : list message) (w : web_world) : web_world :=
  mk_web_world (frame w) (wire w) (awaiting w) (outcomes w) (incoming w) (awaits_read w) (updates w) x (begun_messages w) (asked w) (told_callbacks w) (delivered w) (closes w).
Definition ww_begun_messages (x : list message) (w : web_world) : web_world :=
  mk_web_world (frame w) (wire w) (awaiting w) (outcomes w) (incoming w) (awaits_read w) (updates w) (accepted w) x (asked w) (told_callbacks w) (delivered w) (closes w).
Definition ww_asked (x : list web_callback) (w : web_world) : web_world :=
  mk_web_world (frame w) (wire w) (awaiting w) (outcomes w) (incoming w) (awaits_read w) (updates w) (accepted w) (begun_messages w) x (told_callbacks w) (delivered w) (closes w).
Definition ww_told_callbacks (x : list web_callback) (w : web_world) : web_world :=
  mk_web_world (frame w) (wire w) (awaiting w) (outcomes w) (incoming w) (awaits_read w) (updates w) (accepted w) (begun_messages w) (asked w) x (delivered w) (closes w).
Definition ww_delivered (x : list (web_socket_op * list Z)) (w : web_world) : web_world :=
  mk_web_world (frame w) (wire w) (awaiting w) (outcomes w) (incoming w) (awaits_read w) (updates w) (accepted w) (begun_messages w) (asked w) (told_callbacks w) x (closes w).
Definition ww_closes (x : list bool) (w : web_world) : web_world :=
  mk_web_world (frame w) (wire w) (awaiting w) (outcomes w) (incoming w) (awaits_read w) (updates w) (accepted w) (begun_messages w) (asked w) (told_callbacks w) (delivered w) x.
Definition wf_messages (x : list message) (w : web_world) : web_world :=
  let f := frame w in ww_frame (mk_frame x (ws_codec f) (ws_state f) (tunneling f) (active f) (deadly f) (busy f) (connect f) (before_disconnect f) (disconnect f) (receive f)) w.
Definition wf_ws_codec (x : web_codec) (w : web_world) : web_world :=
  let f := frame w in ww_frame (mk_frame (messages f) x (ws_state f) (tunneling f) (active f) (deadly f) (busy f) (connect f) (before_disconnect f) (disconnect f) (receive f)) w.
Definition wf_ws_state (x : web_socket_state) (w : web_world) : web_world :=
  let f := frame w in ww_frame (mk_frame (messages f) (ws_codec f) x (tunneling f) (active f) (deadly f) (busy f) (connect f) (before_disconnect f) (disconnect f) (receive f)) w.
Definition wf_tunneling (x : tunnel) (w : web_world) : web_world :=
  let f := frame w in ww_frame (mk_frame (messages f) (ws_codec f) (ws_state f) x (active f) (deadly f) (busy f) (connect f) (before_disconnect f) (disconnect f) (receive f)) w.
Definition wf_active (x : bool) (w : web_world) : web_world :=
  let f := frame w in ww_frame (mk_frame (messages f) (ws_codec f) (ws_state f) (tunneling f) x (deadly f) (busy f) (connect f) (before_disconnect f) (disconnect f) (receive f)) w.
Definition wf_deadly (x : bool) (w : web_world) : web_world :=
  let f := frame w in ww_frame (mk_frame (messages f) (ws_codec f) (ws_state f) (tunneling f) (active f) x (busy f) (connect f) (before_disconnect f) (disconnect f) (receive f)) w.
Definition wf_busy (x : bool) (w : web_world) : web_world :=
  let f := frame w in ww_frame (mk_frame (messages f) (ws_codec f) (ws_state f) (tunneling f) (active f) (deadly f) x (connect f) (before_disconnect f) (disconnect f) (receive f)) w.
Definition wf_connect (x : web_callback) (w : web_world) : web_world :=
  let f := frame w in ww_frame (mk_frame (messages f) (ws_codec f) (ws_state f) (tunneling f) (active f) (deadly f) (busy f) x (before_disconnect f) (disconnect f) (receive f)) w.
Definition wf_before_disconnect (x : web_callback) (w : web_world) : web_world :=
  let f := frame w in ww_frame (mk_frame (messages f) (ws_codec f) (ws_state f) (tunneling f) (active f) (deadly f) (busy f) (connect f) x (disconnect f) (receive f)) w.
Definition wf_disconnect (x : web_callback) (w : web_world) : web_world :=
  let f := frame w in ww_frame (mk_frame (messages f) (ws_codec f) (ws_state f) (tunneling f) (active f) (deadly f) (busy f) (connect f) (before_disconnect f) x (receive f)) w.
Definition wf_receive (x : option receiver) (w : web_world) : web_world :=
  let f := frame w in ww_frame (mk_frame (messages f) (ws_codec f) (ws_state f) (tunneling f) (active f) (deadly f) (busy f) (connect f) (before_disconnect f) (disconnect f) x) w.

Definition new_web_socket_frame (codec : web_codec) : web_socket_frame :=
  mk_frame [] codec ws_open tunnel_healthy true false false no_callback no_callback no_callback None.
Definition is_finished (w : web_world) : bool := negb (active (frame w)).
Definition is_ignore (w : web_world) : bool :=
  deadly (frame w) || bool_decide (ws_state (frame w) = ws_close) || negb (bool_decide (tunneling (frame w) = tunnel_healthy)).
Definition is_writeable (w : web_world) : bool := negb (busy (frame w)) && negb (bool_decide (is_Some (awaiting w))).
Definition enqueue (m : message) (w : web_world) : web_world * bool :=
  if is_writeable w then (w, false) else (wf_messages (messages (frame w) ++ [m]) w, true).
Definition web_finalize (w : web_world) : web_world :=
  if bool_decide (tunneling (frame w) = tunnel_healthy) then wf_ws_state ws_close w else w.
Definition web_next (w : web_world) : web_world := ww_updates (S (updates w)) w.

(** What the observer notes. *)
Definition note_ask (callback : web_callback) (w : web_world) : web_world := ww_asked (asked w ++ [callback]) w.
Definition note_send (m : message) (w : web_world) : web_world := note_ask (msg_callback m) (ww_accepted (accepted w ++ [m]) w).
Definition note_told (callback : web_callback) (w : web_world) : web_world := ww_told_callbacks (told_callbacks w ++ [callback]) w.

Inductive send_result := sent_bytes (n : nat) | send_error.

Section Calls.
(** Calling a callback, and [dequeue], which a finished message leads to. *)
Context (call : web_callback -> web_world -> option web_world) (dequeue : web_world -> option web_world).

Definition finish_message (callback : web_callback) (w : web_world) : option web_world :=
  let ignore := is_ignore w in
  w ← call callback (wf_busy false w);
  if ignore then Some w else dequeue w.
Definition lose_message (callback : web_callback) (w : web_world) : option web_world :=
  call callback (wf_busy false (wf_tunneling tunnel_gone w)).

(** [stream->write_queued] with what is called when the write is over. *)
Definition stream_write (data : list Z) (step : write_step) (run : ws_event -> web_world -> option web_world) (w : web_world)
  : option (web_world * send_result) :=
  match outcomes w with
  | [] => Some (ww_awaiting (Some (data, step)) w, sent_bytes 0)
  | write_fails n :: os =>
      w ← run event_error (ww_wire (wire w ++ firstn n data) (ww_outcomes os w)); Some (w, send_error)
  | write_all :: os => w' ← run event_done (ww_wire (wire w ++ data) (ww_outcomes os w)); Some (w', sent_bytes (length data))
  | write_some n :: os =>
      if (length data <=? n)%nat then
        w' ← run event_done (ww_wire (wire w ++ data) (ww_outcomes os w)); Some (w', sent_bytes (length data))
      else Some (ww_awaiting (Some (skipn n data, step)) (ww_wire (wire w ++ firstn n data) (ww_outcomes os w)), sent_bytes 0)
  end.
Definition payload_written (callback : web_callback) (event : ws_event) (w : web_world) : option web_world :=
  match event with event_done | event_skip => finish_message callback w | event_error => lose_message callback w end.
Definition header_written (copy : list Z) (callback : web_callback) (event : ws_event) (w : web_world) : option web_world :=
  match event with
  | event_done =>
      match copy with
      | [] => finish_message callback w
      | _ => r ← stream_write copy (after_payload callback) (payload_written callback) w; Some (fst r)
      end
  | event_error => lose_message callback w
  | event_skip => finish_message callback w
  end.
Definition written (step : write_step) : ws_event -> web_world -> option web_world :=
  match step with after_header copy callback => header_written copy callback | after_payload callback => payload_written callback end.

Definition web_send (m : message) (w : web_world) : option (web_world * send_result) :=
  let '(w, queued) := enqueue m w in
  if queued then Some (w, sent_bytes 0)
  else
    let w := ww_begun_messages (begun_messages w ++ [m]) (wf_busy true w) in
    let step := after_header (msg_buffer m) (msg_callback m) in
    stream_write (send_header (msg_mask m) (Z.of_nat (length (msg_buffer m))) (msg_opcode m)) step (written step) w.
Definition dequeue_next (w : web_world) : option web_world :=
  if negb (is_writeable w) then Some w
  else match messages (frame w) with
       | [] => Some w
       | next :: rest => r ← web_send next (wf_messages rest w); Some (fst r)
       end.
Definition submit (m : message) (w : web_world) : option (web_world * send_result) := web_send m (note_send m w).
Definition send_close (callback : web_callback) (w : web_world) : option (web_world * bool) :=
  if deadly (frame w) then w ← call callback (note_ask callback w); Some (w, false)
  else if bool_decide (ws_state (frame w) = ws_close) || negb (bool_decide (tunneling (frame w) = tunnel_healthy)) then
    w ← call callback (note_ask callback w); Some (w, true)
  else if negb (active (frame w)) then w ← call callback (note_ask callback w); Some (w, false)
  else
    r ← submit (mk_message 0 [] op_close callback) (web_finalize w);
    Some (fst r, match snd r with sent_bytes _ => true | send_error => false end).

Definition run_action (a : web_action) (w : web_world) : option web_world :=
  match a with
  | act_send mask buffer op callback => r ← submit (mk_message mask buffer op callback) w; Some (fst r)
  | act_close callback => r ← send_close callback w; Some (fst r)
  | act_next => Some (web_next w)
  end.
Fixpoint run_actions (acts : list web_action) (w : web_world) : option web_world :=
  match acts with [] => Some w | a :: acts => w ← run_action a w; run_actions acts w end.
End Calls.

(** A callback is called within the call that leads to it, and so is [dequeue]: the depth of the calls is the fuel. *)
Fixpoint run_callback (fuel : nat) (callback : web_callback) (w : web_world) : option web_world :=
  match fuel with
  | O => None
  | S f =>
      match callback with
      | no_callback => Some (note_told callback w)
      | call_next => Some (web_next (note_told callback w))
      | call_user _ does => run_actions (run_callback f) (dequeue f) does (note_told callback w)
      end
  end
with dequeue (fuel : nat) (w : web_world) : option web_world :=
  match fuel with O => None | S f => dequeue_next (run_callback f) (dequeue f) w end.

(** What a callback can lead to, and what waits in the queue: the fuel. *)
Fixpoint callback_size (c : web_callback) : nat :=
  match c with
  | no_callback | call_next => 1
  | call_user _ does => S (list_sum (map action_size does))
  end
with action_size (a : web_action) : nat :=
  match a with act_send _ _ _ c | act_close c => S (callback_size c) | act_next => 1 end.
Definition message_size (m : message) : nat := S (callback_size (msg_callback m)).
Definition queue_size (w : web_world) : nat := list_sum (map message_size (messages (frame w))).

Definition frame_send (m : message) (w : web_world) : option (web_world * send_result) :=
  let f := S (message_size m + queue_size w) in submit (run_callback f) (dequeue f) m w.
Definition frame_send_close (callback : web_callback) (w : web_world) : option (web_world * bool) :=
  let f := S (S (callback_size callback) + queue_size w) in send_close (run_callback f) (dequeue f) callback w.
Definition frame_actions (acts : list web_action) (w : web_world) : option web_world :=
  let f := S (list_sum (map action_size acts) + queue_size w) in run_actions (run_callback f) (dequeue f) acts w.
Definition frame_call (callback : web_callback) (w : web_world) : option web_world :=
  run_callback (S (callback_size callback + queue_size w)) callback (note_ask callback w).

(** ** Receiving *)

(** The inner loop of [update]: whether the stream waits or failed, and what the codec has got. *)
Fixpoint read_all (codec : web_codec) (incoming : list ws_read) : option (web_codec * bool * list ws_read) :=
  match incoming with
  | [] => Some (codec, true, [])
  | read_waits :: rest => Some (codec, true, rest)
  | read_fails :: rest => Some (codec, false, rest)
  | read_bytes bytes :: rest => '(codec, _) ← parse_frame codec bytes; read_all codec rest
  end.
Definition hand_over (r : receiver) (op : web_socket_op) (data : list Z) (w : web_world) : option (web_world * bool) :=
  let '(acts, handled) := r op data in
  w ← frame_actions acts (ww_delivered (delivered w ++ [(op, data)]) w); Some (w, handled).

Definition update_close (w : web_world) : option web_world :=
  let f := frame w in
  let w := if bool_decide (tunneling f = tunnel_gone) then w else wf_tunneling tunnel_closing w in
  match before_disconnect f, disconnect f with
  | no_callback, no_callback =>
      let successful := bool_decide (tunneling (frame w) = tunnel_closing) in
      let w := wf_active false (wf_tunneling tunnel_gone w) in
      Some (ww_closes (closes w ++ [successful]) w)
  | no_callback, callback => frame_call callback (wf_receive None (wf_disconnect no_callback w))
  | callback, _ => frame_call callback (wf_before_disconnect no_callback w)
  end.
(** A frame that was got: [None] is [goto retry]. *)
Definition update_frame (op : web_socket_op) (data : list Z) (w : web_world) : option (option web_world) :=
  match op with
  | op_text | op_binary =>
      match receive (frame w) with
      | None => Some (Some w)
      | Some r => '(w, handled) ← hand_over r op data w; Some (Some (if (handled : bool) then w else web_next w))
      end
  | op_ping =>
      '(w, handled) ← match receive (frame w) with None => Some (w, false) | Some r => hand_over r op [] w end;
      if (handled : bool) then Some (Some w) else r ← frame_send (mk_message 0 [] op_pong call_next) w; Some (Some (fst r))
  | op_close =>
      '(w, handled) ← match receive (frame w) with None => Some (w, false) | Some r => hand_over r op [] w end;
      if (handled : bool) then Some (Some w) else r ← frame_send_close call_next w; Some (Some (fst r))
  | _ =>
      match receive (frame w) with
      | None => Some None
      | Some r => '(w, handled) ← hand_over r op [] w; Some (Some (if (handled : bool) then w else web_next w))
      end
  end.

Section Update.
(** [lifetime.dead]: whether it is there and what it says. *)
Context (dead : web_world -> bool).

(** A pass of [update] to its end or to [goto retry]. *)
Definition update_pass (w : web_world) : option (web_world * bool) :=
  let f := frame w in
  if bool_decide (ws_state f = ws_close) || negb (bool_decide (tunneling f = tunnel_healthy)) then w ← update_close w; Some (w, true)
  else match ws_state f with
  | ws_receive => if dead w then Some (web_finalize w, false) else Some (ww_awaits_read true w, true)
  | ws_process =>
      '(codec, waits, rest) ← read_all (ws_codec f) (incoming w);
      let w := wf_ws_codec codec (ww_incoming rest w) in
      if (waits : bool) then
        let w := wf_ws_state ws_receive w in
        let '(codec, got) := get_frame (ws_codec (frame w)) in
        let w := wf_ws_codec codec w in
        match got with
        | None => Some (w, false)
        | Some (op, data) =>
            let w := wf_ws_state ws_process w in
            r ← update_frame op data w;
            match r with Some w => Some (w, true) | None => Some (w, false) end
        end
      else Some (web_finalize w, false)
  | ws_open =>
      match connect f, receive f, disconnect f with
      | no_callback, None, no_callback => r ← frame_send_close call_next w; Some (fst r, true)
      | no_callback, _, _ => Some (wf_ws_state ws_receive w, false)
      | callback, _, _ => w ← frame_call callback (wf_connect no_callback (wf_ws_state ws_receive w)); Some (w, true)
      end
  | ws_close => Some (w, true)
  end.
Fixpoint update_loop (fuel : nat) (w : web_world) : option web_world :=
  match fuel with
  | O => None
  | S f => '(w, over) ← update_pass w; if (over : bool) then Some w else update_loop f w
  end.
(** A pass that is not the last takes a frame from the codec or leaves the state it found; and the codec makes at most as many frames as
    its own loop has rounds. *)
Definition read_size (r : ws_read) : nat := match r with read_bytes bytes => 2 * S (length bytes) | _ => 0 end.
Definition reads_size (incoming : list ws_read) : nat := list_sum (map read_size incoming).
Definition web_update (w : web_world) : option web_world :=
  update_loop (4 + length (queue (ws_codec (frame w))) + reads_size (incoming w)) w.

(** ** The events of a connection *)

(** A call of the user, a task of the scheduler, the event of a waiting read, with what the socket yields next, and of a waiting write. *)
Inductive web_event :=
  | do_call (a : web_action)
  | do_update
  | do_readable (event : ws_event) (yields : list ws_read)
  | do_writeable (event : ws_event) (takes : list ws_write).

Definition readable (event : ws_event) (yields : list ws_read) (w : web_world) : web_world :=
  let w := ww_incoming (incoming w ++ yields) (ww_awaits_read false w) in
  match event with
  | event_done => web_next (wf_ws_state ws_process w)
  | event_error => web_next (wf_ws_state ws_close w)
  | event_skip => w
  end.
(** The write that waited goes on, or what waits for it is called. *)
Definition writeable (event : ws_event) (takes : list ws_write) (w : web_world) : option web_world :=
  match awaiting w with
  | None => Some w
  | Some (data, step) =>
      let w := ww_outcomes (outcomes w ++ takes) (ww_awaiting None w) in
      let size := match step with after_header _ c | after_payload c => callback_size c end in
      let f := S (S size + queue_size w) in
      match event with
      | event_done => r ← stream_write data step (written (run_callback f) (dequeue f) step) w; Some (fst r)
      | _ => written (run_callback f) (dequeue f) step event w
      end
  end.
Definition web_event_step (e : web_event) (w : web_world) : option web_world :=
  match e with
  | do_call a => frame_actions [a] w
  | do_update => match updates w with O => Some w | S n => web_update (ww_updates n w) end
  | do_readable event yields => if awaits_read w then Some (readable event yields w) else Some w
  | do_writeable event takes => writeable event takes w
  end.
Fixpoint web_events (es : list web_event) (w : web_world) : option web_world :=
  match es with [] => Some w | e :: es => w ← web_event_step e w; web_events es w end.
End Update.

(** A frame as it is made for a connection, with what its user set. *)
Definition new_world (codec : web_codec) (connect before_disconnect disconnect : web_callback) (receive : option receiver) : web_world :=
  let f := new_web_socket_frame codec in
  mk_web_world (mk_frame (messages f) (ws_codec f) (ws_state f) (tunneling f) (active f) (deadly f) (busy f) connect before_disconnect disconnect receive)
    [] None [] [] false 0 [] [] [] [] [] [].
