(* ===== verification/WebSocketFacts.v ===== *)
(** * WebSocket connections: the calls end, and what they keep

    [run_callback] and [dequeue] call each other through [send]: the depth is bounded by the callbacks and messages at hand.  The
    invariant [ws_good] says where every callback and every byte of a message is; it is kept by each operation of the sending side. *)
From S2P Require Import Prelude Codec WebCodec WebSocket.
From stdpp Require Import list.
Open Scope Z_scope.

(** ** The fuel is enough *)
Lemma queue_size_app ms m : list_sum (map message_size (ms ++ [m])) = (list_sum (map message_size ms) + message_size m)%nat.
Proof. rewrite map_app, list_sum_app. cbn [map list_sum fold_right]. lia. Qed.

Section Ends.
Context (call : web_callback -> web_world -> option web_world) (deq : web_world -> option web_world) (n : nat).
(** It returns, and no more is queued than what was at hand. *)
Definition ends (k : nat) (w : web_world) (r : option web_world) : Prop := exists w', r = Some w' /\ (queue_size w' <= k + queue_size w)%nat.
Context (Call : forall c w, (callback_size c + queue_size w < n)%nat -> ends (callback_size c) w (call c w)).
Context (Deq : forall w, (queue_size w < n)%nat -> ends 0 w (deq w)).

Lemma finish_ends c w : (callback_size c + queue_size w < n)%nat -> ends (callback_size c) w (finish_message call deq c w).
Proof.
  intros L. unfold finish_message. destruct (Call c (wf_busy false w) L) as (w1 & -> & L1). cbn [mbind option_bind].
  change (queue_size (wf_busy false w)) with (queue_size w) in L1. destruct (is_ignore w); [now exists w1|].
  destruct (Deq w1 ltac:(lia)) as (w2 & -> & L2). exists w2. split; [reflexivity|lia].
Qed.
Lemma stream_write_ends data step run w k : (forall e w, (k + queue_size w < n)%nat -> ends k w (run e w)) -> (k + queue_size w < n)%nat ->
  exists w' r, stream_write data step run w = Some (w', r) /\ (queue_size w' <= k + queue_size w)%nat.
Proof.
  intros Run L. unfold stream_write. destruct (outcomes w) as [|[|t|t] os]; [do 2 eexists; split; [reflexivity|exact (Nat.le_add_l _ _)]| | |].
  - destruct (Run event_done (ww_wire (wire w ++ data) (ww_outcomes os w)) L) as (w1 & -> & L1). do 2 eexists. split; [reflexivity|exact L1].
  - destruct (_ <=? _)%nat; [|do 2 eexists; split; [reflexivity|exact (Nat.le_add_l _ _)]].
    destruct (Run event_done (ww_wire (wire w ++ data) (ww_outcomes os w)) L) as (w1 & -> & L1). do 2 eexists. split; [reflexivity|exact L1].
  - destruct (Run event_error (ww_wire (wire w ++ firstn t data) (ww_outcomes os w)) L) as (w1 & -> & L1). do 2 eexists. split; [reflexivity|exact L1].
Qed.
Lemma lose_ends c w : (callback_size c + queue_size w < n)%nat -> ends (callback_size c) w (lose_message call c w).
Proof. exact (Call c (wf_busy false (wf_tunneling tunnel_gone w))). Qed.
Lemma payload_ends c e w : (callback_size c + queue_size w < n)%nat -> ends (callback_size c) w (payload_written call deq c e w).
Proof. destruct e; [apply finish_ends|apply lose_ends|apply finish_ends]. Qed.
Definition step_callback (s : write_step) : web_callback := match s with after_header _ c | after_payload c => c end.
Lemma written_ends s e w : (callback_size (step_callback s) + queue_size w < n)%nat -> ends (callback_size (step_callback s)) w (written call deq s e w).
Proof.
  destruct s as [copy c|c]; [|apply payload_ends]. intros L. cbn [written step_callback] in *. destruct e; [|now apply lose_ends|now apply finish_ends].
  cbn [header_written]. destruct copy as [|b copy]; [now apply finish_ends|].
  destruct (stream_write_ends (b :: copy) (after_payload c) (payload_written call deq c) w (callback_size c)) as (w' & r & -> & L'); [|exact L|now exists w'].
  intros e w0. apply payload_ends.
Qed.
Lemma send_ends m w : (callback_size (msg_callback m) + queue_size w < n)%nat ->
  exists w' r, web_send call deq m w = Some (w', r) /\ (queue_size w' <= message_size m + queue_size w)%nat.
Proof.
  intros L. unfold web_send, enqueue. destruct (is_writeable w).
  - destruct (stream_write_ends (send_header (msg_mask m) (Z.of_nat (length (msg_buffer m))) (msg_opcode m)) (after_header (msg_buffer m) (msg_callback m))
      (written call deq (after_header (msg_buffer m) (msg_callback m))) (ww_begun_messages (begun_messages w ++ [m]) (wf_busy true w)) (callback_size (msg_callback m)))
      as (w' & r & -> & L'); [intros e w0 L0; now apply written_ends|exact L|]. exists w', r. split; [reflexivity|].
    change (queue_size (ww_begun_messages _ _)) with (queue_size w) in L'. unfold message_size. lia.
  - do 2 eexists. split; [reflexivity|]. unfold queue_size. cbn [frame wf_messages ww_frame messages]. rewrite queue_size_app. lia.
Qed.
Lemma dequeue_next_ends w : (queue_size w <= n)%nat -> ends 0 w (dequeue_next call deq w).
Proof.
  intros L. unfold dequeue_next. destruct (is_writeable w); cbn [negb]; [|exists w; split; [reflexivity|lia]].
  destruct (messages (frame w)) as [|m rest] eqn:E; [exists w; split; [reflexivity|lia]|].
  assert (Q : queue_size w = (message_size m + queue_size (wf_messages rest w))%nat) by (unfold queue_size; rewrite E; reflexivity).
  destruct (send_ends m (wf_messages rest w)) as (w' & r & -> & L'); [unfold message_size in *; lia|]. exists w'. split; [reflexivity|lia].
Qed.
Lemma submit_ends m w : (message_size m + queue_size w <= n)%nat ->
  exists w' r, submit call deq m w = Some (w', r) /\ (queue_size w' <= message_size m + queue_size w)%nat.
Proof. intros L. apply (send_ends m (note_send m w)). change (queue_size (note_send m w)) with (queue_size w). unfold message_size in L. lia. Qed.
Lemma finalize_size w : queue_size (web_finalize w) = queue_size w.
Proof. unfold web_finalize. now destruct (bool_decide _). Qed.
Lemma send_close_ends c w : (S (callback_size c) + queue_size w <= n)%nat ->
  exists w' r, send_close call deq c w = Some (w', r) /\ (queue_size w' <= S (callback_size c) + queue_size w)%nat.
Proof.
  intros L. assert (T : exists w', call c (note_ask c w) = Some w' /\ (queue_size w' <= callback_size c + queue_size w)%nat).
  { destruct (Call c (note_ask c w)) as (w' & E & L'); [change (queue_size (note_ask c w)) with (queue_size w); lia|]. now exists w'. }
  destruct T as (w1 & E & L1). unfold send_close. rewrite E. cbn [mbind option_bind].
  destruct (deadly (frame w)); [do 2 eexists; split; [reflexivity|lia]|]. destruct (_ || _); [do 2 eexists; split; [reflexivity|lia]|].
  destruct (negb _); [do 2 eexists; split; [reflexivity|lia]|].
  destruct (submit_ends (mk_message 0 [] op_close c) (web_finalize w)) as (w' & r & -> & L'); [rewrite finalize_size; exact L|].
  rewrite finalize_size in L'. do 2 eexists. split; [reflexivity|exact L'].
Qed.
Lemma action_ends a w : (action_size a + queue_size w <= n)%nat -> ends (action_size a) w (run_action call deq a w).
Proof.
  intros L. destruct a as [mask buffer op c|c|]; cbn [run_action].
  - destruct (submit_ends (mk_message mask buffer op c) w L) as (w' & r & -> & L'). now exists w'.
  - destruct (send_close_ends c w L) as (w' & r & -> & L'). now exists w'.
  - eexists. split; [reflexivity|exact (Nat.le_add_l _ _)].
Qed.
Lemma actions_end acts : forall w, (list_sum (map action_size acts) + queue_size w <= n)%nat ->
  ends (list_sum (map action_size acts)) w (run_actions call deq acts w).
Proof.
  induction acts as [|a acts IH]; intros w L; cbn [map list_sum fold_right run_actions] in *; [exists w; split; [reflexivity|lia]|].
  change (fold_right plus 0%nat) with list_sum in *. destruct (action_ends a w ltac:(lia)) as (w1 & -> & L1). cbn [mbind option_bind].
  destruct (IH w1 ltac:(lia)) as (w2 & -> & L2). exists w2. split; [reflexivity|lia].
Qed.
End Ends.

Lemma calls_end f : (forall c w, (callback_size c + queue_size w < f)%nat -> ends (callback_size c) w (run_callback f c w)) /\
  (forall w, (queue_size w < f)%nat -> ends 0 w (dequeue f w)).
Proof.
  induction f as [|f [Ic Id]]; [split; intros; lia|]. split; [intros c w L|intros w L].
  - destruct c as [| |id does]; cbn [run_callback]; [eexists; split; [reflexivity|exact (Nat.le_add_l _ _)]..|].
    cbn [callback_size] in L |- *. destruct (actions_end (run_callback f) (dequeue f) f Ic Id does (note_told (call_user id does) w)) as (w' & -> & L');
      [change (queue_size (note_told _ w)) with (queue_size w); lia|].
    exists w'. split; [reflexivity|]. change (queue_size (note_told _ w)) with (queue_size w) in L'. lia.
  - cbn [dequeue]. apply (dequeue_next_ends (run_callback f) (dequeue f) f Ic Id). lia.
Qed.

(** ** Where the callbacks and the bytes are *)

(** The bytes of a write that are to come, its own and those of the payload behind it, and its callback. *)
Definition pending_write (x : list Z * write_step) : list Z * web_callback :=
  match x with (data, after_header copy c) => (data ++ copy, c) | (data, after_payload c) => (data, c) end.
Definition pending_bytes (p : option (list Z * web_callback)) : list Z := match p with Some (d, _) => d | None => [] end.
Definition pending_callbacks (p : option (list Z * web_callback)) : list web_callback := match p with Some (_, c) => [c] | None => [] end.
Definition message_frame (m : message) : list Z := send_frame (msg_mask m) (msg_buffer m) (msg_opcode m).

(** [p] is a write that is going on, [cbs] are the callbacks about to be called; [late]: a call of [dequeue] is still to come;
    [whole]: no write was cancelled. *)
Record ws_good (whole late : bool) (p : option (list Z * web_callback)) (cbs : list web_callback) (w : web_world) : Prop := mk_good {
  good_busy : busy (frame w) = bool_decide (is_Some p) || bool_decide (is_Some (awaiting w));
  good_one : is_Some p -> awaiting w = None;
  good_told : asked w ≡ₚ told_callbacks w ++ map msg_callback (messages (frame w)) ++ pending_callbacks (pending_write <$> awaiting w) ++ pending_callbacks p ++ cbs;
  good_wire : whole = true -> tunneling (frame w) <> tunnel_gone ->
    wire w ++ pending_bytes (pending_write <$> awaiting w) ++ pending_bytes p = concat (map message_frame (begun_messages w));
  good_queue : late = false -> messages (frame w) = [] \/ busy (frame w) = true \/ is_ignore w = true }.
Definition ignores (w w' : web_world) : Prop := is_ignore w = true -> is_ignore w' = true.

Lemma good_late whole late p cbs w : ws_good whole false p cbs w -> ws_good whole late p cbs w.
Proof. intros [B O T W Q]. split; auto. Qed.
Lemma good_ignoring whole late late' p cbs w : ws_good whole late p cbs w -> is_ignore w = true -> ws_good whole late' p cbs w.
Proof. intros [B O T W Q] I. split; auto. Qed.
Lemma gone_ignores w : tunneling (frame w) = tunnel_gone -> is_ignore w = true.
Proof. unfold is_ignore. intros ->. apply orb_true_r. Qed.
(** The invariant does not see the rest of the world. *)
Lemma good_same whole late p cbs w w' : ws_good whole late p cbs w ->
  (busy (frame w'), awaiting w', asked w', told_callbacks w', messages (frame w'), wire w', begun_messages w') =
  (busy (frame w), awaiting w, asked w, told_callbacks w, messages (frame w), wire w, begun_messages w) ->
  (tunneling (frame w') <> tunnel_gone -> tunneling (frame w) <> tunnel_gone) -> (late = false -> ignores w w') -> ws_good whole late p cbs w'.
Proof.
  intros [B O T W Q] E G I. injection E as Eb Ea Ek Et Em Ew En. split; rewrite ?Eb, ?Ea, ?Ek, ?Et, ?Em, ?Ew, ?En; auto.
  intros L. specialize (I L). destruct (Q L) as [?|[?|?]]; auto.
Qed.

Section Good.
Context (whole : bool) (call : web_callback -> web_world -> option web_world) (deq : web_world -> option web_world).
Context (Call : forall late c cbs w w', ws_good whole late None (c :: cbs) w -> call c w = Some w' -> ws_good whole late None cbs w' /\ ignores w w').
Context (Deq : forall cbs w w', ws_good whole true None cbs w -> deq w = Some w' -> ws_good whole false None cbs w' /\ ignores w w').

Lemma finish_good late d c cbs w w' : ws_good whole late (Some (d, c)) cbs w -> (whole = true -> d = []) -> finish_message call deq c w = Some w' ->
  ws_good whole false None cbs w' /\ ignores w w'.
Proof.
  intros [B O T W Q] D E. specialize (O ltac:(eauto)). unfold finish_message in E.
  assert (G : ws_good whole true None (c :: cbs) (wf_busy false w)).
  { split; cbn; try discriminate; rewrite O in *; [reflexivity|intros [? ?]; discriminate| |]; cbn in *.
    - exact T.
    - intros Wh N. specialize (W Wh N). rewrite (D Wh) in W. exact W. }
  apply bind_Some in E as (w1 & E1 & E). destruct (Call _ _ _ _ _ G E1) as [G1 I1].
  assert (I1' : ignores w w1) by exact I1. destruct (is_ignore w) eqn:Ig.
  - injection E as <-. split; [eapply good_ignoring; eauto|exact I1'].
  - destruct (Deq _ _ _ G1 E) as [G2 I2]. split; [exact G2|]. unfold ignores in *. auto.
Qed.
Lemma lose_good late d c cbs w w' : ws_good whole late (Some (d, c)) cbs w -> lose_message call c w = Some w' -> ws_good whole false None cbs w' /\ ignores w w'.
Proof.
  intros [B O T W Q] E. specialize (O ltac:(eauto)). unfold lose_message in E. set (w1 := wf_busy false (wf_tunneling tunnel_gone w)) in *.
  assert (G : ws_good whole true None (c :: cbs) w1).
  { split; cbn; try discriminate; rewrite O in *; [reflexivity|intros [? ?]; discriminate|exact T|congruence]. }
  destruct (Call _ _ _ _ _ G E) as [G1 I1]. specialize (I1 (gone_ignores w1 eq_refl)). split; [eapply good_ignoring; eauto|now intros _].
Qed.

Definition event_ok (e : ws_event) (d : list Z) (s : write_step) : Prop :=
  match e with event_done => d = fst (pending_write ([], s)) | event_error => True | event_skip => whole = false end.
Lemma stream_write_good late data s run cbs w w' r : ws_good whole late (Some (pending_write (data, s))) cbs w ->
  (forall e d late w w', ws_good whole late (Some (d, step_callback s)) cbs w -> event_ok e d s -> run e w = Some w' -> ws_good whole false None cbs w' /\ ignores w w') ->
  stream_write data s run w = Some (w', r) -> ws_good whole false None cbs w' /\ ignores w w'.
Proof.
  intros [B O T W Q] Run E. specialize (O ltac:(eauto)). rewrite O in *. cbn in B.
  change (pending_callbacks (pending_write <$> None)) with (@nil web_callback) in T. change (pending_bytes (pending_write <$> None)) with (@nil Z) in W.
  assert (Pc : pending_callbacks (Some (pending_write (data, s))) = [step_callback s]) by now destruct s.
  assert (Pb : forall d1 d2, fst (pending_write (d1 ++ d2, s)) = d1 ++ fst (pending_write (d2, s))) by (destruct s; cbn; intros; now rewrite ?app_assoc).
  assert (Pp : pending_bytes (Some (pending_write (data, s))) = fst (pending_write (data, s))) by (now destruct s). rewrite Pc in T. rewrite Pp in W. clear Pc Pp.
  assert (Done : forall os d1 d2, data = d1 ++ d2 -> ws_good whole late (Some (fst (pending_write (d2, s)), step_callback s)) cbs (ww_wire (wire w ++ d1) (ww_outcomes os w))).
  { intros os d1 d2 Ed. split; cbn; rewrite ?O; auto. intros Wh N. specialize (W Wh N).
    cbn in *. rewrite <- W, Ed, Pb. now rewrite <- app_assoc. }
  assert (Waits : forall os d1 d2, data = d1 ++ d2 -> ws_good whole false None cbs (ww_awaiting (Some (d2, s)) (ww_wire (wire w ++ d1) (ww_outcomes os w)))).
  { intros os d1 d2 Ed. split; cbn; [exact B|intros [? ?]; discriminate| | |].
    - rewrite T. now destruct s.
    - intros Wh N. specialize (W Wh N). cbn in *. rewrite <- W, Ed, Pb, app_nil_r, <- app_assoc. now destruct s.
    - intros _. right. left. exact B. }
  unfold stream_write in E. destruct (outcomes w) as [|[|t|t] os] eqn:Os.
  - injection E as <- <-. split; [|intros I; exact I]. pose proof (Waits [] [] data eq_refl) as G. eapply good_same; [exact G|cbn; now rewrite app_nil_r|auto|intros _ I; exact I].
  - apply bind_Some in E as (w1 & E1 & E). injection E as <- <-. exact (Run event_done _ _ _ _ (Done os data [] (eq_sym (app_nil_r data))) eq_refl E1).
  - destruct (_ <=? _)%nat eqn:Le.
    + apply bind_Some in E as (w1 & E1 & E). injection E as <- <-. exact (Run event_done _ _ _ _ (Done os data [] (eq_sym (app_nil_r data))) eq_refl E1).
    + injection E as <- <-. split; [|intros I; exact I]. apply Waits. symmetry. apply firstn_skipn.
  - apply bind_Some in E as (w1 & E1 & E). injection E as <- <-.
    exact (Run event_error _ _ _ _ (Done os (firstn t data) (skipn t data) (eq_sym (firstn_skipn t data))) I E1).
Qed.
Lemma payload_good late d c e cbs w w' : ws_good whole late (Some (d, c)) cbs w -> event_ok e d (after_payload c) -> payload_written call deq c e w = Some w' ->
  ws_good whole false None cbs w' /\ ignores w w'.
Proof.
  intros G Ok E. destruct e; cbn in Ok, E; [eapply finish_good; eauto|eapply lose_good; eauto|eapply finish_good; eauto; congruence].
Qed.
Lemma written_good late d s e cbs w w' : ws_good whole late (Some (d, step_callback s)) cbs w -> event_ok e d s -> written call deq s e w = Some w' ->
  ws_good whole false None cbs w' /\ ignores w w'.
Proof.
  destruct s as [copy c|c]; [|apply payload_good]. intros G Ok E. cbn [step_callback written] in *. destruct e; cbn in Ok.
  - subst d. cbn [header_written] in E. destruct copy as [|b copy]; [eapply finish_good; eauto|].
    apply bind_Some in E as ([w1 r] & E1 & E). injection E as <-. eapply (stream_write_good late _ (after_payload c)); [exact G| |exact E1].
    intros e d0 l0 w0 w0' G0 Ok0 E0. eapply payload_good; eauto.
  - eapply lose_good; eauto.
  - eapply finish_good; eauto. congruence.
Qed.
Lemma send_good late m cbs w w' r : ws_good whole late None (msg_callback m :: cbs) w -> web_send call deq m w = Some (w', r) ->
  ws_good whole (if is_writeable w then false else late) None cbs w' /\ ignores w w'.
Proof.
  intros [B O T W Q] E. unfold web_send, enqueue in E. destruct (is_writeable w) eqn:Wr.
  - unfold is_writeable in Wr. apply andb_true_iff in Wr as [Nb Na]. apply negb_true_iff in Nb, Na. apply bool_decide_eq_false in Na.
    assert (An : awaiting w = None) by (destruct (awaiting w); [exfalso; eauto|reflexivity]). rewrite An in *. cbn in T, W.
    refine ((fun G => stream_write_good late _ _ _ cbs _ w' r G _ E) _).
    + intros e d l0 w0 w0' G0 Ok0 E0. eapply written_good; eauto.
    + split; cbn; rewrite ?An; auto; try (rewrite T; cbn; now rewrite ?app_nil_r).
      intros Wh N. specialize (W Wh N). cbn in *. rewrite map_app, concat_app, <- W. cbn. now rewrite !app_nil_r.
  - injection E as <- <-. split; [|intros I; exact I]. split; cbn; auto.
    + rewrite T, map_app. cbn. solve_Permutation.
    + intros L. right. destruct (Q L) as [E|[E|E]]; [|now left|now right]. left. unfold is_writeable in Wr. rewrite B in *. cbn in *.
      destruct (bool_decide _); [reflexivity|discriminate].
Qed.
Lemma dequeue_next_good cbs w w' : ws_good whole true None cbs w -> dequeue_next call deq w = Some w' -> ws_good whole false None cbs w' /\ ignores w w'.
Proof.
  intros G E. pose proof G as [B O T W Q]. unfold dequeue_next in E. destruct (is_writeable w) eqn:Wr; cbn [negb] in E.
  - destruct (messages (frame w)) as [|m rest] eqn:Em.
    + injection E as <-. split; [|intros I; exact I]. split; auto. now rewrite Em.
    + apply bind_Some in E as ([w1 r] & E1 & E). injection E as <-.
      assert (G1 : ws_good whole true None (msg_callback m :: cbs) (wf_messages rest w)).
      { split; cbn; auto; [|discriminate]. rewrite T. cbn. solve_Permutation. }
      pose proof (send_good _ _ _ _ _ _ G1 E1) as S. change (is_writeable (wf_messages rest w)) with (is_writeable w) in S. rewrite Wr in S. exact S.
  - injection E as <-. split; [|intros I; exact I]. split; auto. intros _. right. left. unfold is_writeable in Wr. rewrite B in *. cbn in *.
    destruct (bool_decide _); [reflexivity|discriminate].
Qed.
Lemma submit_good late m cbs w w' r : ws_good whole late None cbs w -> submit call deq m w = Some (w', r) -> ws_good whole late None cbs w' /\ ignores w w'.
Proof.
  intros [B O T W Q] E. unfold submit in E. destruct (send_good late m cbs (note_send m w) w' r) as [G I].
  - split; cbn; auto. rewrite T. cbn. solve_Permutation.
  - exact E.
  - split; [|exact I]. destruct (is_writeable _); [now apply good_late|exact G].
Qed.
Lemma finalize_good late p cbs w : ws_good whole late p cbs w -> ws_good whole late p cbs (web_finalize w) /\ ignores w (web_finalize w).
Proof.
  intros G. assert (I : ignores w (web_finalize w)).
  { intros I. unfold web_finalize. destruct (bool_decide (tunneling (frame w) = _)); [|exact I]. unfold is_ignore. cbn. now rewrite orb_true_r. }
  split; [|exact I]. unfold web_finalize in *. destruct (bool_decide _); [|exact G]. eapply good_same; [exact G|reflexivity|auto|now intros _].
Qed.
Lemma send_close_good late c cbs w w' r : ws_good whole late None cbs w -> send_close call deq c w = Some (w', r) -> ws_good whole late None cbs w' /\ ignores w w'.
Proof.
  intros G E. assert (Ask : forall w', call c (note_ask c w) = Some w' -> ws_good whole late None cbs w' /\ ignores w w').
  { intros w1 E1. apply (Call late c cbs (note_ask c w) w1); [|exact E1]. destruct G as [B O T W Q]. split; cbn; auto. rewrite T. cbn. solve_Permutation. }
  unfold send_close in E. destruct (deadly (frame w)); [|destruct (_ || _); [|destruct (negb _)]].
  1-3: apply bind_Some in E as (w1 & E1 & E); injection E as <- <-; auto.
  apply bind_Some in E as ([w1 r1] & E1 & E). injection E as <- <-. destruct (finalize_good _ _ _ _ G) as [G1 I1].
  destruct (submit_good _ _ _ _ _ _ G1 E1) as [G2 I2]. split; [exact G2|]. unfold ignores in *. auto.
Qed.
Lemma action_good late a cbs w w' : ws_good whole late None cbs w -> run_action call deq a w = Some w' -> ws_good whole late None cbs w' /\ ignores w w'.
Proof.
  intros G E. destruct a as [mask buffer op c|c|]; cbn [run_action] in E.
  - apply bind_Some in E as ([w1 r] & E1 & E). injection E as <-. eapply submit_good; eauto.
  - apply bind_Some in E as ([w1 r] & E1 & E). injection E as <-. eapply send_close_good; eauto.
  - injection E as <-. split; [|intros I; exact I]. eapply good_same; [exact G|reflexivity|auto|intros _ I; exact I].
Qed.
Lemma actions_good acts : forall late cbs w w', ws_good whole late None cbs w -> run_actions call deq acts w = Some w' ->
  ws_good whole late None cbs w' /\ ignores w w'.
Proof.
  induction acts as [|a acts IH]; intros late cbs w w' G E; cbn [run_actions] in E.
  - injection E as <-. split; [exact G|intros I; exact I].
  - apply bind_Some in E as (w1 & E1 & E). destruct (action_good _ _ _ _ _ G E1) as [G1 I1]. destruct (IH _ _ _ _ G1 E) as [G2 I2].
    split; [exact G2|]. unfold ignores in *. auto.
Qed.
End Good.

Lemma calls_good whole f :
  (forall late c cbs w w', ws_good whole late None (c :: cbs) w -> run_callback f c w = Some w' -> ws_good whole late None cbs w' /\ ignores w w') /\
  (forall cbs w w', ws_good whole true None cbs w -> dequeue f w = Some w' -> ws_good whole false None cbs w' /\ ignores w w').
Proof.
  induction f as [|f [Ic Id]]; [split; discriminate|]. split.
  - intros late c cbs w w' [B O T W Q] E.
    assert (G : ws_good whole late None cbs (note_told c w)). { split; cbn; auto. rewrite T. cbn. solve_Permutation. }
    cbn [run_callback] in E. destruct c as [| |id does].
    + injection E as <-. split; [exact G|intros I; exact I].
    + injection E as <-. split; [|intros I; exact I]. eapply good_same; [exact G|reflexivity|auto|intros _ I; exact I].
    + exact (actions_good whole _ _ Ic Id does _ _ _ _ G E).
  - intros cbs w w' G E. exact (dequeue_next_good whole _ _ Ic Id cbs w w' G E).
Qed.

(** ** The passes of [update] *)

Section Update.
Context (whole : bool) (dead : web_world -> bool).
Abbreviation kept late w w' := (ws_good whole late None [] w' /\ ignores w w').
Lemma kept_trans late w w1 w2 : kept late w w1 -> kept late w1 w2 -> kept late w w2.
Proof. unfold ignores. intuition auto. Qed.
Lemma kept_same late w w' : ws_good whole late None [] w ->
  (busy (frame w'), awaiting w', asked w', told_callbacks w', messages (frame w'), wire w', begun_messages w', tunneling (frame w')) =
  (busy (frame w), awaiting w, asked w, told_callbacks w, messages (frame w), wire w, begun_messages w, tunneling (frame w)) ->
  deadly (frame w') = deadly (frame w) -> (ws_state (frame w) = ws_close -> ws_state (frame w') = ws_close) -> kept late w w'.
Proof.
  intros G E D S. injection E as E1 E2 E3 E4 E5 E6 E7 E8. assert (I : ignores w w').
  { unfold ignores, is_ignore. rewrite D, E8, !orb_true_iff, !bool_decide_eq_true. intuition auto. }
  split; [|exact I]. eapply good_same; [exact G|congruence|congruence|now intros _].
Qed.

Lemma frame_actions_good late acts w w' : ws_good whole late None [] w -> frame_actions acts w = Some w' -> kept late w w'.
Proof. intros G E. unfold frame_actions in E. eapply actions_good; [apply calls_good|apply calls_good|exact G|exact E]. Qed.
Lemma frame_send_good late m w w' r : ws_good whole late None [] w -> frame_send m w = Some (w', r) -> kept late w w'.
Proof. intros G E. unfold frame_send in E. eapply submit_good; [apply calls_good|apply calls_good|exact G|exact E]. Qed.
Lemma frame_send_close_good late c w w' r : ws_good whole late None [] w -> frame_send_close c w = Some (w', r) -> kept late w w'.
Proof. intros G E. unfold frame_send_close in E. eapply send_close_good; [apply calls_good|apply calls_good|exact G|exact E]. Qed.
Lemma frame_call_good late c w w' : ws_good whole late None [] w -> frame_call c w = Some w' -> kept late w w'.
Proof.
  intros [B O T W Q] E. apply (proj1 (calls_good whole (S (callback_size c + queue_size w))) late c [] (note_ask c w) w'); [|exact E]. split; cbn; auto. rewrite T. cbn. solve_Permutation.
Qed.
Lemma hand_over_good late r op data w w' h : ws_good whole late None [] w -> hand_over r op data w = Some (w', h) -> kept late w w'.
Proof.
  intros G E. unfold hand_over in E. destruct (r op data) as [acts handled]. apply bind_Some in E as (w1 & E1 & E). injection E as <- <-.
  eapply kept_trans; [|eapply frame_actions_good; [|exact E1]]; [|eapply kept_same]; try eassumption; auto. eapply kept_same; eauto.
Qed.

Lemma update_close_good late w w' : ws_good whole late None [] w -> update_close w = Some w' -> kept late w w'.
Proof.
  intros G E. unfold update_close in E. set (w1 := if bool_decide _ then w else _) in E.
  assert (K1 : kept late w w1).
  { subst w1. destruct (bool_decide_reflect (tunneling (frame w) = tunnel_gone)) as [Go|Go]; [split; [exact G|intros I; exact I]|].
    assert (I : ignores w (wf_tunneling tunnel_closing w)) by (intros _; unfold is_ignore; cbn; apply orb_true_r).
    split; [|exact I]. eapply good_same; [exact G|reflexivity|now intros _|now intros _]. }
  assert (Gone : kept late w1 (ww_closes (closes w1 ++ [bool_decide (tunneling (frame w1) = tunnel_closing)]) (wf_active false (wf_tunneling tunnel_gone w1)))).
  { assert (I : ignores w1 (wf_tunneling tunnel_gone w1)) by (intros _; unfold is_ignore; cbn; apply orb_true_r).
    split; [|exact I]. eapply good_same; [apply K1|reflexivity|intros X; now destruct X|now intros _]. }
  assert (C1 : forall c, frame_call c (wf_receive None (wf_disconnect no_callback w1)) = Some w' -> kept late w w').
  { assert (K2 : kept late w1 (wf_receive None (wf_disconnect no_callback w1))) by (eapply kept_same; [apply K1|reflexivity..|auto]).
    intros c E1. eapply kept_trans; [exact K1|]. eapply kept_trans; [exact K2|]. eapply frame_call_good; [apply K2|exact E1]. }
  assert (C2 : forall c, frame_call c (wf_before_disconnect no_callback w1) = Some w' -> kept late w w').
  { assert (K2 : kept late w1 (wf_before_disconnect no_callback w1)) by (eapply kept_same; [apply K1|reflexivity..|auto]).
    intros c E1. eapply kept_trans; [exact K1|]. eapply kept_trans; [exact K2|]. eapply frame_call_good; [apply K2|exact E1]. }
  destruct (before_disconnect (frame w)), (disconnect (frame w)); eauto.
  injection E as <-. eapply kept_trans; [exact K1|exact Gone].
Qed.
Lemma update_frame_good late op data w r : ws_good whole late None [] w -> update_frame op data w = Some r ->
  match r with Some w' => kept late w w' | None => True end.
Proof.
  intros G E.
  assert (Nx : forall w1 (h : bool), kept late w w1 -> kept late w (if h then w1 else web_next w1)).
  { intros w1 h K. destruct h; [exact K|]. eapply kept_trans; [exact K|]. eapply kept_same; [apply K|reflexivity..|auto]. }
  assert (K0 : kept late w w) by (split; [exact G|intros I; exact I]).
  assert (H : forall o w1 (h : bool), match receive (frame w) with Some r => hand_over r o [] w | None => Some (w, false) end = Some (w1, h) -> kept late w w1).
  { intros o w1 h E1. destruct (receive (frame w)); [eapply hand_over_good; eauto|injection E1 as <- <-; exact K0]. }
  destruct op; cbn [update_frame] in E.
  1,6: destruct (receive (frame w)) as [f|]; [|now injection E as <-]; apply bind_Some in E as ([w1 h] & E1 & E); injection E as <-;
    apply Nx; eapply hand_over_good; eauto.
  1,2: destruct (receive (frame w)) as [f|]; [|now injection E as <-]; apply bind_Some in E as ([w1 h] & E1 & E); injection E as <-;
    apply Nx; eapply hand_over_good; eauto.
  - apply bind_Some in E as ([w1 h] & E1 & E). pose proof (H _ _ _ E1) as K1. destruct h; [now injection E as <-|].
    apply bind_Some in E as ([w2 h2] & E2 & E). injection E as <-. eapply kept_trans; [exact K1|]. eapply frame_send_close_good; [apply K1|exact E2].
  - apply bind_Some in E as ([w1 h] & E1 & E). pose proof (H _ _ _ E1) as K1. destruct h; [now injection E as <-|].
    apply bind_Some in E as ([w2 h2] & E2 & E). injection E as <-. eapply kept_trans; [exact K1|]. eapply frame_send_good; [apply K1|exact E2].
Qed.
Lemma update_pass_good late w w' over : ws_good whole late None [] w -> update_pass dead w = Some (w', over) -> kept late w w'.
Proof.
  intros G E. unfold update_pass in E. destruct (_ || _) eqn:Cl.
  { apply bind_Some in E as (w1 & E1 & E). injection E as <- <-. now apply update_close_good. }
  apply orb_false_iff in Cl as [Nc _]. apply bool_decide_eq_false in Nc.
  assert (St : forall s w1, ws_good whole late None [] w1 -> ws_state (frame w1) <> ws_close -> kept late w1 (wf_ws_state s w1)).
  { intros s w1 G1 N1. eapply kept_same; [exact G1|reflexivity..|congruence]. }
  assert (Same : forall w1 w2, kept late w w1 -> kept late w1 w2 -> kept late w w2) by apply kept_trans.
  assert (K0 : kept late w w) by (split; [exact G|intros I; exact I]).
  destruct (ws_state (frame w)) eqn:Es; [| | |congruence].
  - assert (Call : forall c w', (w1 ← frame_call c (wf_connect no_callback (wf_ws_state ws_receive w)); Some (w1, true)) = Some (w', over) -> kept late w w').
    { intros c w2 E1. apply bind_Some in E1 as (w1 & E1 & E2). injection E2 as <- <-.
      assert (K1 : kept late w (wf_connect no_callback (wf_ws_state ws_receive w))) by (eapply kept_same; [exact G|reflexivity..|congruence]).
      eapply kept_trans; [exact K1|]. eapply frame_call_good; [apply K1|exact E1]. }
    destruct (connect (frame w)); [destruct (receive (frame w)), (disconnect (frame w))| |]; eauto.
    1-3,5-6: injection E as <- <-; apply St; congruence.
    apply bind_Some in E as ([w1 r] & E1 & E). injection E as <- <-. eapply frame_send_close_good; eauto.
  - destruct (dead w); injection E as <- <-; [apply finalize_good; exact G|eapply kept_same; [exact G|reflexivity..|auto]].
  - apply bind_Some in E as ([[codec waits] rest] & E1 & E). set (w1 := wf_ws_codec codec (ww_incoming rest w)) in E.
    assert (K1 : kept late w w1) by (eapply kept_same; [exact G|reflexivity..|auto]).
    destruct waits; [|injection E as <- <-; eapply kept_trans; [exact K1|apply finalize_good, K1]].
    destruct (get_frame _) as [c2 got]. set (w2 := wf_ws_codec c2 (wf_ws_state ws_receive w1)) in E.
    assert (K2 : kept late w w2) by (eapply kept_same; [exact G|reflexivity..|congruence]).
    destruct got as [[op data]|]; [|now injection E as <- <-].
    assert (K3 : kept late w (wf_ws_state ws_process w2)) by (eapply kept_same; [exact G|reflexivity..|congruence]).
    apply bind_Some in E as (r & E2 & E). pose proof (update_frame_good _ _ _ _ _ (proj1 K3) E2) as K4.
    destruct r as [w3|]; injection E as <- <-; [eapply kept_trans; [exact K3|exact K4]|exact K3].
Qed.
Lemma update_loop_good late fuel : forall w w', ws_good whole late None [] w -> update_loop dead fuel w = Some w' -> kept late w w'.
Proof.
  induction fuel as [|f IH]; intros w w' G E; [discriminate|]. cbn [update_loop] in E. apply bind_Some in E as ([w1 over] & E1 & E).
  pose proof (update_pass_good _ _ _ _ G E1) as K1. destruct over; [now injection E as <-|]. eapply kept_trans; [exact K1|]. apply (IH w1); [apply K1|exact E].
Qed.

(** An event keeps the invariant; data behind a close wakes the connection up, so the last part is only for a connection that is open. *)
Lemma event_good late e w w' : ws_good whole late None [] w -> (late = true \/ is_ignore w = false) ->
  (forall takes, e = do_writeable event_skip takes -> whole = false) -> web_event_step dead e w = Some w' -> ws_good whole late None [] w'.
Proof.
  intros G Op Sk E. destruct e as [a| |ev yields|ev takes]; cbn [web_event_step] in E.
  - eapply frame_actions_good; eauto.
  - destruct (updates w) as [|n]; [now injection E as <-|]. eapply update_loop_good; [|exact E]. eapply kept_same; [exact G|reflexivity..|auto].
  - destruct (awaits_read w); [|now injection E as <-]. injection E as <-. destruct ev; cbn [readable];
      (eapply good_same; [exact G|reflexivity|auto|]); intros L I; destruct Op; congruence.
  - unfold writeable in E. destruct (awaiting w) as [[data step]|] eqn:Aw; [|now injection E as <-]. cbn zeta in E.
    set (f := S _) in E. set (w1 := ww_outcomes _ _) in E. pose proof G as [B O T W Q].
    assert (G1 : ws_good whole late (Some (pending_write (data, step))) [] w1).
    { rewrite Aw in *. split; cbn; auto. intros Wh N. pose proof (W Wh N) as W1. cbn in W1. rewrite app_nil_r in W1. exact W1. }
    destruct (calls_good whole f) as [Cg Dg].
    assert (Wr : forall ev d late w w', ws_good whole late (Some (d, step_callback step)) [] w -> event_ok whole ev d step ->
      written (run_callback f) (dequeue f) step ev w = Some w' -> ws_good whole false None [] w' /\ ignores w w').
    { intros ev0 d0 l0 w0 w0' G0 Ok0 E0. eapply written_good; eauto. }
    assert (Ev : forall ev, event_ok whole ev (fst (pending_write (data, step))) step -> written (run_callback f) (dequeue f) step ev w1 = Some w' -> ws_good whole late None [] w').
    { intros ev0 Ok E0. apply good_late. eapply (Wr ev0 _ late w1); [|exact Ok|exact E0]. replace (_, _) with (pending_write (data, step)) by now destruct step. exact G1. }
    destruct ev; [|now apply (Ev event_error)|apply (Ev event_skip); [cbn; eauto|exact E]].
    apply bind_Some in E as ([w2 r] & E1 & E). injection E as <-. apply good_late. eapply stream_write_good; eauto.
Qed.
End Update.

(** ** What sending leaves alone *)

(** A relation between worlds that holds over each single change of the sending side holds over the calls. *)
Section Leaves.
Context (R : web_world -> web_world -> Prop) (Refl : forall w, R w w) (Trans : forall w1 w2 w3, R w1 w2 -> R w2 w3 -> R w1 w3).
Context (Busy : forall x w, R w (wf_busy x w)) (Gone : forall w, R w (wf_tunneling tunnel_gone w)) (Messages : forall x w, R w (wf_messages x w)).
Context (Wire : forall x w, R w (ww_wire x w)) (Outcomes : forall x w, R w (ww_outcomes x w)) (Awaiting : forall x w, R w (ww_awaiting x w)).
Context (Begun : forall x w, R w (ww_begun_messages x w)) (Asked : forall x w, R w (ww_asked x w)) (Accepted : forall x w, R w (ww_accepted x w)).
Context (Told : forall x w, R w (ww_told_callbacks x w)) (Updates : forall x w, R w (ww_updates x w)) (Close : forall w, R w (web_finalize w)).

Section Calls.
Context (call : web_callback -> web_world -> option web_world) (deq : web_world -> option web_world).
Context (Call : forall c w w', call c w = Some w' -> R w w') (Deq : forall w w', deq w = Some w' -> R w w').
Lemma finish_leaves c w w' : finish_message call deq c w = Some w' -> R w w'.
Proof.
  intros E. apply bind_Some in E as (w1 & E1 & E). apply Call in E1. destruct (is_ignore w); [injection E as <-; eauto|].
  apply Deq in E. eauto.
Qed.
Lemma lose_leaves c w w' : lose_message call c w = Some w' -> R w w'.
Proof. intros E. apply Call in E. eauto. Qed.
Lemma stream_write_leaves data s run w w' r : (forall e w w', run e w = Some w' -> R w w') -> stream_write data s run w = Some (w', r) -> R w w'.
Proof.
  intros Run E. unfold stream_write in E. destruct (outcomes w) as [|[|t|t] os].
  - injection E as <- <-. auto.
  - apply bind_Some in E as (w1 & E1 & E). injection E as <- <-. apply Run in E1. eauto.
  - destruct (_ <=? _)%nat; [|injection E as <- <-; eauto]. apply bind_Some in E as (w1 & E1 & E). injection E as <- <-. apply Run in E1. eauto.
  - apply bind_Some in E as (w1 & E1 & E). injection E as <- <-. apply Run in E1. eauto.
Qed.
Lemma payload_leaves c e w w' : payload_written call deq c e w = Some w' -> R w w'.
Proof. destruct e; [apply finish_leaves|apply lose_leaves|apply finish_leaves]. Qed.
Lemma written_leaves s e w w' : written call deq s e w = Some w' -> R w w'.
Proof.
  destruct s as [copy c|c]; [|apply payload_leaves]. destruct e; cbn; [|apply lose_leaves|apply finish_leaves].
  destruct copy as [|b copy]; [apply finish_leaves|]. intros E. apply bind_Some in E as ([w1 r] & E1 & E). injection E as <-.
  eapply stream_write_leaves; [|exact E1]. apply payload_leaves.
Qed.
Lemma send_leaves m w w' r : web_send call deq m w = Some (w', r) -> R w w'.
Proof.
  unfold web_send, enqueue. destruct (is_writeable w); [|intros E; injection E as <- <-; auto]. intros E.
  apply stream_write_leaves in E; [eauto|apply written_leaves].
Qed.
Lemma dequeue_next_leaves w w' : dequeue_next call deq w = Some w' -> R w w'.
Proof.
  unfold dequeue_next. destruct (negb _); [intros E; injection E as <-; auto|]. destruct (messages (frame w)); [intros E; injection E as <-; auto|].
  intros E. apply bind_Some in E as ([w1 r] & E1 & E). injection E as <-. apply send_leaves in E1. eauto.
Qed.
Lemma submit_leaves m w w' r : submit call deq m w = Some (w', r) -> R w w'.
Proof. intros E. apply send_leaves in E. unfold note_send, note_ask in E. eauto. Qed.
Lemma send_close_leaves c w w' r : send_close call deq c w = Some (w', r) -> R w w'.
Proof.
  intros E. assert (A : forall w1, call c (note_ask c w) = Some w1 -> R w w1) by (intros w1 E1; apply Call in E1; unfold note_ask in E1; eauto).
  unfold send_close in E. destruct (deadly (frame w)); [|destruct (_ || _); [|destruct (negb _)]].
  1-3: apply bind_Some in E as (w1 & E1 & E); injection E as <- <-; auto.
  apply bind_Some in E as ([w1 r1] & E1 & E). injection E as <- <-. apply submit_leaves in E1. eauto.
Qed.
Lemma actions_leave acts : forall w w', run_actions call deq acts w = Some w' -> R w w'.
Proof.
  induction acts as [|a acts IH]; intros w w' E; cbn [run_actions] in E; [injection E as <-; auto|].
  apply bind_Some in E as (w1 & E1 & E). apply IH in E. refine (Trans _ _ _ _ E). destruct a as [mask buffer op c|c|]; cbn [run_action] in E1.
  - apply bind_Some in E1 as ([w2 r] & E2 & E1). injection E1 as <-. eapply submit_leaves; eauto.
  - apply bind_Some in E1 as ([w2 r] & E2 & E1). injection E1 as <-. eapply send_close_leaves; eauto.
  - injection E1 as <-. apply Updates.
Qed.
End Calls.
Lemma calls_leave f : (forall c w w', run_callback f c w = Some w' -> R w w') /\ (forall w w', dequeue f w = Some w' -> R w w').
Proof.
  induction f as [|f [Ic Id]]; [split; discriminate|]. split.
  - intros c w w' E. cbn [run_callback] in E. destruct c as [| |id does].
    + injection E as <-. apply Told.
    + injection E as <-. refine (Trans _ _ _ (Told _ w) (Updates _ _)).
    + apply (actions_leave _ _ Ic Id) in E. refine (Trans _ _ _ (Told _ w) E).
  - intros w w' E. exact (dequeue_next_leaves _ _ Ic Id w w' E).
Qed.
Lemma frame_actions_leave acts w w' : frame_actions acts w = Some w' -> R w w'.
Proof. apply actions_leave; apply calls_leave. Qed.
Lemma frame_send_leaves m w w' r : frame_send m w = Some (w', r) -> R w w'.
Proof. apply submit_leaves; apply calls_leave. Qed.
Lemma frame_send_close_leaves c w w' r : frame_send_close c w = Some (w', r) -> R w w'.
Proof. apply send_close_leaves; apply calls_leave. Qed.
Lemma frame_call_leaves c w w' : frame_call c w = Some w' -> R w w'.
Proof. intros E. apply (proj1 (calls_leave _)) in E. refine (Trans _ _ _ (Asked _ w) E). Qed.
Lemma writeable_leaves event takes w w' : writeable event takes w = Some w' -> R w w'.
Proof.
  intros E. unfold writeable in E. destruct (awaiting w) as [[data step]|]; [|injection E as <-; auto]. cbn zeta in E. set (f := S _) in E.
  destruct (calls_leave f) as [Cl Dl]. assert (A : R w (ww_outcomes (outcomes w ++ takes) (ww_awaiting None w))) by (refine (Trans _ _ _ (Awaiting None w) (Outcomes _ _))).
  refine (Trans _ _ _ A _). destruct event; [|eapply written_leaves; eauto|eapply written_leaves; eauto].
  apply bind_Some in E as ([w1 r] & E1 & E). injection E as <-. eapply stream_write_leaves; [|exact E1]. eapply written_leaves; eauto.
Qed.
End Leaves.

(** Sending does not touch what is read, who reads it, or the life of the connection; and it opens nothing. *)
Definition reading_side (w : web_world) :=
  (ws_codec (frame w), incoming w, awaits_read w, receive (frame w), delivered w, (active (frame w), deadly (frame w), connect (frame w), before_disconnect (frame w), disconnect (frame w), closes w)).
Definition leaves_reading (w w' : web_world) : Prop := reading_side w' = reading_side w.
Ltac leaves lem := eapply lem; try (intros; unfold leaves_reading, web_finalize; try destruct (bool_decide _); reflexivity);
  [unfold leaves_reading; intros; congruence|eassumption].
