(* ===== verification/WebSocketOrder.v ===== *)
(** * WebSocket connections: the order of the messages

    Where the callbacks of messages do not send themselves, what is handed to [send] is what was begun followed by the queue: the
    messages leave in the order they were sent, as long as the connection is open; and a queue goes out whole when the socket takes the bytes. *)
From S2P Require Import Prelude Codec WebCodec WebSocket WebSocketFacts.
From stdpp Require Import list.
Open Scope Z_scope.

(** A callback that only goes on, and one - or a receiver - whose messages have such callbacks. *)
Definition mute (c : web_callback) : bool :=
  match c with call_user _ does => forallb (fun a => match a with act_next => true | _ => false end) does | _ => true end.
Definition tame_action (a : web_action) : bool := match a with act_send _ _ _ c | act_close c => mute c | act_next => true end.
Definition tame (c : web_callback) : bool := match c with call_user _ does => forallb tame_action does | _ => true end.

Record ordered (w : web_world) : Prop := mk_ordered {
  ord_list : accepted w = begun_messages w ++ messages (frame w);
  ord_busy : is_Some (awaiting w) -> busy (frame w) = true;
  ord_queue : List.Forall (fun m => mute (msg_callback m) = true) (messages (frame w));
  ord_waiting : forall data step, awaiting w = Some (data, step) -> mute (step_callback step) = true;
  ord_user : tame (connect (frame w)) = true /\ tame (before_disconnect (frame w)) = true /\ tame (disconnect (frame w)) = true /\
    (forall r, receive (frame w) = Some r -> forall op data, forallb tame_action (fst (r op data)) = true) }.
(** Nothing waits in the queue without a write under way. *)
Definition settled (w : web_world) : Prop := messages (frame w) = [] \/ busy (frame w) = true.

Definition order_side (w : web_world) :=
  (accepted w, begun_messages w, messages (frame w), awaiting w, connect (frame w), before_disconnect (frame w), disconnect (frame w), receive (frame w)).
Lemma ordered_same w w' : ordered w -> order_side w' = order_side w -> (is_Some (awaiting w') -> busy (frame w') = true) -> ordered w'.
Proof.
  intros [L B Q W U] E B'. unfold order_side in E. injection E as E1 E2 E3 E4 E5 E6 E7 E8. split; rewrite ?E1, ?E2, ?E3, ?E5, ?E6, ?E7, ?E8; auto.
  rewrite E4. exact W.
Qed.
Ltac same_order O := eapply ordered_same; [exact O|reflexivity|cbn; try apply O].

(** A mute callback is noted and may go on; nothing else happens. *)
Definition hushed (w w' : web_world) : Prop := w' = ww_updates (updates w') (ww_told_callbacks (told_callbacks w') w).
Lemma nexts_run call deq does : forallb (fun a => match a with act_next => true | _ => false end) does = true -> forall w,
  exists n, run_actions call deq does w = Some (ww_updates n w).
Proof.
  induction does as [|a does IH]; intros M w; cbn [forallb run_actions] in *; [exists (updates w); now destruct w|].
  destruct a; try discriminate. cbn [run_action mbind option_bind]. destruct (IH M (web_next w)) as (n & ->). now exists n.
Qed.
Lemma mute_call f c w w' : mute c = true -> run_callback f c w = Some w' -> hushed w w'.
Proof.
  intros M E. destruct f as [|f]; [discriminate|]. cbn [run_callback] in E. destruct c as [| |id does].
  - injection E as <-. unfold hushed. now destruct w.
  - injection E as <-. reflexivity.
  - destruct (nexts_run (run_callback f) (dequeue f) does M (note_told (call_user id does) w)) as (n & En). rewrite En in E. injection E as <-. reflexivity.
Qed.
Lemma hushed_ordered w w' : hushed w w' -> ordered w -> ordered w'.
Proof. intros -> O. same_order O. Qed.

(** After a write: in order, and settled or closing; an empty queue stays empty. *)
Definition after_write (w w' : web_world) : Prop := ordered w' /\ (settled w' \/ is_ignore w' = true) /\ (messages (frame w) = [] -> messages (frame w') = []).

Section Order.
Context (f : nat) (Deq : forall w w', ordered w -> awaiting w = None -> dequeue f w = Some w' -> after_write w w').
Abbreviation call := (run_callback f).
Abbreviation deq := (dequeue f).
Lemma finish_order c w w' : mute c = true -> ordered w -> awaiting w = None -> finish_message call deq c w = Some w' -> after_write w w'.
Proof.
  intros M O A E. apply bind_Some in E as (w1 & E1 & E). apply mute_call in E1; [|exact M]. set (w0 := wf_busy false w) in *.
  assert (O0 : ordered w0) by (same_order O; rewrite A; intros [? ?]; discriminate).
  assert (O1 : ordered w1) by exact (hushed_ordered _ _ E1 O0). destruct (is_ignore w) eqn:Ig.
  - injection E as <-. split; [exact O1|]. rewrite E1. split; [right; exact Ig|intros H; exact H].
  - destruct (Deq w1 w' O1) as (Od & S & Em); [rewrite E1; exact A|exact E|]. split; [exact Od|]. split; [exact S|]. intros H. apply Em. rewrite E1. exact H.
Qed.
Lemma lose_order c w w' : mute c = true -> ordered w -> awaiting w = None -> lose_message call c w = Some w' -> after_write w w'.
Proof.
  intros M O A E. apply mute_call in E; [|exact M]. set (w0 := wf_busy false (wf_tunneling tunnel_gone w)) in *.
  assert (O0 : ordered w0) by (same_order O; rewrite A; intros [? ?]; discriminate).
  split; [exact (hushed_ordered _ _ E O0)|]. rewrite E. split; [right; now apply gone_ignores|intros H; exact H].
Qed.
Lemma payload_order c e w w' : mute c = true -> ordered w -> awaiting w = None -> payload_written call deq c e w = Some w' -> after_write w w'.
Proof. destruct e; [apply finish_order|apply lose_order|apply finish_order]. Qed.
Lemma stream_write_order data s run w w' r : mute (step_callback s) = true -> ordered w -> awaiting w = None -> busy (frame w) = true ->
  (forall e w w', ordered w -> awaiting w = None -> busy (frame w) = true -> run e w = Some w' -> after_write w w') -> stream_write data s run w = Some (w', r) -> after_write w w'.
Proof.
  intros M O A B Run E. unfold stream_write in E.
  assert (Wt : forall x os t, after_write w (ww_awaiting (Some (x, s)) (ww_wire t (ww_outcomes os w)))).
  { intros x os t. destruct O as [L Bu Q W U]. split; [split; cbn; auto; intros ? ? E0; now injection E0 as <- <-|]. split; [left; right; exact B|intros H; exact H]. }
  assert (Rn : forall e os t w1, run e (ww_wire t (ww_outcomes os w)) = Some w1 -> after_write w w1).
  { intros e os t w1 E1. apply (Run e (ww_wire t (ww_outcomes os w)) w1); auto. same_order O. }
  destruct (outcomes w) as [|[|t|t] os] eqn:Os.
  - injection E as <- <-. pose proof (Wt data [] (wire w)) as G. replace (ww_wire (wire w) (ww_outcomes [] w)) with w in G; [exact G|]. rewrite <- Os. now destruct w.
  - apply bind_Some in E as (w1 & E1 & E). injection E as <- <-. eauto.
  - destruct (_ <=? _)%nat; [|injection E as <- <-; auto]. apply bind_Some in E as (w1 & E1 & E). injection E as <- <-. eauto.
  - apply bind_Some in E as (w1 & E1 & E). injection E as <- <-. eauto.
Qed.
Lemma written_order s e w w' : mute (step_callback s) = true -> ordered w -> awaiting w = None -> busy (frame w) = true ->
  written call deq s e w = Some w' -> after_write w w'.
Proof.
  destruct s as [copy c|c]; [|intros M O A _; now apply payload_order]. intros M O A B E. cbn [written header_written step_callback] in *.
  destruct e; [|now apply lose_order in E|now apply finish_order in E]. destruct copy as [|b copy]; [now apply finish_order in E|].
  apply bind_Some in E as ([w1 r] & E1 & E). injection E as <-. eapply (stream_write_order (b :: copy) (after_payload c)); eauto.
  intros e w0 w0' O0 A0 _. now apply payload_order.
Qed.
(** A message whose turn it is. *)
Lemma turn_order m w w' r : is_writeable w = true -> accepted w = begun_messages w ++ m :: messages (frame w) -> mute (msg_callback m) = true ->
  List.Forall (fun m => mute (msg_callback m) = true) (messages (frame w)) -> (forall data step, awaiting w = Some (data, step) -> mute (step_callback step) = true) ->
  tame (connect (frame w)) = true /\ tame (before_disconnect (frame w)) = true /\ tame (disconnect (frame w)) = true /\
    (forall r, receive (frame w) = Some r -> forall op data, forallb tame_action (fst (r op data)) = true) ->
  web_send call deq m w = Some (w', r) -> after_write w w'.
Proof.
  intros Wr L M Q W U E. unfold web_send, enqueue in E. rewrite Wr in E. apply andb_true_iff in Wr as [_ A]. apply negb_true_iff, bool_decide_eq_false in A.
  assert (An : awaiting w = None) by (destruct (awaiting w); [exfalso; eauto|reflexivity]).
  set (w1 := ww_begun_messages _ _) in E. assert (O1 : ordered w1) by (split; cbn; auto; now rewrite <- app_assoc).
  apply stream_write_order in E; auto. intros e w0 w0' O0 A0 B0. now apply written_order.
Qed.
Lemma dequeue_next_order w w' : ordered w -> awaiting w = None -> dequeue_next call deq w = Some w' -> after_write w w'.
Proof.
  intros O A E. unfold dequeue_next in E. destruct (is_writeable w) eqn:Wr; cbn [negb] in E.
  - destruct (messages (frame w)) as [|m rest] eqn:Em; [injection E as <-; split; [exact O|]; split; [left; now left|auto]|].
    apply bind_Some in E as ([w1 r] & E1 & E). injection E as <-. pose proof O as [L B Q W U]. rewrite Em in *. inversion_clear Q as [|? ? Mm Qm].
    apply turn_order in E1; auto. destruct E1 as (O1 & S1 & _). split; [exact O1|]. split; [exact S1|]. rewrite Em. discriminate.
  - injection E as <-. split; [exact O|]. split; [|auto]. left. right. unfold is_writeable in Wr. rewrite A in Wr. cbn in Wr. destruct (busy _); [reflexivity|discriminate].
Qed.

(** What a user does on an open connection. *)
Definition in_order (w : web_world) : Prop := ordered w /\ settled w.
Lemma submit_order m w w' r : mute (msg_callback m) = true -> in_order w -> submit call deq m w = Some (w', r) -> in_order w'.
Proof.
  intros M [O S] E. pose proof O as [L B Q W U]. unfold submit in E. destruct (is_writeable w) eqn:Wr.
  - assert (Em : messages (frame w) = []).
    { destruct S as [S|S]; [exact S|]. unfold is_writeable in Wr. rewrite S in Wr. discriminate. }
    apply turn_order in E; auto; [|cbn; rewrite L, Em, app_nil_r; reflexivity]. destruct E as (O1 & _ & E1). split; [exact O1|]. left. apply E1. exact Em.
  - unfold web_send, enqueue in E. change (is_writeable (note_send m w)) with (is_writeable w) in E. rewrite Wr in E. injection E as <- <-.
    assert (Bu : busy (frame w) = true).
    { unfold is_writeable in Wr. destruct (busy (frame w)) eqn:Eb; [reflexivity|]. cbn in Wr. apply negb_false_iff, bool_decide_eq_true in Wr. specialize (B Wr). congruence. }
    split; [|right; exact Bu]. split; cbn; auto.
    + rewrite L. now rewrite app_assoc.
    + apply List.Forall_app. split; [exact Q|constructor; [exact M|constructor]].
Qed.
Lemma mute_in_order c w w' : mute c = true -> in_order w -> call c w = Some w' -> in_order w'.
Proof. intros M [O S] E. apply mute_call in E; [|exact M]. split; [eapply hushed_ordered; eauto|]. rewrite E. exact S. Qed.
Lemma send_close_order c w w' r : mute c = true -> in_order w -> send_close call deq c w = Some (w', r) -> in_order w'.
Proof.
  intros M [O S] E. assert (A : in_order (note_ask c w)) by (split; [same_order O|exact S]).
  unfold send_close in E. destruct (deadly (frame w)); [|destruct (_ || _); [|destruct (negb _)]].
  1-3: apply bind_Some in E as (w1 & E1 & E); injection E as <- <-; eapply mute_in_order; eauto.
  apply bind_Some in E as ([w1 r1] & E1 & E). injection E as <- <-. eapply submit_order; [| |exact E1]; [exact M|].
  unfold web_finalize. destruct (bool_decide _); [|now split]. split; [same_order O|exact S].
Qed.
Lemma actions_order acts : forallb tame_action acts = true -> forall w w', in_order w -> run_actions call deq acts w = Some w' -> in_order w'.
Proof.
  induction acts as [|a acts IH]; intros T w w' I E; cbn [run_actions forallb] in *; [now injection E as <-|].
  apply andb_true_iff in T as [Ta T]. apply bind_Some in E as (w1 & E1 & E). apply (IH T w1); [|exact E]. destruct a as [mask buffer op c|c|]; cbn [run_action] in E1.
  - apply bind_Some in E1 as ([w2 r] & E2 & E1). injection E1 as <-. exact (submit_order (mk_message mask buffer op c) w w2 r Ta I E2).
  - apply bind_Some in E1 as ([w2 r] & E2 & E1). injection E1 as <-. eapply send_close_order; [exact Ta|exact I|exact E2].
  - injection E1 as <-. destruct I as [O S]. split; [same_order O|exact S].
Qed.
End Order.
Lemma dequeue_order f : forall w w', ordered w -> awaiting w = None -> dequeue f w = Some w' -> after_write w w'.
Proof. induction f as [|f IH]; [discriminate|]. intros w w' O A E. exact (dequeue_next_order f IH w w' O A E). Qed.

(** ** Events *)

Definition tame_event (e : web_event) : bool := match e with do_call a => tame_action a | _ => true end.
Lemma frame_actions_order acts w w' : forallb tame_action acts = true -> in_order w -> frame_actions acts w = Some w' -> in_order w'.
Proof. intros T I E. exact (actions_order _ (dequeue_order _) acts T w w' I E). Qed.
Lemma frame_call_order c w w' : tame c = true -> in_order w -> frame_call c w = Some w' -> in_order w'.
Proof.
  intros T [O S] E. unfold frame_call in E. cbn [run_callback] in E. destruct c as [| |id does].
  - injection E as <-. split; [same_order O|exact S].
  - injection E as <-. split; [same_order O|exact S].
  - refine (actions_order _ (dequeue_order _) does T (note_told (call_user id does) (note_ask (call_user id does) w)) w' _ E). split; [same_order O|exact S].
Qed.
Lemma hand_over_order r op data w w' h : (forall op data, forallb tame_action (fst (r op data)) = true) -> in_order w -> hand_over r op data w = Some (w', h) -> in_order w'.
Proof.
  intros T [O S] E. unfold hand_over in E. specialize (T op data). destruct (r op data) as [acts handled]. apply bind_Some in E as (w1 & E1 & E). injection E as <- <-.
  refine (frame_actions_order acts _ _ T _ E1). split; [same_order O|exact S].
Qed.
Lemma update_close_order w w' : in_order w -> update_close w = Some w' -> in_order w'.
Proof.
  intros [O S] E. unfold update_close in E. set (w1 := if bool_decide _ then w else _) in E.
  assert (I1 : in_order w1) by (subst w1; destruct (bool_decide _); [now split|split; [same_order O|exact S]]).
  assert (E1 : order_side w1 = order_side w) by (subst w1; now destruct (bool_decide _)). destruct I1 as [O1 S1]. pose proof (ord_user _ O) as (Tc & Tb & Td & Tr).
  assert (Dc : forall c, tame c = true -> frame_call c (wf_receive None (wf_disconnect no_callback w1)) = Some w' -> in_order w').
  { intros c T. apply frame_call_order; [exact T|]. split; [|exact S1]. destruct O1 as [L B Q W U]. split; cbn; auto. repeat split; try apply U. discriminate. }
  assert (Bc : forall c, tame c = true -> frame_call c (wf_before_disconnect no_callback w1) = Some w' -> in_order w').
  { intros c T. apply frame_call_order; [exact T|]. split; [|exact S1]. destruct O1 as [L B Q W U]. split; cbn; auto. repeat split; apply U. }
  destruct (before_disconnect (frame w)) as [| |i does]; [destruct (disconnect (frame w)) as [| |i does]| |].
  - injection E as <-. split; [same_order O1|exact S1].
  - exact (Dc _ Td E).
  - exact (Dc _ Td E).
  - exact (Bc _ Tb E).
  - exact (Bc _ Tb E).
Qed.
Lemma update_frame_order op data w r : in_order w -> update_frame op data w = Some r -> match r with Some w' => in_order w' | None => True end.
Proof.
  intros I E. pose proof (ord_user _ (proj1 I)) as (_ & _ & _ & Tr).
  assert (Nx : forall w1 (h : bool), in_order w1 -> in_order (if h then w1 else web_next w1)).
  { intros w1 [|] [O S]; [now split|split; [same_order O|exact S]]. }
  assert (H : forall o w1 (h : bool), match receive (frame w) with Some r => hand_over r o [] w | None => Some (w, false) end = Some (w1, h) -> in_order w1).
  { intros o w1 h E1. destruct (receive (frame w)) as [f|]; [eapply (hand_over_order f); eauto|injection E1 as <- <-; exact I]. }
  assert (Go : forall f o d, receive (frame w) = Some f -> ('(w, h) ← hand_over f o d w; Some (Some (if (h : bool) then w else web_next w))) = Some r ->
    match r with Some w' => in_order w' | None => True end).
  { intros f o d Rf E1. apply bind_Some in E1 as ([w1 h] & E1 & E2). injection E2 as <-. apply Nx. eapply (hand_over_order f); eauto. }
  destruct op; cbn [update_frame] in E.
  - destruct (receive (frame w)) as [f|]; [eapply Go; eauto|now injection E as <-].
  - destruct (receive (frame w)) as [f|]; [eapply Go; eauto|now injection E as <-].
  - destruct (receive (frame w)) as [f|]; [eapply Go; eauto|now injection E as <-].
  - apply bind_Some in E as ([w1 h] & E1 & E). pose proof (H _ _ _ E1) as I1. destruct h; [now injection E as <-|].
    apply bind_Some in E as ([w2 h2] & E2 & E). injection E as <-. eapply send_close_order; [apply dequeue_order| |exact I1|exact E2]. reflexivity.
  - apply bind_Some in E as ([w1 h] & E1 & E). pose proof (H _ _ _ E1) as I1. destruct h; [now injection E as <-|].
    apply bind_Some in E as ([w2 h2] & E2 & E). injection E as <-. eapply submit_order; [apply dequeue_order| |exact I1|exact E2]. reflexivity.
  - destruct (receive (frame w)) as [f|]; [eapply Go; eauto|now injection E as <-].
Qed.
Section Events.
Context (dead : web_world -> bool).
Lemma finalize_order w : in_order w -> in_order (web_finalize w).
Proof. intros [O S]. unfold web_finalize. destruct (bool_decide _); [|now split]. split; [same_order O|exact S]. Qed.
Lemma update_pass_order w w' over : in_order w -> update_pass dead w = Some (w', over) -> in_order w'.
Proof.
  intros I E. pose proof I as [O S]. unfold update_pass in E. destruct (_ || _).
  { apply bind_Some in E as (w1 & E1 & E). injection E as <- <-. eapply update_close_order; eauto. }
  pose proof (ord_user _ O) as (Tc & Tb & Td & Tr). destruct (ws_state (frame w)).
  - assert (Call : forall c w', tame c = true -> (w1 ← frame_call c (wf_connect no_callback (wf_ws_state ws_receive w)); Some (w1, true)) = Some (w', over) -> in_order w').
    { intros c w2 T E1. apply bind_Some in E1 as (w1 & E1 & E2). injection E2 as <- <-. refine (frame_call_order _ _ _ T _ E1).
      split; [|exact S]. destruct O as [L B Q W U]. split; cbn; auto. }
    assert (Rc : in_order (wf_ws_state ws_receive w)) by (split; [same_order O|exact S]).
    destruct (connect (frame w)) as [| |i does]; [|exact (Call _ _ Tc E)|exact (Call _ _ Tc E)]. destruct (receive (frame w)) as [rf|]; [injection E as <- <-; exact Rc|].
    destruct (disconnect (frame w)); [|injection E as <- <-; exact Rc|injection E as <- <-; exact Rc]. apply bind_Some in E as ([w1 r] & E1 & E). injection E as <- <-. eapply send_close_order; [apply dequeue_order| |exact I|exact E1]. reflexivity.
  - destruct (dead w); injection E as <- <-; [now apply finalize_order|split; [same_order O|exact S]].
  - apply bind_Some in E as ([[codec waits] rest] & E1 & E). set (w1 := wf_ws_codec codec (ww_incoming rest w)) in E.
    assert (I1 : in_order w1) by (split; [same_order O|exact S]). destruct waits; [|injection E as <- <-; now apply finalize_order].
    destruct (get_frame _) as [c2 got]. set (w2 := wf_ws_codec c2 (wf_ws_state ws_receive w1)) in E.
    assert (I2 : in_order w2) by (split; [same_order O|exact S]). assert (I3 : in_order (wf_ws_state ws_process w2)) by (split; [same_order O|exact S]).
    destruct got as [[op data]|]; [|now injection E as <- <-].
    apply bind_Some in E as (r & E2 & E). pose proof (update_frame_order _ _ _ _ I3 E2) as I4. destruct r as [w3|]; now injection E as <- <-.
  - now injection E as <- <-.
Qed.
Lemma update_loop_order fuel : forall w w', in_order w -> update_loop dead fuel w = Some w' -> in_order w'.
Proof.
  induction fuel as [|f IH]; intros w w' I E; [discriminate|]. cbn [update_loop] in E. apply bind_Some in E as ([w1 over] & E1 & E).
  pose proof (update_pass_order _ _ _ I E1) as I1. destruct over; [now injection E as <-|eauto].
Qed.
Lemma event_order e w w' : tame_event e = true -> in_order w -> web_event_step dead e w = Some w' -> ordered w' /\ (settled w' \/ is_ignore w' = true).
Proof.
  intros T I E. pose proof I as [O Se]. assert (Ok : forall w1, in_order w1 -> ordered w1 /\ (settled w1 \/ is_ignore w1 = true)) by (intros w1 [? ?]; auto).
  destruct e as [a| |ev yields|ev takes]; cbn [web_event_step tame_event] in *.
  - apply Ok. refine (frame_actions_order [a] w w' _ I E). cbn. now rewrite T.
  - apply Ok. destruct (updates w) as [|n]; [now injection E as <-|]. refine (update_loop_order _ _ _ _ E). split; [same_order O|exact Se].
  - apply Ok. destruct (awaits_read w); injection E as <-; [|exact I]. split; [destruct ev; same_order O|destruct ev; exact Se].
  - unfold writeable in E. destruct (awaiting w) as [[data step]|] eqn:Aw; [|injection E as <-; now apply Ok]. cbn zeta in E. set (f := S _) in E. set (w1 := ww_outcomes _ _) in E.
    assert (M : mute (step_callback step) = true) by exact (ord_waiting _ O _ _ Aw). assert (B : busy (frame w1) = true) by (apply (ord_busy _ O); rewrite Aw; eauto).
    assert (O1 : ordered w1). { destruct O as [L Bu Q W U]. split; cbn; auto; discriminate. }
    assert (A : after_write w1 w'); [|now destruct A as (? & ? & _)].
    destruct ev; [|eapply written_order; eauto using dequeue_order|eapply written_order; eauto using dequeue_order].
    apply bind_Some in E as ([w2 r] & E1 & E). injection E as <-. eapply stream_write_order; eauto using dequeue_order.
    intros e w0 w0' O0 A0 B0. eapply written_order; eauto using dequeue_order.
Qed.
End Events.

(** ** A queue that goes out *)

(** The connection is open, nothing is under way and the socket takes the next writes. *)
Definition goes_out (takes : nat) (w : web_world) : Prop := awaiting w = None /\ is_ignore w = false /\ outcomes w = repeat write_all takes.
(** What is left when [sent] and the messages [ms] went out. *)
Definition went_out (sent : list Z) (ms : list message) (w w' : web_world) : Prop :=
  messages (frame w') = [] /\ awaiting w' = None /\ is_ignore w' = false /\ begun_messages w' = begun_messages w ++ ms /\ wire w' = wire w ++ sent ++ concat (map message_frame ms).
Lemma hushed_side w w' : hushed w w' -> (messages (frame w'), awaiting w', begun_messages w', wire w', is_ignore w', outcomes w', busy (frame w')) =
  (messages (frame w), awaiting w, begun_messages w, wire w, is_ignore w, outcomes w, busy (frame w)).
Proof. now intros ->. Qed.

(** A message whose callback does not send is followed by the next one of the queue, as long as the socket takes the bytes. *)
Section Drain.
Context (f : nat) (ms : list message)
  (Deq : forall w w' n, messages (frame w) = ms -> goes_out (2 * length ms + n) w -> busy (frame w) = false -> dequeue f w = Some w' -> went_out [] ms w w').
Abbreviation call := (run_callback f).
Abbreviation deq := (dequeue f).
Lemma finish_drains c w w' n : messages (frame w) = ms -> goes_out (2 * length ms + n) w -> mute c = true -> finish_message call deq c w = Some w' -> went_out [] ms w w'.
Proof.
  intros Em (A & I & O) M E. unfold finish_message in E. rewrite I in E. apply bind_Some in E as (w1 & E1 & E). apply (mute_call f c _ _ M), hushed_side in E1.
  injection E1 as Em1 A1 B1 W1 I1 O1 S1. apply (Deq w1 w' n) in E; [|now rewrite Em1|unfold goes_out; now rewrite A1, I1, O1|exact S1].
  unfold went_out in *. now rewrite B1, W1 in E.
Qed.
(** A step of a write with everything behind it. *)
Definition step_rest (step : write_step) : list Z := match step with after_header copy _ => copy | after_payload _ => [] end.
Lemma write_drains data step w w' r n : messages (frame w) = ms -> goes_out (2 + 2 * length ms + n) w -> mute (step_callback step) = true ->
  stream_write data step (written call deq step) w = Some (w', r) -> went_out (data ++ step_rest step) ms w w'.
Proof.
  assert (Last : forall data c w w' r n, messages (frame w) = ms -> goes_out (1 + 2 * length ms + n) w -> mute c = true ->
    stream_write data (after_payload c) (payload_written call deq c) w = Some (w', r) -> went_out data ms w w').
  { clear data step w w' r n. intros data c w w' r n Em (A & I & O) M E. unfold stream_write in E. rewrite O in E. cbn [repeat Nat.add] in E. apply bind_Some in E as (w1 & E & [= -> _]).
    apply (finish_drains c _ _ n) in E as (H1 & H2 & H3 & H4 & H5); [|exact Em|split; [exact A|split; [exact I|reflexivity]]|exact M].
    unfold went_out. cbn in H4, H5. rewrite H5, <- app_assoc. auto. }
  intros Em G M E. destruct step as [copy c|c]; cbn [step_rest step_callback] in *; [|rewrite app_nil_r; apply (Last data c w w' r (1 + n)%nat Em); [now replace (1 + _ + _)%nat with (2 + 2 * length ms + n)%nat by lia|exact M|exact E]].
  destruct G as (A & I & O). unfold stream_write in E. rewrite O in E. cbn [repeat Nat.add] in E. apply bind_Some in E as (w1 & E & [= -> _]). cbn [written header_written] in E.
  destruct copy as [|x copy].
  - apply (finish_drains c _ _ (S n)) in E as (H1 & H2 & H3 & H4 & H5); [|exact Em|split; [exact A|split; [exact I|change (repeat write_all (S (2 * length ms + n)) = repeat write_all (2 * length ms + S n)); f_equal; lia]]|exact M].
    unfold went_out. cbn in H4, H5. rewrite H5, app_nil_r, <- app_assoc. auto.
  - apply bind_Some in E as ([w2 r2] & E & [= ->]). apply (Last _ _ _ _ _ n) in E as (H1 & H2 & H3 & H4 & H5); [|exact Em|split; [exact A|split; [exact I|reflexivity]]|exact M].
    unfold went_out. cbn in H4. rewrite H5. cbn [wire ww_wire]. rewrite <- !app_assoc. auto.
Qed.
End Drain.
Lemma dequeue_drains f : forall ms w w' n, List.Forall (fun m => mute (msg_callback m) = true) ms -> messages (frame w) = ms -> goes_out (2 * length ms + n) w -> busy (frame w) = false ->
  dequeue f w = Some w' -> went_out [] ms w w'.
Proof.
  induction f as [|f IH]; [discriminate|]. intros ms w w' n F Em (A & I & O) S E. cbn [dequeue] in E. unfold dequeue_next, is_writeable in E. rewrite S, A in E.
  rewrite bool_decide_eq_false_2 in E by (intros [? ?]; discriminate). cbn [negb andb] in E. rewrite Em in E. destruct ms as [|m ms].
  - injection E as <-. split; [exact Em|]. split; [exact A|]. split; [exact I|]. cbn. now rewrite !app_nil_r.
  - apply List.Forall_cons_iff in F as [Fm F]. apply bind_Some in E as ([w1 r] & E & [= ->]). unfold web_send, enqueue, is_writeable in E. cbn in E. rewrite S, A in E.
    rewrite bool_decide_eq_false_2 in E by (intros [? ?]; discriminate). cbn [negb andb] in E.
    change (header_written _ _ _ _) with (written (run_callback f) (dequeue f) (after_header (msg_buffer m) (msg_callback m))) in E.
    apply (write_drains f ms (fun w w' n => IH ms w w' n F) _ _ _ _ _ n) in E as (H1 & H2 & H3 & H4 & H5);
      [|reflexivity|split; [exact A|split; [exact I|change (outcomes w = repeat write_all (2 + 2 * length ms + n)); rewrite O; f_equal; cbn [length]; lia]]|exact Fm].
    unfold went_out. rewrite H4, H5. cbn [map concat begun_messages wire step_rest app message_frame]. cbn. unfold message_frame, send_frame. rewrite <- !app_assoc. auto.
Qed.
(** The write that waits goes on, and the queue behind it goes out. *)
Lemma writeable_drains data step takes w w' n : awaiting w = Some (data, step) -> is_ignore w = false -> mute (step_callback step) = true ->
  List.Forall (fun m => mute (msg_callback m) = true) (messages (frame w)) -> outcomes w ++ takes = repeat write_all (2 + 2 * length (messages (frame w)) + n) ->
  writeable event_done takes w = Some w' -> went_out (data ++ step_rest step) (messages (frame w)) w w'.
Proof.
  intros A I M F O E. unfold writeable in E. rewrite A in E. cbn zeta in E. apply bind_Some in E as ([w1 r] & E & [= ->]).
  apply (write_drains _ (messages (frame w)) (fun w w' n => dequeue_drains _ _ w w' n F) _ _ _ _ _ n) in E; [exact E|reflexivity|split; [reflexivity|split; [exact I|exact O]]|exact M].
Qed.
