(* ===== verification/WebSocketSpec.v ===== *)
(** * WebSocket connections: theorems

    Runs of a connection under any events: no callback is lost, the frames leave whole and in order, what is queued moves on, and every
    event returns; what a burst of frames is turned into; and the runs that stop, overtake or lose. *)
From S2P Require Import Prelude Codec WebCodec WebFrames WebSocket WebSocketFacts WebSocketOrder.
From stdpp Require Import list.
Open Scope Z_scope.

(** ** Every event returns *)

Definition outcome_codec (o : web_outcome) : web_codec := match o with web_continue c _ | web_fetch c _ | web_return c => c end.
Lemma extend_front_length q m : length (extend_front q m) = length q.
Proof. now destruct q as [|[op top] q]. Qed.
Lemma step_growth c index rest : (length (queue (outcome_codec (web_step c index rest))) <= S (length (queue c)))%nat.
Proof.
  unfold web_step. destruct (state c); unfold begin_frame, frame_length, read_payload;
    repeat match goal with |- context [if ?b then _ else _] => destruct b end; repeat (destruct (unmask _ _ _));
    cbn [outcome_codec queue set_queue set_remains set_opcode set_state set_mask set_fragment set_final set_control set_masked set_masks push_message more_length];
    repeat match goal with |- context [if ?b then _ else _] => destruct b end;
    cbn [outcome_codec queue set_queue set_remains set_opcode set_state set_mask set_fragment set_final set_control set_masked set_masks push_message more_length];
    rewrite ?extend_front_length, ?length_app; cbn [length]; lia.
Qed.
Lemma loop_growth fuel : forall c data c' b, web_loop fuel c data = Some (c', b) -> (length (queue c') <= length (queue c) + fuel)%nat.
Proof.
  induction fuel as [|f IH]; intros c data c' b E; [discriminate|]. cbn [web_loop] in E. destruct data as [|index rest]; [injection E as <- _; lia|].
  pose proof (step_growth c index rest) as G. destruct (web_step c index rest) as [c1 d|c1 d|c1]; cbn [outcome_codec] in G.
  - apply IH in E. lia.
  - destruct (_ && _); [injection E as <- _; lia|]. destruct d; [injection E as <- _; cbn; lia|]. apply IH in E. cbn in E. lia.
  - injection E as <- _. lia.
Qed.
Lemma parse_growth c buffer c' b : parse_frame c buffer = Some (c', b) -> (length (queue c') <= length (queue c) + 2 * S (length buffer))%nat.
Proof. destruct buffer; cbn [parse_frame]; [intros E; injection E as <- _; lia|apply loop_growth]. Qed.

Definition read_ok_ (r : ws_read) : Prop := match r with read_bytes bs => bytes bs | _ => True end.
Record readable_world (w : web_world) : Prop := mk_readable_world { world_codec : codec_ok (ws_codec (frame w)); world_reads : List.Forall read_ok_ (incoming w) }.
Lemma reads_size_cons r incoming : reads_size (r :: incoming) = (read_size r + reads_size incoming)%nat.
Proof. reflexivity. Qed.
Lemma read_all_returns incoming : List.Forall read_ok_ incoming -> forall c, codec_ok c -> exists c' b rest, read_all c incoming = Some (c', b, rest) /\
  codec_ok c' /\ List.Forall read_ok_ rest /\ (length (queue c') + reads_size rest <= length (queue c) + reads_size incoming)%nat.
Proof.
  induction 1 as [|r incoming Hr F IH]; intros c Ok; [exists c, true, []; repeat split; auto; apply Ok|].
  assert (Stop : forall b : bool, exists c' b' rest, Some (c, b, incoming) = Some (c', b', rest) /\ codec_ok c' /\ List.Forall read_ok_ rest /\
    (length (queue c') + reads_size rest <= length (queue c) + reads_size (r :: incoming))%nat).
  { intros b. exists c, b, incoming. repeat split; auto; [apply Ok..|]. rewrite reads_size_cons. lia. }
  destruct r as [bs| |]; cbn [read_all]; [|apply Stop..]. destruct (web_parse_total c bs Ok Hr) as (c1 & b1 & E1 & Ok1 & _). rewrite E1. cbn [mbind option_bind].
  apply parse_growth in E1. destruct (IH c1 Ok1) as (c' & b & rest & E & Ok' & F' & L). exists c', b, rest. split; [exact E|]. split; [exact Ok'|]. split; [exact F'|].
  rewrite reads_size_cons. unfold read_size. lia.
Qed.

(** The events that can come after an event: what the socket yields are bytes. *)
Definition event_bytes_ok (e : web_event) : Prop := match e with do_readable _ yields => List.Forall read_ok_ yields | _ => True end.
Inductive web_run (dead : web_world -> bool) (ok : web_world -> web_event -> Prop) (w : web_world) : web_world -> Prop :=
  | run_none : web_run dead ok w w
  | run_event w1 e w2 : web_run dead ok w w1 -> ok w1 e -> web_event_step dead e w1 = Some w2 -> web_run dead ok w w2.

Lemma frame_actions_end acts w : exists w', frame_actions acts w = Some w'.
Proof.
  unfold frame_actions. set (f := S _). destruct (calls_end f) as [Ic Id]. destruct (actions_end _ _ f Ic Id acts w) as (w' & E & _); [subst f; apply Nat.le_succ_diag_r|eauto].
Qed.
Lemma frame_send_ends m w : exists w' r, frame_send m w = Some (w', r).
Proof.
  unfold frame_send. set (f := S _). destruct (calls_end f) as [Ic Id]. destruct (submit_ends _ _ f Ic Id m w) as (w' & r & E & _); [subst f; apply Nat.le_succ_diag_r|eauto].
Qed.
Lemma frame_send_close_ends c w : exists w' r, frame_send_close c w = Some (w', r).
Proof.
  unfold frame_send_close. set (f := S _). destruct (calls_end f) as [Ic Id]. destruct (send_close_ends _ _ f Ic Id c w) as (w' & r & E & _); [subst f; apply Nat.le_succ_diag_r|eauto].
Qed.
Lemma frame_call_ends c w : exists w', frame_call c w = Some w'.
Proof.
  unfold frame_call. destruct (proj1 (calls_end (S (callback_size c + queue_size w))) c (note_ask c w)) as (w' & E & _); [|eauto].
  change (queue_size (note_ask c w)) with (queue_size w). lia.
Qed.
Lemma writeable_ends event takes w : exists w', writeable event takes w = Some w'.
Proof.
  unfold writeable. destruct (awaiting w) as [[data step]|]; [|eauto]. cbn zeta. set (f := S _). set (w1 := ww_outcomes _ _).
  destruct (calls_end f) as [Ic Id].
  assert (L : (callback_size (step_callback step) + queue_size w1 < f)%nat).
  { subst f. change (queue_size (ww_outcomes (outcomes w ++ takes) (ww_awaiting None w))) with (queue_size w1). unfold step_callback. destruct step; lia. }
  destruct event; [|destruct (written_ends _ _ f Ic Id step event_error w1 L) as (w' & E & _); eauto|destruct (written_ends _ _ f Ic Id step event_skip w1 L) as (w' & E & _); eauto].
  destruct (stream_write_ends f data step (written (run_callback f) (dequeue f) step) w1 (callback_size (step_callback step))) as (w' & r & -> & _); [|exact L|eauto].
  intros e w0 L0. exact (written_ends _ _ f Ic Id step e w0 L0).
Qed.

(** The codec and what the socket yields. *)
Lemma readable_leaves w w' : readable_world w -> leaves_reading w w' -> readable_world w'.
Proof. intros [C F] L. unfold leaves_reading, reading_side in L. injection L as Lc Li _ _ _ _ _ _ _ _ _. split; congruence. Qed.
Lemma actions_reading acts w w' : frame_actions acts w = Some w' -> leaves_reading w w'.
Proof. intros E. leaves frame_actions_leave. Qed.
Lemma send_reading m w w' r : frame_send m w = Some (w', r) -> leaves_reading w w'.
Proof. intros E. leaves frame_send_leaves. Qed.
Lemma send_close_reading c w w' r : frame_send_close c w = Some (w', r) -> leaves_reading w w'.
Proof. intros E. leaves frame_send_close_leaves. Qed.
Lemma call_reading c w w' : frame_call c w = Some w' -> leaves_reading w w'.
Proof. intros E. leaves frame_call_leaves. Qed.
Lemma writeable_reading event takes w w' : writeable event takes w = Some w' -> leaves_reading w w'.
Proof. intros E. leaves writeable_leaves. Qed.

Section Runs.
Context (dead : web_world -> bool).
(** What a pass of [update] uses up: the frames at hand and to come, and a step towards waiting or closing. *)
Definition rank (w : web_world) : nat :=
  if bool_decide (ws_state (frame w) = ws_close) || negb (bool_decide (tunneling (frame w) = tunnel_healthy)) then 0
  else match ws_state (frame w) with ws_receive => 1 | _ => 2 end.
Definition frames_left (w : web_world) : nat := length (queue (ws_codec (frame w))) + reads_size (incoming w).

Lemma hand_over_ends r op data w : readable_world w -> exists w' h, hand_over r op data w = Some (w', h) /\ readable_world w'.
Proof.
  intros K. unfold hand_over. destruct (r op data) as [acts h]. set (w1 := ww_delivered _ w).
  destruct (frame_actions_end acts w1) as (w' & E). rewrite E. exists w', h. split; [reflexivity|]. eapply readable_leaves; [|eapply actions_reading; exact E].
  destruct K as [C F]. now split.
Qed.
Lemma update_close_ends w : readable_world w -> exists w', update_close w = Some w' /\ readable_world w'.
Proof.
  intros [C F]. unfold update_close. set (w1 := if bool_decide _ then w else _). assert (K1 : readable_world w1) by (subst w1; destruct (bool_decide _); now split).
  assert (A : forall c w2, readable_world w2 -> exists w', frame_call c w2 = Some w' /\ readable_world w').
  { intros c w2 K2. destruct (frame_call_ends c w2) as (w' & E). exists w'. split; [exact E|]. eapply readable_leaves; [exact K2|eapply call_reading; exact E]. }
  destruct K1 as [C1 F1]. destruct (before_disconnect (frame w)), (disconnect (frame w)); try (apply A; now split).
  eexists. split; [reflexivity|now split].
Qed.
Lemma update_frame_ends op data w : readable_world w -> exists r, update_frame op data w = Some r /\
  match r with Some w' => readable_world w' | None => True end.
Proof.
  intros K. assert (H : forall o, exists w1 h, match receive (frame w) with Some r => hand_over r o [] w | None => Some (w, false) end = Some (w1, h) /\ readable_world w1).
  { intros o. destruct (receive (frame w)) as [r|]; [apply hand_over_ends, K|eauto]. }
  assert (Nx : forall w1 (h : bool), readable_world w1 -> readable_world (if h then w1 else web_next w1)).
  { intros w1 [|] [C F]; now split. }
  assert (Go : forall f o d, exists r, ('(w, h) ← hand_over f o d w; Some (Some (if (h : bool) then w else web_next w))) = Some (r : option web_world) /\
    match r with Some w' => readable_world w' | None => True end).
  { intros f o d. destruct (hand_over_ends f o d w K) as (w1 & h & -> & K1). cbn [mbind option_bind]. eexists. split; [reflexivity|]. cbn. now apply Nx. }
  destruct op; cbn [update_frame].
  - destruct (receive (frame w)) as [f|]; [apply Go|]. now exists None.
  - destruct (receive (frame w)) as [f|]; [apply Go|]. now exists (Some w).
  - destruct (receive (frame w)) as [f|]; [apply Go|]. now exists (Some w).
  - destruct (H op_close) as (w1 & h & -> & K1). cbn [mbind option_bind]. destruct h; [eauto|].
    destruct (frame_send_close_ends call_next w1) as (w2 & r & E). rewrite E. eexists. split; [reflexivity|]. eapply readable_leaves; [exact K1|eapply send_close_reading; exact E].
  - destruct (H op_ping) as (w1 & h & -> & K1). cbn [mbind option_bind]. destruct h; [eauto|].
    destruct (frame_send_ends (mk_message 0 [] op_pong call_next) w1) as (w2 & r & E). rewrite E. eexists. split; [reflexivity|].
    eapply readable_leaves; [exact K1|eapply send_reading; exact E].
  - destruct (receive (frame w)) as [f|]; [apply Go|]. now exists None.
Qed.
Lemma finalize_kept w : readable_world w -> readable_world (web_finalize w) /\ frames_left (web_finalize w) = frames_left w.
Proof. intros [C F]. unfold web_finalize. destruct (bool_decide _); (split; [now split|reflexivity]). Qed.
Lemma finalized w : bool_decide (ws_state (frame w) = ws_close) || negb (bool_decide (tunneling (frame w) = tunnel_healthy)) = false -> rank (web_finalize w) = 0%nat.
Proof.
  intros O. apply orb_false_iff in O as [_ H]. apply negb_false_iff in H. unfold web_finalize, rank. rewrite H. cbn. now rewrite bool_decide_eq_true_2.
Qed.
Lemma update_pass_ends w : readable_world w -> exists w' over, update_pass dead w = Some (w', over) /\ readable_world w' /\
  (over = false -> (rank w' + frames_left w' < rank w + frames_left w)%nat).
Proof.
  intros K. unfold update_pass. destruct (_ || _) eqn:Op.
  { destruct (update_close_ends w K) as (w' & -> & K'). exists w', true. split; [reflexivity|]. split; [exact K'|discriminate]. }
  assert (Rk : rank w = match ws_state (frame w) with ws_receive => 1 | _ => 2 end%nat) by (unfold rank; now rewrite Op).
  pose proof (finalize_kept w K) as Fin.
  pose proof (finalized w Op) as Rf. destruct K as [C F]. destruct (ws_state (frame w)) eqn:Es.
  - assert (Call : forall c, exists w' over, (w1 ← frame_call c (wf_connect no_callback (wf_ws_state ws_receive w)); Some (w1, true)) = Some (w', over) /\ readable_world w' /\
      (over = false -> (rank w' + frames_left w' < rank w + frames_left w)%nat)).
    { intros c. destruct (frame_call_ends c (wf_connect no_callback (wf_ws_state ws_receive w))) as (w1 & E). rewrite E. exists w1, true. split; [reflexivity|].
      split; [|discriminate]. eapply readable_leaves; [|eapply call_reading; exact E]. now split. }
    assert (Rc : exists w' over, Some (wf_ws_state ws_receive w, false) = Some (w', over) /\ readable_world w' /\ (over = false -> (rank w' + frames_left w' < rank w + frames_left w)%nat)).
    { do 2 eexists. split; [reflexivity|]. split; [now split|]. intros _. rewrite Rk. unfold rank. cbn [frame wf_ws_state ww_frame ws_state].
      change (frames_left (wf_ws_state ws_receive w)) with (frames_left w). destruct (_ || _); lia. }
    destruct (connect (frame w)); [destruct (receive (frame w)), (disconnect (frame w))| |]; eauto.
    destruct (frame_send_close_ends call_next w) as (w' & r & E). rewrite E. exists w', true. split; [reflexivity|]. split; [|discriminate].
    eapply readable_leaves; [|eapply send_close_reading; exact E]. now split.
  - destruct (dead w); do 2 eexists; (split; [reflexivity|]); [split; [apply Fin|]|split; [now split|discriminate]]. intros _. rewrite Rf, Rk, (proj2 Fin). lia.
  - destruct (read_all_returns (incoming w) F (ws_codec (frame w)) C) as (c & b & rest & -> & C1 & F1 & L1). cbn [mbind option_bind].
    set (w1 := wf_ws_codec c (ww_incoming rest w)). destruct b.
    + cbn [ws_codec frame wf_ws_state wf_ws_codec ww_frame ww_incoming w1]. unfold get_frame. destruct (queue c) as [|[op data] q] eqn:Eq.
      * do 2 eexists. split; [reflexivity|]. split; [now split|]. intros _. rewrite Rk. unfold rank, frames_left in *.
        cbn [ws_codec frame wf_ws_state wf_ws_codec ww_frame ww_incoming w1 ws_state incoming]. rewrite Eq in *. cbn [length] in *. destruct (_ || _); lia.
      * set (w2 := wf_ws_state ws_process _). assert (K2 : readable_world w2) by (split; [exact C1|exact F1]).
        destruct (update_frame_ends op data w2 K2) as ([w3|] & -> & K3); cbn [mbind option_bind]; do 2 eexists; (split; [reflexivity|]); [split; [exact K3|discriminate]|].
        split; [exact K2|]. intros _. rewrite Rk. unfold rank, frames_left in *. subst w2 w1.
        cbn [ws_codec frame wf_ws_state wf_ws_codec ww_frame ww_incoming ws_state incoming queue set_queue]. cbn [length] in *. destruct (_ || _); lia.
    + do 2 eexists. split; [reflexivity|]. assert (Op1 : (bool_decide (ws_state (frame w1) = ws_close) || negb (bool_decide (tunneling (frame w1) = tunnel_healthy))) = false)
        by (change (ws_state (frame w1)) with (ws_state (frame w)); rewrite Es; exact Op).
      assert (K1 : readable_world w1) by now split.
      destruct (finalize_kept w1 K1) as [K2 Fl]. split; [exact K2|]. intros _. rewrite (finalized w1 Op1), Rk, Fl.
      change (frames_left w1) with (length (queue c) + reads_size rest)%nat. unfold frames_left. lia.
  - exists w, true. split; [reflexivity|]. split; [now split|discriminate].
Qed.
Lemma update_loop_ends fuel : forall w, readable_world w -> (rank w + frames_left w < fuel)%nat -> exists w', update_loop dead fuel w = Some w' /\ readable_world w'.
Proof.
  induction fuel as [|f IH]; intros w K L; [lia|]. cbn [update_loop]. destruct (update_pass_ends w K) as (w1 & over & -> & K1 & D). cbn [mbind option_bind].
  destruct over; [eauto|]. apply IH; [exact K1|]. specialize (D eq_refl). lia.
Qed.
Lemma event_ends e w : readable_world w -> event_bytes_ok e -> exists w', web_event_step dead e w = Some w' /\ readable_world w'.
Proof.
  intros K B. pose proof K as [C F]. destruct e as [a| |ev yields|ev takes]; cbn [web_event_step].
  - destruct (frame_actions_end [a] w) as (w' & E). exists w'. split; [exact E|]. eapply readable_leaves; [exact K|eapply actions_reading; exact E].
  - destruct (updates w) as [|n]; [eauto|]. apply update_loop_ends; [now split|]. unfold frames_left. cbn [frame ww_updates incoming].
    unfold rank. destruct (_ || _); [lia|]. destruct (ws_state _); lia.
  - destruct (awaits_read w); [|eauto]. eexists. split; [reflexivity|]. assert (F' : List.Forall read_ok_ (incoming w ++ yields)) by (apply List.Forall_app; now split).
    destruct ev; now split.
  - destruct (writeable_ends ev takes w) as (w' & E). exists w'. split; [exact E|]. eapply readable_leaves; [exact K|]. eapply writeable_reading; exact E.
Qed.

(** ** Runs *)

Context (codec : web_codec) (connect before_disconnect disconnect : web_callback) (receive : option receiver).
Abbreviation start := (new_world codec connect before_disconnect disconnect receive).
Lemma start_good whole late : ws_good whole late None [] start.
Proof. split; cbn; auto; intros [? ?]; discriminate. Qed.
Lemma ws_run_good whole late (ok : web_world -> web_event -> Prop) w :
  (forall w e, ok w e -> late = true \/ is_ignore w = false) -> (forall w takes, whole = true -> ~ ok w (do_writeable event_skip takes)) ->
  web_run dead ok start w -> ws_good whole late None [] w.
Proof.
  intros Op Sk. induction 1 as [|w1 e w2 R IH Ok E]; [apply start_good|]. apply (event_good whole dead late e w1 w2 IH (Op _ _ Ok)); [|exact E].
  intros takes ->. destruct whole; [|reflexivity]. destruct (Sk w1 takes eq_refl Ok).
Qed.

(** (C10) Whatever happens to a connection, every callback it was given has been called or waits with its message, in the queue or with the write under way,
    and none is called twice. *)
Theorem ws_callbacks_accounted (w : web_world) : web_run dead (fun _ _ => True) start w ->
  asked w ≡ₚ told_callbacks w ++ map msg_callback (messages (frame w)) ++ match awaiting w with Some (_, step) => [step_callback step] | None => [] end.
Proof.
  intros R. destruct (ws_run_good false true (fun _ _ => True) w) as [_ _ T _ _]; [auto|discriminate|exact R|]. rewrite T. cbn. rewrite app_nil_r.
  destruct (awaiting w) as [[data [copy c|c]]|]; reflexivity.
Qed.

(** (C11) As long as no write is cancelled and the stream has not failed, the bytes that left are whole frames in the order they were begun, the last one
    perhaps cut where its write waits; with no write under way they are exactly the frames. *)
Theorem ws_frames_whole (w : web_world) :
  web_run dead (fun _ e => forall takes, e <> do_writeable event_skip takes) start w -> tunneling (frame w) <> tunnel_gone ->
  (exists rest, wire w ++ rest = concat (map message_frame (begun_messages w))) /\
  (awaiting w = None -> wire w = concat (map message_frame (begun_messages w)) /\ busy (frame w) = false).
Proof.
  intros R N. refine ((fun G => _) (ws_run_good true true _ w _ _ R)); [|auto|intros w0 takes _ H; exact (H takes eq_refl)]. destruct G as [B _ _ W _].
  specialize (W eq_refl N). cbn [pending_bytes] in W. rewrite app_nil_r in W. split; [eauto|]. intros A. rewrite A in *. cbn in W, B. rewrite app_nil_r in W. auto.
Qed.

(** (C12) While the connection is open a message waits in the queue only behind a write that is under way; and when the socket takes bytes again, enough of them, and the
    callbacks of the messages do not send, the end of that write takes the next message out, and its end the one behind it, until the queue is empty and all their frames have left. *)
Theorem ws_queue_moves (w : web_world) : web_run dead (fun w _ => is_ignore w = false) start w -> is_ignore w = false ->
  (messages (frame w) <> [] -> is_Some (awaiting w) /\ busy (frame w) = true) /\
  (forall data step takes n, awaiting w = Some (data, step) -> mute (step_callback step) = true -> List.Forall (fun m => mute (msg_callback m) = true) (messages (frame w)) ->
     outcomes w ++ takes = repeat write_all (2 + 2 * length (messages (frame w)) + n) ->
     exists w', web_event_step dead (do_writeable event_done takes) w = Some w' /\ went_out (data ++ step_rest step) (messages (frame w)) w w').
Proof.
  intros R N. split.
  - intros M. refine ((fun G => _) (ws_run_good false false _ w _ _ R)); [|auto|discriminate]. destruct G as [B _ _ _ Q].
    destruct (Q eq_refl) as [Q1|[Q1|Q1]]; [contradiction| |congruence]. split; [|exact Q1]. rewrite Q1 in B. cbn in B. symmetry in B. now apply bool_decide_eq_true in B.
  - intros data step takes n A M F O. destruct (writeable_ends event_done takes w) as [w' E]. exists w'. split; [exact E|]. now apply (writeable_drains data step takes w w' n).
Qed.

(** (C13) And the messages are begun in the order they were sent, where their callbacks do not send. *)
Theorem ws_messages_in_order (w : web_world) :
  tame connect = true -> tame before_disconnect = true -> tame disconnect = true ->
  (forall r, receive = Some r -> forall op data, forallb tame_action (fst (r op data)) = true) ->
  web_run dead (fun w e => is_ignore w = false /\ tame_event e = true) start w ->
  accepted w = begun_messages w ++ messages (frame w).
Proof.
  intros Tc Tb Td Tr R. assert (G : ordered w /\ (settled w \/ is_ignore w = true)); [|apply (ord_list w), G].
  induction R as [|w1 e w2 R IH [Op T] E].
  - split; [|left; now left]. split; cbn; auto; [intros [? ?]; discriminate|discriminate].
  - destruct IH as [O [Se|I]]; [|congruence]. exact (event_order dead e w1 w2 T (conj O Se) E).
Qed.

(** Every event returns: a call, an update, a read, a write. *)
Theorem ws_event_returns (w : web_world) (e : web_event) : codec_ok codec -> web_run dead (fun _ e => event_bytes_ok e) start w -> event_bytes_ok e ->
  exists w', web_event_step dead e w = Some w'.
Proof.
  intros C R B. assert (K : readable_world w).
  { clear B. induction R as [|w1 e1 w2 R IH Ok E]; [now split|]. destruct (event_ends e1 w1 IH Ok) as (w3 & E3 & K3). congruence. }
  destruct (event_ends e w K B) as (w' & E & _). eauto.
Qed.
End Runs.

(** ** A burst of frames *)

(** What [receive] is handed, and what a frame is answered with. *)
Definition handed_over (m : web_socket_op * list Z) : web_socket_op * list Z := match m with (op_ping, _) => (op_ping, []) | _ => m end.
Definition pong : list Z := send_frame 0 [] op_pong.
Definition answered (m : web_socket_op * list Z) : list Z := match m with (op_ping, _) => pong | _ => [] end.
Definition plain_op (op : web_socket_op) : bool := match op with op_text | op_binary | op_ping => true | _ => false end.

Lemma read_bursts bursts : List.Forall (List.Forall sendable) bursts -> forall c, codec_ok c -> state c = code_begin ->
  exists c', read_all c (map (fun fs => read_bytes (concat (map frame_of fs))) bursts) = Some (c', true, []) /\ queue c' = queue c ++ map message_of (concat bursts).
Proof.
  induction 1 as [|fs bursts Hf _ IH]; intros c Ok St; [exists c; now rewrite app_nil_r|]. cbn [map read_all concat].
  destruct (frames_run fs c Ok St Hf) as (c1 & E & Ok1 & S1 & Q1). rewrite parse_frame_run, E. cbn [mbind option_bind].
  destruct (IH c1 Ok1 S1) as (c' & E' & Q'). exists c'. split; [exact E'|]. rewrite Q', Q1, map_app. now rewrite app_assoc.
Qed.

(** A frame that is open and reads: the rest of its world is as it may be. *)
Definition reading_world (codec : web_codec) (st : web_socket_state) (incoming : list ws_read) (outs : list ws_write) (upd : nat) (wire : list Z)
    (del : list (web_socket_op * list Z)) (w : web_world) : Prop :=
  messages (frame w) = [] /\ awaiting w = None /\ busy (frame w) = false /\ tunneling (frame w) = tunnel_healthy /\ deadly (frame w) = false /\
  ws_codec (frame w) = codec /\ ws_state (frame w) = st /\ WebSocket.incoming w = incoming /\ outcomes w = outs /\ updates w = upd /\ WebSocket.wire w = wire /\
  delivered w = del.
Section Burst.
Context (dead : web_world -> bool) (Alive : forall w, dead w = false) (r : receiver) (Goes_on : forall op data, r op data = ([], false)).

Lemma pong_sent codec st incoming outs upd wire del w : st <> ws_close -> reading_world codec st incoming (write_all :: outs) upd wire del w ->
  exists w' k, frame_send (mk_message 0 [] op_pong call_next) w = Some (w', k) /\ reading_world codec st incoming outs (S upd) (wire ++ pong) del w' /\ receive (frame w') = receive (frame w).
Proof.
  destruct w as [[ms cd st0 tu ac de bu cn bd dc rc] wi aw os inc ar up acc beg ask tol dl cls]. unfold reading_world. cbn.
  intros Ns (-> & -> & -> & -> & -> & -> & -> & -> & -> & -> & -> & ->). set (m := mk_message 0 [] op_pong call_next).
  exists (mk_web_world (mk_frame [] codec st tunnel_healthy ac false false cn bd dc rc) (wire ++ pong) None outs incoming ar (S upd) (acc ++ [m]) (beg ++ [m])
    (ask ++ [call_next]) (tol ++ [call_next]) del cls), (sent_bytes 2).
  split; [|cbn; repeat split; reflexivity]. destruct st; [vm_compute; reflexivity..|congruence].
Qed.
Lemma nothing_done op data w : hand_over r op data w = Some (ww_delivered (delivered w ++ [(op, data)]) w, false).
Proof. unfold hand_over. rewrite Goes_on. reflexivity. Qed.
Lemma frame_taken op data w codec outs upd wire del : plain_op op = true -> receive (frame w) = Some r ->
  reading_world codec ws_process [] (match op with op_ping => write_all :: outs | _ => outs end) upd wire del w ->
  exists w', update_frame op data w = Some (Some w') /\ receive (frame w') = Some r /\
    reading_world codec ws_process [] outs (S upd) (wire ++ answered (op, data)) (del ++ [handed_over (op, data)]) w'.
Proof.
  intros P Rc K. pose proof K as (M & A & B & T & D & C & St & I & O & U & W & De). destruct op; try discriminate; cbn [update_frame]; rewrite Rc, nothing_done; cbn [mbind option_bind].
  1-2: eexists; split; [reflexivity|]; split; [exact Rc|]; cbn [answered handed_over]; rewrite app_nil_r; unfold reading_world; cbn; rewrite U, De; auto 12.
  set (w1 := ww_delivered _ w). destruct (pong_sent codec ws_process [] outs upd wire (del ++ [(op_ping, [])]) w1) as (w2 & k & -> & K2 & R2); [discriminate| |].
  - unfold reading_world, w1. cbn. rewrite De. auto 12.
  - exists w2. split; [reflexivity|]. split; [now rewrite R2|]. exact K2.
Qed.
Lemma frame_updated codec inc c' op data q w outs upd wire del : plain_op op = true -> receive (frame w) = Some r ->
  reading_world codec ws_process inc (match op with op_ping => write_all :: outs | _ => outs end) (S upd) wire del w ->
  read_all codec inc = Some (c', true, []) -> queue c' = (op, data) :: q ->
  exists w', web_event_step dead do_update w = Some w' /\ receive (frame w') = Some r /\
    reading_world (set_queue c' q) ws_process [] outs (S upd) (wire ++ answered (op, data)) (del ++ [handed_over (op, data)]) w'.
Proof.
  intros P Rc (M & A & B & T & D & C & St & I & O & U & W & De) Ra Eq. cbn [web_event_step]. rewrite U. unfold web_update. cbn [Nat.add update_loop].
  set (w0 := ww_updates upd w). unfold update_pass. change (ws_state (frame w0)) with (ws_state (frame w)). change (tunneling (frame w0)) with (tunneling (frame w)).
  change (ws_codec (frame w0)) with (ws_codec (frame w)). change (WebSocket.incoming w0) with (WebSocket.incoming w). rewrite St, T, C, I, Ra. cbn [bool_decide negb orb mbind option_bind].
  rewrite bool_decide_eq_false_2, bool_decide_eq_true_2 by (discriminate || reflexivity). cbn [negb orb].
  change (get_frame (ws_codec (frame (wf_ws_state ws_receive (wf_ws_codec c' (ww_incoming [] w0)))))) with (get_frame c'). unfold get_frame. rewrite Eq. set (w1 := wf_ws_state ws_process _).
  destruct (frame_taken op data w1 (set_queue c' q) outs upd wire del P Rc) as (w2 & -> & R2 & K2); [unfold reading_world; cbn; auto 12|].
  exists w2. cbn [mbind option_bind]. auto.
Qed.
Lemma none_left codec inc c' w outs wire del : reading_world codec ws_process inc outs 1 wire del w -> read_all codec inc = Some (c', true, []) -> queue c' = [] ->
  exists w', web_event_step dead do_update w = Some w' /\ awaits_read w' = true /\ reading_world c' ws_receive [] outs 0 wire del w'.
Proof.
  intros (M & A & B & T & D & C & St & I & O & U & W & De) Ra Eq. cbn [web_event_step]. rewrite U. unfold web_update. cbn [Nat.add update_loop].
  set (w0 := ww_updates 0 w). unfold update_pass. change (ws_state (frame w0)) with (ws_state (frame w)). change (tunneling (frame w0)) with (tunneling (frame w)).
  change (ws_codec (frame w0)) with (ws_codec (frame w)). change (WebSocket.incoming w0) with (WebSocket.incoming w). rewrite St, T, C, I, Ra. cbn [bool_decide negb orb mbind option_bind].
  rewrite bool_decide_eq_false_2, bool_decide_eq_true_2 by (discriminate || reflexivity). cbn [negb orb].
  change (get_frame (ws_codec (frame (wf_ws_state ws_receive (wf_ws_codec c' (ww_incoming [] w0)))))) with (get_frame c'). unfold get_frame. rewrite Eq. set (w1 := wf_ws_codec _ _). cbn [mbind option_bind].
  change (ws_state (frame w1)) with ws_receive. change (tunneling (frame w1)) with (tunneling (frame w)). rewrite T.
  rewrite bool_decide_eq_false_2, bool_decide_eq_true_2 by (discriminate || reflexivity). cbn [negb orb]. rewrite Alive. cbn [mbind option_bind].
  eexists. split; [reflexivity|]. split; [reflexivity|]. unfold reading_world. cbn. auto 12.
Qed.
Lemma burst_run msgs : List.Forall (fun m => plain_op (fst m) = true) msgs -> forall codec inc c' w outs wire del,
  receive (frame w) = Some r ->
  reading_world codec ws_process inc (flat_map (fun m => match fst m with op_ping => [write_all] | _ => [] end) msgs ++ outs) 1 wire del w ->
  read_all codec inc = Some (c', true, []) -> queue c' = msgs ->
  exists w' c2, web_events dead (repeat do_update (S (length msgs))) w = Some w' /\ awaits_read w' = true /\
    reading_world c2 ws_receive [] outs 0 (wire ++ concat (map answered msgs)) (del ++ map handed_over msgs) w'.
Proof.
  induction 1 as [|[op data] msgs P _ IH]; intros codec inc c' w outs wire del Rc K Ra Eq.
  - destruct (none_left codec inc c' w outs wire del K Ra Eq) as (w' & E & Aw & K'). exists w', c'. cbn [length repeat web_events]. rewrite E.
    cbn. rewrite !app_nil_r. auto.
  - change (repeat do_update (S (length ((op, data) :: msgs)))) with (do_update :: repeat do_update (S (length msgs))). cbn [web_events].
    destruct (frame_updated codec inc c' op data msgs w (flat_map (fun m => match fst m with op_ping => [write_all] | _ => [] end) msgs ++ outs) 0 wire del P Rc)
      as (w1 & E & R1 & K1); [|exact Ra|exact Eq|].
    { cbn [flat_map fst] in K. destruct op; exact K. }
    rewrite E. cbn [mbind option_bind]. destruct (IH (set_queue c' msgs) [] (set_queue c' msgs) w1 outs _ _ R1 K1 eq_refl eq_refl) as (w' & c2 & -> & Aw & K').
    exists w', c2. split; [reflexivity|]. split; [exact Aw|]. cbn [map concat]. rewrite !app_assoc in *. now rewrite <- !app_assoc in *.
Qed.
End Burst.

(** A burst of whole frames is handed to [receive] frame by frame in the order of the bytes, however they are cut into reads between the frames; a ping is
    answered with a pong; and the connection ends up waiting for bytes. *)
Theorem ws_burst_delivered (dead : web_world -> bool) (r : receiver) (codec : web_codec) (w : web_world)
    (bursts : list (list (web_socket_op * option (list Z) * list Z))) (outs : list ws_write) (wire : list Z) (del : list (web_socket_op * list Z)) :
  (forall w, dead w = false) -> (forall op data, r op data = ([], false)) -> receive (frame w) = Some r ->
  codec_ok codec -> state codec = code_begin -> queue codec = [] ->
  List.Forall (List.Forall sendable) bursts ->
  let msgs := map message_of (concat bursts) in
  List.Forall (fun m => plain_op (fst m) = true) msgs ->
  reading_world codec ws_process (map (fun fs => read_bytes (concat (map frame_of fs))) bursts)
    (flat_map (fun m => match fst m with op_ping => [write_all] | _ => [] end) msgs ++ outs) 1 wire del w ->
  exists w' codec', web_events dead (repeat do_update (S (length msgs))) w = Some w' /\ awaits_read w' = true /\
    reading_world codec' ws_receive [] outs 0 (wire ++ concat (map answered msgs)) (del ++ map handed_over msgs) w'.
Proof.
  intros Alive Go Rc Ok St Q F msgs P K. destruct (read_bursts bursts F codec Ok St) as (c' & Ra & Q'). rewrite Q in Q'. cbn [app] in Q'.
  exact (burst_run dead Alive r Go msgs P codec _ c' w outs wire del Rc K Ra Q').
Qed.

(** ** A close behind a write *)

(** The connection is closing and its close frame waits in the queue; the write under way tells nobody. *)
Record hung (w0 w : web_world) : Prop := mk_hung {
  hung_state : ws_state (frame w) = ws_close; hung_updates : updates w = 0%nat; hung_reads : awaits_read w = false;
  hung_messages : messages (frame w) = messages (frame w0) ++ [mk_message 0 [] op_close call_next];
  hung_write : forall data step, awaiting w = Some (data, step) -> step_callback step = no_callback;
  hung_life : active (frame w) = true /\ closes w = closes w0 }.
Definition hang_side (w : web_world) :=
  (ws_state (frame w), updates w, awaits_read w, messages (frame w), active (frame w), closes w).
Lemma hung_same w0 w w' : hung w0 w -> hang_side w' = hang_side w -> (forall data step, awaiting w' = Some (data, step) -> step_callback step = no_callback) -> hung w0 w'.
Proof. intros [A B C D E F] H W. unfold hang_side in H. injection H as H1 H2 H3 H4 H5 H6. split; congruence || auto. Qed.
Lemma hung_ignores w0 w : hung w0 w -> is_ignore w = true.
Proof. intros H. unfold is_ignore. rewrite (hung_state _ _ H), bool_decide_eq_true_2 by reflexivity. now rewrite orb_true_r. Qed.
Lemma hung_call f w0 w w' : hung w0 w -> awaiting w = None -> run_callback f no_callback w = Some w' -> hung w0 w'.
Proof. intros H A E. destruct f as [|f]; [discriminate|]. injection E as <-. eapply hung_same; [exact H|reflexivity|cbn; congruence]. Qed.
Lemma hung_finish f w0 w w' : hung w0 w -> awaiting w = None -> finish_message (run_callback f) (dequeue f) no_callback w = Some w' -> hung w0 w'.
Proof.
  intros H A E. unfold finish_message in E. rewrite (hung_ignores _ _ H) in E. apply bind_Some in E as (w1 & E1 & E). injection E as <-.
  apply (hung_call f w0 (wf_busy false w)); [|exact A|exact E1]. eapply hung_same; [exact H|reflexivity|cbn; congruence].
Qed.
Lemma hung_lose f w0 w w' : hung w0 w -> awaiting w = None -> lose_message (run_callback f) no_callback w = Some w' -> hung w0 w'.
Proof. intros H A E. apply (hung_call f w0 (wf_busy false (wf_tunneling tunnel_gone w))); [|exact A|exact E]. eapply hung_same; [exact H|reflexivity|cbn; congruence]. Qed.
Lemma hung_stream f data step w0 w w' k : hung w0 w -> awaiting w = None -> step_callback step = no_callback ->
  (forall e w w', hung w0 w -> awaiting w = None -> written (run_callback f) (dequeue f) step e w = Some w' -> hung w0 w') ->
  stream_write data step (written (run_callback f) (dequeue f) step) w = Some (w', k) -> hung w0 w'.
Proof.
  intros H A St Run E. unfold stream_write in E.
  assert (Wt : forall x os t, hung w0 (ww_awaiting (Some (x, step)) (ww_wire t (ww_outcomes os w)))).
  { intros x os t. eapply hung_same; [exact H|reflexivity|]. cbn. intros ? ? E0. now injection E0 as <- <-. }
  assert (Rn : forall e os t w1, written (run_callback f) (dequeue f) step e (ww_wire t (ww_outcomes os w)) = Some w1 -> hung w0 w1).
  { intros e os t w1 E1. apply (Run e (ww_wire t (ww_outcomes os w))); [|exact A|exact E1]. eapply hung_same; [exact H|reflexivity|cbn; congruence]. }
  destruct (outcomes w) as [|[|t|t] os].
  - injection E as <- _. eapply hung_same; [exact H|reflexivity|]. cbn. intros ? ? E0. now injection E0 as <- <-.
  - apply bind_Some in E as (w1 & E1 & E). injection E as <- _. eauto.
  - destruct (_ <=? _)%nat; [|injection E as <- _; auto]. apply bind_Some in E as (w1 & E1 & E). injection E as <- _. eauto.
  - apply bind_Some in E as (w1 & E1 & E). injection E as <- _. eauto.
Qed.
Lemma hung_written f step w0 : step_callback step = no_callback -> forall e w w', hung w0 w -> awaiting w = None ->
  written (run_callback f) (dequeue f) step e w = Some w' -> hung w0 w'.
Proof.
  destruct step as [copy c|c]; cbn [step_callback]; intros ->.
  - assert (P : forall e w w', hung w0 w -> awaiting w = None -> written (run_callback f) (dequeue f) (after_payload no_callback) e w = Some w' -> hung w0 w').
    { intros e w w'. destruct e; [apply hung_finish|apply hung_lose|apply hung_finish]. }
    intros e w w' H A E. cbn [written header_written] in E. destruct e; [|eapply hung_lose; eauto|eapply hung_finish; eauto].
    destruct copy as [|b copy]; [eapply hung_finish; eauto|]. apply bind_Some in E as ([w1 k] & E1 & E). injection E as <-.
    eapply (hung_stream f (b :: copy) (after_payload no_callback)); [exact H|exact A|reflexivity|exact P|exact E1].
  - intros e w w'. destruct e; [apply hung_finish|apply hung_lose|apply hung_finish].
Qed.
Lemma hung_event dead w0 e w w' : hung w0 w -> (forall a, e <> do_call a) -> web_event_step dead e w = Some w' -> hung w0 w'.
Proof.
  intros H Nc E. destruct e as [a| |ev yields|ev takes]; cbn [web_event_step] in E; [now destruct (Nc a)|rewrite (hung_updates _ _ H) in E; now injection E as <-| |].
  - rewrite (hung_reads _ _ H) in E. now injection E as <-.
  - unfold writeable in E. destruct (awaiting w) as [[data step]|] eqn:Aw; [|now injection E as <-]. cbn zeta in E. set (f := S _) in E. set (w1 := ww_outcomes _ _) in E.
    pose proof (hung_write _ _ H _ _ Aw) as Sc. assert (H1 : hung w0 w1) by (eapply hung_same; [exact H|reflexivity|discriminate]).
    destruct ev; [|eapply hung_written; eauto; reflexivity|eapply hung_written; eauto; reflexivity].
    apply bind_Some in E as ([w2 k] & E1 & E). injection E as <-. eapply hung_stream; [exact H1|reflexivity|exact Sc|now apply hung_written|exact E1].
Qed.

Lemma close_queued c w : deadly (frame w) = false -> ws_state (frame w) <> ws_close -> tunneling (frame w) = tunnel_healthy -> active (frame w) = true ->
  is_Some (awaiting w) -> exists w', frame_send_close c w = Some (w', true) /\
    (hang_side w', awaiting w') = (ws_close, updates w, awaits_read w, messages (frame w) ++ [mk_message 0 [] op_close c], active (frame w), closes w, awaiting w).
Proof.
  intros D N T A Aw. unfold frame_send_close, send_close. rewrite D, T, A, bool_decide_eq_false_2, bool_decide_eq_true_2 by (assumption || reflexivity).
  cbn [negb orb]. unfold web_finalize. rewrite T, bool_decide_eq_true_2 by reflexivity. unfold submit, web_send, enqueue, is_writeable.
  change (awaiting (note_send _ (wf_ws_state ws_close w))) with (awaiting w). rewrite (bool_decide_eq_true_2 (is_Some (awaiting w))) by exact Aw. rewrite andb_false_r.
  eexists. split; [reflexivity|]. unfold hang_side. cbn. now rewrite A.
Qed.

(** (C32) An open connection without a receiver that has one update to run, does not wait for bytes, and has a message sent without a callback under way, reads a close
    frame as the next one: then, unless the user calls it again, the connection has stopped for good.  The close frame waits behind the queue, which is not gone through any more,
    its callback, which would go on with closing, is not called, and nothing that happens to the socket changes that. *)
Theorem ws_close_hangs (dead : web_world -> bool) (w w' : web_world) (data payload : list Z) (step : write_step) (codec : web_codec)
    (q : list (web_socket_op * list Z)) (es : list web_event) :
  is_ignore w = false -> active (frame w) = true -> ws_state (frame w) = ws_process -> receive (frame w) = None -> updates w = 1%nat -> awaits_read w = false ->
  awaiting w = Some (data, step) -> step_callback step = no_callback ->
  read_all (ws_codec (frame w)) (incoming w) = Some (codec, true, []) -> queue codec = (op_close, payload) :: q ->
  (forall e a, e ∈ es -> e <> do_call a) -> web_events dead (do_update :: es) w = Some w' ->
  active (frame w') = true /\ closes w' = closes w /\ updates w' = 0%nat /\ awaits_read w' = false /\
  messages (frame w') = messages (frame w) ++ [mk_message 0 [] op_close call_next].
Proof.
  intros Ni Ac St Rc U Ar Aw Sc Ra Eq Nc E. cbn [web_events] in E. apply bind_Some in E as (w1 & E1 & E).
  assert (H : hung w w1).
  { cbn [web_event_step] in E1. rewrite U in E1. unfold web_update in E1. cbn [Nat.add update_loop] in E1. set (w0 := ww_updates 0 w) in E1.
    unfold is_ignore in Ni. apply orb_false_iff in Ni as [Ni T]. apply orb_false_iff in Ni as [D Nc1]. apply negb_false_iff, bool_decide_eq_true in T.
    unfold update_pass in E1. change (ws_state (frame w0)) with (ws_state (frame w)) in E1. change (tunneling (frame w0)) with (tunneling (frame w)) in E1.
    change (ws_codec (frame w0)) with (ws_codec (frame w)) in E1. change (WebSocket.incoming w0) with (WebSocket.incoming w) in E1.
    rewrite St, T, Ra in E1. rewrite bool_decide_eq_false_2, bool_decide_eq_true_2 in E1 by (discriminate || reflexivity). cbn [negb orb mbind option_bind] in E1.
    change (get_frame (ws_codec (frame (wf_ws_state ws_receive (wf_ws_codec codec (ww_incoming [] w0)))))) with (get_frame codec) in E1.
    unfold get_frame in E1. rewrite Eq in E1. set (w2 := wf_ws_state ws_process _) in E1. cbn [update_frame] in E1.
    change (receive (frame w2)) with (receive (frame w)) in E1. rewrite Rc in E1. cbn [mbind option_bind] in E1.
    destruct (close_queued call_next w2 D) as (w3 & E3 & H3); [discriminate|exact T|exact Ac|change (awaiting w2) with (awaiting w); rewrite Aw; eauto|].
    rewrite E3 in E1. injection E1 as <-. clear E3. unfold hang_side in H3. cbn in H3. injection H3 as H3 H4 H5 H6 H7 H8 H9.
    split; try congruence. split; congruence. }
  clear E1. assert (H' : hung w w').
  { revert w1 H E. induction es as [|e es IH]; intros w1 H E; [now injection E as <-|]. cbn [web_events] in E. apply bind_Some in E as (w2 & E2 & E).
    apply (IH ltac:(intros e0 a I; apply Nc; now right) w2); [|exact E]. eapply hung_event; [exact H| |exact E2]. intros a. apply Nc. now left. }
  destruct H' as [_ B C D _ [F G]]. auto.
Qed.

(** ** Examples *)

Fixpoint ok_along (dead : web_world -> bool) (ok : web_world -> web_event -> Prop) (es : list web_event) (w : web_world) : Prop :=
  match es with
  | [] => True
  | e :: es => ok w e /\ match web_event_step dead e w with Some w => ok_along dead ok es w | None => True end
  end.
Lemma run_events dead ok es w0 : forall w w', web_run dead ok w0 w -> ok_along dead ok es w -> web_events dead es w = Some w' -> web_run dead ok w0 w'.
Proof.
  induction es as [|e es IH]; intros w w' R O E; cbn [web_events ok_along] in *; [now injection E as <-|]. destruct O as [O1 O2].
  apply bind_Some in E as (w1 & E1 & E). rewrite E1 in O2. apply (IH w1); [|exact O2|exact E]. exact (run_event _ _ _ _ _ _ R O1 E1).
Qed.
Definition never_dead (_ : web_world) : bool := false.
Definition goes_on (_ : web_socket_op) (_ : list Z) : list web_action * bool := ([], false).
Definition sample_start : web_world := new_world example_codec no_callback no_callback no_callback (Some goes_on).
Definition told_user (id : nat) : web_callback := call_user id [].
(** Two messages, of which the first waits for the socket: its header goes out, then its payload, then a byte of the second header. *)
Definition sample_events : list web_event :=
  [do_call act_next; do_update; do_call (act_send 0 (chars "hi") op_text (told_user 1)); do_call (act_send 0 (chars "yo") op_text (told_user 2));
   do_writeable event_done [write_all; write_all; write_some 1]].
Definition sample_end : web_world := match web_events never_dead sample_events sample_start with Some w => w | None => sample_start end.
Lemma ws_sample_run ok : ok_along never_dead ok sample_events sample_start -> web_run never_dead ok sample_start sample_end.
Proof. intros O. apply (run_events never_dead ok sample_events sample_start sample_start); [apply run_none|exact O|vm_compute; reflexivity]. Qed.

Lemma ws_callbacks_accounted_witness : asked sample_end ≡ₚ [told_user 1] ++ [] ++ [told_user 2].
Proof.
  apply (ws_callbacks_accounted never_dead example_codec no_callback no_callback no_callback (Some goes_on) sample_end), ws_sample_run. vm_compute. repeat split.
Defined.
Lemma ws_frames_whole_witness : wire sample_end = send_frame 0 (chars "hi") op_text ++ [129] /\
  (exists rest, wire sample_end ++ rest = concat (map message_frame (begun_messages sample_end))).
Proof.
  split; [vm_compute; reflexivity|].
  apply (ws_frames_whole never_dead example_codec no_callback no_callback no_callback (Some goes_on) sample_end); [|vm_compute; discriminate].
  apply ws_sample_run. vm_compute. repeat split; discriminate.
Defined.
Definition queued_end : web_world := match web_events never_dead (firstn 4 sample_events) sample_start with Some w => w | None => sample_start end.
Lemma ws_queue_moves_witness : messages (frame queued_end) <> [] /\ (is_Some (awaiting queued_end) /\ busy (frame queued_end) = true) /\
  exists w', web_event_step never_dead (do_writeable event_done (repeat write_all 4)) queued_end = Some w' /\
    wire w' = send_frame 0 (chars "hi") op_text ++ send_frame 0 (chars "yo") op_text.
Proof.
  destruct (ws_queue_moves never_dead example_codec no_callback no_callback no_callback (Some goes_on) queued_end) as [A B]; [|vm_compute; reflexivity|].
  - apply (run_events never_dead _ (firstn 4 sample_events) sample_start sample_start); [apply run_none|vm_compute; repeat split|vm_compute; reflexivity].
  - split; [vm_compute; discriminate|]. split; [apply A; vm_compute; discriminate|].
    destruct (B (send_header 0 2 op_text) (after_header (chars "hi") (told_user 1)) (repeat write_all 4) 0%nat) as (w' & E & _ & _ & _ & _ & W); [vm_compute; reflexivity|reflexivity|vm_compute; repeat constructor|vm_compute; reflexivity|].
    exists w'. split; [exact E|]. rewrite W. vm_compute. reflexivity.
Defined.
Lemma ws_messages_in_order_witness : accepted sample_end = begun_messages sample_end ++ messages (frame sample_end) /\
  map msg_buffer (begun_messages sample_end) = [chars "hi"; chars "yo"].
Proof.
  split; [|vm_compute; reflexivity].
  apply (ws_messages_in_order never_dead example_codec no_callback no_callback no_callback (Some goes_on) sample_end); try reflexivity.
  - intros r E op data. injection E as <-. reflexivity.
  - apply ws_sample_run. vm_compute. repeat split.
Defined.
Lemma ws_event_returns_witness : exists w', web_event_step never_dead (do_writeable event_error []) sample_end = Some w'.
Proof.
  apply (ws_event_returns never_dead example_codec no_callback no_callback no_callback (Some goes_on)); [exact example_codec_ok| |exact I].
  apply ws_sample_run. vm_compute. repeat split.
Defined.

(** A connection that was told of bytes. *)
Definition woken (incoming : list ws_read) (outs : list ws_write) (receive : option receiver) : web_world :=
  let w := new_world example_codec no_callback no_callback no_callback receive in
  ww_updates 1 (ww_outcomes outs (ww_incoming incoming (wf_ws_state ws_process w))).
Definition sample_bursts : list (list (web_socket_op * option (list Z) * list Z)) :=
  [[(op_text, Some [1; 2; 3; 4], chars "hello"); (op_ping, None, [])]; [(op_text, None, chars "bye")]].
Lemma ws_burst_delivered_witness : exists w' codec',
  web_events never_dead (repeat do_update 4) (woken (map (fun fs => read_bytes (concat (map frame_of fs))) sample_bursts) [write_all] (Some goes_on)) = Some w' /\
  awaits_read w' = true /\ reading_world codec' ws_receive [] [] 0 [138; 0] [(op_text, chars "hello"); (op_ping, []); (op_text, chars "bye")] w'.
Proof.
  apply (ws_burst_delivered never_dead goes_on example_codec _ sample_bursts [] [] []); try reflexivity; try (intros; reflexivity).
  - exact example_codec_ok.
  - repeat (apply List.Forall_cons || apply List.Forall_nil); repeat split; try discriminate; try lia; try (apply digits_check; reflexivity).
  - repeat constructor.
  - repeat split.
Defined.

(** A close frame behind a write. *)
Definition writing (incoming : list ws_read) : web_world :=
  match web_events never_dead [do_call (act_send 0 (chars "hi") op_text no_callback)] (woken incoming [] None) with Some w => w | None => woken [] [] None end.
Lemma ws_close_hangs_witness : exists w', web_events never_dead [do_update; do_writeable event_done [write_all; write_all]] (writing [read_bytes [136; 0]]) = Some w' /\
  wire w' = send_frame 0 (chars "hi") op_text /\ active (frame w') = true /\ closes w' = [] /\ updates w' = 0%nat /\ awaits_read w' = false /\
  messages (frame w') = [mk_message 0 [] op_close call_next].
Proof.
  eexists. split; [vm_compute; reflexivity|]. split; [vm_compute; reflexivity|].
  apply (ws_close_hangs never_dead (writing [read_bytes [136; 0]]) _ (send_header 0 2 op_text) [] (after_header (chars "hi") no_callback)
    (match read_all example_codec [read_bytes [136; 0]] with Some (c, _, _) => c | None => example_codec end) [] [do_writeable event_done [write_all; write_all]]);
    try (vm_compute; reflexivity).
  intros e a I. apply list_elem_of_singleton in I as ->. discriminate.
Defined.

(** Where order, wholeness and delivery end: a callback that sends overtakes the queue; a frame goes into the middle of another whose write was cancelled;
    a message that arrives in two bursts is handed over as two, the second one as text; and what came with the end of the stream is not handed over. *)
Theorem ws_defects :
  let send b := do_call (act_send 0 b op_text no_callback) in
  let run es w := web_events never_dead es w in
  option_map (fun w => (map msg_buffer (accepted w), map msg_buffer (begun_messages w)))
    (run [do_call (act_send 0 (chars "a") op_text (call_user 1 [act_send 0 (chars "c") op_text no_callback])); send (chars "b"); do_writeable event_done (repeat write_all 6)]
       sample_start) = Some ([chars "a"; chars "b"; chars "c"], [chars "a"; chars "c"; chars "b"]) /\
  option_map wire (run [send (chars "abc"); send (chars "d"); do_writeable event_done [write_all; write_some 1]; do_writeable event_skip [write_all; write_all]] sample_start) =
    Some (send_header 0 3 op_text ++ chars "a" ++ send_frame 0 (chars "d") op_text) /\
  option_map delivered (run [do_call act_next; do_update; do_readable event_done [read_bytes [130; 4; 1; 2]; read_waits]; do_update; do_update;
    do_readable event_done [read_bytes [3; 4]; read_waits]; do_update; do_update] sample_start) = Some [(op_binary, [1; 2]); (op_text, [3; 4])] /\
  option_map (fun w => (delivered w, closes w))
    (run [do_update; do_update] (woken [read_bytes (send_frame 0 (chars "bye") op_text); read_fails] [] (Some goes_on))) = Some ([], [true]).
Proof. repeat split; vm_compute; reflexivity. Qed.
