(* ===== verification/Routing.v ===== *)
(** * Routing a request to a file (network/http.cpp 58-65, 535-698, 4180-4250, 4337-4437; http.h 411-510)

    [map_router] keeps groups of routes; [paths::construct_route] strips the location by the first group that takes it and finds the
    entry whose expression matches; [paths::construct_path] decodes the location, takes parent directories out of it, removes what
    the expression matched and puts the directory of the route in front.  An entry has an identity, what routing reads of it, and
    its other settings, which it passes on to the entries made from it.  Resolving a path and the user's hook are parameters. *)
From S2P Require Import Prelude Codec Text TextEdit HttpMessage Regex.
From stdpp Require Import list.
Open Scope Z_scope.
#[local] Open Scope rx_scope.

Inductive route_mode := route_exact | route_start | route_match | route_end.
#[export] Instance route_mode_eq_dec : EqDecision route_mode.
Proof. solve_decision. Defined.

Section Routing.
Context {Settings : Type} (default_settings : Settings).

Record router_entry := mk_entry {
  entry_id : nat; location_regex : regex_source; level : Z; files_directory : list Z; alias : list Z; settings : Settings }.
Record router_group := mk_group { group_match : list Z; group_mode : route_mode; routes : list router_entry }.
Record map_router := mk_router { listeners : list (list Z); groups : list router_group; base : router_entry; entries_made : nat }.

(** The fuel of compiling a pattern, and of a match. *)
Definition compile_pattern_ (pattern : list Z) : rx regex_source := compile (S (length pattern)) pattern false.
Definition new_entry (id : nat) (location : regex_source) : router_entry := mk_entry id location 0 [] [] default_settings.
Definition entry_from (id : nat) (other : router_entry) (source : regex_source) : router_entry :=
  mk_entry id source (level other) (files_directory other) (alias other) (settings other).
Definition new_router : rx map_router :=
  let* location := compile_pattern_ (chars "/") in rx_ok (mk_router [] [] (new_entry 0 location) 1).

(** ** The order of the routes *)

Definition is_simple (s : regex_source) : bool := negb (found (find_of (expression s) (chars "\+*?|[]") 0)).
Definition group_before (a b : router_group) : bool := (length (group_match b) <? length (group_match a))%nat.
Definition comparator (a b : router_entry) : bool :=
  let ra := expression (location_regex a) in let rb := expression (location_regex b) in
  match ra, rb with
  | [], _ => false
  | _, [] => true
  | _, _ =>
      if level b <? level a then true
      else if level a <? level b then false
      else
        let fa := is_simple (location_regex a) in let fb := is_simple (location_regex b) in
        if fa && negb fb then false
        else if negb fa && fb then true
        else (length rb <? length ra)%nat
  end.
(** [std::sort] with a comparator, as an insertion sort; the theorems use no more than that it sorts. *)
Fixpoint insert_before {A} (before : A -> A -> bool) (x : A) (l : list A) : list A :=
  match l with [] => [x] | y :: l' => if before y x then y :: insert_before before x l' else x :: l end.
Definition std_sort {A} (before : A -> A -> bool) (l : list A) : list A := foldr (insert_before before) [] l.
Definition router_sort (r : map_router) : map_router :=
  mk_router (listeners r)
    (map (fun g => mk_group (group_match g) (group_mode g) (std_sort comparator (routes g))) (std_sort group_before (groups r)))
    (base r) (entries_made r).

(** ** Adding and removing routes *)

Definition same_group (match_ : list Z) (mode : route_mode) (g : router_group) : bool :=
  bool_decide (group_match g = match_) && bool_decide (group_mode g = mode).
(** [group]: the index of the group. *)
Definition find_group (match_ : list Z) (mode : route_mode) (r : map_router) : option nat :=
  fst <$> list_find (fun g => same_group match_ mode g = true) (groups r).
Definition add_group (match_ : list Z) (mode : route_mode) (r : map_router) : map_router * nat :=
  match find_group match_ mode r with
  | Some i => (r, i)
  | None => (mk_router (listeners r) (groups r ++ [mk_group match_ mode []]) (base r) (entries_made r), length (groups r))
  end.
(** The loop of [route]: an entry of the pattern, or the last group of the kind. *)
Fixpoint find_route (match_ : list Z) (mode : route_mode) (pattern : list Z) (i : nat) (gs : list router_group) (source : option nat)
  : option router_entry * option nat :=
  match gs with
  | [] => (None, source)
  | g :: gs =>
      if same_group match_ mode g then
        match list_find (fun e => expression (location_regex e) = pattern) (routes g) with
        | Some (_, e) => (Some e, Some i)
        | None => find_route match_ mode pattern (S i) gs (Some i)
        end
      else find_route match_ mode pattern (S i) gs source
  end.
Section Match.
Context (fuel : nat).
(** [regex::match] on a text. *)
Definition regex_match_text (src : regex_source) (text : list Z) : rx (bool * list regex_match) :=
  let* (ok, r) := regex_match_source src text fuel 0 in rx_ok (ok, result_matches r).
(** The entry a new one takes its settings from: in every group the first that is like the pattern, the last of these. *)
Fixpoint inherit_in (src : list Z) (es : list router_entry) : rx (option router_entry) :=
  match es with
  | [] => rx_ok None
  | e :: es =>
      let dest := to_lower (expression (location_regex e)) in
      if starts_with dest (chars "...") 0 && ends_with dest (chars "...") then inherit_in src es
      else if found (find_text src dest 0) then rx_ok (Some e)
      else let* (ok, _) := regex_match_text (location_regex e) src in if (ok : bool) then rx_ok (Some e) else inherit_in src es
  end.
Fixpoint inherit (src : list Z) (gs : list router_group) (from : router_entry) : rx router_entry :=
  match gs with
  | [] => rx_ok from
  | g :: gs => let* e := inherit_in src (routes g) in inherit src gs match e with Some e => e | None => from end
  end.
Definition push_route (i : nat) (e : router_entry) (r : map_router) : map_router :=
  mk_router (listeners r) (alter (fun g => mk_group (group_match g) (group_mode g) (routes g ++ [e])) i (groups r)) (base r) (S (entries_made r)).
Definition route_into (pattern : list Z) (i : nat) (from : option router_entry) (r : map_router) : rx (map_router * router_entry) :=
  let* source := compile_pattern_ pattern in
  let e := match from with Some f => entry_from (entries_made r) f source | None => new_entry (entries_made r) source end in
  rx_ok (push_route i e r, e).
Definition route (match_ : list Z) (mode : route_mode) (pattern : list Z) (inherit_props : bool) (r : map_router) : rx (map_router * router_entry) :=
  if bool_decide (pattern = []) || bool_decide (pattern = [47]) then rx_ok (r, base r)
  else
    match find_route match_ mode pattern 0 (groups r) None with
    | (Some e, _) => rx_ok (r, e)
    | (None, source) =>
        let '(r, i) := match source with
          | Some i => (r, i)
          | None => (mk_router (listeners r) (groups r ++ [mk_group match_ mode []]) (base r) (entries_made r), length (groups r)) end in
        if inherit_props then let* from := inherit (to_lower pattern) (groups r) (base r) in route_into pattern i (Some from) r
        else route_into pattern i None r
    end.
Fixpoint remove_from (id : nat) (gs : list router_group) : list router_group * bool :=
  match gs with
  | [] => ([], false)
  | g :: gs =>
      match list_find (fun e => entry_id e = id) (routes g) with
      | Some (k, _) => (mk_group (group_match g) (group_mode g) (delete k (routes g)) :: gs, true)
      | None => let '(gs, b) := remove_from id gs in (g :: gs, b)
      end
  end.
Definition remove_route (source : router_entry) (r : map_router) : map_router * bool :=
  let '(gs, b) := remove_from (entry_id source) (groups r) in (mk_router (listeners r) gs (base r) (entries_made r), b).

(** ** Finding the route of a request *)

Record routed := mk_routed { routed_entry : router_entry; routed_location : list Z; routed_match : list regex_match }.
Definition first_slash (location : list Z) : list Z :=
  match location with [] => [47] | c :: _ => if c =? 47 then location else 47 :: location end.
(** The location without what the group stands for; [None]: the group is passed over. *)
Definition strip_group (g : router_group) (location : list Z) : option (list Z) :=
  match group_match g with
  | [] => Some location
  | m =>
      match group_mode g with
      | route_exact => if bool_decide (location = m) then Some (first_slash []) else None
      | route_start => if starts_with location m 0 then Some (first_slash (skipn (length m) location)) else None
      | route_match => if found (find_text location m 0) then Some (first_slash location) else None
      | route_end => if ends_with location m then Some (first_slash (firstn (length location - length m) location)) else None
      end
  end.
Fixpoint match_routes (location : list Z) (es : list router_entry) : rx (option routed) :=
  match es with
  | [] => rx_ok None
  | e :: es =>
      let* (ok, ms) := regex_match_text (location_regex e) location in
      if (ok : bool) then rx_ok (Some (mk_routed e location ms)) else match_routes location es
  end.
Fixpoint match_groups (referrer : list Z) (gs : list router_group) : rx (option routed) :=
  match gs with
  | [] => rx_ok None
  | g :: gs =>
      match strip_group g referrer with
      | None => match_groups referrer gs
      | Some location => let* r := match_routes location (routes g) in match r with Some r => rx_ok (Some r) | None => match_groups referrer gs end
      end
  end.
Definition listens (r : map_router) (host : option (list Z)) : rx bool :=
  match listeners r with
  | [] => rx_fault
  | [name] => rx_ok (bool_decide (name = [42]) || match host with Some h => bool_decide (name = h) | None => false end)
  | names => rx_ok (match host with Some h => bool_decide (h ∈ names) || bool_decide ([42] ∈ names) | None => false end)
  end.
(** [None]: the request is refused.  The base route has no match. *)
Definition construct_route (r : map_router) (headers : kimv_unordered_map) (location : list Z) : rx (option routed) :=
  match location with
  | 47 :: _ =>
      let* ok := listens r (get_header_blob headers (chars "Host")) in
      if negb ok then rx_ok None
      else if (length location =? 1)%nat then rx_ok (Some (mk_routed (base r) location []))
      else let* found := match_groups location (groups r) in
           rx_ok (Some match found with Some f => f | None => mk_routed (base r) location [] end)
  | _ => rx_ok None
  end.
End Match.

(** ** The path of a request *)

Definition path_trailing_check (path : list Z) : bool := match path with [] => false | _ => List.last path 0 =? 47 end.
(** The loop over the location; [skip] characters of an escape are already read. *)
Fixpoint decode_location (skip : nat) (location : list Z) : list Z :=
  match location with
  | [] => []
  | c :: rest =>
      match skip with
      | S k => decode_location k rest
      | O =>
          if (c =? 37) && negb (bool_decide (rest = [])) then
            if hd 0 rest =? 117 then
              let '(ok, value) := hex_to_decimal rest 1 4 in
              if (ok : bool) then utf8 value ++ decode_location 5 rest else c :: decode_location 0 rest
            else
              let '(ok, value) := hex_to_decimal rest 0 2 in
              if (ok : bool) then u8 value :: decode_location 2 rest else c :: decode_location 0 rest
          else if c =? 43 then 32 :: decode_location 0 rest
          else c :: decode_location 0 rest
      end
  end.
Definition is_separator (c : Z) : bool := (c =? 47) || (c =? 92).
Fixpoint skip_dots (l : list Z) : list Z :=
  match l with
  | 46 :: ((46 :: _) as l') => skip_dots l'
  | _ => l
  end.
(** The copying loop; [after]: a separator was copied and the inner loop goes on. *)
Fixpoint copy_path (after : bool) (l : list Z) : list Z :=
  match l with
  | [] => []
  | c :: l' =>
      if after && is_separator c then copy_path true l'
      else
        match l' with
        | d :: l'' => if after && (c =? 46) && (d =? 46) then copy_path true l'' else c :: copy_path (is_separator c) l'
        | [] => [c]
        end
  end.
(** In place: the copy stops at the first zero, and what it did not reach stays behind it. *)
Definition sanitize_path (path : list Z) : list Z :=
  let text := cstr path in
  let copy := copy_path false (skip_dots text) in
  let size := (length text - length copy)%nat in
  let buffer := copy ++ skipn (length copy) path in
  if (0 <? size)%nat && negb (size =? length path)%nat then firstn (length path - size) buffer else buffer.

(** A path ends in a slash where the location does. *)
Definition trailing_like (location path : list Z) : list Z :=
  match path_trailing_check path, path_trailing_check location with
  | false, true => path ++ [47]
  | true, false => removelast path
  | _, _ => path
  end.

Section Path.
(** [os::path::resolve]: the path of the file, if there is one. *)
Context (resolve : list Z -> option (list Z)).
Definition construct_path (r : routed) (path : list Z) : list Z :=
  let e := routed_entry r in
  match alias e, files_directory e with
  | (_ :: _) as a, _ => a
  | [], [] => path
  | [], directory =>
      let path := sanitize_path (path ++ decode_location 0 (routed_location r)) in
      let path :=
        match routed_match r with
        | m :: _ =>
            if (1 <? length path)%nat then
              remove_part path (Nat.min (length path) (Z.to_nat (u64 (match_start m)))) (Nat.min (length path) (Z.to_nat (u64 (match_end m))))
            else path
        | [] => path
        end in
      let path := directory ++ path in
      let path := match resolve (cstr path) with Some p => p | None => path end in
      trailing_like (routed_location r) path
  end.
End Path.
End Routing.
