(* ===== verification/RoutingFacts.v ===== *)
(** * Routing: theorems

    Which entry a request gets, that adding a route twice gives the same entry, which paths stay in the directory of the route - and the
    requests that leave it. *)
From S2P Require Import Prelude Codec Text TextEdit HttpMessage Regex Routing.
From stdpp Require Import list sorting.
Open Scope Z_scope.

(** ** Paths that do not climb *)

Fixpoint segments (l : list Z) : list (list Z) :=
  match l with
  | [] => [[]]
  | c :: l' => if c =? 47 then [] :: segments l' else match segments l' with s :: r => (c :: s) :: r | [] => [[c]] end
  end.
(** Following the segments from a directory leads above it. *)
Fixpoint climbs (depth : nat) (segs : list (list Z)) : bool :=
  match segs with
  | [] => false
  | s :: segs =>
      if bool_decide (s = [46; 46]) then match depth with O => true | S d => climbs d segs end
      else if bool_decide (s = []) || bool_decide (s = [46]) then climbs depth segs
      else climbs (S depth) segs
  end.
Lemma climbs_none segs : List.Forall (fun s => s <> [46; 46]) segs -> forall d, climbs d segs = false.
Proof.
  induction 1 as [|s segs N _ IH]; intros d; cbn [climbs]; [reflexivity|]. rewrite bool_decide_eq_false_2 by exact N.
  destruct (_ || _); apply IH.
Qed.
(** No separator has two dots behind it. *)
Fixpoint no_up (after : bool) (l : list Z) : bool :=
  match l with
  | [] => true
  | c :: l' => negb (after && (c =? 46) && match l' with d :: _ => d =? 46 | [] => false end) && no_up (is_separator c) l'
  end.
Lemma no_up_later after l : no_up after l = true -> no_up false l = true.
Proof. destruct l; [reflexivity|]. cbn [no_up]. intros H. apply andb_true_iff in H as [_ H]. now rewrite H. Qed.
Lemma no_up_suffix n : forall after l, no_up after l = true -> no_up false (skipn n l) = true.
Proof.
  induction n as [|n IH]; intros after l H; [eapply no_up_later; exact H|]. destruct l as [|c l]; [reflexivity|]. cbn [no_up skipn] in *.
  apply andb_true_iff in H as [_ H]. eauto.
Qed.
Lemma segments_cons l : exists s r, segments l = s :: r.
Proof. destruct l as [|c l]; cbn [segments]; [eauto|]. destruct (c =? 47); [eauto|]. destruct (segments l); eauto. Qed.
Lemma no_up_segments l : forall after, no_up after l = true -> exists s r, segments l = s :: r /\ List.Forall (fun s => s <> [46; 46]) r /\ (after = true -> s <> [46; 46]).
Proof.
  induction l as [|c l IH]; intros after H; cbn [segments]; [exists [], []; repeat split; auto|].
  cbn [no_up] in H. apply andb_true_iff in H as [H1 H2]. destruct (IH _ H2) as (s & r & E & F & N). rewrite E. destruct (Z.eqb_spec c 47) as [->|Nc].
  - exists [], (s :: r). repeat split; auto.
  - exists (c :: s), r. repeat split; auto. intros -> X. injection X as -> ->. cbn [andb Z.eqb Pos.eqb] in H1.
    destruct l as [|d l]; [discriminate E|]. cbn [segments] in E. destruct (Z.eqb_spec d 47) as [->|Nd]; [discriminate E|].
    destruct (segments_cons l) as (s1 & r1 & E1). rewrite E1 in E. injection E as -> _ _. discriminate H1.
Qed.
Lemma no_up_climbs l : no_up false l = true -> match l with c :: _ => c = 47 | [] => True end -> forall d, climbs d (segments l) = false.
Proof.
  intros H Hd. apply climbs_none. destruct l as [|c l]; [now repeat constructor|]. subst c. destruct (no_up_segments _ _ H) as (s & r & E & F & _). rewrite E.
  cbn [segments Z.eqb Pos.eqb] in E. injection E as <- _. now constructor.
Qed.

Lemma copy_no_up l : forall after, no_up after (copy_path after l) = true.
Proof.
  induction l as [l IH] using (induction_ltof1 _ (@length Z)); unfold ltof in IH. intros after. destruct l as [|c l]; [reflexivity|]. cbn [copy_path].
  destruct (after && is_separator c) eqn:A.
  - apply andb_true_iff in A as [-> _]. apply IH. cbn; lia.
  - destruct l as [|d l]; [cbn; now rewrite andb_false_r|]. destruct (after && (c =? 46) && (d =? 46)) eqn:B.
    + apply andb_true_iff in B as [B _]. apply andb_true_iff in B as [-> _]. apply IH. cbn; lia.
    + cbn [no_up]. rewrite IH by (cbn; lia). rewrite andb_true_r. apply negb_true_iff. destruct (after && (c =? 46)) eqn:C; [|reflexivity].
      apply andb_true_iff in C as [-> C]. assert (Ec : is_separator c = false) by (unfold is_separator; lia). rewrite Ec. cbn [andb] in B.
      cbn [copy_path andb]. destruct l; cbn; exact B.
Qed.

Lemma copy_length l : forall after, (length (copy_path after l) <= length l)%nat.
Proof.
  induction l as [l IH] using (induction_ltof1 _ (@length Z)); unfold ltof in IH. intros after. destruct l as [|c l]; [cbn; lia|]. cbn [copy_path].
  destruct (after && is_separator c); [specialize (IH l ltac:(cbn; lia) true); cbn; lia|]. destruct l as [|d l]; [cbn; lia|].
  destruct (after && (c =? 46) && (d =? 46)); [specialize (IH l ltac:(cbn; lia) true); cbn; lia|].
  specialize (IH (d :: l) ltac:(cbn; lia) (is_separator c)). cbn in *. lia.
Qed.
Lemma copy_head c l : c <> 46 -> copy_path false (c :: l) = c :: copy_path (is_separator c) l.
Proof. intros N. cbn [copy_path andb]. now destruct l. Qed.
(** A path without zeros that starts with a slash is replaced by its copy. *)
Lemma sanitize_copy path : List.Forall (fun b => b <> 0) path -> match path with c :: _ => c = 47 | [] => True end ->
  sanitize_path path = copy_path false path.
Proof.
  intros F H. unfold sanitize_path. rewrite cstr_no0 by exact F. destruct path as [|c path]; [reflexivity|]. subst c.
  change (skip_dots (47 :: path)) with (47 :: path). set (p := 47 :: path). pose proof (copy_length p false) as L.
  assert (Nn : (0 < length (copy_path false p))%nat) by (unfold p; rewrite copy_head by lia; cbn; lia).
  destruct ((0 <? length p - length (copy_path false p))%nat) eqn:Z0; cbn [andb].
  - rewrite (proj2 (Nat.eqb_neq _ _)) by lia. cbn [negb]. replace (length p - (length p - length (copy_path false p)))%nat with (length (copy_path false p)) by lia.
    now rewrite take_app_length.
  - apply Nat.ltb_ge in Z0. rewrite drop_ge by lia. apply app_nil_r.
Qed.
Lemma copy_start path : match path with c :: _ => c = 47 | [] => True end -> match copy_path false path with c :: _ => c = 47 | [] => True end.
Proof. destruct path as [|c path]; [auto|]. intros ->. rewrite copy_head by lia. reflexivity. Qed.

Section Routing.
Context {Settings : Type} (default_settings : Settings).
Abbreviation router_entry := (@router_entry Settings).
Abbreviation router_group := (@router_group Settings).
Abbreviation map_router := (@map_router Settings).
Abbreviation routed := (@routed Settings).

(** (C33) Where the route has captured nothing, or a beginning of the path that ends at a slash, what follows the directory of the route in the path of a request
    leads nowhere above it - whatever the location is encoded like, if there is no zero in it. *)
Theorem path_stays_below (resolve : list Z -> option (list Z)) (r : routed) :
  alias (routed_entry r) = [] -> files_directory (routed_entry r) <> [] -> hd 0 (routed_location r) = 47 ->
  List.Forall (fun b => b <> 0) (decode_location 0 (routed_location r)) ->
  let path := sanitize_path (decode_location 0 (routed_location r)) in
  match routed_match r with [] => True | m :: _ => match_start m = 0 /\ hd 47 (skipn (Z.to_nat (u64 (match_end m))) path) = 47 end ->
  exists q, (forall depth, climbs depth (segments q) = false) /\
    let file := files_directory (routed_entry r) ++ q in
    construct_path resolve r [] = trailing_like (routed_location r) match resolve (cstr file) with Some f => f | None => file end.
Proof.
  intros A D L F path M. unfold construct_path. rewrite A. destruct (files_directory (routed_entry r)) as [|d directory] eqn:Ed; [congruence|].
  cbn [app]. fold path. set (p := decode_location 0 (routed_location r)) in *.
  assert (Hp : match p with c :: _ => c = 47 | [] => True end).
  { subst p. destruct (routed_location r) as [|c l]; cbn in L; [discriminate|]. subst c. reflexivity. }
  assert (Ep : path = copy_path false p) by exact (sanitize_copy p F Hp). assert (Up : no_up false path = true) by (rewrite Ep; apply copy_no_up).
  assert (Sp : match path with c :: _ => c = 47 | [] => True end) by (rewrite Ep; now apply copy_start).
  destruct (routed_match r) as [|m ms].
  - exists path. split; [now apply no_up_climbs|reflexivity].
  - destruct M as [M0 M1]. destruct (1 <? length path)%nat; [|exists path; split; [now apply no_up_climbs|reflexivity]].
    rewrite M0. change (Z.to_nat (u64 0)) with 0%nat. rewrite Nat.min_0_r. set (k := Z.to_nat (u64 (match_end m))) in *.
    assert (Q : exists n, remove_part path 0 (Nat.min (length path) k) = skipn n path /\ hd 47 (skipn n path) = 47).
    { unfold remove_part, substr. cbn [Nat.eqb]. destruct (Nat.eqb_spec (length path) (Nat.min (length path) k)) as [E|N]; cbn [negb].
      - exists (length path). now rewrite skipn_all.
      - exists k. replace (Nat.min (length path) k) with k by lia. rewrite firstn_all2 by (rewrite length_skipn; lia). now split. }
    destruct Q as (n & -> & H). exists (skipn n path). split; [|reflexivity]. apply no_up_climbs; [eapply no_up_suffix; exact Up|].
    destruct (skipn n path); [auto|exact H].
Qed.

(** ** The order of routes *)

(** What [std::sort] asks of its comparator. *)
Record strict_weak_order {A} (before : A -> A -> bool) : Prop := mk_strict_weak_order {
  never_self : forall a, before a a = false;
  before_trans : forall a b c, before a b = true -> before b c = true -> before a c = true;
  alike_trans : forall a b c, before a b = false -> before b a = false -> before b c = false -> before c b = false -> before a c = false /\ before c a = false }.
(** The comparator compares these: has an expression, the level, is not simple, the length. *)
Definition entry_key (e : router_entry) : Z * Z * Z * Z :=
  let x := expression (location_regex e) in
  (if bool_decide (x = []) then 0 else 1, level e, if is_simple (location_regex e) then 0 else 1, Z.of_nat (length x)).
Definition key_before (a b : Z * Z * Z * Z) : bool :=
  let '(a1, a2, a3, a4) := a in let '(b1, b2, b3, b4) := b in
  if a1 =? 0 then false else if b1 =? 0 then true else if b2 <? a2 then true else if a2 <? b2 then false
  else if a3 <? b3 then false else if b3 <? a3 then true else b4 <? a4.
Lemma comparator_key a b : comparator a b = key_before (entry_key a) (entry_key b).
Proof.
  unfold comparator, entry_key, key_before. destruct (expression (location_regex a)) as [|x xs]; [reflexivity|]. destruct (expression (location_regex b)) as [|y ys]; [reflexivity|].
  rewrite !bool_decide_eq_false_2 by discriminate. cbn [Z.eqb]. destruct (level b <? level a); [reflexivity|]. destruct (level a <? level b); [reflexivity|].
  destruct (is_simple (location_regex a)), (is_simple (location_regex b)); try reflexivity; cbn [andb negb Z.ltb Z.compare]; cbn [length].
  1-2: destruct (Nat.ltb_spec (S (length ys)) (S (length xs))), (Z.ltb_spec (Z.of_nat (S (length ys))) (Z.of_nat (S (length xs)))); lia || reflexivity.
Qed.
Lemma comparator_order : strict_weak_order (@comparator Settings).
Proof.
  split; intros *; rewrite ?comparator_key.
  - destruct (entry_key a) as [[[a1 a2] a3] a4]. unfold key_before. repeat case_match; lia || reflexivity.
  - destruct (entry_key a) as [[[a1 a2] a3] a4], (entry_key b) as [[[b1 b2] b3] b4], (entry_key c) as [[[c1 c2] c3] c4]. unfold key_before. repeat case_match; lia || congruence.
  - destruct (entry_key a) as [[[a1 a2] a3] a4], (entry_key b) as [[[b1 b2] b3] b4], (entry_key c) as [[[c1 c2] c3] c4]. unfold key_before.
    repeat case_match; (split; reflexivity) || congruence || lia.
Qed.

Section Sort.
Context {A : Type} (before : A -> A -> bool) (W : strict_weak_order before).
Definition not_after (a b : A) : Prop := before b a = false.
Lemma not_after_trans a b c : not_after a b -> not_after b c -> not_after a c.
Proof.
  unfold not_after. intros H1 H2. destruct (before c a) eqn:E; [|reflexivity]. destruct (before b c) eqn:E1; [rewrite (before_trans _ W _ _ _ E1 E) in H1; discriminate|].
  destruct (before a b) eqn:E2; [rewrite (before_trans _ W _ _ _ E E2) in H2; discriminate|]. destruct (alike_trans _ W a b c E2 H1 E1 H2). congruence.
Qed.
Lemma insert_perm x l : insert_before before x l ≡ₚ x :: l.
Proof. induction l as [|y l IH]; cbn [insert_before]; [reflexivity|]. destruct (before y x); [|reflexivity]. rewrite IH. apply Permutation_swap. Qed.
Lemma sort_perm l : std_sort before l ≡ₚ l.
Proof. induction l as [|x l IH]; cbn; [reflexivity|]. rewrite insert_perm. now constructor. Qed.
Lemma insert_sorted x l : StronglySorted not_after l -> StronglySorted not_after (insert_before before x l).
Proof.
  induction 1 as [|y l S IH F]; cbn [insert_before]; [repeat constructor|]. destruct (before y x) eqn:E.
  - constructor; [exact IH|]. rewrite insert_perm. constructor; [|exact F]. unfold not_after. destruct (before x y) eqn:E'; [|reflexivity].
    pose proof (before_trans _ W _ _ _ E E') as Y. now rewrite (never_self _ W) in Y.
  - constructor; [now constructor|]. constructor; [exact E|]. eapply List.Forall_impl; [|exact F]. intros z Hz. eapply not_after_trans; [exact E|exact Hz].
Qed.
Lemma sort_sorted l : StronglySorted not_after (std_sort before l).
Proof. induction l as [|x l IH]; cbn; [constructor|now apply insert_sorted]. Qed.
Lemma sorted_later pre x post y : StronglySorted not_after (pre ++ x :: post) -> y ∈ x :: post -> before y x = false.
Proof.
  intros S Y. apply StronglySorted_app_1_r in S. inversion_clear S as [|? ? S' F]. apply elem_of_cons in Y as [->|Y]; [apply (never_self _ W)|].
  rewrite List.Forall_forall in F. apply F. now apply list_elem_of_In.
Qed.
End Sort.
Lemma group_order : strict_weak_order (@group_before Settings).
Proof. split; unfold group_before; intros *; rewrite ?Nat.ltb_irrefl, ?Nat.ltb_lt, ?Nat.ltb_ge; lia. Qed.

(** ** Which entry a request gets *)

Section Match.
Context (fuel : nat).
Definition takes (e : router_entry) (location : list Z) : Prop := exists ms, regex_match_text fuel (location_regex e) location = rx_ok (true, ms).
Lemma match_routes_spec location es r : match_routes fuel location es = rx_ok r ->
  match r with
  | None => forall e, e ∈ es -> ~ takes e location
  | Some f => exists pre post, es = pre ++ routed_entry f :: post /\ (forall e, e ∈ pre -> ~ takes e location) /\ routed_location f = location /\
      regex_match_text fuel (location_regex (routed_entry f)) location = rx_ok (true, routed_match f)
  end.
Proof.
  revert r. induction es as [|e es IH]; intros r E; cbn [match_routes] in E; [injection E as <-; intros e H; now apply not_elem_of_nil in H|].
  destruct (regex_match_text fuel (location_regex e) location) as [[[|] ms]| |] eqn:M; try discriminate; cbn [rx_bind] in E.
  - injection E as <-. exists [], es. cbn. repeat split; auto. intros e0 H. now apply not_elem_of_nil in H.
  - assert (N : ~ takes e location) by (intros [ms' T]; congruence). apply IH in E. destruct r as [f|].
    + destruct E as (pre & post & -> & P & L & T). exists (e :: pre), post. repeat split; auto. intros e0 H. apply elem_of_cons in H as [->|H]; auto.
    + intros e0 H. apply elem_of_cons in H as [->|H]; auto.
Qed.
Definition group_takes (location : list Z) (g : router_group) : Prop := exists e location', e ∈ routes g /\ strip_group g location = Some location' /\ takes e location'.
Lemma match_groups_spec location gs r : match_groups fuel location gs = rx_ok r ->
  match r with
  | None => forall g, g ∈ gs -> ~ group_takes location g
  | Some f => exists pre g post, gs = pre ++ g :: post /\ (forall g, g ∈ pre -> ~ group_takes location g) /\ strip_group g location = Some (routed_location f) /\
      match_routes fuel (routed_location f) (routes g) = rx_ok (Some f)
  end.
Proof.
  revert r. induction gs as [|g gs IH]; intros r E; cbn [match_groups] in E; [injection E as <-; intros g H; now apply not_elem_of_nil in H|].
  assert (Next : ~ group_takes location g -> match_groups fuel location gs = rx_ok r -> match r with
    | None => forall g0, g0 ∈ g :: gs -> ~ group_takes location g0
    | Some f => exists pre g0 post, g :: gs = pre ++ g0 :: post /\ (forall g, g ∈ pre -> ~ group_takes location g) /\ strip_group g0 location = Some (routed_location f) /\
        match_routes fuel (routed_location f) (routes g0) = rx_ok (Some f) end).
  { intros N E0. apply IH in E0. destruct r as [f|].
    - destruct E0 as (pre & g0 & post & -> & P & S & M). exists (g :: pre), g0, post. repeat split; auto. intros g1 H. apply elem_of_cons in H as [->|H]; auto.
    - intros g1 H. apply elem_of_cons in H as [->|H]; auto. }
  destruct (strip_group g location) as [location'|] eqn:St; [|apply Next; [|exact E]; intros (e & l & _ & S & _); congruence].
  destruct (match_routes fuel location' (routes g)) as [[f|]| |] eqn:M; try discriminate; cbn [rx_bind] in E.
  - injection E as <-. exists [], g, gs. pose proof (match_routes_spec _ _ _ M) as (_ & _ & _ & _ & L & _). subst location'. repeat split; auto.
    intros g0 H. now apply not_elem_of_nil in H.
  - apply Next; [|exact E]. intros (e & l & H & S & T). rewrite St in S. injection S as <-. exact (match_routes_spec _ _ _ M e H T).
Qed.

(** (C34) On a sorted router a request gets an entry of a group it fits, and no entry that would take the request is in a group with a longer name, or is better in the
    order of the same group; it gets the base entry only where no entry of any group takes it, or for the location of a single slash. *)
Theorem route_most_specific (r : map_router) (headers : kimv_unordered_map) (location : list Z) (f : routed) :
  construct_route fuel (router_sort r) headers location = rx_ok (Some f) ->
  (f = mk_routed (base r) location [] /\ (location = [47] \/ forall g, g ∈ groups r -> ~ group_takes location g)) \/
  (exists g, g ∈ groups r /\ routed_entry f ∈ routes g /\ strip_group g location = Some (routed_location f) /\
    regex_match_text fuel (location_regex (routed_entry f)) (routed_location f) = rx_ok (true, routed_match f) /\
    (forall g', g' ∈ groups r -> group_takes location g' -> (length (group_match g') <= length (group_match g))%nat) /\
    (forall e, e ∈ routes g -> takes e (routed_location f) -> comparator e (routed_entry f) = false)).
Proof.
  unfold construct_route. destruct location as [|c l]; [discriminate|].
  assert (E0 : forall x : rx (option routed), match c with 47 => x | _ => rx_ok None end = rx_ok (Some f) -> c = 47 /\ x = rx_ok (Some f)).
  { intros x. repeat (case_match; try discriminate). auto. }
  intros E. apply E0 in E as [-> E]. clear E0. set (location := 47 :: l) in *. destruct (listens _ _) as [[|]| |]; try discriminate. cbn [rx_bind negb] in E.
  destruct (Nat.eqb_spec (length location) 1) as [L1|L1].
  { injection E as <-. left. split; [reflexivity|]. left. destruct l; [reflexivity|discriminate]. }
  set (resort := fun g => mk_group (group_match g) (group_mode g) (std_sort (@comparator Settings) (routes g))) in *.
  assert (Gr : forall g, group_takes location (resort g) <-> group_takes location g).
  { intros g. split; intros (e & l' & H & S & T); exists e, l'; (split; [|split; [exact S|exact T]]); unfold resort in *; cbn [routes] in *;
      [rewrite sort_perm in H; exact H|rewrite sort_perm; exact H]. }
  change (groups (router_sort r)) with (map resort (std_sort group_before (groups r))) in E.
  destruct (match_groups fuel location (map resort (std_sort group_before (groups r)))) as [[f'|]| |] eqn:M; try discriminate; cbn [rx_bind] in E; injection E as <-;
    apply match_groups_spec in M.
  - right. destruct M as (pre & g & post & Eg & P & S & R). apply map_eq_app in Eg as (pre' & rest & Es & Ep & Er). apply map_eq_cons in Er as (g0 & post' & -> & <- & <-). subst pre.
    pose proof (sort_sorted group_before group_order (groups r)) as Sg. rewrite Es in Sg.
    assert (In : forall g', g' ∈ groups r <-> g' ∈ pre' ++ g0 :: post') by (intros g'; rewrite <- Es, sort_perm; reflexivity).
    exists g0. split; [apply In, elem_of_app; right; now left|]. apply match_routes_spec in R as (pe & qe & Ee & Pe & L & T). cbn [routes resort] in Ee.
    pose proof (sort_sorted comparator comparator_order (routes g0)) as Sr. rewrite Ee in Sr.
    assert (Ine : forall e, e ∈ routes g0 <-> e ∈ pe ++ routed_entry f' :: qe) by (intros e; rewrite <- Ee, sort_perm; reflexivity).
    split; [apply Ine, elem_of_app; right; now left|]. split; [exact S|]. split; [exact T|]. split.
    + intros g' H' T'. apply In in H'. apply elem_of_app in H' as [H'|H'].
      * exfalso. apply (P (resort g')); [apply list_elem_of_fmap; eauto|now apply Gr].
      * pose proof (sorted_later group_before group_order _ _ _ _ Sg H') as B. unfold group_before in B. apply Nat.ltb_ge in B. exact B.
    + intros e He Te. apply Ine in He. apply elem_of_app in He as [He|He]; [destruct (Pe e He Te)|]. exact (sorted_later comparator comparator_order _ _ _ _ Sr He).
  - left. split; [reflexivity|]. right. intros g H T. apply (M (resort g)); [|now apply Gr]. apply list_elem_of_fmap. exists g. split; [reflexivity|]. now rewrite sort_perm.
Qed.
End Match.

(** ** Adding a route twice *)
Lemma compile_expression pattern src : compile_pattern_ pattern = rx_ok src -> expression src = pattern.
Proof.
  unfold compile_pattern_, compile. destruct (compile_loop _ _ _ _ _ _) as [[[bs rs] [s|depth]]| |]; cbn [rx_bind]; intros E; try discriminate; [now injection E as <-|].
  destruct (negb _); now injection E as <-.
Qed.
Definition has_pattern (pattern : list Z) (g : router_group) : Prop := exists e, e ∈ routes g /\ expression (location_regex e) = pattern.
Lemma find_route_none m mode pattern (gs : list router_group) : forall i source s, find_route m mode pattern i gs source = (None, s) ->
  (forall g, g ∈ gs -> same_group m mode g = true -> ~ has_pattern pattern g) /\
  match s with Some k => source = Some k \/ exists g, gs !! (k - i)%nat = Some g /\ (i <= k)%nat /\ same_group m mode g = true | None => True end.
Proof.
  induction gs as [|g gs IH]; intros i source s E; cbn [find_route] in E.
  - injection E as <-. split; [intros g H; now apply not_elem_of_nil in H|]. destruct source; auto.
  - destruct (same_group m mode g) eqn:Sg.
    + destruct (list_find _ (routes g)) as [[k e]|] eqn:Lf; [discriminate|]. apply list_find_None in Lf. apply IH in E as [N S]. split.
      * intros g0 H Sg0 (e & He & Ep). apply elem_of_cons in H as [->|H]; [|apply (N g0 H Sg0); now exists e].
        rewrite List.Forall_forall in Lf. apply (Lf e); [now apply list_elem_of_In|exact Ep].
      * destruct s as [k|]; [|exact I]. right. destruct S as [S|(g0 & G0 & L & S0)].
        -- injection S as <-. exists g. now rewrite Nat.sub_diag.
        -- exists g0. destruct (k - i)%nat as [|j] eqn:Ek; [lia|]. cbn. replace (k - S i)%nat with j in G0 by lia. repeat split; auto. lia.
    + apply IH in E as [N S]. split.
      * intros g0 H Sg0. apply elem_of_cons in H as [->|H]; [congruence|auto].
      * destruct s as [k|]; [|exact I]. destruct S as [S|(g0 & G0 & L & S0)]; [now left|]. right. exists g0.
        destruct (k - i)%nat as [|j] eqn:Ek; [lia|]. cbn. replace (k - S i)%nat with j in G0 by lia. repeat split; auto. lia.
Qed.
Lemma find_in_routes pattern (es : list router_entry) (e : router_entry) : (forall x, x ∈ es -> expression (location_regex x) <> pattern) -> expression (location_regex e) = pattern ->
  exists k, list_find (fun x : router_entry => expression (location_regex x) = pattern) (es ++ [e]) = Some (k, e).
Proof.
  intros N E. exists (length es). apply list_find_Some. rewrite list_lookup_middle by reflexivity. split; [reflexivity|]. split; [exact E|].
  intros j y L Lj. apply (N y). rewrite lookup_app_l in L by exact Lj. now apply list_elem_of_lookup_2 in L.
Qed.
Lemma find_route_pushed m mode pattern (e : router_entry) : expression (location_regex e) = pattern -> forall gs i k g source,
  (forall g, g ∈ gs -> same_group m mode g = true -> ~ has_pattern pattern g) -> gs !! k = Some g -> same_group m mode g = true ->
  exists s, find_route m mode pattern i (alter (fun g => mk_group (group_match g) (group_mode g) (routes g ++ [e])) k gs) source = (Some e, s).
Proof.
  intros Ep. induction gs as [|g0 gs IH]; intros i k g source N L Sg; [now rewrite lookup_nil in L|]. destruct k as [|k]; cbn in L |- *.
  - injection L as ->. change (same_group m mode (mk_group (group_match g) (group_mode g) (routes g ++ [e]))) with (same_group m mode g). rewrite Sg.
    destruct (find_in_routes pattern (routes g) e) as (j & ->); [|exact Ep|eauto]. intros x Hx Ex. apply (N g ltac:(now left) Sg). now exists x.
  - change (list_alter ?f k gs) with (alter f k gs). assert (N' : forall g, g ∈ gs -> same_group m mode g = true -> ~ has_pattern pattern g) by (intros g1 H; apply N; now right).
    destruct (same_group m mode g0) eqn:S0; [|exact (IH (S i) k g source N' L Sg)].
    destruct (list_find _ (routes g0)) as [[j x]|] eqn:Lf; [|exact (IH (S i) k g (Some i) N' L Sg)].
    exfalso. apply list_find_Some in Lf as (Lx & Ex & _). apply (N g0 ltac:(now left) S0). exists x. split; [now apply list_elem_of_lookup_2 in Lx|exact Ex].
Qed.
Lemma find_route_some m mode pattern (gs : list router_group) : forall i source e s, find_route m mode pattern i gs source = (Some e, s) -> expression (location_regex e) = pattern.
Proof.
  induction gs as [|g gs IH]; intros i source e s E; cbn [find_route] in E; [discriminate|]. destruct (same_group m mode g); [|eauto].
  destruct (list_find _ (routes g)) as [[k x]|] eqn:Lf; [|eauto]. injection E as <- _. now apply list_find_Some in Lf as (_ & Ex & _).
Qed.

(** [route] gives an entry of the pattern, and asked again - with whatever inheritance - the same one, without a change to the router. *)
Theorem route_again (fuel fuel' : nat) (match_ : list Z) (mode : route_mode) (pattern : list Z) (inherit_props inherit_props' : bool) (r r' : map_router) (e : router_entry) :
  pattern <> [] -> pattern <> [47] -> route default_settings fuel match_ mode pattern inherit_props r = rx_ok (r', e) ->
  expression (location_regex e) = pattern /\ route default_settings fuel' match_ mode pattern inherit_props' r' = rx_ok (r', e).
Proof.
  intros N1 N2 E. assert (Found : forall r0 s, find_route match_ mode pattern 0 (groups r0) None = (Some e, s) ->
    route default_settings fuel' match_ mode pattern inherit_props' r0 = rx_ok (r0, e)).
  { intros r0 s F. unfold route. rewrite !bool_decide_eq_false_2 by assumption. cbn [orb]. now rewrite F. }
  unfold route in E. rewrite !bool_decide_eq_false_2 in E by assumption. cbn [orb] in E.
  destruct (find_route match_ mode pattern 0 (groups r) None) as [[e0|] source] eqn:F.
  - injection E as <- ->. split; [eapply find_route_some; exact F|eapply Found; exact F].
  - apply find_route_none in F as [N S].
    assert (Into : forall r1 i g from, groups r1 !! i = Some g -> same_group match_ mode g = true -> (forall g, g ∈ groups r1 -> same_group match_ mode g = true -> ~ has_pattern pattern g) ->
      route_into default_settings pattern i from r1 = rx_ok (r', e) ->
      expression (location_regex e) = pattern /\ route default_settings fuel' match_ mode pattern inherit_props' r' = rx_ok (r', e)).
    { intros r1 i g from L Sg N' E1. unfold route_into in E1. destruct (compile_pattern_ pattern) as [src| |] eqn:C; try discriminate. cbn [rx_bind] in E1. injection E1 as <- Ee.
      apply compile_expression in C. assert (Ep : expression (location_regex e) = pattern) by (rewrite <- Ee; now destruct from). rewrite Ee. split; [exact Ep|].
      destruct (find_route_pushed match_ mode pattern e Ep (groups r1) 0 i g None N' L Sg) as (s & Fs). eapply Found. exact Fs. }
    assert (Last : forall r1 i from, (let '(r2, k) := match source with Some i => (r, i) | None => (mk_router (listeners r) (groups r ++ [mk_group match_ mode []]) (base r) (entries_made r), length (groups r)) end in
        r1 = r2 /\ i = k) -> route_into default_settings pattern i from r1 = rx_ok (r', e) ->
      expression (location_regex e) = pattern /\ route default_settings fuel' match_ mode pattern inherit_props' r' = rx_ok (r', e)).
    { intros r1 i from H E1. destruct source as [k|].
      - destruct H as [-> ->]. destruct S as [S|(g & G & _ & Sg)]; [discriminate|]. rewrite Nat.sub_0_r in G. eapply Into; eauto.
      - destruct H as [-> ->]. eapply Into; [| | |exact E1]; cbn [groups].
        + now rewrite list_lookup_middle by reflexivity.
        + unfold same_group. cbn. now rewrite !bool_decide_eq_true_2 by reflexivity.
        + intros g H. apply elem_of_app in H as [H|H]; [now apply N|]. apply list_elem_of_singleton in H as ->. intros _ (x & Hx & _). now apply not_elem_of_nil in Hx. }
    destruct source as [k|]; destruct inherit_props; try (eapply Last; [now split|exact E]).
    all: destruct (inherit _ _ _ _) as [from| |]; try discriminate; cbn [rx_bind] in E; eapply Last; [now split|exact E].
Qed.
End Routing.

(** ** Examples *)

Definition sample_base (directory : list Z) : rx (map_router (Settings := unit)) :=
  rx_bind (new_router tt) (fun r => rx_ok (mk_router [[42]] [] (mk_entry 0 (location_regex (base r)) 0 directory [] tt) 1)).
Definition sample_router (pattern directory : list Z) : rx (map_router (Settings := unit)) :=
  rx_bind (sample_base directory) (fun r => rx_bind (route tt 50 [] route_start pattern true r) (fun x => rx_ok (fst x))).
Definition not_there (_ : list Z) : option (list Z) := None.
(** The path of a request for a location, when there is no such file. *)
Definition requested (pattern directory location : list Z) : option (list Z) :=
  match rx_bind (sample_router pattern directory) (fun r => construct_route 100 r [] location) with
  | rx_ok (Some f) => Some (construct_path not_there f [])
  | _ => None
  end.
Definition routed_to (pattern directory location : list Z) : routed :=
  match rx_bind (sample_router pattern directory) (fun r => construct_route 100 r [] location) with
  | rx_ok (Some f) => f
  | _ => mk_routed (mk_entry 0 (mk_source [] [] [] 0 false) 0 [] [] tt) [] []
  end.

Lemma path_stays_below_witness : exists q, (forall depth, climbs depth (segments q) = false) /\
  trailing_like (chars "/static/../%2e%2e//a") (chars "/srv/www" ++ q) = chars "/srv/www/a".
Proof.
  destruct (path_stays_below not_there (routed_to (chars "^(/static)") (chars "/srv/www") (chars "/static/../%2e%2e//a"))) as (q & C & E);
    [vm_compute; reflexivity|vm_compute; discriminate|reflexivity|vm_compute; repeat constructor; discriminate|vm_compute; now split|].
  exists q. split; [exact C|]. etransitivity; [symmetry; exact E|vm_compute; reflexivity].
Defined.
Lemma route_again_witness : exists r e, sample_router (chars "/a.*") (chars "/srv") = rx_ok r /\ expression (location_regex e) = chars "/a.*" /\
  route tt 7 [] route_start (chars "/a.*") false r = rx_ok (r, e).
Proof.
  destruct (sample_base (chars "/srv")) as [r0| |] eqn:B; [|discriminate B..].
  destruct (route tt 50 [] route_start (chars "/a.*") true r0) as [[r e]| |] eqn:R.
  - exists r, e. split; [unfold sample_router; rewrite B; cbn [rx_bind]; rewrite R; reflexivity|].
    apply (route_again tt 50 7 [] route_start (chars "/a.*") true false r0 r e); [discriminate|discriminate|exact R].
  - vm_compute in B. injection B as <-. vm_compute in R. discriminate R.
  - vm_compute in B. injection B as <-. vm_compute in R. discriminate R.
Defined.
(** Two groups and three routes; the longer group and the longer expression win. *)
Definition sample_routes : map_router (Settings := unit) :=
  let add m p r := match r with rx_ok r => match route tt 50 m route_start p true r with rx_ok (r, _) => rx_ok r | _ => rx_fault end | x => x end in
  match add [] (chars "/x") (add (chars "/api") (chars "/v1/users") (add (chars "/api") (chars "/v1") (sample_base (chars "/srv")))) with
  | rx_ok r => r
  | _ => mk_router [] [] (mk_entry 0 (mk_source [] [] [] 0 false) 0 [] [] tt) 0
  end.
Definition sample_routed : routed := match construct_route 100 (router_sort sample_routes) [] (chars "/api/v1/users/x") with
  | rx_ok (Some f) => f | _ => mk_routed (base sample_routes) [] [] end.
Lemma route_most_specific_witness : entry_id (routed_entry sample_routed) = 2%nat /\
  exists g, g ∈ groups sample_routes /\ routed_entry sample_routed ∈ routes g /\
    (forall g', g' ∈ groups sample_routes -> group_takes 100 (chars "/api/v1/users/x") g' -> (length (group_match g') <= length (group_match g))%nat).
Proof.
  split; [vm_compute; reflexivity|].
  destruct (route_most_specific 100 sample_routes [] (chars "/api/v1/users/x") sample_routed) as [[E _]|(g & G & R & _ & _ & M & _)].
  - vm_compute. reflexivity.
  - exfalso. apply (f_equal (fun f => entry_id (routed_entry f))) in E. vm_compute in E. discriminate E.
  - exists g. repeat split; assumption.
Defined.

(** Requests that leave the directory of the route: a name that the expression captures between two dots, a captured beginning with two dots behind it where the
    directory ends in a slash, and zeros, which bring back what the copy left behind. *)
Theorem path_traversal :
  requested (chars "(/static)") (chars "/srv/www") (chars "/./static./secret") = Some (chars "/srv/www/../secret") /\
  requested (chars "^(/static)") (chars "/srv/www/") (chars "/static../secret") = Some (chars "/srv/www/../secret") /\
  requested (chars "/x") (chars "/srv/www") (chars "/..//../../../img%00%00%00%00%00%00%00%00%00") = Some (chars "/srv/www/img/../../..") /\
  climbs 0 (segments (chars "/../secret")) = true /\ climbs 0 (segments (chars "/img/../../..")) = true.
Proof. repeat split; vm_compute; reflexivity. Qed.
