(* ===== verification/Promise.v ===== *)
(** * Promises and the tasks that settle them (core.h 3121-3200, 4177-4600, 5008-5240; core.cpp 11036-11048, 11447-11478, 11621-11632)

    [basic_promise<t, executor>] is a handle of a [promise_state] that threads share: a value, one event, a reference count, a code.
    What a thread does with promises is a tree of calls, [code]; a callback is a function to such a tree.  A thread is a stack of frames, and a
    step runs the top frame up to the end of a section that the mutex of the state protects, or up to the next access without it: threads
    interleave between the steps.  Tasks wait in the queue of the scheduler or in the own queue of the worker that made them.
    [attached], [called], [lost], [refused] and [leaked] count what happens to the callbacks of a state; the program does not keep them. *)
From S2P Require Import Prelude.
From stdpp Require Import list.
Open Scope Z_scope.

Inductive deferred_code := pending | waiting | ready.
#[export] Instance deferred_eq_dec : EqDecision deferred_code.
Proof. solve_decision. Defined.

Section Promise.
Context {V : Type}.
(** What is left of a value that was handed over as [t&&]. *)
Context (moved : V -> V).

(** ** Programs *)

Inductive code :=
| code_end
| code_new (k : nat -> code)
| code_ready (v : V) (k : nat -> code)
| code_copy (p : nat) (k : code)
| code_drop (p : nat) (k : code)
| code_set (p : nat) (v : V) (k : code)
| code_set_from (p other : nat) (k : code)
| code_when (p : nat) (callback : V -> code) (k : code)
| code_then (p : nat) (callback : nat -> V -> code) (k : nat -> code)
| code_get (p : nat) (k : V -> code)
| code_task (recyclable : bool) (body : code) (k : code)
| code_available (parallel : bool) (k : bool -> code)
| code_call (body k : code)
| code_tell (n : nat) (v : V) (k : code).

(** The lambdas that are stored as an event or queued as a task. *)
Inductive job :=
| task_when (p : nat) (callback : V -> code)
| task_then (p result : nat) (callback : nat -> V -> code)
| task_link (other p : nat)
| task_notify (p i : nat)
| task_code (body : code).

Record promise_state := mk_state {
  value : option V; event : option job; count : nat; code_of : deferred_code; handles : nat;
  attached : nat; called : nat; lost : nat; refused : nat; leaked : nat }.

Definition set_value (x : option V) (s : promise_state) : promise_state :=
  mk_state x (event s) (count s) (code_of s) (handles s) (attached s) (called s) (lost s) (refused s) (leaked s).
Definition set_event (x : option job) (s : promise_state) : promise_state :=
  mk_state (value s) x (count s) (code_of s) (handles s) (attached s) (called s) (lost s) (refused s) (leaked s).
Definition set_count (x : nat) (s : promise_state) : promise_state :=
  mk_state (value s) (event s) x (code_of s) (handles s) (attached s) (called s) (lost s) (refused s) (leaked s).
Definition set_code (x : deferred_code) (s : promise_state) : promise_state :=
  mk_state (value s) (event s) (count s) x (handles s) (attached s) (called s) (lost s) (refused s) (leaked s).
Definition set_handles (x : nat) (s : promise_state) : promise_state :=
  mk_state (value s) (event s) (count s) (code_of s) x (attached s) (called s) (lost s) (refused s) (leaked s).
Definition note_attached (s : promise_state) : promise_state :=
  mk_state (value s) (event s) (count s) (code_of s) (handles s) (S (attached s)) (called s) (lost s) (refused s) (leaked s).
Definition note_called (s : promise_state) : promise_state :=
  mk_state (value s) (event s) (count s) (code_of s) (handles s) (attached s) (S (called s)) (lost s) (refused s) (leaked s).
Definition note_lost (s : promise_state) : promise_state :=
  mk_state (value s) (event s) (count s) (code_of s) (handles s) (attached s) (called s) (S (lost s)) (refused s) (leaked s).
Definition note_refused (s : promise_state) : promise_state :=
  mk_state (value s) (event s) (count s) (code_of s) (handles s) (attached s) (called s) (lost s) (S (refused s)) (leaked s).
Definition note_leaked (s : promise_state) : promise_state :=
  mk_state (value s) (event s) (count s) (code_of s) (handles s) (attached s) (called s) (lost s) (refused s) (S (leaked s)).

(** [promise_state()] and [promise_state(value)] with [n] handles of it. *)
Definition pending_state (n : nat) : promise_state := mk_state None None n pending n 0 0 0 0 0.
Definition ready_state (v : V) : promise_state := mk_state (Some v) None 1 ready 1 0 0 0 0 0.
Definition is_ready (s : promise_state) : bool := bool_decide (code_of s = ready).

(** ** Threads *)

Inductive frame :=
| frame_run (c : code)
| frame_store (p : nat) (t : job)
| frame_wait (p : nat) (k : V -> code)
| frame_block (p : nat) (k : V -> code)
| frame_load (p : nat) (k : V -> code)
| frame_settle (own : bool) (p : nat) (v : V)
| frame_execute (t : job) (async : bool)
| frame_task (recyclable : bool) (t : job)
| frame_start (t : job)
| frame_release (p : nat)
| frame_drop (p : nat).

(** A thread of the program, the scheduler's thread for timers, or one of its workers for tasks. *)
Inductive thread_kind := outside | timer | worker.
#[export] Instance thread_kind_eq_dec : EqDecision thread_kind.
Proof. solve_decision. Defined.
Record thread := mk_thread { kind : thread_kind; frames : list frame; queue : list job; notified : bool }.
Definition set_frames (x : list frame) (t : thread) : thread := mk_thread (kind t) x (queue t) (notified t).
Definition set_own_queue (x : list job) (t : thread) : thread := mk_thread (kind t) (frames t) x (notified t).
Definition set_notified (x : bool) (t : thread) : thread := mk_thread (kind t) (frames t) (queue t) x.

Record world := mk_world {
  heap : list promise_state; threads : list thread; sync : list job; active : bool; enqueue : bool; max_recycles : nat;
  told : list (nat * V) }.
Definition set_states (x : list promise_state) (w : world) : world :=
  mk_world x (threads w) (sync w) (active w) (enqueue w) (max_recycles w) (told w).
Definition set_threads (x : list thread) (w : world) : world :=
  mk_world (heap w) x (sync w) (active w) (enqueue w) (max_recycles w) (told w).
Definition set_sync (x : list job) (w : world) : world :=
  mk_world (heap w) (threads w) x (active w) (enqueue w) (max_recycles w) (told w).
Definition set_flags (active enqueue : bool) (w : world) : world :=
  mk_world (heap w) (threads w) (sync w) active enqueue (max_recycles w) (told w).
Definition set_tells (x : list (nat * V)) (w : world) : world :=
  mk_world (heap w) (threads w) (sync w) (active w) (enqueue w) (max_recycles w) x.
Definition on_state (p : nat) (f : promise_state -> promise_state) (w : world) : world := set_states (alter f p (heap w)) w.
Definition on_thread (i : nat) (f : thread -> thread) (w : world) : world := set_threads (alter f i (threads w)) w.

(** ** Outcomes

    A fault is what the code asserts or leaves undefined: a call on a promise without a handle of it, a value for a settled promise, an access to a
    state that was freed, to a value that was not set, to the condition variable of a thread that does not wait any more. *)
Inductive fault := no_handle | set_twice | freed | no_value | condition_gone.
Inductive step_outcome (A : Type) := done (a : A) | blocked | failed (why : fault).
#[global] Arguments done {A} a.
#[global] Arguments blocked {A}.
#[global] Arguments failed {A} why.
Definition outcome_bind {A B} (m : step_outcome A) (f : A -> step_outcome B) : step_outcome B :=
  match m with done a => f a | blocked => blocked | failed why => failed why end.
#[local] Notation "'let*' x := m 'in' f" := (outcome_bind m (fun x => f)) (at level 10, x name, m at level 100, f at level 200).

Definition with_handle (p : nat) (w : world) : step_outcome promise_state :=
  match heap w !! p with
  | Some s => if (0 <? handles s)%nat then done s else failed no_handle
  | None => failed no_handle
  end.
(** An access by a pointer that a lambda has copied, [status* copy]. *)
Definition with_copy (p : nat) (w : world) : step_outcome promise_state :=
  match heap w !! p with
  | Some s => if (0 <? count s)%nat then done s else failed freed
  | None => failed freed
  end.
Definition unwrap (s : promise_state) : step_outcome V := match value s with Some v => done v | None => failed no_value end.

(** ** The state's operations *)

Definition promise_add_ref (p : nat) (w : world) : world := on_state p (fun s => set_count (S (count s)) s) w.
(** A callback of [p] is called with what the state holds. *)
Definition take_value (p : nat) (w : world) : world :=
  on_state p (fun s => note_called (set_value (option_map moved (value s)) s)) w.

(** The promise a lambda is the callback of, the states whose pointer it has copied - released by its body only - and the promises it holds by value. *)
Definition task_of (t : job) : option nat :=
  match t with task_when p _ => Some p | task_then p _ _ => Some p | task_link q _ => Some q | task_notify p _ => Some p | task_code _ => None end.
Definition task_copies (t : job) : list nat :=
  match t with task_when p _ => [p] | task_then p _ _ => [p] | task_link q p => [q; p] | task_notify _ _ => [] | task_code _ => [] end.
Definition task_drops (t : job) : list frame := match t with task_then _ r _ => [frame_drop r] | _ => [] end.
(** A lambda is destroyed without a call. *)
Definition lose (note : promise_state -> promise_state) (t : job) (w : world) : world :=
  let w := match task_of t with Some p => on_state p note w | None => w end in
  foldr (fun p => on_state p note_leaked) w (task_copies t).
Definition lose_event (s : promise_state) (w : world) : world * list frame :=
  match event s with Some t => (lose note_lost t w, task_drops t) | None => (w, []) end.

Definition store (p : nat) (t : job) (w : world) : step_outcome (world * list frame) :=
  let* s := with_copy p w in
  let (w, drops) := lose_event s w in
  if is_ready s then done (on_state p (set_event None) w, drops ++ [frame_execute t false])
  else done (on_state p (set_event (Some t)) w, drops).
Definition set_locked (own : bool) (p : nat) (v : V) (w : world) : step_outcome (world * list frame) :=
  let* s := if own then with_handle p w else with_copy p w in
  if is_ready s then failed set_twice
  else
    let async := negb (bool_decide (code_of s = waiting)) in
    let w := on_state p (fun s => set_event None (set_code ready (set_value (Some v) s))) w in
    done (w, match event s with Some t => [frame_execute t async] | None => [] end).
(** What the event that is replaced holds is dropped under the mutex; here, when the wait is over, which only the count of its result shows. *)
Definition wait (i p : nat) (k : V -> code) (w : world) : step_outcome (world * list frame) :=
  let* s := with_handle p w in
  if is_ready s then done (w, [frame_load p k])
  else
    let (w, drops) := lose_event s w in
    let w := on_state p (fun s => note_attached (set_event (Some (task_notify p i)) (set_code waiting s))) (promise_add_ref p w) in
    done (on_thread i (set_notified false) w, frame_block p k :: drops).
Definition is_notified (i : nat) (w : world) : bool := match threads w !! i with Some t => notified t | None => false end.
(** The end of [ready.wait] after a notification, or without one. *)
Definition block_wait (spurious : bool) (i p : nat) (k : V -> code) (w : world) : step_outcome (world * list frame) :=
  let* s := with_copy p w in
  if (spurious || is_notified i w) && is_ready s then done (w, [frame_release p; frame_load p k]) else blocked.
Definition promise_release (p : nat) (w : world) : step_outcome (world * list frame) :=
  let* s := with_copy p w in
  let w := on_state p (fun s => set_count (pred (count s)) s) w in
  if (count s =? 1)%nat then let (w, drops) := lose_event s w in done (on_state p (set_event None) w, drops) else done (w, []).
Definition drop_handle (p : nat) (w : world) : step_outcome (world * list frame) :=
  let* _ := with_handle p w in promise_release p (on_state p (fun s => set_handles (pred (handles s)) s) w).

(** ** The scheduler *)

Definition workers (w : world) : nat := length (filter (fun t => kind t = worker) (threads w)).
Definition has_parallel_threads (w : world) : bool := (1 <? workers w)%nat.
Definition is_available (parallel : bool) (w : world) : bool := active w && enqueue w && (negb parallel || has_parallel_threads w).
Definition fast_bypass (i : nat) (w : world) : bool :=
  has_parallel_threads w &&
  match threads w !! i with Some t => bool_decide (kind t = worker) && (length (queue t) <? max_recycles w)%nat | None => false end.
Definition set_task (i : nat) (recyclable : bool) (t : job) (w : world) : step_outcome (world * list frame) :=
  if negb (enqueue w) then done (lose note_refused t w, task_drops t)
  else if recyclable && fast_bypass i w then done (on_thread i (fun th => set_own_queue (queue th ++ [t]) th) w, [])
  else done (set_sync (sync w ++ [t]) w, []).
(** [parallel_executor]. *)
Definition execute (t : job) (async : bool) (w : world) : step_outcome (world * list frame) :=
  if async && is_available false w then done (w, [frame_task true t]) else done (w, [frame_start t]).

(** ** Steps *)

Definition waits_for (i : nat) (w : world) : bool :=
  match threads w !! i with Some t => match frames t with frame_block _ _ :: _ => negb (notified t) | _ => false end | None => false end.
Definition start_job (t : job) (w : world) : step_outcome (world * list frame) :=
  match t with
  | task_when p callback =>
      let* s := with_copy p w in let* v := unwrap s in done (take_value p w, [frame_run (callback v); frame_release p])
  | task_then p r callback =>
      let* s := with_copy p w in let* v := unwrap s in done (take_value p w, [frame_run (callback r v); frame_release p; frame_drop r])
  | task_link q p =>
      let* s := with_copy q w in let* v := unwrap s in done (take_value q w, [frame_settle false p v; frame_release p; frame_release q])
  | task_notify p i => if waits_for i w then done (on_thread i (set_notified true) (on_state p note_called w), []) else failed condition_gone
  | task_code body => done (w, [frame_run body])
  end.

Definition promise_copy (p : nat) (k : code) (w : world) : step_outcome (world * list frame) :=
  let* _ := with_handle p w in done (promise_add_ref p (on_state p (fun s => set_handles (S (handles s)) s) w), [frame_run k]).
(** [set] with another promise: its callback sets this one. *)
Definition promise_set_from (p other : nat) (k : code) (w : world) : step_outcome (world * list frame) :=
  let* _ := with_handle p w in let* s := with_handle other w in
  let w := on_state other note_attached (promise_add_ref p w) in
  if is_ready s then let* v := unwrap s in done (take_value other w, [frame_settle false p v; frame_release p; frame_run k])
  else done (promise_add_ref other w, [frame_store other (task_link other p); frame_run k]).
Definition promise_when (p : nat) (callback : V -> code) (k : code) (w : world) : step_outcome (world * list frame) :=
  let* s := with_handle p w in
  let w := on_state p note_attached w in
  if is_ready s then let* v := unwrap s in done (take_value p w, [frame_run (callback v); frame_run k])
  else done (promise_add_ref p w, [frame_store p (task_when p callback); frame_run k]).
Definition promise_then (p : nat) (callback : nat -> V -> code) (k : nat -> code) (w : world) : step_outcome (world * list frame) :=
  let* _ := with_handle p w in
  let r := length (heap w) in
  let w := on_state p note_attached (promise_add_ref p (set_states (heap w ++ [pending_state 2]) w)) in
  done (w, [frame_store p (task_then p r callback); frame_run (k r)]).
Definition promise_get (p : nat) (k : V -> code) (w : world) : step_outcome (world * list frame) :=
  let* s := with_handle p w in done (w, [if is_ready s then frame_load p k else frame_wait p k]).

Definition run_code (i : nat) (c : code) (w : world) : step_outcome (world * list frame) :=
  match c with
  | code_end => done (w, [])
  | code_new k => done (set_states (heap w ++ [pending_state 1]) w, [frame_run (k (length (heap w)))])
  | code_ready v k => done (set_states (heap w ++ [ready_state v]) w, [frame_run (k (length (heap w)))])
  | code_copy p k => promise_copy p k w
  | code_drop p k => done (w, [frame_drop p; frame_run k])
  | code_set p v k => let* _ := with_handle p w in done (w, [frame_settle true p v; frame_run k])
  | code_set_from p q k => promise_set_from p q k w
  | code_when p callback k => promise_when p callback k w
  | code_then p callback k => promise_then p callback k w
  | code_get p k => promise_get p k w
  | code_task recyclable body k => done (w, [frame_task recyclable (task_code body); frame_run k])
  | code_available parallel k => done (w, [frame_run (k (is_available parallel w))])
  | code_call body k => done (w, [frame_run body; frame_run k])
  | code_tell n v k => done (set_tells (told w ++ [(n, v)]) w, [frame_run k])
  end.

Definition load (p : nat) (k : V -> code) (w : world) : step_outcome (world * list frame) :=
  let* s := with_handle p w in let* v := unwrap s in
  done (on_state p (set_value (Some (moved v))) w, [frame_run (k v)]).

Definition step_frame (spurious : bool) (i : nat) (f : frame) (w : world) : step_outcome (world * list frame) :=
  match f with
  | frame_run c => run_code i c w
  | frame_store p t => store p t w
  | frame_wait p k => wait i p k w
  | frame_block p k => block_wait spurious i p k w
  | frame_load p k => load p k w
  | frame_settle own p v => set_locked own p v w
  | frame_execute t async => execute t async w
  | frame_task recyclable t => set_task i recyclable t w
  | frame_start t => start_job t w
  | frame_release p => promise_release p w
  | frame_drop p => drop_handle p w
  end.

(** What an idle worker does: its own tasks first, then any of the scheduler's - the lock-free queue orders only what one thread has put in. *)
Definition next_task (t : thread) (n : nat) (w : world) : option (job * list job * list job) :=
  match kind t, queue t with
  | outside, _ => None
  | worker, x :: q => Some (x, q, sync w)
  | _, q => match sync w !! n with Some x => Some (x, q, delete n (sync w)) | None => None end
  end.

Inductive choice :=
| run_thread (i n : nat)
| wake_up (i : nat)
| leave (i : nat)
| change_flags (active enqueue : bool).

Definition advance_thread (spurious : bool) (i n : nat) (w : world) : step_outcome world :=
  match threads w !! i with
  | None => blocked
  | Some t =>
      match frames t with
      | f :: fs => let* r := step_frame spurious i f w in done (on_thread i (set_frames (snd r ++ fs)) (fst r))
      | [] =>
          match next_task t n w with
          | Some (x, q, s) => done (on_thread i (fun t => set_frames [frame_start x] (set_own_queue q t)) (set_sync s w))
          | None => blocked
          end
      end
  end.
(** A step of a thread; a wake-up without a notification; the end of a worker of a stopped scheduler, which leaves its tasks to the others; starting and stopping. *)
Definition world_step (c : choice) (w : world) : step_outcome world :=
  match c with
  | run_thread i n => advance_thread false i n w
  | wake_up i => match threads w !! i with Some (mk_thread _ (frame_block _ _ :: _) _ _) => advance_thread true i 0 w | _ => blocked end
  | leave i =>
      match threads w !! i with
      | Some t => if active w || bool_decide (kind t = outside) then blocked else
          match frames t with
          | [] => done (on_thread i (fun t => mk_thread outside [] [] false) (set_sync (sync w ++ queue t) w))
          | _ => blocked
          end
      | None => blocked
      end
  | change_flags a e => done (set_flags a e w)
  end.
Fixpoint run_world (cs : list choice) (w : world) : step_outcome world :=
  match cs with [] => done w | c :: cs => let* w := world_step c w in run_world cs w end.

(** Threads that run [programs], and the threads of a scheduler. *)
Definition new_threads (programs : list code) (timers workers max_recycles : nat) (running : bool) : world :=
  mk_world [] (map (fun c => mk_thread outside [frame_run c] [] false) programs ++ replicate timers (mk_thread timer [] [] false) ++
    replicate workers (mk_thread worker [] [] false)) [] running running max_recycles [].

(** ** Calls above promises *)

(** [then] with a callback that returns the value of the result. *)
Definition then_value (p : nat) (callback : V -> (V -> code) -> code) (k : nat -> code) : code :=
  code_then p (fun r v => callback v (fun u => code_set r u code_end)) k.
(** [co_await]: the rest of the coroutine is the callback. *)
Definition await_suspend (p : nat) (k : V -> code) : code := code_when p k code_end.
Definition cotask (callback : (V -> code) -> code) (recyclable : bool) (k : nat -> code) : code :=
  code_available true (fun available =>
    if available then code_new (fun r => code_copy r (code_task recyclable (callback (fun v => code_set r v (code_drop r code_end))) (k r)))
    else callback (fun v => code_ready v k)).
Definition codefer (callback : code) (always_execute recyclable : bool) (k : code) : code :=
  code_available false (fun available =>
    if available then code_task recyclable callback k else if always_execute then code_call callback k else k).

End Promise.
#[global] Arguments code V : clear implicits.
#[global] Arguments job V : clear implicits.
#[global] Arguments frame V : clear implicits.
#[global] Arguments world V : clear implicits.
#[global] Arguments promise_state V : clear implicits.
#[global] Arguments thread V : clear implicits.
