(* ===== verification/PromiseFacts.v ===== *)
(** * Promises: the invariants of a world of threads

    A ledger weighs the tasks wherever they are - events, frames, queues - against what the states have noted.  Two ledgers are
    balanced in every world that runs: the callbacks of a promise, and its references.  The third invariant ties a waiting thread to its notification. *)
From S2P Require Import Prelude Promise.
From stdpp Require Import list.
Open Scope Z_scope.

(** ** Inversion of steps *)
Lemma with_handle_done {V} p (w : world V) s : with_handle p w = done s -> heap w !! p = Some s /\ (0 < handles s)%nat.
Proof. unfold with_handle. destruct (heap w !! p) as [s'|]; [|discriminate]. case_match eqn:H; [|discriminate]. intros [= ->]. split; [reflexivity|now apply Nat.ltb_lt]. Qed.
Lemma with_copy_done {V} p (w : world V) s : with_copy p w = done s -> heap w !! p = Some s /\ (0 < count s)%nat.
Proof. unfold with_copy. destruct (heap w !! p) as [s'|]; [|discriminate]. case_match eqn:H; [|discriminate]. intros [= ->]. split; [reflexivity|now apply Nat.ltb_lt]. Qed.
Lemma bind_done {A B} (m : step_outcome A) (f : A -> step_outcome B) b : outcome_bind m f = done b -> exists a, m = done a /\ f a = done b.
Proof. destruct m; try discriminate. eauto. Qed.

(** The operation that a call of a program stands for. *)
Ltac open_code H := cbn [run_code] in H; unfold promise_copy, promise_set_from, promise_when, promise_then, promise_get in H; cbn in H.
Ltac invert_bind :=
  match goal with H : outcome_bind _ _ = done _ |- _ => let E := fresh "E" in apply bind_done in H as (? & E & H) end.
Ltac on_done :=
  repeat match goal with
  | H : with_handle _ _ = done _ |- _ => apply with_handle_done in H as [H ?]
  | H : with_copy _ _ = done _ |- _ => apply with_copy_done in H as [H ?]
  | H : done _ = done _ |- _ => injection H as <- <-
  end.

Section Facts.
Context {V : Type}.
Abbreviation code := (code V).
Abbreviation job := (job V).
Abbreviation frame := (frame V).
Abbreviation thread := (thread V).
Abbreviation promise_state := (promise_state V).
Abbreviation world := (world V).

(** ** Weights *)

Section Sums.
Context {A : Type} (f : A -> Z).
Definition total_of (l : list A) : Z := foldr (fun x s => f x + s) 0 l.
Lemma sum_app l l' : total_of (l ++ l') = total_of l + total_of l'.
Proof. induction l; cbn [total_of foldr app]; fold total_of in *; unfold total_of in *; cbn; lia. Qed.
Lemma sum_alter g i l x : l !! i = Some x -> total_of (alter g i l) = total_of l + f (g x) - f x.
Proof.
  revert i. induction l as [|y l IH]; intros [|i] E; try discriminate.
  - injection E as ->. unfold total_of; cbn; lia.
  - cbn in E. unfold total_of in *. cbn. rewrite (IH i E). lia.
Qed.
Lemma sum_delete i l x : l !! i = Some x -> total_of (delete i l) = total_of l - f x.
Proof.
  revert i. induction l as [|y l IH]; intros [|i] E; try discriminate.
  - injection E as ->. unfold total_of; cbn; lia.
  - cbn in E. change (delete (S i) (y :: l)) with (y :: delete i l). unfold total_of in *. cbn [foldr]. rewrite (IH i E). lia.
Qed.
Lemma sum_nonneg l : (forall x, 0 <= f x) -> 0 <= total_of l.
Proof. intros H. induction l as [|y l IH]; unfold total_of in *; cbn; [lia|]. specialize (H y). lia. Qed.
Lemma sum_at i l x : (forall x, 0 <= f x) -> l !! i = Some x -> f x <= total_of l.
Proof. intros H E. pose proof (sum_delete i l x E). pose proof (sum_nonneg (delete i l) H). lia. Qed.
End Sums.
Lemma sum_zero {A} (l : list A) (f : A -> Z) : (forall x, x ∈ l -> f x = 0) -> total_of f l = 0.
Proof.
  intros H. induction l as [|y l IH]; [reflexivity|]. unfold total_of in *; cbn. rewrite IH, (H y); [lia|now left|].
  intros x Hx. apply H. now right.
Qed.

Lemma alter_none {A} (f : A -> A) (i : nat) (l : list A) : l !! i = None -> alter f i l = l.
Proof. revert i. induction l as [|y l IH]; intros [|i] E; try reflexivity; try discriminate. cbn. f_equal. now apply IH. Qed.
Lemma on_state_none p f (w : world) : heap w !! p = None -> on_state p f w = w.
Proof. intros E. unfold on_state, set_states. rewrite alter_none by exact E. now destruct w. Qed.

Record weights := mk_weights { on_task : job -> Z; on_frame : frame -> Z }.
Section Weigh.
Context (h : weights).
Definition weigh_frame (f : frame) : Z :=
  match f with frame_store _ t | frame_execute t _ | frame_task _ t | frame_start t => on_task h t | _ => on_frame h f end.
Definition weigh_event (s : promise_state) : Z := match event s with Some t => on_task h t | None => 0 end.
Definition weigh_thread (t : thread) : Z := total_of weigh_frame (frames t) + total_of (on_task h) (queue t).
Definition weigh (w : world) : Z := total_of weigh_event (heap w) + total_of weigh_thread (threads w) + total_of (on_task h) (sync w).

Lemma weigh_on_state p f w s : heap w !! p = Some s -> weigh (on_state p f w) = weigh w + weigh_event (f s) - weigh_event s.
Proof. intros E. unfold weigh, on_state, set_states; cbn [heap threads sync]. rewrite (sum_alter weigh_event f p (heap w) s E). lia. Qed.
Lemma weigh_on_state_same p f w : (forall s, event (f s) = event s) -> weigh (on_state p f w) = weigh w.
Proof.
  intros H. destruct (heap w !! p) as [s|] eqn:E.
  - rewrite (weigh_on_state p f w s E). unfold weigh_event. rewrite H. lia.
  - now rewrite on_state_none.
Qed.
Lemma weigh_on_thread i f w t : threads w !! i = Some t -> weigh (on_thread i f w) = weigh w + weigh_thread (f t) - weigh_thread t.
Proof. intros E. unfold weigh, on_thread, set_threads; cbn [heap threads sync]. rewrite (sum_alter weigh_thread f i (threads w) t E). lia. Qed.
Lemma weigh_new s w : event s = None -> weigh (set_states (heap w ++ [s]) w) = weigh w.
Proof. intros E. unfold weigh, set_states; cbn [heap threads sync]. rewrite sum_app. unfold total_of at 2; cbn. unfold weigh_event. rewrite E. lia. Qed.
Lemma weigh_sync q w : weigh (set_sync q w) = weigh w + total_of (on_task h) q - total_of (on_task h) (sync w).
Proof. unfold weigh, set_sync; cbn [heap threads sync]. lia. Qed.
Definition nonneg : Prop := (forall t, 0 <= on_task h t) /\ (forall f, 0 <= on_frame h f).
Context (N : nonneg).
Lemma weigh_frame_nonneg f : 0 <= weigh_frame f.
Proof. destruct N as [T F]. destruct f; try apply T; apply F. Qed.
Lemma weigh_event_nonneg s : 0 <= weigh_event s.
Proof. unfold weigh_event. destruct (event s); [apply N|lia]. Qed.
Lemma weigh_thread_nonneg t : 0 <= weigh_thread t.
Proof.
  unfold weigh_thread. pose proof (sum_nonneg weigh_frame (frames t) weigh_frame_nonneg). pose proof (sum_nonneg (on_task h) (queue t) (proj1 N)). lia.
Qed.
Lemma weigh_parts w : 0 <= total_of weigh_event (heap w) /\ 0 <= total_of weigh_thread (threads w) /\ 0 <= total_of (on_task h) (sync w).
Proof. repeat split; apply sum_nonneg; [apply weigh_event_nonneg|apply weigh_thread_nonneg|apply N]. Qed.
Lemma weigh_nonneg w : 0 <= weigh w.
Proof. pose proof (weigh_parts w). unfold weigh. lia. Qed.
Lemma weigh_event_le w q s : heap w !! q = Some s -> weigh_event s <= weigh w.
Proof. intros E. pose proof (weigh_parts w). pose proof (sum_at _ q _ s weigh_event_nonneg E). unfold weigh. lia. Qed.
Lemma weigh_thread_le w i t : threads w !! i = Some t -> weigh_thread t <= weigh w.
Proof. intros E. pose proof (weigh_parts w). pose proof (sum_at _ i _ t weigh_thread_nonneg E). unfold weigh. lia. Qed.
Lemma weigh_top_le w i t f fs : threads w !! i = Some t -> frames t = f :: fs -> weigh_frame f <= weigh w.
Proof.
  intros E F. pose proof (weigh_thread_le w i t E) as H. unfold weigh_thread in H. rewrite F in H.
  pose proof (sum_nonneg weigh_frame fs weigh_frame_nonneg). pose proof (sum_nonneg (on_task h) (queue t) (proj1 N)). unfold total_of in *; cbn in H. lia.
Qed.
End Weigh.

(** ** The two ledgers of a state *)

Definition one_when (P : Prop) {d : Decision P} : Z := if decide P then 1 else 0.
Definition copies (p : nat) (l : list nat) : Z := total_of (fun q => one_when (q = p)) l.
Definition callback_weights (p : nat) : weights := mk_weights (fun t => one_when (task_of t = Some p)) (fun _ => 0).
Definition reference_weights (p : nat) : weights :=
  mk_weights (fun t => copies p (task_copies t)) (fun f => match f with frame_block q _ | frame_release q => one_when (q = p) | _ => 0 end).
Definition callback_net (s : promise_state) : Z := Z.of_nat (attached s) - Z.of_nat (called s) - Z.of_nat (lost s) - Z.of_nat (refused s).
Definition reference_net (s : promise_state) : Z := Z.of_nat (count s) - Z.of_nat (handles s) - Z.of_nat (leaked s).

Record ledger := mk_ledger { entries : weights; net : promise_state -> Z }.
Definition net_at (l : ledger) (p : nat) (w : world) : Z := match heap w !! p with Some s => net l s | None => 0 end.
Definition callbacks (p : nat) : ledger := mk_ledger (callback_weights p) callback_net.
Definition references (p : nat) : ledger := mk_ledger (reference_weights p) reference_net.
Definition balance (l : ledger) (p : nat) (w : world) : Z := net_at l p w - weigh (entries l) w.
(** What a state's change adds to the balance of [p]. *)
Definition change (l : ledger) (p q : nat) (s s' : promise_state) : Z :=
  one_when (q = p) * (net l s' - net l s) - (weigh_event (entries l) s' - weigh_event (entries l) s).

Lemma balance_on_state l p q f w s : heap w !! q = Some s -> balance l p (on_state q f w) = balance l p w + change l p q s (f s).
Proof.
  intros E. unfold balance, change. rewrite (weigh_on_state _ q f w s E). unfold net_at, on_state, set_states; cbn [heap threads sync]. rewrite list_lookup_alter. unfold one_when.
  destruct (decide (q = p)) as [->|N]; [rewrite E; cbn; lia|]. lia.
Qed.
Lemma balance_new l p s w : event s = None -> net l s = 0 -> balance l p (set_states (heap w ++ [s]) w) = balance l p w.
Proof.
  intros E N. unfold balance. rewrite (weigh_new _ s w E). unfold net_at, set_states; cbn [heap threads sync]. destruct (decide (p = length (heap w))) as [->|D].
  - rewrite (list_lookup_middle _ [] s _ eq_refl), (lookup_ge_None_2 (heap w)) by lia. lia.
  - destruct (decide (p < length (heap w))%nat) as [L|L]; [now rewrite lookup_app_l|].
    rewrite !lookup_ge_None_2; [lia| |]; rewrite ?length_app; cbn; lia.
Qed.
Lemma balance_on_thread l p i f w t : threads w !! i = Some t ->
  balance l p (on_thread i f w) = balance l p w - (weigh_thread (entries l) (f t) - weigh_thread (entries l) t).
Proof. intros E. unfold balance. rewrite (weigh_on_thread _ i f w t E). unfold net_at, on_thread, set_threads; cbn [heap threads sync]. lia. Qed.
Lemma balance_notified l p i x w : balance l p (on_thread i (set_notified x) w) = balance l p w.
Proof.
  destruct (threads w !! i) as [t|] eqn:E.
  - rewrite (balance_on_thread l p i _ w t E). change (weigh_thread (entries l) (set_notified x t)) with (weigh_thread (entries l) t). lia.
  - unfold on_thread, set_threads. rewrite alter_none by exact E. now destruct w.
Qed.
Lemma balance_sync l p q w : balance l p (set_sync q w) = balance l p w - (total_of (on_task (entries l)) q - total_of (on_task (entries l)) (sync w)).
Proof. unfold balance. rewrite weigh_sync. change (net_at l p (set_sync q w)) with (net_at l p w). lia. Qed.
Lemma balance_flags l p a e w : balance l p (set_flags a e w) = balance l p w.
Proof. reflexivity. Qed.
Lemma balance_told l p x w : balance l p (set_tells x w) = balance l p w.
Proof. reflexivity. Qed.

Lemma lookup_on_state q f (w : world) q' : heap (on_state q f w) !! q' = if decide (q = q') then f <$> heap w !! q' else heap w !! q'.
Proof. unfold on_state, set_states; cbn [heap]. rewrite list_lookup_alter. now destruct (decide (q = q')) as [->|]. Qed.
Lemma lookup_on_state_eq q f (w : world) s : heap w !! q = Some s -> heap (on_state q f w) !! q = Some (f s).
Proof. intros E. now rewrite lookup_on_state, decide_True, E by reflexivity. Qed.
Lemma lookup_on_thread i f (w : world) t : threads w !! i = Some t -> threads (on_thread i f w) !! i = Some (f t).
Proof. intros E. unfold on_thread, set_threads; cbn [threads]. now rewrite list_lookup_alter, decide_True, E by reflexivity. Qed.

Definition book (b : bool) (p : nat) : ledger := if b then callbacks p else references p.
Lemma book_nonneg b p : nonneg (entries (book b p)).
Proof.
  split; intros x; [destruct b; cbn; [unfold one_when; destruct (decide _); lia|]|].
  - apply sum_nonneg. intros q. unfold one_when. destruct (decide _); lia.
  - destruct b, x; cbn; unfold one_when; try destruct (decide _); lia.
Qed.
Definition balanced (w : world) : Prop := forall b p, balance (book b p) p w = 0.
Lemma balanced_exists b p w : balanced w -> 0 < weigh (entries (book b p)) w -> exists s, heap w !! p = Some s /\ 0 < net (book b p) s.
Proof.
  intros B H. specialize (B b p). unfold balance, net_at in B. destruct (heap w !! p) as [s|]; [|lia]. exists s. split; [reflexivity|lia].
Qed.
Lemma balanced_count p w : balanced w -> 0 < weigh (entries (book false p)) w -> exists s, heap w !! p = Some s /\ (0 < count s)%nat.
Proof. intros B H. destruct (balanced_exists false p w B H) as (s & E & N). exists s. split; [exact E|]. cbn in N. unfold reference_net in N. lia. Qed.
Lemma balanced_handle p w s : balanced w -> heap w !! p = Some s -> (handles s <= count s)%nat.
Proof.
  intros B E. specialize (B false p). unfold balance, net_at in B. rewrite E in B. cbn in B. unfold reference_net in B.
  pose proof (weigh_nonneg _ (book_nonneg false p) w). cbn in *. lia.
Qed.

(** What a lambda refers to exists. *)
Definition task_exists (t : job) (w : world) : Prop :=
  (forall p, task_of t = Some p -> is_Some (heap w !! p)) /\ forall q, q ∈ task_copies t -> is_Some (heap w !! q).
Lemma one_when_nonneg P {d : Decision P} : 0 <= one_when P.
Proof. unfold one_when. destruct (decide P); lia. Qed.
Lemma copies_in p l : p ∈ l -> 0 < copies p l.
Proof.
  intros (i & E)%list_elem_of_lookup. unfold copies. pose proof (sum_at (fun q => one_when (q = p)) i l p) as H. cbv beta in H.
  specialize (H (fun q => one_when_nonneg (q = p)) E). unfold one_when at 1 in H. rewrite decide_True in H by reflexivity. lia.
Qed.
Lemma exists_weighed t w : balanced w -> (forall b p, on_task (entries (book b p)) t <= weigh (entries (book b p)) w) -> task_exists t w.
Proof.
  intros B H. split.
  - intros p E. destruct (balanced_exists true p w B) as (s & -> & _); [|eauto]. specialize (H true p). cbn in *. unfold one_when in H.
    rewrite decide_True in H by exact E. lia.
  - intros q E. destruct (balanced_exists false q w B) as (s & -> & _); [|eauto]. specialize (H false q). cbn in *. apply copies_in in E. lia.
Qed.

(** ** Losing a callback *)

Record same_core (s s' : promise_state) : Prop := mk_same_core {
  core_value : value s' = value s; core_event : event s' = event s; core_count : count s' = count s; core_code : code_of s' = code_of s;
  core_handles : handles s' = handles s }.
#[local] Instance same_core_trans : Transitive same_core.
Proof. intros a b c [] []. split; congruence. Qed.
#[local] Instance same_core_refl : Reflexive same_core.
Proof. now intros a. Qed.
Lemma core_ready s s' : same_core s s' -> is_ready s' = is_ready s.
Proof. intros []. unfold is_ready. now rewrite core_code0. Qed.

Definition losing (note : promise_state -> promise_state) : Prop :=
  forall s, same_core s (note s) /\ callback_net (note s) = callback_net s - 1 /\ reference_net (note s) = reference_net s.
Lemma losing_lost : losing note_lost.
Proof. intros s. repeat split. unfold callback_net; cbn. lia. Qed.
Lemma losing_refused : losing note_refused.
Proof. intros s. repeat split. unfold callback_net; cbn. lia. Qed.

Definition leak (l : list nat) (w : world) : world := foldr (fun p => on_state p note_leaked) w l.
Lemma lookup_core f q q' s (w : world) : (forall s, same_core s (f s)) -> heap w !! q' = Some s -> exists s', heap (on_state q f w) !! q' = Some s' /\ same_core s s'.
Proof. intros H E. rewrite lookup_on_state, E. destruct (decide _); cbn; eauto. exists s. now split. Qed.
Lemma lookup_leak l q s w : heap w !! q = Some s -> exists s', heap (leak l w) !! q = Some s' /\ same_core s s'.
Proof.
  intros E. induction l as [|q' l (s1 & E1 & C1)]; [exists s; now split|]. cbn. fold (leak l w).
  destruct (lookup_core note_leaked q' q s1 (leak l w)) as (s2 & E2 & C2); [now intros []|exact E1|]. exists s2. split; [exact E2|now transitivity s1].
Qed.
Lemma balance_leak b p l w : (forall q, q ∈ l -> is_Some (heap w !! q)) ->
  balance (book b p) p (leak l w) = balance (book b p) p w - (if b then 0 else copies p l).
Proof.
  intros H. induction l as [|q l IH]; [destruct b; cbn; lia|]. cbn. fold (leak l w).
  destruct (H q ltac:(now left)) as [s E]. destruct (lookup_leak l q s w E) as (s1 & E1 & _). rewrite (balance_on_state _ p q note_leaked _ s1 E1), IH by (intros; apply H; now right).
  unfold change, weigh_event. destruct b; cbn.
  - unfold callback_net; cbn. lia.
  - unfold reference_net, copies, total_of; cbn. lia.
Qed.
Lemma lookup_lose note t q s w : losing note -> heap w !! q = Some s -> exists s', heap (lose note t w) !! q = Some s' /\ same_core s s'.
Proof.
  intros L E. unfold lose. fold (leak (task_copies t) (match task_of t with Some p => on_state p note w | None => w end)).
  destruct (task_of t) as [p|]; [|now apply lookup_leak].
  destruct (lookup_core note p q s w ltac:(apply L) E) as (s1 & E1 & C1). destruct (lookup_leak (task_copies t) q s1 _ E1) as (s2 & E2 & C2).
  exists s2. split; [exact E2|now transitivity s1].
Qed.
Lemma balance_lose b p note t w : losing note -> task_exists t w ->
  balance (book b p) p (lose note t w) = balance (book b p) p w - on_task (entries (book b p)) t.
Proof.
  intros L [T C]. unfold lose. fold (leak (task_copies t) (match task_of t with Some p => on_state p note w | None => w end)).
  destruct (task_of t) as [q|] eqn:Et.
  - destruct (T q eq_refl) as [s E]. rewrite balance_leak.
    2: { intros q' H. destruct (C q' H) as [s' E']. destruct (lookup_core note q q' s' w ltac:(apply L) E') as (s1 & -> & _). eauto. }
    rewrite (balance_on_state _ p q note w s E). destruct (L s) as (S & N1 & N2). unfold change, weigh_event. rewrite (core_event _ _ S).
    destruct b; cbn; [rewrite N1, Et; unfold one_when; destruct (decide (q = p)), (decide (Some q = Some p)); try congruence; lia|rewrite N2; lia].
  - rewrite balance_leak by exact C. destruct b; cbn; [|lia]. rewrite Et. unfold one_when. rewrite decide_False by congruence. lia.
Qed.
Lemma lose_threads note t (w : world) : threads (lose note t w) = threads w.
Proof.
  unfold lose. induction (task_copies t) as [|q l IH]; [now destruct (task_of t)|exact IH].
Qed.

Lemma lose_event_spec b p q s (w w' : world) fs : balanced w -> heap w !! q = Some s -> lose_event s w = (w', fs) ->
  balance (book b p) p w' = balance (book b p) p w - weigh_event (entries (book b p)) s /\
  (exists s', heap w' !! q = Some s' /\ same_core s s') /\ total_of (weigh_frame (entries (book b p))) fs = 0 /\ threads w' = threads w.
Proof.
  intros B E. unfold lose_event. destruct (event s) as [t|] eqn:Ee; intros [= <- <-].
  - assert (T : task_exists t w).
    { apply exists_weighed; [exact B|]. intros b0 p0. pose proof (weigh_event_le _ (book_nonneg b0 p0) w q s E) as H. unfold weigh_event in H. now rewrite Ee in H. }
    rewrite (balance_lose b p note_lost t w losing_lost T). unfold weigh_event. rewrite Ee. split; [lia|]. split; [exact (lookup_lose _ _ _ _ _ losing_lost E)|].
    split; [|apply lose_threads]. destruct t, b; reflexivity.
  - unfold weigh_event. rewrite Ee. split; [lia|]. split; [exists s; now split|]. split; reflexivity.
Qed.

(** ** The steps keep the ledgers balanced *)

Definition same_frames (w w' : world) : Prop :=
  forall i t, threads w !! i = Some t -> exists t', threads w' !! i = Some t' /\ frames t' = frames t.
Lemma same_frames_eq (w w' : world) : threads w' = threads w -> same_frames w w'.
Proof. intros H i t E. rewrite H. eauto. Qed.
Lemma same_frames_alter i f (w : world) : (forall t : thread, frames (f t) = frames t) -> same_frames w (on_thread i f w).
Proof.
  intros H j t E. unfold on_thread, set_threads; cbn [threads]. rewrite list_lookup_alter. destruct (decide (i = j)) as [->|]; rewrite E; cbn; eexists; split; eauto.
Qed.
(** What remains to be weighed of the frame [f] are the frames [fs]. *)
Definition balance_kept (w : world) (f : frame) (w' : world) (fs : list frame) : Prop :=
  forall b p, balance (book b p) p w' - total_of (weigh_frame (entries (book b p))) fs = balance (book b p) p w - weigh_frame (entries (book b p)) f.
Definition step_keeps (w : world) (f : frame) (r : step_outcome (world * list frame)) : Prop :=
  forall w' fs, r = done (w', fs) -> balance_kept w f w' fs /\ same_frames w w'.

(** The entries of a step, when the changed states are known. *)
Ltac leaf b :=
  destruct b; cbn; unfold callback_net, reference_net, copies, total_of in *; cbn in *;
  repeat match goal with |- context [match event ?s with _ => _ end] => destruct (event s); cbn end;
  unfold one_when in *; repeat match goal with |- context [decide ?P] => destruct (decide P) end; subst; try congruence; cbn in *; lia.
Lemma store_keeps p t w : balanced w -> step_keeps w (frame_store p t) (store p t w).
Proof.
  intros B w' fs H. unfold store in H. invert_bind. on_done. destruct (lose_event x w) as [w1 drops] eqn:L.
  destruct (is_ready x); on_done; (split; [intros b q; destruct (lose_event_spec b q p x w w1 drops B E L) as (Bl & (s1 & E1 & C1) & D & _)|]).
  - rewrite (balance_on_state _ q p _ w1 s1 E1), Bl, sum_app, D. unfold change, weigh_event. rewrite (core_event _ _ C1). leaf b.
  - apply same_frames_eq. change (threads w1 = threads w). now destruct (lose_event_spec true 0%nat p x w w1 drops B E L) as (_ & _ & _ & ->).
  - rewrite (balance_on_state _ q p _ w1 s1 E1), Bl, D. unfold change, weigh_event. rewrite (core_event _ _ C1). leaf b.
  - apply same_frames_eq. change (threads w1 = threads w). now destruct (lose_event_spec true 0%nat p x w w1 drops B E L) as (_ & _ & _ & ->).
Qed.
Lemma settle_keeps own p v w : step_keeps w (frame_settle own p v) (set_locked own p v w).
Proof.
  intros w' fs H. unfold set_locked in H. invert_bind. assert (E' : heap w !! p = Some x) by (destruct own; on_done; assumption).
  destruct (is_ready x); [discriminate|]. on_done. split; [|now apply same_frames_eq]. intros b q. rewrite (balance_on_state _ q p _ w x E').
  destruct (event x) eqn:Ee; unfold change, weigh_event; rewrite Ee; leaf b.
Qed.
Lemma wait_keeps i p k w : balanced w -> step_keeps w (frame_wait p k) (wait i p k w).
Proof.
  intros B w' fs H. unfold wait in H. invert_bind. on_done. destruct (is_ready x); on_done.
  { split; [|now apply same_frames_eq]. intros b q. leaf b. }
  destruct (lose_event x w) as [w1 drops] eqn:L. on_done. split.
  - intros b q. destruct (lose_event_spec b q p x w w1 drops B E L) as (Bl & (s1 & E1 & C1) & D & _).
    rewrite balance_notified. unfold promise_add_ref. rewrite (balance_on_state _ q p _ _ _ (lookup_on_state_eq p _ w1 s1 E1)), (balance_on_state _ q p _ w1 s1 E1), Bl.
    unfold total_of in *; cbn. fold (total_of (weigh_frame (entries (book b q)))). rewrite D. unfold change, weigh_event; cbn. rewrite (core_event _ _ C1).
    leaf b.
  - intros j t Ej. apply same_frames_alter; [now intros []|]. change (threads w1 !! j = Some t). now destruct (lose_event_spec true 0%nat p x w w1 drops B E L) as (_ & _ & _ & ->).
Qed.
Lemma block_keeps sp i p k w : step_keeps w (frame_block p k) (block_wait sp i p k w).
Proof.
  intros w' fs H. unfold block_wait in H. invert_bind. destruct (_ && _); [|discriminate]. on_done. split; [|now apply same_frames_eq]. intros b q. leaf b.
Qed.
Definition event_exists (p : nat) (w : world) : Prop := forall s t, heap w !! p = Some s -> event s = Some t -> task_exists t w.
Lemma balanced_event p w : balanced w -> event_exists p w.
Proof.
  intros B s t E Et. apply exists_weighed; [exact B|]. intros b q. pose proof (weigh_event_le _ (book_nonneg b q) w p s E) as L. unfold weigh_event in L. now rewrite Et in L.
Qed.
Lemma event_exists_on_state p f w : (forall s, event (f s) = event s) -> event_exists p w -> event_exists p (on_state p f w).
Proof.
  intros F H s t E Et. rewrite lookup_on_state, decide_True in E by reflexivity. destruct (heap w !! p) as [s0|] eqn:E0; [|discriminate]. injection E as <-.
  rewrite F in Et. destruct (H s0 t E0 Et) as [T1 T2].
  split; intros q Hq; [destruct (T1 q Hq) as [u Eu]|destruct (T2 q Hq) as [u Eu]]; rewrite lookup_on_state, Eu; destruct (decide _); cbn; eauto.
Qed.
Lemma release_keeps p w : event_exists p w -> step_keeps w (frame_release p) (promise_release p w).
Proof.
  intros X w' fs H. unfold promise_release in H. invert_bind. on_done. set (w0 := on_state p _ w) in H.
  assert (E0 : heap w0 !! p = Some (set_count (pred (count x)) x)) by exact (lookup_on_state_eq p _ w x E).
  destruct (Nat.eqb_spec (count x) 1) as [C|C].
  - unfold lose_event in H. destruct (event x) as [t|] eqn:Ee; on_done.
    + assert (T : task_exists t w0) by (eapply (event_exists_on_state p _ w); [|exact X|exact E0|exact Ee]; reflexivity).
      split; [|apply same_frames_eq; exact (lose_threads note_lost t w0)]. intros b q. destruct (lookup_lose note_lost t p _ w0 losing_lost E0) as (s1 & E1 & C1).
      rewrite (balance_on_state _ q p _ _ s1 E1), (balance_lose b q note_lost t w0 losing_lost T). unfold w0. rewrite (balance_on_state _ q p _ w x E).
      unfold change, weigh_event. rewrite (core_event _ _ C1). cbn [event set_event set_count]. rewrite Ee. destruct t; leaf b.
    + split; [|now apply same_frames_eq]. intros b q. unfold w0. rewrite (balance_on_state _ q p _ _ _ (lookup_on_state_eq p _ w x E)), (balance_on_state _ q p _ w x E).
      unfold change, weigh_event. cbn [event set_event set_count]. rewrite Ee. leaf b.
  - on_done. split; [|now apply same_frames_eq]. intros b q. unfold w0. rewrite (balance_on_state _ q p _ w x E). unfold change, weigh_event. leaf b.
Qed.
Lemma execute_keeps t async w : step_keeps w (frame_execute t async) (execute t async w).
Proof. intros w' fs H. unfold execute in H. destruct (_ && _); on_done; (split; [|now apply same_frames_eq]); intros b q; leaf b. Qed.
Lemma set_task_keeps i r t w th fs0 : balanced w -> threads w !! i = Some th -> frames th = frame_task r t :: fs0 -> step_keeps w (frame_task r t) (set_task i r t w).
Proof.
  intros B Et Ef w' fs H. unfold set_task in H. destruct (negb (enqueue w)).
  - on_done. split; [|apply same_frames_eq, lose_threads]. intros b q. rewrite (balance_lose b q note_refused t w losing_refused).
    + destruct t; leaf b.
    + apply exists_weighed; [exact B|]. intros b0 p0. exact (weigh_top_le _ (book_nonneg b0 p0) w i th _ fs0 Et Ef).
  - destruct (r && fast_bypass i w); on_done.
    + split; [|now apply same_frames_alter]. intros b q. rewrite (balance_on_thread _ q i _ w th Et). unfold weigh_thread. cbn [frames queue set_own_queue]. rewrite sum_app. leaf b.
    + split; [|now apply same_frames_eq]. intros b q. rewrite balance_sync, sum_app. leaf b.
Qed.
Lemma drop_keeps p w : balanced w -> step_keeps w (frame_drop p) (drop_handle p w).
Proof.
  intros B w' fs H. unfold drop_handle in H. invert_bind. on_done. set (w1 := on_state p _ w) in H.
  destruct (release_keeps p w1) with (w' := w') (fs := fs) as [R S]; [apply event_exists_on_state; [reflexivity|now apply balanced_event]|exact H|].
  split; [|exact S]. intros b q. specialize (R b q). unfold w1 in R. rewrite (balance_on_state _ q p _ w x E) in R. rewrite R.
  unfold change, weigh_event. leaf b.
Qed.
Context (moved : V -> V).
Lemma load_keeps p k w : step_keeps w (frame_load p k) (load moved p k w).
Proof.
  intros w' fs H. unfold load in H. do 2 invert_bind. on_done. split; [|now apply same_frames_eq]. intros b q. rewrite (balance_on_state _ q p _ w x E).
  unfold change, weigh_event. leaf b.
Qed.
Lemma take_value_balance b q p w s : heap w !! p = Some s -> balance (book b q) q (take_value moved p w) = balance (book b q) q w - (if b then one_when (p = q) else 0).
Proof. intros E. unfold take_value. rewrite (balance_on_state _ q p _ w s E). unfold change, weigh_event. leaf b. Qed.
Lemma start_keeps i t w th fs0 : balanced w -> threads w !! i = Some th -> frames th = frame_start t :: fs0 -> step_keeps w (frame_start t) (start_job moved t w).
Proof.
  intros B Et Ef w' fs H. destruct t; cbn in H.
  1-3: do 2 invert_bind; on_done; (split; [|now apply same_frames_eq]); intros b q; erewrite take_value_balance by eassumption; leaf b.
  - destruct (waits_for i0 w); [|discriminate]. on_done. split; [|intros j u Ej; apply same_frames_alter; [now intros []|exact Ej]]. intros b q. rewrite balance_notified.
    destruct (exists_weighed (task_notify p i0) w B) as [T _]; [intros b0 p0; exact (weigh_top_le _ (book_nonneg b0 p0) w i th _ fs0 Et Ef)|].
    destruct (T p eq_refl) as [s E]. rewrite (balance_on_state _ q p _ w s E). unfold change, weigh_event. leaf b.
  - on_done. split; [|now apply same_frames_eq]. intros b q. leaf b.
Qed.

Lemma add_ref_lookup p q s (w : world) : heap w !! q = Some s -> exists s', heap (promise_add_ref p w) !! q = Some s' /\ (p <> q -> s' = s) /\ event s' = event s /\ code_of s' = code_of s.
Proof. intros E. unfold promise_add_ref. rewrite lookup_on_state, E. destruct (decide (p = q)); cbn; eauto 6. exists (set_count (S (count s)) s). repeat split. congruence. Qed.
Lemma add_ref_balance b q p w s : heap w !! p = Some s -> balance (book b q) q (promise_add_ref p w) = balance (book b q) q w + (if b then 0 else one_when (p = q)).
Proof. intros E. unfold promise_add_ref. rewrite (balance_on_state _ q p _ w s E). unfold change, weigh_event. leaf b. Qed.
Lemma attach_balance b q p w s : heap w !! p = Some s -> balance (book b q) q (on_state p note_attached w) = balance (book b q) q w + (if b then one_when (p = q) else 0).
Proof. intros E. rewrite (balance_on_state _ q p _ w s E). unfold change, weigh_event. leaf b. Qed.
Lemma new_lookup p s s' (w : world) : heap w !! p = Some s -> heap (set_states (heap w ++ [s']) w) !! p = Some s.
Proof. intros E. unfold set_states; cbn [heap]. now apply lookup_app_l_Some. Qed.

Lemma run_code_keeps i c w : step_keeps w (frame_run c) (run_code moved i c w).
Proof.
  intros w' fs H. destruct c; open_code H.
  1, 5, 11, 12, 13: on_done; (split; [|now apply same_frames_eq]); intros b q; leaf b.
  1, 2: on_done; (split; [|now apply same_frames_eq]); intros b q; rewrite balance_new by (destruct b; reflexivity); leaf b.
  - invert_bind. on_done. split; [|now apply same_frames_eq]. intros b q. erewrite add_ref_balance by (eapply lookup_on_state_eq; exact E).
    rewrite (balance_on_state _ q p _ w x E). unfold change, weigh_event. leaf b.
  - invert_bind. on_done. split; [|now apply same_frames_eq]. intros b q. leaf b.
  - do 2 invert_bind. on_done. destruct (add_ref_lookup p other x0 w E0) as (s1 & E1 & _). set (w1 := on_state other note_attached (promise_add_ref p w)) in *.
    assert (A : forall b q, balance (book b q) q w1 = balance (book b q) q w + (if b then one_when (other = q) else one_when (p = q))).
    { intros b q. unfold w1. rewrite (attach_balance b q other _ s1 E1), (add_ref_balance b q p w x E). destruct b; lia. }
    assert (E2 : heap w1 !! other = Some (note_attached s1)) by exact (lookup_on_state_eq other _ _ s1 E1).
    destruct (is_ready x0); [invert_bind|]; on_done; (split; [|now apply same_frames_eq]); intros b q.
    + rewrite (take_value_balance b q other w1 _ E2), A. leaf b.
    + rewrite (add_ref_balance b q other w1 _ E2), A. leaf b.
  - invert_bind. on_done. set (w1 := on_state p note_attached w) in *. assert (E1 : heap w1 !! p = Some (note_attached x)) by exact (lookup_on_state_eq p _ w x E).
    destruct (is_ready x); [invert_bind|]; on_done; (split; [|now apply same_frames_eq]); intros b q.
    + rewrite (take_value_balance b q p w1 _ E1). unfold w1. rewrite (attach_balance b q p w x E). leaf b.
    + rewrite (add_ref_balance b q p w1 _ E1). unfold w1. rewrite (attach_balance b q p w x E). leaf b.
  - invert_bind. on_done. split; [|now apply same_frames_eq]. intros b q. pose proof (new_lookup p x (pending_state 2) w E) as E1.
    destruct (add_ref_lookup p p x _ E1) as (s1 & E2 & _). rewrite (attach_balance b q p _ s1 E2), (add_ref_balance b q p _ x E1), balance_new by (destruct b; reflexivity). leaf b.
  - invert_bind. on_done. split; [|now apply same_frames_eq]. intros b q. destruct (is_ready x); leaf b.
  - on_done. split; [|now apply same_frames_eq]. intros b q. rewrite balance_told. leaf b.
Qed.

Lemma step_frame_keeps sp i f w t fs0 : balanced w -> threads w !! i = Some t -> frames t = f :: fs0 -> step_keeps w f (step_frame moved sp i f w).
Proof.
  intros B Et Ef. destruct f; cbn.
  - apply run_code_keeps.
  - now apply store_keeps.
  - now apply wait_keeps.
  - apply block_keeps.
  - apply load_keeps.
  - apply settle_keeps.
  - apply execute_keeps.
  - eapply set_task_keeps; eassumption.
  - eapply start_keeps; eassumption.
  - apply release_keeps. now apply balanced_event.
  - now apply drop_keeps.
Qed.

(** ** The states *)

Definition state_ok (p : nat) (s : promise_state) : Prop :=
  (code_of s = ready <-> value s <> None) /\ (code_of s = ready -> event s = None) /\ forall t, event s = Some t -> task_of t = Some p.
Definition states_ok (w : world) : Prop := forall p s, heap w !! p = Some s -> state_ok p s.
(** A callback is stored with a copy of the pointer it was stored by. *)
Definition stored_ok (f : frame) : Prop :=
  match f with frame_store p (task_when q _) | frame_store p (task_then q _ _) | frame_store p (task_link q _) => q = p | frame_store _ _ => False | _ => True end.
Lemma stored_task p t : stored_ok (frame_store p t) -> task_of t = Some p /\ p ∈ task_copies t.
Proof. destruct t; cbn; try easy; intros ->; (split; [reflexivity|apply list_elem_of_here]). Qed.
Lemma is_ready_true (s : promise_state) : is_ready s = true <-> code_of s = ready.
Proof. unfold is_ready. now rewrite bool_decide_eq_true. Qed.
Lemma is_ready_false (s : promise_state) : is_ready s = false <-> code_of s <> ready.
Proof. unfold is_ready. now rewrite bool_decide_eq_false. Qed.

Lemma states_on_state q f w : states_ok w -> (forall s, heap w !! q = Some s -> state_ok q s -> state_ok q (f s)) -> states_ok (on_state q f w).
Proof.
  intros S F p s E. rewrite lookup_on_state in E. destruct (decide (q = p)) as [->|N]; [|now apply S].
  destruct (heap w !! p) as [s0|] eqn:E0; [|discriminate]. injection E as <-. auto.
Qed.
Lemma state_ok_core p s s' : same_core s s' -> state_ok p s -> state_ok p s'.
Proof. intros [E1 E2 _ E3 _] (A & B & C). unfold state_ok. rewrite E1, E2, E3. auto. Qed.
Lemma states_same q f w : states_ok w -> (forall s, value (f s) = value s /\ event (f s) = event s /\ code_of (f s) = code_of s) -> states_ok (on_state q f w).
Proof. intros S F. apply states_on_state; [exact S|]. intros s _ (A & B & C). unfold state_ok. destruct (F s) as (-> & -> & ->). auto. Qed.
Lemma states_lose note t w : losing note -> states_ok w -> states_ok (lose note t w).
Proof.
  intros L S. unfold lose. assert (S0 : states_ok (match task_of t with Some p => on_state p note w | None => w end)).
  { destruct (task_of t); [|exact S]. apply states_on_state; [exact S|]. intros s _. apply state_ok_core, L. }
  induction (task_copies t) as [|q l IH]; [exact S0|]. cbn. apply states_on_state; [exact IH|]. intros s _. apply state_ok_core. now intros.
Qed.
Lemma states_lose_event s w w' fs : states_ok w -> lose_event s w = (w', fs) -> states_ok w' /\ List.Forall stored_ok fs.
Proof.
  intros S. unfold lose_event. destruct (event s) as [t|]; intros [= <- <-]; [|auto]. split; [now apply states_lose; [apply losing_lost|]|]. destruct t; repeat constructor.
Qed.
Lemma lose_event_lookup p s w w' fs x : heap w !! p = Some x -> lose_event s w = (w', fs) -> exists x', heap w' !! p = Some x' /\ same_core x x'.
Proof. intros E. unfold lose_event. destruct (event s) as [t|]; intros [= <- <-]; [now apply lookup_lose; [apply losing_lost|]|]. exists x. now split. Qed.
Lemma states_new s w : states_ok w -> (forall p, state_ok p s) -> states_ok (set_states (heap w ++ [s]) w).
Proof. intros S N p x E. unfold set_states in E; cbn [heap] in E. apply lookup_app_Some in E as [E|[_ E]]; [now apply S|]. apply list_lookup_singleton_Some in E as [_ <-]. apply N. Qed.
Lemma states_take p w s v : states_ok w -> heap w !! p = Some s -> value s = Some v -> states_ok (take_value moved p w).
Proof.
  intros S E Ev. apply states_on_state; [exact S|]. intros s' E' (A & B & C). rewrite E in E'. injection E' as <-. unfold state_ok; cbn. rewrite Ev in *. cbn. split; [|auto].
  split; [discriminate|]. intros _. now apply A.
Qed.
Lemma unwrap_done (s : promise_state) v : unwrap s = done v -> value s = Some v.
Proof. unfold unwrap. destruct (value s); [now intros [= ->]|discriminate]. Qed.

Ltac frames_fine := repeat (constructor; cbn; auto).
Lemma states_same_notify i (w : world) f : states_ok w -> states_ok (on_thread i f w).
Proof. exact (fun S => S). Qed.
Lemma release_states p w w' fs : states_ok w -> promise_release p w = done (w', fs) -> states_ok w' /\ List.Forall stored_ok fs.
Proof.
  intros S H. unfold promise_release in H. invert_bind. assert (S0 : states_ok (on_state p (fun s => set_count (pred (count s)) s) w)) by now apply states_same.
  destruct (count x =? 1)%nat; [|on_done; split; [exact S0|frames_fine]]. destruct (lose_event x _) as [w1 drops] eqn:L. on_done.
  destruct (states_lose_event _ _ _ _ S0 L) as [S1 F]. split; [|exact F]. apply states_on_state; [exact S1|].
  intros s _ (A & B & C). unfold state_ok; cbn. repeat split; try apply A; try discriminate.
Qed.
Lemma run_code_states i c w w' fs : states_ok w -> run_code moved i c w = done (w', fs) -> states_ok w' /\ List.Forall stored_ok fs.
Proof.
  intros S H. destruct c; open_code H; repeat invert_bind; on_done; try (split; [exact S|now frames_fine]).
  - split; [|frames_fine]. apply states_new; [exact S|]. intros p. unfold state_ok; cbn. intuition congruence.
  - split; [|frames_fine]. apply states_new; [exact S|]. intros p. unfold state_ok; cbn. intuition congruence.
  - split; [|frames_fine]. unfold promise_add_ref. apply states_same; [|now intros]. now apply states_same.
  - assert (S1 : states_ok (on_state other note_attached (promise_add_ref p w))) by (apply states_same; [|now intros]; now apply states_same).
    destruct (is_ready x0) eqn:R; [|on_done; split; [now apply states_same|frames_fine]]. invert_bind. on_done. split; [|frames_fine].
    destruct (add_ref_lookup p other x0 w E0) as (s1 & E2 & _). rename E1 into U.
    assert (V1 : exists s2 v2, heap (on_state other note_attached (promise_add_ref p w)) !! other = Some s2 /\ value s2 = Some v2).
    { exists (note_attached s1). unfold promise_add_ref in E2. rewrite lookup_on_state, E0 in E2. apply unwrap_done in U.
      destruct (decide (p = other)); injection E2 as <-; exists x1; (split; [apply lookup_on_state_eq; unfold promise_add_ref; rewrite lookup_on_state, E0|exact U]).
      - now rewrite decide_True by assumption.
      - now rewrite decide_False by assumption. }
    destruct V1 as (s2 & v2 & L & Ev). exact (states_take _ _ _ _ S1 L Ev).
  - assert (S1 : states_ok (on_state p note_attached w)) by now apply states_same.
    destruct (is_ready x) eqn:R; [|on_done; split; [now apply states_same|frames_fine]]. invert_bind. on_done. split; [|frames_fine].
    apply unwrap_done in E0. exact (states_take p _ (note_attached x) _ S1 (lookup_on_state_eq p _ w x E) E0).
  - split; [|frames_fine]. apply states_same; [|now intros]. apply states_same; [|now intros]. apply states_new; [exact S|]. intros q. unfold state_ok; cbn. intuition congruence.
  - split; [exact S|]. destruct (is_ready x); frames_fine.
Qed.
Lemma step_frame_states sp i f w w' fs : states_ok w -> stored_ok f -> step_frame moved sp i f w = done (w', fs) -> states_ok w' /\ List.Forall stored_ok fs.
Proof.
  intros S F H. destruct f; cbn in H.
  - eapply run_code_states; eassumption.
  - unfold store in H. invert_bind. on_done. destruct (lose_event x w) as [w1 drops] eqn:L. destruct (states_lose_event _ _ _ _ S L) as [S1 D].
    destruct (lose_event_lookup p x w w1 drops x E L) as (x1 & E1 & C1). destruct (is_ready x) eqn:R; on_done; (split; [apply states_on_state; [exact S1|]|]).
    + intros s _ (A & B & C). unfold state_ok; cbn. repeat split; try apply A; try discriminate.
    + apply List.Forall_app. split; [exact D|frames_fine].
    + intros s Es (A & B & C). rewrite E1 in Es. injection Es as <-. rewrite <- (core_ready _ _ C1) in R. apply is_ready_false in R.
      unfold state_ok; cbn. repeat split; try apply A; [congruence|]. intros t' [= ->]. exact (proj1 (stored_task p t' F)).
    + exact D.
  - unfold wait in H. invert_bind. on_done. destruct (is_ready x) eqn:R; [on_done; split; [exact S|frames_fine]|].
    destruct (lose_event x w) as [w1 drops] eqn:L. on_done. destruct (states_lose_event _ _ _ _ S L) as [S1 D]. destruct (lose_event_lookup p x w w1 drops x E L) as (x1 & E1 & C1).
    split; [|constructor; [exact I|exact D]]. apply states_same_notify, states_on_state; [now apply states_same|].
    intros s Es (A & B & C). unfold promise_add_ref in Es. rewrite (lookup_on_state_eq p _ w1 x1 E1) in Es. injection Es as <-.
    rewrite <- (core_ready _ _ C1) in R. apply is_ready_false in R. unfold state_ok; cbn in *.
    split; [split; [discriminate|intros Nv; apply A in Nv; congruence]|]. split; [discriminate|]. intros t' [= <-]. reflexivity.
  - unfold block_wait in H. invert_bind. destruct (_ && _); [|discriminate]. on_done. split; [exact S|frames_fine].
  - unfold load in H. do 2 invert_bind. on_done. split; [|frames_fine]. apply states_on_state; [exact S|]. intros s Es (A & B & C). apply unwrap_done in E0.
    rewrite E in Es. injection Es as <-. unfold state_ok; cbn. rewrite E0 in *. split; [split; [discriminate|intros _; now apply A]|auto].
  - unfold set_locked in H. invert_bind. destruct (is_ready x); [discriminate|]. on_done. split.
    + apply states_on_state; [exact S|]. intros s _ _. unfold state_ok; cbn. repeat split; discriminate.
    + destruct (event x); frames_fine.
  - unfold execute in H. destruct (_ && _); on_done; (split; [exact S|frames_fine]).
  - unfold set_task in H. destruct (negb _); [on_done; split; [apply states_lose; [apply losing_refused|exact S]|destruct t; frames_fine]|].
    destruct (_ && _); on_done; (split; [exact S|frames_fine]).
  - destruct t; cbn in H.
    1-3: do 2 invert_bind; on_done; apply unwrap_done in E0; (split; [eapply states_take; eassumption|frames_fine]).
    + destruct (waits_for _ _); [|discriminate]. on_done. split; [now apply states_same|frames_fine].
    + on_done. split; [exact S|frames_fine].
  - eapply release_states; eassumption.
  - unfold drop_handle in H. invert_bind. eapply release_states; [|exact H]. now apply states_same.
Qed.
End Facts.
