(* ===== verification/PromiseWake.v ===== *)
(** * Promises: the notification of a thread that waits, and the stacks of threads *)
From S2P Require Import Prelude Promise PromiseFacts.
From stdpp Require Import list.
Open Scope Z_scope.

Section Wake.
Context {V : Type}.
Abbreviation job := (job V).
Abbreviation frame := (frame V).
Abbreviation thread := (thread V).
Abbreviation promise_state := (promise_state V).
Abbreviation world := (world V).
Abbreviation weights := (@weights V).

(** ** Notifications of thread [j] for [p], and the callbacks that [p] has lost *)

Definition is_note (p j : nat) (t : job) : Z := match t with task_notify q i => one_when (q = p /\ i = j) | _ => 0 end.
Definition note_weights (p j : nat) : weights := mk_weights (is_note p j) (fun _ => 0).
Definition notes (p j : nat) (w : world) : Z := weigh (note_weights p j) w.
Definition losses (p : nat) (w : world) : Z := match heap w !! p with Some s => Z.of_nat (lost s) + Z.of_nat (refused s) | None => 0 end.
(** Only the second ledger knows the losses. *)
Definition wake_book (b : bool) (p j : nat) : @ledger V :=
  mk_ledger (note_weights p j) (if b then fun _ => 0 else fun s => - (Z.of_nat (lost s) + Z.of_nat (refused s))).
Lemma wake_true p j w : balance (wake_book true p j) p w = - notes p j w.
Proof. unfold balance, net_at, notes; cbn. destruct (heap w !! p); lia. Qed.
Lemma wake_false p j w : balance (wake_book false p j) p w = - (notes p j w + losses p w).
Proof. unfold balance, net_at, notes, losses; cbn. destruct (heap w !! p); lia. Qed.
Lemma is_note_bounds p j t : 0 <= is_note p j t <= one_when (task_of t = Some p).
Proof. destruct t; cbn; unfold one_when; repeat destruct (decide _); try lia. exfalso. intuition congruence. Qed.
Lemma note_nonneg p j : nonneg (note_weights p j).
Proof. split; intros x; [apply is_note_bounds|reflexivity]. Qed.

Definition silent (f : promise_state -> promise_state) : Prop :=
  forall s, event (f s) = event s /\ lost (f s) = lost s /\ refused (f s) = refused s.
Lemma wake_silent b p j q f w : silent f -> balance (wake_book b p j) p (on_state q f w) = balance (wake_book b p j) p w.
Proof.
  intros S. destruct (heap w !! q) as [s|] eqn:E; [|now rewrite on_state_none].
  rewrite (balance_on_state _ p q f w s E). destruct (S s) as (Ev & L & R). unfold change, weigh_event. rewrite Ev. destruct b; cbn; rewrite ?L, ?R; lia.
Qed.
Lemma wake_lose b p j note t w : (note = note_lost \/ note = note_refused) -> task_exists t w ->
  balance (wake_book b p j) p (lose note t w) = balance (wake_book b p j) p w - (if b then 0 else one_when (task_of t = Some p)).
Proof.
  intros N [T C]. unfold lose. set (w0 := match task_of t with Some q => _ | None => w end).
  assert (H : balance (wake_book b p j) p (foldr (fun p => on_state p note_leaked) w0 (task_copies t)) = balance (wake_book b p j) p w0).
  { induction (task_copies t) as [|q l IH]; [reflexivity|]. cbn. rewrite wake_silent by now intros. apply IH. intros; apply C. now right. }
  rewrite H. subst w0. destruct (task_of t) as [q|]; [|destruct b; unfold one_when; [lia|]; rewrite decide_False by congruence; lia].
  destruct (T q eq_refl) as [s E]. rewrite (balance_on_state _ p q note w s E). unfold change, one_when, weigh_event.
  destruct N as [-> | ->]; destruct b; cbn; destruct (decide (q = p)), (decide (Some q = Some p)); try congruence; lia.
Qed.
(** The event of a state is taken out and counted as lost. *)
Lemma wake_lose_event b p j q s w w' fs e : balanced w -> heap w !! q = Some s -> state_ok q s -> lose_event s w = (w', fs) ->
  exists s', heap w' !! q = Some s' /\ same_core s s' /\ total_of (weigh_frame (note_weights p j)) fs = 0 /\ threads w' = threads w /\
  let lost := match event s with Some t => one_when (q = p) | None => 0 end in
  balance (wake_book b p j) p w' = balance (wake_book b p j) p w - (if b then 0 else lost) /\
  balance (wake_book b p j) p (on_state q (set_event e) w') = balance (wake_book b p j) p w - (if b then 0 else lost)
    + weigh_event (note_weights p j) s - match e with Some t => is_note p j t | None => 0 end.
Proof.
  intros B E (_ & _ & Own) L. pose proof (lose_event_lookup q s w w' fs s E L) as (s1 & E1 & C1). exists s1. do 2 (split; [assumption|]).
  pose proof (balanced_event q w B s) as X. unfold lose_event in L. destruct (event s) as [t|] eqn:Ee; injection L as <- <-.
  - split; [destruct t; reflexivity|]. split; [apply lose_threads|]. specialize (Own t eq_refl).
    assert (Bl : balance (wake_book b p j) p (lose note_lost t w) = balance (wake_book b p j) p w - (if b then 0 else one_when (q = p))).
    { rewrite wake_lose by (first [now left|exact (X t E eq_refl)]). rewrite Own. unfold one_when. destruct b; [lia|]. repeat destruct (decide _); try congruence; lia. }
    split; [exact Bl|]. rewrite (balance_on_state _ p q _ _ s1 E1), Bl. unfold change, weigh_event. rewrite (core_event _ _ C1), Ee. destruct b, e; cbn; lia.
  - split; [reflexivity|]. split; [reflexivity|]. split; [destruct b; lia|]. rewrite (balance_on_state _ p q _ _ s1 E1). unfold change, weigh_event.
    rewrite (core_event _ _ C1), Ee. destruct b, e; cbn; lia.
Qed.

(** ** What a step does to the notifications *)

Context (moved : V -> V).

(** The notifications that a step of thread [i] takes up, and the ones it makes. *)
Definition note_taken (p j : nat) (f : frame) : Z := match f with frame_start t => is_note p j t | _ => 0 end.
Definition note_made (p j i : nat) (f : frame) : Z := match f with frame_wait q _ => one_when (q = p /\ i = j) | _ => 0 end.
Definition wake_kept (i : nat) (w : world) (f : frame) (w' : world) (fs : list frame) : Prop := forall p j,
  balance (wake_book true p j) p w - weigh_frame (note_weights p j) f - note_made p j i f + note_taken p j f <=
    balance (wake_book true p j) p w' - total_of (weigh_frame (note_weights p j)) fs /\
  balance (wake_book false p j) p w' - total_of (weigh_frame (note_weights p j)) fs <=
    balance (wake_book false p j) p w - weigh_frame (note_weights p j) f + note_taken p j f.

Ltac wake_leaf := cbn; unfold total_of, one_when; cbn; repeat match goal with |- context [decide ?P] => destruct (decide P) end; try tauto; lia.
(** A step that changes states without a word to their events and losses. *)
Ltac quiet := intros p' j'; rewrite ?wake_silent by (intros s0; repeat split); wake_leaf.

Lemma wake_new b p j s w : event s = None -> lost s = 0%nat -> refused s = 0%nat ->
  balance (wake_book b p j) p (set_states (heap w ++ [s]) w) = balance (wake_book b p j) p w.
Proof. intros E L R. apply balance_new; [exact E|]. destruct b; cbn; rewrite ?L, ?R; reflexivity. Qed.

Lemma run_code_wakes i c w w' fs : run_code moved i c w = done (w', fs) -> wake_kept i w (frame_run c) w' fs.
Proof.
  intros H. destruct c; open_code H; repeat invert_bind; on_done.
  all: try (unfold promise_add_ref, take_value; quiet; fail).
  1, 2: intros p' j'; rewrite !wake_new by reflexivity; wake_leaf.
  - destruct (is_ready x0); repeat invert_bind; on_done; unfold promise_add_ref, take_value; quiet.
  - destruct (is_ready x); repeat invert_bind; on_done; unfold promise_add_ref, take_value; quiet.
  - unfold promise_add_ref. intros p' j'. rewrite !wake_silent by (intros s0; repeat split). rewrite !wake_new by reflexivity. wake_leaf.
  - intros p' j'. destruct (is_ready x); wake_leaf.
  - intros p' j'. rewrite !balance_told. wake_leaf.
Qed.
Lemma release_wakes p w w' fs : event_exists p w -> states_ok w -> promise_release p w = done (w', fs) -> wake_kept 0 w (frame_release p) w' fs.
Proof.
  intros X S H. unfold promise_release in H. invert_bind. on_done. set (w0 := on_state p _ w) in H.
  assert (X0 : event_exists p w0) by (apply event_exists_on_state; [reflexivity|exact X]).
  assert (E0 : heap w0 !! p = Some (set_count (pred (count x)) x)) by exact (lookup_on_state_eq p _ w x E).
  assert (W0 : forall b q j, balance (wake_book b q j) q w0 = balance (wake_book b q j) q w) by (intros; unfold w0; now rewrite wake_silent by now intros).
  destruct (count x =? 1)%nat; [|on_done; intros q j; rewrite !W0; wake_leaf].
  unfold lose_event in H. destruct (event x) as [t|] eqn:Ee; on_done; intros q j.
  - assert (T : task_exists t w0) by exact (X0 _ t E0 Ee). destruct (lookup_lose note_lost t p _ w0 losing_lost E0) as (s1 & E1 & C1).
    rewrite !(balance_on_state _ q p _ _ s1 E1), !(wake_lose _ q j note_lost t w0 (or_introl eq_refl) T), !W0.
    destruct (S p x E) as (_ & _ & Own). pose proof (Own t Ee) as O. pose proof (is_note_bounds q j t) as N. rewrite O in N. rewrite O.
    unfold change, weigh_event. rewrite (core_event _ _ C1). cbn [event set_event set_count]. rewrite Ee.
    replace (total_of (weigh_frame (note_weights q j)) (task_drops t)) with 0 by (destruct t; reflexivity). cbn [on_task note_weights entries wake_book net] in *.
    revert N. unfold one_when. destruct (decide (Some p = Some q)), (decide (p = q)); try congruence; cbn; lia.
  - unfold w0. rewrite !(balance_on_state _ q p _ _ _ (lookup_on_state_eq p _ w x E)), !(balance_on_state _ q p _ w x E).
    unfold change, weigh_event. cbn [event set_event set_count]. rewrite Ee. wake_leaf.
Qed.

Lemma wake_notified b p j i x (w : world) : balance (wake_book b p j) p (on_thread i (set_notified x) w) = balance (wake_book b p j) p w.
Proof. apply balance_notified. Qed.
Lemma settle_silent (v : V) : silent (fun s => set_code ready (set_value (Some v) s)).
Proof. now intros s. Qed.

Lemma store_wakes i p t w w' fs : balanced w -> states_ok w -> store p t w = done (w', fs) -> wake_kept i w (frame_store p t) w' fs.
Proof.
  intros B S H q j. unfold store in H. invert_bind. on_done. destruct (lose_event x w) as [w1 drops] eqn:L.
  set (e := if is_ready x then None else Some t).
  assert (H' : w' = on_state p (set_event e) w1 /\ total_of (weigh_frame (note_weights q j)) fs = total_of (weigh_frame (note_weights q j)) drops + if is_ready x then is_note q j t else 0).
  { subst e. destruct (is_ready x); on_done; (split; [reflexivity|]); [rewrite sum_app|]; unfold total_of; cbn; lia. }
  destruct H' as [-> ->]. 
  destruct (wake_lose_event true q j p x w w1 drops e B E (S p x E) L) as (s1 & E1 & C1 & D & _ & _ & T).
  destruct (wake_lose_event false q j p x w w1 drops e B E (S p x E) L) as (_ & _ & _ & _ & _ & _ & F).
  rewrite T, F, D. subst e. destruct (S p x E) as (_ & Rn & Own). unfold weigh_event. destruct (event x) as [t0|] eqn:Ee.
  - pose proof (is_note_bounds q j t0) as N. rewrite (Own t0 eq_refl) in N.
    assert (R : is_ready x = false) by (apply is_ready_false; intros R; specialize (Rn R); congruence). rewrite R. cbn in *.
    revert N. unfold one_when. destruct (decide (Some p = Some q)), (decide (p = q)); try congruence; cbn; lia.
  - destruct (is_ready x); cbn; unfold one_when; try destruct (decide _); lia.
Qed.
Lemma wait_wakes i p k w w' fs : balanced w -> states_ok w -> wait i p k w = done (w', fs) -> wake_kept i w (frame_wait p k) w' fs.
Proof.
  intros B S H q j. unfold wait in H. invert_bind. on_done. destruct (is_ready x) eqn:R; [on_done; wake_leaf|].
  destruct (lose_event x w) as [w1 drops] eqn:L. on_done. rewrite !wake_notified.
  destruct (wake_lose_event true q j p x w w1 drops None B E (S p x E) L) as (s1 & E1 & C1 & D & _ & T & T').
  destruct (wake_lose_event false q j p x w w1 drops None B E (S p x E) L) as (_ & _ & _ & _ & _ & F & F').
  unfold promise_add_ref. set (w2 := on_state p (fun s => set_count (Datatypes.S (count s)) s) w1). pose proof (lookup_on_state_eq p (fun s => set_count (Datatypes.S (count s)) s) w1 s1 E1) as E2. fold w2 in E2.
  rewrite !(balance_on_state _ q p _ w2 _ E2). unfold w2. rewrite !wake_silent by now intros. rewrite T, F.
  destruct (S p x E) as (_ & _ & Own). unfold change, weigh_event. cbn [event set_event set_code set_count note_attached]. rewrite (core_event _ _ C1).
  unfold total_of in *; cbn [foldr weigh_frame on_frame note_weights]. fold (total_of (weigh_frame (note_weights q j))) in *. unfold total_of in *. rewrite D.
  destruct (event x) as [t0|] eqn:Ee.
  - pose proof (is_note_bounds q j t0) as N. rewrite (Own t0 eq_refl) in N. cbn in *.
    revert N. unfold one_when. repeat match goal with |- context [decide ?P] => destruct (decide P) end; try (intuition congruence); cbn; lia.
  - cbn. unfold one_when. repeat match goal with |- context [decide ?P] => destruct (decide P) end; try (intuition congruence); cbn; lia.
Qed.
Lemma step_frame_wakes i f w t fs0 w' fs : balanced w -> states_ok w -> threads w !! i = Some t -> frames t = f :: fs0 ->
  step_frame moved false i f w = done (w', fs) -> wake_kept i w f w' fs.
Proof.
  intros B S Et Ef H. destruct f; cbn in H.
  - now apply run_code_wakes.
  - now apply store_wakes.
  - now apply wait_wakes.
  - unfold block_wait in H. invert_bind. destruct (_ && _); [|discriminate]. on_done. quiet.
  - unfold load in H. do 2 invert_bind. on_done. quiet.
  - unfold set_locked in H. invert_bind. assert (E' : heap w !! p = Some x) by (destruct own; on_done; assumption). destruct (is_ready x); [discriminate|]. on_done.
    intros q j. rewrite !(balance_on_state _ q p _ w x E'). unfold change, weigh_event. cbn [event set_event set_code set_value]. destruct (event x); cbn; unfold total_of, one_when; cbn; destruct (decide (p = q)); lia.
  - unfold execute in H. destruct (_ && _); on_done; quiet.
  - unfold set_task in H. destruct (negb _).
    + on_done. assert (T : task_exists t0 w) by (apply exists_weighed; [exact B|]; intros b0 p0; exact (weigh_top_le _ (book_nonneg b0 p0) w i t _ fs0 Et Ef)).
      intros q j. rewrite !(wake_lose _ q j note_refused t0 w (or_intror eq_refl) T). pose proof (is_note_bounds q j t0).
      replace (total_of _ (task_drops t0)) with 0 by (destruct t0; reflexivity). cbn. lia.
    + destruct (_ && _); on_done; intros q j.
      * rewrite !(balance_on_thread _ q i _ w t Et). unfold weigh_thread. cbn [frames queue set_own_queue entries wake_book]. rewrite !sum_app. wake_leaf.
      * rewrite !balance_sync, !sum_app. wake_leaf.
  - destruct t0; cbn in H.
    1-3: do 2 invert_bind; on_done; unfold take_value; quiet.
    + destruct (waits_for _ _); [|discriminate]. on_done. intros q j. rewrite !wake_notified, !wake_silent by now intros. wake_leaf.
    + on_done. quiet.
  - apply (release_wakes p w w' fs); [now apply balanced_event|exact S|exact H].
  - unfold drop_handle in H. invert_bind. on_done. set (w1 := on_state p _ w) in H. assert (S1 : states_ok w1) by now apply states_same.
    assert (X1 : event_exists p w1) by (apply event_exists_on_state; [reflexivity|now apply balanced_event]).
    intros q j. destruct (release_wakes p w1 w' fs X1 S1 H q j) as [U D]. unfold w1 in U, D. rewrite wake_silent in U, D by now intros. exact (conj U D).
Qed.
End Wake.
