(* ===== verification/PromiseSpec.v ===== *)
(** * Promises: theorems about every interleaving *)
From S2P Require Import Prelude Promise PromiseFacts PromiseWake.
From stdpp Require Import list.
Open Scope Z_scope.

Section Runs.
Context {V : Type}.
Abbreviation job := (job V).
Abbreviation frame := (frame V).
Abbreviation thread := (thread V).
Abbreviation promise_state := (promise_state V).
Abbreviation world := (world V).

(** ** Stacks

    A task waits to run only on top, or below the drops of a state's end; a value is set by a copied pointer before the copy is released. *)

Definition plain (f : frame) : Prop :=
  match f with frame_store _ _ | frame_execute _ _ | frame_task _ _ | frame_start _ | frame_settle false _ _ => False | _ => True end.
Fixpoint stack_ok (fs : list frame) : Prop :=
  match fs with
  | [] => True
  | frame_drop _ :: fs | frame_release _ :: fs => stack_ok fs
  | frame_settle false p _ :: fs => head fs = Some (frame_release p) /\ List.Forall plain fs
  | _ :: fs => List.Forall plain fs
  end.
Lemma clear_stack fs : List.Forall plain fs -> stack_ok fs.
Proof. induction 1 as [|f fs P H IH]; [exact I|]. destruct f as [| | | | |[] | | | | |]; try assumption; destruct P. Qed.
Lemma stack_app fs rest : stack_ok fs -> List.Forall plain rest -> stack_ok (fs ++ rest).
Proof.
  intros S R. induction fs as [|f fs IH]; [now apply clear_stack|]. destruct f as [| | | | |[] | | | | |]; cbn in *; auto; try (apply List.Forall_app; auto).
  destruct S as [Hd S]. split; [now destruct fs|apply List.Forall_app; auto].
Qed.
Lemma stack_below f rest : stack_ok (f :: rest) -> is_Some (match f with frame_drop p | frame_release p => Some p | _ => None end) \/ List.Forall plain rest.
Proof. destruct f as [| | | | |[] | | | | |]; cbn; eauto; tauto. Qed.
Definition is_drop (f : frame) : Prop := match f with frame_drop _ => True | _ => False end.
Lemma drops_stack fs rest : List.Forall is_drop fs -> stack_ok rest -> stack_ok (fs ++ rest).
Proof. intros D R. induction D as [|f fs Hf _ IH]; [exact R|]. destruct f; try easy. Qed.
Lemma task_drops_drop (t : job) : List.Forall is_drop (task_drops t).
Proof. destruct t; cbn; repeat constructor. Qed.
Lemma lose_event_drop (s : promise_state) w w' fs : lose_event s w = (w', fs) -> List.Forall is_drop fs /\ threads w' = threads w.
Proof. unfold lose_event. destruct (event s); intros [= <- <-]; split; auto using task_drops_drop, lose_threads. Qed.
Lemma drop_clear (fs : list frame) : List.Forall is_drop fs -> List.Forall plain fs.
Proof. apply List.Forall_impl. now intros []. Qed.
Lemma release_drops p (w : world) w' fs : promise_release p w = done (w', fs) -> List.Forall is_drop fs /\ threads w' = threads w.
Proof.
  intros H. unfold promise_release in H. invert_bind. destruct (_ =? _)%nat; [|on_done; auto]. destruct (lose_event _ _) as [w1 drops] eqn:L.
  apply lose_event_drop in L as [D T]. on_done. auto.
Qed.

Context (moved : V -> V).

(** What a step does to the threads, besides replacing its frame. *)
Definition threads_after (i : nat) (f : frame) (w w' : world) : Prop :=
  threads w' = threads w \/
  (exists p j, f = frame_start (task_notify p j) /\ waits_for j w = true /\ threads w' = alter (set_notified true) j (threads w)) \/
  (exists p k, f = frame_wait p k /\ threads w' = alter (set_notified false) i (threads w)) \/
  (exists r t th, f = frame_task r t /\ threads w !! i = Some th /\ kind th = worker /\ threads w' = alter (fun th => set_own_queue (queue th ++ [t]) th) i (threads w)).
Ltac same := left; reflexivity.
Lemma step_frame_shape sp i f (w : world) w' fs rest : step_frame moved sp i f w = done (w', fs) -> stack_ok (f :: rest) ->
  stack_ok (fs ++ rest) /\ threads_after i f w w'.
Proof.
  intros H S. destruct f; cbn in H, S.
  - destruct c; open_code H; repeat invert_bind; on_done; try (split; [apply stack_app; [repeat constructor|exact S]|same]).
    + destruct (is_ready x0); repeat invert_bind; on_done; (split; [apply stack_app; [repeat constructor|exact S]|same]).
    + destruct (is_ready x); repeat invert_bind; on_done; (split; [apply stack_app; [repeat constructor|exact S]|same]).
    + destruct (is_ready x); repeat constructor.
  - unfold store in H. invert_bind. on_done. destruct (lose_event x w) as [w1 drops] eqn:L. apply lose_event_drop in L as [D T].
    destruct (is_ready x); on_done; (split; [|left; exact T]).
    + rewrite <- app_assoc. apply drops_stack; [exact D|]. exact S.
    + apply drops_stack; [exact D|]. now apply clear_stack.
  - unfold wait in H. invert_bind. on_done. destruct (is_ready x); [on_done; split; [exact S|same]|].
    destruct (lose_event x w) as [w1 drops] eqn:L. apply lose_event_drop in L as [D T]. on_done. split.
    + cbn. apply List.Forall_app. split; [now apply drop_clear|exact S].
    + right; right; left. exists p, k. split; [reflexivity|]. unfold on_thread, set_threads; cbn [threads]. change (threads (on_state p _ (promise_add_ref p w1))) with (threads w1). now rewrite T.
  - unfold block_wait in H. invert_bind. destruct (_ && _); [|discriminate]. on_done. split; [exact S|same].
  - unfold load in H. repeat invert_bind. on_done. split; [exact S|same].
  - unfold set_locked in H. invert_bind. destruct (is_ready x); [discriminate|]. on_done. split; [|same]. assert (S' : List.Forall plain rest) by (destruct own; tauto). destruct (event x); [exact S'|now apply clear_stack].
  - unfold execute in H. destruct (_ && _); on_done; (split; [exact S|same]).
  - unfold set_task in H. destruct (negb _).
    + on_done. split; [apply drops_stack; [apply task_drops_drop|now apply clear_stack]|left; apply lose_threads].
    + destruct (recyclable && _) eqn:F; on_done; (split; [now apply clear_stack|]); [|same].
      apply andb_true_iff in F as [_ F]. unfold fast_bypass in F. apply andb_true_iff in F as [_ F]. destruct (threads w !! i) as [th|] eqn:Et; [|discriminate].
      apply andb_true_iff in F as [F _]. apply bool_decide_eq_true in F. right; right; right. exists recyclable, t, th. auto.
  - destruct t; cbn in H.
    1-3: repeat invert_bind; on_done; (split; [cbn; repeat (first [split; [reflexivity|]|constructor; [exact I|]]); exact S|same]).
    + match goal with H : (if waits_for ?j w then _ else _) = _ |- _ => destruct (waits_for j w) eqn:Wf; [|discriminate]; on_done; split; [now apply clear_stack|]; right; left; exists p, j; auto end.
    + on_done. split; [exact S|same].
  - apply release_drops in H as [D T]. split; [now apply drops_stack|now left].
  - unfold drop_handle in H. invert_bind. apply release_drops in H as [D T]. split; [now apply drops_stack|now left].
Qed.

(** A blocked frame is the top of its thread, put there by [wait]. *)
Definition no_block (f : frame) : Prop := match f with frame_block _ _ => False | _ => True end.
Lemma drop_no_block (fs : list frame) : List.Forall is_drop fs -> List.Forall no_block fs.
Proof. apply List.Forall_impl. now intros []. Qed.
Lemma wait_shape i p k (w : world) w' fs : wait i p k w = done (w', fs) ->
  (w' = w /\ fs = [frame_load p k]) \/
  exists drops s, List.Forall is_drop drops /\ fs = frame_block p k :: drops /\ heap w' !! p = Some s /\ event s = Some (task_notify p i) /\
    threads w' = alter (set_notified false) i (threads w).
Proof.
  intros H. unfold wait in H. invert_bind. on_done. destruct (is_ready x); [on_done; auto|]. destruct (lose_event x w) as [w1 drops] eqn:L. on_done. right.
  destruct (lose_event_lookup p x w w1 drops x E L) as (x1 & E1 & _). apply lose_event_drop in L as [D T].
  eexists drops, _. split; [exact D|]. split; [reflexivity|]. split; [unfold promise_add_ref; do 2 apply lookup_on_state_eq; exact E1|]. split; [reflexivity|]. cbn. now rewrite T.
Qed.
Lemma step_frame_blocks sp i f (w : world) w' fs : step_frame moved sp i f w = done (w', fs) ->
  List.Forall no_block fs \/ exists p k drops, f = frame_wait p k /\ fs = frame_block p k :: drops /\ List.Forall no_block drops.
Proof.
  intros H. destruct f; cbn in H.
  - left. destruct c; open_code H; repeat invert_bind; try destruct (is_ready _); repeat invert_bind; on_done; repeat constructor.
  - left. unfold store in H. invert_bind. destruct (lose_event x w) as [w1 drops] eqn:L. apply lose_event_drop in L as [D _]. apply drop_no_block in D.
    destruct (is_ready x); on_done; [apply List.Forall_app; split; [exact D|repeat constructor]|exact D].
  - apply wait_shape in H as [(-> & ->)|(drops & s & D & -> & _)]; [left; repeat constructor|right]. exists p, k, drops. auto using drop_no_block.
  - left. unfold block_wait in H. invert_bind. destruct (_ && _); [|discriminate]. on_done. repeat constructor.
  - left. unfold load in H. repeat invert_bind. on_done. repeat constructor.
  - left. unfold set_locked in H. invert_bind. destruct (is_ready x); [discriminate|]. on_done. destruct (event x); repeat constructor.
  - left. unfold execute in H. destruct (_ && _); on_done; repeat constructor.
  - left. unfold set_task in H. destruct (negb _); [|destruct (_ && _)]; on_done; [apply drop_no_block, task_drops_drop|constructor..].
  - left. destruct t; cbn in H; repeat invert_bind; try destruct (waits_for _ _); try discriminate; on_done; repeat constructor.
  - left. apply release_drops in H as [D _]. now apply drop_no_block.
  - left. unfold drop_handle in H. invert_bind. apply release_drops in H as [D _]. now apply drop_no_block.
Qed.

(** ** The invariants of a world *)

Definition thread_ok (t : thread) : Prop :=
  List.Forall stored_ok (frames t) /\ stack_ok (frames t) /\ List.Forall no_block (tail (frames t)) /\ (kind t <> worker -> queue t = []).
Definition threads_ok (w : world) : Prop := forall i t, threads w !! i = Some t -> thread_ok t.
Record world_ok (w : world) : Prop := mk_world_ok { ok_balanced : balanced w; ok_states : states_ok w; ok_threads : threads_ok w }.

Lemma threads_after_kept i f (w w1 : world) j t1 : threads_after i f w w1 -> threads w1 !! j = Some t1 ->
  exists t, threads w !! j = Some t /\ frames t1 = frames t /\ kind t1 = kind t /\ (queue t1 = queue t \/ kind t = worker).
Proof.
  intros [->|[(p & q & _ & _ & ->)|[(p & k & _ & ->)|(r & x & th & _ & Et & K & ->)]]] E; [exists t1; tauto| | |]; rewrite list_lookup_alter in E.
  - destruct (decide (q = j)) as [->|]; [|exists t1; tauto]. destruct (threads w !! j) as [t|] eqn:Et; [|discriminate]. injection E as <-. exists t. auto.
  - destruct (decide (i = j)) as [->|]; [|exists t1; tauto]. destruct (threads w !! j) as [t|] eqn:Et; [|discriminate]. injection E as <-. exists t. auto.
  - destruct (decide (i = j)) as [->|]; [|exists t1; tauto]. rewrite Et in E. injection E as <-. exists th. auto.
Qed.
Lemma step_threads_ok sp i f (w w1 : world) t fs rest : threads_ok w -> states_ok w -> threads w !! i = Some t -> frames t = f :: rest ->
  step_frame moved sp i f w = done (w1, fs) -> threads_ok (on_thread i (set_frames (fs ++ rest)) w1).
Proof.
  intros T S Et Ef H j u Eu. destruct (T i t Et) as (F & St & B & Q). rewrite Ef in *. destruct (step_frame_shape sp i f w w1 fs rest H St) as [St' Af].
  inversion_clear F as [|? ? F1 F2]. destruct (step_frame_states moved sp i f w w1 fs S F1 H) as [_ Fs].
  unfold on_thread, set_threads in Eu; cbn [threads] in Eu. rewrite list_lookup_alter in Eu. destruct (decide (i = j)) as [->|N].
  - destruct (threads w1 !! j) as [t1|] eqn:E1; [|discriminate]. injection Eu as <-. destruct (threads_after_kept j f w w1 j t1 Af E1) as (t' & Et' & Ff & K & Qk).
    rewrite Et in Et'. injection Et' as <-. split; [apply List.Forall_app; auto|]. split; [exact St'|]. split; [|cbn; rewrite K; destruct Qk as [->|Kw]; [exact Q|congruence]].
    cbn [frames set_frames]. cbn in B. destruct (step_frame_blocks sp j f w w1 fs H) as [Nb|(p & k & drops & _ & -> & Nb)]; [|cbn; apply List.Forall_app; auto].
    destruct fs as [|g fs]; [cbn; destruct rest; [constructor|now inversion_clear B]|]. cbn. inversion_clear Nb. apply List.Forall_app. auto.
  - destruct (threads_after_kept i f w w1 j u Af Eu) as (t' & Et' & Ff & K & Qk). destruct (T j t' Et') as (F' & S' & B' & Q').
    unfold thread_ok. rewrite Ff, K. repeat split; try assumption. destruct Qk as [->|Kw]; [exact Q'|congruence].
Qed.
Lemma step_balanced sp i f (w w1 : world) t fs rest : balanced w -> threads w !! i = Some t -> frames t = f :: rest ->
  step_frame moved sp i f w = done (w1, fs) -> balanced (on_thread i (set_frames (fs ++ rest)) w1).
Proof.
  intros B Et Ef H b p. destruct (step_frame_keeps moved sp i f w t rest B Et Ef w1 fs H) as [K Sf]. destruct (Sf i t Et) as (t1 & E1 & F1).
  rewrite (balance_on_thread _ p i _ w1 t1 E1). unfold weigh_thread. cbn [frames queue set_frames]. rewrite F1, Ef, sum_app. specialize (K b p). rewrite (B b p) in K.
  unfold total_of in *. cbn. lia.
Qed.

(** Taking a task of the scheduler, or of the own queue. *)
Lemma next_task_spec (t : thread) n (w : world) x q s : next_task t n w = Some (x, q, s) -> kind t <> outside /\
  ((q = queue t /\ sync w !! n = Some x /\ s = delete n (sync w)) \/ (kind t = worker /\ queue t = x :: q /\ s = sync w)).
Proof.
  unfold next_task. intros H. destruct (kind t); [discriminate| |].
  - destruct (queue t), (sync w !! n) eqn:E; try discriminate; injection H as <- <- <-; split; auto; discriminate.
  - destruct (queue t); [|injection H as <- <- <-; split; [discriminate|auto]]. destruct (sync w !! n) eqn:E; [|discriminate]. injection H as <- <- <-. split; [discriminate|auto].
Qed.
Definition take_next (i : nat) (x : job) (q s : list job) (w : world) : world := on_thread i (fun t => set_frames [frame_start x] (set_own_queue q t)) (set_sync s w).
Lemma weigh_take_next h i t n (w : world) x q s : threads w !! i = Some t -> frames t = [] -> next_task t n w = Some (x, q, s) -> weigh h (take_next i x q s w) = weigh h w.
Proof.
  intros Et Ef N. apply next_task_spec in N as [_ C]. unfold take_next. rewrite (weigh_on_thread h i _ (set_sync s w) t Et), weigh_sync.
  unfold weigh_thread. cbn [frames queue set_frames set_own_queue]. rewrite Ef. destruct C as [(-> & E & ->)|(_ & Eq & ->)].
  - rewrite (sum_delete (on_task h) n (sync w) x E). unfold total_of; cbn. lia.
  - rewrite Eq. unfold total_of; cbn. lia.
Qed.
Lemma weigh_leave h i t (w : world) : threads w !! i = Some t -> frames t = [] ->
  weigh h (on_thread i (fun _ => mk_thread outside [] [] false) (set_sync (sync w ++ queue t) w)) = weigh h w.
Proof.
  intros Et Ef. rewrite (weigh_on_thread h i _ (set_sync (sync w ++ queue t) w) t Et), weigh_sync, sum_app. unfold weigh_thread. cbn [frames queue]. rewrite Ef. unfold total_of; cbn. lia.
Qed.
Lemma alter_threads_ok i f (w : world) : threads_ok w -> (forall t, threads w !! i = Some t -> thread_ok t -> thread_ok (f t)) -> threads_ok (on_thread i f w).
Proof.
  intros T F j u E. unfold on_thread, set_threads in E; cbn [threads] in E. rewrite list_lookup_alter in E. destruct (decide (i = j)) as [->|]; [|exact (T j u E)].
  destruct (threads w !! j) as [t|] eqn:Et; [|discriminate]. injection E as <-. apply F; [reflexivity|exact (T j t Et)].
Qed.
Lemma balanced_weigh (w w' : world) : heap w' = heap w -> (forall h, weigh h w' = weigh h w) -> balanced w -> balanced w'.
Proof. intros H W B b p. unfold balance, net_at. rewrite H, W. apply B. Qed.

Lemma advance_ok sp i n (w w' : world) : world_ok w -> advance_thread moved sp i n w = done w' -> world_ok w'.
Proof.
  intros [B S T] H. unfold advance_thread in H. destruct (threads w !! i) as [t|] eqn:Et; [|discriminate]. destruct (frames t) as [|f rest] eqn:Ef.
  - destruct (next_task t n w) as [[[x q] s]|] eqn:N; [|discriminate]. injection H as <-. fold (take_next i x q s w). split.
    + apply (balanced_weigh w); [reflexivity| |exact B]. intros h. eapply weigh_take_next; eassumption.
    + exact S.
    + apply alter_threads_ok; [exact T|]. intros t' E' (F & St & Nb & Q). cbn in E'. rewrite Et in E'. injection E' as <-. apply next_task_spec in N as [_ C].
      unfold thread_ok; cbn. split; [repeat constructor|]. split; [constructor|]. split; [constructor|]. intros K. destruct C as [(-> & _ & _)|(Kw & _)]; [now apply Q|congruence].
  - invert_bind. destruct x as [w1 fs]. cbn in H. injection H as <-. split.
    + eapply step_balanced; eassumption.
    + destruct (T i t Et) as (F & _). rewrite Ef in F. inversion_clear F as [|? ? F1 F2]. exact (proj1 (step_frame_states moved sp i f w w1 fs S F1 E)).
    + eapply step_threads_ok; eassumption.
Qed.
Lemma world_step_ok c (w w' : world) : world_ok w -> world_step moved c w = done w' -> world_ok w'.
Proof.
  intros O H. destruct c as [i n|i|i|a e]; cbn in H.
  - eapply advance_ok; eassumption.
  - repeat case_match; try discriminate. eapply advance_ok; eassumption.
  - destruct (threads w !! i) as [t|] eqn:Et; [|discriminate]. destruct (_ || _); [discriminate|]. destruct (frames t) eqn:Ef; [|discriminate]. injection H as <-.
    destruct O as [B S T]. split; [|exact S|].
    + apply (balanced_weigh w); [reflexivity| |exact B]. intros h. now apply weigh_leave.
    + apply alter_threads_ok; [exact T|]. intros u _ _. repeat constructor.
  - injection H as <-. destruct O as [B S T]. split; [exact B|exact S|exact T].
Qed.
Lemma run_world_inv (I : world -> Prop) (ok : choice -> Prop) : (forall c w w', I w -> ok c -> world_step moved c w = done w' -> I w') ->
  forall cs w w', I w -> List.Forall ok cs -> run_world moved cs w = done w' -> I w'.
Proof.
  intros St. induction cs as [|c cs IH]; cbn; intros w w' H F R; [now injection R as <-|]. inversion_clear F. invert_bind. eauto.
Qed.

Lemma new_threads_ok programs timers workers m b i t : threads (@new_threads V programs timers workers m b) !! i = Some t ->
  frames t = [] \/ exists c, frames t = [frame_run c].
Proof.
  cbn. intros H. apply list_elem_of_lookup_2 in H. rewrite !elem_of_app in H. destruct H as [H|[H|H]].
  - apply list_elem_of_fmap in H as (c & -> & _). right. now exists c.
  - apply elem_of_replicate in H as [-> _]. now left.
  - apply elem_of_replicate in H as [-> _]. now left.
Qed.
Lemma new_threads_queue programs timers workers m b i t : threads (@new_threads V programs timers workers m b) !! i = Some t -> queue t = [].
Proof.
  cbn. intros H. apply list_elem_of_lookup_2 in H. rewrite !elem_of_app in H. destruct H as [H|[H|H]].
  - apply list_elem_of_fmap in H as (c & -> & _). reflexivity.
  - now apply elem_of_replicate in H as [-> _].
  - now apply elem_of_replicate in H as [-> _].
Qed.
Lemma new_weigh h programs timers workers m b : (forall c, on_frame h (frame_run c) = 0) -> weigh h (@new_threads V programs timers workers m b) = 0.
Proof.
  intros H. unfold weigh. cbn [heap sync new_threads]. rewrite (sum_zero (threads _)); [reflexivity|].
  intros t [i E]%list_elem_of_lookup_1. unfold weigh_thread. rewrite (new_threads_queue _ _ _ _ _ _ _ E).
  destruct (new_threads_ok _ _ _ _ _ _ _ E) as [->|[c ->]]; unfold total_of; cbn; rewrite ?H; reflexivity.
Qed.
Lemma new_world_ok programs timers workers m b : world_ok (@new_threads V programs timers workers m b).
Proof.
  split.
  - intros l p. unfold balance, net_at. rewrite new_weigh by (destruct l; reflexivity). reflexivity.
  - intros p s E. discriminate.
  - intros i t E. pose proof (new_threads_queue _ _ _ _ _ _ _ E) as Q. destruct (new_threads_ok _ _ _ _ _ _ _ E) as [F|[c F]]; unfold thread_ok; rewrite F; repeat constructor; auto.
Qed.
Lemma run_ok cs programs timers workers m b (w : world) : run_world moved cs (new_threads programs timers workers m b) = done w -> world_ok w.
Proof.
  apply (run_world_inv world_ok (fun _ => True)); [|apply new_world_ok|now apply List.Forall_forall].
  intros c w0 w1 O _. now apply world_step_ok.
Qed.

(** ** Threads that wait *)

Definition blocked_on (p j : nat) (w : world) : Prop :=
  exists t k rest, threads w !! j = Some t /\ frames t = frame_block p k :: rest /\ notified t = false.
Definition wakes_ok (w : world) : Prop := forall p j,
  notes p j w <= 1 /\ (0 < notes p j w -> blocked_on p j w) /\ (blocked_on p j w -> 0 < notes p j w + losses p w).

Lemma notes_after i f (w w1 : world) t fs rest p j : balanced w -> states_ok w -> threads w !! i = Some t -> frames t = f :: rest ->
  step_frame moved false i f w = done (w1, fs) ->
  let w' := on_thread i (set_frames (fs ++ rest)) w1 in
  notes p j w' <= notes p j w + note_made p j i f - note_taken p j f /\
  notes p j w + losses p w - note_taken p j f <= notes p j w' + losses p w'.
Proof.
  intros B S Et Ef H w'. destruct (step_frame_wakes moved i f w t rest w1 fs B S Et Ef H p j) as [U D].
  destruct (step_frame_keeps moved false i f w t rest B Et Ef w1 fs H) as [_ Sf]. destruct (Sf i t Et) as (t1 & E1 & F1).
  assert (N : notes p j w' = notes p j w1 + total_of (weigh_frame (note_weights p j)) fs - weigh_frame (note_weights p j) f).
  { unfold notes, w'. rewrite (weigh_on_thread _ i _ w1 t1 E1). unfold weigh_thread. cbn [frames queue set_frames]. rewrite F1, Ef, sum_app. unfold total_of; cbn. lia. }
  rewrite !wake_true in U. rewrite !wake_false in D. change (losses p w') with (losses p w1). lia.
Qed.
Lemma notes_here i f (w : world) t rest p j : threads w !! i = Some t -> frames t = f :: rest -> weigh_frame (note_weights p j) f <= notes p j w.
Proof. apply weigh_top_le, note_nonneg. Qed.
Lemma notes_event (w : world) q s t p j : heap w !! q = Some s -> event s = Some t -> is_note p j t <= notes p j w.
Proof. intros Es Ee. pose proof (weigh_event_le _ (note_nonneg p j) w q s Es) as H. unfold weigh_event in H. now rewrite Ee in H. Qed.
Lemma notes_nonneg p j (w : world) : 0 <= notes p j w.
Proof. apply weigh_nonneg, note_nonneg. Qed.

Lemma notes_replaced i f (w1 : world) t1 fs rest p j : threads w1 !! i = Some t1 -> frames t1 = f :: rest ->
  notes p j (on_thread i (set_frames (fs ++ rest)) w1) = notes p j w1 + total_of (weigh_frame (note_weights p j)) fs - weigh_frame (note_weights p j) f.
Proof.
  intros E1 F1. unfold notes. rewrite (weigh_on_thread _ i _ w1 t1 E1). unfold weigh_thread. cbn [frames queue set_frames]. rewrite F1, sum_app. unfold total_of; cbn. lia.
Qed.
Lemma blocked_kept p j i f (w w1 : world) fs rest : i <> j -> threads_after i f w w1 -> (forall q, f <> frame_start (task_notify q j)) ->
  blocked_on p j w -> blocked_on p j (on_thread i (set_frames (fs ++ rest)) w1).
Proof.
  intros N A F B. unfold blocked_on, on_thread, set_threads; cbn [threads]. rewrite list_lookup_alter, decide_False by exact N.
  destruct A as [->|[(q & j' & -> & _ & ->)|[(q & k & _ & ->)|(r & x & th & _ & _ & _ & ->)]]]; try exact B; rewrite list_lookup_alter, decide_False; try exact B; try exact N.
  intros ->. now apply (F q).
Qed.
Lemma blocked_before p j i f (w w1 : world) fs rest : i <> j -> threads_after i f w w1 ->
  blocked_on p j (on_thread i (set_frames (fs ++ rest)) w1) -> blocked_on p j w.
Proof.
  intros N A B. unfold blocked_on, on_thread, set_threads in B; cbn [threads] in B. rewrite list_lookup_alter, decide_False in B by exact N.
  destruct A as [E|[(q & j' & _ & _ & E)|[(q & k & _ & E)|(r & x & th & _ & _ & _ & E)]]]; rewrite E in B; try exact B; rewrite list_lookup_alter in B; destruct (decide _) as [->|]; try exact B; try congruence.
  destruct B as (t & k & rest' & Et & _ & Nt). destruct (threads w !! j); [|discriminate]. injection Et as <-. discriminate.
Qed.
(** A step that notifies thread [j] ends its wait. *)
Lemma notify_ends p q j i (w w1 : world) fs rest : i <> j -> step_frame moved false i (frame_start (task_notify q j)) w = done (w1, fs) ->
  ~ blocked_on p j (on_thread i (set_frames (fs ++ rest)) w1).
Proof.
  intros N H B. cbn in H. destruct (waits_for j w); [|discriminate]. injection H as <- <-.
  unfold blocked_on, on_thread, set_threads in B; cbn [threads] in B. rewrite list_lookup_alter, decide_False in B by exact N.
  change (threads (on_state q note_called w)) with (threads w) in B. rewrite list_lookup_alter, decide_True in B by reflexivity.
  destruct B as (t & k & rest' & Et & _ & Nt). destruct (threads w !! j); [|discriminate]. injection Et as <-. discriminate.
Qed.
Lemma blocked_same p q j (w : world) : blocked_on p j w -> blocked_on q j w -> p = q.
Proof. intros (t & k & r & E & F & _) (t' & k' & r' & E' & F' & _). rewrite E in E'. injection E' as <-. rewrite F in F'. now injection F'. Qed.

Lemma step_wakes_ok i (w w1 : world) t f fs rest : world_ok w -> wakes_ok w -> threads w !! i = Some t -> frames t = f :: rest ->
  step_frame moved false i f w = done (w1, fs) -> wakes_ok (on_thread i (set_frames (fs ++ rest)) w1).
Proof.
  intros [B S T] W Et Ef H p j. destruct (notes_after i f w w1 t fs rest p j B S Et Ef H) as [U D]. set (w' := on_thread i _ w1) in *.
  destruct (T i t Et) as (_ & St & Nb & _). rewrite Ef in St, Nb. cbn in Nb. destruct (step_frame_shape false i f w w1 fs rest H St) as [_ A].
  destruct (step_frame_keeps moved false i f w t rest B Et Ef w1 fs H) as [_ Sf]. destruct (Sf i t Et) as (t1 & E1 & F1).
  destruct (W p j) as (W1 & W2 & W3). pose proof (notes_nonneg p j w) as W0. pose proof (notes_nonneg p j w') as W0'. pose proof (notes_here i f w t rest p j Et Ef) as Hw.
  assert (Tk : 0 <= note_taken p j f <= weigh_frame (note_weights p j) f).
  { pose proof (weigh_frame_nonneg _ (note_nonneg p j) f). destruct f; cbn in *; lia. }
  destruct (decide (i = j)) as [<-|N].
  - assert (Bi : ~ blocked_on p i w).
    { intros (t' & k & r & Et' & Ft & Nt). rewrite Et in Et'. injection Et' as <-. rewrite Ef in Ft. injection Ft as -> ->. cbn in H. unfold block_wait in H. invert_bind.
      unfold is_notified in H. rewrite Et, Nt in H. discriminate. }
    assert (Z0 : notes p i w = 0) by (destruct (Z.eq_dec (notes p i w) 0); [assumption|exfalso; apply Bi, W2; lia]).
    pose proof (lookup_on_thread i (set_frames (fs ++ rest)) w1 t1 E1) as E1'. fold w' in E1'. rewrite Ef in F1.
    destruct (step_frame_blocks false i f w w1 fs H) as [Nf|(q & k & drops & -> & -> & _)].
    + assert (Bi' : ~ blocked_on p i w').
      { intros (t' & k & r & Et' & Ft & _). rewrite E1' in Et'. injection Et' as <-. cbn in Ft. destruct fs as [|g fs]; cbn in Ft.
        - subst rest. inversion_clear Nb. assumption.
        - injection Ft as -> _. inversion_clear Nf. assumption. }
      assert (Z1 : notes p i w' = 0); [|repeat split; [lia|lia|tauto]].
      destruct f; cbn [note_made] in U; try lia. cbn in H. apply wait_shape in H as [(-> & ->)|(drops & s & _ & -> & _)]; [|now inversion_clear Nf].
      unfold w'. rewrite (notes_replaced i _ w t1 _ rest p i E1 F1). unfold total_of; cbn. lia.
    + cbn in H. apply wait_shape in H as [(_ & [=])|(drops' & s & _ & _ & Es & Ee & Th)]. destruct (decide (q = p)) as [->|Nq].
      * assert (Bi' : blocked_on p i w').
        { eexists _, k, (drops ++ rest). split; [exact E1'|]. split; [reflexivity|]. cbn. rewrite Th, list_lookup_alter, decide_True, Et in E1 by reflexivity. now injection E1 as <-. }
        pose proof (notes_event w' p s _ p i Es Ee) as Nn. cbn in Nn. unfold one_when in Nn. rewrite decide_True in Nn by auto.
        assert (Lo : 0 <= losses p w') by (unfold losses; destruct (heap w' !! p); lia).
        cbn [note_made] in U. unfold one_when in U. rewrite decide_True in U by auto. repeat split; [lia|auto|lia].
      * assert (Bi' : ~ blocked_on p i w') by (intros (t' & k' & r & Et' & Ft & _); rewrite E1' in Et'; injection Et' as <-; cbn in Ft; congruence).
        cbn [note_made] in U. unfold one_when in U. rewrite decide_False in U by tauto. repeat split; [lia|lia|tauto].
  - assert (M0 : note_made p j i f = 0) by (destruct f; cbn; try reflexivity; unfold one_when; rewrite decide_False by tauto; reflexivity).
    assert (Nt : forall q, f = frame_start (task_notify q j) -> 0 < notes q j w).
    { intros q ->. pose proof (notes_here i _ w t rest q j Et Ef) as Hq. cbn in Hq. unfold one_when in Hq. rewrite decide_True in Hq by auto. lia. }
    repeat split; [lia| |].
    + intros Pos. assert (Bj : blocked_on p j w) by (apply W2; lia). apply (blocked_kept p j i f w w1 fs rest N A); [|exact Bj].
      intros q ->. assert (Bq : blocked_on q j w) by (apply (W q j), Nt; reflexivity). pose proof (blocked_same p q j w Bj Bq) as <-.
      cbn in U. unfold one_when in U. rewrite decide_True in U by auto. lia.
    + intros Bj. pose proof (blocked_before p j i f w w1 fs rest N A Bj) as Bw. specialize (W3 Bw).
      destruct (decide (note_taken p j f = 0)) as [T0|T1]; [lia|]. exfalso. destruct f; cbn in T1; try congruence. destruct t0; cbn in T1; try congruence.
      unfold one_when in T1. destruct (decide _) as [[-> ->]|]; [|congruence]. exact (notify_ends p p j i w w1 fs rest N H Bj).
Qed.
End Runs.
