(* ===== verification/PromiseReady.v ===== *)
(** * Promises: what runs has a value

    A task that has left its event, and a thread that loads a value, have a settled promise; so no state is read without a value, and none after it
    was freed. *)
From S2P Require Import Prelude Promise PromiseFacts PromiseWake PromiseSpec.
From stdpp Require Import list.
Open Scope Z_scope.

Section Ready.
Context {V : Type}.
Abbreviation job := (job V).
Abbreviation frame := (frame V).
Abbreviation thread := (thread V).
Abbreviation promise_state := (promise_state V).
Abbreviation world := (world V).

Definition is_settled (w : world) (p : nat) : Prop := exists s, heap w !! p = Some s /\ code_of s = ready.
Definition launched (w : world) (t : job) : Prop := forall p, task_of t = Some p -> is_settled w p.
Definition frame_ready (w : world) (f : frame) : Prop :=
  match f with frame_execute t _ | frame_task _ t | frame_start t => launched w t | frame_load p _ => is_settled w p | _ => True end.
Definition ready_ok (w : world) : Prop :=
  (forall i t, threads w !! i = Some t -> List.Forall (frame_ready w) (frames t) /\ List.Forall (launched w) (queue t)) /\ List.Forall (launched w) (sync w).
Definition stays_settled (w w' : world) : Prop := forall p, is_settled w p -> is_settled w' p.

Lemma stays_refl w : stays_settled w w.
Proof. now intros p. Qed.
Lemma stays_trans w1 w2 w3 : stays_settled w1 w2 -> stays_settled w2 w3 -> stays_settled w1 w3.
Proof. intros A B p H. auto. Qed.
Lemma stays_on_state q f (w : world) : (forall s, heap w !! q = Some s -> code_of s = ready -> code_of (f s) = ready) -> stays_settled w (on_state q f w).
Proof.
  intros F p (s & E & C). unfold is_settled. rewrite lookup_on_state, E. destruct (decide (q = p)) as [->|]; cbn; eauto.
Qed.
Lemma stays_same q f (w : world) : (forall s, code_of (f s) = code_of s) -> stays_settled w (on_state q f w).
Proof. intros F. apply stays_on_state. intros s _. now rewrite F. Qed.
Lemma stays_new s (w : world) : stays_settled w (set_states (heap w ++ [s]) w).
Proof. intros p (x & E & C). exists x. split; [now apply new_lookup|exact C]. Qed.
Lemma stays_lose note t (w : world) : losing note -> stays_settled w (lose note t w).
Proof. intros L p (s & E & C). destruct (lookup_lose note t p s w L E) as (s' & E' & C'). exists s'. split; [exact E'|]. now rewrite (core_code _ _ C'). Qed.
Lemma stays_lose_event s (w w' : world) fs : lose_event s w = (w', fs) -> stays_settled w w'.
Proof. unfold lose_event. destruct (event s); intros [= <- <-]; [apply stays_lose, losing_lost|apply stays_refl]. Qed.
Lemma stays_frame w w' f : stays_settled w w' -> frame_ready w f -> frame_ready w' f.
Proof. intros H. destruct f; cbn; auto; intros L p E; auto. Qed.
Lemma stays_launched w w' t : stays_settled w w' -> launched w t -> launched w' t.
Proof. intros H L p E. auto. Qed.
Lemma drops_ready (w : world) fs : List.Forall is_drop fs -> List.Forall (frame_ready w) fs.
Proof. apply List.Forall_impl. now intros []. Qed.

Context (moved : V -> V).
Ltac here := repeat (constructor; cbn; auto).

Lemma release_ready p (w w' : world) fs : promise_release p w = done (w', fs) -> stays_settled w w' /\ List.Forall (frame_ready w') fs.
Proof.
  intros H. pose proof (release_drops p w w' fs H) as [D _]. split; [|now apply drops_ready]. unfold promise_release in H. invert_bind.
  destruct (_ =? _)%nat; [|on_done; now apply stays_same]. destruct (lose_event _ _) as [w1 drops] eqn:L. apply stays_lose_event in L. on_done.
  eapply stays_trans; [|now apply stays_same]. eapply stays_trans; [|exact L]. now apply stays_same.
Qed.
Lemma run_code_ready i c (w w' : world) fs : run_code moved i c w = done (w', fs) -> stays_settled w w' /\ List.Forall (frame_ready w') fs.
Proof.
  intros H. destruct c; open_code H; repeat invert_bind; on_done.
  all: try (split; [first [apply stays_refl|apply stays_new|now apply stays_same]|now here]; fail).
  - split; [|here]. eapply stays_trans; [|now apply stays_same]. now apply stays_same.
  - assert (S1 : stays_settled w (on_state other note_attached (promise_add_ref p w))) by (eapply stays_trans; [|now apply stays_same]; now apply stays_same).
    destruct (is_ready x0); repeat invert_bind; on_done; (split; [|here]); (eapply stays_trans; [exact S1|]); now apply stays_same.
  - assert (S1 : stays_settled w (on_state p note_attached w)) by now apply stays_same.
    destruct (is_ready x); repeat invert_bind; on_done; (split; [|here]); (eapply stays_trans; [exact S1|]); now apply stays_same.
  - split; [|here]. eapply stays_trans; [apply stays_new|]. eapply stays_trans; [|now apply stays_same]. now apply stays_same.
  - split; [apply stays_refl|]. destruct (is_ready x) eqn:R; [|here]. constructor; [|constructor]. exists x. split; [exact E|now apply is_ready_true].
  - split; [|here]. intros q S. exact S.
Qed.

Lemma step_frame_ready sp i f (w w' : world) fs : states_ok w -> stored_ok f -> frame_ready w f -> step_frame moved sp i f w = done (w', fs) ->
  stays_settled w w' /\ List.Forall (frame_ready w') fs.
Proof.
  intros S Fo Fr H. destruct f; cbn in H, Fr.
  - eapply run_code_ready; eassumption.
  - unfold store in H. invert_bind. on_done. destruct (lose_event x w) as [w1 drops] eqn:L. pose proof (lose_event_drop x w w1 drops L) as [D _].
    pose proof (stays_lose_event x w w1 drops L) as S1. destruct (is_ready x) eqn:R; on_done.
    + assert (S2 : stays_settled w (on_state p (set_event None) w1)) by (eapply stays_trans; [exact S1|now apply stays_same]). split; [exact S2|].
      apply List.Forall_app. split; [now apply drops_ready|]. constructor; [|constructor]. intros q Eq. rewrite (proj1 (stored_task p t Fo)) in Eq. injection Eq as <-.
      apply S2. exists x. split; [exact E|now apply is_ready_true].
    + split; [eapply stays_trans; [exact S1|now apply stays_same]|now apply drops_ready].
  - unfold wait in H. invert_bind. on_done. destruct (is_ready x) eqn:R.
    + on_done. split; [apply stays_refl|]. constructor; [|constructor]. exists x. split; [exact E|now apply is_ready_true].
    + destruct (lose_event x w) as [w1 drops] eqn:L. pose proof (lose_event_drop x w w1 drops L) as [D _]. pose proof (stays_lose_event x w w1 drops L) as S1.
      destruct (lose_event_lookup p x w w1 drops x E L) as (x1 & E1 & C1). rewrite <- (core_ready _ _ C1) in R. apply is_ready_false in R. on_done. split.
      * eapply stays_trans; [exact S1|]. eapply stays_trans; [apply (stays_same p (fun s => set_count (Datatypes.S (count s)) s)); reflexivity|].
        intros q (s & Es & Cs). unfold is_settled. cbn [on_thread set_threads heap]. fold (promise_add_ref p w1) in *. rewrite lookup_on_state, Es.
        destruct (decide (p = q)) as [<-|]; [|cbn; eauto]. unfold promise_add_ref in Es. rewrite (lookup_on_state_eq p _ w1 x1 E1) in Es. injection Es as <-. now cbn in Cs.
      * constructor; [exact I|now apply drops_ready].
  - unfold block_wait in H. invert_bind. on_done. destruct (is_ready x) eqn:R; [|now rewrite andb_false_r in H]. destruct (_ && _); [|discriminate]. on_done. split; [apply stays_refl|].
    constructor; [exact I|]. constructor; [|constructor]. exists x. split; [exact E|now apply is_ready_true].
  - unfold load in H. repeat invert_bind. on_done. split; [now apply stays_same|here].
  - unfold set_locked in H. invert_bind. destruct (is_ready x); [discriminate|]. on_done. assert (E' : heap w !! p = Some x) by (destruct own; on_done; assumption).
    assert (S1 : is_settled (on_state p (fun s => set_event None (set_code ready (set_value (Some v) s))) w) p) by (eexists; split; [apply lookup_on_state_eq; exact E'|reflexivity]).
    split; [apply stays_on_state; intros; reflexivity|]. destruct (event x) as [t|] eqn:Ee; [|constructor]. constructor; [|constructor].
    intros q Eq. destruct (S p x E') as (_ & _ & Own). rewrite (Own t Ee) in Eq. injection Eq as <-. exact S1.
  - unfold execute in H. destruct (_ && _); on_done; (split; [apply stays_refl|here]).
  - unfold set_task in H. destruct (negb _); [|destruct (_ && _)]; on_done.
    + split; [apply stays_lose, losing_refused|apply drops_ready, task_drops_drop].
    + split; [intros q Sq; exact Sq|constructor].
    + split; [intros q Sq; exact Sq|constructor].
  - destruct t; cbn in H; repeat invert_bind; try destruct (waits_for _ _); try discriminate; on_done; (split; [|here]); try apply stays_refl; now apply stays_same.
  - eapply release_ready; eassumption.
  - unfold drop_handle in H. invert_bind. apply release_ready in H as [A B]. split; [|exact B]. eapply stays_trans; [|exact A]. now apply stays_same.
Qed.

Lemma ready_weaken (w w' : world) fs : stays_settled w w' -> List.Forall (frame_ready w) fs -> List.Forall (frame_ready w') fs.
Proof. intros S. apply List.Forall_impl. intros f. now apply stays_frame. Qed.
Lemma launched_weaken (w w' : world) q : stays_settled w w' -> List.Forall (launched w) q -> List.Forall (launched w') q.
Proof. intros S. apply List.Forall_impl. intros t. now apply stays_launched. Qed.
Lemma lose_sync note t (w : world) : sync (lose note t w) = sync w.
Proof. unfold lose. induction (task_copies t) as [|q l IH]; [now destruct (task_of t)|exact IH]. Qed.
Lemma lose_event_sync (s : promise_state) w w' fs : lose_event s w = (w', fs) -> sync w' = sync w.
Proof. unfold lose_event. destruct (event s); intros [= <- <-]; [apply lose_sync|reflexivity]. Qed.
Lemma release_sync p (w w' : world) fs : promise_release p w = done (w', fs) -> sync w' = sync w.
Proof.
  intros H. unfold promise_release in H. invert_bind. destruct (_ =? _)%nat; [|on_done; reflexivity]. destruct (lose_event _ _) as [w1 drops] eqn:L. apply lose_event_sync in L. on_done. exact L.
Qed.
Lemma step_sync sp i f (w w1 : world) fs : step_frame moved sp i f w = done (w1, fs) ->
  sync w1 = sync w \/ exists r t, f = frame_task r t /\ sync w1 = sync w ++ [t].
Proof.
  intros H. destruct f; cbn in H.
  - left. destruct c; open_code H; repeat invert_bind; try destruct (is_ready _); repeat invert_bind; on_done; reflexivity.
  - left. unfold store in H. invert_bind. destruct (lose_event x w) as [w2 drops] eqn:L. apply lose_event_sync in L. destruct (is_ready x); on_done; exact L.
  - left. unfold wait in H. invert_bind. destruct (is_ready x); [on_done; reflexivity|]. destruct (lose_event x w) as [w2 drops] eqn:L. apply lose_event_sync in L. on_done. exact L.
  - left. unfold block_wait in H. invert_bind. destruct (_ && _); [|discriminate]. on_done. reflexivity.
  - left. unfold load in H. repeat invert_bind. on_done. reflexivity.
  - left. unfold set_locked in H. invert_bind. destruct (is_ready x); [discriminate|]. on_done. reflexivity.
  - left. unfold execute in H. destruct (_ && _); on_done; reflexivity.
  - unfold set_task in H. destruct (negb _); [|destruct (_ && _)]; on_done; [left; apply lose_sync|left; reflexivity|right; eauto].
  - left. destruct t; cbn in H; repeat invert_bind; try destruct (waits_for _ _); try discriminate; on_done; reflexivity.
  - left. eapply release_sync; eassumption.
  - left. unfold drop_handle in H. invert_bind. apply release_sync in H. exact H.
Qed.
Lemma step_queue i f (w w1 : world) j t1 : threads_after i f w w1 -> frame_ready w f -> threads w1 !! j = Some t1 ->
  exists t, threads w !! j = Some t /\ frames t1 = frames t /\ (queue t1 = queue t \/ exists x, launched w x /\ queue t1 = queue t ++ [x]).
Proof.
  intros A R E. destruct A as [T|[(p & q & _ & _ & T)|[(p & k & _ & T)|(r & x & th & -> & Et & _ & T)]]]; rewrite T in E; [exists t1; auto| | |]; rewrite list_lookup_alter in E.
  - destruct (decide _) as [->|]; [|exists t1; auto]. destruct (threads w !! j) as [t|]; [|discriminate]. injection E as <-. exists t. auto.
  - destruct (decide _) as [->|]; [|exists t1; auto]. destruct (threads w !! j) as [t|]; [|discriminate]. injection E as <-. exists t. auto.
  - destruct (decide _) as [->|]; [|exists t1; auto]. rewrite Et in E. injection E as <-. exists th. split; [exact Et|]. split; [reflexivity|]. right. exists x. auto.
Qed.

Lemma in_delete {A} (y : A) n l : In y (delete n l) -> In y l.
Proof.
  revert n. induction l as [|z l IH]; intros [|n] H; cbn in *; try tauto. destruct H as [->|H]; [now left|right; eapply IH; exact H].
Qed.
Lemma advance_ready sp i n (w w' : world) : world_ok w -> ready_ok w -> advance_thread moved sp i n w = done w' -> ready_ok w'.
Proof.
  intros [B S T] [R Rs] H. unfold advance_thread in H. destruct (threads w !! i) as [t|] eqn:Et; [|discriminate]. destruct (R i t Et) as [Rf Rq]. destruct (frames t) as [|f rest] eqn:Ef.
  - destruct (next_task t n w) as [[[x q] s]|] eqn:N; [|discriminate]. injection H as <-. apply next_task_spec in N as [_ C].
    assert (Q : launched w x /\ List.Forall (launched w) q /\ List.Forall (launched w) s).
    { destruct C as [(-> & En & ->)|(_ & Eq & ->)].
      - rewrite List.Forall_forall in Rs. split; [apply Rs, list_elem_of_In; now apply list_elem_of_lookup_2 in En|]. split; [exact Rq|].
        apply List.Forall_forall. intros y Hy. apply Rs. now apply in_delete in Hy.
      - rewrite Eq in Rq. inversion_clear Rq. auto. }
    split; [|apply Q]. intros j u E. unfold on_thread, set_threads in E; cbn [threads set_sync] in E. rewrite list_lookup_alter in E. destruct (decide (i = j)) as [<-|]; [|exact (R j u E)].
    rewrite Et in E. injection E as <-. cbn. split; [constructor; [apply Q|constructor]|apply Q].
  - invert_bind. destruct x as [w1 fs]. cbn in H. injection H as <-. destruct (T i t Et) as (F & St & _). rewrite Ef in F, St. inversion_clear F as [|? ? F1 F2]. inversion_clear Rf as [|? ? Rf1 Rf2].
    destruct (step_frame_ready sp i f w w1 fs S F1 Rf1 E) as [Sd Rfs]. destruct (step_frame_shape moved sp i f w w1 fs rest E St) as [_ A]. split.
    + intros j u Eu. unfold on_thread, set_threads in Eu; cbn [threads] in Eu. rewrite list_lookup_alter in Eu.
      assert (Q : forall t1, threads w1 !! j = Some t1 -> exists t0, threads w !! j = Some t0 /\ frames t1 = frames t0 /\ List.Forall (launched w1) (queue t1)).
      { intros t1 E1. destruct (step_queue i f w w1 j t1 A Rf1 E1) as (t0 & E0 & Ff & Qq). exists t0. split; [exact E0|]. split; [exact Ff|].
        destruct (R j t0 E0) as [_ Rq0]. apply (launched_weaken w w1 _ Sd). destruct Qq as [->|(x & Lx & ->)]; [exact Rq0|]. apply List.Forall_app. auto. }
      destruct (decide (i = j)) as [<-|].
      * destruct (threads w1 !! i) as [t1|] eqn:E1; [|discriminate]. injection Eu as <-. destruct (Q t1 eq_refl) as (t0 & E0 & _ & Qq). cbn. split; [|exact Qq].
        apply List.Forall_app. split; [exact Rfs|now apply (ready_weaken w)].
      * destruct (Q u Eu) as (t0 & E0 & Ff & Qq). rewrite Ff. split; [|exact Qq]. apply (ready_weaken w); [exact Sd|]. apply (R j t0 E0).
    + cbn [sync on_thread set_threads]. apply (launched_weaken w w1 _ Sd). destruct (step_sync sp i f w w1 fs E) as [->|(r & x & -> & ->)]; [exact Rs|]. apply List.Forall_app. auto.
Qed.
Lemma world_step_ready c (w w' : world) : world_ok w -> ready_ok w -> world_step moved c w = done w' -> ready_ok w'.
Proof.
  intros O R H. destruct c as [i n|i|i|a e]; cbn in H.
  - eapply advance_ready; eassumption.
  - repeat case_match; try discriminate. eapply advance_ready; eassumption.
  - destruct (threads w !! i) as [t|] eqn:Et; [|discriminate]. destruct (_ || _); [discriminate|]. destruct (frames t) eqn:Ef; [|discriminate]. injection H as <-.
    destruct R as [R Rs]. split.
    + intros j u E. unfold on_thread, set_threads in E; cbn [threads set_sync] in E. rewrite list_lookup_alter in E. destruct (decide (i = j)) as [<-|]; [|exact (R j u E)].
      rewrite Et in E. injection E as <-. repeat constructor.
    + cbn. apply List.Forall_app. split; [exact Rs|]. apply (R i t Et).
  - injection H as <-. exact R.
Qed.
Lemma new_world_ready programs timers workers m b : ready_ok (@new_threads V programs timers workers m b).
Proof.
  split; [|constructor]. intros i t E. rewrite (new_threads_queue _ _ _ _ _ _ _ E). destruct (new_threads_ok _ _ _ _ _ _ _ E) as [->|[c ->]]; repeat constructor.
Qed.

(** ** Faults *)
Lemma copy_held p (w : world) : balanced w -> 0 < weigh (reference_weights p) w -> exists s, with_copy p w = done s /\ heap w !! p = Some s.
Proof.
  intros B H. destruct (balanced_count p w B H) as (s & E & C). exists s. unfold with_copy. rewrite E. apply Nat.ltb_lt in C. now rewrite C.
Qed.
Lemma held_by_frame p (w : world) i t f rest : balanced w -> threads w !! i = Some t -> frames t = f :: rest -> 0 < weigh_frame (reference_weights p) f ->
  exists s, with_copy p w = done s /\ heap w !! p = Some s.
Proof. intros B Et Ef H. apply copy_held; [exact B|]. pose proof (weigh_top_le _ (book_nonneg false p) w i t f rest Et Ef) as L. cbn in L. lia. Qed.
Lemma settled_unwrap p (w : world) s : states_ok w -> is_settled w p -> heap w !! p = Some s -> exists v, unwrap s = done v.
Proof.
  intros S (s' & E & C) E'. rewrite E in E'. injection E' as <-. destruct (S p s' E) as (A & _). unfold unwrap. destruct (value s') as [v|]; [eauto|]. now apply A in C.
Qed.
Lemma bind_failed {A B} (m : step_outcome A) (f : A -> step_outcome B) why : outcome_bind m f = failed why -> m = failed why \/ exists a, m = done a /\ f a = failed why.
Proof. destruct m as [a| |w]; cbn; [right; eauto|discriminate|intros [= ->]; now left]. Qed.
Lemma with_handle_failed p (w : world) why : with_handle p w = failed why -> why = no_handle.
Proof. unfold with_handle. destruct (heap w !! p); [destruct (_ <? _)%nat|]; congruence. Qed.
Lemma one_when_true (P : Prop) {d : Decision P} : P -> one_when P = 1.
Proof. intros H. unfold one_when. now rewrite decide_True. Qed.

Definition fault_of_program (w : world) (f : frame) (why : fault) : Prop :=
  why = no_handle \/ why = set_twice \/ (why = condition_gone /\ exists p j, f = frame_start (task_notify p j) /\ waits_for j w = false).
Lemma release_never_fails p (w : world) : (exists s, with_copy p w = done s /\ heap w !! p = Some s) -> forall why, promise_release p w <> failed why.
Proof. intros (s & C & _) why H. unfold promise_release in H. rewrite C in H. cbn in H. destruct (_ =? _)%nat; [|discriminate]. destruct (lose_event _ _). discriminate. Qed.
Lemma step_faults sp i (w : world) t f rest why : world_ok w -> ready_ok w -> threads w !! i = Some t -> frames t = f :: rest ->
  step_frame moved sp i f w = failed why -> fault_of_program w f why.
Proof.
  intros [B S T] [R _] Et Ef H. destruct (T i t Et) as (F & St & _). rewrite Ef in F, St. inversion_clear F as [|? ? F1 F2].
  destruct (R i t Et) as [Rf _]. rewrite Ef in Rf. inversion_clear Rf as [|? ? Rf1 Rf2].
  assert (Held : forall p, 0 < weigh_frame (reference_weights p) f -> exists s, with_copy p w = done s /\ heap w !! p = Some s) by (intros p; eapply held_by_frame; eassumption).
  destruct f; cbn in H.
  - destruct c; open_code H; try discriminate.
    all: repeat match goal with H : outcome_bind (with_handle _ _) _ = failed _ |- _ => apply bind_failed in H as [H|(? & ? & H)]; [left; now apply with_handle_failed in H|] end; on_done; try discriminate.
    + destruct (is_ready x0) eqn:Rd; [|discriminate]. apply bind_failed in H as [H|(? & _ & H)]; [|discriminate].
      destruct (settled_unwrap other w x0 S) as [v U]; [exists x0; split; [assumption|now apply is_ready_true]|assumption|congruence].
    + destruct (is_ready x) eqn:Rd; [|discriminate]. apply bind_failed in H as [H|(? & _ & H)]; [|discriminate].
      destruct (settled_unwrap p w x S) as [v U]; [exists x; split; [assumption|now apply is_ready_true]|assumption|congruence].
  - destruct (stored_task p t0 F1) as [_ C]. destruct (Held p) as (s & Hc & _); [now apply copies_in|]. unfold store in H. rewrite Hc in H. cbn in H.
    destruct (lose_event s w). destruct (is_ready s); discriminate.
  - unfold wait in H. apply bind_failed in H as [H|(x & _ & H)]; [left; now apply with_handle_failed in H|]. destruct (is_ready x); [discriminate|]. destruct (lose_event x w). discriminate.
  - destruct (Held p) as (s & Hc & _); [cbn; rewrite one_when_true by reflexivity; lia|]. unfold block_wait in H. rewrite Hc in H. cbn in H. destruct (_ && _); discriminate.
  - unfold load in H. apply bind_failed in H as [H|(x & Hx & H)]; [left; now apply with_handle_failed in H|]. on_done. apply bind_failed in H as [H|(? & _ & H)]; [|discriminate].
    destruct (settled_unwrap p w x S Rf1 Hx) as [v U]. congruence.
  - unfold set_locked in H. apply bind_failed in H as [H|(x & _ & H)].
    + destruct own; [left; now apply with_handle_failed in H|]. destruct St as [Hd _]. destruct rest as [|g rest]; [discriminate|]. injection Hd as ->.
      destruct (copy_held p w B) as (s & Hc & _); [|congruence]. pose proof (weigh_thread_le _ (book_nonneg false p) w i t Et) as L. unfold weigh_thread in L. rewrite Ef in L.
      pose proof (sum_nonneg _ rest (weigh_frame_nonneg _ (book_nonneg false p))) as N1. pose proof (sum_nonneg _ (queue t) (proj1 (book_nonneg false p))) as N2.
      unfold total_of in *. cbn in L. rewrite one_when_true in L by reflexivity. cbn in *. lia.
    + destruct (is_ready x); [|discriminate]. injection H as <-. right. now left.
  - unfold execute in H. destruct (_ && _); discriminate.
  - unfold set_task in H. destruct (negb _); [|destruct (_ && _)]; discriminate.
  - assert (Run : forall p, task_of t0 = Some p -> p ∈ task_copies t0 -> exists s v, with_copy p w = done s /\ unwrap s = done v).
    { intros p Tp Cp. destruct (Held p) as (s & Hc & Es); [now apply copies_in|]. destruct (settled_unwrap p w s S (Rf1 p Tp) Es) as [v U]. eauto. }
    destruct t0; cbn in H; try discriminate.
    1-3: match goal with H : outcome_bind (with_copy ?q _) _ = _ |- _ => destruct (Run q eq_refl ltac:(cbn; left)) as (s & v & Hc & U); rewrite Hc in H; cbn in H; rewrite U in H; discriminate end.
    destruct (waits_for i0 w) eqn:Wf; [discriminate|]. injection H as <-. right. right. eauto.
  - exfalso. eapply release_never_fails; [|exact H]. apply Held. cbn. rewrite one_when_true by reflexivity. lia.
  - unfold drop_handle in H. apply bind_failed in H as [H|(x & Hx & H)]; [left; now apply with_handle_failed in H|]. on_done. exfalso. eapply release_never_fails; [|exact H].
    pose proof (balanced_handle p w x B Hx). eexists. unfold with_copy. rewrite (lookup_on_state_eq p _ w x Hx). cbn [count set_handles].
    replace (0 <? count x)%nat with true by (symmetry; apply Nat.ltb_lt; lia). split; reflexivity.
Qed.
End Ready.
