(* ===== verification/PromiseRuns.v ===== *)
(** * Promises: theorems about every run

    [run_world] follows any list of choices: which thread steps, which task an idle worker takes, when a thread wakes up without reason, when
    the scheduler starts and stops.  The theorems are about all of them. *)
From S2P Require Import Prelude Promise PromiseFacts PromiseWake PromiseSpec PromiseReady.
From stdpp Require Import list.
Open Scope Z_scope.

Section Runs.
Context {V : Type} (moved : V -> V).
Abbreviation code := (code V).
Abbreviation world := (world V).
Abbreviation thread := (thread V).
Abbreviation frame := (frame V).

Definition punctual (c : choice) : Prop := match c with wake_up _ => False | _ => True end.
Definition starts (programs : list code) (timers workers max : nat) (running : bool) : world := new_threads programs timers workers max running.

Record run_sound (w : world) : Prop := mk_world_good { good_ok : world_ok w; good_ready : ready_ok w }.
Lemma runs_sound cs programs timers workers m b w : run_world moved cs (starts programs timers workers m b) = done w -> run_sound w.
Proof.
  apply (run_world_inv moved run_sound (fun _ => True)); [|split; [apply new_world_ok|apply new_world_ready]|now apply List.Forall_forall].
  intros c w0 w1 [O R] _ H. split; [eapply world_step_ok; eassumption|eapply world_step_ready; eassumption].
Qed.

Lemma notes_weighed p j (w w' : world) : (forall h, weigh h w' = weigh h w) -> heap w' = heap w -> notes p j w' = notes p j w /\ losses p w' = losses p w.
Proof. intros W H. unfold notes, losses. now rewrite W, H. Qed.
Lemma world_step_wakes c (w w' : world) : world_ok w -> wakes_ok w -> punctual c -> world_step moved c w = done w' -> wakes_ok w'.
Proof.
  intros O W P H. destruct c as [i n|i|i|a e]; cbn in H, P; try tauto.
  - unfold advance_thread in H. destruct (threads w !! i) as [t|] eqn:Et; [|discriminate]. destruct (frames t) as [|f rest] eqn:Ef.
    + destruct (next_task t n w) as [[[x q] s]|] eqn:N; [|discriminate]. injection H as <-. fold (take_next i x q s w). intros p j.
      destruct (notes_weighed p j w (take_next i x q s w)) as [-> ->]; [intros h; eapply weigh_take_next; eassumption|reflexivity|].
      destruct (W p j) as (W1 & W2 & W3). unfold take_next, blocked_on, on_thread, set_threads; cbn [threads set_sync]. rewrite list_lookup_alter.
      destruct (decide (i = j)) as [<-|]; [|auto]. rewrite Et. split; [exact W1|]. split; [intros (t' & k & r & E' & F' & _)%W2|intros (t' & k & r & E' & F' & _)].
      * rewrite Et in E'. injection E' as <-. congruence.
      * injection E' as <-. discriminate.
    + invert_bind. destruct x as [w1 fs]. cbn in H. injection H as <-. eapply step_wakes_ok; eassumption.
  - destruct (threads w !! i) as [t|] eqn:Et; [|discriminate]. destruct (_ || _); [discriminate|]. destruct (frames t) eqn:Ef; [|discriminate]. injection H as <-. intros p j.
    destruct (notes_weighed p j w (on_thread i (fun _ => mk_thread outside [] [] false) (set_sync (sync w ++ queue t) w))) as [-> ->]; [intros h; now apply weigh_leave|reflexivity|].
    destruct (W p j) as (W1 & W2 & W3). unfold blocked_on, on_thread, set_threads; cbn [threads set_sync]. rewrite list_lookup_alter.
    destruct (decide (i = j)) as [<-|]; [|auto]. rewrite Et. split; [exact W1|]. split; [intros (t' & k & r & E' & F' & _)%W2|intros (t' & k & r & E' & F' & _)].
    + rewrite Et in E'. injection E' as <-. congruence.
    + injection E' as <-. discriminate.
  - injection H as <-. exact W.
Qed.
Lemma new_world_wakes programs timers workers m b : wakes_ok (starts programs timers workers m b).
Proof.
  intros p j. unfold notes, starts. rewrite new_weigh by reflexivity. repeat split; try lia. intros (t & k & r & E & F & _).
  destruct (new_threads_ok _ _ _ _ _ _ _ E) as [F'|[c F']]; congruence.
Qed.
Lemma run_wakes cs programs timers workers m b w : List.Forall punctual cs -> run_world moved cs (starts programs timers workers m b) = done w -> run_sound w /\ wakes_ok w.
Proof.
  intros P. apply (run_world_inv moved (fun w => run_sound w /\ wakes_ok w) punctual); [|split; [split; [apply new_world_ok|apply new_world_ready]|apply new_world_wakes]|exact P].
  intros c w0 w1 [[O R] W] Pc H. split; [split; [eapply world_step_ok; eassumption|eapply world_step_ready; eassumption]|eapply world_step_wakes; eassumption].
Qed.

Lemma run_world_fault (I : world -> Prop) (ok : choice -> Prop) why : (forall c w w', I w -> ok c -> world_step moved c w = done w' -> I w') ->
  (forall c w, I w -> ok c -> world_step moved c w <> failed why) ->
  forall cs w, I w -> List.Forall ok cs -> run_world moved cs w <> failed why.
Proof.
  intros St Nf. induction cs as [|c cs IH]; cbn; intros w H F R; [discriminate|]. inversion_clear F. apply bind_failed in R as [R|(w1 & E & R)]; [now apply Nf in R|].
  eapply IH; [|eassumption|exact R]. eauto.
Qed.
Lemma world_step_faults c (w : world) why : run_sound w -> world_step moved c w = failed why ->
  why = no_handle \/ why = set_twice \/ (why = condition_gone /\ (punctual c -> wakes_ok w -> False)).
Proof.
  intros [O R] H. assert (A : forall sp i n, advance_thread moved sp i n w = failed why -> why = no_handle \/ why = set_twice \/ (why = condition_gone /\ (wakes_ok w -> False))).
  { intros sp i n F. unfold advance_thread in F. destruct (threads w !! i) as [t|] eqn:Et; [|discriminate]. destruct (frames t) as [|f rest] eqn:Ef.
    - destruct (next_task t n w) as [[[x q] s]|]; discriminate.
    - apply bind_failed in F as [F|(x & _ & F)]; [|discriminate]. destruct (step_faults moved sp i w t f rest why O R Et Ef F) as [D|[D|(D & p & j & -> & Wf)]]; auto.
      right; right. split; [exact D|]. intros W. destruct (W p j) as (_ & W2 & _). pose proof (notes_here i _ w t rest p j Et Ef) as Hn. cbn in Hn. rewrite one_when_true in Hn by auto.
      destruct W2 as (t' & k & r & Et' & Ft & Nt); [lia|]. unfold waits_for in Wf. rewrite Et', Ft, Nt in Wf. discriminate. }
  destruct c as [i n|i|i|a e]; cbn in H.
  - destruct (A false i n H) as [D|[D|(D & G)]]; auto.
  - repeat case_match; try discriminate. destruct (A true i 0%nat H) as [D|[D|(D & G)]]; auto.
  - destruct (threads w !! i); [|discriminate]. destruct (_ || _); [discriminate|]. destruct (frames _); discriminate.
  - discriminate.
Qed.

(** ** Callbacks and references *)

(** (C1) In every run: a callback handed to a promise was called once, was replaced by a later one, was refused by a stopped scheduler, or is stored or under way; and
    a settled promise stores none. *)
Theorem promise_callbacks_accounted cs programs timers workers m b w p s :
  run_world moved cs (starts programs timers workers m b) = done w -> heap w !! p = Some s ->
  Z.of_nat (attached s) = Z.of_nat (called s) + Z.of_nat (lost s) + Z.of_nat (refused s) + weigh (callback_weights p) w /\
  (code_of s = ready -> event s = None /\ value s <> None).
Proof.
  intros [[B S T] R]%runs_sound E. specialize (B true p). unfold balance, net_at in B. rewrite E in B. cbn in B. unfold callback_net in B.
  split; [lia|]. destruct (S p s E) as (A & Ev & _). intros C. split; [now apply Ev|now apply A].
Qed.
(** (C2) In every run the count of a state is the number of its handles, of the copies that lambdas, stacks and threads that wait hold, and of the copies whose
    lambda was destroyed without a call; no run reads a state after its end or a value that is not there; without a wake-up that nothing caused no thread is notified after its wait. *)
Theorem promise_references cs programs timers workers m b :
  let w0 := starts programs timers workers m b in
  (forall w p s, run_world moved cs w0 = done w -> heap w !! p = Some s ->
    Z.of_nat (count s) = Z.of_nat (handles s) + Z.of_nat (leaked s) + weigh (reference_weights p) w) /\
  run_world moved cs w0 <> failed freed /\ run_world moved cs w0 <> failed no_value /\
  (List.Forall punctual cs -> run_world moved cs w0 <> failed condition_gone).
Proof.
  intros w0. assert (G0 : run_sound w0) by (split; [apply new_world_ok|apply new_world_ready]).
  assert (Keep : forall c w w', run_sound w -> True -> world_step moved c w = done w' -> run_sound w') by (intros c w w' [O R] _ H; split; [eapply world_step_ok; eassumption|eapply world_step_ready; eassumption]).
  assert (All : List.Forall (fun _ : choice => True) cs) by now apply List.Forall_forall.
  split; [|split; [|split]].
  - intros w p s [[B S T] R]%runs_sound E. specialize (B false p). unfold balance, net_at in B. rewrite E in B. cbn in B. unfold reference_net in B. lia.
  - apply (run_world_fault run_sound (fun _ => True)); auto. intros c w G _ H. destruct (world_step_faults c w _ G H) as [[=]|[[=]|([=] & _)]].
  - apply (run_world_fault run_sound (fun _ => True)); auto. intros c w G _ H. destruct (world_step_faults c w _ G H) as [[=]|[[=]|([=] & _)]].
  - intros P. apply (run_world_fault (fun w => run_sound w /\ wakes_ok w) punctual); [|..|exact P].
    + intros c w w' [[O R] W] Pc H. split; [exact (Keep c w w' (mk_world_good w O R) I H)|]. eapply world_step_wakes; eassumption.
    + intros c w [G W] Pc H. destruct (world_step_faults c w _ G H) as [[=]|[[=]|(_ & F)]]. now apply F.
    + split; [exact G0|apply new_world_wakes].
Qed.

(** ** Where a run stops *)

Definition at_rest (w : world) : Prop := forall i n, world_step moved (run_thread i n) w = blocked.
Definition scheduler_idle (w : world) : Prop :=
  (forall i t, threads w !! i = Some t -> kind t <> outside -> frames t = []) /\ ((exists i t, threads w !! i = Some t /\ kind t <> outside) \/ sync w = []).

Lemma step_frame_blocked i f (w : world) : step_frame moved false i f w = blocked -> exists p k, f = frame_block p k /\ forall s, heap w !! p = Some s -> (is_notified i w && is_ready s) = false.
Proof.
  assert (Hb : forall {A B} (m : step_outcome A) (g : A -> step_outcome B), outcome_bind m g = blocked -> m = blocked \/ exists a, m = done a /\ g a = blocked) by (intros A B [a| |why] g; cbn; eauto; discriminate).
  assert (Hh : forall p, with_handle p w <> blocked) by (intros p; unfold with_handle; repeat case_match; discriminate).
  assert (Hc : forall p, with_copy p w <> blocked) by (intros p; unfold with_copy; repeat case_match; discriminate).
  assert (Hu : forall s : promise_state V, unwrap s <> blocked) by (intros s; unfold unwrap; case_match; discriminate).
  assert (Hr : forall p (w0 : world), (forall q, with_copy q w0 <> blocked) -> promise_release p w0 <> blocked).
  { intros p w0 C H. unfold promise_release in H. apply Hb in H as [H|(x & _ & H)]; [now apply C in H|]. destruct (_ =? _)%nat; [|discriminate]. destruct (lose_event _ _). discriminate. }
  intros H. destruct f; cbn in H; try (match type of H with block_wait _ _ _ _ _ = _ => idtac | _ => exfalso; revert H end).
  - intros H; destruct c; open_code H; try discriminate; repeat match goal with
      | H : outcome_bind (with_handle _ _) _ = blocked |- _ => apply Hb in H as [H|(? & _ & H)]; [now apply Hh in H|]
      | H : (if is_ready ?x then _ else _) = blocked |- _ => destruct (is_ready x)
      | H : outcome_bind (unwrap _) _ = blocked |- _ => apply Hb in H as [H|(? & _ & H)]; [now apply Hu in H|]
      end; discriminate.
  - unfold store. intros [H|(x & _ & H)]%Hb; [now apply Hc in H|]. destruct (lose_event x w). destruct (is_ready x); discriminate.
  - unfold wait. intros [H|(x & _ & H)]%Hb; [now apply Hh in H|]. destruct (is_ready x); [discriminate|]. destruct (lose_event x w). discriminate.
  - exists p, k. split; [reflexivity|]. intros s E. unfold block_wait in H. apply Hb in H as [H|(x & Hx & H)]; [now apply Hc in H|]. on_done. rewrite E in Hx. injection Hx as <-.
    cbn in H. destruct (_ && _); [discriminate|reflexivity].
  - unfold load. intros [H|(x & _ & H)]%Hb; [now apply Hh in H|]. apply Hb in H as [H|(? & _ & H)]; [now apply Hu in H|discriminate].
  - unfold set_locked. intros [H|(x & _ & H)]%Hb; [destruct own; [now apply Hh in H|now apply Hc in H]|]. destruct (is_ready x); discriminate.
  - unfold execute. destruct (_ && _); discriminate.
  - unfold set_task. destruct (negb _); [discriminate|]. destruct (_ && _); discriminate.
  - destruct t; cbn; try discriminate; try (intros [H|(x & _ & H)]%Hb; [now apply Hc in H|]; apply Hb in H as [H|(? & _ & H)]; [now apply Hu in H|discriminate]).
    destruct (waits_for _ _); discriminate.
  - apply Hr, Hc.
  - unfold drop_handle. intros [H|(x & _ & H)]%Hb; [now apply Hh in H|]. revert H. apply Hr. intros q. unfold with_copy. repeat case_match; discriminate.
Qed.
Lemma stuck_thread w i t : at_rest w -> threads w !! i = Some t ->
  frames t = [] \/ exists p k rest, frames t = frame_block p k :: rest /\ forall s, heap w !! p = Some s -> (notified t && is_ready s) = false.
Proof.
  intros St E. specialize (St i 0%nat). cbn in St. unfold advance_thread in St. rewrite E in St. destruct (frames t) as [|f rest]; [now left|right].
  destruct (step_frame moved false i f w) as [a| |why] eqn:F; try discriminate. destruct (step_frame_blocked i f w F) as (p & k & -> & H). exists p, k, rest. split; [reflexivity|].
  intros s Es. specialize (H s Es). unfold is_notified in H. now rewrite E in H.
Qed.

(** Nothing is under way in a world that is stuck while its scheduler is idle. *)
Lemma stuck_weigh w p s : world_ok w -> at_rest w -> scheduler_idle w -> heap w !! p = Some s -> code_of s = ready -> weigh (callback_weights p) w = 0.
Proof.
  intros [B S T] St [Id Sy] Es Cs. assert (Plain : forall f : frame, plain f -> weigh_frame (callback_weights p) f = 0) by (intros [| | | | |[]| | | | |]; cbn; tauto).
  assert (Q : forall i t, threads w !! i = Some t -> kind t <> outside -> queue t = [] /\ sync w = []).
  { intros i t E K. pose proof (Id i t E K) as F. assert (Nt : forall n, next_task t n w = None).
    { intros n. specialize (St i n). cbn in St. unfold advance_thread in St. rewrite E, F in St. destruct (next_task t n w) as [[[x q] r]|]; [discriminate|reflexivity]. }
    specialize (Nt 0%nat). unfold next_task in Nt. destruct (T i t E) as (_ & _ & _ & Qw). destruct (kind t) eqn:Ek; [congruence| |].
    - rewrite Qw in * by discriminate. split; [reflexivity|]. now destruct (sync w).
    - destruct (queue t); [|discriminate]. split; [reflexivity|]. now destruct (sync w). }
  assert (Sync : sync w = []) by (destruct Sy as [(i & t & E & K)|Sy]; [exact (proj2 (Q i t E K))|exact Sy]).
  unfold weigh. rewrite Sync, (sum_zero (threads w)); [rewrite (sum_zero (heap w)); [reflexivity|]|].
  - intros x [q E]%list_elem_of_lookup_1. unfold weigh_event. destruct (event x) as [t|] eqn:Ee; [|reflexivity]. destruct (S q x E) as (_ & Ev & Own). cbn. rewrite (Own t Ee).
    unfold one_when. destruct (decide (Some q = Some p)) as [[= ->]|]; [|reflexivity]. rewrite Es in E. injection E as <-. rewrite Ev in Ee by exact Cs. discriminate.
  - intros t [i E]%list_elem_of_lookup_1. unfold weigh_thread. assert (Eq : queue t = []).
    { destruct (decide (kind t = outside)) as [K|K]; [|exact (proj1 (Q i t E K))]. apply (T i t E). congruence. }
    rewrite Eq. destruct (stuck_thread w i t St E) as [F|(q & k & rest & F & _)]; rewrite F; [reflexivity|].
    destruct (T i t E) as (_ & Sk & _). rewrite F in Sk. cbn in Sk. change (0 + total_of (weigh_frame (callback_weights p)) rest + 0 = 0). rewrite (sum_zero rest); [reflexivity|].
    intros f Hf. apply Plain. rewrite List.Forall_forall in Sk. apply Sk. now apply list_elem_of_In.
Qed.

Lemma sum_le {A} (f g : A -> Z) l : (forall x, f x <= g x) -> total_of f l <= total_of g l.
Proof. intros H. induction l as [|x l IH]; unfold total_of in *; cbn; [lia|]. specialize (H x). lia. Qed.
Lemma notes_callbacks p i (w : world) : notes p i w <= weigh (callback_weights p) w.
Proof.
  assert (T : forall t : job V, on_task (note_weights p i) t <= on_task (callback_weights p) t) by (intros t; apply is_note_bounds).
  assert (F : forall f : frame, weigh_frame (note_weights p i) f <= weigh_frame (callback_weights p) f) by (intros [| | | | | | | | | |]; cbn; try lia; apply T).
  unfold notes, weigh. pose proof (sum_le _ _ (sync w) T).
  pose proof (sum_le (weigh_event (note_weights p i)) (weigh_event (callback_weights p)) (heap w)) as A.
  pose proof (sum_le (weigh_thread (note_weights p i)) (weigh_thread (callback_weights p)) (threads w)) as B.
  assert (A' : total_of (weigh_event (note_weights p i)) (heap w) <= total_of (weigh_event (callback_weights p)) (heap w)) by (apply A; intros s; unfold weigh_event; destruct (event s); [apply T|lia]).
  assert (B' : total_of (weigh_thread (note_weights p i)) (threads w) <= total_of (weigh_thread (callback_weights p)) (threads w)).
  { apply B. intros t. unfold weigh_thread. pose proof (sum_le _ _ (frames t) F). pose proof (sum_le _ _ (queue t) T). lia. }
  lia.
Qed.

(** (C3) Take a run without spurious wake-ups that can go no further and leaves the threads of its scheduler idle.  Of every settled promise, the callbacks that were attached are
    those that were called, those that a second callback displaced, and those that a stopped scheduler refused; and where none was displaced or refused, no thread waits for the promise. *)
Theorem promise_settles cs programs timers workers m b w p s :
  run_world moved cs (starts programs timers workers m b) = done w -> List.Forall punctual cs -> at_rest w -> scheduler_idle w ->
  heap w !! p = Some s -> code_of s = ready ->
  attached s = (called s + lost s + refused s)%nat /\
  ((lost s + refused s = 0)%nat -> forall i t k rest, threads w !! i = Some t -> frames t <> frame_block p k :: rest).
Proof.
  intros Run P St Id Es Cs. destruct (run_wakes _ _ _ _ _ _ _ P Run) as [[O R] W]. pose proof (stuck_weigh w p s O St Id Es Cs) as Z0.
  destruct (promise_callbacks_accounted _ _ _ _ _ _ _ _ _ Run Es) as [A _]. split; [lia|]. intros L i t k rest Et F.
  destruct (stuck_thread w i t St Et) as [F'|(q & k' & rest' & F' & N)]; [congruence|]. rewrite F in F'. injection F' as <- <- <-. specialize (N s Es).
  rewrite (proj2 (is_ready_true s) Cs), andb_true_r in N. assert (Bl : blocked_on p i w) by (exists t, k, rest; auto).
  pose proof (proj2 (proj2 (W p i)) Bl) as Pos. pose proof (notes_callbacks p i w) as Le. unfold losses in Pos. rewrite Es in Pos. lia.
Qed.

(** ** Values *)

Definition has_value (p : nat) (v : V) (w : world) : Prop := exists s, heap w !! p = Some s /\ value s = Some v /\ code_of s = ready.
Section Keep.
Context (p : nat) (v : V) (still : moved v = v).
Lemma keep_on_state q f w : (forall s, code_of s = ready -> value s = Some v -> code_of (f s) = ready /\ value (f s) = Some v) -> has_value p v w -> has_value p v (on_state q f w).
Proof.
  intros F (s & E & Ev & Ec). unfold has_value. rewrite lookup_on_state, E. destruct (decide (q = p)); cbn; [|eauto]. destruct (F s Ec Ev) as [A B]. eauto.
Qed.
Lemma keep_take q w : has_value p v w -> has_value p v (take_value moved q w).
Proof. apply keep_on_state. intros s Ec Ev. cbn. rewrite Ev. cbn. now rewrite still. Qed.
Lemma keep_lose note t w : losing note -> has_value p v w -> has_value p v (lose note t w).
Proof. intros L (s & E & Ev & Ec). destruct (lookup_lose note t p s w L E) as (s' & E' & [C1 _ _ C2 _]). exists s'. split; [exact E'|]. now rewrite C1, C2. Qed.
Lemma keep_lose_event s w w' fs : lose_event s w = (w', fs) -> has_value p v w -> has_value p v w'.
Proof. unfold lose_event. destruct (event s); intros [= <- <-]; [apply keep_lose, losing_lost|auto]. Qed.
Lemma keep_new s w : has_value p v w -> has_value p v (set_states (heap w ++ [s]) w).
Proof. intros (x & E & H). exists x. split; [now apply new_lookup|exact H]. Qed.
Lemma keep_release q w w' fs : promise_release q w = done (w', fs) -> has_value p v w -> has_value p v w'.
Proof.
  intros H K. unfold promise_release in H. invert_bind. set (w0 := on_state q _ w) in H. assert (K0 : has_value p v w0) by (apply keep_on_state; auto).
  destruct (_ =? _)%nat; [|on_done; exact K0]. destruct (lose_event _ _) as [w1 drops] eqn:L. on_done. apply keep_on_state; [auto|]. eapply keep_lose_event; eassumption.
Qed.
Lemma keep_step sp i f w w' fs : states_ok w -> step_frame moved sp i f w = done (w', fs) -> has_value p v w -> has_value p v w'.
Proof.
  intros S H K. destruct f; cbn in H.
  - destruct c; open_code H; repeat invert_bind; try destruct (is_ready _); repeat invert_bind; on_done; unfold promise_add_ref; try exact K;
      repeat first [exact K|apply keep_take|apply keep_new|apply keep_on_state; [now intros|]].
  - unfold store in H. invert_bind. on_done. destruct (lose_event x w) as [w1 drops] eqn:L. pose proof (keep_lose_event _ _ _ _ L K) as K1. destruct (is_ready x); on_done; (apply keep_on_state; [auto|exact K1]).
  - unfold wait in H. invert_bind. on_done. destruct (is_ready x) eqn:R; [on_done; exact K|]. destruct (lose_event x w) as [w1 drops] eqn:L. on_done.
    change (has_value p v (on_state p0 (fun s => note_attached (set_event (Some (task_notify p0 i)) (set_code waiting s))) (promise_add_ref p0 w1))).
    assert (Ne : p0 <> p). { intros ->. destruct K as (s & Es & _ & Ec). rewrite E in Es. injection Es as <-. apply is_ready_false in R. congruence. }
    pose proof (keep_lose_event _ _ _ _ L K) as (s & Es & Ev & Ec). exists s. split; [|auto]. unfold promise_add_ref. now rewrite !lookup_on_state, !decide_False by exact Ne.
  - unfold block_wait in H. invert_bind. destruct (_ && _); [|discriminate]. on_done. exact K.
  - unfold load in H. repeat invert_bind. on_done. destruct (decide (p0 = p)) as [->|Ne].
    + destruct K as (s & Es & Ev & Ec). rewrite E in Es. injection Es as <-. apply unwrap_done in E0. rewrite Ev in E0. injection E0 as <-.
      eexists. split; [apply lookup_on_state_eq; exact E|]. cbn. now rewrite still.
    + destruct K as (s & Es & H1). exists s. split; [|exact H1]. now rewrite lookup_on_state, decide_False.
  - unfold set_locked in H. invert_bind. assert (E' : heap w !! p0 = Some x) by (destruct own; on_done; assumption). destruct (is_ready x) eqn:R; [discriminate|]. on_done.
    destruct K as (s & Es & Ev & Ec). exists s. split; [|auto]. rewrite lookup_on_state, decide_False; [exact Es|]. intros ->. rewrite E' in Es. injection Es as ->. apply is_ready_false in R. congruence.
  - unfold execute in H. destruct (_ && _); on_done; exact K.
  - unfold set_task in H. destruct (negb _); [|destruct (_ && _)]; on_done; [apply keep_lose; [apply losing_refused|exact K]|exact K..].
  - destruct t; cbn in H; repeat invert_bind; try destruct (waits_for _ _); try discriminate; on_done; try exact K; try (now apply keep_take).
    change (has_value p v (on_state p0 note_called w)). apply keep_on_state; auto.
  - eapply keep_release; eassumption.
  - unfold drop_handle in H. invert_bind. eapply keep_release; [exact H|]. apply keep_on_state; auto.
Qed.
End Keep.
(** A value that is not changed by handing it over stays in its promise in every run: all callbacks and all readers get it. *)
Theorem promise_value_stays cs cs' programs timers workers m b w w' p v : moved v = v ->
  run_world moved cs (starts programs timers workers m b) = done w -> has_value p v w -> run_world moved cs' w = done w' -> has_value p v w'.
Proof.
  intros St R K R'. refine (proj2 (run_world_inv moved (fun w => run_sound w /\ has_value p v w) (fun _ => True) _ cs' w w' _ _ R')).
  - intros c w1 w2 [G K1] _ H. split; [destruct G as [O Rd]; split; [eapply world_step_ok; eassumption|eapply world_step_ready; eassumption]|].
    destruct G as [[B S T] _]. assert (A : forall sp i n, advance_thread moved sp i n w1 = done w2 -> has_value p v w2).
    { intros sp i n F. unfold advance_thread in F. destruct (threads w1 !! i) as [t|] eqn:Et; [|discriminate]. destruct (frames t) as [|f rest] eqn:Ef.
      - destruct (next_task t n w1) as [[[x q] s]|]; [|discriminate]. injection F as <-. exact K1.
      - invert_bind. destruct x as [w3 fs]. cbn in F. injection F as <-. exact (keep_step p v St sp i f w1 w3 fs S E K1). }
    destruct c as [i n|i|i|a e]; cbn in H; [eauto| | |injection H as <-; exact K1].
    + repeat case_match; try discriminate. eauto.
    + destruct (threads w1 !! i); [|discriminate]. destruct (_ || _); [discriminate|]. destruct (frames _); [|discriminate]. injection H as <-. exact K1.
  - split; [|exact K]. eapply runs_sound. exact R.
  - now apply List.Forall_forall.
Qed.
End Runs.
