(* ===== verification/PromiseEnds.v ===== *)
(** * Promises: every run ends

    The frames, events and queued tasks of a world are a bag of items; a step takes an item out and puts smaller ones in: parts of the program it
    stands for, or the same task at a later stage of its way from the event to its call. *)
From S2P Require Import Prelude Promise PromiseFacts PromiseWake PromiseSpec.
From Stdlib Require Import Wellfounded.Transitive_Closure Relation_Operators.
From stdpp Require Import list.
Open Scope Z_scope.

(** ** Bags *)

Section Bags.
Context {A : Type} (less : A -> A -> Prop).
Definition bag_step (ys xs : list A) : Prop :=
  exists x old new rest, xs ≡ₚ x :: old ++ rest /\ ys ≡ₚ new ++ rest /\ forall y, y ∈ new -> less y x.
Lemma Acc_perm xs ys : xs ≡ₚ ys -> Acc bag_step xs -> Acc bag_step ys.
Proof. intros P [H]. constructor. intros zs (x & old & new & rest & E & F & L). apply H. exists x, old, new, rest. split; [now rewrite P|auto]. Qed.
(** Fewer items are no obstacle. *)
Lemma Acc_submultiset xs ys : Acc bag_step (xs ++ ys) -> Acc bag_step ys.
Proof.
  intros [H]. constructor. intros zs (x & old & new & rest & E & F & L). apply (H zs). exists x, (xs ++ old), new, rest. split; [|auto]. rewrite E. solve_Permutation.
Qed.
Lemma Acc_cons_bag a : (forall b, less b a -> forall xs, Acc bag_step xs -> Acc bag_step (b :: xs)) -> forall xs, Acc bag_step xs -> Acc bag_step (a :: xs).
Proof.
  intros IHa xs Hx. induction Hx as [xs Hx IHx]. constructor. intros ys (x & old & new & rest & E & F & L).
  assert (In_x : a ∈ x :: old ++ rest) by (rewrite <- E; left).
  assert (New : forall n zs, (forall y, y ∈ n -> less y a) -> Acc bag_step zs -> Acc bag_step (n ++ zs)).
  { intros n zs. induction n as [|b n IH]; intros Ln Az; [exact Az|]. cbn. apply IHa; [apply Ln; left|]. apply IH; [|exact Az]. intros y Hy. apply Ln. now right. }
  apply list_elem_of_In in In_x. cbn in In_x. destruct In_x as [->|In_x].
  - apply (Acc_perm (new ++ rest)); [now symmetry|]. apply New; [exact L|]. apply (Acc_submultiset old). apply (Acc_perm xs); [|now constructor].
    now apply Permutation_cons_inv in E.
  - apply list_elem_of_In, elem_of_app in In_x as [In_o|In_r].
    + apply elem_of_Permutation in In_o as [old' Eo]. apply Hx. exists x, old', new, rest. split; [|auto].
      apply (Permutation_cons_inv (a := a)). rewrite E, Eo. solve_Permutation.
    + apply elem_of_Permutation in In_r as [rest' Er]. assert (Ex : xs ≡ₚ x :: old ++ rest') by (apply (Permutation_cons_inv (a := a)); rewrite E, Er; solve_Permutation).
      apply (Acc_perm (a :: new ++ rest')); [rewrite F, Er; solve_Permutation|]. apply IHx. exists x, old, new, rest'. auto.
Qed.
Lemma bag_well_founded : well_founded less -> well_founded bag_step.
Proof.
  intros W xs. induction xs as [|a xs IH]; [constructor; intros ys (x & old & new & rest & E & _); now apply Permutation_nil_cons in E|].
  revert xs IH. induction (W a) as [a _ IHa]. intros xs Hx. apply Acc_cons_bag; [|exact Hx]. intros b Lb ys Hy. now apply IHa.
Qed.
End Bags.

Section Ends.
Context {V : Type}.
Abbreviation code := (code V).
Abbreviation job := (job V).
Abbreviation frame := (frame V).
Abbreviation thread := (thread V).
Abbreviation promise_state := (promise_state V).
Abbreviation world := (world V).

(** ** Items *)

Inductive thing :=
| thing_flat
| thing_notify
| thing_link
| thing_code (c : code)
| thing_body (c : code)
| thing_when (callback : V -> code)
| thing_then (callback : nat -> V -> code)
| thing_get (k : V -> code).

Inductive thing_part : thing -> thing -> Prop :=
| part_new k r : thing_part (thing_code (k r)) (thing_code (code_new k))
| part_ready v k r : thing_part (thing_code (k r)) (thing_code (code_ready v k))
| part_copy p k : thing_part (thing_code k) (thing_code (code_copy p k))
| part_drop p k : thing_part (thing_code k) (thing_code (code_drop p k))
| part_set p v k : thing_part (thing_code k) (thing_code (code_set p v k))
| part_set_from p q k : thing_part (thing_code k) (thing_code (code_set_from p q k))
| part_link p q k : thing_part thing_link (thing_code (code_set_from p q k))
| part_when p f k : thing_part (thing_code k) (thing_code (code_when p f k))
| part_callback p f k : thing_part (thing_when f) (thing_code (code_when p f k))
| part_called p f k v : thing_part (thing_code (f v)) (thing_code (code_when p f k))
| part_then p f k r : thing_part (thing_code (k r)) (thing_code (code_then p f k))
| part_then_callback p f k : thing_part (thing_then f) (thing_code (code_then p f k))
| part_get p k : thing_part (thing_get k) (thing_code (code_get p k))
| part_task r c k : thing_part (thing_body c) (thing_code (code_task r c k))
| part_after_task r c k : thing_part (thing_code k) (thing_code (code_task r c k))
| part_available b k a : thing_part (thing_code (k a)) (thing_code (code_available b k))
| part_call c k : thing_part (thing_code c) (thing_code (code_call c k))
| part_after_call c k : thing_part (thing_code k) (thing_code (code_call c k))
| part_tell n v k : thing_part (thing_code k) (thing_code (code_tell n v k))
| part_body c : thing_part (thing_code c) (thing_body c)
| part_run_when f v : thing_part (thing_code (f v)) (thing_when f)
| part_run_then f r v : thing_part (thing_code (f r v)) (thing_then f)
| part_run_get k v : thing_part (thing_code (k v)) (thing_get k)
| part_notify k : thing_part thing_notify (thing_get k)
| part_flat x : x <> thing_flat -> thing_part thing_flat x.

Lemma flat_acc : Acc thing_part thing_flat.
Proof. constructor. intros y H. inversion H; subst; congruence. Qed.
Lemma notify_acc : Acc thing_part thing_notify.
Proof. constructor. intros y H. inversion H; subst; apply flat_acc. Qed.
Lemma link_acc : Acc thing_part thing_link.
Proof. constructor. intros y H. inversion H; subst; apply flat_acc. Qed.
Hint Resolve flat_acc notify_acc link_acc : core.
Lemma code_acc c : Acc thing_part (thing_code c).
Proof.
  induction c; constructor; intros y Hy; inversion Hy; subst; auto; constructor; intros z Hz; inversion Hz; subst; auto.
Qed.
Hint Resolve code_acc : core.
Lemma part_well_founded : well_founded thing_part.
Proof. intros [| | |c|c|f|f|k]; auto; constructor; intros y Hy; inversion Hy; subst; auto. Qed.

Definition bag_item : Type := thing * nat.
Inductive item_less : bag_item -> bag_item -> Prop :=
| less_part x y m n : thing_part x y -> item_less (x, m) (y, n)
| less_stage x m n : (m < n)%nat -> item_less (x, m) (x, n).
Lemma item_well_founded : well_founded item_less.
Proof.
  intros [x n]. revert n. induction (part_well_founded x) as [x _ IH]. intros n. induction n as [n IHn] using lt_wf_ind. constructor.
  intros [y m] H. inversion H; subst; auto.
Qed.

Definition task_thing (t : job) : thing :=
  match t with task_when _ f => thing_when f | task_then _ _ f => thing_then f | task_link _ _ => thing_link | task_notify _ _ => thing_notify | task_code c => thing_body c end.
Definition event_items (s : promise_state) : list bag_item := match event s with Some t => [(task_thing t, 4%nat)] | None => [] end.
Definition queue_item (t : job) : bag_item := (task_thing t, 1%nat).
Definition frame_item (f : frame) : bag_item :=
  match f with
  | frame_run c => (thing_code c, 0)
  | frame_store _ t => (task_thing t, 5) | frame_execute t _ => (task_thing t, 3) | frame_task _ t => (task_thing t, 2) | frame_start t => (task_thing t, 0)
  | frame_wait _ k => (thing_get k, 3) | frame_block _ k => (thing_get k, 2) | frame_load _ k => (thing_get k, 1)
  | frame_settle _ _ _ | frame_release _ | frame_drop _ => (thing_flat, 0)
  end%nat.
Definition thread_items (t : thread) : list bag_item := map frame_item (frames t) ++ map queue_item (queue t).
Definition items (w : world) : list bag_item := (heap w ≫= event_items) ++ (threads w ≫= thread_items) ++ map queue_item (sync w).

Lemma gather_alter {A B} (g : A -> list B) f i l x : l !! i = Some x -> exists rest, (l ≫= g) ≡ₚ g x ++ rest /\ (alter f i l ≫= g) ≡ₚ g (f x) ++ rest.
Proof.
  revert i. induction l as [|y l IH]; intros [|i] E; try discriminate.
  - injection E as ->. exists (l ≫= g). split; reflexivity.
  - destruct (IH i E) as (rest & A1 & A2). exists (g y ++ rest). cbn. split; [rewrite A1|rewrite A2]; solve_Permutation.
Qed.
Lemma gather_same {A B} (g : A -> list B) f i l : (forall x, g (f x) = g x) -> (alter f i l ≫= g) = (l ≫= g).
Proof. intros H. revert i. induction l as [|y l IH]; intros [|i]; cbn; rewrite ?H; [reflexivity..|]. f_equal. apply IH. Qed.

(** The items of a world besides the top frame of thread [i]. *)
Definition pop_top (t : thread) : thread := set_frames (tail (frames t)) t.
Definition others (i : nat) (w : world) : list bag_item := items (on_thread i pop_top w).
Lemma others_eq i (w : world) : others i w = (heap w ≫= event_items) ++ (alter pop_top i (threads w) ≫= thread_items) ++ map queue_item (sync w).
Proof. reflexivity. Qed.
Lemma items_top i t f rest w : threads w !! i = Some t -> frames t = f :: rest -> items w ≡ₚ frame_item f :: others i w.
Proof.
  intros E F. rewrite others_eq. unfold items. destruct (gather_alter thread_items pop_top i (threads w) t E) as (r & A1 & A2). rewrite A1, A2.
  unfold thread_items, pop_top; cbn. rewrite F. cbn. solve_Permutation.
Qed.
Lemma items_pushed i t f rest fs w : threads w !! i = Some t -> frames t = f :: rest -> items (on_thread i (set_frames (fs ++ rest)) w) ≡ₚ map frame_item fs ++ others i w.
Proof.
  intros E F. rewrite others_eq. unfold items, on_thread, set_threads; cbn [heap threads sync].
  destruct (gather_alter thread_items pop_top i (threads w) t E) as (r & A1 & A2). destruct (gather_alter thread_items (set_frames (fs ++ rest)) i (threads w) t E) as (r' & B1 & B2).
  assert (R : r ≡ₚ r') by (rewrite A1 in B1; now apply Permutation_app_inv_l in B1). rewrite A2, B2, <- R.
  unfold thread_items, pop_top; cbn. rewrite F, map_app. cbn. solve_Permutation.
Qed.

Lemma others_same i p g w : (forall s, event (g s) = event s) -> others i (on_state p g w) = others i w.
Proof. intros H. rewrite !others_eq. unfold on_state, set_states; cbn [heap threads sync]. rewrite gather_same; [reflexivity|]. intros s. unfold event_items. now rewrite H. Qed.
Lemma others_event i p g w s : heap w !! p = Some s -> exists R, others i w ≡ₚ event_items s ++ R /\ others i (on_state p g w) ≡ₚ event_items (g s) ++ R.
Proof.
  intros E. destruct (gather_alter event_items g p (heap w) s E) as (r & A1 & A2). eexists. rewrite !others_eq. unfold on_state, set_states; cbn [heap threads sync].
  rewrite A1, A2, <- !app_assoc. split; reflexivity.
Qed.
Lemma others_lose i note t w : losing note -> others i (lose note t w) = others i w.
Proof.
  intros L. unfold lose. set (w0 := match task_of t with Some p => on_state p note w | None => w end).
  assert (E : others i w0 = others i w) by (subst w0; destruct (task_of t); [apply others_same; intros s; apply (core_event _ _ (proj1 (L s)))|reflexivity]).
  rewrite <- E. induction (task_copies t) as [|q l IH]; [reflexivity|]. cbn [foldr]. rewrite others_same by now intros. exact IH.
Qed.
Lemma others_lose_event i s w w' fs : lose_event s w = (w', fs) -> others i w' = others i w.
Proof. unfold lose_event. destruct (event s); intros [= <- <-]; [apply others_lose, losing_lost|reflexivity]. Qed.
Lemma others_new i s w : event s = None -> others i (set_states (heap w ++ [s]) w) = others i w.
Proof. intros E. rewrite !others_eq. unfold set_states; cbn [heap threads sync]. rewrite bind_app. cbn. unfold event_items at 2. now rewrite E, app_nil_r. Qed.
Lemma alter_swap {A} (f g : A -> A) i j (l : list A) : (forall x, f (g x) = g (f x)) -> alter f i (alter g j l) = alter g j (alter f i l).
Proof. intros H. revert i j. induction l as [|x l IH]; intros [|i] [|j]; cbn; try reflexivity; [now rewrite H|]. f_equal. apply IH. Qed.
Lemma others_notified i j b w : others i (on_thread j (set_notified b) w) = others i w.
Proof.
  rewrite !others_eq. unfold on_thread, set_threads; cbn [heap threads sync]. rewrite (alter_swap pop_top (set_notified b)) by reflexivity. rewrite gather_same; [reflexivity|]. now intros.
Qed.
Lemma others_push i t x w : threads w !! i = Some t -> others i (on_thread i (fun t => set_own_queue (queue t ++ [x]) t) w) ≡ₚ queue_item x :: others i w.
Proof.
  intros E. rewrite !others_eq. unfold on_thread, set_threads; cbn [heap threads sync]. rewrite (alter_swap pop_top (fun t => set_own_queue (queue t ++ [x]) t)) by reflexivity.
  destruct (gather_alter thread_items (fun t => set_own_queue (queue t ++ [x]) t) i (alter pop_top i (threads w)) (pop_top t)) as (r & A1 & A2).
  { now rewrite list_lookup_alter, decide_True, E by reflexivity. }
  rewrite A1, A2. unfold thread_items; cbn. rewrite map_app. cbn. solve_Permutation.
Qed.

(** ** Steps *)

Definition shrinks (f : frame) (before after : list bag_item) (fs : list frame) : Prop :=
  exists x old new rest, frame_item f :: before ≡ₚ x :: old ++ rest /\ map frame_item fs ++ after ≡ₚ new ++ rest /\ forall y, y ∈ new -> item_less y x.
Lemma shrinks_top f before after fs old new : (exists rest, before ≡ₚ old ++ rest /\ after ≡ₚ new ++ rest) ->
  List.Forall (fun y => item_less y (frame_item f)) (map frame_item fs ++ new) -> shrinks f before after fs.
Proof.
  intros (rest & B & A) L. exists (frame_item f), old, (map frame_item fs ++ new), rest. split; [now rewrite B|]. split; [now rewrite A, app_assoc|].
  intros y Hy. rewrite List.Forall_forall in L. now apply L, list_elem_of_In.
Qed.
Lemma shrinks_event f before after fs x : (exists rest, before ≡ₚ x :: rest /\ after ≡ₚ rest) -> List.Forall (fun y => item_less y x) (map frame_item fs) -> shrinks f before after fs.
Proof.
  intros (rest & B & A) L. exists x, [frame_item f], (map frame_item fs), rest. split; [rewrite B; solve_Permutation|]. split; [now rewrite A|].
  intros y Hy. rewrite List.Forall_forall in L. now apply L, list_elem_of_In.
Qed.
Lemma shrinks_plain f before after fs : after = before -> List.Forall (fun y => item_less y (frame_item f)) (map frame_item fs) -> shrinks f before after fs.
Proof. intros -> L. apply (shrinks_top f _ _ fs [] []); [exists before; split; reflexivity|]. now rewrite app_nil_r. Qed.
Lemma drops_less fs x n : x <> thing_flat -> List.Forall is_drop fs -> List.Forall (fun y => item_less y (x, n)) (map frame_item fs).
Proof. intros N D. induction D as [|f fs Df _ IH]; [constructor|]. cbn. constructor; [|exact IH]. destruct f; try easy. now apply less_part, part_flat. Qed.
Lemma task_not_flat t : task_thing t <> thing_flat.
Proof. now destruct t. Qed.

Lemma release_shrinks f i p w w' fs : frame_item f = (thing_flat, 0%nat) -> promise_release p w = done (w', fs) -> shrinks f (others i w) (others i w') fs.
Proof.
  intros Ff H. unfold promise_release in H. invert_bind. on_done. set (w0 := on_state p _ w) in H.
  assert (E0 : heap w0 !! p = Some (set_count (pred (count x)) x)) by exact (lookup_on_state_eq p _ w x E).
  assert (O0 : others i w0 = others i w) by (apply others_same; now intros).
  destruct (count x =? 1)%nat; [|on_done; apply shrinks_plain; [exact O0|constructor]]. destruct (lose_event x w0) as [w1 drops] eqn:L. on_done.
  pose proof (others_lose_event i x w0 w1 drops L) as O1. destruct (lose_event_lookup p x w0 w1 drops _ E0 L) as (s1 & E1 & C1).
  destruct (others_event i p (set_event None) w1 s1 E1) as (R & A1 & A2). unfold event_items in A1, A2. rewrite (core_event _ _ C1) in A1. cbn [event set_event set_count app] in A1, A2.
  pose proof (lose_event_drop x w0 w1 drops L) as [D _]. rewrite O1, O0 in A1. destruct (event x) as [t|] eqn:Ee.
  - apply (shrinks_event _ _ _ _ (task_thing t, 4%nat)); [exists R; auto|]. apply drops_less; [apply task_not_flat|exact D].
  - unfold lose_event in L. rewrite Ee in L. injection L as <- <-. apply (shrinks_top _ _ _ _ [] []); [exists R; auto|constructor].
Qed.
Context (moved : V -> V).
Ltac one_smaller := first [apply less_stage; lia|apply less_part, part_flat; first [discriminate|apply task_not_flat]|apply less_part; constructor].
Ltac smaller := cbn; repeat (apply List.Forall_cons; [one_smaller|]); apply List.Forall_nil.
Lemma run_code_shrinks i c w w' fs : run_code moved i c w = done (w', fs) -> shrinks (frame_run c) (others i w) (others i w') fs.
Proof.
  intros H. destruct c; open_code H; repeat invert_bind; on_done.
  all: try (apply shrinks_plain; [try reflexivity; try (now apply others_new); unfold promise_add_ref; now rewrite ?others_same by now intros|smaller]; fail).
  - destruct (is_ready x0); repeat invert_bind; on_done; (apply shrinks_plain; [unfold promise_add_ref, take_value; now rewrite !others_same by now intros|smaller]).
  - destruct (is_ready x); repeat invert_bind; on_done; (apply shrinks_plain; [unfold promise_add_ref, take_value; now rewrite !others_same by now intros|smaller]).
  - apply shrinks_plain; [|smaller]. unfold promise_add_ref. rewrite !others_same by now intros. now apply others_new.
  - apply shrinks_plain; [reflexivity|]. destruct (is_ready x); smaller.
Qed.
Lemma step_frame_shrinks sp i f w w' fs t rest : threads w !! i = Some t -> frames t = f :: rest -> step_frame moved sp i f w = done (w', fs) ->
  shrinks f (others i w) (others i w') fs.
Proof.
  intros Et Ef H. destruct f; cbn in H.
  - now apply run_code_shrinks.
  - unfold store in H. invert_bind. on_done. destruct (lose_event x w) as [w1 drops] eqn:L. pose proof (others_lose_event i x w w1 drops L) as O1.
    destruct (lose_event_lookup p x w w1 drops x E L) as (s1 & E1 & C1). pose proof (lose_event_drop x w w1 drops L) as [D _].
    destruct (is_ready x); on_done.
    + destruct (others_event i p (set_event None) w1 s1 E1) as (R & A1 & A2). rewrite O1 in A1. eapply (shrinks_top _ _ _ _ _ []); [exists R; split; [exact A1|exact A2]|].
      rewrite app_nil_r, map_app. apply List.Forall_app. split; [apply drops_less; [apply task_not_flat|exact D]|smaller].
    + destruct (others_event i p (set_event (Some t0)) w1 s1 E1) as (R & A1 & A2). rewrite O1 in A1. eapply (shrinks_top _ _ _ _ _ [(task_thing t0, 4%nat)]); [exists R; split; [exact A1|exact A2]|].
      apply List.Forall_app. split; [apply drops_less; [apply task_not_flat|exact D]|smaller].
  - unfold wait in H. invert_bind. on_done. destruct (is_ready x); [on_done; apply shrinks_plain; [reflexivity|smaller]|].
    destruct (lose_event x w) as [w1 drops] eqn:L. pose proof (others_lose_event i x w w1 drops L) as O1. on_done.
    destruct (lose_event_lookup p x w w1 drops x E L) as (s1 & E1 & C1). pose proof (lose_event_drop x w w1 drops L) as [D _]. rewrite others_notified.
    pose proof (lookup_on_state_eq p (fun s => set_count (S (count s)) s) w1 s1 E1) as E2. fold (promise_add_ref p w1) in E2.
    destruct (others_event i p (fun s => note_attached (set_event (Some (task_notify p i)) (set_code waiting s))) (promise_add_ref p w1) _ E2) as (R & A1 & A2).
    unfold promise_add_ref in A1. rewrite others_same, O1 in A1 by now intros. eapply (shrinks_top _ _ _ _ _ [(thing_notify, 4%nat)]); [exists R; split; [exact A1|exact A2]|].
    cbn. constructor; [one_smaller|]. apply List.Forall_app. split; [apply drops_less; [discriminate|exact D]|smaller].
  - unfold block_wait in H. invert_bind. destruct (_ && _); [|discriminate]. on_done. apply shrinks_plain; [reflexivity|smaller].
  - unfold load in H. repeat invert_bind. on_done. apply shrinks_plain; [now apply others_same|smaller].
  - unfold set_locked in H. invert_bind. assert (E' : heap w !! p = Some x) by (destruct own; on_done; assumption). destruct (is_ready x); [discriminate|]. on_done.
    destruct (others_event i p (fun s => set_event None (set_code ready (set_value (Some v) s))) w x E') as (R & A1 & A2). unfold event_items in A1. destruct (event x) as [t0|].
    + apply (shrinks_event _ _ _ _ (task_thing t0, 4%nat)); [exists R; split; [exact A1|exact A2]|smaller].
    + apply (shrinks_top _ _ _ _ [] []); [exists R; split; [exact A1|exact A2]|smaller].
  - unfold execute in H. destruct (_ && _); on_done; (apply shrinks_plain; [reflexivity|smaller]).
  - unfold set_task in H. destruct (negb _); [|destruct (recyclable && _)]; on_done.
    + apply shrinks_plain; [apply others_lose, losing_refused|]. apply drops_less; [apply task_not_flat|apply task_drops_drop].
    + apply (shrinks_top _ _ _ _ [] [queue_item t0]); [exists (others i w); split; [reflexivity|now apply (others_push i t)]|smaller].
    + apply (shrinks_top _ _ _ _ [] [queue_item t0]); [exists (others i w); split; [reflexivity|]|smaller]. rewrite !others_eq. cbn [heap threads sync set_sync]. rewrite map_app. cbn. solve_Permutation.
  - destruct t0; cbn in H; repeat invert_bind; try destruct (waits_for _ _); try discriminate; on_done.
    all: try (apply shrinks_plain; [unfold take_value; try reflexivity; now apply others_same|smaller]; fail).
    apply shrinks_plain; [|constructor]. rewrite others_notified. now apply others_same.
  - eapply release_shrinks; [reflexivity|exact H].
  - unfold drop_handle in H. invert_bind. apply (release_shrinks (frame_drop p) i) in H; [|reflexivity]. rewrite others_same in H by now intros. exact H.
Qed.

Lemma advance_shrinks sp i n w w' : threads_ok w -> states_ok w -> advance_thread moved sp i n w = done w' -> bag_step item_less (items w') (items w).
Proof.
  intros T S H. unfold advance_thread in H. destruct (threads w !! i) as [t|] eqn:Et; [|discriminate]. destruct (frames t) as [|f rest] eqn:Ef.
  - destruct (next_task t n w) as [[[x q] s]|] eqn:N; [|discriminate]. injection H as <-. apply next_task_spec in N as [_ C].
    destruct (gather_alter thread_items (fun t => set_frames [frame_start x] (set_own_queue q t)) i (threads w) t Et) as (r & A1 & A2).
    exists (queue_item x), [], [frame_item (frame_start x)], ((heap w ≫= event_items) ++ map queue_item q ++ r ++ map queue_item s).
    split; [|split; [|intros y Hy; apply list_elem_of_singleton in Hy as ->; apply less_stage; lia]].
    + unfold items. rewrite A1. unfold thread_items. rewrite Ef. cbn. destruct C as [(-> & E & ->)|(_ & -> & ->)]; [|cbn; solve_Permutation].
      pose proof (Permutation_map queue_item (delete_Permutation (sync w) n x E)) as P. cbn in P. rewrite P. solve_Permutation.
    + unfold items, on_thread, set_threads; cbn [heap threads sync set_sync]. rewrite A2. unfold thread_items; cbn. solve_Permutation.
  - invert_bind. destruct x as [w1 fs]. cbn in H. injection H as <-. destruct (T i t Et) as (_ & St & _). rewrite Ef in St.
    destruct (step_frame_shape moved sp i f w w1 fs rest E St) as [_ A]. destruct (step_frame_shrinks sp i f w w1 fs t rest Et Ef E) as (x & old & new & R & B1 & B2 & L).
    exists x, old, new, R. split; [rewrite (items_top i t f rest w Et Ef); exact B1|]. split; [|exact L].
    assert (E1 : exists t1, threads w1 !! i = Some t1 /\ frames t1 = f :: rest).
    { destruct A as [->|[(p & j & _ & _ & ->)|[(p & k & _ & ->)|(r & y & th & _ & _ & _ & ->)]]]; [eauto| | |]; rewrite list_lookup_alter; destruct (decide _) as [Eq|Ne]; try rewrite Eq; rewrite Et; cbn; eauto. }
    destruct E1 as (t1 & E1 & F1). rewrite (items_pushed i t1 f rest fs w1 E1 F1). exact B2.
Qed.

(** (C16) There is no infinite run of steps of threads and wake-ups, whoever takes them. *)
Theorem promise_runs_end programs timers workers m b : forall cs w, run_world moved cs (new_threads programs timers workers m b) = done w ->
  Acc (fun w2 w1 => exists c, world_step moved c w1 = done w2 /\ match c with run_thread _ _ | wake_up _ => True | _ => False end) w.
Proof.
  intros cs w R. apply run_ok in R. revert R. remember (items w) as bag eqn:Eb. revert w Eb.
  induction (bag_well_founded item_less item_well_founded bag) as [bag _ IH]. intros w -> O. constructor. intros w' (c & H & K).
  assert (O' : world_ok w') by (eapply world_step_ok; eassumption).
  assert (B : bag_step item_less (items w') (items w)).
  { destruct O as [_ S T]. destruct c; try tauto; cbn in H; [eapply advance_shrinks; eassumption|]. repeat case_match; try discriminate. eapply advance_shrinks; eassumption. }
  exact (IH _ B w' eq_refl O').
Qed.
End Ends.
