(* ===== verification/PromiseDefects.v ===== *)
(** * Promises: witnesses, and the runs that lose callbacks or stop *)
From S2P Require Import Prelude Promise PromiseFacts PromiseWake PromiseSpec PromiseReady PromiseRuns PromiseEnds.
From stdpp Require Import list.
Open Scope Z_scope.

Abbreviation still := (fun v : Z => v).
Definition threads_from (programs : list (code Z)) : world Z := starts programs 0 0 0 false.
Definition tell_as (n : nat) (v : Z) : code Z := code_tell n v code_end.
Definition steps_of (l : list nat) : list choice := map (fun i => run_thread i 0) l.
Definition told_by (r : step_outcome (world Z)) : option (list (nat * Z)) := match r with done w => Some (told w) | _ => None end.
Definition end_of (r : step_outcome (world Z)) : world Z := match r with done w => w | _ => threads_from [] end.
Definition losses_of (r : step_outcome (world Z)) : list (nat * nat * nat) := map (fun s => (lost s, refused s, leaked s)) (heap (end_of r)).

(** A callback stored by one thread, a value set by another, a third that waits for the result of [then]. *)
Definition sample_programs : list (code Z) :=
  [code_new (fun p => code_copy p (then_value p (fun v k => k (v + 1)) (fun r => code_get r (tell_as 1)))); code_set 0 41 code_end].
Definition sample_choices : list choice := steps_of [0; 0; 0; 0; 0; 0; 1; 1; 1; 1; 1; 1; 1; 1; 0; 0; 0; 0; 0; 1; 1; 1; 1]%nat.
Definition sample_world : world Z := end_of (run_world still sample_choices (threads_from sample_programs)).
Lemma sample_stuck : at_rest still sample_world.
Proof. intros [|[|i]] n; vm_compute; reflexivity. Qed.
Lemma sample_idle : scheduler_idle sample_world.
Proof. split; [|right; vm_compute; reflexivity]. intros [|[|i]] t E; vm_compute in E; try discriminate; injection E as <-; now intros []. Qed.

Lemma promise_settles_witness : told sample_world = [(1%nat, 42)] /\ exists s, heap sample_world !! 1%nat = Some s /\ attached s = (called s + lost s + refused s)%nat /\
  forall i t k rest, threads sample_world !! i = Some t -> frames t <> frame_block 1 k :: rest.
Proof.
  split; [vm_compute; reflexivity|]. eexists. split; [vm_compute; reflexivity|].
  destruct (promise_settles still sample_choices sample_programs 0 0 0 false sample_world 1 _ ltac:(vm_compute; reflexivity)
    ltac:(repeat constructor) sample_stuck sample_idle ltac:(vm_compute; reflexivity) ltac:(reflexivity)) as [A B].
  split; [exact A|]. apply B. reflexivity.
Defined.

Lemma promise_callbacks_accounted_witness : exists s, heap sample_world !! 0%nat = Some s /\
  Z.of_nat (attached s) = Z.of_nat (called s) + Z.of_nat (lost s) + Z.of_nat (refused s) + weigh (callback_weights 0) sample_world /\ event s = None.
Proof.
  eexists. split; [vm_compute; reflexivity|].
  destruct (promise_callbacks_accounted still sample_choices sample_programs 0 0 0 false sample_world 0 _ ltac:(vm_compute; reflexivity) ltac:(vm_compute; reflexivity)) as [A B].
  split; [exact A|]. now apply B.
Defined.
Lemma promise_references_witness : exists s, heap sample_world !! 0%nat = Some s /\
  Z.of_nat (count s) = Z.of_nat (handles s) + Z.of_nat (leaked s) + weigh (reference_weights 0) sample_world /\
  run_world still sample_choices (threads_from sample_programs) <> failed freed.
Proof.
  eexists. split; [vm_compute; reflexivity|].
  destruct (promise_references still sample_choices sample_programs 0 0 0 false) as (A & B & _). split; [|exact B].
  apply (A sample_world 0%nat); vm_compute; reflexivity.
Defined.
Lemma promise_value_stays_witness : has_value 0 41 (end_of (run_world still (skipn 14 sample_choices) (end_of (run_world still (firstn 14 sample_choices) (threads_from sample_programs))))).
Proof.
  apply (promise_value_stays still (firstn 14 sample_choices) (skipn 14 sample_choices) sample_programs 0 0 0 false
    (end_of (run_world still (firstn 14 sample_choices) (threads_from sample_programs)))); [reflexivity|vm_compute; reflexivity| |vm_compute; reflexivity].
  eexists. split; [vm_compute; reflexivity|]. split; reflexivity.
Defined.
Lemma promise_runs_end_witness : told sample_world = [(1%nat, 42)] /\
  Acc (fun w2 w1 => exists c, world_step still c w1 = done w2 /\ match c with run_thread _ _ | wake_up _ => True | _ => False end) sample_world.
Proof. split; [vm_compute; reflexivity|]. apply (promise_runs_end still sample_programs 0 0 0 false sample_choices). vm_compute. reflexivity. Defined.

(** ** What goes wrong *)

Definition two_callbacks : step_outcome (world Z) := run_world still (steps_of (repeat 0%nat 13))
  (threads_from [code_new (fun p => code_when p (tell_as 1) (code_when p (tell_as 2) (code_set p 5 code_end)))]).
Definition callback_then_get : step_outcome (world Z) := run_world still (steps_of [0; 0; 0; 0; 0; 1; 1; 1; 1; 0; 0; 0; 0; 0; 1]%nat)
  (threads_from [code_new (fun p => code_when p (tell_as 1) (code_get p (tell_as 2))); code_set 0 5 code_end]).
Definition two_readers : step_outcome (world Z) := run_world still (steps_of [0; 0; 0; 1; 1; 2; 2; 2; 2; 1; 1; 1; 1; 1; 2]%nat)
  (threads_from [code_new (fun p => code_get p (tell_as 1)); code_get 0 (tell_as 2); code_set 0 5 code_end]).
Definition dropped_pending : step_outcome (world Z) := run_world still (steps_of (repeat 0%nat 6)) (threads_from [code_new (fun p => code_when p (tell_as 1) (code_drop p code_end))]).
Definition stopped_between : step_outcome (world Z) :=
  run_world still (steps_of (repeat 0%nat 6) ++ [change_flags false false] ++ steps_of (repeat 0%nat 2))
    (starts [code_new (fun p => code_when p (tell_as 1) (code_set p 5 code_end))] 0 2 64 true).
(** A second callback replaces the first, which is destroyed uncalled with the reference it holds; [get] does the same to a callback; a promise that is given up
    while a callback waits keeps itself; a scheduler that stops between the two looks at it drops the callback. *)
Theorem promise_callbacks_lost :
  (told_by two_callbacks = Some [(2%nat, 5)] /\ losses_of two_callbacks = [(1, 0, 1)%nat]) /\
  (told_by callback_then_get = Some [(2%nat, 5)] /\ losses_of callback_then_get = [(1, 0, 1)%nat]) /\
  map (fun s => (handles s, count s)) (heap (end_of dropped_pending)) = [(0, 1)%nat] /\
  (told_by stopped_between = Some [] /\ losses_of stopped_between = [(0, 1, 1)%nat] /\ map frames (threads (end_of stopped_between)) = [[]; []; []]).
Proof. repeat split; vm_compute; reflexivity. Qed.

(** The first of two threads that wait for a promise waits for ever. *)
Theorem second_reader_strands_first : exists k, told_by two_readers = Some [(2%nat, 5)] /\ at_rest still (end_of two_readers) /\
  option_map frames (threads (end_of two_readers) !! 0%nat) = Some [frame_block 0 k] /\ option_map is_ready (heap (end_of two_readers) !! 0%nat) = Some true.
Proof. eexists. split; [vm_compute; reflexivity|]. split; [intros [|[|[|i]]] n; vm_compute; reflexivity|]. split; vm_compute; reflexivity. Qed.

(** A task that waits for a task it has made waits for ever: the worker has put it into its own queue, where the idle worker beside it does not look. *)
Definition task_in_task : step_outcome (world Z) := run_world still (steps_of [0; 0; 0; 1; 1; 1; 1; 1; 1; 1; 1; 1]%nat)
  (starts [code_task false (cotask (fun k => k 7) true (fun r => code_get r (tell_as 1))) code_end] 0 2 64 true).
Theorem cotask_get_deadlocks : exists k t, at_rest still (end_of task_in_task) /\ told_by task_in_task = Some [] /\
  threads (end_of task_in_task) = [mk_thread outside [] [] false; mk_thread worker [frame_block 0 k] [t] false; mk_thread worker [] [] false] /\
  active (end_of task_in_task) = true.
Proof. do 2 eexists. split; [intros [|[|[|i]]] n; vm_compute; reflexivity|]. split; [vm_compute; reflexivity|]. split; vm_compute; reflexivity. Qed.

(** A thread that wakes up without a notification leaves while the setter still holds its condition variable. *)
Theorem wake_up_leaves_condition :
  run_world still (steps_of [0; 0; 0; 1; 1; 1]%nat ++ [wake_up 0] ++ steps_of [1]%nat)
    (threads_from [code_new (fun p => code_get p (tell_as 1)); code_set 0 5 code_end]) = failed condition_gone.
Proof. vm_compute. reflexivity. Qed.
