(* ===== verification/Coroutine.v ===== *)
(** * Coroutines: [costate] and its dispatcher (core.cpp 1968-1975, 10692-10954, 11136-11172; core.h 1963-1980, 3642-3700, 5140-5168)

    A coroutine is a fiber with what is left of its program, a finite list of steps.  [costate::dispatch] runs the fibers one after the other on its
    thread, each until it suspends or ends.  [coawait] suspends a coroutine until a promise is settled; Promise.v has the promises, of which
    only the callback that activates the coroutine matters here.  A promise gives it to [parallel_executor]: it is called on the spot where no
    schedule is available, else it becomes a task of [sync], which some thread runs later, or is refused where the schedule stops between the two looks at it.

    Other threads act whenever the dispatcher looks at something they share with it: [co_incoming] holds what they do before each of its looks, which are the
    tries to take a task, the looks at the state of a coroutine, and those at a promise before a coroutine suspends and after it.

    The queue of tasks is moodycamel's, which is not under src/: [take] says which of the tasks it gives out, if any.  A task has the number of
    the thread that gave it, the dispatcher's being 0.  The dispatcher is a thread that calls [trigger] and no worker of the schedule, so
    [fast_bypass_enqueue] declines its tasks and they go to the shared queues. *)
From S2P Require Import Prelude.
From stdpp Require Import list.
Open Scope Z_scope.

Inductive coexecution := co_active | co_suspended | co_resumable | co_finished.
#[export] Instance coexecution_eq_dec : EqDecision coexecution.
Proof. solve_decision. Defined.

Inductive costep :=
| do_tell (n : nat)
| do_suspend
| do_await (p : nat)
| do_settle (p : nat)
| do_spawn (tag : nat).
Definition program : Type := list costep.

(** [coroutine]: the state, the program its callback has left, the promise its deferred function looks at; [co_serial] counts the procedures that
    were given to coroutines. *)
Record coroutine := mk_coroutine { co_state : coexecution; co_serial : nat; co_rest : program; co_defer : option nat }.
Definition set_co_state (x : coexecution) (r : coroutine) : coroutine := mk_coroutine x (co_serial r) (co_rest r) (co_defer r).
Definition set_co_rest (x : program) (r : coroutine) : coroutine := mk_coroutine (co_state r) (co_serial r) x (co_defer r).
Definition set_co_defer (x : option nat) (r : coroutine) : coroutine := mk_coroutine (co_state r) (co_serial r) (co_rest r) x.

(** What another thread does: it settles a promise, runs the task at a place of the queue, starts or stops the schedule, or gives a task. *)
Inductive co_event :=
| other_settles (p : nat)
| other_runs (n : nat)
| other_schedules (available enqueues : bool)
| other_gives (producer tag : nat).

(** [waiters]: the coroutine that the event of a promise activates; [posted]: the coroutines that the tasks of [sync] activate.  [stranded] notes the
    coroutines whose callback was replaced, [refused] those whose task was refused, [popped] the tasks by the serial numbers of their procedures, [said] what these do. *)
Record costate := mk_costate {
  routines : list coroutine; used : list nat; cached : list nat; current : option nat;
  async_queue : list (nat * nat); settled_promises : list nat; waiters : list (nat * nat); stranded : list nat; posted : list nat; refused : list nat;
  schedule_available : bool; schedule_enqueues : bool; co_incoming : list (list co_event); said : list (nat * nat); popped : list (nat * nat) }.
Definition set_routines (x : list coroutine) (s : costate) : costate :=
  mk_costate x (used s) (cached s) (current s) (async_queue s) (settled_promises s) (waiters s) (stranded s) (posted s) (refused s) (schedule_available s) (schedule_enqueues s) (co_incoming s) (said s) (popped s).
Definition set_used (x : list nat) (s : costate) : costate :=
  mk_costate (routines s) x (cached s) (current s) (async_queue s) (settled_promises s) (waiters s) (stranded s) (posted s) (refused s) (schedule_available s) (schedule_enqueues s) (co_incoming s) (said s) (popped s).
Definition set_cached (x : list nat) (s : costate) : costate :=
  mk_costate (routines s) (used s) x (current s) (async_queue s) (settled_promises s) (waiters s) (stranded s) (posted s) (refused s) (schedule_available s) (schedule_enqueues s) (co_incoming s) (said s) (popped s).
Definition set_current (x : option nat) (s : costate) : costate :=
  mk_costate (routines s) (used s) (cached s) x (async_queue s) (settled_promises s) (waiters s) (stranded s) (posted s) (refused s) (schedule_available s) (schedule_enqueues s) (co_incoming s) (said s) (popped s).
Definition set_async (x : list (nat * nat)) (s : costate) : costate :=
  mk_costate (routines s) (used s) (cached s) (current s) x (settled_promises s) (waiters s) (stranded s) (posted s) (refused s) (schedule_available s) (schedule_enqueues s) (co_incoming s) (said s) (popped s).
Definition set_promises (settled : list nat) (waiting : list (nat * nat)) (stranded : list nat) (s : costate) : costate :=
  mk_costate (routines s) (used s) (cached s) (current s) (async_queue s) settled waiting stranded (posted s) (refused s) (schedule_available s) (schedule_enqueues s) (co_incoming s) (said s) (popped s).
Definition set_incoming (x : list (list co_event)) (s : costate) : costate :=
  mk_costate (routines s) (used s) (cached s) (current s) (async_queue s) (settled_promises s) (waiters s) (stranded s) (posted s) (refused s) (schedule_available s) (schedule_enqueues s) x (said s) (popped s).
Definition set_said (x : list (nat * nat)) (s : costate) : costate :=
  mk_costate (routines s) (used s) (cached s) (current s) (async_queue s) (settled_promises s) (waiters s) (stranded s) (posted s) (refused s) (schedule_available s) (schedule_enqueues s) (co_incoming s) x (popped s).
Definition set_popped (x : list (nat * nat)) (s : costate) : costate :=
  mk_costate (routines s) (used s) (cached s) (current s) (async_queue s) (settled_promises s) (waiters s) (stranded s) (posted s) (refused s) (schedule_available s) (schedule_enqueues s) (co_incoming s) (said s) x.
Definition set_tasks (tasks dropped : list nat) (s : costate) : costate :=
  mk_costate (routines s) (used s) (cached s) (current s) (async_queue s) (settled_promises s) (waiters s) (stranded s) tasks dropped (schedule_available s) (schedule_enqueues s) (co_incoming s) (said s) (popped s).
Definition set_schedule (available enqueues : bool) (s : costate) : costate :=
  mk_costate (routines s) (used s) (cached s) (current s) (async_queue s) (settled_promises s) (waiters s) (stranded s) (posted s) (refused s) available enqueues (co_incoming s) (said s) (popped s).
Definition on_routine (r : nat) (f : coroutine -> coroutine) (s : costate) : costate := set_routines (alter f r (routines s)) s.
Definition state_of (r : nat) (s : costate) : coexecution := match routines s !! r with Some c => co_state c | None => co_finished end.
Definition new_costate (co_incoming : list (list co_event)) : costate := mk_costate [] [] [] None [] [] [] [] [] [] true true co_incoming [] [].

(** ** Activation *)

Definition activate (r : nat) (s : costate) : costate :=
  on_routine r (fun c => if decide (co_state c = co_suspended) then set_co_state co_resumable c else c) s.
(** The callbacks of the coroutines [rs] are given to [parallel_executor], by [set_task] where the schedule is available. *)
Definition execute_callbacks (rs : list nat) (s : costate) : costate :=
  if schedule_available s then
    if schedule_enqueues s then set_tasks (posted s ++ rs) (refused s) s else set_tasks (posted s) (rs ++ refused s) s
  else foldr activate s rs.
(** A promise is settled: its event is taken and executed. *)
Definition settle_promise (p : nat) (s : costate) : costate :=
  if decide (p ∈ settled_promises s) then s
  else execute_callbacks (map snd (filter (fun w => w.1 = p) (waiters s)))
         (set_promises (p :: settled_promises s) (filter (fun w => w.1 <> p) (waiters s)) (stranded s) s).
(** A thread of the schedule runs a task. *)
Definition run_posted (n : nat) (s : costate) : costate :=
  match posted s !! n with Some r => activate r (set_tasks (delete n (posted s)) (refused s) s) | None => s end.
(** [set_coroutine], which a schedule that stops refuses. *)
Definition set_coroutine (producer tag : nat) (s : costate) : costate :=
  if schedule_enqueues s then set_async (async_queue s ++ [(producer, tag)]) s else s.
Definition other_step (s : costate) (e : co_event) : costate :=
  match e with
  | other_settles p => settle_promise p s
  | other_runs n => run_posted n s
  | other_schedules available enqueues => set_schedule available enqueues s
  | other_gives producer tag => set_coroutine producer tag s
  end.
Definition others (s : costate) : costate := fold_left other_step (default [] (head (co_incoming s))) (set_incoming (tail (co_incoming s)) s).
(** [future.when] of the function that [coawait] defers: the event of the promise is replaced. *)
Definition await_event (p r : nat) (s : costate) : costate :=
  if decide (p ∈ settled_promises s) then activate r s
  else set_promises (settled_promises s) ((p, r) :: filter (fun w => w.1 <> p) (waiters s)) (map snd (filter (fun w => w.1 = p) (waiters s)) ++ stranded s) s.

Section Dispatch.
(** The procedures by their tags; the order in which the unordered sets are gone through; the place of the task that [try_dequeue] takes out, given
    the tasks it has given out and those it holds. *)
Context (procedure : nat -> program) (arrange : list nat -> list nat) (take : list (nat * nat) -> list (nat * nat) -> option nat).

(** [pop]: a coroutine of the cache, or a new one. *)
Definition pop (task : nat * nat) (s : costate) : costate :=
  let serial := length (popped s) in
  let s := set_popped (popped s ++ [task]) s in
  match arrange (cached s) with
  | r :: _ =>
      let s := on_routine r (fun c => mk_coroutine co_active serial (procedure task.2) (co_defer c)) s in
      set_used (r :: used s) (set_cached (remove Nat.eq_dec r (cached s)) s)
  | [] => set_used (length (routines s) :: used s) (set_routines (routines s ++ [mk_coroutine co_active serial (procedure task.2) None]) s)
  end.
Definition reuse (r : nat) (s : costate) : costate :=
  set_cached (r :: cached s) (set_used (remove Nat.eq_dec r (used s)) (on_routine r (fun c => set_co_state co_active (set_co_defer None c)) s)).

(** The fiber runs until it switches back to [master]. *)
Fixpoint run_fiber (r serial : nat) (code : program) (s : costate) : costate :=
  match code with
  | [] => set_current None (on_routine r (fun c => set_co_state co_finished (set_co_defer None (set_co_rest [] c))) s)
  | do_tell n :: code => run_fiber r serial code (set_said (said s ++ [(serial, n)]) s)
  | do_settle p :: code => run_fiber r serial code (settle_promise p s)
  | do_spawn t :: code => run_fiber r serial code (set_coroutine 0 t s)
  | do_suspend :: code => set_current None (on_routine r (set_co_rest code) s)
  | do_await p :: code =>
      let s := others s in
      if decide (p ∈ settled_promises s) then run_fiber r serial code s
      else set_current None (on_routine r (fun c => set_co_state co_suspended (set_co_defer (Some p) (set_co_rest code c))) s)
  end.
(** The deferred function. *)
Definition run_defer (r : nat) (s : costate) : costate :=
  match routines s !! r with
  | Some c =>
      match co_defer c with
      | Some p =>
          let s := others s in
          on_routine r (set_co_defer None) (await_event p r s)
      | None => s
      end
  | None => s
  end.
Definition co_execute (r : nat) (s : costate) : costate * coexecution :=
  match routines s !! r with
  | None => (s, co_finished)
  | Some c =>
      if decide (co_state c = co_suspended) then (s, co_suspended)
      else
        let s := on_routine r (fun c => if decide (co_state c = co_resumable) then set_co_state co_active c else c) s in
        let s := run_defer r (run_fiber r (co_serial c) (co_rest c) (set_current (Some r) s)) in
        (s, if decide (state_of r s = co_finished) then co_finished else co_active)
  end.
(** [resume]: nothing happens to the coroutine that runs or to one that has ended. *)
Definition resume (r : nat) (s : costate) : costate * coexecution :=
  if decide (current s = Some r) then (s, co_active)
  else if decide (state_of r s = co_finished) then (s, co_finished)
  else co_execute r s.

(** One pass through the used coroutines, given up at the first that ends; the count of executions. *)
Fixpoint dispatch_pass (rs : list nat) (s : costate) (executions : nat) : costate * nat * bool :=
  match rs with
  | [] => (s, executions, false)
  | r :: rs =>
      match co_execute r (others s) with
      | (s, co_active) => dispatch_pass rs s (S executions)
      | (s, co_finished) => (reuse r s, S executions, true)
      | (s, _) => dispatch_pass rs s executions
      end
  end.
Fixpoint dispatch_loop (fuel : nat) (s : costate) (executions : nat) : option (costate * nat) :=
  match fuel with
  | O => None
  | S fuel =>
      match dispatch_pass (arrange (used s)) s executions with
      | (s, executions, true) => dispatch_loop fuel s executions
      | (s, executions, false) => Some (s, executions)
      end
  end.
(** [co_dispatch] with fuel for every retry: each returns a coroutine to the cache. *)
Definition co_dispatch (s : costate) : option (costate * bool) :=
  match dispatch_loop (S (length (used s))) s 0 with Some (s, n) => Some (s, (0 <? n)%nat) | None => None end.

Definition has_resumable_coroutines (s : costate) : bool := existsb (fun r => bool_decide (state_of r s = co_active \/ state_of r s = co_resumable)) (used s).
Definition has_alive_coroutines (s : costate) : bool := existsb (fun r => negb (bool_decide (state_of r s = co_finished))) (used s).
Definition has_coroutines (s : costate) : bool := negb (bool_decide (used s = [])).

(** [schedule::trigger] for coroutines: new ones up to the limit, then passes as long as one of them runs something. *)
Definition try_dequeue (s : costate) : option (nat * nat * list (nat * nat)) :=
  match take (popped s) (async_queue s) with
  | Some i => match async_queue s !! i with Some task => Some (task, delete i (async_queue s)) | None => None end
  | None => None
  end.
Fixpoint pop_tasks (cache : nat) (s : costate) (executions : nat) : costate * nat :=
  match cache with
  | O => (s, executions)
  | S cache =>
      let s := others s in
      match try_dequeue s with Some (task, q) => pop_tasks cache (pop task (set_async q s)) (S executions) | None => (s, executions) end
  end.
Fixpoint dispatch_rounds (fuel : nat) (s : costate) (executions : nat) : option (costate * nat) :=
  match fuel with
  | O => None
  | S fuel => match co_dispatch s with Some (s, true) => dispatch_rounds fuel s (S executions) | Some (s, false) => Some (s, executions) | None => None end
  end.
Definition trigger_async (fuel : nat) (is_suspended : bool) (max_coroutines : nat) (s : costate) : option (costate * bool) :=
  if is_suspended then Some (s, has_coroutines s)
  else
    let active := length (used s) in
    let (s, executions) := pop_tasks (Z.to_nat (u64 (Z.of_nat max_coroutines - Z.of_nat active))) s active in
    match dispatch_rounds fuel s executions with Some (s, executions) => Some (s, (0 <? executions)%nat) | None => None end.
End Dispatch.
