(* ===== verification/CoroutineFacts.v ===== *)
(** * Coroutines: invariants of the dispatcher *)
From S2P Require Import Prelude Coroutine.
From stdpp Require Import list.
Open Scope Z_scope.

(** What a program says, and what was said under a serial number. *)
Definition says (code : program) : list nat := omap (fun x => match x with do_tell n => Some n | _ => None end) code.
Definition said_by (i : nat) (l : list (nat * nat)) : list nat := map snd (filter (fun x => x.1 = i) l).
Lemma said_by_app i l l' : said_by i (l ++ l') = said_by i l ++ said_by i l'.
Proof. unfold said_by. now rewrite filter_app, map_app. Qed.

(** ** Activation *)

Definition awoken (c : coroutine) : coroutine := if decide (co_state c = co_suspended) then set_co_state co_resumable c else c.
Lemma woken_twice c : awoken (awoken c) = awoken c.
Proof. unfold awoken. destruct (decide (co_state c = co_suspended)) as [E|N]; cbn; [now rewrite decide_False|now rewrite decide_False]. Qed.
Lemma lookup_on_routine r f s r' : routines (on_routine r f s) !! r' = if decide (r = r') then f <$> routines s !! r' else routines s !! r'.
Proof. unfold on_routine, set_routines; cbn [routines]. rewrite list_lookup_alter. now destruct (decide (r = r')) as [->|]. Qed.

(** Everything but the coroutines. *)
Record same_rest (s s' : costate) : Prop := mk_same_rest {
  rest_used : used s' = used s; rest_cached : cached s' = cached s; rest_current : current s' = current s; rest_async : async_queue s' = async_queue s;
  rest_settled : settled_promises s' = settled_promises s; rest_waiters : waiters s' = waiters s; rest_stranded : stranded s' = stranded s; rest_posted : posted s' = posted s; rest_refused : refused s' = refused s;
  rest_available : schedule_available s' = schedule_available s; rest_enqueues : schedule_enqueues s' = schedule_enqueues s;
  rest_incoming : co_incoming s' = co_incoming s; rest_said : said s' = said s; rest_popped : popped s' = popped s }.
Lemma on_routine_rest r f s : same_rest s (on_routine r f s).
Proof. split; reflexivity. Qed.
Lemma same_rest_trans a b c : same_rest a b -> same_rest b c -> same_rest a c.
Proof. intros [] []. split; congruence. Qed.

Lemma activate_lookup r s r' : routines (activate r s) !! r' = if decide (r = r') then awoken <$> routines s !! r' else routines s !! r'.
Proof. apply lookup_on_routine. Qed.
Lemma wake_all_rest (ws : list nat) s : same_rest s (foldr activate s ws).
Proof. induction ws as [|w ws IH]; [split; reflexivity|]. cbn. eapply same_rest_trans; [exact IH|]. apply on_routine_rest. Qed.
Lemma wake_all_lookup (ws : list nat) s r :
  routines (foldr activate s ws) !! r = if decide (r ∈ ws) then awoken <$> routines s !! r else routines s !! r.
Proof.
  induction ws as [|r' ws IH]; [now rewrite decide_False by apply not_elem_of_nil|].
  cbn [foldr]. rewrite activate_lookup, IH.
  destruct (decide (r' = r)) as [->|N].
  - rewrite (decide_True (P := r ∈ r :: ws)) by left. destruct (decide (r ∈ ws)); [|reflexivity]. destruct (routines s !! r); cbn; [|reflexivity]. f_equal. apply woken_twice.
  - destruct (decide (r ∈ ws)) as [I|I]; [rewrite decide_True by (now right); reflexivity|]. rewrite decide_False; [reflexivity|]. intros [->|H]%elem_of_cons; tauto.
Qed.
Lemma set_tasks_same s : set_tasks (posted s) (refused s) s = s.
Proof. now destruct s. Qed.

Lemma first_unique (l : list (nat * nat)) p q r : NoDup (map snd l) -> (p, r) ∈ l -> (q, r) ∈ l -> p = q.
Proof.
  induction l as [|[a b] l IH]; intros ND; [intros H; now apply not_elem_of_nil in H|]. cbn in ND. apply NoDup_cons in ND as [Nb ND].
  intros [E|H1]%elem_of_cons [E'|H2]%elem_of_cons.
  - congruence.
  - injection E as -> ->. exfalso. apply Nb, list_elem_of_fmap. exists (q, b). auto.
  - injection E' as -> ->. exfalso. apply Nb, list_elem_of_fmap. exists (p, b). auto.
  - auto.
Qed.

Lemma filter_unique (l : list (nat * nat)) p : NoDup (map snd l) -> NoDup (map snd (filter (fun w => w.1 <> p) l)).
Proof.
  induction l as [|[a b] l IH]; intros ND; [constructor|]. cbn in ND. apply NoDup_cons in ND as [Nb ND]. cbn [filter list_filter]. destruct (decide _); [|auto].
  cbn. apply NoDup_cons. split; [|auto]. intros ([a' b'] & -> & H)%list_elem_of_fmap. apply list_elem_of_filter in H as [_ H]. apply Nb, list_elem_of_fmap. exists (a', b'). auto.
Qed.

(** ** The invariant

    [co_ok x s]: nothing is asked of the coroutine [x], which runs. *)
Section Invariant.
Context (procedure : nat -> program).

Definition traced (s : costate) (c : coroutine) (code : program) : Prop :=
  exists t, popped s !! co_serial c = Some t /\ said_by (co_serial c) (said s) ++ says code = says (procedure t.2).
(** Where the activation of a suspended coroutine is. *)
Definition accounted (r : nat) (s : costate) : Prop := (r ∈ stranded s) \/ (r ∈ refused s) \/ (r ∈ posted s) \/ exists p, (p, r) ∈ waiters s.
Record co_ok (x : option nat) (s : costate) : Prop := mk_co_ok {
  ok_nodup : NoDup (used s ++ cached s);
  ok_valid : forall r, r ∈ used s ++ cached s -> is_Some (routines s !! r);
  ok_cached : forall r c, r ∈ cached s -> routines s !! r = Some c -> co_defer c = None;
  ok_used : forall r c, r ∈ used s -> Some r <> x -> routines s !! r = Some c -> co_state c <> co_finished /\ co_defer c = None /\ traced s c (co_rest c);
  ok_waiting : forall r c, r ∈ used s -> Some r <> x -> routines s !! r = Some c -> co_state c = co_suspended -> accounted r s;
  ok_waiters : forall p r, (p, r) ∈ waiters s -> (p ∉ settled_promises s) /\ (r ∈ used s) /\ Some r <> x /\ state_of r s = co_suspended;
  ok_posted : forall r, r ∈ posted s -> (r ∈ used s) /\ Some r <> x /\ state_of r s = co_suspended;
  ok_one : NoDup (map snd (waiters s) ++ posted s);
  ok_serials : forall r r' c c', r ∈ used s -> r' ∈ used s -> routines s !! r = Some c -> routines s !! r' = Some c' -> co_serial c = co_serial c' -> r = r';
  ok_done : forall i t, popped s !! i = Some t -> (exists r c, (r ∈ used s) /\ routines s !! r = Some c /\ co_serial c = i) \/ said_by i (said s) = says (procedure t.2);
  ok_said : forall i n, (i, n) ∈ said s -> (i < length (popped s))%nat }.

(** The activations change places, and nobody's is lost. *)
Lemma regroup_ok x s settled W S T D : co_ok x s -> NoDup (map snd W ++ T) ->
  (forall p r, (p, r) ∈ W -> (p, r) ∈ waiters s /\ p ∉ settled) -> (forall r, r ∈ T -> r ∈ posted s \/ exists p, (p, r) ∈ waiters s) ->
  (forall r, accounted r s -> (r ∈ S) \/ (r ∈ D) \/ (r ∈ T) \/ exists p, (p, r) ∈ W) -> co_ok x (set_tasks T D (set_promises settled W S s)).
Proof.
  intros O ND HW HT HA. split; try exact (ok_nodup _ _ O); try exact (ok_valid _ _ O); try exact (ok_cached _ _ O); try exact (ok_used _ _ O); try exact (ok_serials _ _ O); try exact (ok_done _ _ O); try exact (ok_said _ _ O).
  - intros r c H N E Sp. exact (HA r (ok_waiting _ _ O r c H N E Sp)).
  - intros p r H. destruct (HW p r H) as [W' Np]. destruct (ok_waiters _ _ O p r W') as (_ & B). split; [exact Np|exact B].
  - intros r H. destruct (HT r H) as [P|[p P]]; [exact (ok_posted _ _ O r P)|apply (ok_waiters _ _ O p r P)].
  - exact ND.
Qed.
(** A task activates its coroutine. *)
Lemma wake_ok x s r q : co_ok x s -> posted s ≡ₚ r :: q -> co_ok x (activate r (set_tasks q (refused s) s)).
Proof.
  intros O P. destruct (ok_posted _ _ O r ltac:(rewrite P; left)) as (U & Nx & Sp).
  pose proof (ok_one _ _ O) as ND. rewrite P, <- Permutation_middle in ND. apply NoDup_cons in ND as [Nr ND].
  assert (Lk : forall r', routines (activate r (set_tasks q (refused s) s)) !! r' = if decide (r = r') then awoken <$> routines s !! r' else routines s !! r') by (intros r'; apply (activate_lookup r (set_tasks q (refused s) s))).
  assert (Lk' : forall r' c', routines (activate r (set_tasks q (refused s) s)) !! r' = Some c' ->
    exists c, routines s !! r' = Some c /\ co_serial c' = co_serial c /\ co_rest c' = co_rest c /\ co_defer c' = co_defer c /\ (r' <> r -> c' = c) /\ (r' = r -> co_state c' = co_resumable)).
  { intros r' c' E. rewrite Lk in E. destruct (decide (r = r')) as [<-|N]; [|exists c'; repeat split; auto; congruence].
    unfold state_of in Sp. destruct (routines s !! r) as [c|]; [|discriminate]. injection E as <-. exists c. unfold awoken. rewrite decide_True by exact Sp. repeat split; tauto. }
  split; try exact (ok_nodup _ _ O); try exact (ok_said _ _ O).
  - intros r' H. rewrite Lk. destruct (ok_valid _ _ O r' H) as [c E]. destruct (decide _) as [<-|]; rewrite E; cbn; eauto.
  - intros r' c' H E. destruct (Lk' r' c' E) as (c & Ec & _ & _ & -> & _). exact (ok_cached _ _ O r' c H Ec).
  - intros r' c' H N E. destruct (Lk' r' c' E) as (c & Ec & S1 & S2 & S3 & S4 & S5). destruct (ok_used _ _ O r' c H N Ec) as (A & B & C).
    split; [destruct (decide (r' = r)) as [->|N']; [rewrite S5 by reflexivity; discriminate|rewrite S4 by exact N'; exact A]|]. split; [congruence|]. unfold traced. rewrite S1, S2. exact C.
  - intros r' c' H N E Sp'. destruct (Lk' r' c' E) as (c & Ec & _ & _ & _ & S4 & S5). assert (N' : r' <> r) by (intros ->; rewrite S5 in Sp' by reflexivity; discriminate).
    rewrite S4 in Sp' by exact N'. destruct (ok_waiting _ _ O r' c H N Ec Sp') as [?|[?|[Q|?]]]; [now left|right; now left| |right; right; now right].
    right; right; left. rewrite P in Q. apply elem_of_cons in Q as [->|Q]; [now destruct N'|exact Q].
  - intros p r' H. destruct (ok_waiters _ _ O p r' H) as (A & B & C & D). split; [exact A|]. split; [exact B|]. split; [exact C|]. unfold state_of in *. rewrite Lk, decide_False; [exact D|].
    intros <-. apply Nr, elem_of_app. left. apply list_elem_of_fmap. exists (p, r). auto.
  - intros r' H. change (r' ∈ q) in H. destruct (ok_posted _ _ O r' ltac:(rewrite P; now right)) as (A & B & C). split; [exact A|]. split; [exact B|]. unfold state_of in *. rewrite Lk, decide_False; [exact C|].
    intros <-. apply Nr, elem_of_app. now right.
  - exact ND.
  - intros r1 r2 c1 c2 H1 H2 E1 E2. destruct (Lk' r1 c1 E1) as (d1 & D1 & -> & _), (Lk' r2 c2 E2) as (d2 & D2 & -> & _). exact (ok_serials _ _ O r1 r2 d1 d2 H1 H2 D1 D2).
  - intros i t E. destruct (ok_done _ _ O i t E) as [(r' & c & Hr & Ec & Si)|D]; [left|now right].
    exists r'. rewrite Lk, Ec. destruct (decide _); cbn; eexists; (split; [exact Hr|]); (split; [reflexivity|]); [unfold awoken; now destruct (decide _)|exact Si].
Qed.
Lemma wake_all_ok x ws : forall q s, co_ok x (set_tasks (q ++ ws) (refused s) s) -> co_ok x (set_tasks q (refused s) (foldr activate s ws)).
Proof.
  induction ws as [|w ws IH]; intros q s O; [now rewrite app_nil_r in O|]. specialize (IH (q ++ [w]) s). rewrite <- app_assoc in IH. specialize (IH O). cbn [foldr].
  apply (wake_ok x _ w q) in IH; [exact IH|]. cbn [posted set_tasks]. symmetry. apply Permutation_cons_append.
Qed.

Lemma waiting_split s p : map snd (waiters s) ≡ₚ map snd (filter (fun w => w.1 = p) (waiters s)) ++ map snd (filter (fun w => w.1 <> p) (waiters s)).
Proof. rewrite <- map_app. apply Permutation_map. symmetry. apply (filter_app_complement (fun w : nat * nat => w.1 = p)). Qed.
Lemma settle_ok x p s : co_ok x s -> co_ok x (settle_promise p s).
Proof.
  intros O. unfold settle_promise. destruct (decide _) as [|Np]; [exact O|]. set (ws := map snd _). set (W := filter (fun w => w.1 <> p) (waiters s)).
  pose proof (ok_one _ _ O) as ND. rewrite (waiting_split s p) in ND. fold ws W in ND.
  assert (Ws : forall r, r ∈ ws -> (p, r) ∈ waiters s).
  { intros r ([q r'] & -> & H)%list_elem_of_fmap. apply list_elem_of_filter in H as [Eq H]. cbn in Eq. now subst q. }
  assert (HW : forall q r, (q, r) ∈ W -> (q, r) ∈ waiters s /\ q ∉ p :: settled_promises s).
  { intros q r [Nq H]%list_elem_of_filter. split; [exact H|]. cbn in Nq. destruct (ok_waiters _ _ O q r H) as [N _]. apply not_elem_of_cons. auto. }
  assert (HA : forall r, accounted r s -> (r ∈ stranded s) \/ (r ∈ refused s) \/ (r ∈ posted s) \/ (r ∈ ws) \/ exists q, (q, r) ∈ W).
  { intros r [?|[?|[?|[q Q]]]]; auto. do 3 right. destruct (decide (q = p)) as [->|N]; [left|right; exists q; apply list_elem_of_filter; auto].
    apply list_elem_of_fmap. exists (p, r). split; [reflexivity|]. apply list_elem_of_filter. auto. }
  assert (Post : co_ok x (set_tasks (posted s ++ ws) (refused s) (set_promises (p :: settled_promises s) W (stranded s) s))).
  { apply regroup_ok; auto.
    - revert ND. rewrite (Permutation_app_comm ws), (Permutation_app_comm (posted s) ws), <- app_assoc. auto.
    - intros r [H|H]%elem_of_app; [now left|right; exists p; auto].
    - intros r H%HA. rewrite elem_of_app. tauto. }
  unfold execute_callbacks. cbn [schedule_available schedule_enqueues posted refused set_promises]. destruct (schedule_available s); [destruct (schedule_enqueues s); [exact Post|]|].
  - apply regroup_ok; auto.
    + apply NoDup_app in ND as (N1 & N2 & N3). apply NoDup_app in N1 as (_ & _ & N1). apply NoDup_app. split; [exact N1|]. split; [|exact N3]. intros r H. apply N2. apply elem_of_app. now right.
    + intros r H%HA. rewrite elem_of_app. tauto.
  - apply (wake_all_ok x ws (posted s) (set_promises (p :: settled_promises s) W (stranded s) s)) in Post. cbn [refused set_promises] in Post.
    pose proof (wake_all_rest ws (set_promises (p :: settled_promises s) W (stranded s) s)) as R. set (s1 := foldr activate _ ws) in *.
    replace s1 with (set_tasks (posted s) (refused s) s1); [exact Post|]. transitivity (set_tasks (posted s1) (refused s1) s1); [|apply set_tasks_same]. now rewrite (rest_posted _ _ R), (rest_refused _ _ R).
Qed.
Lemma run_posted_ok x n s : co_ok x s -> co_ok x (run_posted n s).
Proof.
  intros O. unfold run_posted. destruct (posted s !! n) as [r|] eqn:E; [|exact O]. apply wake_ok; [exact O|]. now apply delete_Permutation.
Qed.

(** ** Other threads

    [drifted s s']: what they do to what the dispatcher has. *)
Record drifted (s s' : costate) : Prop := mk_drifted {
  dr_used : used s' = used s; dr_cached : cached s' = cached s; dr_current : current s' = current s; dr_popped : popped s' = popped s; dr_said : said s' = said s;
  dr_incoming : co_incoming s = [] -> co_incoming s' = []; dr_queue : exists more, async_queue s' = async_queue s ++ more;
  dr_routines : forall r, routines s' !! r = routines s !! r \/ routines s' !! r = awoken <$> routines s !! r }.
Lemma drifted_refl s : drifted s s.
Proof. split; auto. exists []. now rewrite app_nil_r. Qed.
Lemma drifted_trans a b c : drifted a b -> drifted b c -> drifted a c.
Proof.
  intros [? ? ? ? ? I [m M] R] [? ? ? ? ? I' [m' M'] R']. split; try congruence; [auto|exists (m ++ m'); rewrite M', M; symmetry; apply app_assoc|].
  intros r. destruct (R r) as [E|E], (R' r) as [E'|E']; rewrite E', E; auto. right. destruct (routines a !! r); cbn; [|reflexivity]. f_equal. apply woken_twice.
Qed.
Lemma wake_all_drifts ws s : drifted s (foldr activate s ws).
Proof.
  destruct (wake_all_rest ws s). split; auto; [congruence|exists []; now rewrite app_nil_r|]. intros r. rewrite wake_all_lookup. destruct (decide _); auto.
Qed.
Lemma settle_drifts p s : drifted s (settle_promise p s).
Proof.
  unfold settle_promise. destruct (decide _); [apply drifted_refl|]. set (s1 := set_promises _ _ _ s). set (ws := map snd _).
  assert (D : drifted s s1) by (split; auto; exists []; now rewrite app_nil_r). apply (drifted_trans _ s1); [exact D|]. unfold execute_callbacks. destruct (schedule_available s1); [|apply wake_all_drifts].
  destruct (schedule_enqueues s1); split; auto; exists []; now rewrite app_nil_r.
Qed.
Lemma run_posted_drifts n s : drifted s (run_posted n s).
Proof.
  unfold run_posted. destruct (posted s !! n) as [r|]; [|apply drifted_refl]. set (s1 := set_tasks _ _ s). apply (drifted_trans _ s1); [split; auto; exists []; now rewrite app_nil_r|]. exact (wake_all_drifts [r] s1).
Qed.
Lemma set_coroutine_drifts a t s : drifted s (set_coroutine a t s).
Proof. unfold set_coroutine. destruct (schedule_enqueues s); [|apply drifted_refl]. split; auto. cbn. eauto. Qed.
Lemma other_drifts s e : drifted s (other_step s e).
Proof. destruct e; [apply settle_drifts|apply run_posted_drifts|split; auto; exists []; now rewrite app_nil_r|apply set_coroutine_drifts]. Qed.
Lemma others_drift s : drifted s (others s).
Proof.
  unfold others. apply (drifted_trans _ (set_incoming (tail (co_incoming s)) s)); [split; auto; [now intros E; cbn; rewrite E|exists []; now rewrite app_nil_r]|].
  generalize (default [] (head (co_incoming s))) (set_incoming (tail (co_incoming s)) s). intros es. induction es as [|e es IH]; intros s1; [apply drifted_refl|]. cbn. eapply drifted_trans; [apply other_drifts|apply IH].
Qed.
Lemma others_none s : co_incoming s = [] -> others s = s.
Proof. unfold others. intros E. rewrite E. destruct s. cbn in E. now subst. Qed.

(** They do nothing to the coroutine that runs. *)
Lemma not_waiting r p s : co_ok (Some r) s -> r ∉ map snd (filter (fun w => w.1 = p) (waiters s)).
Proof. intros O ([q r'] & -> & H)%list_elem_of_fmap. apply list_elem_of_filter in H as [_ H]. destruct (ok_waiters _ _ O q _ H) as (_ & _ & N & _). now apply N. Qed.
Lemma settle_runs r p s : co_ok (Some r) s -> routines (settle_promise p s) !! r = routines s !! r.
Proof.
  intros O. pose proof (not_waiting r p s O) as N. unfold settle_promise. destruct (decide _); [reflexivity|]. unfold execute_callbacks. cbn [schedule_available schedule_enqueues set_promises].
  destruct (schedule_available s); [now destruct (schedule_enqueues s)|]. rewrite wake_all_lookup, decide_False by exact N. reflexivity.
Qed.
Lemma run_posted_runs r n s : co_ok (Some r) s -> routines (run_posted n s) !! r = routines s !! r.
Proof.
  intros O. unfold run_posted. destruct (posted s !! n) as [r'|] eqn:E; [|reflexivity]. rewrite activate_lookup, decide_False; [reflexivity|]. intros ->.
  destruct (ok_posted _ _ O r) as (_ & N & _); [eapply list_elem_of_lookup_2; exact E|now apply N].
Qed.
Lemma set_async_ok x y s : co_ok x s -> co_ok x (set_async y s).
Proof. intros []. split; assumption. Qed.
Lemma set_incoming_ok x y s : co_ok x s -> co_ok x (set_incoming y s).
Proof. intros []. split; assumption. Qed.
Lemma set_coroutine_ok x a t s : co_ok x s -> co_ok x (set_coroutine a t s).
Proof. intros O. unfold set_coroutine. destruct (schedule_enqueues s); [now apply set_async_ok|exact O]. Qed.
Lemma other_ok x e s : co_ok x s -> co_ok x (other_step s e).
Proof. intros O. destruct e; [now apply settle_ok|now apply run_posted_ok|destruct O; split; assumption|now apply set_coroutine_ok]. Qed.
Lemma other_runs_ok r e s : co_ok (Some r) s -> routines (other_step s e) !! r = routines s !! r.
Proof. intros O. destruct e; [now apply settle_runs|now apply run_posted_runs|reflexivity|]. cbn. unfold set_coroutine. now destruct (schedule_enqueues s). Qed.
Lemma others_ok x s : co_ok x s -> co_ok x (others s) /\ forall r, x = Some r -> routines (others s) !! r = routines s !! r.
Proof.
  intros O. unfold others. apply (set_incoming_ok x (tail (co_incoming s))) in O. change (routines s) with (routines (set_incoming (tail (co_incoming s)) s)).
  revert O. generalize (default [] (head (co_incoming s))) (set_incoming (tail (co_incoming s)) s). intros es. induction es as [|e es IH]; intros s1 O; [auto|]. cbn.
  destruct (IH (other_step s1 e) (other_ok x e s1 O)) as [A B]. split; [exact A|]. intros r ->. rewrite B by reflexivity. now apply other_runs_ok.
Qed.

(** ** The coroutine that runs *)

(** [co_in r s c]: [c] is the used coroutine [r]. *)
Definition co_in (r : nat) (s : costate) (c : coroutine) : Prop := (r ∈ used s) /\ routines s !! r = Some c.

Lemma used_not_cached x s r : co_ok x s -> r ∈ used s -> r ∉ cached s.
Proof. intros O U. pose proof (ok_nodup x s O) as ND. apply NoDup_app in ND as (_ & D & _). auto. Qed.
Lemma update_running r f s : co_ok (Some r) s -> r ∈ used s -> (forall c, co_serial (f c) = co_serial c) -> co_ok (Some r) (on_routine r f s).
Proof.
  intros O U F.
  assert (Lk : forall r' c', routines (on_routine r f s) !! r' = Some c' -> exists c, routines s !! r' = Some c /\ co_serial c' = co_serial c /\ (r' <> r -> c' = c)).
  { intros r' c' E. rewrite lookup_on_routine in E. destruct (decide (r = r')) as [<-|N]; [|exists c'; auto]. destruct (routines s !! r) as [c|]; [|discriminate]. injection E as <-. exists c. repeat split; [apply F|tauto]. }
  assert (Other : forall r' c', Some r' <> Some r -> routines (on_routine r f s) !! r' = Some c' -> routines s !! r' = Some c').
  { intros r' c' N E. destruct (Lk r' c' E) as (c & Ec & _ & ->); [exact Ec|congruence]. }
  split; try exact (ok_nodup _ _ O); try exact (ok_one _ _ O); try exact (ok_said _ _ O).
  - intros r' H. rewrite lookup_on_routine. destruct (ok_valid _ _ O r' H) as [c Ec]. destruct (decide _) as [<-|]; rewrite Ec; cbn; eauto.
  - intros r' c' H E. refine (ok_cached _ _ O r' c' H (Other r' c' _ E)). intros [= ->]. exact (used_not_cached _ _ _ O U H).
  - intros r' c' H N E. exact (ok_used _ _ O r' c' H N (Other r' c' N E)).
  - intros r' c' H N E. exact (ok_waiting _ _ O r' c' H N (Other r' c' N E)).
  - intros p r' H. destruct (ok_waiters _ _ O p r' H) as (A & B & N & C). repeat split; auto. unfold state_of in *. rewrite lookup_on_routine, decide_False by congruence. exact C.
  - intros r' H. destruct (ok_posted _ _ O r' H) as (A & N & C). repeat split; auto. unfold state_of in *. rewrite lookup_on_routine, decide_False by congruence. exact C.
  - intros r1 r2 c1 c2 H1 H2 E1 E2 Es. destruct (Lk r1 c1 E1) as (d1 & D1 & S1 & _), (Lk r2 c2 E2) as (d2 & D2 & S2 & _). apply (ok_serials _ _ O r1 r2 d1 d2 H1 H2 D1 D2). congruence.
  - intros i t E. destruct (ok_done _ _ O i t E) as [(r' & c & Hr & Ec & Si)|D]; [left|now right]. exists r'. rewrite lookup_on_routine, Ec. destruct (decide _); cbn; eexists; (split; [exact Hr|]); (split; [reflexivity|]); [now rewrite F|exact Si].
Qed.

Lemma say_ok r s c n : co_ok (Some r) s -> co_in r s c -> (co_serial c < length (popped s))%nat -> co_ok (Some r) (set_said (said s ++ [(co_serial c, n)]) s).
Proof.
  intros O [U E] L.
  assert (Sb : forall i, i <> co_serial c -> said_by i (said s ++ [(co_serial c, n)]) = said_by i (said s)).
  { intros i N. rewrite said_by_app. unfold said_by at 2. rewrite filter_cons_False by (cbn; congruence). apply app_nil_r. }
  split; try exact (ok_nodup _ _ O); try exact (ok_valid _ _ O); try exact (ok_cached _ _ O); try exact (ok_waiting _ _ O); try exact (ok_waiters _ _ O); try exact (ok_posted _ _ O); try exact (ok_one _ _ O); try exact (ok_serials _ _ O).
  - intros r' c' H N E'. destruct (ok_used _ _ O r' c' H N E') as (A & B & t & Et & T). split; [exact A|]. split; [exact B|]. exists t. split; [exact Et|]. cbn [said set_said]. rewrite Sb; [exact T|].
    intros Es. apply N. f_equal. exact (ok_serials _ _ O r' r c' c H U E' E Es).
  - intros i t Ei. cbn [said set_said]. destruct (decide (i = co_serial c)) as [->|N]; [left; exists r, c; auto|]. rewrite Sb by exact N. exact (ok_done _ _ O i t Ei).
  - intros i m H. cbn in *. apply elem_of_app in H as [H|H]; [exact (ok_said _ _ O i m H)|]. apply list_elem_of_singleton in H. injection H as -> _. exact L.
Qed.

Lemma enter_running r s : co_ok None s -> state_of r s <> co_suspended -> co_ok (Some r) s.
Proof.
  intros [] N. split; auto.
  - intros r' c H _. now apply ok_used0.
  - intros r' c H _. now apply ok_waiting0.
  - intros p r' H. destruct (ok_waiters0 p r' H) as (A & B & _ & C). repeat split; auto. congruence.
  - intros r' H. destruct (ok_posted0 r' H) as (A & _ & C). repeat split; auto. congruence.
Qed.
Lemma leave_running r s c : co_ok (Some r) s -> routines s !! r = Some c -> co_state c <> co_finished -> co_defer c = None -> traced s c (co_rest c) ->
  (co_state c = co_suspended -> accounted r s) -> co_ok None s.
Proof.
  intros [] E A B T W. split; auto.
  - intros r' c' H _ E'. destruct (decide (r' = r)) as [->|N]; [|apply (ok_used0 r' c' H); congruence]. rewrite E in E'. injection E' as <-. auto.
  - intros r' c' H _ E'. destruct (decide (r' = r)) as [->|N]; [|apply (ok_waiting0 r' c' H); congruence]. rewrite E in E'. injection E' as <-. auto.
  - intros p r' H. destruct (ok_waiters0 p r' H) as (? & ? & _ & ?). auto.
  - intros r' H. destruct (ok_posted0 r' H) as (? & _ & ?). repeat split; auto.
Qed.
Lemma set_current_ok x y s : co_ok x s -> co_ok x (set_current y s).
Proof. intros []. split; assumption. Qed.
End Invariant.
