(* ===== verification/CoroutineRuns.v ===== *)
(** * Coroutines: what a run of a fiber and a pass of the dispatcher do *)
From S2P Require Import Prelude Coroutine CoroutineFacts.
From stdpp Require Import list.
Open Scope Z_scope.

Section Runs.
Context (procedure : nat -> program) (arrange : list nat -> list nat).
Abbreviation traced := (traced procedure).
Abbreviation co_ok := (co_ok procedure).

(** What a run of the coroutine [r] leaves as it is. *)
Record fiber_kept (r : nat) (s s' : costate) : Prop := mk_kept {
  kept_used : used s' = used s; kept_cached : cached s' = cached s; kept_popped : popped s' = popped s;
  kept_incoming : co_incoming s = [] -> co_incoming s' = []; kept_queue : exists more, async_queue s' = async_queue s ++ more;
  kept_rests : forall r', r' <> r -> co_rest <$> routines s' !! r' = co_rest <$> routines s !! r' }.
Lemma fiber_kept_refl r s : fiber_kept r s s.
Proof. split; auto. exists []. now rewrite app_nil_r. Qed.
Lemma fiber_kept_trans r a b c : fiber_kept r a b -> fiber_kept r b c -> fiber_kept r a c.
Proof.
  intros [? ? ? I [m M] ?] [? ? ? I' [m' M'] H]. split; try congruence; [auto|exists (m ++ m'); rewrite M', M; symmetry; apply app_assoc|].
  intros r' N. rewrite H by exact N. auto.
Qed.
Lemma on_routine_kept r f s : fiber_kept r s (on_routine r f s).
Proof. split; try reflexivity; [auto|exists []; symmetry; apply app_nil_r|]. intros r' N. rewrite lookup_on_routine, decide_False by congruence. reflexivity. Qed.
(** What another thread does tells nothing and does not touch the coroutine that runs. *)
Lemma drifted_kept r s s' : drifted s s' -> fiber_kept r s s'.
Proof.
  intros D. destruct D as [U C _ P _ I Q R]. split; auto. intros r' _. destruct (R r') as [->| ->]; [reflexivity|]. destruct (routines s !! r') as [c|]; [|reflexivity]. cbn. unfold awoken. now destruct (decide _).
Qed.
Lemma drifted_traced s s' c code : drifted s s' -> traced s c code -> traced s' c code.
Proof. intros D (t & Et & T). exists t. now rewrite (dr_popped _ _ D), (dr_said _ _ D). Qed.
Lemma co_in_others r s c : co_ok (Some r) s -> co_in r s c -> co_ok (Some r) (others s) /\ co_in r (others s) c.
Proof.
  intros O [U E]. destruct (others_ok procedure (Some r) s O) as [O' R]. split; [exact O'|]. split; [now rewrite (dr_used _ _ (others_drift s))|now rewrite R].
Qed.
Lemma co_in_settle r p s c : co_ok (Some r) s -> co_in r s c -> co_in r (settle_promise p s) c.
Proof. intros O [U E]. split; [now rewrite (dr_used _ _ (settle_drifts p s))|now rewrite (settle_runs procedure)]. Qed.

(** ** The run of a fiber *)

(** What the coroutine is when its fiber has switched back. *)
Definition switched (i : nat) (code : program) (s : costate) (c : coroutine) : Prop :=
  co_serial c = i /\
  match co_state c with
  | co_finished => co_defer c = None /\ exists t, popped s !! i = Some t /\ said_by i (said s) = says (procedure t.2)
  | co_active => co_defer c = None /\ traced s c (co_rest c) /\ (length (co_rest c) < length code)%nat
  | co_suspended => (exists p, co_defer c = Some p) /\ traced s c (co_rest c) /\ (length (co_rest c) < length code)%nat
  | co_resumable => False
  end.
Lemma switched_longer i x code s c : switched i code s c -> switched i (x :: code) s c.
Proof. intros [A B]. split; [exact A|]. cbn [length]. destruct (co_state c); try exact B; destruct B as (B1 & B2 & B3); repeat split; auto; lia. Qed.
Lemma stop_ok r f s c : co_ok (Some r) s -> co_in r s c -> (forall c, co_serial (f c) = co_serial c) ->
  let s' := set_current None (on_routine r f s) in co_ok (Some r) s' /\ co_in r s' (f c) /\ fiber_kept r s s'.
Proof.
  intros O [U E] F. cbn zeta. split; [apply set_current_ok, update_running; auto|]. split; [split; [exact U|]|].
  - cbn [routines set_current]. rewrite lookup_on_routine, decide_True, E by reflexivity. reflexivity.
  - destruct (on_routine_kept r f s). now split.
Qed.
Lemma run_fiber_ok r code : forall s c, co_ok (Some r) s -> co_in r s c -> co_state c = co_active -> co_defer c = None -> traced s c code ->
  let s' := run_fiber r (co_serial c) code s in
  co_ok (Some r) s' /\ fiber_kept r s s' /\ current s' = None /\ exists c', co_in r s' c' /\ switched (co_serial c) code s' c'.
Proof.
  induction code as [|x code IH]; intros s c O I A D T; cbn zeta.
  - cbn [run_fiber]. edestruct (stop_ok r (fun c => set_co_state co_finished (set_co_defer None (set_co_rest [] c))) s c O I) as (O' & I' & K'); [reflexivity|].
    split; [exact O'|]. split; [exact K'|]. split; [reflexivity|]. eexists. split; [exact I'|]. split; [reflexivity|]. cbn. split; [reflexivity|].
    destruct T as (t & Et & T). exists t. split; [exact Et|]. cbn in T. now rewrite app_nil_r in T.
  - assert (L : (co_serial c < length (popped s))%nat) by (destruct T as (t & Et & _); apply lookup_lt_is_Some_1; eauto).
    destruct x as [n| |p|p|t]; cbn [run_fiber].
    + destruct (IH (set_said (said s ++ [(co_serial c, n)]) s) c (say_ok procedure r s c n O I L) I A D) as (O' & K' & Cu & c' & I' & S').
      { destruct T as (t & Et & T). exists t. split; [exact Et|]. cbn [said set_said]. rewrite <- T, said_by_app, <- app_assoc. f_equal. unfold said_by. rewrite filter_cons_True by reflexivity. reflexivity. }
      split; [exact O'|]. split; [eapply fiber_kept_trans; [|exact K']; apply (mk_kept r s); try reflexivity; [auto|exists []; symmetry; apply app_nil_r]|]. split; [exact Cu|].
      exists c'. split; [exact I'|]. now apply switched_longer.
    + edestruct (stop_ok r (set_co_rest code) s c O I) as (O' & I' & K'); [reflexivity|]. split; [exact O'|]. split; [exact K'|]. split; [reflexivity|].
      eexists. split; [exact I'|]. split; [reflexivity|]. cbn. rewrite A. repeat split; [exact D|exact T|lia].
    + destruct (co_in_others r s c O I) as [O1 I1]. pose proof (others_drift s) as Dr. pose proof (drifted_kept r _ _ Dr) as K1. apply (drifted_traced _ _ _ _ Dr) in T. cbv zeta. destruct (decide (p ∈ settled_promises (others s))).
      * destruct (IH (others s) c O1 I1 A D T) as (O' & K' & Cu & c' & I' & S'). split; [exact O'|]. split; [eapply fiber_kept_trans; eassumption|]. split; [exact Cu|]. exists c'. split; [exact I'|]. now apply switched_longer.
      * edestruct (stop_ok r (fun c => set_co_state co_suspended (set_co_defer (Some p) (set_co_rest code c))) (others s) c O1 I1) as (O' & I' & K'); [reflexivity|].
        split; [exact O'|]. split; [eapply fiber_kept_trans; eassumption|]. split; [reflexivity|]. eexists. split; [exact I'|]. split; [reflexivity|]. cbn. repeat split; [eauto|exact T|lia].
    + destruct (IH (settle_promise p s) c (settle_ok procedure _ p s O) (co_in_settle r p s c O I) A D) as (O' & K' & Cu & c' & I' & S').
      { exact (drifted_traced _ _ _ _ (settle_drifts p s) T). }
      split; [exact O'|]. split; [eapply fiber_kept_trans; [apply drifted_kept, settle_drifts|exact K']|]. split; [exact Cu|]. exists c'. split; [exact I'|]. now apply switched_longer.
    + assert (Dr : drifted s (set_coroutine 0 t s)) by apply set_coroutine_drifts. destruct I as [U E].
      destruct (IH (set_coroutine 0 t s) c (set_coroutine_ok procedure _ _ _ s O)) as (O' & K' & Cu & c' & I' & S');
        [split; [now rewrite (dr_used _ _ Dr)|unfold set_coroutine; now destruct (schedule_enqueues s)]|exact A|exact D|exact (drifted_traced _ _ _ _ Dr T)|].
      split; [exact O'|]. split; [eapply fiber_kept_trans; [apply drifted_kept, Dr|exact K']|]. split; [exact Cu|]. exists c'. split; [exact I'|]. now apply switched_longer.
Qed.

(** ** The deferred function *)
Lemma register_ok r p s c : co_ok (Some r) s -> co_in r s c -> co_state c = co_suspended -> co_defer c = None -> traced s c (co_rest c) -> (p ∉ settled_promises s) ->
  co_ok None (set_promises (settled_promises s) ((p, r) :: filter (fun w => w.1 <> p) (waiters s)) (map snd (filter (fun w => w.1 = p) (waiters s)) ++ stranded s) s).
Proof.
  intros O [U E] Sp D T Np. split; try exact (ok_nodup _ _ _ O); try exact (ok_valid _ _ _ O); try exact (ok_cached _ _ _ O); try exact (ok_serials _ _ _ O); try exact (ok_done _ _ _ O); try exact (ok_said _ _ _ O);
    cbn [used routines settled_promises waiters stranded set_promises].
  - intros r' c' H _ E'. destruct (decide (r' = r)) as [->|N]; [rewrite E in E'; injection E' as <-; repeat split; [congruence|exact D|exact T]|]. apply (ok_used _ _ _ O r' c' H); congruence.
  - intros r' c' H _ E' Sp'. destruct (decide (r' = r)) as [->|N]; [right; right; right; exists p; left|].
    destruct (ok_waiting _ _ _ O r' c' H ltac:(congruence) E' Sp') as [St|[Rf|[Po|[q Q]]]]; [left; apply elem_of_app; now right|right; now left|right; right; now left|].
    destruct (decide (q = p)) as [->|Nq]; [left; apply elem_of_app; left; apply list_elem_of_fmap; exists (p, r'); split; [reflexivity|]|right; right; right; exists q; right]; apply list_elem_of_filter; auto.
  - intros q r' [[= -> ->]|H]%elem_of_cons.
    + repeat split; auto; try congruence. unfold state_of. cbn. now rewrite E.
    + apply list_elem_of_filter in H as [_ H]. destruct (ok_waiters _ _ _ O q r' H) as (A & B & _ & C). repeat split; auto.
  - intros r' H. destruct (ok_posted _ _ _ O r' H) as (A & _ & C). repeat split; auto.
  - cbn. apply NoDup_cons. pose proof (ok_one _ _ _ O) as ND. rewrite (waiting_split s p), <- app_assoc in ND. apply NoDup_app in ND as (_ & _ & ND). split; [|exact ND].
    intros [([q r'] & -> & H)%list_elem_of_fmap|H]%elem_of_app; [apply list_elem_of_filter in H as [_ H]; destruct (ok_waiters _ _ _ O q _ H) as (_ & _ & N & _)|destruct (ok_posted _ _ _ O _ H) as (_ & N & _)]; now apply N.
Qed.
Lemma await_event_ok r p s c : co_ok (Some r) s -> co_in r s c -> co_state c = co_suspended -> traced s c (co_rest c) ->
  let s' := on_routine r (set_co_defer None) (await_event p r s) in
  co_ok None s' /\ fiber_kept r s s' /\ current s' = current s /\ exists c', co_in r s' c' /\ co_rest c' = co_rest c /\ co_state c' <> co_finished.
Proof.
  intros O [U E] Sp T. cbn zeta. unfold await_event. destruct (decide _) as [St|Np].
  - set (s' := on_routine r _ _). assert (E' : routines s' !! r = Some (set_co_defer None (awoken c))).
    { unfold s', activate. rewrite lookup_on_routine, decide_True, lookup_on_routine, decide_True, E by reflexivity. reflexivity. }
    assert (Aw : awoken c = set_co_state co_resumable c) by (unfold awoken; now rewrite decide_True).
    split; [apply (leave_running procedure r s' (set_co_defer None (awoken c))); [|exact E'|rewrite Aw; discriminate|reflexivity|rewrite Aw; exact T|rewrite Aw; discriminate]|].
    + apply update_running; [apply update_running; [exact O|exact U|]|exact U|]; intros c0; [|reflexivity]. fold (awoken c0). unfold awoken. now destruct (decide _).
    + split; [eapply fiber_kept_trans; apply on_routine_kept|]. split; [reflexivity|]. eexists. split; [split; [exact U|exact E']|]. rewrite Aw. split; [reflexivity|discriminate].
  - set (s1 := on_routine r (set_co_defer None) s). assert (E1 : routines s1 !! r = Some (set_co_defer None c)) by (unfold s1; rewrite lookup_on_routine, decide_True, E by reflexivity; reflexivity).
    split; [apply (register_ok r p s1 (set_co_defer None c)); [apply update_running; auto|split; [exact U|exact E1]|exact Sp|reflexivity|exact T|exact Np]|].
    destruct (on_routine_kept r (set_co_defer None) s) as [? ? ? ? ? K]. split; [split; auto|]. split; [reflexivity|].
    exists (set_co_defer None c). split; [split; [exact U|exact E1]|]. split; [reflexivity|]. cbn. congruence.
Qed.
Lemma run_defer_idle r s c : routines s !! r = Some c -> co_defer c = None -> run_defer r s = s.
Proof. intros E D. unfold run_defer. now rewrite E, D. Qed.

(** ** One execution *)
Lemma execute_suspended r s c : co_in r s c -> co_state c = co_suspended -> co_execute r s = (s, co_suspended).
Proof. intros [_ E] Sp. unfold co_execute. now rewrite E, decide_True. Qed.
Lemma execute_ok r s c : co_ok None s -> co_in r s c -> co_state c <> co_suspended ->
  exists s', fiber_kept r s s' /\ current s' = None /\ exists c', co_in r s' c' /\
    ((co_execute r s = (s', co_active) /\ co_ok None s' /\ (length (co_rest c') < length (co_rest c))%nat) \/
     (co_execute r s = (s', co_finished) /\ co_ok (Some r) s' /\ co_state c' = co_finished /\ exists t, popped s' !! co_serial c' = Some t /\ said_by (co_serial c') (said s') = says (procedure t.2))).
Proof.
  intros O [U E] Ns. destruct (ok_used _ _ _ O r c U ltac:(discriminate) E) as (Nf & D & T). unfold co_execute. rewrite E, decide_False by exact Ns.
  set (act := fun c => if decide (co_state c = co_resumable) then set_co_state co_active c else c). set (s0 := set_current (Some r) (on_routine r act s)).
  assert (Ac : co_state (act c) = co_active /\ co_serial (act c) = co_serial c /\ co_rest (act c) = co_rest c /\ co_defer (act c) = None).
  { unfold act. destruct (decide _) as [R|R]; repeat split; auto. destruct (co_state c); congruence. }
  destruct Ac as (A1 & A2 & A3 & A4).
  assert (I0 : co_in r s0 (act c)) by (split; [exact U|unfold s0; cbn [routines set_current]; rewrite lookup_on_routine, decide_True, E by reflexivity; reflexivity]).
  assert (O0 : co_ok (Some r) s0).
  { apply set_current_ok, update_running; [apply enter_running; [exact O|unfold state_of; now rewrite E]|exact U|]. intros c0. unfold act. now destruct (decide _). }
  assert (K0 : fiber_kept r s s0) by (destruct (on_routine_kept r act s); now split).
  rewrite <- A2, <- A3. destruct (run_fiber_ok r (co_rest (act c)) s0 (act c) O0 I0 A1 A4) as (O1 & K1 & Cu & c1 & I1 & Se & Sw); [unfold CoroutineFacts.traced in *; rewrite A2, A3; exact T|].
  set (s1 := run_fiber _ _ _ s0) in *. pose proof (fiber_kept_trans _ _ _ _ K0 K1) as K. destruct I1 as [U1 E1].
  destruct (co_state c1) eqn:Est.
  - destruct Sw as (D1 & T1 & L1). rewrite (run_defer_idle r s1 c1 E1 D1). exists s1. split; [exact K|]. split; [exact Cu|]. exists c1. split; [split; [exact U1|exact E1]|]. left.
    unfold state_of. rewrite E1, Est, decide_False by discriminate. split; [reflexivity|]. split; [|exact L1].
    apply (leave_running procedure r s1 c1 O1 E1); [congruence|exact D1|exact T1|congruence].
  - destruct Sw as ([p D1] & T1 & L1). unfold run_defer. rewrite E1, D1. cbv zeta.
    destruct (co_in_others r s1 c1 O1 (conj U1 E1)) as [O3 I3]. pose proof (others_drift s1) as Dr. pose proof (drifted_kept r _ _ Dr) as K3. apply (drifted_traced _ _ _ _ Dr) in T1 as T3. set (s3 := others s1) in *.
    destruct (await_event_ok r p s3 c1 O3 I3 Est T3) as (O4 & K4 & Cu4 & c' & I4 & R4 & F4). exists (on_routine r (set_co_defer None) (await_event p r s3)).
    assert (Cu3 : current s3 = None) by (rewrite (dr_current _ _ Dr); exact Cu).
    split; [refine (fiber_kept_trans _ _ _ _ (fiber_kept_trans _ _ _ _ K K3) K4)|]. split; [congruence|]. exists c'. split; [exact I4|]. left.
    destruct I4 as [U4 E4]. unfold state_of. rewrite E4, decide_False by exact F4. split; [reflexivity|]. split; [exact O4|]. rewrite R4. exact L1.
  - destruct Sw.
  - destruct Sw as (D1 & t & Et & T1). rewrite (run_defer_idle r s1 c1 E1 D1). exists s1. split; [exact K|]. split; [exact Cu|]. exists c1. split; [split; [exact U1|exact E1]|]. right.
    unfold state_of. rewrite E1, Est, decide_True by reflexivity. split; [reflexivity|]. split; [exact O1|]. split; [reflexivity|]. exists t. rewrite Se. auto.
Qed.
End Runs.
