(* ===== verification/CoroutineSpec.v ===== *)
(** * Coroutines: the dispatcher ends, keeps the order and loses no one who waits *)
From S2P Require Import Prelude Coroutine CoroutineFacts CoroutineRuns.
From stdpp Require Import list.
Open Scope Z_scope.

Lemma remove_split r l : NoDup l -> r ∈ l -> l ≡ₚ r :: remove Nat.eq_dec r l.
Proof.
  induction l as [|x l IH]; intros ND H; [now apply not_elem_of_nil in H|]. apply NoDup_cons in ND as [Nx ND]. cbn. destruct (Nat.eq_dec r x) as [->|N].
  - rewrite notin_remove; [reflexivity|]. now rewrite <- list_elem_of_In.
  - apply elem_of_cons in H as [->|H]; [tauto|]. rewrite (IH ND H) at 1. apply Permutation_swap.
Qed.

Section Spec.
Context (procedure : nat -> program) (arrange : list nat -> list nat) (take : list (nat * nat) -> list (nat * nat) -> option nat).
Context (arranged : forall l, arrange l ≡ₚ l).
Abbreviation traced := (traced procedure).
Abbreviation co_ok := (co_ok procedure).
Abbreviation pop := (pop procedure arrange).

(** The steps the used coroutines have left. *)
Definition left_of (s : costate) (r : nat) : nat := S (length (default [] (co_rest <$> routines s !! r))).
Definition co_work (s : costate) : nat := sum_list_with (left_of s) (used s).
Lemma left_of_kept r s s' r' : fiber_kept r s s' -> r' <> r -> left_of s' r' = left_of s r'.
Proof. intros K N. unfold left_of. now rewrite (kept_rests _ _ _ K r' N). Qed.
Lemma sum_kept r s s' l : fiber_kept r s s' -> (r ∉ l) -> sum_list_with (left_of s') l = sum_list_with (left_of s) l.
Proof.
  intros K. induction l as [|x l IH]; intros N; [reflexivity|]. apply not_elem_of_cons in N as [Nx N]. cbn [sum_list_with]. rewrite IH by exact N. f_equal. eapply left_of_kept; [exact K|congruence].
Qed.
Lemma work_split r s : NoDup (used s) -> r ∈ used s -> co_work s = (left_of s r + sum_list_with (left_of s) (remove Nat.eq_dec r (used s)))%nat.
Proof. intros ND U. unfold co_work. now rewrite (remove_split r (used s) ND U) at 1. Qed.
Lemma remove_without r s : NoDup (used s) -> r ∉ remove Nat.eq_dec r (used s).
Proof. intros _. rewrite list_elem_of_In. apply remove_In. Qed.
Lemma ok_used_nodup x s : co_ok x s -> NoDup (used s).
Proof. intros O. pose proof (ok_nodup _ _ _ O) as N. now apply NoDup_app in N as (N & _). Qed.

(** ** Giving back and taking out *)
Lemma reuse_ok r s c : co_ok (Some r) s -> co_in r s c -> (exists t, popped s !! co_serial c = Some t /\ said_by (co_serial c) (said s) = says (procedure t.2)) ->
  let s' := reuse r s in co_ok None s' /\ used s ≡ₚ r :: used s' /\ popped s' = popped s /\ async_queue s' = async_queue s /\ co_incoming s' = co_incoming s /\ (co_work s = left_of s r + co_work s')%nat.
Proof.
  intros O [U E] Dn. cbn zeta. set (f := fun c => set_co_state co_active (set_co_defer None c)).
  pose proof (ok_used_nodup _ _ O) as ND. pose proof (remove_split r (used s) ND U) as Sp.
  assert (Ru : forall r', r' ∈ remove Nat.eq_dec r (used s) <-> r' ∈ used s /\ r' <> r).
  { intros r'. split; [intros H; split; [rewrite Sp; now right|intros ->; now apply (remove_without r s ND)]|]. intros [H N]. rewrite Sp in H. apply elem_of_cons in H as [->|H]; tauto. }
  pose proof (update_running procedure r f s O U ltac:(reflexivity)) as O1. set (s1 := on_routine r f s) in *.
  assert (E1 : routines s1 !! r = Some (f c)) by (unfold s1; rewrite lookup_on_routine, decide_True, E by reflexivity; reflexivity).
  change (reuse r s) with (set_cached (r :: cached s1) (set_used (remove Nat.eq_dec r (used s1)) s1)).
  split; [|split; [exact Sp|do 3 (split; [reflexivity|])]].
  - split; try exact (ok_one _ _ _ O1); try exact (ok_said _ _ _ O1); cbn [used cached routines waiters settled_promises stranded set_cached set_used];
      change (used s1) with (used s); change (cached s1) with (cached s).
    + pose proof (ok_nodup _ _ _ O) as ND'. rewrite Sp in ND'. cbn in ND'. now rewrite <- Permutation_middle.
    + intros r' H. apply (ok_valid _ _ _ O1). change (r' ∈ used s ++ cached s). rewrite Sp. rewrite <- Permutation_middle in H. exact H.
    + intros r' c' [->|H]%elem_of_cons E'; [rewrite E1 in E'; now injection E' as <-|]. exact (ok_cached _ _ _ O1 r' c' H E').
    + intros r' c' [H N]%Ru _ E'. apply (ok_used _ _ _ O1 r' c' H); [congruence|exact E'].
    + intros r' c' [H N]%Ru _ E'. apply (ok_waiting _ _ _ O1 r' c' H); [congruence|exact E'].
    + intros p r' H. destruct (ok_waiters _ _ _ O1 p r' H) as (A & B & N & C). split; [exact A|]. split; [apply Ru; split; [exact B|congruence]|]. split; [discriminate|exact C].
    + intros r' H. destruct (ok_posted _ _ _ O1 r' H) as (B & N & C). split; [apply Ru; split; [exact B|congruence]|]. split; [discriminate|exact C].
    + intros r1 r2 c1 c2 [H1 _]%Ru [H2 _]%Ru. exact (ok_serials _ _ _ O1 r1 r2 c1 c2 H1 H2).
    + intros i t Ei. destruct (ok_done _ _ _ O1 i t Ei) as [(r' & c' & Hr & Ec & Si)|D]; [|now right]. destruct (decide (r' = r)) as [->|N].
      * right. rewrite E1 in Ec. injection Ec as <-. cbn in Si. destruct Dn as (t' & Et & Sd). rewrite Si in Et. cbn in Ei. rewrite Ei in Et. injection Et as <-. rewrite <- Si. exact Sd.
      * left. exists r', c'. split; [apply Ru; auto|auto].
  - rewrite (work_split r s ND U). f_equal. unfold co_work. cbn [used set_cached set_used]. change (used s1) with (used s). symmetry.
    change (sum_list_with (left_of s1) (remove Nat.eq_dec r (used s)) = sum_list_with (left_of s) (remove Nat.eq_dec r (used s))). apply (sum_kept r); [apply on_routine_kept|now apply remove_without].
Qed.

(** [popped_as r tag s s']: the coroutine [r], which was not used, has got the procedure. *)
Record popped_as (r : nat) (task : nat * nat) (s s' : costate) : Prop := mk_popped_as {
  pa_used : used s' = r :: used s; pa_fresh : r ∉ used s; pa_nodup : NoDup (used s' ++ cached s');
  pa_cached : forall r', r' ∈ cached s' -> r' ∈ cached s /\ r' <> r;
  pa_new : exists c, routines s' !! r = Some c /\ co_state c = co_active /\ co_serial c = length (popped s) /\ co_rest c = procedure task.2 /\ co_defer c = None;
  pa_old : forall r', r' ∈ used s ++ cached s -> r' <> r -> routines s' !! r' = routines s !! r';
  pa_popped : popped s' = popped s ++ [task]; pa_said : said s' = said s; pa_settled : settled_promises s' = settled_promises s;
  pa_waiters : waiters s' = waiters s; pa_stranded : stranded s' = stranded s; pa_posted : posted s' = posted s; pa_refused : refused s' = refused s; pa_incoming : co_incoming s' = co_incoming s; pa_queue : async_queue s' = async_queue s }.
Lemma pop_shape task s : co_ok None s -> exists r, popped_as r task s (pop task s).
Proof.
  intros O. unfold Coroutine.pop. destruct (arrange (cached (set_popped (popped s ++ [task]) s))) as [|r rs] eqn:Ea; cbn [cached set_popped] in Ea.
  - exists (length (routines s)). pose proof (arranged (cached s)) as P. rewrite Ea in P. apply Permutation_nil in P.
    assert (Fr : length (routines s) ∉ used s ++ cached s) by (intros H; destruct (ok_valid _ _ _ O _ H) as [c E]; apply lookup_lt_Some in E; lia).
    split; try reflexivity; cbn.
    + intros H. apply Fr, elem_of_app. now left.
    + rewrite P, app_nil_r. apply NoDup_cons. split; [intros H; apply Fr, elem_of_app; now left|apply (ok_used_nodup _ _ O)].
    + intros r' H. rewrite P in H. now apply not_elem_of_nil in H.
    + eexists. rewrite lookup_app_r, Nat.sub_diag by lia. repeat split.
    + intros r' H _. destruct (ok_valid _ _ _ O r' H) as [c E]. rewrite lookup_app_l; [reflexivity|]. now apply lookup_lt_Some in E.
  - exists r. assert (Ic : r ∈ cached s) by (rewrite <- (arranged (cached s)), Ea; left). pose proof (ok_nodup _ _ _ O) as ND. pose proof ND as (NDu & Di & NDc)%NoDup_app.
    destruct (ok_valid _ _ _ O r ltac:(apply elem_of_app; now right)) as [c E]. pose proof (remove_split r (cached s) NDc Ic) as Sp.
    split; try reflexivity; cbn [used cached routines set_used set_cached on_routine set_routines set_popped].
    + intros H. exact (Di r H Ic).
    + rewrite Sp in ND. rewrite <- Permutation_middle in ND. exact ND.
    + intros r' H. split; [rewrite Sp; now right|]. intros ->. rewrite list_elem_of_In in H. now apply remove_In in H.
    + eexists. rewrite list_lookup_alter, decide_True, E by reflexivity. repeat split. cbn. exact (ok_cached _ _ _ O r c Ic E).
    + intros r' _ N. rewrite list_lookup_alter, decide_False by congruence. reflexivity.
Qed.

Lemma popped_as_ok r task s s' : co_ok None s -> popped_as r task s s' -> co_ok None s'.
Proof.
  intros O P. destruct (pa_new _ _ _ _ P) as (c & E & A & Se & Re & D).
  assert (Old : forall r' c', r' ∈ used s -> routines s' !! r' = Some c' -> routines s !! r' = Some c').
  { intros r' c' H E'. rewrite (pa_old _ _ _ _ P) in E'; [exact E'|apply elem_of_app; now left|]. intros ->. now apply (pa_fresh _ _ _ _ P). }
  assert (Lt : forall r' c', r' ∈ used s -> routines s !! r' = Some c' -> (co_serial c' < length (popped s))%nat).
  { intros r' c' H E'. destruct (ok_used _ _ _ O r' c' H ltac:(discriminate) E') as (_ & _ & t & Et & _). apply lookup_lt_is_Some_1. eauto. }
  assert (Us : forall r', r' ∈ used s' -> r' = r \/ r' ∈ used s) by (intros r'; rewrite (pa_used _ _ _ _ P); apply elem_of_cons).
  split.
  - exact (pa_nodup _ _ _ _ P).
  - intros r' H. destruct (decide (r' = r)) as [->|N]; [eauto|]. assert (H' : r' ∈ used s ++ cached s).
    { apply elem_of_app. apply elem_of_app in H as [H|H]; [destruct (Us r' H); tauto|right; now apply (pa_cached _ _ _ _ P)]. }
    rewrite (pa_old _ _ _ _ P r' H' N). exact (ok_valid _ _ _ O r' H').
  - intros r' c' H E'. destruct (pa_cached _ _ _ _ P r' H) as [H' N]. rewrite (pa_old _ _ _ _ P) in E'; [|apply elem_of_app; now right|exact N]. exact (ok_cached _ _ _ O r' c' H' E').
  - intros r' c' H _ E'. destruct (Us r' H) as [->|H'].
    + rewrite E in E'. injection E' as <-. repeat split; [congruence|exact D|]. exists task. rewrite Se, (pa_popped _ _ _ _ P), lookup_app_r, Nat.sub_diag, (pa_said _ _ _ _ P), Re by lia. split; [reflexivity|].
      assert (Nil : said_by (length (popped s)) (said s) = []); [|now rewrite Nil]. unfold said_by. pose proof (ok_said _ _ _ O) as Sd. induction (said s) as [|[j m] l IH]; [reflexivity|].
      rewrite filter_cons_False; [apply IH; intros j' m' H'; apply (Sd j' m'); now right|]. cbn. intros ->. specialize (Sd _ m ltac:(left)). lia.
    + destruct (ok_used _ _ _ O r' c' H' ltac:(discriminate) (Old r' c' H' E')) as (A' & D' & t & Et & T). repeat split; auto. exists t. rewrite (pa_popped _ _ _ _ P), (pa_said _ _ _ _ P). split; [now apply lookup_app_l_Some|exact T].
  - intros r' c' H _ E' Sp. unfold accounted. rewrite (pa_stranded _ _ _ _ P), (pa_posted _ _ _ _ P), (pa_refused _ _ _ _ P), (pa_waiters _ _ _ _ P). destruct (Us r' H) as [->|H']; [congruence|]. apply (ok_waiting _ _ _ O r' c' H'); [discriminate|now apply Old|exact Sp].
  - intros q r' H. rewrite (pa_waiters _ _ _ _ P) in H. destruct (ok_waiters _ _ _ O q r' H) as (B1 & B2 & _ & B3). rewrite (pa_settled _ _ _ _ P), (pa_used _ _ _ _ P). repeat split; [exact B1|now right|discriminate|].
    unfold state_of in *. rewrite (pa_old _ _ _ _ P); [exact B3|apply elem_of_app; now left|]. intros ->. now apply (pa_fresh _ _ _ _ P).
  - intros r' H. rewrite (pa_posted _ _ _ _ P) in H. destruct (ok_posted _ _ _ O r' H) as (B2 & _ & B3). rewrite (pa_used _ _ _ _ P). repeat split; [now right|discriminate|].
    unfold state_of in *. rewrite (pa_old _ _ _ _ P); [exact B3|apply elem_of_app; now left|]. intros ->. now apply (pa_fresh _ _ _ _ P).
  - rewrite (pa_waiters _ _ _ _ P), (pa_posted _ _ _ _ P). exact (ok_one _ _ _ O).
  - intros r1 r2 c1 c2 H1 H2 E1 E2 Es. destruct (Us r1 H1) as [->|H1'], (Us r2 H2) as [->|H2']; [reflexivity| | |].
    + rewrite E in E1. injection E1 as <-. pose proof (Lt r2 c2 H2' (Old _ _ H2' E2)). lia.
    + rewrite E in E2. injection E2 as <-. pose proof (Lt r1 c1 H1' (Old _ _ H1' E1)). lia.
    + exact (ok_serials _ _ _ O r1 r2 c1 c2 H1' H2' (Old _ _ H1' E1) (Old _ _ H2' E2) Es).
  - intros i t Ei. rewrite (pa_popped _ _ _ _ P) in Ei. rewrite (pa_said _ _ _ _ P). apply lookup_app_Some in Ei as [Ei|[Li Ei]].
    + destruct (ok_done _ _ _ O i t Ei) as [(r' & c' & Hr & Ec & Si)|Dn]; [left|now right]. exists r', c'. rewrite (pa_used _ _ _ _ P). repeat split; [now right| |exact Si].
      rewrite (pa_old _ _ _ _ P); [exact Ec|apply elem_of_app; now left|]. intros ->. now apply (pa_fresh _ _ _ _ P).
    + left. exists r, c. rewrite (pa_used _ _ _ _ P). repeat split; [left|exact E|]. destruct (i - length (popped s))%nat eqn:Ed; [lia|discriminate].
  - intros i n H. rewrite (pa_said _ _ _ _ P) in H. rewrite (pa_popped _ _ _ _ P), length_app. pose proof (ok_said _ _ _ O i n H). lia.
Qed.

(** ** Passes *)

(** Suspended, or activated by another thread since it was looked at. *)
Definition idle_in (s : costate) (r : nat) : Prop := state_of r s = co_suspended \/ state_of r s = co_resumable.
Lemma idle_drifts s s' r : drifted s s' -> idle_in s r -> idle_in s' r.
Proof.
  intros D. unfold idle_in, state_of. destruct (dr_routines _ _ D r) as [->| ->]; [auto|]. destruct (routines s !! r) as [c|]; [|auto]. cbn. unfold awoken. destruct (decide _); [now right|tauto].
Qed.
(** What every part of the dispatcher guarantees: [n] executions that take as many steps at least. *)
Record advanced (n : nat) (s s' : costate) : Prop := mk_advanced {
  ad_ok : co_ok None s'; ad_popped : popped s' = popped s; ad_incoming : co_incoming s = [] -> co_incoming s' = []; ad_queue : exists more, async_queue s' = async_queue s ++ more;
  ad_used : (length (used s') <= length (used s))%nat; ad_work : (n + co_work s' <= co_work s)%nat }.
Lemma advanced_refl s : co_ok None s -> advanced 0 s s.
Proof. intros O. split; auto. exists []. now rewrite app_nil_r. Qed.
Lemma advanced_trans n n' a b c : advanced n a b -> advanced n' b c -> advanced (n + n') a c.
Proof. intros [? ? ? [m M] ? ?] [? ? ? [m' M'] ? ?]. split; [assumption|congruence|auto|exists (m ++ m'); rewrite M', M; symmetry; apply app_assoc|lia|lia]. Qed.
Lemma drifted_work s s' : drifted s s' -> co_work s' = co_work s.
Proof.
  intros D. unfold co_work. rewrite (dr_used _ _ D). generalize (used s). intros l. induction l as [|r l IH]; [reflexivity|]. cbn. rewrite IH. f_equal.
  unfold left_of. now rewrite (kept_rests _ _ _ (drifted_kept (S r) _ _ D)) by lia.
Qed.
Lemma others_advance s : co_ok None s -> advanced 0 s (others s).
Proof.
  intros O. pose proof (others_drift s) as D. pose proof (drifted_work _ _ D). destruct D as [U _ _ P _ I Q _]. split; [now apply others_ok|exact P|exact I|exact Q|rewrite U; lia|lia].
Qed.

Lemma execute_advances r s c : co_ok None s -> co_in r s c -> co_state c <> co_suspended ->
  exists s', (co_execute r s = (s', co_active) /\ advanced 1 s s' /\ used s' = used s) \/
    (co_execute r s = (s', co_finished) /\ advanced 1 s (reuse r s') /\ length (used s) = S (length (used (reuse r s')))).
Proof.
  intros O I N. pose proof (ok_used_nodup _ _ O) as ND. destruct (execute_ok procedure r s c O I N) as (s' & K & _ & c' & I' & [(Ex & O' & L)|(Ex & O' & Fi & Dn)]); exists s'; [left|right]; (split; [exact Ex|]).
  - pose proof (kept_used _ _ _ K) as Ku. split; [|exact Ku]. split; [exact O'|exact (kept_popped _ _ _ K)|exact (kept_incoming _ _ _ K)|exact (kept_queue _ _ _ K)|rewrite Ku; lia|].
    destruct I as [U E], I' as [U' E']. rewrite (work_split r s ND U), (work_split r s' (ok_used_nodup _ _ O') U'), Ku, (sum_kept r s s') by (auto using remove_without).
    unfold left_of at 1 3. rewrite E, E'. cbn. lia.
  - destruct (reuse_ok r s' c' O' I' Dn) as (O2 & Pe & Pp & Pq & Pi & Pw). apply Permutation_length in Pe. cbn [length] in Pe. pose proof (kept_used _ _ _ K) as Ku. rewrite Ku in Pe. split; [|exact Pe].
    split; [exact O2|rewrite Pp; exact (kept_popped _ _ _ K)|rewrite Pi; exact (kept_incoming _ _ _ K)|rewrite Pq; exact (kept_queue _ _ _ K)|lia|].
    destruct I as [U E], I' as [U' E']. rewrite (work_split r s' (ok_used_nodup _ _ O') U') in Pw. rewrite Ku, (sum_kept r s s') in Pw by (auto using remove_without).
    rewrite (work_split r s ND U). unfold left_of at 1. lia.
Qed.

Lemma dispatch_pass_ok rs : forall s n, co_ok None s -> (forall r, r ∈ rs -> r ∈ used s) -> exists s' m b, dispatch_pass rs s n = (s', (n + m)%nat, b) /\ advanced m s s' /\
  (if b then length (used s) = S (length (used s')) /\ (0 < m)%nat else used s' = used s) /\
  (m = 0%nat -> drifted s s' /\ (forall r, r ∈ rs -> idle_in s' r) /\ (co_incoming s = [] -> s' = s /\ forall r, r ∈ rs -> state_of r s = co_suspended)).
Proof.
  induction rs as [|r rs IH]; intros s n O Sub.
  - exists s, 0%nat, false. cbn. rewrite Nat.add_0_r. split; [reflexivity|]. split; [now apply advanced_refl|]. split; [reflexivity|]. intros _. split; [apply drifted_refl|].
    split; [|intros _; split; [reflexivity|]]; intros r' Hr; now apply not_elem_of_nil in Hr.
  - cbn [dispatch_pass]. pose proof (others_drift s) as Dr. pose proof (others_advance s O) as A0. pose proof (ad_ok _ _ _ A0) as O0. set (s0 := others s) in *.
    assert (Sub0 : forall r', r' ∈ r :: rs -> r' ∈ used s0) by (rewrite (dr_used _ _ Dr); exact Sub).
    destruct (ok_valid _ _ _ O0 r ltac:(apply elem_of_app; left; apply Sub0; left)) as [c E]. pose proof (conj (Sub0 r ltac:(left)) E : co_in r s0 c) as I.
    destruct (decide (co_state c = co_suspended)) as [Sp|N].
    + rewrite (execute_suspended r s0 c I Sp). destruct (IH s0 n O0 ltac:(intros r' H; apply Sub0; now right)) as (s' & m & b & Ep & A & B & Z). exists s', m, b.
      rewrite (dr_used _ _ Dr) in B. split; [exact Ep|]. split; [exact (advanced_trans 0 m _ _ _ A0 A)|]. split; [exact B|]. intros Em. destruct (Z Em) as (D & Id & No).
      assert (Sr : state_of r s0 = co_suspended) by (unfold state_of; now rewrite E).
      split; [eapply drifted_trans; eassumption|]. split; [intros r' [->|H']%elem_of_cons; [eapply idle_drifts; [exact D|now left]|auto]|].
      intros Ei. assert (E0 : s0 = s) by now apply others_none. rewrite E0 in *. destruct (No Ei) as [-> As]. split; [reflexivity|]. intros r' [->|H']%elem_of_cons; auto.
    + destruct (execute_advances r s0 c O0 I N) as (s1 & [(Ex & A & Us)|(Ex & A & Us)]); rewrite Ex; apply (advanced_trans 0 1 s _ _ A0) in A; rewrite (dr_used _ _ Dr) in Us.
      * destruct (IH s1 (S n) (ad_ok _ _ _ A)) as (s' & m & b & Ep & A' & B & _); [intros r' H; rewrite Us; apply Sub; now right|].
        exists s', (S m), b. rewrite Ep, Us in *. split; [f_equal; f_equal; lia|]. split; [exact (advanced_trans 1 m _ _ _ A A')|]. split; [destruct b; [split; [tauto|lia]|exact B]|discriminate].
      * exists (reuse r s1), 1%nat, true. split; [f_equal; f_equal; lia|]. split; [exact A|]. split; [split; [exact Us|lia]|discriminate].
Qed.

Lemma advanced_less n n' s s' : (n' <= n)%nat -> advanced n s s' -> advanced n' s s'.
Proof. intros L []. split; auto. lia. Qed.
(** What the last pass leaves. *)
Definition at_rest (s s' : costate) : Prop := (forall r, r ∈ used s' -> idle_in s' r) /\ (co_incoming s = [] -> forall r, r ∈ used s' -> state_of r s' = co_suspended).
Lemma dispatch_loop_ok fuel : forall s n, co_ok None s -> (length (used s) < fuel)%nat ->
  exists s' m, dispatch_loop arrange fuel s n = Some (s', (n + m)%nat) /\ advanced m s s' /\ (m = 0%nat -> at_rest s s').
Proof.
  induction fuel as [|fuel IH]; intros s n O L; [lia|]. cbn [dispatch_loop].
  destruct (dispatch_pass_ok (arrange (used s)) s n O) as (s1 & m & b & -> & A & B & Z); [intros r H; now rewrite arranged in H|]. destruct b.
  - destruct B as [Lu Pm]. destruct (IH s1 (n + m)%nat (ad_ok _ _ _ A) ltac:(lia)) as (s' & m' & -> & A' & _). exists s', (m + m')%nat. split; [f_equal; f_equal; lia|]. split; [eapply advanced_trans; eassumption|lia].
  - exists s1, m. split; [reflexivity|]. split; [exact A|]. intros Em. destruct (Z Em) as (D & Id & No). split; [|intros Ei; destruct (No Ei) as [-> As]]; intros r H; [apply Id|apply As]; rewrite arranged; [now rewrite <- B|exact H].
Qed.
Lemma co_dispatch_ok s : co_ok None s -> exists s' b, co_dispatch arrange s = Some (s', b) /\ (if b then advanced 1 s s' else advanced 0 s s' /\ at_rest s s').
Proof.
  intros O. unfold co_dispatch. destruct (dispatch_loop_ok (S (length (used s))) s 0 O ltac:(lia)) as (s' & m & -> & A & Z). exists s', (0 <? 0 + m)%nat. split; [reflexivity|].
  destruct (Nat.ltb_spec 0 (0 + m)); [apply (advanced_less m); [lia|exact A]|]. assert (m = 0%nat) as -> by lia. split; [exact A|now apply Z].
Qed.
Lemma rounds_ok fuel : forall s e, co_ok None s -> (co_work s < fuel)%nat -> exists s' e', dispatch_rounds arrange fuel s e = Some (s', e') /\ advanced 0 s s' /\ at_rest s s'.
Proof.
  induction fuel as [|fuel IH]; intros s e O L; [lia|]. cbn [dispatch_rounds]. destruct (co_dispatch_ok s O) as (s1 & [] & -> & A).
  - pose proof (ad_work _ _ _ A). destruct (IH s1 (S e) (ad_ok _ _ _ A) ltac:(lia)) as (s' & e' & Ed & A' & Id & No). exists s', e'. split; [exact Ed|].
    split; [apply (advanced_less (1 + 0)); [lia|]; exact (advanced_trans _ _ _ _ _ A A')|]. split; [exact Id|]. intros Ei. apply No, (ad_incoming _ _ _ A Ei).
  - destruct A as [A R]. exists s1, e. auto.
Qed.
Lemma rounds_result fuel : forall s e s' e', co_ok None s -> dispatch_rounds arrange fuel s e = Some (s', e') -> advanced 0 s s'.
Proof.
  induction fuel as [|fuel IH]; intros s e s' e' O; [discriminate|]. cbn [dispatch_rounds]. destruct (co_dispatch_ok s O) as (s1 & [] & -> & A).
  - intros Ed. apply (advanced_less (1 + 0)); [lia|]. exact (advanced_trans _ _ _ _ _ A (IH _ _ _ _ (ad_ok _ _ _ A) Ed)).
  - destruct A as [A _]. intros [= <- _]. exact A.
Qed.

(** ** Taking tasks *)
Abbreviation pop_tasks := (pop_tasks procedure arrange take).
Lemma pop_tasks_ok n : forall s e, co_ok None s -> let s' := fst (pop_tasks n s e) in
  co_ok None s' /\ (co_incoming s = [] -> co_incoming s' = []) /\ (length (used s') <= length (used s) + n)%nat.
Proof.
  induction n as [|n IH]; intros s e O; cbn [Coroutine.pop_tasks]; [cbn; auto with lia|]. pose proof (others_drift s) as Dr. pose proof (proj1 (others_ok procedure None s O)) as O0.
  cbv zeta. set (s0 := others s) in *. rewrite <- (dr_used _ _ Dr). destruct (try_dequeue take s0) as [[task q]|]; [|cbn; split; [exact O0|split; [apply Dr|lia]]].
  pose proof (set_async_ok procedure None q s0 O0) as O1. destruct (pop_shape task (set_async q s0) O1) as [r P].
  destruct (IH (pop task (set_async q s0)) (S e) (popped_as_ok _ _ _ _ O1 P)) as (O2 & I2 & L2). split; [exact O2|].
  rewrite (pa_used _ _ _ _ P) in L2. rewrite (pa_incoming _ _ _ _ P) in I2. cbn in L2, I2. split; [intros Ei; apply I2, Dr, Ei|lia].
Qed.
Lemma pop_tasks_count n : forall s e e', fst (pop_tasks n s e) = fst (pop_tasks n s e').
Proof. induction n as [|n IH]; intros s e e'; [reflexivity|]. cbn. destruct (try_dequeue take (others s)) as [[task q]|]; [apply IH|reflexivity]. Qed.


(** [trigger] after its coroutines were taken out. *)
Abbreviation trigger_async := (trigger_async procedure arrange take).
Definition taken (max_coroutines : nat) (s : costate) : costate :=
  fst (pop_tasks (Z.to_nat (u64 (Z.of_nat max_coroutines - Z.of_nat (length (used s))))) s 0).
Lemma trigger_cases fuel max_coroutines s : exists e, trigger_async fuel false max_coroutines s =
  match dispatch_rounds arrange fuel (taken max_coroutines s) e with Some (s', e') => Some (s', (0 <? e')%nat) | None => None end.
Proof.
  unfold Coroutine.trigger_async, taken. set (n := Z.to_nat _). pose proof (pop_tasks_count n s (length (used s)) 0) as E. destruct (pop_tasks n s (length (used s))) as [s1 e]. cbn in E.
  exists e. now rewrite <- E.
Qed.
Lemma taken_ok mx s : co_ok None s -> co_ok None (taken mx s) /\ (co_incoming s = [] -> co_incoming (taken mx s) = []) /\
  ((length (used s) <= mx)%nat -> Z.of_nat mx < 2 ^ 64 -> (length (used (taken mx s)) <= mx)%nat).
Proof.
  intros O. destruct (pop_tasks_ok (Z.to_nat (u64 (Z.of_nat mx - Z.of_nat (length (used s))))) s 0 O) as (O1 & I & L). split; [exact O1|]. split; [exact I|].
  intros Lm Lx. unfold taken. unfold wrapU in *. rewrite Z.mod_small in * by lia. lia.
Qed.
(** What any trigger does that returns. *)
Lemma trigger_result fuel sus mx s s' b : co_ok None s -> trigger_async fuel sus mx s = Some (s', b) ->
  s' = s \/ exists s1, s1 = taken mx s /\ advanced 0 s1 s'.
Proof.
  intros O E. destruct sus; [injection E as <- _; now left|]. destruct (trigger_cases fuel mx s) as [e E']. rewrite E' in E. destruct (taken_ok mx s O) as (O1 & _).
  destruct (dispatch_rounds arrange fuel (taken mx s) e) as [[s2 e2]|] eqn:Er; [|discriminate]. injection E as <- _. right. eexists. split; [reflexivity|]. eapply rounds_result; eassumption.
Qed.

(** ** Runs

    Other threads settle promises, run tasks of the schedule, start and stop it and give tasks for coroutines, and the scheduler triggers its coroutines, in any order. *)
Inductive reachable : costate -> Prop :=
| reach_new pauses : reachable (new_costate pauses)
| reach_other e s : reachable s -> reachable (other_step s e)
| reach_trigger fuel is_suspended max_coroutines s s' b : reachable s -> trigger_async fuel is_suspended max_coroutines s = Some (s', b) -> reachable s'.
Lemma new_ok pauses : co_ok None (new_costate pauses).
Proof.
  assert (No : forall A (x : A), x ∉ []) by (intros A x H; now apply not_elem_of_nil in H). split; try (cbn; constructor); cbn; intros; try discriminate; exfalso; eapply No; eassumption.
Qed.
Lemma reachable_ok s : reachable s -> co_ok None s.
Proof.
  induction 1 as [pauses|e s _ O|fuel sus mx s s' b _ O E]; [apply new_ok|now apply other_ok|].
  destruct (trigger_result fuel sus mx s s' b O E) as [->|(s1 & -> & A)]; [exact O|exact (ad_ok _ _ _ A)].
Qed.

(** How a suspended coroutine comes on: by a task of the schedule, or when the promise it waits for is settled - at once where no schedule is available, by a task
    where one takes it, and not at all where a schedule that stops refuses the task. *)
Definition resumed_by_task (r : nat) (s : costate) : Prop := exists n, posted s !! n = Some r /\ state_of r (run_posted n s) = co_resumable.
Definition resumed_by (p r : nat) (s : costate) : Prop := (p ∉ settled_promises s) /\ ((p, r) ∈ waiters s) /\
  (if schedule_available s then if schedule_enqueues s then r ∈ posted (settle_promise p s) else r ∈ refused (settle_promise p s) else state_of r (settle_promise p s) = co_resumable).
Lemma suspended_waits s r : co_ok None s -> r ∈ used s -> state_of r s = co_suspended -> (r ∈ stranded s) \/ (r ∈ refused s) \/ resumed_by_task r s \/ exists p, resumed_by p r s.
Proof.
  intros O U Sp. destruct (ok_valid _ _ _ O r ltac:(apply elem_of_app; now left)) as [c E]. pose proof Sp as Sp'. unfold state_of in Sp. rewrite E in Sp.
  assert (Aw : forall o, o = awoken <$> routines s !! r -> match o with Some c => co_state c | None => co_finished end = co_resumable).
  { intros o ->. rewrite E. cbn. unfold awoken. now rewrite decide_True. }
  destruct (ok_waiting _ _ _ O r c U ltac:(discriminate) E Sp) as [St|[Rf|[Po|[p W]]]]; [now left|right; now left|right; right; left|right; right; right].
  - apply list_elem_of_lookup_1 in Po as [n En]. exists n. split; [exact En|]. unfold run_posted. rewrite En. unfold state_of. apply Aw. rewrite activate_lookup, decide_True by reflexivity. reflexivity.
  - exists p. destruct (ok_waiters _ _ _ O p r W) as (Np & _). split; [exact Np|]. split; [exact W|]. unfold settle_promise. rewrite decide_False by exact Np.
    assert (Ws : r ∈ map snd (filter (fun w => w.1 = p) (waiters s))) by (apply list_elem_of_fmap; exists (p, r); split; [reflexivity|]; apply list_elem_of_filter; auto).
    unfold execute_callbacks. cbn [schedule_available schedule_enqueues set_promises]. destruct (schedule_available s); [destruct (schedule_enqueues s); cbn; apply elem_of_app; auto|].
    unfold state_of. apply Aw. now rewrite wake_all_lookup, decide_True by exact Ws.
Qed.

(** (C14) Triggering the coroutines returns: every execution takes a step of a program or a coroutine out of use, and so many rounds are enough.  Then each coroutine in use is suspended, or was
    activated by another thread since it was last looked at (no one is, where no other thread acts).  A suspended one goes on when the promise it waits for is settled or a task of the
    schedule is run, unless another coroutine displaced it by awaiting the same promise, or a schedule that stops has refused its task or refuses it then.  There are at most [max_coroutines], if there were before. *)
Theorem coroutines_trigger_ends s max_coroutines fuel : reachable s -> (co_work (taken max_coroutines s) < fuel)%nat ->
  exists s' b, trigger_async fuel false max_coroutines s = Some (s', b) /\
    (forall r, r ∈ used s' -> state_of r s' = co_resumable \/
      state_of r s' = co_suspended /\ ((r ∈ stranded s') \/ (r ∈ refused s') \/ resumed_by_task r s' \/ exists p, resumed_by p r s')) /\
    (co_incoming s = [] -> forall r, r ∈ used s' -> state_of r s' = co_suspended) /\
    ((length (used s) <= max_coroutines)%nat -> Z.of_nat max_coroutines < 2 ^ 64 -> (length (used s') <= max_coroutines)%nat).
Proof.
  intros R L. pose proof (reachable_ok s R) as O. destruct (trigger_cases fuel max_coroutines s) as [e Et]. destruct (taken_ok max_coroutines s O) as (O1 & I1 & Lu).
  destruct (rounds_ok fuel _ e O1 L) as (s' & e' & Er & A & Id & No). rewrite Er in Et. exists s', (0 <? e')%nat. split; [exact Et|]. split; [|split; [auto|]].
  - intros r U. destruct (Id r U) as [Sp|Re]; [right; split; [exact Sp|]; apply suspended_waits; [apply A|exact U|exact Sp]|now left].
  - intros Lm Lx. pose proof (ad_used _ _ _ A). specialize (Lu Lm Lx). lia.
Qed.

End Spec.

(** ** Runs of three coroutines *)

Definition sample_procedure (t : nat) : program :=
  match t with
  | 0%nat => [do_tell 1; do_await 7; do_tell 2]
  | 1%nat => [do_tell 10; do_suspend; do_settle 7; do_spawn 2; do_tell 11]
  | 2%nat => [do_tell 20]
  | _ => [do_await 7; do_tell 30]
  end.
Abbreviation as_is := (fun l : list nat => l).
(** A queue that gives out the second task first where another thread gave it. *)
Definition sample_take (taken q : list (nat * nat)) : option nat :=
  match q with [] => None | a :: b :: _ => Some (if a.1 =? b.1 then 0 else 1)%nat | _ => Some 0%nat end.
Abbreviation run_trigger := (fun s => match trigger_async sample_procedure as_is sample_take 20 false 2 s with Some (s, _) => s | None => s end).
Abbreviation give := (fun producer t s => other_step s (other_gives producer t)).
Definition two_given : costate := give 2%nat 1%nat (give 1%nat 0%nat (new_costate [])).
Lemma two_reachable : reachable sample_procedure as_is sample_take two_given.
Proof. unfold two_given. cbv beta. do 2 apply reach_other. apply reach_new. Qed.
Lemma coroutines_trigger_ends_witness : said (run_trigger (run_posted 0 (run_trigger two_given))) = [(1, 1); (0, 10); (0, 11); (2, 20); (1, 2)]%nat /\
  exists s' b, trigger_async sample_procedure as_is sample_take 20 false 2 two_given = Some (s', b) /\
    (forall r, r ∈ used s' -> state_of r s' = co_resumable \/
      state_of r s' = co_suspended /\ ((r ∈ stranded s') \/ (r ∈ refused s') \/ resumed_by_task r s' \/ exists p, resumed_by p r s')) /\
    (co_incoming two_given = [] -> forall r, r ∈ used s' -> state_of r s' = co_suspended) /\
    ((length (used two_given) <= 2)%nat -> Z.of_nat 2 < 2 ^ 64 -> (length (used s') <= 2)%nat).
Proof.
  split; [vm_compute; reflexivity|]. apply (coroutines_trigger_ends sample_procedure as_is sample_take (fun l => Permutation_refl l) two_given 2 20); [exact two_reachable|]. vm_compute. lia.
Defined.

(** Two coroutines that await one promise: the second takes the place of the first, which is not resumed when the promise is settled and keeps its place for good. *)
Theorem coroutine_stranded :
  let s := run_trigger (run_posted 0 (settle_promise 7 (run_trigger (give 1%nat 3%nat (give 1%nat 3%nat (new_costate [])))))) in
  said s = [(0, 30)]%nat /\ used s = [1%nat] /\ state_of 1 s = co_suspended /\ waiters s = [] /\ posted s = [] /\ run_trigger s = s.
Proof. cbv zeta. do 5 (split; [vm_compute; reflexivity|]). vm_compute. reflexivity. Qed.
