(* ===== verification/Timers.v ===== *)
(** * Timers: the timeouts of [schedule] (core.cpp 10991-11030, 11081-11135, 11241-11260, 11305-11380, 11693-11702; core.h 2194-2206, 2396-2402)

    [timeouts->queue] is an ordered map from the time a timer is due to the timer, the list of its entries here; times are microseconds in
    64 bits.  A timer that is due becomes a task of [sync->queue]; the task of an interval calls its callback and files the timer again afterwards.  A callback
    is a number, and [calls] says which timers it sets and clears.  [made], [called], [removed], [dropped] and [finished] keep what the ids went through; the
    program does not have them. *)
From S2P Require Import Prelude.
From stdpp Require Import list.
Open Scope Z_scope.

Definition INVALID_TASK_ID : Z := 0.

Record timeout := mk_timeout { to_expires : Z; to_callback : nat; to_id : Z; to_alive : bool }.
(** A task: the callback of a timer that is done with, or an interval that is to be filed again. *)
Inductive timer_task :=
| call_once (callback : nat) (id : Z)
| call_again (next : timeout).
Inductive timer_call :=
| call_set (alive : bool) (milliseconds : Z) (callback : nat)
| call_clear (id : Z).

Record timeouts := mk_timeouts {
  tq : list (Z * timeout); resync : bool; generation : Z; sync_tasks : list timer_task; returning : list timeout;
  ts_enqueue : bool; ts_active : bool; ts_suspended : bool; ts_clock : Z;
  made : list Z; calls_made : list (Z * Z); removed : list Z; dropped : list Z; finished : list Z }.
Definition set_tq (q : list (Z * timeout)) (again : bool) (s : timeouts) : timeouts :=
  mk_timeouts q again (generation s) (sync_tasks s) (returning s) (ts_enqueue s) (ts_active s) (ts_suspended s) (ts_clock s) (made s) (calls_made s) (removed s) (dropped s) (finished s).
Definition set_generation (g : Z) (ids : list Z) (s : timeouts) : timeouts :=
  mk_timeouts (tq s) (resync s) g (sync_tasks s) (returning s) (ts_enqueue s) (ts_active s) (ts_suspended s) (ts_clock s) ids (calls_made s) (removed s) (dropped s) (finished s).
Definition set_sync_tasks (ts : list timer_task) (s : timeouts) : timeouts :=
  mk_timeouts (tq s) (resync s) (generation s) ts (returning s) (ts_enqueue s) (ts_active s) (ts_suspended s) (ts_clock s) (made s) (calls_made s) (removed s) (dropped s) (finished s).
Definition set_returning (l : list timeout) (s : timeouts) : timeouts :=
  mk_timeouts (tq s) (resync s) (generation s) (sync_tasks s) l (ts_enqueue s) (ts_active s) (ts_suspended s) (ts_clock s) (made s) (calls_made s) (removed s) (dropped s) (finished s).
Definition set_ts_flags (enqueue active suspended : bool) (s : timeouts) : timeouts :=
  mk_timeouts (tq s) (resync s) (generation s) (sync_tasks s) (returning s) enqueue active suspended (ts_clock s) (made s) (calls_made s) (removed s) (dropped s) (finished s).
Definition set_ts_clock (t : Z) (s : timeouts) : timeouts :=
  mk_timeouts (tq s) (resync s) (generation s) (sync_tasks s) (returning s) (ts_enqueue s) (ts_active s) (ts_suspended s) t (made s) (calls_made s) (removed s) (dropped s) (finished s).
Definition note_calls (l : list (Z * Z)) (s : timeouts) : timeouts :=
  mk_timeouts (tq s) (resync s) (generation s) (sync_tasks s) (returning s) (ts_enqueue s) (ts_active s) (ts_suspended s) (ts_clock s) (made s) l (removed s) (dropped s) (finished s).
Definition note_ends (r d f : list Z) (s : timeouts) : timeouts :=
  mk_timeouts (tq s) (resync s) (generation s) (sync_tasks s) (returning s) (ts_enqueue s) (ts_active s) (ts_suspended s) (ts_clock s) (made s) (calls_made s) r d f.
Definition new_timeouts (clock : Z) : timeouts := mk_timeouts [] true 0 [] [] true true false clock [] [] [] [] [].

(** ** The queue *)

(** [queue.emplace]: nothing for a key that is in the map. *)
Fixpoint tq_emplace (key : Z) (t : timeout) (q : list (Z * timeout)) : list (Z * timeout) :=
  match q with
  | [] => [(key, t)]
  | (k, t') :: q' => if key <? k then (key, t) :: q else if key =? k then q else (k, t') :: tq_emplace key t q'
  end.
Definition tq_has (key : Z) (q : list (Z * timeout)) : bool := existsb (fun e => e.1 =? key) q.
Fixpoint get_timeout_loop (fuel : nat) (clock : Z) (q : list (Z * timeout)) : option Z :=
  if tq_has clock q then match fuel with O => None | S fuel => get_timeout_loop fuel (i64 (clock + 1)) q end else Some clock.
Definition get_timeout (clock : Z) (q : list (Z * timeout)) : option Z := get_timeout_loop (length q) clock q.
Definition get_task_id (s : timeouts) : timeouts * Z :=
  let id := u64 (generation s + 1) in
  let id := if id =? INVALID_TASK_ID then u64 (id + 1) else id in
  (set_generation id (made s ++ [id]) s, id).
(** What [set_timeout], [set_interval] and the task of an interval do with a timer. *)
Definition file_timeout (t : timeout) (s : timeouts) : option timeouts :=
  key ← get_timeout (i64 (ts_clock s + to_expires t)) (tq s); Some (set_tq (tq_emplace key t (tq s)) true s).
(** The milliseconds are multiplied as [uint64_t] and stored as a signed count. *)
Definition set_timeout (alive : bool) (milliseconds : Z) (callback : nat) (s : timeouts) : option (timeouts * Z) :=
  if negb (ts_enqueue s) then Some (s, INVALID_TASK_ID)
  else
    let duration := i64 (u64 (milliseconds * 1000)) in
    let (s, id) := get_task_id s in
    s ← file_timeout (mk_timeout duration callback id alive) s; Some (s, id).
Fixpoint tq_remove (target : Z) (q : list (Z * timeout)) : option (list (Z * timeout)) :=
  match q with
  | [] => None
  | (k, t) :: q => if to_id t =? target then Some q else q ← tq_remove target q; Some ((k, t) :: q)
  end.
Definition clear_timeout (target : Z) (s : timeouts) : timeouts * bool :=
  if target =? INVALID_TASK_ID then (s, false)
  else
    match tq_remove target (tq s) with
    | Some q => (set_tq q true (note_ends (target :: removed s) (dropped s) (finished s) s), true)
    | None => (s, false)
    end.

(** ** Timers that are due *)

Definition task_id (t : timer_task) : Z := match t with call_once _ id => id | call_again t => to_id t end.
(** [set_task], which refuses tasks while the scheduler stops. *)
Definition add_task (t : timer_task) (s : timeouts) : timeouts :=
  if ts_enqueue s then set_sync_tasks (sync_tasks s ++ [t]) s else note_ends (removed s) (task_id t :: dropped s) (finished s) s.
Definition task_of_timeout (again : bool) (t : timeout) : timer_task := if again then call_again t else call_once (to_callback t) (to_id t).
Definition add_callback (s : timeouts) (e : Z * timeout) : timeouts := add_task (task_of_timeout false e.2) s.
Definition trigger_timers (s : timeouts) : timeouts * bool :=
  (set_tq [] true (fold_left add_callback (tq s) s), (0 <? length (tq s))%nat).
(** [schedule::trigger] for timers. *)
Definition trigger_timeout (s : timeouts) : timeouts * bool :=
  match tq s with
  | [] => (s, false)
  | (key, t) :: q =>
      if ts_suspended s then (s, true)
      else if ts_clock s <=? key then (s, true)
      else (add_task (task_of_timeout (to_alive t && ts_active s) t) (set_tq q (resync s) s), true)
  end.
(** One round of the timer thread's [retry]; how long it sleeps when there is none. *)
Definition timer_round (s : timeouts) : option timeouts :=
  match tq s with
  | (key, t) :: q => if key <=? ts_clock s then Some (add_task (task_of_timeout (to_alive t) t) (set_tq q (resync s) s)) else None
  | [] => None
  end.
Fixpoint timer_pass (fuel : nat) (s : timeouts) : option timeouts :=
  match fuel with
  | O => None
  | S fuel => match timer_round s with Some s => timer_pass fuel s | None => Some s end
  end.
Definition sleep_time (idle_timeout : Z) (s : timeouts) : Z :=
  match tq s with
  | (key, _) :: _ => let when_ := i64 (key - ts_clock s) in if idle_timeout <? when_ then idle_timeout else when_
  | [] => idle_timeout
  end.
(** The predicate of [wait_for]. *)
Definition timer_awake (thread_active : bool) (s : timeouts) : bool := negb thread_active || resync s || (0 <? length (sync_tasks s))%nat.

(** ** Tasks *)

Section Calls.
Context (calls : nat -> list timer_call).

Definition make_call (c : timer_call) (s : timeouts) : option timeouts :=
  match c with
  | call_set alive ms callback => r ← set_timeout alive ms callback s; Some r.1
  | call_clear id => Some (clear_timeout id s).1
  end.
Fixpoint make_calls (cs : list timer_call) (s : timeouts) : option timeouts :=
  match cs with [] => Some s | c :: cs => s ← make_call c s; make_calls cs s end.
(** A thread takes a task and calls its callback; an interval is then to be filed. *)
Definition run_timer_task (n : nat) (s : timeouts) : option timeouts :=
  t ← sync_tasks s !! n;
  let s := set_sync_tasks (delete n (sync_tasks s)) s in
  let s := note_calls (calls_made s ++ [(task_id t, ts_clock s)]) s in
  match t with
  | call_once callback id => make_calls (calls callback) (note_ends (removed s) (dropped s) (id :: finished s) s)
  | call_again next => make_calls (calls (to_callback next)) (set_returning (next :: returning s) s)
  end.
Definition file_again (n : nat) (s : timeouts) : option timeouts :=
  t ← returning s !! n; file_timeout t (set_returning (delete n (returning s)) s).

(** ** Runs *)

Inductive timer_event :=
| ev_call (c : timer_call)
| ev_trigger
| ev_trigger_timers
| ev_round
| ev_run (n : nat)
| ev_file_again (n : nat)
| ev_asleep
| ev_clock (t : Z)
| ev_flags (enqueue active suspended : bool)
| ev_stopped.
(** [None]: the event cannot happen; [ev_asleep] is the end of the thread's wait, [ev_stopped] the clearing by [stop]. *)
Definition timer_step (e : timer_event) (s : timeouts) : option timeouts :=
  match e with
  | ev_call c => make_call c s
  | ev_trigger => Some (trigger_timeout s).1
  | ev_trigger_timers => Some (trigger_timers s).1
  | ev_round => timer_round s
  | ev_run n => run_timer_task n s
  | ev_file_again n => file_again n s
  | ev_asleep => Some (set_tq (tq s) false s)
  | ev_clock t => Some (set_ts_clock t s)
  | ev_flags enqueue active suspended => Some (set_ts_flags enqueue active suspended s)
  | ev_stopped => Some (set_tq [] (resync s) (note_ends (removed s) (map (fun e => to_id e.2) (tq s) ++ dropped s) (finished s) s))
  end.
Fixpoint timer_run (es : list timer_event) (s : timeouts) : option timeouts :=
  match es with [] => Some s | e :: es => s ← timer_step e s; timer_run es s end.
End Calls.
