(* ===== verification/TimersFacts.v ===== *)
(** * Timers: every timer is in one place, due timers are called in order *)
From S2P Require Import Prelude Timers.
From stdpp Require Import list.
From Stdlib Require Import Sorting.Sorted.
Open Scope Z_scope.

(** ** The ordered map *)

Definition keys (q : list (Z * timeout)) : list Z := map fst q.
Lemma tq_has_keys key q : tq_has key q = true <-> key ∈ keys q.
Proof.
  unfold tq_has, keys. rewrite existsb_exists, list_elem_of_fmap. split.
  - intros ([k t] & H & E). cbn in E. apply Z.eqb_eq in E. subst k. exists (key, t). now rewrite list_elem_of_In.
  - intros ([k t] & -> & H). exists (k, t). rewrite <- list_elem_of_In. cbn. now rewrite Z.eqb_refl.
Qed.
Lemma emplace_permutation key t q : tq_has key q = false -> tq_emplace key t q ≡ₚ (key, t) :: q.
Proof.
  induction q as [|[k t'] q IH]; intros H; [reflexivity|]. cbn in H. apply orb_false_iff in H as [N H]. cbn. destruct (key <? k); [reflexivity|].
  destruct (Z.eqb_spec key k) as [->|_]; [now rewrite Z.eqb_refl in N|]. rewrite (IH H). apply Permutation_swap.
Qed.
Lemma emplace_keys key t q x : x ∈ keys (tq_emplace key t q) -> x = key \/ x ∈ keys q.
Proof.
  induction q as [|[k t'] q IH]; cbn; [intros H; apply list_elem_of_singleton in H; auto|]. destruct (key <? k); [cbn; rewrite !elem_of_cons; tauto|].
  destruct (key =? k); cbn; rewrite ?elem_of_cons; tauto.
Qed.
Lemma emplace_sorted key t q : StronglySorted Z.lt (keys q) -> StronglySorted Z.lt (keys (tq_emplace key t q)).
Proof.
  induction q as [|[k t'] q IH]; intros H; [repeat constructor|]. cbn in H. apply StronglySorted_inv in H as [H A]. cbn. rewrite List.Forall_forall in A. destruct (Z.ltb_spec key k).
  - cbn. constructor; [constructor; [exact H|now rewrite List.Forall_forall]|]. constructor; [assumption|]. rewrite List.Forall_forall. intros x Ix. specialize (A x Ix). lia.
  - destruct (Z.eqb_spec key k); cbn; (constructor; [auto|]); rewrite List.Forall_forall; [exact A|]. intros x Ix. rewrite <- list_elem_of_In in Ix. apply emplace_keys in Ix as [->|Ix]; [lia|]. apply A. now rewrite <- list_elem_of_In.
Qed.
Lemma tq_remove_spec id q : match tq_remove id q with
  | Some q' => exists k t, to_id t = id /\ q ≡ₚ (k, t) :: q' /\ (StronglySorted Z.lt (keys q) -> StronglySorted Z.lt (keys q')) /\ (forall x, x ∈ keys q' -> x ∈ keys q)
  | None => forall k t, (k, t) ∈ q -> to_id t <> id end.
Proof.
  induction q as [|[k t] q IH]; cbn; [intros k t H; now apply not_elem_of_nil in H|]. destruct (Z.eqb_spec (to_id t) id) as [E|N].
  - exists k, t. split; [exact E|]. split; [reflexivity|]. split; [intros H; now apply StronglySorted_inv in H|]. cbn. intros x H. now right.
  - destruct (tq_remove id q) as [q'|]; cbn.
    + destruct IH as (k' & t' & E & P & S & I). exists k', t'. split; [exact E|]. split; [rewrite P; apply Permutation_swap|]. split.
      * intros H. cbn in *. apply StronglySorted_inv in H as [H A]. rewrite List.Forall_forall in A. constructor; [auto|]. rewrite List.Forall_forall. intros x Hx. apply A. rewrite <- list_elem_of_In in *. auto.
      * cbn. intros x [->|H]%elem_of_cons; [left|right; auto].
    + intros k' t' [[= -> ->]|H]%elem_of_cons; [exact N|eauto].
Qed.

(** The search for a free key: it ends since there are more times than timers. *)
Lemma i64_step x j : i64 (i64 x + Z.of_nat j) = i64 (x + Z.of_nat j).
Proof. unfold wrapS. f_equal. replace ((x + 2 ^ (64 - 1)) mod 2 ^ 64 - 2 ^ (64 - 1) + Z.of_nat j + 2 ^ (64 - 1)) with ((x + 2 ^ (64 - 1)) mod 2 ^ 64 + Z.of_nat j) by lia. rewrite Zplus_mod_idemp_l. f_equal. lia. Qed.
Lemma i64_inside x : - 2 ^ 63 <= x < 2 ^ 63 -> i64 x = x.
Proof. intros H. unfold wrapS. rewrite Z.mod_small; lia. Qed.
Lemma get_timeout_loop_spec q fuel : forall clock, i64 clock = clock -> match get_timeout_loop fuel clock q with
  | Some key => tq_has key q = false /\ exists j, (j <= fuel)%nat /\ key = i64 (clock + Z.of_nat j) /\ forall i, (i < j)%nat -> i64 (clock + Z.of_nat i) ∈ keys q
  | None => forall i, (i <= fuel)%nat -> i64 (clock + Z.of_nat i) ∈ keys q end.
Proof.
  induction fuel as [|fuel IH]; intros clock Hc; cbn [get_timeout_loop]; destruct (tq_has clock q) eqn:E.
  - intros i Hi. replace i with 0%nat by lia. rewrite Z.add_0_r, Hc. now apply tq_has_keys.
  - split; [exact E|]. exists 0%nat. split; [lia|]. rewrite Z.add_0_r, Hc. split; [reflexivity|]. lia.
  - assert (Ic : i64 (i64 (clock + 1)) = i64 (clock + 1)) by (unfold wrapS; lia). specialize (IH (i64 (clock + 1)) Ic).
    assert (Sh : forall i, i64 (i64 (clock + 1) + Z.of_nat i) = i64 (clock + Z.of_nat (S i))) by (intros i; rewrite i64_step; f_equal; lia).
    assert (K0 : i64 (clock + Z.of_nat 0) ∈ keys q) by (rewrite Z.add_0_r, Hc; now apply tq_has_keys).
    destruct (get_timeout_loop fuel _ q) as [key|].
    + destruct IH as (F & j & Lj & Ek & Kj). split; [exact F|]. exists (S j). split; [lia|]. split; [now rewrite Ek, Sh|]. intros [|i] Hi; [exact K0|]. rewrite <- Sh. apply Kj. lia.
    + intros [|i] Hi; [exact K0|]. rewrite <- Sh. apply IH. lia.
  - split; [exact E|]. exists 0%nat. split; [lia|]. rewrite Z.add_0_r, Hc. split; [reflexivity|]. lia.
Qed.
Lemma get_timeout_found clock q : i64 clock = clock -> Z.of_nat (length q) < 2 ^ 64 -> exists j, (j <= length q)%nat /\ get_timeout clock q = Some (i64 (clock + Z.of_nat j)) /\
  tq_has (i64 (clock + Z.of_nat j)) q = false /\ forall i, (i < j)%nat -> i64 (clock + Z.of_nat i) ∈ keys q.
Proof.
  intros Hc L. unfold get_timeout. pose proof (get_timeout_loop_spec q (length q) clock Hc) as Sp. destruct (get_timeout_loop (length q) clock q) as [key|].
  - destruct Sp as (F & j & Lj & -> & K). eauto 10.
  - exfalso. pose (l := map (fun i => i64 (clock + Z.of_nat i)) (seq 0 (S (length q)))). assert (Len : length l = S (length q)) by (unfold l; now rewrite length_map, length_seq).
    assert (ND : List.NoDup l).
    { unfold l. apply Finite.Injective_map_NoDup_in; [|apply seq_NoDup]. intros i j Hi Hj E. apply in_seq in Hi, Hj. unfold wrapS in E. lia. }
    pose proof (NoDup_incl_length ND (l' := keys q)) as I. unfold keys in I at 2. rewrite length_map, Len in I. enough (S (length q) <= length q)%nat by lia. apply I. intros x Hx. apply in_map_iff in Hx as (i & <- & Hi). apply in_seq in Hi. rewrite <- list_elem_of_In. apply Sp. lia.
Qed.

(** ** The places of a timer *)

Definition queue_ids (q : list (Z * timeout)) : list Z := map (fun e => to_id e.2) q.
Definition places (s : timeouts) : list Z := queue_ids (tq s) ++ map task_id (sync_tasks s) ++ map to_id (returning s) ++ removed s ++ dropped s ++ finished s.
(** [ts_ok_for extra s]: the timers in [extra] are in the hands of an operation. *)
Record ts_ok_for (extra : list Z) (s : timeouts) : Prop := mk_ts_ok {
  ts_sorted : StronglySorted Z.lt (keys (tq s));
  ts_places : made s ≡ₚ extra ++ places s;
  ts_ids : Z.of_nat (length (made s)) < 2 ^ 64 -> generation s = Z.of_nat (length (made s)) /\ made s = map Z.of_nat (seq 1 (length (made s))) }.
Abbreviation ts_ok := (ts_ok_for []).

Lemma new_timeouts_ok clock : ts_ok (new_timeouts clock).
Proof. split; cbn; [constructor|reflexivity|auto]. Qed.
Lemma ids_nodup extra s : ts_ok_for extra s -> Z.of_nat (length (made s)) < 2 ^ 64 -> NoDup (made s).
Proof. intros O L. destruct (ts_ids _ _ O L) as [_ ->]. apply NoDup_fmap_2; [exact Nat2Z.inj|]. apply NoDup_ListNoDup, seq_NoDup. Qed.

(** Nothing but the log and the places change, and what was made stays in front. *)
Record grows (s s' : timeouts) : Prop := mk_grows {
  grows_made : exists more, made s' = made s ++ more;
  grows_calls : calls_made s' = calls_made s;
  grows_over : (forall id, id ∈ removed s -> id ∈ removed s') /\ (forall id, id ∈ dropped s -> id ∈ dropped s') /\ (forall id, id ∈ finished s -> id ∈ finished s') }.
Lemma grows_refl s : grows s s.
Proof. split; auto. exists []. now rewrite app_nil_r. Qed.
Lemma grows_trans a b c : grows a b -> grows b c -> grows a c.
Proof. intros [[m M] C (A1 & A2 & A3)] [[m' M'] C' (B1 & B2 & B3)]. split; [exists (m ++ m'); rewrite M', M; symmetry; apply app_assoc|congruence|repeat split; auto]. Qed.

Lemma file_timeout_ok t extra s s' : ts_ok_for (to_id t :: extra) s -> file_timeout t s = Some s' -> ts_ok_for extra s' /\ grows s s'.
Proof.
  intros O E. unfold file_timeout in E. destruct (get_timeout _ (tq s)) as [key|] eqn:Eg; [|discriminate]. injection E as <-.
  assert (Fr : tq_has key (tq s) = false).
  { unfold get_timeout in Eg. pose proof (get_timeout_loop_spec (tq s) (length (tq s)) (i64 (ts_clock s + to_expires t)) ltac:(unfold wrapS; lia)) as Sp. rewrite Eg in Sp. tauto. }
  split; [|split; [exists []; symmetry; apply app_nil_r|reflexivity|auto]]. split; cbn [tq made generation set_tq].
  - apply emplace_sorted, (ts_sorted _ _ O).
  - rewrite (ts_places _ _ O). unfold places, queue_ids. cbn [tq sync_tasks returning removed dropped finished set_tq]. rewrite (emplace_permutation key t (tq s) Fr). cbn. solve_Permutation.
  - exact (ts_ids _ _ O).
Qed.
Lemma file_timeout_returns t s : Z.of_nat (length (tq s)) < 2 ^ 64 -> exists s', file_timeout t s = Some s'.
Proof.
  intros L. unfold file_timeout. destruct (get_timeout_found (i64 (ts_clock s + to_expires t)) (tq s) ltac:(unfold wrapS; lia) L) as (j & _ & -> & _). cbn. eauto.
Qed.
Lemma get_task_id_ok extra s : ts_ok_for extra s -> let (s', id) := get_task_id s in ts_ok_for (id :: extra) s' /\ grows s s'.
Proof.
  intros O. unfold get_task_id. set (id := if _ =? _ then _ else _). split; [|split; [cbn; eauto|reflexivity|auto]]. split; cbn [tq made generation set_generation].
  - exact (ts_sorted _ _ O).
  - unfold places. cbn [tq sync_tasks returning removed dropped finished set_generation]. rewrite (ts_places _ _ O). unfold places. solve_Permutation.
  - rewrite length_app. cbn [length]. intros L. destruct (ts_ids _ _ O ltac:(lia)) as [G M].
    assert (Ei : id = Z.of_nat (length (made s)) + 1).
    { unfold id. rewrite G. unfold wrapU, INVALID_TASK_ID. rewrite Z.mod_small by lia. destruct (Z.eqb_spec (Z.of_nat (length (made s)) + 1) 0); lia. }
    split; [lia|]. rewrite M at 1. rewrite Nat.add_1_r, seq_S, map_app. cbn [map]. f_equal. f_equal. lia.
Qed.
Lemma set_timeout_ok alive ms callback extra s s' id : ts_ok_for extra s -> set_timeout alive ms callback s = Some (s', id) -> ts_ok_for extra s' /\ grows s s'.
Proof.
  intros O E. unfold set_timeout in E. destruct (negb (ts_enqueue s)); [injection E as <- _; split; [exact O|apply grows_refl]|].
  pose proof (get_task_id_ok extra s O) as G. destruct (get_task_id s) as [s1 id1]. destruct G as [O1 G1]. destruct (file_timeout _ s1) as [s2|] eqn:Ef; [|discriminate]. injection E as <- _.
  destruct (file_timeout_ok (mk_timeout _ callback id1 alive) extra s1 s2 O1 Ef) as [O2 G2]. split; [exact O2|exact (grows_trans _ _ _ G1 G2)].
Qed.
Lemma clear_timeout_ok id extra s : ts_ok_for extra s -> ts_ok_for extra (clear_timeout id s).1 /\ grows s (clear_timeout id s).1.
Proof.
  intros O. unfold clear_timeout. destruct (id =? INVALID_TASK_ID); [split; [exact O|apply grows_refl]|]. pose proof (tq_remove_spec id (tq s)) as R.
  destruct (tq_remove id (tq s)) as [q|]; [|split; [exact O|apply grows_refl]]. destruct R as (k & t & Et & P & Sp & _). cbn [fst].
  split; [|split; [exists []; symmetry; apply app_nil_r|reflexivity|repeat split; cbn; intros i Hi; first [exact Hi|right; exact Hi]]]. split; cbn [tq made generation set_tq note_ends].
  - apply Sp, (ts_sorted _ _ O).
  - rewrite (ts_places _ _ O). unfold places, queue_ids. cbn [tq sync_tasks returning removed dropped finished set_tq note_ends]. rewrite P. cbn. rewrite Et. solve_Permutation.
  - exact (ts_ids _ _ O).
Qed.
Lemma add_task_ok t extra s : ts_ok_for (task_id t :: extra) s -> ts_ok_for extra (add_task t s) /\ grows s (add_task t s).
Proof.
  intros O. unfold add_task. destruct (ts_enqueue s).
  - split; [|split; [exists []; symmetry; apply app_nil_r|reflexivity|auto]]. split; [exact (ts_sorted _ _ O)| |exact (ts_ids _ _ O)].
    cbn [made set_sync_tasks]. rewrite (ts_places _ _ O). unfold places. cbn [tq sync_tasks returning removed dropped finished set_sync_tasks]. rewrite map_app. cbn. solve_Permutation.
  - split; [|split; [exists []; symmetry; apply app_nil_r|reflexivity|repeat split; cbn; intros i Hi; first [exact Hi|right; exact Hi]]]. split; [exact (ts_sorted _ _ O)| |exact (ts_ids _ _ O)].
    cbn [made note_ends]. rewrite (ts_places _ _ O). unfold places. cbn [tq sync_tasks returning removed dropped finished note_ends]. solve_Permutation.
Qed.

Lemma take_first_ok key t q r s : ts_ok s -> tq s = (key, t) :: q -> ts_ok_for [to_id t] (set_tq q r s) /\ grows s (set_tq q r s).
Proof.
  intros O E. split; [|split; [exists []; symmetry; apply app_nil_r|reflexivity|auto]]. split; cbn [tq made generation set_tq].
  - pose proof (ts_sorted _ _ O) as Sd. rewrite E in Sd. now apply StronglySorted_inv in Sd.
  - rewrite (ts_places _ _ O). unfold places, queue_ids. cbn [tq sync_tasks returning removed dropped finished set_tq]. rewrite E. cbn. solve_Permutation.
  - exact (ts_ids _ _ O).
Qed.
Lemma task_of_timeout_id again t : task_id (task_of_timeout again t) = to_id t.
Proof. now destruct again. Qed.
Lemma move_first_ok again key t q r s : ts_ok s -> tq s = (key, t) :: q -> let s' := add_task (task_of_timeout again t) (set_tq q r s) in ts_ok s' /\ grows s s'.
Proof.
  intros O E. cbn zeta. destruct (take_first_ok key t q r s O E) as [O1 G1]. destruct (add_task_ok (task_of_timeout again t) [] (set_tq q r s)) as [O2 G2]; [now rewrite task_of_timeout_id|].
  split; [exact O2|exact (grows_trans _ _ _ G1 G2)].
Qed.
Lemma add_all_ok l : forall extra s, ts_ok_for (queue_ids l ++ extra) s -> let s' := fold_left add_callback l s in ts_ok_for extra s' /\ grows s s'.
Proof.
  induction l as [|[k t] l IH]; intros extra s O; [split; [exact O|apply grows_refl]|]. cbn [fold_left]. unfold add_callback at 2; cbn [snd]. destruct (add_task_ok (task_of_timeout false t) (queue_ids l ++ extra) s) as [O1 G1]; [exact O|].
  destruct (IH extra _ O1) as [O2 G2]. split; [exact O2|exact (grows_trans _ _ _ G1 G2)].
Qed.
Lemma add_all_queue q r l : forall s, set_tq q r (fold_left add_callback l s) = fold_left add_callback l (set_tq q r s).
Proof. induction l as [|[k t] l IH]; intros s; [reflexivity|]. cbn [fold_left]. rewrite IH. f_equal. unfold add_callback, add_task. cbn [ts_enqueue set_tq]. now destruct (ts_enqueue s). Qed.
Lemma empty_queue_ok r s : ts_ok s -> ts_ok_for (queue_ids (tq s)) (set_tq [] r s).
Proof.
  intros O. split; [constructor| |exact (ts_ids _ _ O)]. cbn [made set_tq]. rewrite (ts_places _ _ O). unfold places. cbn [tq sync_tasks returning removed dropped finished set_tq]. reflexivity.
Qed.

Section Calls.
Context (calls : nat -> list timer_call).

Lemma make_call_ok c s s' : ts_ok s -> make_call c s = Some s' -> ts_ok s' /\ grows s s'.
Proof.
  intros O. destruct c as [alive ms callback|id]; cbn.
  - destruct (set_timeout alive ms callback s) as [[s1 id]|] eqn:E; [|discriminate]. cbn. intros [= <-]. eapply set_timeout_ok; eassumption.
  - intros [= <-]. now apply clear_timeout_ok.
Qed.
Lemma make_calls_ok cs : forall s s', ts_ok s -> make_calls cs s = Some s' -> ts_ok s' /\ grows s s'.
Proof.
  induction cs as [|c cs IH]; intros s s' O; cbn; [intros [= <-]; split; [exact O|apply grows_refl]|]. destruct (make_call c s) as [s1|] eqn:E; [|discriminate]. cbn. intros H.
  destruct (make_call_ok c s s1 O E) as [O1 G1], (IH s1 s' O1 H) as [O2 G2]. split; [exact O2|exact (grows_trans _ _ _ G1 G2)].
Qed.
Lemma run_task_ok n s s' : ts_ok s -> run_timer_task calls n s = Some s' -> exists t s1, sync_tasks s !! n = Some t /\ ts_ok s1 /\ ts_ok s' /\ grows s1 s' /\
  made s1 = made s /\ calls_made s1 = calls_made s ++ [(task_id t, ts_clock s)] /\
  removed s1 = removed s /\ dropped s1 = dropped s /\ finished s1 = match t with call_once _ id => id :: finished s | _ => finished s end.
Proof.
  intros O. unfold run_timer_task. destruct (sync_tasks s !! n) as [t|] eqn:En; [|discriminate]. cbn [mbind option_bind].
  pose proof (Permutation_map task_id (delete_Permutation _ _ _ En)) as P. cbn [map] in P. set (s0 := note_calls _ _). intros H. exists t.
  assert (O1 : forall s1, s1 = match t with call_once _ id => note_ends (removed s0) (dropped s0) (id :: finished s0) s0 | call_again next => set_returning (next :: returning s0) s0 end -> ts_ok s1).
  { intros s1 ->. destruct t as [cb id|next]; (split; [exact (ts_sorted _ _ O)| |exact (ts_ids _ _ O)]); unfold s0; cbn [made note_ends set_returning note_calls set_sync_tasks]; rewrite (ts_places _ _ O); unfold places;
      cbn [tq sync_tasks returning removed dropped finished note_ends set_returning note_calls set_sync_tasks]; rewrite P; cbn; solve_Permutation. }
  destruct t as [cb id|next]; specialize (O1 _ eq_refl); destruct (make_calls_ok _ _ _ O1 H) as [O2 G2]; eexists; (split; [reflexivity|]); (split; [exact O1|]); (split; [exact O2|]); (split; [exact G2|]); repeat split.
Qed.
Lemma file_again_ok n s s' : ts_ok s -> file_again n s = Some s' -> ts_ok s' /\ grows s s'.
Proof.
  intros O. unfold file_again. destruct (returning s !! n) as [t|] eqn:En; [|discriminate]. cbn [mbind option_bind]. intros H. pose proof (Permutation_map to_id (delete_Permutation _ _ _ En)) as P. cbn [map] in P.
  apply (file_timeout_ok t [] (set_returning (delete n (returning s)) s)) in H as [O' G]; [split; [exact O'|destruct G; split; assumption]|].
  split; [exact (ts_sorted _ _ O)| |exact (ts_ids _ _ O)]. cbn [made set_returning]. rewrite (ts_places _ _ O). unfold places. cbn [tq sync_tasks returning removed dropped finished set_returning]. rewrite P. cbn. solve_Permutation.
Qed.

(** An event keeps the invariant; only the run of a task calls, the timer whose task it is. *)
Lemma timer_step_ok e s s' : ts_ok s -> timer_step calls e s = Some s' -> ts_ok s' /\
  (grows s s' \/ exists n t s1, e = ev_run n /\ sync_tasks s !! n = Some t /\ grows s1 s' /\ made s1 = made s /\ calls_made s1 = calls_made s ++ [(task_id t, ts_clock s)] /\
    removed s1 = removed s /\ dropped s1 = dropped s /\ finished s1 = match t with call_once _ id => id :: finished s | _ => finished s end).
Proof.
  intros O. assert (Same : forall s1, tq s1 = tq s -> sync_tasks s1 = sync_tasks s -> returning s1 = returning s -> removed s1 = removed s -> dropped s1 = dropped s -> finished s1 = finished s ->
    made s1 = made s -> generation s1 = generation s -> calls_made s1 = calls_made s -> ts_ok s1 /\ grows s s1).
  { intros s1 E1 E2 E3 E4 E5 E6 E7 E8 E9. split; [split; rewrite ?E1, ?E7, ?E8; [exact (ts_sorted _ _ O)| |exact (ts_ids _ _ O)]|split; [exists []; now rewrite app_nil_r|exact E9|rewrite E4, E5, E6; auto]].
    rewrite (ts_places _ _ O). unfold places. now rewrite E1, E2, E3, E4, E5, E6. }
  destruct e as [c| | | |n|n| |t|en ac su|]; cbn [timer_step].
  - intros H. destruct (make_call_ok c s s' O H). auto.
  - intros [= <-]. unfold trigger_timeout. destruct (tq s) as [|[key t] q] eqn:Eq; [split; [exact O|left; apply grows_refl]|]. destruct (ts_suspended s); [split; [exact O|left; apply grows_refl]|].
    destruct (_ <=? _); [split; [exact O|left; apply grows_refl]|]. destruct (move_first_ok (to_alive t && ts_active s) key t q (resync s) s O Eq). auto.
  - intros [= <-]. unfold trigger_timers. cbn [fst]. rewrite add_all_queue. pose proof (empty_queue_ok true s O) as O1. rewrite <- (app_nil_r (queue_ids (tq s))) in O1.
    destruct (add_all_ok (tq s) [] _ O1) as [O2 G2]. split; [exact O2|left]. refine (grows_trans _ _ _ _ G2). split; [exists []; symmetry; apply app_nil_r|reflexivity|auto].
  - unfold timer_round. destruct (tq s) as [|[key t] q] eqn:Eq; [discriminate|]. destruct (_ <=? _); [|discriminate]. intros [= <-]. destruct (move_first_ok (to_alive t) key t q (resync s) s O Eq). auto.
  - intros H. destruct (run_task_ok n s s' O H) as (t & s1 & A1 & _ & A3 & A4 & A5 & A6 & A7 & A8 & A9). split; [exact A3|right]. exists n, t, s1. auto 10.
  - intros H. destruct (file_again_ok n s s' O H). auto.
  - intros [= <-]. destruct (Same (set_tq (tq s) false s)); auto.
  - intros [= <-]. destruct (Same (set_ts_clock t s)); auto.
  - intros [= <-]. destruct (Same (set_ts_flags en ac su s)); auto.
  - intros [= <-]. split; [|left; split; [exists []; symmetry; apply app_nil_r|reflexivity|repeat split; cbn; intros i Hi; first [exact Hi|apply elem_of_app; right; exact Hi]]].
    split; [constructor| |exact (ts_ids _ _ O)]. cbn [made set_tq note_ends]. rewrite (ts_places _ _ O). unfold places. cbn [tq sync_tasks returning removed dropped finished set_tq note_ends]. fold (queue_ids (tq s)). cbn. solve_Permutation.
Qed.
Lemma timer_run_ok es : forall s s', ts_ok s -> timer_run calls es s = Some s' -> ts_ok s'.
Proof.
  induction es as [|e es IH]; intros s s' O; cbn; [now intros [= <-]|]. destruct (timer_step calls e s) as [s1|] eqn:E; [|discriminate]. cbn. apply IH. eapply timer_step_ok; eassumption.
Qed.
End Calls.
