(* ===== verification/TimersSpec.v ===== *)
(** * Timers: theorems on runs *)
From S2P Require Import Prelude Timers TimersFacts.
From stdpp Require Import list.
From Stdlib Require Import Sorting.Sorted.
Open Scope Z_scope.

(** (C17) Every timer that was made is in one place - the queue, a task, the hands of a thread that called an interval, or over: cleared, dropped by a scheduler that stops,
    or called for the last time - and no two are due at the same time, whatever the order of calls, threads, clocks and flags. *)
Theorem timers_accounted calls es clock s : timer_run calls es (new_timeouts clock) = Some s ->
  made s ≡ₚ queue_ids (tq s) ++ map task_id (sync_tasks s) ++ map to_id (returning s) ++ removed s ++ dropped s ++ finished s /\
  (Z.of_nat (length (made s)) < 2 ^ 64 -> NoDup (made s) /\ (INVALID_TASK_ID ∉ made s)) /\ StronglySorted Z.lt (keys (tq s)).
Proof.
  intros R. pose proof (timer_run_ok calls es _ s (new_timeouts_ok clock) R) as O. split; [exact (ts_places _ _ O)|]. split; [|exact (ts_sorted _ _ O)].
  intros L. split; [exact (ids_nodup _ s O L)|]. destruct (ts_ids _ _ O L) as [_ ->]. intros (i & E & H)%list_elem_of_fmap. rewrite list_elem_of_In, in_seq in H. unfold INVALID_TASK_ID in E. lia.
Qed.

Definition timer_over (id : Z) (s : timeouts) : Prop := id ∈ removed s ++ dropped s ++ finished s.
Lemma over_grows id s s' : grows s s' -> timer_over id s -> timer_over id s'.
Proof. intros [_ _ (A & B & C)]. unfold timer_over. rewrite !elem_of_app. intuition auto. Qed.
Definition calls_of (id : Z) (s : timeouts) : list (Z * Z) := filter (fun c => c.1 = id) (calls_made s).
Lemma over_step calls e id s s' : ts_ok s -> timer_step calls e s = Some s' -> Z.of_nat (length (made s)) < 2 ^ 64 -> timer_over id s -> timer_over id s' /\ calls_of id s' = calls_of id s.
Proof.
  intros O E L Ov. destruct (timer_step_ok calls e s s' O E) as [_ [G|(n & t & s1 & -> & En & G & _ & Ec & Er & Ed & Ef)]].
  - split; [exact (over_grows _ _ _ G Ov)|]. unfold calls_of. now rewrite (grows_calls _ _ G).
  - split; [apply (over_grows _ _ _ G); unfold timer_over in *; rewrite Er, Ed, Ef; destruct t; [rewrite !elem_of_app in *; rewrite elem_of_cons; tauto|exact Ov]|].
    unfold calls_of. rewrite (grows_calls _ _ G), Ec, filter_app, filter_cons_False; [apply app_nil_r|]. cbn [fst]. intros Eid.
    pose proof (ids_nodup _ s O L) as ND. rewrite (ts_places _ _ O) in ND. cbn in ND. unfold places in ND. apply NoDup_app in ND as (_ & _ & ND). apply NoDup_app in ND as (_ & Di & _).
    apply (Di id); [apply list_elem_of_fmap; exists t; split; [now symmetry|]; eapply list_elem_of_lookup_2; exact En|]. apply elem_of_app. right. exact Ov.
Qed.
Lemma step_made calls e s s' : ts_ok s -> timer_step calls e s = Some s' -> (length (made s) <= length (made s'))%nat.
Proof.
  intros O E. destruct (timer_step_ok calls e s s' O E) as [_ [[[m M] _ _]|(n & t & s1 & _ & _ & [[m M] _ _] & Em & _)]]; rewrite M, length_app; [lia|rewrite Em; lia].
Qed.
Lemma run_made calls es : forall s s', ts_ok s -> timer_run calls es s = Some s' -> (length (made s) <= length (made s'))%nat.
Proof.
  induction es as [|e es IH]; intros s s' O; cbn; [intros [= <-]; lia|]. destruct (timer_step calls e s) as [s1|] eqn:E; [|discriminate]. cbn. intros R.
  pose proof (step_made calls e s s1 O E). pose proof (IH s1 s' ltac:(eapply timer_step_ok; eassumption) R). lia.
Qed.
(** (C18) A timer that is over is never called again: one that [clear_timeout] has removed, a timeout that was called, one that was dropped. *)
Theorem timer_never_again calls es es' clock s s' id : timer_run calls es (new_timeouts clock) = Some s -> timer_run calls es' s = Some s' -> Z.of_nat (length (made s')) < 2 ^ 64 ->
  timer_over id s \/ (exists s0, clear_timeout id s0 = (s, true)) -> timer_over id s' /\ calls_of id s' = calls_of id s.
Proof.
  intros R R' L Ov. pose proof (timer_run_ok calls es _ s (new_timeouts_ok clock) R) as O.
  assert (Ov' : timer_over id s).
  { destruct Ov as [Ov|[s0 Ec]]; [exact Ov|]. unfold clear_timeout in Ec. destruct (id =? INVALID_TASK_ID); [discriminate|]. destruct (tq_remove id (tq s0)); [|discriminate]. injection Ec as <-. apply elem_of_app. left. left. }
  clear R Ov. revert s O Ov' R'. induction es' as [|e es' IH]; intros s O Ov R'; cbn in R'; [injection R' as <-; auto|].
  destruct (timer_step calls e s) as [s1|] eqn:E; [|discriminate]. cbn in R'. assert (O1 : ts_ok s1) by (eapply timer_step_ok; eassumption).
  pose proof (step_made calls e s s1 O E). pose proof (run_made calls es' s1 s' O1 R'). destruct (over_step calls e id s s1 O E ltac:(lia) Ov) as [Ov1 C1].
  destruct (IH s1 O1 Ov1 R') as [Ov2 C2]. split; [exact Ov2|congruence].
Qed.

(** ** Setting *)

(** A timer is filed, and the thread woken, at the first free microsecond from its expiration on. *)
Theorem timer_set calls es clock s alive ms callback : timer_run calls es (new_timeouts clock) = Some s -> ts_enqueue s = true ->
  Z.of_nat (length (made s)) < 2 ^ 64 - 1 -> 0 <= ts_clock s -> 0 <= ms -> ts_clock s + ms * 1000 + Z.of_nat (length (tq s)) < 2 ^ 63 ->
  exists s' id j, set_timeout alive ms callback s = Some (s', id) /\ id = Z.of_nat (length (made s)) + 1 /\ (j <= length (tq s))%nat /\
    tq s' ≡ₚ (ts_clock s + ms * 1000 + Z.of_nat j, mk_timeout (ms * 1000) callback id alive) :: tq s /\
    (forall i, (i < j)%nat -> ts_clock s + ms * 1000 + Z.of_nat i ∈ keys (tq s)) /\ timer_awake true s' = true.
Proof.
  intros R En Lm C0 M0 Lx. pose proof (timer_run_ok calls es _ s (new_timeouts_ok clock) R) as O. destruct (ts_ids _ _ O ltac:(lia)) as [G _].
  unfold set_timeout. rewrite En. cbn [negb]. replace (i64 (u64 (ms * 1000))) with (ms * 1000) by (unfold wrapU; rewrite Z.mod_small by lia; rewrite i64_inside; lia).
  unfold get_task_id. assert (Ei : u64 (generation s + 1) = Z.of_nat (length (made s)) + 1) by (unfold wrapU; rewrite Z.mod_small; lia). rewrite Ei.
  destruct (Z.eqb_spec (Z.of_nat (length (made s)) + 1) INVALID_TASK_ID) as [Bad|_]; [unfold INVALID_TASK_ID in Bad; lia|]. unfold file_timeout. cbn [to_expires ts_clock tq set_generation].
  assert (Ie : forall j, (j <= length (tq s))%nat -> i64 (ts_clock s + ms * 1000 + Z.of_nat j) = ts_clock s + ms * 1000 + Z.of_nat j) by (intros j Hj; apply i64_inside; lia).
  pose proof (Ie 0%nat ltac:(lia)) as I0. rewrite Z.add_0_r in I0. rewrite I0. destruct (get_timeout_found (ts_clock s + ms * 1000) (tq s) I0 ltac:(lia)) as (j & Lj & -> & Fr & Kj).
  rewrite Ie in * by exact Lj. cbn [mbind option_bind]. do 2 eexists. exists j. split; [reflexivity|]. split; [reflexivity|]. split; [exact Lj|]. split; [now apply emplace_permutation|]. split; [|reflexivity].
  intros i Hi. rewrite <- Ie by lia. now apply Kj.
Qed.

(** ** Calling *)
Lemma pass_steps q : forall s, ts_enqueue s = true -> tq s = q -> StronglySorted Z.lt (keys q) -> exists s' due later, timer_pass (S (length q)) s = Some s' /\ q = due ++ later /\
  List.Forall (fun e => e.1 <= ts_clock s) due /\ List.Forall (fun e => ts_clock s < e.1) later /\ tq s' = later /\ ts_clock s' = ts_clock s /\
  sync_tasks s' = sync_tasks s ++ map (fun e => task_of_timeout (to_alive e.2) e.2) due.
Proof.
  induction q as [|[key t] q IH]; intros s En Eq Sd; cbn [timer_pass length]; unfold timer_round; rewrite Eq.
  - exists s, [], []. cbn [map app]. rewrite app_nil_r. do 2 (split; [reflexivity|]). do 2 (split; [constructor|]). auto.
  - cbn in Sd. apply StronglySorted_inv in Sd as [Sd A]. destruct (Z.leb_spec key (ts_clock s)) as [L|L].
    + set (s1 := add_task _ _). assert (E1 : s1 = set_sync_tasks (sync_tasks s ++ [task_of_timeout (to_alive t) t]) (set_tq q (resync s) s)) by (unfold s1, add_task; cbn [ts_enqueue set_tq]; now rewrite En).
      destruct (IH s1) as (s' & due & later & Ep & Ed & F1 & F2 & Et & Ec & Es); [now rewrite E1|now rewrite E1|exact Sd|]. exists s', ((key, t) :: due), later.
      assert (C1 : ts_clock s1 = ts_clock s) by now rewrite E1. rewrite C1 in F1, F2, Ec. split; [exact Ep|]. split; [now rewrite Ed|]. split; [constructor; auto|]. split; [exact F2|]. split; [exact Et|]. split; [exact Ec|].
      rewrite Es, E1. cbn. rewrite <- app_assoc. reflexivity.
    + exists s, [], ((key, t) :: q). cbn [map app]. rewrite app_nil_r. do 2 (split; [reflexivity|]). split; [constructor|]. split; [|auto]. constructor; [exact L|]. rewrite List.Forall_forall in *. intros [k t'] H. cbn. specialize (A k ltac:(apply in_map_iff; exists (k, t'); auto)). lia.
Qed.
(** (C19) The timer thread gets through: it makes tasks of exactly the timers that are due, in the order of their times, and then sleeps no longer than up to the next of them. *)
Theorem timeouts_in_order calls es clock s idle : timer_run calls es (new_timeouts clock) = Some s -> ts_enqueue s = true ->
  exists s' due later, timer_pass (S (length (tq s))) s = Some s' /\ tq s = due ++ later /\
    List.Forall (fun e => e.1 <= ts_clock s) due /\ List.Forall (fun e => ts_clock s < e.1) later /\ tq s' = later /\
    sync_tasks s' = sync_tasks s ++ map (fun e => task_of_timeout (to_alive e.2) e.2) due /\
    sleep_time idle s' <= idle /\ (forall e, e ∈ later -> 0 <= ts_clock s -> e.1 < 2 ^ 63 -> ts_clock s + sleep_time idle s' <= e.1).
Proof.
  intros R En. pose proof (timer_run_ok calls es _ s (new_timeouts_ok clock) R) as O. destruct (pass_steps (tq s) s En eq_refl (ts_sorted _ _ O)) as (s' & due & later & Ep & Eq & F1 & F2 & Et & Ec & Es).
  exists s', due, later. do 6 (split; [assumption|]). unfold sleep_time. rewrite Et, Ec. split; [destruct later as [|[k t] later]; [lia|]; destruct (Z.ltb_spec idle (i64 (k - ts_clock s))); lia|].
  intros e He C0 Lx. pose proof (ts_sorted _ _ O) as Sd. rewrite Eq in Sd. unfold keys in Sd. rewrite map_app in Sd.
  assert (Sl : StronglySorted Z.lt (keys later)) by (clear -Sd; induction due as [|d due IH]; [exact Sd|]; cbn in Sd; apply StronglySorted_inv in Sd as [Sd _]; auto).
  destruct later as [|[k t] later]; [now apply not_elem_of_nil in He|]. apply List.Forall_inv in F2 as F2'. cbn in F2'. cbn in Sl. apply StronglySorted_inv in Sl as [_ A]. rewrite List.Forall_forall in A.
  assert (Le : k <= e.1). { apply elem_of_cons in He as [->|He]; [cbn; lia|]. specialize (A e.1 ltac:(apply in_map_iff; exists e; rewrite <- list_elem_of_In; auto)). lia. }
  rewrite i64_inside by lia. destruct (Z.ltb_spec idle (k - ts_clock s)); lia.
Qed.

(** ** Examples *)

#[export] Instance timeout_eq_dec : EqDecision timeout.
Proof. solve_decision. Defined.
#[export] Instance timer_task_eq_dec : EqDecision timer_task.
Proof. solve_decision. Defined.
#[export] Instance timeouts_eq_dec : EqDecision timeouts.
Proof. solve_decision. Defined.

(** 0: nothing; 1: clears timer 1; 2: sets a timeout. *)
Definition sample_calls (callback : nat) : list timer_call :=
  match callback with 1%nat => [call_clear 1] | 2%nat => [call_set false 5 0] | _ => [] end.
Abbreviation sample_run := (timer_run sample_calls).
Abbreviation timers_at := (fun es => default (new_timeouts 0) (sample_run es (new_timeouts 1000))).
Definition three_timers : list timer_event := [ev_call (call_set false 3 0); ev_call (call_set false 3 0); ev_call (call_set true 1 2); ev_clock 2500; ev_round; ev_run 0; ev_file_again 0].
Lemma timers_accounted_witness : made (timers_at three_timers) ≡ₚ queue_ids (tq (timers_at three_timers)) ++ [] ++ [] ++ [] ++ [] ++ [] /\ NoDup (made (timers_at three_timers)).
Proof.
  destruct (timers_accounted sample_calls three_timers 1000 (timers_at three_timers) ltac:(apply some_default; vm_compute; reflexivity)) as (A & B & _).
  split; [exact A|apply B; computed].
Defined.
Definition cleared_and_late : list timer_event := [ev_clock 9000; ev_round; ev_round; ev_run 0; ev_run 0].
Lemma timer_never_again_witness : let s := (clear_timeout 1 (timers_at three_timers)).1 in let s' := default s (sample_run cleared_and_late s) in
  timer_over 1 s' /\ calls_of 1 s' = [] /\ calls_of 2 s' <> [].
Proof.
  cbv zeta. destruct (timer_never_again sample_calls (three_timers ++ [ev_call (call_clear 1)]) cleared_and_late 1000 (clear_timeout 1 (timers_at three_timers)).1
    (default (clear_timeout 1 (timers_at three_timers)).1 (sample_run cleared_and_late (clear_timeout 1 (timers_at three_timers)).1)) 1) as [A B];
    [computed|apply some_default; vm_compute; reflexivity|vm_compute; reflexivity|right; exists (timers_at three_timers); computed|].
  split; [exact A|]. split; [rewrite B; computed|]. apply (bool_decide_eq_true_1 _). vm_compute. reflexivity.
Defined.
Lemma timer_set_witness : exists s' id j, set_timeout false 3 0 (timers_at [ev_call (call_set false 3 0)]) = Some (s', id) /\ id = 2 /\ (j <= 1)%nat /\
  tq s' ≡ₚ (4000 + Z.of_nat j, mk_timeout 3000 0 id false) :: [(4000, mk_timeout 3000 0 1 false)] /\ (forall i, (i < j)%nat -> 4000 + Z.of_nat i ∈ [4000]) /\ timer_awake true s' = true.
Proof.
  apply (timer_set sample_calls [ev_call (call_set false 3 0)] 1000 (timers_at [ev_call (call_set false 3 0)]) false 3 0); vm_compute; try reflexivity; discriminate.
Defined.
Lemma timeouts_in_order_witness : exists s' due later, timer_pass 4 (timers_at [ev_call (call_set false 3 0); ev_call (call_set false 3 0); ev_call (call_set true 1 2); ev_clock 2500]) = Some s' /\
  tq (timers_at [ev_call (call_set false 3 0); ev_call (call_set false 3 0); ev_call (call_set true 1 2); ev_clock 2500]) = due ++ later /\ map fst later = map fst (tq s') /\ sleep_time 9000 s' <= 9000.
Proof.
  destruct (timeouts_in_order sample_calls [ev_call (call_set false 3 0); ev_call (call_set false 3 0); ev_call (call_set true 1 2); ev_clock 2500] 1000
    (timers_at [ev_call (call_set false 3 0); ev_call (call_set false 3 0); ev_call (call_set true 1 2); ev_clock 2500]) 9000) as (s' & due & later & A & B & _ & _ & C & _ & D & _); [vm_compute; reflexivity|vm_compute; reflexivity|].
  exists s', due, later. split; [exact A|]. split; [exact B|]. split; [now rewrite C|exact D].
Defined.

(** An interval that clears itself in its callback is not found, since it is in no queue, and is filed again; a thread that clears it between the two gets the same answer. *)
Theorem interval_not_cleared : exists s, sample_run [ev_call (call_set true 1 1); ev_clock 2500; ev_round; ev_run 0; ev_call (call_clear 1); ev_file_again 0] (new_timeouts 1000) = Some s /\
  calls_made s = [(1, 2500)] /\ removed s = [] /\ queue_ids (tq s) = [1] /\
  exists s', sample_run [ev_clock 5000; ev_round; ev_run 0; ev_file_again 0] s = Some s' /\ calls_made s' = [(1, 2500); (1, 5000)] /\ queue_ids (tq s') = [1].
Proof. eexists. split; [vm_compute; reflexivity|]. do 3 (split; [vm_compute; reflexivity|]). eexists. split; [vm_compute; reflexivity|]. split; vm_compute; reflexivity. Qed.
(** A time that does not fit 64 bits in microseconds wraps: half a million years are 384 microseconds, a third of a million are over at once. *)
Theorem timeout_wraps : option_map (fun r => keys (tq r.1)) (set_timeout false 18446744073709552 0 (new_timeouts 1000)) = Some [1384] /\
  option_map (fun r => List.forallb (fun k => k <? 0) (keys (tq r.1))) (set_timeout false 9223372036854776 0 (new_timeouts 1000)) = Some true.
Proof. split; vm_compute; reflexivity. Qed.
