(* ===== verification/Md5.v ===== *)
(** * [md5_hasher] (compute.cpp 2486-2705; compute.h 1193-1254)

    A message is hashed in pieces; [update] keeps the bytes of an unfinished block in [buffer].  Words are numbers below 2^32.  The blocks have 64 bytes,
    the default that every caller of the program uses. *)
From S2P Require Import Prelude Text.
From stdpp Require Import list.
Open Scope Z_scope.

Definition regs : Type := Z * Z * Z * Z.
Record md5_hasher := mk_md5 { md5_buffer : list Z; md5_count : Z * Z; md5_state : regs; md5_digest : list Z; md5_finalized : bool }.
Definition md5_new : md5_hasher := mk_md5 (repeat 0 64) (0, 0) (0x67452301, 0xefcdab89, 0x98badcfe, 0x10325476) (repeat 0 16) false.

Definition s11 : Z := 7.
Definition s12 : Z := 12.
Definition s13 : Z := 17.
Definition s14 : Z := 22.
Definition s21 : Z := 5.
Definition s22 : Z := 9.
Definition s23 : Z := 14.
Definition s24 : Z := 20.
Definition s31 : Z := 4.
Definition s32 : Z := 11.
Definition s33 : Z := 16.
Definition s34 : Z := 23.
Definition s41 : Z := 6.
Definition s42 : Z := 10.
Definition s43 : Z := 15.
Definition s44 : Z := 21.

(** ** Words *)

Definition md5_f (x y z : Z) : Z := Z.lor (Z.land x y) (Z.land (u32 (Z.lnot x)) z).
Definition md5_g (x y z : Z) : Z := Z.lor (Z.land x z) (Z.land y (u32 (Z.lnot z))).
Definition md5_h (x y z : Z) : Z := Z.lxor (Z.lxor x y) z.
Definition md5_i (x y z : Z) : Z := Z.lxor y (Z.lor x (u32 (Z.lnot z))).
Definition md5_l (x n : Z) : Z := Z.lor (u32 (Z.shiftl x n)) (Z.shiftr x (32 - n)).
Definition ff (a b c d x s ac : Z) : Z := u32 (md5_l (u32 (a + md5_f b c d + x + ac)) s + b).
Definition gg (a b c d x s ac : Z) : Z := u32 (md5_l (u32 (a + md5_g b c d + x + ac)) s + b).
Definition hh (a b c d x s ac : Z) : Z := u32 (md5_l (u32 (a + md5_h b c d + x + ac)) s + b).
Definition ii (a b c d x s ac : Z) : Z := u32 (md5_l (u32 (a + md5_i b c d + x + ac)) s + b).

Fixpoint md5_decode (input : list Z) : list Z :=
  match input with
  | x0 :: x1 :: x2 :: x3 :: rest => Z.lor (Z.lor (Z.lor x0 (Z.shiftl x1 8)) (Z.shiftl x2 16)) (Z.shiftl x3 24) :: md5_decode rest
  | _ => []
  end.
Definition md5_encode (words : list Z) : list Z :=
  flat_map (fun w => [Z.land w 255; Z.land (Z.shiftr w 8) 255; Z.land (Z.shiftr w 16) 255; Z.land (Z.shiftr w 24) 255]) words.
Definition md5_word (i : nat) (x : list Z) : Z := nth i x 0.

(** ** Blocks *)

(** A line of [transform]: the function assigns its first register. *)
Abbreviation md5_op := (Z -> Z -> Z -> Z -> Z -> Z -> Z -> Z).
Definition in_abcd (op : md5_op) (x s ac : Z) (r : regs) : regs := let '(a, b, c, d) := r in (op a b c d x s ac, b, c, d).
Definition in_dabc (op : md5_op) (x s ac : Z) (r : regs) : regs := let '(a, b, c, d) := r in (a, b, c, op d a b c x s ac).
Definition in_cdab (op : md5_op) (x s ac : Z) (r : regs) : regs := let '(a, b, c, d) := r in (a, b, op c d a b x s ac, d).
Definition in_bcda (op : md5_op) (x s ac : Z) (r : regs) : regs := let '(a, b, c, d) := r in (a, op b c d a x s ac, c, d).
Definition md5_lines (x : nat -> Z) : list (regs -> regs) := [
    in_abcd ff (x 0%nat) s11 0xd76aa478;
    in_dabc ff (x 1%nat) s12 0xe8c7b756;
    in_cdab ff (x 2%nat) s13 0x242070db;
    in_bcda ff (x 3%nat) s14 0xc1bdceee;
    in_abcd ff (x 4%nat) s11 0xf57c0faf;
    in_dabc ff (x 5%nat) s12 0x4787c62a;
    in_cdab ff (x 6%nat) s13 0xa8304613;
    in_bcda ff (x 7%nat) s14 0xfd469501;
    in_abcd ff (x 8%nat) s11 0x698098d8;
    in_dabc ff (x 9%nat) s12 0x8b44f7af;
    in_cdab ff (x 10%nat) s13 0xffff5bb1;
    in_bcda ff (x 11%nat) s14 0x895cd7be;
    in_abcd ff (x 12%nat) s11 0x6b901122;
    in_dabc ff (x 13%nat) s12 0xfd987193;
    in_cdab ff (x 14%nat) s13 0xa679438e;
    in_bcda ff (x 15%nat) s14 0x49b40821;
    in_abcd gg (x 1%nat) s21 0xf61e2562;
    in_dabc gg (x 6%nat) s22 0xc040b340;
    in_cdab gg (x 11%nat) s23 0x265e5a51;
    in_bcda gg (x 0%nat) s24 0xe9b6c7aa;
    in_abcd gg (x 5%nat) s21 0xd62f105d;
    in_dabc gg (x 10%nat) s22 0x2441453;
    in_cdab gg (x 15%nat) s23 0xd8a1e681;
    in_bcda gg (x 4%nat) s24 0xe7d3fbc8;
    in_abcd gg (x 9%nat) s21 0x21e1cde6;
    in_dabc gg (x 14%nat) s22 0xc33707d6;
    in_cdab gg (x 3%nat) s23 0xf4d50d87;
    in_bcda gg (x 8%nat) s24 0x455a14ed;
    in_abcd gg (x 13%nat) s21 0xa9e3e905;
    in_dabc gg (x 2%nat) s22 0xfcefa3f8;
    in_cdab gg (x 7%nat) s23 0x676f02d9;
    in_bcda gg (x 12%nat) s24 0x8d2a4c8a;
    in_abcd hh (x 5%nat) s31 0xfffa3942;
    in_dabc hh (x 8%nat) s32 0x8771f681;
    in_cdab hh (x 11%nat) s33 0x6d9d6122;
    in_bcda hh (x 14%nat) s34 0xfde5380c;
    in_abcd hh (x 1%nat) s31 0xa4beea44;
    in_dabc hh (x 4%nat) s32 0x4bdecfa9;
    in_cdab hh (x 7%nat) s33 0xf6bb4b60;
    in_bcda hh (x 10%nat) s34 0xbebfbc70;
    in_abcd hh (x 13%nat) s31 0x289b7ec6;
    in_dabc hh (x 0%nat) s32 0xeaa127fa;
    in_cdab hh (x 3%nat) s33 0xd4ef3085;
    in_bcda hh (x 6%nat) s34 0x4881d05;
    in_abcd hh (x 9%nat) s31 0xd9d4d039;
    in_dabc hh (x 12%nat) s32 0xe6db99e5;
    in_cdab hh (x 15%nat) s33 0x1fa27cf8;
    in_bcda hh (x 2%nat) s34 0xc4ac5665;
    in_abcd ii (x 0%nat) s41 0xf4292244;
    in_dabc ii (x 7%nat) s42 0x432aff97;
    in_cdab ii (x 14%nat) s43 0xab9423a7;
    in_bcda ii (x 5%nat) s44 0xfc93a039;
    in_abcd ii (x 12%nat) s41 0x655b59c3;
    in_dabc ii (x 3%nat) s42 0x8f0ccc92;
    in_cdab ii (x 10%nat) s43 0xffeff47d;
    in_bcda ii (x 1%nat) s44 0x85845dd1;
    in_abcd ii (x 8%nat) s41 0x6fa87e4f;
    in_dabc ii (x 15%nat) s42 0xfe2ce6e0;
    in_cdab ii (x 6%nat) s43 0xa3014314;
    in_bcda ii (x 13%nat) s44 0x4e0811a1;
    in_abcd ii (x 4%nat) s41 0xf7537e82;
    in_dabc ii (x 11%nat) s42 0xbd3af235;
    in_cdab ii (x 2%nat) s43 0x2ad7d2bb;
    in_bcda ii (x 9%nat) s44 0xeb86d391
  ].
Definition regs_add (s t : regs) : regs := let '(a, b, c, d) := s in let '(a', b', c', d') := t in (u32 (a + a'), u32 (b + b'), u32 (c + c'), u32 (d + d')).
Definition md5_transform (block : list Z) (state : regs) : regs :=
  let x := md5_decode block in regs_add state (fold_left (fun r line => line r) (md5_lines (fun i => md5_word i x)) state).

(** ** Messages *)

(** The blocks of [input] from [i] on, by an index of 32 bits; where they end.  [None]: the code reads behind its input, or fuel is spent. *)
Fixpoint md5_blocks (fuel : nat) (i length : Z) (input : list Z) (state : regs) : option (regs * Z) :=
  if u32 (i + 64) <=? length then
    match fuel with
    | O => None
    | S fuel =>
        let block := firstn 64 (skipn (Z.to_nat i) input) in
        if (List.length block =? 64)%nat then md5_blocks fuel (u32 (i + 64)) length input (md5_transform block state) else None
    end
  else Some (state, i).
Definition md5_copy (index : nat) (bytes : list Z) (buffer : list Z) : list Z := firstn index buffer ++ bytes ++ skipn (index + List.length bytes) buffer.
Definition md5_update (input : list Z) (length : Z) (h : md5_hasher) : option md5_hasher :=
  let '(count0, count1) := md5_count h in
  let index := count0 / 8 mod 64 in
  let bits := u32 (Z.shiftl length 3) in
  let count0 := u32 (count0 + bits) in
  let count1 := if count0 <? bits then u32 (count1 + 1) else count1 in
  let count1 := u32 (count1 + Z.shiftr length 29) in
  let chunk := 64 - index in
  r ← (if chunk <=? length then
         let buffer := md5_copy (Z.to_nat index) (firstn (Z.to_nat chunk) input) (md5_buffer h) in
         r ← md5_blocks (List.length input) chunk length input (md5_transform buffer (md5_state h)); Some (r, buffer, 0)
       else Some ((md5_state h, 0), md5_buffer h, index));
  let '((state, i), buffer, index) := r in
  Some (mk_md5 (md5_copy (Z.to_nat index) (firstn (Z.to_nat (length - i)) (skipn (Z.to_nat i) input)) buffer) (count0, count1) state (md5_digest h) (md5_finalized h)).
(** [update] of a view, whose size is cut to 32 bits. *)
Definition md5_update_view (input : list Z) (h : md5_hasher) : option md5_hasher := md5_update input (u32 (Z.of_nat (length input))) h.
Definition regs_list (s : regs) : list Z := let '(a, b, c, d) := s in [a; b; c; d].
Definition md5_padding : list Z := 128 :: repeat 0 63.
Definition md5_finalize (h : md5_hasher) : option md5_hasher :=
  if md5_finalized h then Some h
  else
    let bits := md5_encode [fst (md5_count h); snd (md5_count h)] in
    let index := fst (md5_count h) / 8 mod 64 in
    let size := if index <? 56 then 56 - index else 120 - index in
    h ← md5_update md5_padding size h;
    h ← md5_update bits 8 h;
    Some (mk_md5 (repeat 0 64) (0, 0) (md5_state h) (md5_encode (regs_list (md5_state h))) true).
(** [to_hex] prints with %02x; [to_raw] makes a string of a C string. *)
Definition hex_char (x : Z) : Z := if x <? 10 then 48 + x else 87 + x.
Definition md5_to_hex (h : md5_hasher) : list Z := flat_map (fun b => [hex_char (b / 16); hex_char (b mod 16)]) (md5_digest h).
Definition md5_to_raw (h : md5_hasher) : list Z := cstr (md5_digest h).
