(* ===== verification/Md5Facts.v ===== *)
(** * [md5_hasher] is MD5 (RFC 1321), however a message is cut

    The reference is the algorithm as a loop: 64 rounds over the words of a block with the indices, rotations and sines given by formulas, the message
    padded as a whole.  The sines are computed from those of 0 and 1 by their addition theorem, in fixed-point arithmetic. *)
From S2P Require Import Prelude Md5.
From stdpp Require Import list.
Open Scope Z_scope.

(** ** The reference *)

(** The first [n] terms of the series of the sine or the cosine of 1 from the term of degree [k] on, with 128 bits behind the point. *)
Fixpoint trig_series (n : nat) (k term : Z) : Z := match n with O => 0 | S n => term + trig_series n (k + 2) (- term / ((k + 1) * (k + 2))) end.
Definition sine_1 : Z := trig_series 40 1 (2 ^ 128).
Definition cosine_1 : Z := trig_series 40 0 (2 ^ 128).
(** The sines of consecutive numbers: sin (i + 1) = 2 cos 1 sin i - sin (i - 1). *)
Fixpoint sines_from (n : nat) (before now : Z) : list Z := match n with O => [] | S n => now :: sines_from n now (2 * cosine_1 * now / 2 ^ 128 - before) end.
Definition md5_sines : list Z := map (fun s => Z.abs s / 2 ^ 96) (sines_from 64 0 sine_1).
Definition md5_rotation (i : nat) : Z := nth (i mod 4) (nth (i / 16) [[7; 12; 17; 22]; [5; 9; 14; 20]; [4; 11; 16; 23]; [6; 10; 15; 21]] []) 0.
Definition md5_index (i : nat) : nat := match (i / 16)%nat with 0%nat => i | 1%nat => (5 * i + 1) mod 16 | 2%nat => (3 * i + 5) mod 16 | _ => (7 * i) mod 16 end.
Definition md5_mix (i : nat) (b c d : Z) : Z := match (i / 16)%nat with 0%nat => md5_f b c d | 1%nat => md5_g b c d | 2%nat => md5_h b c d | _ => md5_i b c d end.
Definition md5_round (x : list Z) (s : regs) (i : nat) : regs :=
  let '(a, b, c, d) := s in (d, u32 (md5_l (u32 (a + md5_mix i b c d + nth (md5_index i) x 0 + nth i md5_sines 0)) (md5_rotation i) + b), b, c).
Definition md5_block (s : regs) (block : list Z) : regs := regs_add s (fold_left (md5_round (md5_decode block)) (seq 0 64) s).
(** The [n] lowest bytes of a number, the lowest first. *)
Definition le_bytes (n : nat) (x : Z) : list Z := map (fun i => x / 256 ^ Z.of_nat i mod 256) (seq 0 n).
(** The first [n] blocks of a message. *)
Definition md5_absorb (n : nat) (m : list Z) (s : regs) : regs := fold_left md5_block (map (fun j => firstn 64 (skipn (64 * j) m)) (seq 0 n)) s.
Definition md5_pad (m : list Z) : list Z :=
  let r := (length m mod 64)%nat in
  m ++ [128] ++ repeat 0 (if (r <? 56)%nat then 55 - r else 119 - r)%nat ++ le_bytes 8 (8 * Z.of_nat (length m)).
Definition md5_init : regs := (0x67452301, 0xefcdab89, 0x98badcfe, 0x10325476).
Definition md5 (m : list Z) : list Z := flat_map (le_bytes 4) (regs_list (md5_absorb (length (md5_pad m) / 64) (md5_pad m) md5_init)).

(** ** One block *)
Lemma sines_table : md5_sines = [
  0xd76aa478; 0xe8c7b756; 0x242070db; 0xc1bdceee; 0xf57c0faf; 0x4787c62a; 0xa8304613; 0xfd469501; 0x698098d8; 0x8b44f7af; 0xffff5bb1; 0x895cd7be; 0x6b901122; 0xfd987193; 0xa679438e; 0x49b40821;
  0xf61e2562; 0xc040b340; 0x265e5a51; 0xe9b6c7aa; 0xd62f105d; 0x02441453; 0xd8a1e681; 0xe7d3fbc8; 0x21e1cde6; 0xc33707d6; 0xf4d50d87; 0x455a14ed; 0xa9e3e905; 0xfcefa3f8; 0x676f02d9; 0x8d2a4c8a;
  0xfffa3942; 0x8771f681; 0x6d9d6122; 0xfde5380c; 0xa4beea44; 0x4bdecfa9; 0xf6bb4b60; 0xbebfbc70; 0x289b7ec6; 0xeaa127fa; 0xd4ef3085; 0x04881d05; 0xd9d4d039; 0xe6db99e5; 0x1fa27cf8; 0xc4ac5665;
  0xf4292244; 0x432aff97; 0xab9423a7; 0xfc93a039; 0x655b59c3; 0x8f0ccc92; 0xffeff47d; 0x85845dd1; 0x6fa87e4f; 0xfe2ce6e0; 0xa3014314; 0x4e0811a1; 0xf7537e82; 0xbd3af235; 0x2ad7d2bb; 0xeb86d391].
Proof. computed. Qed.
(** A round by the function of its line. *)
Definition md5_line (i : nat) : Z -> Z -> Z -> Z -> Z -> Z -> Z -> Z := match (i / 16)%nat with 0%nat => ff | 1%nat => gg | 2%nat => hh | _ => ii end.
Lemma round_line x i a b c d : md5_round x (a, b, c, d) i = (d, md5_line i a b c d (nth (md5_index i) x 0) (md5_rotation i) (nth i md5_sines 0), b, c).
Proof. unfold md5_round, md5_line, md5_mix. destruct (i / 16)%nat as [|[|[|k]]]; reflexivity. Qed.
(** What a round takes by its number. *)
Ltac md5_numbers :=
  repeat match goal with
  | |- context [md5_line ?i] => let v := eval cbv [md5_line Nat.div Nat.divmod fst Nat.sub] in (md5_line i) in change (md5_line i) with v
  | |- context [md5_index ?i] => let v := eval vm_compute in (md5_index i) in change (md5_index i) with v
  | |- context [md5_rotation ?i] => let v := eval vm_compute in (md5_rotation i) in change (md5_rotation i) with v
  | |- context [nth ?i (?h :: ?t) 0] => let v := eval vm_compute in (nth i (h :: t) 0) in change (nth i (h :: t) 0) with v
  end.
(** Four lines are four rounds, after which every register is in its place again. *)
Lemma transform_group x k r : (k < 16)%nat ->
  fold_left (fun r line => line r) (firstn 4 (skipn (4 * k) (md5_lines (fun i => md5_word i x)))) r = fold_left (md5_round x) (seq (4 * k) 4) r.
Proof.
  destruct r as [[[a b] c] d]. intros Hk.
  do 16 (destruct k as [|k]; [cbn [skipn firstn md5_lines seq Nat.mul Nat.add fold_left in_abcd in_dabc in_cdab in_bcda]; rewrite !round_line, sines_table; unfold md5_word; md5_numbers; reflexivity|]). lia.
Qed.
Lemma fold_pieces {A B C} (f : A -> B -> A) (g : A -> C -> A) (n : nat) : forall l m r, length l = (4 * n)%nat -> length m = (4 * n)%nat ->
  (forall k r, (k < n)%nat -> fold_left f (firstn 4 (skipn (4 * k) l)) r = fold_left g (firstn 4 (skipn (4 * k) m)) r) -> fold_left f l r = fold_left g m r.
Proof.
  induction n as [|n IH]; intros l m r Ll Lm H; [now apply length_zero_iff_nil in Ll as ->, Lm as ->|].
  rewrite <- (firstn_skipn 4 l), <- (firstn_skipn 4 m), !fold_left_app, (H 0%nat) by lia. apply IH; [rewrite length_skipn; lia|rewrite length_skipn; lia|].
  intros k r' Hk. rewrite !skipn_skipn. specialize (H (S k) r' ltac:(lia)). replace (4 * k + 4)%nat with (4 * S k)%nat by lia. exact H.
Qed.
Lemma transform_block block s : md5_transform block s = md5_block s block.
Proof.
  unfold md5_transform, md5_block. f_equal. generalize (md5_decode block). intros x. apply (fold_pieces _ _ 16); [reflexivity|reflexivity|].
  intros k r Hk. rewrite (transform_group x k r Hk). f_equal. do 16 (destruct k as [|k]; [reflexivity|]). lia.
Qed.

(** The reference over the blocks of the code, which holds its constants as they are: for evaluating it. *)
Lemma md5_transforms m : md5 m = flat_map (le_bytes 4) (regs_list (fold_left (fun s block => md5_transform block s)
  (map (fun j => firstn 64 (skipn (64 * j) (md5_pad m))) (seq 0 (length (md5_pad m) / 64))) md5_init)).
Proof.
  unfold md5, md5_absorb. do 2 f_equal. generalize (map (fun j => firstn 64 (skipn (64 * j) (md5_pad m))) (seq 0 (length (md5_pad m) / 64))). intros l.
  generalize md5_init. induction l as [|b l IH]; intros s; [reflexivity|]. cbn [fold_left]. now rewrite transform_block.
Qed.
Ltac md5_computed := rewrite ?md5_transforms; computed.

(** ** Bytes and counts *)
Lemma encode_bytes words : md5_encode words = flat_map (le_bytes 4) words.
Proof.
  unfold md5_encode. apply flat_map_ext. intros w. unfold le_bytes. cbn [map seq]. change 255 with (Z.ones 8). rewrite !Z.land_ones, !Z.shiftr_div_pow2 by lia. rewrite Z.div_1_r. reflexivity.
Qed.
Lemma count_bytes n : 0 <= n -> flat_map (le_bytes 4) [u32 n; u32 (n / 2 ^ 32)] = le_bytes 8 n.
Proof.
  intros H. unfold le_bytes, wrapU. cbn [flat_map map seq app Z.of_nat]. change (2 ^ 32) with 4294967296.
  repeat match goal with |- context [256 ^ ?k] => let v := eval vm_compute in (256 ^ k) in change (256 ^ k) with v end.
  repeat (apply (f_equal2 (@cons Z)); [lia|]). reflexivity.
Qed.
(** The two words count the bits. *)
Lemma count_add a length : 0 <= a -> 0 <= length < 2 ^ 32 -> let bits := u32 (Z.shiftl length 3) in let c0 := u32 (u32 (8 * a) + bits) in
  c0 = u32 (8 * (a + length)) /\ u32 ((if c0 <? bits then u32 (u32 (8 * a / 2 ^ 32) + 1) else u32 (8 * a / 2 ^ 32)) + Z.shiftr length 29) = u32 (8 * (a + length) / 2 ^ 32).
Proof.
  intros Ha Hl. cbn zeta. rewrite Z.shiftl_mul_pow2, Z.shiftr_div_pow2 by lia. unfold wrapU. change (2 ^ 32) with 4294967296 in *. change (2 ^ 29) with 536870912. change (2 ^ 3) with 8.
  split; [lia|]. destruct (Z.ltb_spec ((8 * a mod 4294967296 + length * 8 mod 4294967296) mod 4294967296) (length * 8 mod 4294967296)); lia.
Qed.
Lemma count_index a : 0 <= a -> u32 (8 * a) / 8 mod 64 = a mod 64.
Proof. intros H. unfold wrapU. change (2 ^ 32) with 4294967296. lia. Qed.
