(* ===== verification/Md5Spec.v ===== *)
(** * [md5_hasher]: the digest does not depend on the pieces; the answer to a CRAM-MD5 challenge is the HMAC of RFC 2104 *)
From S2P Require Import Prelude Md5 Md5Facts.
From stdpp Require Import list.
Open Scope Z_scope.

(** ** Blocks of a message *)
Lemma absorb_step n m s : md5_absorb (S n) m s = md5_block (md5_absorb n m s) (firstn 64 (skipn (64 * n) m)).
Proof. unfold md5_absorb. now rewrite seq_S, map_app, fold_left_app. Qed.
Lemma absorb_app n m m' s : (64 * n <= length m)%nat -> md5_absorb n (m ++ m') s = md5_absorb n m s.
Proof.
  induction n as [|n IH]; intros L; [reflexivity|]. rewrite !absorb_step, IH by lia. f_equal. rewrite skipn_app, firstn_app, length_skipn.
  replace (64 - (length m - 64 * n))%nat with 0%nat by lia. apply app_nil_r.
Qed.
Lemma part_of_prefix {A} (k i n : nat) (l : list A) : (i + k <= n)%nat -> firstn k (skipn i (firstn n l)) = firstn k (skipn i l).
Proof. intros H. rewrite skipn_firstn_comm, firstn_firstn. f_equal. lia. Qed.
Lemma part_behind {A} (k i : nat) (pre l : list A) : firstn k (skipn (length pre + i) (pre ++ l)) = firstn k (skipn i l).
Proof. f_equal. rewrite skipn_app, skipn_all2 by lia. cbn. f_equal. lia. Qed.

Section Blocks.
Context (pre input : list Z) (len : nat).
Context (inside : (len <= length input)%nat) (small : Z.of_nat len < 2 ^ 32 - 64).
Definition whole_message : list Z := pre ++ firstn len input.
Lemma blocks_ok fuel : forall i q, (i <= len)%nat -> (64 * q = length pre + i)%nat -> ((len - i) / 64 <= fuel)%nat ->
  exists i' q', md5_blocks fuel (Z.of_nat i) (Z.of_nat len) input (md5_absorb q whole_message md5_init) = Some (md5_absorb q' whole_message md5_init, Z.of_nat i') /\
    (64 * q' = length pre + i')%nat /\ ((i <= i' <= len) /\ len < i' + 64)%nat.
Proof.
  induction fuel as [|fuel IH]; intros i q Li Eq Lf; cbn [md5_blocks]; (replace (u32 (Z.of_nat i + 64)) with (Z.of_nat (i + 64)) by (unfold wrapU; rewrite Z.mod_small by lia; lia)); destruct (Z.leb_spec (Z.of_nat (i + 64)) (Z.of_nat len)).
  - exfalso. assert (1 <= (len - i) / 64)%nat by (apply Nat.div_le_lower_bound; lia). lia.
  - exists i, q. repeat split; lia.
  - rewrite Nat2Z.id, length_firstn, length_skipn. replace (Nat.min 64 (length input - i) =? 64)%nat with true by (symmetry; apply Nat.eqb_eq; lia).
    assert (E : md5_transform (firstn 64 (skipn i input)) (md5_absorb q whole_message md5_init) = md5_absorb (S q) whole_message md5_init).
    { rewrite transform_block, absorb_step. f_equal. rewrite Eq. unfold whole_message. rewrite part_behind, part_of_prefix by lia. reflexivity. }
    rewrite E. destruct (IH (i + 64)%nat (S q)) as (i' & q' & A & B & C); [lia|lia| |exists i', q'; split; [exact A|split; [exact B|lia]]].
    assert ((len - i) / 64 = S ((len - (i + 64)) / 64))%nat; [|lia]. replace (len - i)%nat with (1 * 64 + (len - (i + 64)))%nat by lia. rewrite Nat.div_add_l by lia. lia.
  - exists i, q. repeat split; lia.
Qed.
End Blocks.

(** ** Pieces *)

Record hashed (m : list Z) (h : md5_hasher) : Prop := mk_hashed {
  hs_state : md5_state h = md5_absorb (length m / 64) m md5_init;
  hs_rest : firstn (length m mod 64) (md5_buffer h) = skipn (64 * (length m / 64)) m;
  hs_buffer : length (md5_buffer h) = 64%nat;
  hs_count : md5_count h = (u32 (8 * Z.of_nat (length m)), u32 (8 * Z.of_nat (length m) / 2 ^ 32));
  hs_open : md5_finalized h = false }.
Lemma new_hashed : hashed [] md5_new.
Proof. now split. Qed.
Lemma length_copy index bytes buffer : (index + length bytes <= length buffer)%nat -> length (md5_copy index bytes buffer) = length buffer.
Proof. intros L. unfold md5_copy. rewrite !length_app, length_firstn, length_skipn. lia. Qed.
Lemma copy_front index bytes buffer : (index <= length buffer)%nat -> firstn (index + length bytes) (md5_copy index bytes buffer) = firstn index buffer ++ bytes.
Proof.
  intros L. unfold md5_copy. rewrite app_assoc, firstn_app, firstn_all2 by (rewrite length_app, length_firstn; lia). rewrite length_app, length_firstn.
  replace (index + length bytes - (Nat.min index (length buffer) + length bytes))%nat with 0%nat by lia. apply app_nil_r.
Qed.
Lemma div_mod_64 n q r : n = (64 * q + r)%nat -> (r < 64)%nat -> (n / 64 = q /\ n mod 64 = r)%nat.
Proof. intros -> L. split; [symmetry; apply (Nat.div_unique _ _ _ r)|symmetry; apply (Nat.mod_unique _ _ q)]; lia. Qed.

Lemma update_hashed m h input len : hashed m h -> (len <= length input)%nat -> Z.of_nat len < 2 ^ 32 - 64 ->
  exists h', md5_update input (Z.of_nat len) h = Some h' /\ hashed (m ++ firstn len input) h'.
Proof.
  intros H Li Ls. destruct H as [St Re Bu Co Op]. unfold md5_update. rewrite Co. destruct (count_add (Z.of_nat (length m)) (Z.of_nat len) ltac:(lia) ltac:(lia)) as [C0 C1]. cbn zeta in C0, C1.
  rewrite count_index by lia. set (r := (length m mod 64)%nat) in *. set (q := (length m / 64)%nat) in *.
  assert (Em : (length m = 64 * q + r)%nat) by (unfold q, r; apply Nat.div_mod_eq). assert (Lr : (r < 64)%nat) by (apply Nat.mod_upper_bound; lia).
  assert (Er : Z.of_nat (length m) mod 64 = Z.of_nat r) by (unfold r; now rewrite Nat2Z.inj_mod). rewrite Er, Nat2Z.id. clear Er.
  rewrite C1, C0. replace (Z.of_nat (length m) + Z.of_nat len) with (Z.of_nat (length (m ++ firstn len input))) by (rewrite length_app, length_firstn; lia). clear C0 C1.
  assert (Eq0 : skipn (64 * q) m = firstn r (md5_buffer h)) by (now rewrite Re).
  destruct (Z.leb_spec (64 - Z.of_nat r) (Z.of_nat len)) as [Big|Small].
  - replace (64 - Z.of_nat r) with (Z.of_nat (64 - r)) by lia. rewrite Nat2Z.id. set (buffer := md5_copy r (firstn (64 - r) input) (md5_buffer h)).
    assert (Lb : length buffer = 64%nat) by (unfold buffer; rewrite length_copy; [exact Bu|rewrite length_firstn, Bu; lia]).
    assert (Eb : buffer = firstn 64 (skipn (64 * q) (m ++ firstn len input))).
    { rewrite <- (firstn_all2 (n := r + length (firstn (64 - r) input)) buffer) by (rewrite length_firstn; lia). unfold buffer. rewrite copy_front, <- Eq0 by lia.
      rewrite skipn_app, firstn_app, length_skipn. rewrite (firstn_all2 (skipn (64 * q) m)) by (rewrite length_skipn; lia). f_equal.
      replace (64 * q - length m)%nat with 0%nat by lia. change (skipn 0 ?l) with l. rewrite firstn_firstn. f_equal. lia. }
    assert (Es : md5_transform buffer (md5_state h) = md5_absorb (S q) (whole_message m input len) md5_init).
    { rewrite transform_block, absorb_step, St, Eb. f_equal. unfold whole_message. symmetry. apply absorb_app. lia. }
    rewrite Es. destruct (blocks_ok m input len Li Ls (length input) (64 - r) (S q)) as (i' & q' & -> & Eq' & Bi); [lia|lia| |].
    { apply Nat.Div0.div_le_upper_bound. lia. }
    cbn [mbind option_bind]. rewrite Nat2Z.id. replace (Z.to_nat (Z.of_nat len - Z.of_nat i')) with (len - i')%nat by lia. change (Z.to_nat 0) with 0%nat. eexists. split; [reflexivity|].
    destruct (div_mod_64 (length (m ++ firstn len input)) q' (len - i')) as [Ed Emd]; [rewrite length_app, length_firstn; lia|lia|].
    set (tail_ := firstn (len - i') (skipn i' input)). assert (Lt : length tail_ = (len - i')%nat) by (unfold tail_; rewrite length_firstn, length_skipn; lia).
    split; cbn [md5_state md5_buffer md5_count md5_finalized]; [now rewrite Ed| |rewrite length_copy; [exact Lb|rewrite Lt; lia]|reflexivity|exact Op].
    rewrite Ed, Emd. rewrite <- Lt at 1. change (firstn (0 + length tail_) (md5_copy 0 tail_ buffer) = skipn (64 * q') (m ++ firstn len input)). rewrite copy_front by lia. cbn [firstn app].
    rewrite Eq', skipn_app, skipn_all2 by lia. cbn [app]. replace (length m + i' - length m)%nat with i' by lia. unfold tail_. symmetry. apply skipn_firstn_comm.
  - cbn [mbind option_bind]. rewrite Nat2Z.id. change (Z.to_nat 0) with 0%nat. change (skipn 0 input) with input. rewrite Z.sub_0_r, Nat2Z.id. eexists. split; [reflexivity|].
    destruct (div_mod_64 (length (m ++ firstn len input)) q (r + len)) as [Ed Emd]; [rewrite length_app, length_firstn; lia|lia|].
    assert (Lt : length (firstn len input) = len) by (rewrite length_firstn; lia).
    split; cbn [md5_state md5_buffer md5_count md5_finalized]; [rewrite Ed, absorb_app by lia; exact St| |rewrite length_copy; [exact Bu|rewrite Lt; lia]|reflexivity|exact Op].
    rewrite Ed, Emd. rewrite <- Lt at 1. rewrite copy_front, Re, skipn_app by lia. replace (64 * q - length m)%nat with 0%nat by lia. reflexivity.
Qed.

(** ** The end of a message *)
Lemma pad_whole m : (length (md5_pad m) mod 64 = 0)%nat.
Proof.
  unfold md5_pad, le_bytes. rewrite !length_app, repeat_length, length_map, length_seq. cbn [length]. pose proof (Nat.mod_upper_bound (length m) 64 ltac:(lia)) as L. pose proof (Nat.div_mod_eq (length m) 64) as E.
  destruct (Nat.ltb_spec (length m mod 64) 56).
  - apply (div_mod_64 _ (S (length m / 64)) 0); lia.
  - apply (div_mod_64 _ (S (S (length m / 64))) 0); lia.
Qed.
Lemma padding_part n : (1 <= n <= 64)%nat -> firstn n md5_padding = 128 :: repeat 0 (n - 1).
Proof. intros H. destruct n as [|n]; [lia|]. cbn [md5_padding firstn]. f_equal. replace (S n - 1)%nat with n by lia. do 64 (destruct n as [|n]; [reflexivity|]). lia. Qed.
Lemma finalize_hashed m h : hashed m h -> exists h', md5_finalize h = Some h' /\ md5_digest h' = md5 m /\ md5_finalized h' = true.
Proof.
  intros H. unfold md5_finalize. rewrite (hs_open _ _ H), (hs_count _ _ H). cbn [fst snd]. rewrite count_index, encode_bytes, count_bytes by lia.
  set (n := length m). assert (Er : Z.of_nat n mod 64 = Z.of_nat (n mod 64)) by now rewrite Nat2Z.inj_mod. rewrite Er. pose proof (Nat.mod_upper_bound n 64 ltac:(lia)) as L.
  set (size := (if (n mod 64 <? 56)%nat then 56 - n mod 64 else 120 - n mod 64)%nat).
  assert (Sz : (if Z.of_nat (n mod 64) <? 56 then 56 - Z.of_nat (n mod 64) else 120 - Z.of_nat (n mod 64)) = Z.of_nat size).
  { unfold size. destruct (Z.ltb_spec (Z.of_nat (n mod 64)) 56), (Nat.ltb_spec (n mod 64) 56); lia. }
  rewrite Sz. assert (Bs : (1 <= size <= 64)%nat) by (unfold size; destruct (Nat.ltb_spec (n mod 64) 56); lia).
  destruct (update_hashed m h md5_padding size H) as (h1 & -> & H1); [cbn [md5_padding length]; rewrite repeat_length; lia|lia|]. cbn [mbind option_bind].
  destruct (update_hashed _ h1 (le_bytes 8 (8 * Z.of_nat n)) 8 H1) as (h2 & E2 & H2); [reflexivity|lia|]. change (Z.of_nat 8) with 8 in E2. rewrite E2. cbn [mbind option_bind]. eexists. split; [reflexivity|]. split; [|reflexivity].
  assert (Em : (m ++ firstn size md5_padding) ++ firstn 8 (le_bytes 8 (8 * Z.of_nat n)) = md5_pad m).
  { change (firstn 8 (le_bytes 8 (8 * Z.of_nat n))) with (le_bytes 8 (8 * Z.of_nat n)). rewrite padding_part by lia. unfold md5_pad. fold n. rewrite <- app_assoc. cbn [app]. do 4 f_equal.
    unfold size. destruct (Nat.ltb_spec (n mod 64) 56); lia. }
  rewrite Em in H2. unfold md5. rewrite encode_bytes. cbn [md5_digest]. do 2 f_equal. exact (hs_state _ _ H2).
Qed.

Fixpoint md5_updates (pieces : list (list Z)) (h : md5_hasher) : option md5_hasher :=
  match pieces with [] => Some h | p :: pieces => h ← md5_update_view p h; md5_updates pieces h end.
Lemma view_hashed m h p : hashed m h -> Z.of_nat (length p) < 2 ^ 32 - 64 -> exists h', md5_update_view p h = Some h' /\ hashed (m ++ p) h'.
Proof.
  intros H L. unfold md5_update_view. replace (u32 (Z.of_nat (length p))) with (Z.of_nat (length p)) by (unfold wrapU; rewrite Z.mod_small; lia).
  destruct (update_hashed m h p (length p) H ltac:(lia) L) as (h' & E & H'). rewrite firstn_all in H'. eauto.
Qed.
Lemma updates_hashed pieces : forall m h, hashed m h -> List.Forall (fun p => Z.of_nat (length p) < 2 ^ 32 - 64) pieces -> exists h', md5_updates pieces h = Some h' /\ hashed (m ++ concat pieces) h'.
Proof.
  induction pieces as [|p pieces IH]; intros m h H F; cbn; [exists h; now rewrite app_nil_r|]. apply List.Forall_cons_iff in F as [L F].
  destruct (view_hashed m h p H L) as (h1 & -> & H1). cbn [mbind option_bind]. rewrite app_assoc. exact (IH _ h1 H1 F).
Qed.
(** (C20) However a message is cut, the digest is the MD5 of RFC 1321: the hashing returns, never reads behind a piece, and prints the digest as 32 hexadecimal digits. *)
Theorem md5_correct pieces : List.Forall (fun p => Z.of_nat (length p) < 2 ^ 32 - 64) pieces ->
  exists h h', md5_updates pieces md5_new = Some h /\ md5_finalize h = Some h' /\ md5_digest h' = md5 (concat pieces) /\
    md5_to_hex h' = flat_map (fun b => [hex_char (b / 16); hex_char (b mod 16)]) (md5 (concat pieces)).
Proof.
  intros F. destruct (updates_hashed pieces [] md5_new new_hashed F) as (h & E & H). destruct (finalize_hashed _ h H) as (h' & E' & D & _).
  exists h, h'. split; [exact E|]. split; [exact E'|]. split; [exact D|]. unfold md5_to_hex. now rewrite D.
Qed.
Lemma md5_correct_witness : exists h h', md5_updates [chars "ab"; []; chars "c"] md5_new = Some h /\ md5_finalize h = Some h' /\ md5_to_hex h' = chars "900150983cd24fb0d6963f7d28e17f72".
Proof.
  destruct (md5_correct [chars "ab"; []; chars "c"] ltac:(repeat constructor)) as (h & h' & E & E' & _ & D). exists h, h'. split; [exact E|]. split; [exact E'|]. rewrite D. md5_computed.
Defined.
(** The test suite of RFC 1321 for the reference. *)
Example md5_empty : md5 [] = [0xd4; 0x1d; 0x8c; 0xd9; 0x8f; 0x00; 0xb2; 0x04; 0xe9; 0x80; 0x09; 0x98; 0xec; 0xf8; 0x42; 0x7e].
Proof. md5_computed. Qed.
Example md5_digits : md5 (flat_map (fun _ => chars "1234567890") (seq 0 8)) = [0x57; 0xed; 0xf4; 0xa2; 0x2b; 0xe3; 0xc9; 0x55; 0xac; 0x49; 0xda; 0x2e; 0x21; 0x07; 0xb6; 0x7a].
Proof. md5_computed. Qed.
(** [to_raw] ends at the first zero of the digest: five bytes of the empty message's are left. *)
Theorem raw_digest_cut : option_map (fun h => length (md5_to_raw h)) (md5_finalize md5_new) = Some 5%nat.
Proof. computed. Qed.
