(* ===== verification/Smtp.v ===== *)
(** * The SMTP client (network/smtp.cpp, network/smtp.h)

    A session is a program over the replies of the server: the callbacks of the C++ follow one another, here as a monad whose results say how the session
    ends.  The server's lines come with their line ends, as [read_until_queued] hands them over; [sc_writes] says which writes succeed, all when it is used up.
    Files, random bytes, the date, TLS and the peer's name are parameters. *)
From S2P Require Import Prelude Text TextEdit Codec Md5.
Open Scope Z_scope.

Inductive mail_priority := high_priority | normal_priority | low_priority.
Record recipient := mk_recipient { rc_name : list Z; rc_address : list Z }.
Record attachment := mk_attachment { at_path : list Z; at_length : nat }.
Record mail_request := mk_mail {
  ml_headers : list (list Z * list Z); ml_recipients : list recipient; ml_cc : list recipient; ml_bcc : list recipient; ml_attachments : list attachment;
  ml_messages : list (list Z); ml_sender_name : list Z; ml_sender_address : list Z; ml_subject : list Z; ml_charset : list Z; ml_mailer : list Z; ml_receiver : list Z;
  ml_login : list Z; ml_password : list Z; ml_prior : mail_priority; ml_authenticate : bool; ml_no_notification : bool; ml_allow_html : bool }.
Definition set_attachments (x : list attachment) (r : mail_request) : mail_request :=
  mk_mail (ml_headers r) (ml_recipients r) (ml_cc r) (ml_bcc r) x (ml_messages r) (ml_sender_name r) (ml_sender_address r) (ml_subject r) (ml_charset r) (ml_mailer r) (ml_receiver r)
    (ml_login r) (ml_password r) (ml_prior r) (ml_authenticate r) (ml_no_notification r) (ml_allow_html r).

(** [sc_sent] keeps what was written, a list for each write. *)
Record smtp_client := mk_smtp {
  sc_buffer : list Z; sc_command : list Z; sc_boundary : list Z; sc_request : mail_request; sc_pending : Z; sc_authorized : bool;
  sc_replies : list (list Z); sc_writes : list bool; sc_sent : list (list Z) }.
Definition sc_read (buffer command : list Z) (replies : list (list Z)) (c : smtp_client) : smtp_client :=
  mk_smtp buffer command (sc_boundary c) (sc_request c) (sc_pending c) (sc_authorized c) replies (sc_writes c) (sc_sent c).
Definition sc_write (writes : list bool) (sent : list (list Z)) (c : smtp_client) : smtp_client :=
  mk_smtp (sc_buffer c) (sc_command c) (sc_boundary c) (sc_request c) (sc_pending c) (sc_authorized c) (sc_replies c) writes sent.
Definition set_pending (x : Z) (c : smtp_client) : smtp_client :=
  mk_smtp (sc_buffer c) (sc_command c) (sc_boundary c) (sc_request c) x (sc_authorized c) (sc_replies c) (sc_writes c) (sc_sent c).
Definition set_authorized (x : bool) (c : smtp_client) : smtp_client :=
  mk_smtp (sc_buffer c) (sc_command c) (sc_boundary c) (sc_request c) (sc_pending c) x (sc_replies c) (sc_writes c) (sc_sent c).
Definition set_boundary (x : list Z) (c : smtp_client) : smtp_client :=
  mk_smtp (sc_buffer c) (sc_command c) x (sc_request c) (sc_pending c) (sc_authorized c) (sc_replies c) (sc_writes c) (sc_sent c).
Definition set_request (x : mail_request) (c : smtp_client) : smtp_client :=
  mk_smtp (sc_buffer c) (sc_command c) (sc_boundary c) x (sc_pending c) (sc_authorized c) (sc_replies c) (sc_writes c) (sc_sent c).

(** ** Results *)

Inductive smtp_error := bad_command | unexpected_code | read_failed | write_failed | invalid_login | invalid_password | bad_digest | no_peer_name | type_not_supported |
  invalid_sender | invalid_recipient | open_failed | attachment_failed | no_tls | tls_failed.
(** [smtp_done]: the callback is reached; [reported]: the resolver gets an error; [waits_reply]: the server says nothing more; [undefined]: the code
    reads outside of an object; [out_of_fuel]. *)
Inductive smtp_result (A : Type) := smtp_done (a : A) (c : smtp_client) | reported (why : smtp_error) (c : smtp_client) | waits_reply (c : smtp_client) | undefined | out_of_fuel (c : smtp_client).
Arguments smtp_done {A} a c.
Arguments reported {A} why c.
Arguments waits_reply {A} c.
Arguments undefined {A}.
Arguments out_of_fuel {A} c.
Definition smtp (A : Type) : Type := smtp_client -> smtp_result A.
Definition smtp_ret {A} (a : A) : smtp A := smtp_done a.
Definition smtp_bind {A B} (m : smtp A) (f : A -> smtp B) : smtp B := fun c =>
  match m c with smtp_done a c => f a c | reported why c => reported why c | waits_reply c => waits_reply c | undefined => undefined | out_of_fuel c => out_of_fuel c end.
#[local] Notation "m ;;; f" := (smtp_bind m (fun _ => f)) (at level 62, right associativity).
Definition smtp_get {A} (f : smtp_client -> smtp A) : smtp A := fun c => f c c.
Definition smtp_put (f : smtp_client -> smtp_client) : smtp unit := fun c => smtp_done tt (f c).
Definition report {A} (why : smtp_error) : smtp A := reported why.

(** ** Text *)

Definition CRLF : list Z := [13; 10].
Definition blob_size : nat := 8192.
(** What [vsnprintf] leaves in a buffer of [BLOB_SIZE] bytes and [append] and [text] take from it: of a longer text the last byte is the terminating zero. *)
Definition format_text (text : list Z) : list Z := if (length text <? blob_size)%nat then text else firstn (blob_size - 1) text ++ [0].

(** ** Replies *)

Definition is_reply_digit (i : nat) (line : list Z) : bool := isdigit (at_ line i).
Definition reply_code (line : list Z) : Z := (at_ line 0 - 48) * 100 + (at_ line 1 - 48) * 10 + at_ line 2 - 48.
(** Lines without a space behind the code are read over. *)
Fixpoint read_lines (code : Z) (replies : list (list Z)) (c : smtp_client) : smtp_result unit :=
  match replies with
  | [] => waits_reply c
  | line :: rest =>
      let c := sc_read (sc_buffer c ++ line) line rest c in
      if negb (is_reply_digit 0 line) || negb (is_reply_digit 1 line) || negb (is_reply_digit 2 line) then reported bad_command c
      else if negb (at_ line 3 =? 32) then read_lines code rest c
      else if negb (reply_code line =? code) then reported unexpected_code c
      else smtp_done tt c
  end.
Definition read_response (code : Z) : smtp unit := fun c => read_lines code (sc_replies c) c.
Fixpoint read_responses (fuel : nat) (code : Z) : smtp unit :=
  match fuel with
  | O => out_of_fuel
  | S fuel =>
      read_response code ;;;
      smtp_get (fun c => let pending := i32 (sc_pending c - 1) in
        if pending <=? 0 then smtp_put (set_pending 0) else smtp_put (set_pending pending) ;;; read_responses fuel code)
  end.
Definition smtp_write (content : list Z) : smtp unit := fun c =>
  let c' := sc_write (tl (sc_writes c)) (sc_sent c ++ [content]) c in
  if match sc_writes c with ok :: _ => ok | [] => true end then smtp_done tt c' else reported write_failed (sc_write (tl (sc_writes c)) (sc_sent c) c).
Definition send_request (code : Z) (content : list Z) : smtp unit := smtp_write content ;;; read_response code.

(** A keyword of the server's answer to EHLO, of what [buffer] has of it. *)
Fixpoint can_request_from (keyword before : list Z) (rest : list Z) : bool :=
  match rest with
  | [] => false
  | b :: rest' =>
      (prefix_of keyword rest &&
       match before with p :: _ => (p =? 45) || (p =? 32) || (p =? 61) | [] => false end &&
       match skipn (length keyword) rest with
       | n :: rest'' => (n =? 32) || (n =? 61) || match rest'' with m :: _ => (n =? 13) && (m =? 10) | [] => false end
       | [] => false
       end) || can_request_from keyword (b :: before) rest'
  end.
Definition can_request (keyword : list Z) (c : smtp_client) : bool := can_request_from keyword [] (sc_buffer c).

(** ** Authorization *)

Fixpoint md5_of (pieces : list (list Z)) (h : md5_hasher) : option md5_hasher :=
  match pieces with [] => md5_finalize h | p :: pieces => h ← md5_update p (u32 (Z.of_nat (length p))) h; md5_of pieces h end.
Definition md5_key (key : list Z) (x : Z) : list Z := map (fun b => Z.lxor b x) (key ++ repeat 0 (64 - length key)).
(** The pieces are copied as C strings and hashed by their sizes: a zero in one lets the code read behind the copy. *)
Definition no_zero (text : list Z) : bool := forallb (fun b => negb (b =? 0)) text.
Definition cram_md5 (login password challenge : list Z) : option (list Z) :=
  if negb (no_zero password && no_zero challenge) then None else
  key ← (if (64 <? length password)%nat then h ← md5_of [password] md5_new; Some (md5_digest h) else Some password);
  h1 ← md5_of [md5_key key 0x36; challenge] md5_new;
  h2 ← md5_of [md5_key key 0x5c; md5_digest h1] md5_new;
  Some (login ++ [32] ++ md5_to_hex h2).
(** The response of DIGEST-MD5. *)
Definition digest_md5 (login realm password nonce cnonce nc location : list Z) : option (list Z) :=
  if negb (no_zero login && no_zero realm && no_zero password && no_zero nonce) then None else
  a1a ← md5_of [login; [58]; realm; [58]; password] md5_new;
  a1b ← md5_of [md5_digest a1a; [58]; nonce; [58]; cnonce] md5_new;
  a2 ← md5_of [chars "AUTHENTICATE:"; location] md5_new;
  h ← md5_of [md5_to_hex a1b; [58]; nonce; [58]; nc; [58]; cnonce; [58]; chars "auth"; [58]; md5_to_hex a2] md5_new;
  Some (md5_to_hex h).
(** What stands in quotation marks behind a name and two characters. *)
Definition quoted_after (name text : list Z) : option (option (list Z)) :=
  let result1 := find_text text name 0 in
  if negb (found result1) then Some None
  else
    let start := (settle_start result1 + 7)%nat in
    let result2 := find_text text [34] start in
    if negb (found result2) then None else Some (Some (substr text start (settle_start result2 - start))).
Definition of_digest (d : option (list Z)) (f : list Z -> smtp unit) : smtp unit := match d with Some d => f d | None => fun _ => undefined end.

Section Session.
(** Files by their path, 64 random bytes in hexadecimal, the date, what getpeername(2) returns, the address it names, the time in hexadecimal, the handshake. *)
Context (file : list Z -> option (list Z)) (random_boundary : option (list Z)) (date : list Z) (getpeername : Z) (peer unix_time hoster : list Z) (is_secure handshake : bool).

Definition authorize_login (r : mail_request) : smtp unit :=
  send_request 334 (chars "AUTH LOGIN" ++ CRLF) ;;; send_request 334 (base64_encode (ml_login r) ++ CRLF) ;;; send_request 235 (base64_encode (ml_password r) ++ CRLF) ;;;
  smtp_put (set_authorized true).
Definition plain_hash (login password : list Z) : list Z :=
  map (fun b => if b =? 94 then 0 else b) (format_text (cstr login ++ [94] ++ cstr login ++ [94] ++ cstr password)).
Definition authorize_plain (r : mail_request) : smtp unit :=
  send_request 235 (format_text (chars "AUTH PLAIN " ++ cstr (base64_encode (plain_hash (ml_login r) (ml_password r))) ++ CRLF)) ;;; smtp_put (set_authorized true).
Definition authorize_cram (r : mail_request) : smtp unit :=
  send_request 334 (chars "AUTH CRAM-MD5" ++ CRLF) ;;;
  smtp_get (fun c =>
    let challenge := base64_decode (skipn 4 (cstr (sc_command c))) in
    of_digest (cram_md5 (ml_login r) (ml_password r) challenge) (fun answer =>
      send_request 235 (format_text (base64_encode answer ++ CRLF)) ;;; smtp_put (set_authorized true))).
Definition digest_content (charset : bool) (r : mail_request) (realm nonce nc cnonce location response : list Z) : list Z :=
  format_text ((if charset then chars "charset=utf-8," else []) ++ chars "username=" ++ [34] ++ cstr (ml_login r) ++ [34]) ++
  (if (0 <? length realm)%nat then format_text (chars ",realm=" ++ [34] ++ cstr realm ++ [34]) else []) ++
  format_text (chars ",nonce=" ++ [34] ++ cstr nonce ++ [34] ++ chars ",nc=" ++ nc ++ chars ",cnonce=" ++ [34] ++ cnonce ++ [34] ++ chars ",digest-uri=" ++ [34] ++ location ++ [34] ++ chars ",response=" ++ response ++ chars ",qop=auth").
Definition authorize_digest (r : mail_request) : smtp unit :=
  send_request 334 (chars "AUTH DIGEST-MD5" ++ CRLF) ;;;
  smtp_get (fun c =>
    let challenge := base64_decode (skipn 4 (cstr (sc_command c))) in
    match quoted_after (chars "nonce") challenge, quoted_after (chars "realm") challenge with
    | Some (Some nonce), Some realm =>
        let realm := default [] realm in
        if getpeername =? 0 then report no_peer_name
        else
          let nc := chars "00000001" in let location := chars "smtp/" ++ peer in
          of_digest (digest_md5 (ml_login r) realm (ml_password r) nonce unix_time nc location) (fun response =>
            send_request 334 (format_text (cstr (base64_encode (digest_content (found (find_text (cstr (sc_command c)) (chars "charset") 0)) r realm nonce nc unix_time location response)) ++ CRLF)) ;;;
            send_request 235 CRLF ;;; smtp_put (set_authorized true))
    | _, _ => report bad_digest
    end).
Definition authorize : smtp unit := smtp_get (fun c =>
  let r := sc_request c in
  if sc_authorized c then smtp_ret tt
  else if (length (ml_login r) =? 0)%nat then report invalid_login
  else if (length (ml_password r) =? 0)%nat then report invalid_password
  else if can_request (chars "LOGIN") c then authorize_login r
  else if can_request (chars "PLAIN") c then authorize_plain r
  else if can_request (chars "CRAM-MD5") c then authorize_cram r
  else if can_request (chars "DIGEST-MD5") c then authorize_digest r
  else report type_not_supported).

(** ** Attachments *)

Definition encoded_name (path : list Z) : list Z := format_text (chars "=?UTF-8?b?" ++ cstr (base64_encode path) ++ chars "?=").
Definition attachment_header (boundary path : list Z) : list Z :=
  format_text (chars "--" ++ cstr boundary ++ CRLF) ++
  format_text (chars "Content-type: application/x-msdownload; name=" ++ [34] ++ cstr (encoded_name path) ++ [34] ++ CRLF) ++
  format_text (chars "Content-transfer-encoding: base64" ++ CRLF) ++
  format_text (chars "Content-disposition: attachment; filename=" ++ [34] ++ cstr (encoded_name path) ++ [34] ++ CRLF ++ CRLF).
Definition finish_mail : smtp unit := smtp_get (fun c =>
  smtp_write ((if (0 <? length (ml_attachments (sc_request c)))%nat then format_text (CRLF ++ chars "--" ++ cstr (sc_boundary c) ++ chars "--" ++ CRLF) else []) ++ CRLF ++ chars "." ++ CRLF) ;;;
  read_responses (S (Z.to_nat (sc_pending c))) 250).
Definition set_attachment_length (i n : nat) (c : smtp_client) : smtp_client :=
  set_request (set_attachments (alter (fun a => mk_attachment (at_path a) n) i (ml_attachments (sc_request c))) (sc_request c)) c.
Definition ends_as_directory (path : list Z) : bool := (1 <? length path)%nat && ((at_ path (length path - 1) =? 92) || (at_ path (length path - 1) =? 47)).
(** [send_attachment] where [opened] is [None], else [process_attachment] with what is left of the file. *)
Fixpoint send_attachments (fuel : nat) (opened : option (list Z)) : smtp unit :=
  match fuel with
  | O => out_of_fuel
  | S fuel => smtp_get (fun c =>
      let attachments := ml_attachments (sc_request c) in
      match opened with
      | None =>
          if sc_pending c <=? 0 then finish_mail
          else
            let i := Z.to_nat (u64 (Z.of_nat (length attachments) - sc_pending c)) in
            match nth_error attachments i with
            | None => fun _ => undefined
            | Some it =>
                if (length (cstr (at_path it)) =? 0)%nat || ends_as_directory (cstr (at_path it)) then fun _ => undefined
                else
                  smtp_write (attachment_header (sc_boundary c) (cstr (at_path it))) ;;;
                  match file (cstr (at_path it)) with Some content => send_attachments fuel (Some content) | None => report open_failed end
            end
      | Some content =>
          let i := Z.to_nat (u64 (Z.of_nat (length attachments) - sc_pending c)) in
          match nth_error attachments i with
          | None => fun _ => undefined
          | Some it =>
              let count := Nat.min (at_length it) blob_size in
              let data := firstn count content in
              if negb (length data =? count)%nat then report attachment_failed
              else
                smtp_put (set_attachment_length i (at_length it - count)) ;;;
                smtp_write (base64_encode data ++ CRLF) ;;;
                send_attachments fuel (if (at_length it - count =? 0)%nat then None else Some (skipn count content))
          end
      end)
  end.

(** ** A mail *)

Definition address_text (r : recipient) : list Z := (if (0 <? length (rc_name r))%nat then rc_name r ++ [32] else []) ++ [60] ++ rc_address r ++ [62].
Fixpoint address_list (rs : list recipient) : list Z :=
  match rs with [] => [] | [r] => address_text r | r :: rs => address_text r ++ [44] ++ address_list rs end.
Definition rcpt_line (r : recipient) : list Z := format_text (chars "RCPT TO: <" ++ cstr (rc_address r) ++ chars ">" ++ CRLF).
Definition envelope (r : mail_request) : list Z :=
  format_text (chars "MAIL FROM: <" ++ cstr (ml_sender_address r) ++ chars ">" ++ CRLF) ++
  concat (map rcpt_line (ml_recipients r)) ++ concat (map rcpt_line (ml_cc r)) ++ concat (map rcpt_line (ml_bcc r)).
Definition mail_header_line (name : list Z) (value : list Z) : list Z := format_text (name ++ cstr value ++ CRLF).
Definition priority_line (p : mail_priority) : list Z :=
  match p with high_priority => chars "X-priority: 2 (high)" | normal_priority => chars "X-priority: 3 (normal)" | low_priority => chars "X-priority: 4 (low)" end ++ CRLF.
Definition if_any {A} (l : list A) (text : list Z) : list Z := if (0 <? length l)%nat then text else [].
Definition mail_head (boundary : list Z) (r : mail_request) : list Z :=
  chars "Date: " ++ date ++ CRLF ++ chars "From: " ++ cstr (ml_sender_name r) ++ format_text (chars " <" ++ cstr (ml_sender_address r) ++ chars ">" ++ CRLF) ++
  concat (map (fun h => format_text (cstr (fst h) ++ chars ": " ++ cstr (snd h) ++ CRLF)) (ml_headers r)) ++
  if_any (ml_mailer r) (mail_header_line (chars "X-mailer: ") (ml_mailer r)) ++
  if_any (ml_receiver r) (mail_header_line (chars "Reply-to: ") (ml_receiver r)) ++
  (if ml_no_notification r then mail_header_line (chars "Disposition-notification-to: ") (if (0 <? length (ml_receiver r))%nat then ml_receiver r else ml_sender_name r) else []) ++
  priority_line (ml_prior r) ++
  mail_header_line (chars "To: ") (address_list (ml_recipients r)) ++
  if_any (ml_cc r) (mail_header_line (chars "Cc: ") (address_list (ml_cc r))) ++
  if_any (ml_bcc r) (mail_header_line (chars "Bcc: ") (address_list (ml_bcc r))) ++
  format_text (chars "Subject: " ++ cstr (ml_subject r) ++ CRLF ++ chars "MIME-version: 1.0" ++ CRLF) ++
  if_any (ml_attachments r) (format_text (chars "Content-type: multipart/mixed; boundary=" ++ [34] ++ cstr boundary ++ [34] ++ CRLF ++ CRLF) ++ format_text (chars "--" ++ cstr boundary ++ CRLF)) ++
  format_text (chars (if ml_allow_html r then "Content-type: text/html; charset=" else "Content-type: text/plain; charset=") ++ [34] ++ cstr (ml_charset r) ++ [34] ++ CRLF) ++
  chars "Content-transfer-encoding: 7bit" ++ CRLF ++ CRLF.
Definition mail_body (messages : list (list Z)) : list Z :=
  match messages with [] => chars " " ++ CRLF | _ => concat (map (fun m => format_text (cstr m ++ CRLF)) messages) end.
Definition prepare_and_send (fuel : nat) : smtp unit := smtp_get (fun c =>
  let r := sc_request c in
  if (length (ml_sender_address r) =? 0)%nat then report invalid_sender
  else if (length (ml_recipients r) =? 0)%nat then report invalid_recipient
  else
    let boundary := if (0 <? length (ml_attachments r))%nat then default (chars "0x00000000") random_boundary else sc_boundary c in
    smtp_put (set_boundary boundary) ;;;
    smtp_write (envelope r) ;;;
    let replies := (1 + length (ml_recipients r) + length (ml_cc r) + length (ml_bcc r))%nat in
    smtp_put (set_pending (i32 (Z.of_nat replies))) ;;;
    read_responses (S replies) 250 ;;;
    smtp_put (set_pending (i32 (Z.of_nat (length (ml_attachments r))))) ;;;
    send_request 354 (chars "DATA" ++ CRLF) ;;;
    smtp_write (mail_head boundary r) ;;;
    smtp_write (mail_body (ml_messages r)) ;;;
    send_attachments fuel None).

(** [send]; its resolver clears the buffer. *)
Definition clear_buffer (c : smtp_client) : smtp_client := sc_read [] (sc_command c) (sc_replies c) c.
Definition smtp_send (fuel : nat) (root : mail_request) : smtp unit := fun c =>
  let m := smtp_put (set_request root) ;;;
    smtp_get (fun c => if negb (sc_authorized c) && ml_authenticate root && can_request (chars "AUTH") c then authorize else smtp_ret tt) ;;;
    prepare_and_send fuel in
  match m c with smtp_done a c => smtp_done a (clear_buffer c) | reported why c => reported why (clear_buffer c) | r => r end.
Definition ehlo : list Z := format_text (chars "EHLO " ++ (if (0 <? length hoster)%nat then cstr hoster else chars "domain") ++ CRLF).
Definition on_connect : smtp unit :=
  smtp_put (set_authorized false) ;;; read_response 220 ;;; send_request 250 ehlo ;;;
  if is_secure then smtp_get (fun c =>
    if negb (can_request (chars "STARTTLS") c) then report no_tls
    else send_request 220 (chars "STARTTLS" ++ CRLF) ;;; if handshake then send_request 250 ehlo else report tls_failed)
  else smtp_ret tt.
Definition on_disconnect : smtp unit := send_request 221 (chars "QUIT" ++ CRLF) ;;; smtp_put (set_authorized false).
End Session.
