(* ===== verification/SmtpSpec.v ===== *)
(** * The SMTP client: what the server receives, and the answers to its challenges *)
From S2P Require Import Prelude Text TextEdit Codec Md5 Md5Facts Md5Spec Smtp.
Open Scope Z_scope.

(** ** Challenges *)
Lemma md5_of_correct pieces : forall m h, hashed m h -> List.Forall (fun p => Z.of_nat (length p) < 2 ^ 32 - 64) pieces -> exists h', md5_of pieces h = Some h' /\ md5_digest h' = md5 (m ++ concat pieces).
Proof.
  induction pieces as [|p pieces IH]; intros m h H F; cbn [md5_of concat]; [rewrite app_nil_r; destruct (finalize_hashed m h H) as (h' & E & D & _); eauto|].
  apply List.Forall_cons_iff in F as [L F]. destruct (view_hashed m h p H L) as (h1 & E & H1). unfold md5_update_view in E. rewrite E. cbn [mbind option_bind]. rewrite app_assoc. exact (IH _ h1 H1 F).
Qed.
(** HMAC (RFC 2104) with MD5 and its blocks of 64 bytes. *)
Definition hmac_md5 (key text : list Z) : list Z :=
  let key := if (length key <=? 64)%nat then key else md5 key in
  let key := key ++ repeat 0 (64 - length key) in
  md5 (map (fun b => Z.lxor b 0x5c) key ++ md5 (map (fun b => Z.lxor b 0x36) key ++ text)).
Definition hex_text (bytes : list Z) : list Z := flat_map (fun b => [hex_char (b / 16); hex_char (b mod 16)]) bytes.
Lemma length_hex bytes : length (hex_text bytes) = (2 * length bytes)%nat.
Proof. induction bytes as [|b bytes IH]; [reflexivity|]. cbn [hex_text flat_map app length]. fold (hex_text bytes). rewrite IH. lia. Qed.
Lemma length_md5 m : length (md5 m) = 16%nat.
Proof. unfold md5. destruct (md5_absorb _ _ _) as [[[a b] c] d]. reflexivity. Qed.
Definition small_text (t : list Z) : Prop := Z.of_nat (length t) < 2 ^ 32 - 64.
Lemma md5_of_new pieces : List.Forall small_text pieces -> exists h, md5_of pieces md5_new = Some h /\ md5_digest h = md5 (concat pieces).
Proof. intros F. exact (md5_of_correct pieces [] md5_new new_hashed F). Qed.
Lemma digest_small h m : md5_digest h = md5 m -> small_text (md5_digest h).
Proof. intros D. unfold small_text. rewrite D, length_md5. reflexivity. Qed.
Lemma length_key key x : (length key <= 64)%nat -> length (md5_key key x) = 64%nat.
Proof. intros L. unfold md5_key. rewrite length_map, length_app, repeat_length. lia. Qed.

(** All pieces are small: the lengths of keys and digests are known. *)
Ltac pieces_small := repeat (apply List.Forall_cons; [first [assumption|reflexivity|unfold small_text; rewrite ?length_key by assumption; lia]|]); apply List.Forall_nil.
(** The answer to a CRAM-MD5 challenge is the one of RFC 2195, and the response of DIGEST-MD5 the one of RFC 2831. *)
Theorem smtp_challenges login realm password challenge nonce cnonce nc location :
  List.Forall (fun t => small_text t /\ no_zero t = true) [login; realm; password; challenge; nonce] -> List.Forall small_text [cnonce; nc; location] ->
  cram_md5 login password challenge = Some (login ++ [32] ++ hex_text (hmac_md5 password challenge)) /\
  digest_md5 login realm password nonce cnonce nc location =
    (let colon := [58] in
     let a1 := md5 (login ++ colon ++ realm ++ colon ++ password) ++ colon ++ nonce ++ colon ++ cnonce in
     let a2 := chars "AUTHENTICATE:" ++ location in
     Some (hex_text (md5 (hex_text (md5 a1) ++ colon ++ nonce ++ colon ++ nc ++ colon ++ cnonce ++ colon ++ chars "auth" ++ colon ++ hex_text (md5 a2))))).
Proof.
  intros F F'. repeat (apply List.Forall_cons_iff in F as [[? ?] F]). repeat (apply List.Forall_cons_iff in F' as [? F']). clear F F'. split.
  - unfold cram_md5. rewrite H4, H6. cbn [negb andb]. unfold hmac_md5. destruct (Nat.ltb_spec 64 (length password)) as [Long|Short].
    + destruct (md5_of_new [password]) as (h0 & -> & D0); [pieces_small|]. cbn [mbind option_bind]. rewrite D0. cbn [concat]. rewrite app_nil_r.
      replace (length password <=? 64)%nat with false by (symmetry; apply Nat.leb_gt; lia). set (key := md5 password). assert (Lk : (length key <= 64)%nat) by (unfold key; rewrite length_md5; lia).
      destruct (md5_of_new [md5_key key 0x36; challenge]) as (h1 & -> & D1); [pieces_small|]. cbn [mbind option_bind].
      destruct (md5_of_new [md5_key key 0x5c; md5_digest h1]) as (h2 & -> & D2); [pose proof (digest_small _ _ D1); pieces_small|]. cbn [mbind option_bind].
      unfold md5_to_hex. rewrite D2, D1. cbn [concat]. rewrite !app_nil_r. reflexivity.
    + replace (length password <=? 64)%nat with true by (symmetry; apply Nat.leb_le; lia). cbn [mbind option_bind].
      destruct (md5_of_new [md5_key password 0x36; challenge]) as (h1 & -> & D1); [pieces_small|]. cbn [mbind option_bind].
      destruct (md5_of_new [md5_key password 0x5c; md5_digest h1]) as (h2 & -> & D2); [pose proof (digest_small _ _ D1); pieces_small|]. cbn [mbind option_bind].
      unfold md5_to_hex. rewrite D2, D1. cbn [concat]. rewrite !app_nil_r. reflexivity.
  - unfold digest_md5. rewrite H0, H2, H4, H8. cbn [negb andb].
    assert (Col : small_text [58]) by reflexivity.
    destruct (md5_of_new [login; [58]; realm; [58]; password]) as (h1 & -> & D1); [pieces_small|]. cbn [mbind option_bind].
    destruct (md5_of_new [md5_digest h1; [58]; nonce; [58]; cnonce]) as (h2 & -> & D2); [pose proof (digest_small _ _ D1); pieces_small|]. cbn [mbind option_bind].
    destruct (md5_of_new [chars "AUTHENTICATE:"; location]) as (h3 & -> & D3); [pieces_small|]. cbn [mbind option_bind].
    assert (Hx : forall h m, md5_digest h = md5 m -> small_text (md5_to_hex h) /\ md5_to_hex h = hex_text (md5 m)).
    { intros h m D. unfold md5_to_hex. rewrite D. split; [|reflexivity]. unfold small_text. fold (hex_text (md5 m)). rewrite length_hex, length_md5. reflexivity. }
    destruct (Hx _ _ D2) as [S2 E2], (Hx _ _ D3) as [S3 E3].
    destruct (md5_of_new [md5_to_hex h2; [58]; nonce; [58]; nc; [58]; cnonce; [58]; chars "auth"; [58]; md5_to_hex h3]) as (h4 & -> & D4); [pieces_small|]. cbn [mbind option_bind].
    destruct (Hx _ _ D4) as [_ ->]. rewrite E2, E3, D1. cbn [concat]. rewrite !app_nil_r. reflexivity.
Qed.

(** ** Steps of a session *)

Section Session.
Context (file : list Z -> option (list Z)) (random_boundary : option (list Z)) (date : list Z) (getpeername : Z) (peer unix_time hoster : list Z).
Abbreviation send := (smtp_send file random_boundary date getpeername peer unix_time).

Lemma smtp_bind_done {A B} (m : smtp A) (f : A -> smtp B) c b c' : smtp_bind m f c = smtp_done b c' -> exists a c1, m c = smtp_done a c1 /\ f a c1 = smtp_done b c'.
Proof. unfold smtp_bind. destruct (m c); try discriminate. eauto. Qed.
(** What reading and writing leave alone. *)
Definition same_task (c c' : smtp_client) : Prop := sc_request c' = sc_request c /\ sc_pending c' = sc_pending c /\ sc_boundary c' = sc_boundary c /\ sc_authorized c' = sc_authorized c.
Lemma read_lines_task code replies : forall c u c', read_lines code replies c = smtp_done u c' -> same_task c c' /\ sc_sent c' = sc_sent c /\ sc_writes c' = sc_writes c.
Proof.
  induction replies as [|line replies IH]; intros c u c'; cbn [read_lines]; [discriminate|]. destruct (_ || _); [discriminate|]. destruct (negb _).
  - intros E. destruct (IH _ _ _ E) as [[? [? []]] []]. cbn in *. unfold same_task. auto 10.
  - destruct (negb _); [discriminate|]. intros [= <- <-]. unfold same_task. auto 10.
Qed.
Lemma write_task content c u c' : smtp_write content c = smtp_done u c' -> same_task c c' /\ sc_sent c' = sc_sent c ++ [content].
Proof. unfold smtp_write. destruct (match sc_writes c with [] => true | ok :: _ => ok end); [|discriminate]. intros [= <- <-]. unfold same_task. auto 10. Qed.
Lemma send_request_task code content c u c' : send_request code content c = smtp_done u c' -> same_task c c'.
Proof.
  intros E. apply smtp_bind_done in E as (u1 & c1 & E1 & E2). apply write_task in E1 as [(A1 & A2 & A3 & A4) _]. apply read_lines_task in E2 as [(B1 & B2 & B3 & B4) _].
  unfold same_task. repeat split; congruence.
Qed.

Lemma bind_request {A B} (m : smtp A) (f : A -> smtp B) : (forall c a c', m c = smtp_done a c' -> sc_request c' = sc_request c) ->
  (forall x c b c', f x c = smtp_done b c' -> sc_request c' = sc_request c) -> forall c b c', smtp_bind m f c = smtp_done b c' -> sc_request c' = sc_request c.
Proof. intros Hm Hf c b c' E. apply smtp_bind_done in E as (a & c1 & E1 & E2). rewrite (Hf _ _ _ _ E2). eauto. Qed.
Lemma send_request_request code content c u c' : send_request code content c = smtp_done u c' -> sc_request c' = sc_request c.
Proof. intros E. now apply send_request_task in E as []. Qed.
Lemma authorized_request x c u c' : smtp_put (set_authorized x) c = smtp_done u c' -> sc_request c' = sc_request c.
Proof. now intros [= <- <-]. Qed.
Lemma send_then code content (f : smtp unit) : (forall c u c', f c = smtp_done u c' -> sc_request c' = sc_request c) ->
  forall c u c', smtp_bind (send_request code content) (fun _ => f) c = smtp_done u c' -> sc_request c' = sc_request c.
Proof. intros H c u c' E. exact (bind_request _ _ (send_request_request code content) (fun _ => H) c u c' E). Qed.
Lemma login_request r : forall c u c', authorize_login r c = smtp_done u c' -> sc_request c' = sc_request c.
Proof. unfold authorize_login. repeat apply send_then. exact (authorized_request true). Qed.
Lemma plain_request r : forall c u c', authorize_plain r c = smtp_done u c' -> sc_request c' = sc_request c.
Proof. apply send_then. exact (authorized_request true). Qed.
Lemma cram_request r : forall c u c', authorize_cram r c = smtp_done u c' -> sc_request c' = sc_request c.
Proof. apply send_then. intros c u c'. unfold smtp_get, of_digest. destruct (cram_md5 _ _ _); [|discriminate]. apply send_then. exact (authorized_request true). Qed.
Lemma digest_request r : forall c u c', authorize_digest getpeername peer unix_time r c = smtp_done u c' -> sc_request c' = sc_request c.
Proof.
  apply send_then. intros c u c'. unfold smtp_get. destruct (quoted_after _ _) as [[nonce|]|]; [|discriminate|discriminate]. destruct (quoted_after _ _) as [realm|]; [|discriminate].
  destruct (getpeername =? 0); [discriminate|]. unfold of_digest. destruct (digest_md5 _ _ _ _ _ _ _); [|discriminate]. generalize (sc_command c). intros cmd. revert c u c'. repeat apply send_then. exact (authorized_request true).
Qed.
Lemma authorize_request c u c' : authorize getpeername peer unix_time c = smtp_done u c' -> sc_request c' = sc_request c.
Proof.
  unfold authorize, smtp_get. destruct (sc_authorized c); [now intros [= <- <-]|]. do 2 (destruct (_ =? 0)%nat; [discriminate|]).
  destruct (can_request _ c); [apply login_request|]. destruct (can_request _ c); [apply plain_request|]. destruct (can_request _ c); [apply cram_request|]. destruct (can_request _ c); [apply digest_request|discriminate].
Qed.
Lemma attachments_not_done fuel : forall opened c u c', 0 < sc_pending c -> send_attachments file fuel opened c <> smtp_done u c'.
Proof.
  induction fuel as [|fuel IH]; intros opened c u c' P E; [discriminate|]. cbn [send_attachments] in E. unfold smtp_get in E. destruct opened as [content|].
  - destruct (nth_error _ _) as [it|]; [|discriminate]. destruct (negb _); [discriminate|]. apply smtp_bind_done in E as (u1 & c1 & E1 & E). injection E1 as <- <-.
    apply smtp_bind_done in E as (u2 & c2 & E2 & E). apply write_task in E2 as [(_ & E2 & _) _]. cbn in E2. eapply IH; [|exact E]. lia.
  - destruct (Z.leb_spec (sc_pending c) 0); [lia|]. destruct (nth_error _ _) as [it|]; [|discriminate]. destruct (_ || _); [discriminate|].
    apply smtp_bind_done in E as (u2 & c2 & E2 & E). apply write_task in E2 as [(_ & E2 & _) _]. destruct (file _) as [content|]; [|discriminate]. eapply IH; [|exact E]. lia.
Qed.
(** A mail with an attachment is never finished, whatever the server answers, the files hold and the writes do: the count of the attachments left is never reduced. *)
Theorem smtp_attachment_never_sent fuel root c u c' : ml_attachments root <> [] -> Z.of_nat (length (ml_attachments root)) < 2 ^ 31 -> smtp_send file random_boundary date getpeername peer unix_time fuel root c <> smtp_done u c'.
Proof.
  intros N L E. unfold smtp_send in E. destruct (smtp_bind (smtp_put (set_request root)) _ c) as [a c1|? ?|?| |] eqn:Em; try discriminate. clear E.
  apply smtp_bind_done in Em as (u1 & c2 & E1 & E). injection E1 as <- <-. apply smtp_bind_done in E as (u2 & c3 & E2 & E).
  assert (R3 : sc_request c3 = root).
  { unfold smtp_get in E2. destruct (_ && _) in E2; [|injection E2 as <- <-; reflexivity]. now apply authorize_request in E2. }
  unfold prepare_and_send, smtp_get in E. rewrite R3 in E. destruct (_ =? 0)%nat in E; [discriminate|]. destruct (_ =? 0)%nat in E; [discriminate|].
  apply smtp_bind_done in E as (u4 & c4 & E4 & E). apply smtp_bind_done in E as (u5 & c5 & E5 & E). apply smtp_bind_done in E as (u6 & c6 & E6 & E). apply smtp_bind_done in E as (u7 & c7 & E7 & E).
  apply smtp_bind_done in E as (u8 & c8 & E8 & E). injection E8 as <- <-. apply smtp_bind_done in E as (u9 & c9 & E9 & E). apply send_request_task in E9 as (_ & P9 & _).
  apply smtp_bind_done in E as (u10 & c10 & E10 & E). apply write_task in E10 as [(_ & P10 & _) _]. apply smtp_bind_done in E as (u11 & c11 & E11 & E). apply write_task in E11 as [(_ & P11 & _) _].
  eapply attachments_not_done; [|exact E]. rewrite P11, P10, P9. cbn [sc_pending set_pending]. destruct (ml_attachments root) as [|x l]; [congruence|]. cbn [length] in *.
  replace (i32 (Z.of_nat (S (length l)))) with (Z.of_nat (S (length l))) by (unfold wrapS; rewrite Z.mod_small; lia). lia.
Qed.
End Session.
