(* ===== verification/SmtpMail.v ===== *)
(** * The SMTP client: a mail without attachments arrives, where no line begins with a dot *)
From S2P Require Import Prelude Text TextEdit Codec Md5 Smtp SmtpSpec.
Open Scope Z_scope.

(** ** The receiving server

    Lines end with CR LF; behind DATA come the lines of a mail up to a dot, whose own dots at the beginning are doubled (RFC 5321, 4.5.2). *)

Fixpoint crlf_lines (acc text : list Z) : list (list Z) * list Z :=
  match text with
  | [] => ([], rev acc)
  | c :: text' =>
      match text' with
      | d :: text'' => if (c =? 13) && (d =? 10) then let (ls, r) := crlf_lines [] text'' in (rev acc :: ls, r) else crlf_lines (c :: acc) text'
      | [] => ([], rev (c :: acc))
      end
  end.
Inductive server_event := got_command (line : list Z) | got_mail (lines : list (list Z)).
Definition same_text (a b : list Z) : bool := bool_decide (a = b).
Definition unstuffed (line : list Z) : list Z := match line with 46 :: rest => rest | _ => line end.
Fixpoint smtp_receive (lines : list (list Z)) (mail : option (list (list Z))) : list server_event :=
  match lines with
  | [] => []
  | line :: lines =>
      match mail with
      | None => got_command line :: smtp_receive lines (if same_text line (chars "DATA") then Some [] else None)
      | Some ls => if same_text line [46] then got_mail ls :: smtp_receive lines None else smtp_receive lines (Some (ls ++ [unstuffed line]))
      end
  end.
Definition received_from (bytes : list Z) : list server_event := smtp_receive (fst (crlf_lines [] bytes)) None.

Definition clean_text (t : list Z) : Prop := List.Forall (fun c => c <> 0 /\ c <> 10 /\ c <> 13) t.
Definition unlines (ls : list (list Z)) : list Z := concat (map (fun l => l ++ CRLF) ls).
Lemma unlines_app a b : unlines (a ++ b) = unlines a ++ unlines b.
Proof. unfold unlines. now rewrite map_app, concat_app. Qed.
Lemma crlf_line l : forall acc t, clean_text l -> crlf_lines acc (l ++ CRLF ++ t) = (let (ls, r) := crlf_lines [] t in ((rev acc ++ l) :: ls, r)).
Proof.
  induction l as [|c l IH]; intros acc t F; [cbn; rewrite app_nil_r; reflexivity|]. apply List.Forall_cons_iff in F as [(N0 & N10 & N13) F].
  cbn [app crlf_lines]. destruct (l ++ CRLF ++ t) as [|d t'] eqn:E; [destruct l; discriminate|]. replace (c =? 13) with false by lia. cbn [andb]. rewrite <- E, IH by exact F.
  destruct (crlf_lines [] t). cbn [rev]. now rewrite <- app_assoc.
Qed.
Lemma lines_unlines ls : List.Forall clean_text ls -> crlf_lines [] (unlines ls) = (ls, []).
Proof.
  induction ls as [|l ls IH]; intros F; [reflexivity|]. apply List.Forall_cons_iff in F as [C F]. unfold unlines. cbn [map concat]. rewrite <- app_assoc, crlf_line by exact C. fold (unlines ls). now rewrite IH.
Qed.
(** The data of a mail whose lines do not begin with a dot. *)
Definition dot_free (l : list Z) : Prop := hd 0 l <> 46.
Lemma receive_data ls rest : forall mail, List.Forall dot_free ls -> smtp_receive (ls ++ [46] :: rest) (Some mail) = got_mail (mail ++ ls) :: smtp_receive rest None.
Proof.
  induction ls as [|l ls IH]; intros mail F; [rewrite app_nil_r; reflexivity|]. apply List.Forall_cons_iff in F as [N F]. cbn [app smtp_receive].
  unfold same_text. rewrite bool_decide_eq_false_2 by (intros ->; now apply N). rewrite IH by exact F.
  assert (U : unstuffed l = l). { destruct l as [|c l]; [reflexivity|]. unfold dot_free in N. cbn in N. unfold unstuffed. destruct c; try reflexivity. repeat (destruct p; try reflexivity). congruence. }
  now rewrite U, <- app_assoc.
Qed.
Lemma receive_commands cs rest : List.Forall (fun c => c <> chars "DATA") cs -> smtp_receive (cs ++ rest) None = map got_command cs ++ smtp_receive rest None.
Proof.
  induction cs as [|c cs IH]; intros F; [reflexivity|]. apply List.Forall_cons_iff in F as [N F]. cbn [app smtp_receive map]. unfold same_text. now rewrite bool_decide_eq_false_2, IH by assumption.
Qed.

(** ** The lines of a mail *)

Definition field (t : list Z) : Prop := clean_text t /\ Z.of_nat (length t) < 8000.

Definition mail_from_line (r : mail_request) : list Z := chars "MAIL FROM: <" ++ ml_sender_address r ++ chars ">".
Definition rcpt_to_line (r : recipient) : list Z := chars "RCPT TO: <" ++ rc_address r ++ chars ">".
Definition envelope_lines (r : mail_request) : list (list Z) := mail_from_line r :: map rcpt_to_line (ml_recipients r ++ ml_cc r ++ ml_bcc r).
Definition line_if {A} (l : list A) (line : list Z) : list (list Z) := match l with [] => [] | _ => [line] end.
Definition head_lines (date : list Z) (r : mail_request) : list (list Z) :=
  [chars "Date: " ++ date; chars "From: " ++ ml_sender_name r ++ chars " <" ++ ml_sender_address r ++ chars ">"] ++
  map (fun h => fst h ++ chars ": " ++ snd h) (ml_headers r) ++
  line_if (ml_mailer r) (chars "X-mailer: " ++ ml_mailer r) ++
  line_if (ml_receiver r) (chars "Reply-to: " ++ ml_receiver r) ++
  (if ml_no_notification r then [chars "Disposition-notification-to: " ++ (match ml_receiver r with [] => ml_sender_name r | t => t end)] else []) ++
  [match ml_prior r with high_priority => chars "X-priority: 2 (high)" | normal_priority => chars "X-priority: 3 (normal)" | low_priority => chars "X-priority: 4 (low)" end] ++
  [chars "To: " ++ address_list (ml_recipients r)] ++
  line_if (ml_cc r) (chars "Cc: " ++ address_list (ml_cc r)) ++
  line_if (ml_bcc r) (chars "Bcc: " ++ address_list (ml_bcc r)) ++
  [chars "Subject: " ++ ml_subject r; chars "MIME-version: 1.0";
   chars (if ml_allow_html r then "Content-type: text/html; charset=" else "Content-type: text/plain; charset=") ++ [34] ++ ml_charset r ++ [34];
   chars "Content-transfer-encoding: 7bit"].
Definition body_lines (messages : list (list Z)) : list (list Z) := match messages with [] => [[32]] | _ => messages end.
Definition name_ok (t : list Z) : Prop := clean_text t /\ Z.of_nat (length t) < 100 /\ dot_free t.
(** A mail of single lines that fit the buffers of the client. *)
Record mail_ok (date : list Z) (r : mail_request) : Prop := mk_mail_ok {
  ok_date : clean_text date; ok_sender : field (ml_sender_address r) /\ field (ml_sender_name r); ok_no_files : ml_attachments r = [];
  ok_some : ml_sender_address r <> [] /\ ml_recipients r <> [];
  ok_addresses : List.Forall (fun a => field (rc_address a)) (ml_recipients r ++ ml_cc r ++ ml_bcc r);
  ok_lists : field (address_list (ml_recipients r)) /\ field (address_list (ml_cc r)) /\ field (address_list (ml_bcc r));
  ok_headers : List.Forall (fun h => name_ok (fst h) /\ field (snd h)) (ml_headers r);
  ok_texts : List.Forall field [ml_mailer r; ml_receiver r; ml_subject r; ml_charset r];
  ok_messages : List.Forall (fun m => field m /\ dot_free m) (ml_messages r) }.

Lemma cstr_clean t : clean_text t -> cstr t = t.
Proof. induction 1 as [|c t (N & _) _ IH]; [reflexivity|]. cbn. rewrite IH. now replace (c =? 0) with false by lia. Qed.
Lemma format_short t : Z.of_nat (length t) < 8192 -> format_text t = t.
Proof. intros L. unfold format_text. assert (B : Z.of_nat blob_size = 8192) by reflexivity. destruct (Nat.ltb_spec (length t) blob_size); [reflexivity|lia]. Qed.
Lemma format_field pre t post : field t -> Z.of_nat (length pre) + Z.of_nat (length post) < 192 -> format_text (pre ++ cstr t ++ post) = pre ++ t ++ post.
Proof. intros [C L] B. rewrite (cstr_clean t C), format_short; [reflexivity|]. rewrite !length_app. lia. Qed.
Lemma unlines_one l : unlines [l] = l ++ CRLF.
Proof. unfold unlines. cbn. apply app_nil_r. Qed.
Lemma unlines_cons l ls : unlines (l :: ls) = l ++ CRLF ++ unlines ls.
Proof. unfold unlines. cbn. now rewrite <- app_assoc. Qed.
Lemma unlines_nil : unlines [] = [].
Proof. reflexivity. Qed.
Lemma unlines_if {A} (l : list A) line text : (l <> [] -> text = line ++ CRLF) -> if_any l text = unlines (line_if l line).
Proof. destruct l; [reflexivity|]. intros H. cbn [line_if]. rewrite unlines_one. now apply H. Qed.

Lemma envelope_unlines date r : mail_ok date r -> envelope r = unlines (envelope_lines r).
Proof.
  intros M. unfold envelope, envelope_lines, unlines. cbn [map concat]. rewrite <- !concat_app, <- !map_app. unfold mail_from_line. f_equal.
  - rewrite format_field by (apply M || reflexivity). rewrite <- !app_assoc. reflexivity.
  - rewrite map_map. f_equal. apply map_ext_in. intros a Ia. pose proof (ok_addresses _ _ M) as F. rewrite List.Forall_forall in F. unfold rcpt_line, rcpt_to_line. rewrite format_field by (auto || reflexivity). rewrite <- !app_assoc. reflexivity.
Qed.
Lemma headers_unlines hs : List.Forall (fun h => name_ok (fst h) /\ field (snd h)) hs ->
  concat (map (fun h => format_text (cstr (fst h) ++ chars ": " ++ cstr (snd h) ++ CRLF)) hs) = unlines (map (fun h => fst h ++ chars ": " ++ snd h) hs).
Proof.
  induction 1 as [|[n v] hs [(Cn & Ln & _) [Cv Lv]] _ IH]; [reflexivity|]. cbn [map concat fst snd] in *. rewrite unlines_cons, IH, !cstr_clean, format_short by (assumption || (rewrite !length_app; cbn [length CRLF chars map list_ascii_of_string]; lia)).
  rewrite <- !app_assoc. reflexivity.
Qed.
Lemma head_unlines date boundary r : mail_ok date r -> mail_head date boundary r = unlines (head_lines date r ++ [[]]).
Proof.
  intros M. pose proof (ok_texts _ _ M) as T. apply List.Forall_cons_iff in T as [Tm T]. apply List.Forall_cons_iff in T as [Tr T]. apply List.Forall_cons_iff in T as [Ts T]. apply List.Forall_cons_iff in T as [Tc _].
  destruct (ok_sender _ _ M) as [Sa Sn], (ok_lists _ _ M) as (L1 & L2 & L3). unfold mail_head, head_lines. rewrite (ok_no_files _ _ M). change (if_any (@nil attachment) ?t) with (@nil Z).
  rewrite (cstr_clean (ml_sender_name r)) by apply Sn. unfold mail_header_line.
  rewrite (format_field (chars " <") (ml_sender_address r)), (format_field (chars "Subject: ") (ml_subject r)), (format_field (chars "To: ")) by (assumption || reflexivity).
  set (kind := chars (if ml_allow_html r then _ else _)). assert (Lk : Z.of_nat (length kind) < 100) by (unfold kind; now destruct (ml_allow_html r)).
  rewrite (app_assoc kind [34]), (format_field (kind ++ [34]) (ml_charset r)) by (assumption || (rewrite !length_app; cbn [length CRLF]; lia)).
  rewrite !unlines_app, !unlines_cons, unlines_nil.
  rewrite <- (unlines_if (ml_mailer r) _ (format_text (chars "X-mailer: " ++ cstr (ml_mailer r) ++ CRLF))) by (intros _; rewrite format_field by (assumption || reflexivity); now rewrite <- app_assoc).
  rewrite <- (unlines_if (ml_receiver r) _ (format_text (chars "Reply-to: " ++ cstr (ml_receiver r) ++ CRLF))) by (intros _; rewrite format_field by (assumption || reflexivity); now rewrite <- app_assoc).
  rewrite <- (unlines_if (ml_cc r) _ (format_text (chars "Cc: " ++ cstr (address_list (ml_cc r)) ++ CRLF))) by (intros _; rewrite format_field by (assumption || reflexivity); now rewrite <- app_assoc).
  rewrite <- (unlines_if (ml_bcc r) _ (format_text (chars "Bcc: " ++ cstr (address_list (ml_bcc r)) ++ CRLF))) by (intros _; rewrite format_field by (assumption || reflexivity); now rewrite <- app_assoc).
  rewrite (headers_unlines _ (ok_headers _ _ M)).
  assert (Nt : (if ml_no_notification r then format_text (chars "Disposition-notification-to: " ++ cstr (if (0 <? length (ml_receiver r))%nat then ml_receiver r else ml_sender_name r) ++ CRLF) else []) =
    unlines (if ml_no_notification r then [chars "Disposition-notification-to: " ++ match ml_receiver r with [] => ml_sender_name r | t => t end] else [])).
  { destruct (ml_no_notification r); [|reflexivity]. rewrite unlines_one. destruct (ml_receiver r) as [|x t] eqn:Er; cbn [length Nat.ltb Nat.leb]; rewrite format_field by (assumption || reflexivity); now rewrite <- app_assoc. }
  rewrite Nt. unfold priority_line. rewrite <- !app_assoc. destruct (ml_prior r); reflexivity.
Qed.

(** ** The session *)

Definition digits3 (line : list Z) : Prop := is_reply_digit 0 line = true /\ is_reply_digit 1 line = true /\ is_reply_digit 2 line = true.
(** A reply of one line or more. *)
Definition reply (code : Z) (lines : list (list Z)) : Prop := exists before line, lines = before ++ [line] /\
  List.Forall (fun l => digits3 l /\ at_ l 3 <> 32) before /\ digits3 line /\ at_ line 3 = 32 /\ reply_code line = code.
Lemma read_reply code lines rest c : reply code lines -> sc_replies c = lines ++ rest -> exists b cmd, read_response code c = smtp_done tt (sc_read b cmd rest c).
Proof.
  intros (before & line & -> & F & (D0 & D1 & D2) & Sp & Rc) E. unfold read_response. rewrite E, <- app_assoc. cbn [app]. clear E.
  enough (H : forall c0, exists b cmd, read_lines code (before ++ line :: rest) c0 = smtp_done tt (sc_read b cmd rest c0)) by apply H.
  induction F as [|l before ((E0 & E1 & E2) & N) _ IH]; intros c0; cbn [app read_lines].
  - rewrite D0, D1, D2, Sp, Rc, !Z.eqb_refl. cbn. eauto.
  - rewrite E0, E1, E2. cbn [negb orb]. replace (at_ l 3 =? 32) with false by lia. cbn [negb]. exact (IH (sc_read (sc_buffer c0 ++ l) l (before ++ line :: rest) c0)).
Qed.
Lemma read_acks acks : forall fuel rest c, acks <> [] -> List.Forall (reply 250) acks -> sc_replies c = concat acks ++ rest -> sc_pending c = Z.of_nat (length acks) -> Z.of_nat (length acks) < 2 ^ 31 ->
  (length acks <= fuel)%nat -> exists b cmd, read_responses fuel 250 c = smtp_done tt (set_pending 0 (sc_read b cmd rest c)).
Proof.
  induction acks as [|a acks IH]; intros fuel rest c N F E P L Lf; [congruence|]. apply List.Forall_cons_iff in F as [Ra F]. destruct fuel as [|fuel]; cbn [length] in *; [lia|]. cbn [read_responses].
  cbn [concat] in E. rewrite <- app_assoc in E. destruct (read_reply 250 a (concat acks ++ rest) c Ra E) as (b & cmd & Er). unfold smtp_bind. rewrite Er. unfold smtp_get. cbn [sc_pending sc_read].
  rewrite P. replace (i32 (Z.of_nat (S (length acks)) - 1)) with (Z.of_nat (length acks)) by (unfold wrapS; rewrite Z.mod_small; lia).
  destruct (Z.leb_spec (Z.of_nat (length acks)) 0).
  - destruct acks; [|cbn in *; lia]. exists b, cmd. reflexivity.
  - unfold smtp_put. destruct (IH fuel rest (set_pending (Z.of_nat (length acks)) (sc_read b cmd (concat acks ++ rest) c))) as (b' & cmd' & ->); [intros ->; cbn in *; lia|exact F|reflexivity|reflexivity|lia|lia|]. exists b', cmd'. reflexivity.
Qed.
Lemma write_free content c : sc_writes c = [] -> smtp_write content c = smtp_done tt (sc_write [] (sc_sent c ++ [content]) c).
Proof. intros E. unfold smtp_write. now rewrite E. Qed.

Section Session.
Context (file : list Z -> option (list Z)) (random_boundary : option (list Z)) (date : list Z) (getpeername : Z) (peer unix_time : list Z).
Abbreviation send := (smtp_send file random_boundary date getpeername peer unix_time).

Lemma body_unlines messages : List.Forall (fun m => field m /\ dot_free m) messages -> mail_body messages = unlines (body_lines messages).
Proof.
  intros F. unfold mail_body, body_lines. destruct messages as [|m ms]; [reflexivity|]. unfold unlines. f_equal. apply map_ext_in. intros x Ix. rewrite List.Forall_forall in F. destruct (F x Ix) as [Fx _].
  exact (format_field [] x CRLF Fx ltac:(reflexivity)).
Qed.
(** A session up to the attachments: the commands, the headers and the messages are written, the replies to them are read. *)
Definition written_before (c : smtp_client) (boundary : list Z) (r : mail_request) : list (list Z) :=
  sc_sent c ++ [envelope r; chars "DATA" ++ CRLF; mail_head date boundary r; mail_body (ml_messages r)].
Definition finished (m : smtp_result unit) : smtp_result unit :=
  match m with smtp_done a c => smtp_done a (clear_buffer c) | reported why c => reported why (clear_buffer c) | r => r end.
Lemma session_reaches r c acks go rest fuel : ml_sender_address r <> [] -> ml_recipients r <> [] -> sc_writes c = [] -> sc_authorized c = true \/ ml_authenticate r = false ->
  length acks = (1 + length (ml_recipients r) + length (ml_cc r) + length (ml_bcc r))%nat -> Z.of_nat (length acks) < 2 ^ 31 ->
  List.Forall (reply 250) acks -> reply 354 go -> sc_replies c = concat acks ++ go ++ rest ->
  let boundary := if (0 <? length (ml_attachments r))%nat then default (chars "0x00000000") random_boundary else sc_boundary c in
  exists c', send fuel r c = finished (send_attachments file fuel None c') /\ sc_request c' = r /\ sc_boundary c' = boundary /\ sc_writes c' = [] /\ sc_replies c' = rest /\
    sc_pending c' = i32 (Z.of_nat (length (ml_attachments r))) /\ sc_sent c' = written_before c boundary r.
Proof.
  intros Ns Nr W Au La Lb Fa Rg Er boundary. unfold smtp_send, smtp_bind at 1 2, smtp_put at 1, smtp_get at 1. cbn [sc_authorized set_request].
  replace (negb (sc_authorized c) && ml_authenticate r) with false by (destruct Au as [-> | ->]; [reflexivity|now rewrite andb_false_r]). cbn [andb]. unfold smtp_ret at 1.
  unfold prepare_and_send, smtp_get at 1. cbn [sc_request set_request].
  destruct (ml_sender_address r) as [|sx sl] eqn:Es; [congruence|]. destruct (ml_recipients r) as [|rx rl] eqn:Err; [congruence|]. cbn [length Nat.eqb sc_boundary set_request]. fold boundary.
  rewrite <- Err in *. replace (S (length rl)) with (length (ml_recipients r)) by now rewrite Err. unfold smtp_bind at 1, smtp_put at 1.
  set (c1 := set_boundary boundary (set_request r c)). unfold smtp_bind at 1. rewrite (write_free (envelope r) c1 W). unfold smtp_bind at 1, smtp_put at 1. rewrite <- La.
  set (c2 := set_pending (i32 (Z.of_nat (length acks))) _). unfold smtp_bind at 1.
  destruct (read_acks acks (S (length acks)) (go ++ rest) c2) as (b & cmd & ->); [intros ->; cbn in La; lia|exact Fa|exact Er|unfold c2; cbn [sc_pending set_pending]; unfold wrapS; rewrite Z.mod_small; lia|exact Lb|lia|].
  unfold smtp_bind at 1, smtp_put at 1. set (c3 := set_pending _ (set_pending 0 _)). unfold smtp_bind at 1, send_request, smtp_bind at 1. rewrite (write_free _ c3 eq_refl).
  destruct (read_reply 354 go rest (sc_write [] (sc_sent c3 ++ [chars "DATA" ++ CRLF]) c3) Rg eq_refl) as (b4 & cmd4 & ->). set (c4 := sc_read b4 cmd4 _ _).
  unfold smtp_bind at 1. rewrite (write_free _ c4 eq_refl). set (c5 := sc_write [] _ c4). unfold smtp_bind at 1. rewrite (write_free _ c5 eq_refl). set (c6 := sc_write [] _ c5).
  exists c6. split; [unfold finished; now destruct (send_attachments _ _ _ _)|]. do 5 (split; [reflexivity|]). unfold written_before, c6, c5, c4, c3, c2, c1. cbn [sc_sent sc_write sc_read set_pending set_boundary set_request]. rewrite <- !app_assoc. reflexivity.
Qed.
Lemma session_writes r c acks go last_ rest fuel : mail_ok date r -> sc_writes c = [] -> sc_authorized c = true \/ ml_authenticate r = false ->
  length acks = (1 + length (ml_recipients r) + length (ml_cc r) + length (ml_bcc r))%nat -> Z.of_nat (length acks) < 2 ^ 31 ->
  List.Forall (reply 250) acks -> reply 354 go -> reply 250 last_ -> sc_replies c = concat acks ++ go ++ last_ ++ rest ->
  exists c', send (S fuel) r c = smtp_done tt c' /\ sc_replies c' = rest /\
    sc_sent c' = sc_sent c ++ [envelope r; chars "DATA" ++ CRLF; mail_head date (sc_boundary c) r; mail_body (ml_messages r); CRLF ++ chars "." ++ CRLF].
Proof.
  intros M W Au La Lb Fa Rg Rl Er. destruct (ok_some _ _ M) as [Ns Nr]. destruct (session_reaches r c acks go (last_ ++ rest) (S fuel) Ns Nr W Au La Lb Fa Rg Er) as (c6 & -> & Rq & Bo & Wr & Re & Pe & Se).
  rewrite (ok_no_files _ _ M) in Pe, Bo, Se. change (i32 (Z.of_nat (length (@nil attachment)))) with 0 in Pe. cbn [send_attachments]. unfold smtp_get at 1. rewrite Pe. cbn [Z.leb Z.compare].
  unfold finish_mail, smtp_get at 1. rewrite Rq, (ok_no_files _ _ M). change (0 <? length (@nil attachment))%nat with false. cbv iota. unfold smtp_bind at 1. rewrite (write_free _ c6 Wr). set (c7 := sc_write [] _ c6).
  rewrite Pe. change (Z.to_nat 0) with 0%nat. cbn [read_responses]. unfold smtp_bind at 1.
  destruct (read_reply 250 last_ rest c7 Rl Re) as (b8 & cmd8 & ->). unfold smtp_get at 1. cbn [sc_pending sc_read]. replace (sc_pending c7) with 0 by (symmetry; exact Pe). change (i32 (0 - 1) <=? 0) with true. cbv iota. unfold smtp_put, finished.
  eexists. split; [reflexivity|]. split; [reflexivity|]. unfold clear_buffer. cbn [sc_sent sc_read set_pending]. unfold c7. cbn [sc_sent sc_write]. rewrite Se. unfold written_before. rewrite <- app_assoc. reflexivity.
Qed.

Ltac clean_line := unfold clean_text in *; repeat (apply List.Forall_app; split); first [assumption|vm_compute; repeat constructor; discriminate].
Lemma field_clean t : field t -> clean_text t.
Proof. now intros [C _]. Qed.
Lemma line_if_all {A} (P : list Z -> Prop) (l : list A) line : P line -> List.Forall P (line_if l line).
Proof. intros H. destruct l; cbn; [constructor|]. now repeat constructor. Qed.
Lemma envelope_clean r : mail_ok date r -> List.Forall (fun l => clean_text l /\ l <> chars "DATA") (envelope_lines r).
Proof.
  intros M. unfold envelope_lines. constructor.
  - split; [|discriminate]. pose proof (field_clean _ (proj1 (ok_sender _ _ M))). unfold mail_from_line. clean_line.
  - rewrite List.Forall_map. eapply List.Forall_impl; [|apply (ok_addresses _ _ M)]. intros a Fa. pose proof (field_clean _ Fa). unfold rcpt_to_line. split; [clean_line|discriminate].
Qed.
Lemma head_clean r : mail_ok date r -> List.Forall (fun l => clean_text l /\ dot_free l) (head_lines date r).
Proof.
  intros M. pose proof (ok_texts _ _ M) as T. apply List.Forall_cons_iff in T as [Tm T]. apply List.Forall_cons_iff in T as [Tr T]. apply List.Forall_cons_iff in T as [Ts T]. apply List.Forall_cons_iff in T as [Tc _].
  destruct (ok_sender _ _ M) as [Sa Sn], (ok_lists _ _ M) as (L1 & L2 & L3). pose proof (ok_date _ _ M).
  repeat match goal with H : field _ |- _ => apply field_clean in H end. unfold head_lines. repeat (apply List.Forall_app; split); repeat (apply List.Forall_cons; [|]); try apply List.Forall_nil; try apply line_if_all;
    try (split; [clean_line|unfold dot_free; discriminate]).
  - rewrite List.Forall_map. eapply List.Forall_impl; [|apply (ok_headers _ _ M)]. intros [n v] [(Cn & _ & Dn) Fv]. apply field_clean in Fv. cbn [fst snd] in *. split; [clean_line|]. destruct n; [discriminate|exact Dn].
  - destruct (ml_no_notification r); [|constructor]. apply List.Forall_cons; [|constructor]. split; [|unfold dot_free; discriminate]. assert (Ct : clean_text (match ml_receiver r with [] => ml_sender_name r | t => t end)) by (destruct (ml_receiver r); assumption). clean_line.
  - destruct (ml_prior r); (split; [clean_line|unfold dot_free; discriminate]).
  - destruct (ml_allow_html r); (split; [clean_line|unfold dot_free; discriminate]).
Qed.
Lemma body_clean r : mail_ok date r -> List.Forall (fun l => clean_text l /\ dot_free l) (body_lines (ml_messages r)).
Proof.
  intros M. unfold body_lines. pose proof (ok_messages _ _ M) as F. destruct (ml_messages r) as [|m ms]; [repeat constructor; discriminate|].
  eapply List.Forall_impl; [|exact F]. intros x [Fx D]. split; [now apply field_clean|exact D].
Qed.
(** (C21) A mail without attachments, of lines that fit the buffers and do not begin with a dot, arrives: the client sends the commands for the sender and for every
    recipient, then a mail of its headers - the hidden recipients' among them -, an empty line and the messages, reports success and has read the replies, however many lines they have. *)
Theorem smtp_mail_arrives r c acks go last_ rest fuel : mail_ok date r -> sc_writes c = [] -> sc_authorized c = true \/ ml_authenticate r = false ->
  length acks = (1 + length (ml_recipients r) + length (ml_cc r) + length (ml_bcc r))%nat -> Z.of_nat (length acks) < 2 ^ 31 ->
  List.Forall (reply 250) acks -> reply 354 go -> reply 250 last_ -> sc_replies c = concat acks ++ go ++ last_ ++ rest ->
  exists c' sent, smtp_send file random_boundary date getpeername peer unix_time (S fuel) r c = smtp_done tt c' /\ sc_replies c' = rest /\ sc_sent c' = sc_sent c ++ sent /\
    received_from (concat sent) = map got_command (envelope_lines r ++ [chars "DATA"]) ++ [got_mail (head_lines date r ++ [[]] ++ body_lines (ml_messages r) ++ [[]])].
Proof.
  intros M W Au La Lb Fa Rg Rl Er. destruct (session_writes r c acks go last_ rest fuel M W Au La Lb Fa Rg Rl Er) as (c' & E & R & S). exists c'. eexists. split; [exact E|]. split; [exact R|]. split; [exact S|].
  cbn [concat]. rewrite app_nil_r, (envelope_unlines _ _ M), (head_unlines _ _ _ M), (body_unlines _ (ok_messages _ _ M)).
  replace (_ ++ _) with (unlines (envelope_lines r ++ [chars "DATA"] ++ (head_lines date r ++ [[]] ++ body_lines (ml_messages r) ++ [[]]) ++ [[46]])) by (rewrite !unlines_app, !unlines_cons, !unlines_nil, <- !app_assoc; reflexivity).
  pose proof (envelope_clean r M) as Ce. pose proof (head_clean r M) as Ch. pose proof (body_clean r M) as Cb. apply List.Forall_and_inv in Ce as [Ce1 Ce2], Ch as [Ch1 Ch2], Cb as [Cb1 Cb2].
  assert (Ne : List.Forall clean_text [[]] /\ List.Forall dot_free [[]]) by (split; repeat constructor; discriminate). destruct Ne as [Ne1 Ne2].
  assert (Nd : List.Forall clean_text [chars "DATA"] /\ List.Forall clean_text [[46]]) by (split; apply List.Forall_cons; [clean_line|constructor|clean_line|constructor]). destruct Nd as [Nd1 Nd2].
  unfold received_from. rewrite lines_unlines by (rewrite !List.Forall_app; auto 10). cbn [fst].
  set (lines := head_lines date r ++ [[]] ++ body_lines (ml_messages r) ++ [[]]). assert (Dl : List.Forall dot_free lines) by (unfold lines; rewrite !List.Forall_app; auto 10).
  rewrite receive_commands by exact Ce2. change ([chars "DATA"] ++ lines ++ [[46]]) with (chars "DATA" :: (lines ++ [[46]])). cbn [smtp_receive]. unfold same_text at 1. rewrite bool_decide_eq_true_2 by reflexivity.
  rewrite (receive_data lines [] []) by exact Dl. cbn [smtp_receive app]. rewrite map_app, <- !app_assoc. reflexivity.
Qed.

(** ** The first attachment, over and over *)

(** The lines of a file of [len] bytes. *)
Fixpoint file_lines (fuel len : nat) (content : list Z) : list (list Z) :=
  match fuel with
  | O => []
  | S fuel =>
      let count := Nat.min len blob_size in
      (base64_encode (firstn count content) ++ CRLF) :: (if (len - count =? 0)%nat then [] else file_lines fuel (len - count) (skipn count content))
  end.
(** The client that is at the first attachment, which has [len] bytes left. *)
Record attaching (path : list Z) (more : list attachment) (boundary : list Z) (len : nat) (c : smtp_client) : Prop := mk_attaching {
  at_request : ml_attachments (sc_request c) = mk_attachment path len :: more; at_pending : sc_pending c = Z.of_nat (S (length more)); at_writes : sc_writes c = []; at_boundary : sc_boundary c = boundary }.
Section Attaching.
Context (path : list Z) (more : list attachment) (boundary content : list Z).
Context (named : cstr path <> []) (plain : ends_as_directory (cstr path) = false) (opens : file (cstr path) = Some content).
Abbreviation attaching := (attaching path more boundary).
Lemma first_of c len : attaching len c -> Z.to_nat (u64 (Z.of_nat (length (ml_attachments (sc_request c))) - sc_pending c)) = 0%nat.
Proof. intros []. rewrite at_request0, at_pending0. cbn [length]. now rewrite Z.sub_diag. Qed.
Lemma attachment_opened fuel c len : attaching len c -> exists c', send_attachments file (S fuel) None c = send_attachments file fuel (Some content) c' /\ attaching len c' /\
  sc_sent c' = sc_sent c ++ [attachment_header boundary (cstr path)].
Proof.
  intros A. pose proof (first_of c len A) as F. destruct A as [R P W B]. cbn [send_attachments]. unfold smtp_get at 1. rewrite F, P, R. destruct (Z.leb_spec (Z.of_nat (S (length more))) 0); [lia|]. cbn [nth_error at_path].
  rewrite plain, orb_false_r. destruct (cstr path) as [|x l] eqn:Ec; [congruence|]. cbn [length Nat.eqb]. rewrite <- Ec in *. unfold smtp_bind. rewrite (write_free _ c W), opens, B. eexists. split; [reflexivity|].
  split; [split; assumption || reflexivity|reflexivity].
Qed.
Lemma attachment_block fuel c len rest : attaching len c -> (len <= length rest)%nat -> let count := Nat.min len blob_size in
  exists c', send_attachments file (S fuel) (Some rest) c = send_attachments file fuel (if (len - count =? 0)%nat then None else Some (skipn count rest)) c' /\ attaching (len - count) c' /\
    sc_sent c' = sc_sent c ++ [base64_encode (firstn count rest) ++ CRLF].
Proof.
  intros A L count. pose proof (first_of c len A) as F. destruct A as [R P W B]. cbn [send_attachments]. unfold smtp_get at 1. rewrite F, R. cbn [nth_error at_length]. fold count.
  rewrite length_firstn, (Nat.min_l count (length rest)) by lia. rewrite Nat.eqb_refl. cbn [negb]. unfold smtp_bind, smtp_put.
  set (c1 := set_attachment_length 0 (len - count) c). rewrite (write_free _ c1 W). eexists. split; [reflexivity|]. split; [|reflexivity]. split; try assumption.
  - unfold c1, set_attachment_length. cbn. rewrite R. reflexivity.
  - reflexivity.
Qed.
Lemma attachment_sent lines : forall len rest c, lines = file_lines (S len) len rest -> attaching len c -> (len <= length rest)%nat -> forall fuel,
  exists c', send_attachments file (length lines + fuel) (Some rest) c = send_attachments file fuel None c' /\ attaching 0 c' /\ sc_sent c' = sc_sent c ++ lines.
Proof.
  enough (H : forall k len rest c, (len < k)%nat -> attaching len c -> (len <= length rest)%nat -> forall fuel,
    exists c', send_attachments file (length (file_lines k len rest) + fuel) (Some rest) c = send_attachments file fuel None c' /\ attaching 0 c' /\ sc_sent c' = sc_sent c ++ file_lines k len rest) by (intros len rest c -> A L fuel; apply H; [lia|exact A|exact L]).
  assert (Bp : (0 < blob_size)%nat) by (apply Nat.ltb_lt; reflexivity).
  induction k as [|k IH]; intros len rest c Lk A L fuel; [lia|]. cbn [file_lines length Nat.add]. set (count := Nat.min len blob_size).
  match goal with |- context [(length ?l + fuel)%nat] => set (more_lines := l) end.
  destruct (attachment_block (length more_lines + fuel) c len rest A L) as (c1 & -> & A1 & S1). fold count in A1, S1 |- *. unfold more_lines in *. destruct (Nat.eqb_spec (len - count) 0) as [E|N].
  - rewrite E in A1. exists c1. split; [reflexivity|]. split; [exact A1|exact S1].
  - destruct (IH (len - count)%nat (skipn count rest) c1) with (fuel := fuel) as (c' & -> & A' & S'); [unfold count in *; lia|exact A1|rewrite length_skipn; lia|].
    exists c'. split; [reflexivity|]. split; [exact A'|]. rewrite S', S1, <- app_assoc. reflexivity.
Qed.
(** Every later round sends the header and an empty line. *)
Lemma attachment_rounds n : forall c fuel, attaching 0 c -> exists c', send_attachments file (2 * n + fuel) None c = send_attachments file fuel None c' /\ attaching 0 c' /\
  sc_sent c' = sc_sent c ++ concat (repeat [attachment_header boundary (cstr path); CRLF] n).
Proof.
  induction n as [|n IH]; intros c fuel A; [exists c; rewrite app_nil_r; auto|]. replace (2 * S n + fuel)%nat with (S (S (2 * n + fuel))) by lia.
  destruct (attachment_opened (S (2 * n + fuel)) c 0 A) as (c1 & -> & A1 & S1). destruct (attachment_block (2 * n + fuel) c1 0 content A1 ltac:(lia)) as (c2 & -> & A2 & S2). cbn [Nat.min Nat.sub Nat.eqb firstn] in *.
  change (base64_encode [] ++ CRLF) with CRLF in S2. destruct (IH c2 fuel A2) as (c' & -> & A' & S'). exists c'. split; [reflexivity|]. split; [exact A'|]. rewrite S', S2, S1, <- !app_assoc. reflexivity.
Qed.
End Attaching.

(** (C22) A mail with attachments is never finished.  Where the server takes its commands and the first file can be opened and read, the client sends what a mail begins with, the first
    attachment's header and content, and then that header and an empty line again, as often as one likes; and whatever the server, the files and the writes do, sending never reports success. *)
Theorem smtp_attachment_forever r c acks go rest it more content : ml_sender_address r <> [] -> ml_recipients r <> [] -> sc_writes c = [] -> sc_authorized c = true \/ ml_authenticate r = false ->
  length acks = (1 + length (ml_recipients r) + length (ml_cc r) + length (ml_bcc r))%nat -> Z.of_nat (length acks) < 2 ^ 31 ->
  List.Forall (reply 250) acks -> reply 354 go -> sc_replies c = concat acks ++ go ++ rest ->
  ml_attachments r = it :: more -> Z.of_nat (length (ml_attachments r)) < 2 ^ 31 -> cstr (at_path it) <> [] -> ends_as_directory (cstr (at_path it)) = false ->
  file (cstr (at_path it)) = Some content -> (at_length it <= length content)%nat ->
  let boundary := default (chars "0x00000000") random_boundary in let header := attachment_header boundary (cstr (at_path it)) in
  (forall n, exists fuel c', smtp_send file random_boundary date getpeername peer unix_time fuel r c = out_of_fuel c' /\
    sc_sent c' = sc_sent c ++ [envelope r; chars "DATA" ++ CRLF; mail_head date boundary r; mail_body (ml_messages r)] ++ [header] ++ file_lines (S (at_length it)) (at_length it) content ++ concat (repeat [header; CRLF] n)) /\
  (forall fuel c0 u c', smtp_send file random_boundary date getpeername peer unix_time fuel r c0 <> smtp_done u c').
Proof.
  intros Ns Nr W Au La Lb Fa Rg Er Ea Lm Np Nd Op Ll boundary header. split.
  - intros n. set (lines := file_lines _ _ content). exists (S (length lines + (2 * n + 0)))%nat.
    destruct (session_reaches r c acks go rest (S (length lines + (2 * n + 0))) Ns Nr W Au La Lb Fa Rg Er) as (c1 & -> & Rq & Bo & Wr & Re & Pe & Se).
    assert (A : attaching (at_path it) more boundary (at_length it) c1).
    { split; [rewrite Rq, Ea; now destruct it|rewrite Pe, Ea in *; cbn [length] in *; unfold wrapS; rewrite Z.mod_small; lia|exact Wr|rewrite Bo, Ea; reflexivity]. }
    destruct (attachment_opened (at_path it) more boundary content Np Nd Op (length lines + (2 * n + 0)) c1 _ A) as (c2 & -> & A2 & S2).
    destruct (attachment_sent (at_path it) more boundary lines _ content c2 eq_refl A2 Ll (2 * n + 0)) as (c3 & -> & A3 & S3).
    destruct (attachment_rounds (at_path it) more boundary content Np Nd Op n c3 0 A3) as (c4 & -> & A4 & S4).
    exists c4. split; [reflexivity|]. rewrite S4, S3, S2, Se, Ea. unfold written_before. cbn [length Nat.ltb Nat.leb]. rewrite <- !app_assoc. reflexivity.
  - intros fuel c0 u c'. apply smtp_attachment_never_sent; [rewrite Ea; discriminate|exact Lm].
Qed.

(** DIGEST-MD5 gives up where getpeername(2) succeeds. *)
Theorem smtp_digest_refused r c u c' : getpeername = 0 -> authorize_digest getpeername peer unix_time r c <> smtp_done u c'.
Proof.
  intros G. unfold authorize_digest, smtp_bind. destruct (send_request _ _ c) as [a c1|? ?|?| |]; try discriminate. unfold smtp_get.
  destruct (quoted_after _ _) as [[nonce|]|]; try discriminate. destruct (quoted_after _ _); try discriminate. rewrite G. discriminate.
Qed.
End Session.
