(* ===== verification/SmtpExamples.v ===== *)
(** * The SMTP client: witnesses, and the mails that go wrong *)
From S2P Require Import Prelude Text TextEdit Codec Md5 Md5Facts Smtp SmtpSpec SmtpMail.
Open Scope Z_scope.

Definition plain_mail (messages : list (list Z)) (files : list attachment) : mail_request :=
  mk_mail [] [mk_recipient (chars "Bob") (chars "b@x.org")] [] [mk_recipient [] (chars "c@x.org")] files messages (chars "Ann") (chars "a@x.org") (chars "Hi") (chars "utf-8") [] []
    [] [] normal_priority false false false.
Definition line_of (s : string) : list Z := chars s ++ CRLF.
Definition greeted (replies : list string) : smtp_client := mk_smtp [] [] [] (plain_mail [] []) 0 false (map line_of replies) [] [].
Abbreviation no_file := (fun _ : list Z => @None (list Z)).
Abbreviation send_plain := (smtp_send no_file None (chars "today") 0 [] []).
Abbreviation send_files := (smtp_send (fun _ => Some (chars "hello")) None (chars "today") 0 [] []).
Definition sent_by (m : smtp_result unit) : list (list Z) := match m with smtp_done _ c => sc_sent c | reported _ c => sc_sent c | waits_reply c => sc_sent c | out_of_fuel c => sc_sent c | undefined => [] end.

Definition sample_mail : mail_request := plain_mail [chars "dear Bob"; chars "bye"] [].
Definition sample_replies : list string := ["250-ok"; "250 sender"; "250 first"; "250 second"; "354 go on"; "250 queued"]%string.
Lemma small_field (s : string) : field (chars s) <-> clean_text (chars s) /\ Z.of_nat (length (chars s)) < 8000.
Proof. reflexivity. Qed.
Ltac field_tac := split; [vm_compute; repeat constructor; discriminate|vm_compute; reflexivity].
Lemma sample_mail_ok : mail_ok (chars "today") sample_mail.
Proof.
  split; [vm_compute; repeat constructor; discriminate|split; field_tac|reflexivity|split; discriminate| |repeat split; try field_tac; vm_compute; repeat constructor; discriminate|constructor| |].
  - repeat (apply List.Forall_cons; [field_tac|]). constructor.
  - repeat (apply List.Forall_cons; [field_tac|]). constructor.
  - repeat (apply List.Forall_cons; [split; [field_tac|unfold dot_free; vm_compute; discriminate]|]). constructor.
Qed.
Ltac reply_tac before := exists before; eexists; (split; [reflexivity|]); (split; [repeat constructor; vm_compute; discriminate|]); repeat split; vm_compute; reflexivity.
Lemma smtp_mail_arrives_witness : exists c' sent, send_plain 1 sample_mail (greeted sample_replies) = smtp_done tt c' /\ sc_replies c' = [] /\ sc_sent c' = sent /\
  received_from (concat sent) = map got_command [chars "MAIL FROM: <a@x.org>"; chars "RCPT TO: <b@x.org>"; chars "RCPT TO: <c@x.org>"; chars "DATA"] ++
    [got_mail (head_lines (chars "today") sample_mail ++ [[]; chars "dear Bob"; chars "bye"; []])].
Proof.
  destruct (smtp_mail_arrives no_file None (chars "today") 0 [] [] sample_mail (greeted sample_replies) [[line_of "250-ok"; line_of "250 sender"]; [line_of "250 first"]; [line_of "250 second"]] [line_of "354 go on"] [line_of "250 queued"] [] 0)
    as (c' & sent & A & B & C & D); [exact sample_mail_ok|reflexivity|right; reflexivity|reflexivity|reflexivity| | | |reflexivity|].
  - apply List.Forall_cons; [reply_tac [line_of "250-ok"]|]. apply List.Forall_cons; [reply_tac (@nil (list Z))|]. apply List.Forall_cons; [reply_tac (@nil (list Z))|constructor].
  - reply_tac (@nil (list Z)).
  - reply_tac (@nil (list Z)).
  - exists c', sent. split; [exact A|]. split; [exact B|]. split; [exact C|exact D].
Defined.

Lemma smtp_challenges_witness : cram_md5 (chars "tim") (chars "tanstaaftanstaaf") (chars "<1896.697170952@postoffice.reston.mci.net>") = Some (chars "tim b913a602c7eda7a495b4e6e7334d3890") /\
  digest_md5 (chars "chris") (chars "elwood.innosoft.com") (chars "secret") (chars "OA6MG9tEQGm2hh") (chars "OA6MHXh6VqTrRk") (chars "00000001") (chars "imap/elwood.innosoft.com") = Some (chars "d388dad90d4bbd760a152321f2143af7").
Proof.
  destruct (smtp_challenges (chars "tim") [] (chars "tanstaaftanstaaf") (chars "<1896.697170952@postoffice.reston.mci.net>") [] [] [] []) as [A _]; [repeat (apply List.Forall_cons; [split; vm_compute; reflexivity|]); constructor|repeat (apply List.Forall_cons; [vm_compute; reflexivity|]); constructor|].
  destruct (smtp_challenges (chars "chris") (chars "elwood.innosoft.com") (chars "secret") [] (chars "OA6MG9tEQGm2hh") (chars "OA6MHXh6VqTrRk") (chars "00000001") (chars "imap/elwood.innosoft.com")) as [_ B];
    [repeat (apply List.Forall_cons; [split; vm_compute; reflexivity|]); constructor|repeat (apply List.Forall_cons; [vm_compute; reflexivity|]); constructor|].
  split; [rewrite A|rewrite B]; md5_computed.
Defined.
(** Two rounds of a file of five bytes: its header and content, the header and an empty line twice. *)
Lemma smtp_attachment_forever_witness : let mail := plain_mail [chars "see below"] [mk_attachment (chars "f.txt") 5] in
  let header := attachment_header (chars "0x00000000") (chars "f.txt") in
  (exists fuel c', send_files fuel mail (greeted sample_replies) = out_of_fuel c' /\
    sc_sent c' = [envelope mail; chars "DATA" ++ CRLF; mail_head (chars "today") (chars "0x00000000") mail; mail_body [chars "see below"]; header; base64_encode (chars "hello") ++ CRLF; header; CRLF; header; CRLF]) /\
  (forall fuel u c', send_files fuel mail (greeted sample_replies) <> smtp_done u c').
Proof.
  cbv zeta. destruct (smtp_attachment_forever (fun _ => Some (chars "hello")) None (chars "today") 0 [] [] (plain_mail [chars "see below"] [mk_attachment (chars "f.txt") 5]) (greeted sample_replies)
    [[line_of "250-ok"; line_of "250 sender"]; [line_of "250 first"]; [line_of "250 second"]] [line_of "354 go on"] [line_of "250 queued"] (mk_attachment (chars "f.txt") 5) [] (chars "hello")) as [A B];
    [discriminate|discriminate|reflexivity|right; reflexivity|reflexivity|reflexivity| | |reflexivity|reflexivity|reflexivity|discriminate|reflexivity|reflexivity|apply Nat.leb_le; reflexivity|].
  - apply List.Forall_cons; [reply_tac [line_of "250-ok"]|]. apply List.Forall_cons; [reply_tac (@nil (list Z))|]. apply List.Forall_cons; [reply_tac (@nil (list Z))|constructor].
  - reply_tac (@nil (list Z)).
  - split; [|intros fuel u c'; exact (B fuel _ u c')]. destruct (A 2%nat) as (fuel & c' & E & S). exists fuel, c'. split; [exact E|exact S].
Defined.
Lemma smtp_digest_refused_witness : forall u c', authorize_digest 0 [] [] sample_mail (greeted sample_replies) <> smtp_done u c'.
Proof. intros u c'. apply (smtp_digest_refused 0 [] [] sample_mail (greeted sample_replies) u c'). reflexivity. Defined.

(** A line of a message that begins with a dot loses it, and a line that is a dot ends the mail: what follows is taken for commands. *)
Theorem smtp_message_smuggles :
  received_from (concat (sent_by (send_plain 1 (plain_mail [chars "one"; chars "."; chars "MAIL FROM: <other@x.org>"] []) (greeted sample_replies)))) =
    map got_command [chars "MAIL FROM: <a@x.org>"; chars "RCPT TO: <b@x.org>"; chars "RCPT TO: <c@x.org>"; chars "DATA"] ++
    [got_mail (head_lines (chars "today") sample_mail ++ [[]; chars "one"])] ++ map got_command [chars "MAIL FROM: <other@x.org>"; []; chars "."] /\
  received_from (concat (sent_by (send_plain 1 (plain_mail [chars "..."] []) (greeted sample_replies)))) =
    map got_command [chars "MAIL FROM: <a@x.org>"; chars "RCPT TO: <b@x.org>"; chars "RCPT TO: <c@x.org>"; chars "DATA"] ++ [got_mail (head_lines (chars "today") sample_mail ++ [[]; chars ".."; []])].
Proof. split; vm_compute; reflexivity. Qed.
(** A message that does not fit the buffer of [append] is cut, its line end is lost and a zero is sent for it. *)
Theorem smtp_message_cut text : clean_text text -> (blob_size <= length text)%nat -> mail_body [text] = firstn (blob_size - 1) text ++ [0].
Proof.
  intros C L. unfold mail_body. cbn [map concat]. rewrite app_nil_r, (cstr_clean text C). unfold format_text. rewrite (proj2 (Nat.ltb_ge _ _)) by (rewrite length_app; lia). f_equal.
  rewrite firstn_app. replace (blob_size - 1 - length text)%nat with 0%nat by lia. apply app_nil_r.
Qed.
Lemma smtp_message_cut_witness : mail_body [repeat 97 9000] = firstn (blob_size - 1) (repeat 97 9000) ++ [0].
Proof.
  apply (smtp_message_cut (repeat 97 9000)); [|apply Nat.leb_le; vm_compute; reflexivity].
  apply List.Forall_forall. intros c Hc. apply repeat_spec in Hc. subst c. lia.
Defined.
(** A circumflex in the password is sent as the zero that ends the login. *)
Theorem plain_password_cut : plain_hash (chars "me") (chars "a^b") = chars "me" ++ [0] ++ chars "me" ++ [0] ++ chars "a" ++ [0] ++ chars "b".
Proof. vm_compute. reflexivity. Qed.
